(* ===== verification/_CoqProject ===== *)
-Q . S2P
Prelude.v
Prevector.v
Queue.v
Sync.v
Bech32.v
ArithUint256.v
Serialize.v
Containers.v
Uint256.v
StrEncodings.v
MdHash.v
Streams.v
SipHash.v
Sha256.v
Sha256D64.v
ChaCha20.v
Sha512.v
Rng.v
Random.v
Hash160.v
Sha256Gpu.v
Script.v
PubKey.v
Key.v
Tx.v
Interpreter.v
SigHash.v
SoftFork.v
EvalSafety.v
ScriptSpecs.v
ScriptNames.v
Block.v
GpuMiner.v
Pow.v
Standard.v
Store.v
Validate.v
Spend.v
Chain.v
Known.v
ChainProps.v
NetMessages.v
Node.v
PeerLogic.v
PeerProps.v
