(* ===== verification/Prelude.v ===== *)
(** * Verification of the bitcoin_gpu_miner node

    The program is a Bitcoin regression-test node that mines on a GPU.  It
    connects to a peer, downloads the block chain headers first, validates and
    stores blocks, keeps a pool of transactions, makes block templates, searches
    nonces with an OpenCL kernel, and broadcasts the blocks it finds.

<<
      peer  <-- bytes -->  Node, NetMan           net.h, net.cpp
                             | one message at a time
                           PeerLogicMan, IBD      peer_logic_man.h, .cpp
                             | blocks, transactions          | start, reset
                           BlockChain, TXMemPool             Miner
                           blockchain.h, .cpp, block.cpp     | header, nonce
                             | scripts      | databases      BTC_SHA256_GPU
                           interpreter    LevelDB            btc_sha256_gpu.*
>>

    ** Files and what they model

    - [Prelude] (this file): machine integers as [Z] with [wrap] and [swrap]
      written where C wraps, bytes and byte order, congruences, tactics and hints.
    - [ArithUint256], [Uint256]: arith_uint256.h/.cpp ([base_uint] limb by limb,
      compact targets) and uint256.h/.cpp with the byte-order helpers of common.h.
    - [Prevector], [Queue], [Sync]: prevector.h, the container behind scripts, on an
      explicit heap; queue.h, the blocking queue, at the grain of single loads,
      stores, locks and notifications; the lock order check of sync.h/.cpp, compiled
      in with DEBUG_LOCKORDER only, and the semaphores.
    - [Serialize], [Containers], [Streams]: serialize.h and the stream
      [NetMessageData] of net.h; its sizes, pairs, sets, maps and pointers; the data
      stream, vector writer and files of streams.h.
    - [StrEncodings], [Bech32]: utilstrencodings.h/.cpp and the Bech32 part of
      keyio.cpp.
    - [MdHash], [Sha256], [Sha256D64], [Sha512], [Hash160], [SipHash], [ChaCha20]:
      sha256_cpu.cpp, sha512.cpp, hmac_sha512.cpp, ripemd160.cpp, sha1.cpp,
      chacha20.cpp and the hash objects of hash.h and hash.cpp.
    - [Rng], [Random]: random.cpp, the process-wide generator, and random.h,
      [FastRandomContext] and [Shuffle].
    - [Sha256Gpu], [GpuMiner]: the kernel btc_sha256_gpu.cl, and padding, result
      scan and the two-thread mining loop of btc_sha256_gpu.cpp.
    - [Script], [PubKey], [Key], [Interpreter], [SigHash], [ScriptNames]:
      script/script.h and .cpp, pubkey.h/.cpp, key.h/.cpp, script/interpreter.h and
      .cpp, script/script_error.cpp.  [EvalSafety], [SoftFork] and [ScriptSpecs]
      hold properties of the interpreter.
    - [Standard]: script/standard.h and .cpp and the addresses of keyio.cpp.
    - [Tx], [Block], [Pow]: tx.h, amount.h, block.h/.cpp, params.h and the
      proof-of-work functions of blockchain.h.
    - [Store], [Validate], [Chain]: blockchain.h and blockchain.cpp: the database
      wrappers and the UTXO set, transaction validation, and tips, memory pool,
      block acceptance and templates.  [Spend], [Known] and [ChainProps] hold
      properties that compose them.
    - [NetMessages], [Node], [PeerLogic]: net.h, net.cpp, peer_logic_man.h and
      .cpp; [PeerProps] holds the properties of the peer logic.

    ** How code becomes definitions

    A structure is a record and a class member function a function on it that
    returns the new object when it changes one.  Failures are values: exceptions
    and short reads in [outcome] ([Serialize]), [set_error], exceptions and
    assertions in [ev] ([Interpreter]), null dereferences, failed assertions and
    uses of uninitialised variables in [res] ([Store]); state is threaded by the
    small monads [rd], [ev], [ch], [pm] and [R] ([Rng]).  Memory is explicit where
    the code manages it: [Prevector] has a heap of blocks with uninitialised cells,
    and objects that start with unset buffers take their contents as an argument.
    Concurrency is explicit: the mining loop, a connection and the threads of a
    queue are step functions over events, quantified over every order of events.

    Code outside the sources is a type class with the laws its documentation
    gives: [LevelDB] with [LevelDBLaws] ([gmap_db] satisfies them), [Secp256k1] and
    [Secp256k1Keys] with [Secp256k1KeysLaws], [Allocator], and [Host] with
    [HostLaws] and [HostAnswers] for clocks, processor and operating system.
    Templates over a stream or a generator are classes too: [Serializable],
    [Randrange] with [RandrangeLaws], which [FastRandomContext] is shown to obey.
    In [Validate] and [Chain] the interpreter is an argument [VerifyScript];
    [Spend] instantiates it with the model of the interpreter.

    ** What the theorems show

    - Blocks: a block that [AcceptBlock] connects to the active chain passes every
      check, its transactions spend distinct existing coins, and the stored coins
      become those of the abstract set ([ChainProps]); the UTXO database refines a
      finite map and its undo is exact ([Store]); [CheckTransaction] accepts
      exactly the transactions of its specification ([Validate]); a witness coin
      moves only with a signature of the spending transaction ([Spend]).
    - Mining: every work item of a launch hashes the header with its own nonce,
      the scan returns the first solution, and in every interleaving a block that
      exists changes only to one that meets its target ([Sha256Gpu], [GpuMiner]).
      This is for at most [2^26] items per launch, whose offsets fit an [int], and
      for a work size whose upper half, which the host reads from behind a
      [uint32_t], is zero; [wide_launch_overwrites] shows what happens otherwise.
    - Scripts: [EvalScript] is memory safe and total on well-formed machines,
      flags only restrict, multisig is order-preserving matching, key hash outputs
      need the key, the signature hash of a script code that can be read to its end
      is the hash of the modified copy, and the strict encoding check accepts exactly
      DER of integers that are not negative.
    - Keys: public derivation agrees with private derivation along any path, what
      [Sign] returns verifies and is strictly encoded, keys survive being stored
      ([Key]); a standard output names its destination and an address decodes to
      what it encodes ([Standard]); the Bech32 checksum finds every burst of errors
      up to six symbols ([Bech32]).
    - Hashes and arithmetic: unrolled SHA-256, SHA-512, SHA-1 and RIPEMD-160 equal
      the published functions however the input is cut, as do HMAC, SipHash and
      ChaCha20; the folded double hash of 64-byte blocks is the double hash; 256-bit
      operators are exact modulo 2^256, division terminates, compact targets decode
      as documented.
    - Random numbers: the generator is a hash chain into which operating system
      entropy goes before anything comes out; a context reads a ChaCha20 stream;
      [randrange] is rejection sampling; [Shuffle] reaches every order by exactly one
      sequence of draws ([Rng], [Random]).
    - Containers and streams: prevector refines a vector without memory errors, the
      data stream refines a queue of bytes, the ring buffer of a file refines the
      file, and the blocking queue is first in, first out under every schedule;
      without a report no two threads take two locks in opposite orders, and the
      grants of a semaphore add up.
    - Formats: transactions, blocks, compact sizes, script numbers, framed messages,
      Base64 and Base32 are read back; fixed point numbers are parsed exactly.
    - Peers: writes leave in the order pushed, one at a time; every framed message
      reaches the handler, in order; mining waits for the announced blocks; the
      download from a peer that answers completes.
    - Error behaviour that the code has, stated as theorems: a fork never
      overtakes, orphan transactions are lost, a coinbase may pay any amount, a
      block announced twice stalls the download, a shutdown of the queue can be
      missed, a failed load leaves a key marked valid, a buffered file may refuse to
      rewind by one byte or give stale bytes after a seek.

    ** Bounds and fuel

    - [EvalScript] runs one round per byte of the script at most; the loop takes
      the length of the script as fuel and is proved not to run out.
    - The walks of [Chain] along stored blocks take [fuel]; running out is the
      fault [Hang], never a result, and [ChainProps.min_difficulty_is_kept] gives the
      length of the stored chain as enough.
    - [drain] ([Node]) takes two steps per message; the theorem holds for every
      larger fuel.
    - The loops of [Rng] that wait for the machine take [fuel]; on a host that
      satisfies [HostAnswers] for it every request returns.  [randrange] makes at
      most [fuel] draws and is [Unfinished] only if all are rejected.
    - [bf_read] ([Streams]) takes a byte per round at least, [FindByte] is given more
      rounds than the file has bytes; both are proved to return or throw.
    - The division loop counts down from the difference of the bit lengths, as
      the source does.
    - Sizes: streams are shorter than 2^32 bytes (the read position is a
      [uint32_t]), hashed messages shorter than 2^61 bytes (the bit count is a
      [uint64_t]).

    ** Not modelled

    LevelDB and secp256k1 are vendored libraries, the sockets, timers and threads
    are boost::asio, and the OpenCL host calls are the driver: their effects are
    arguments, events or classes.  Logging, text formatting, the command line and
    [ParseDouble] are text and host calls; thread_pool.h posts to boost::asio,
    and the cache of script/sigcache.cpp is
    commented out, so its checker is the plain one ([SigHash]).  memory_cleanse wipes
    buffers that are not read again.  The byte order shims are the little- and
    big-endian bytes of a number.  Data races that the comments of the source do not
    rule out are modelled only where threads share state in the mining loop and in
    the queue; message handlers run one after the other, as their single worker
    thread runs them. *)

From Stdlib Require Import ZifyNat.
From stdpp Require Import base list numbers decidable strings.

Open Scope Z_scope.

(** ** Machine integers

    A value of an unsigned [w]-bit C type is a [Z] in [0, 2^w); the wrap-around
    of the C operators is written out with [wrap w].  Signed types use
    [swrap w], the two's complement reduction. *)

Definition wrap (w : Z) (x : Z) : Z := x mod 2 ^ w.
Definition swrap (w : Z) (x : Z) : Z := (x + 2 ^ (w - 1)) mod 2 ^ w - 2 ^ (w - 1).

Abbreviation wrap8 := (wrap 8).
Abbreviation wrap16 := (wrap 16).
Abbreviation wrap32 := (wrap 32).
Abbreviation wrap64 := (wrap 64).
Abbreviation swrap32 := (swrap 32).
Abbreviation swrap64 := (swrap 64).

Definition fits (w : Z) (x : Z) : Prop := 0 <= x < 2 ^ w.
Definition sfits (w : Z) (x : Z) : Prop := - 2 ^ (w - 1) <= x < 2 ^ (w - 1).

#[global] Instance fits_dec w x : Decision (fits w x).
Proof. unfold fits. apply _. Defined.
#[global] Instance sfits_dec w x : Decision (sfits w x).
Proof. unfold sfits. apply _. Defined.

Abbreviation byte_ok := (fits 8).
Abbreviation u32_ok := (fits 32).
Abbreviation u64_ok := (fits 64).
Abbreviation bytes_ok := (Forall byte_ok).

(** The C operators on [uint32_t]. *)
Definition add32 (x y : Z) : Z := wrap32 (x + y).
Definition shl32 (x n : Z) : Z := wrap32 (Z.shiftl x n).
Definition shr32 (x n : Z) : Z := Z.shiftr x n.
Definition not32 (x : Z) : Z := Z.lxor x (2 ^ 32 - 1).

(** The C operators on [uint64_t]. *)
Definition add64 (x y : Z) : Z := wrap64 (x + y).
Definition shl64 (x n : Z) : Z := wrap64 (Z.shiftl x n).

Create HintDb word.

Lemma pow2_pos w : 0 <= w → 0 < 2 ^ w.
Proof. intros. by apply Z.pow_pos_nonneg. Qed.

Lemma wrap_fits w x : 0 <= w → fits w (wrap w x).
Proof. intros. by apply Z.mod_pos_bound, pow2_pos. Qed.

Lemma wrap_id w x : fits w x → wrap w x = x.
Proof. apply Z.mod_small. Qed.

Lemma swrap_id w x : 1 <= w → sfits w x → swrap w x = x.
Proof.
  unfold swrap, sfits. intros Hw Hx.
  assert (2 ^ w = 2 * 2 ^ (w - 1)) by (rewrite <- Z.pow_succ_r by lia; f_equal; lia).
  rewrite Z.mod_small by lia. lia.
Qed.

Lemma swrap_sfits w x : 1 <= w → sfits w (swrap w x).
Proof.
  unfold swrap, sfits. intros Hw.
  assert (2 ^ w = 2 * 2 ^ (w - 1)) by (rewrite <- Z.pow_succ_r by lia; f_equal; lia).
  pose proof (Z.mod_pos_bound (x + 2 ^ (w - 1)) (2 ^ w) ltac:(apply pow2_pos; lia)). lia.
Qed.

Lemma wrap_wrap w x : wrap w (wrap w x) = wrap w x.
Proof. apply Zmod_mod. Qed.

Lemma wrap_0 w : 0 <= w → wrap w 0 = 0.
Proof. intros. apply Z.mod_0_l. pose proof (pow2_pos w). lia. Qed.

#[export] Hint Resolve wrap_fits pow2_pos : word.
#[export] Hint Extern 1 (_ <= _) => lia : word.
#[export] Hint Extern 1 (_ < _) => lia : word.

(** Linear arithmetic with division and remainder by constants. *)
Ltac divlia := zify; Z.div_mod_to_equations; lia.

(** ** Congruence modulo [2^w]

    Sums that the code wraps at every step are compared by rewriting with
    [cong_wrap] inside them. *)
Definition cong (w x y : Z) : Prop := wrap w x = wrap w y.

#[global] Instance cong_equiv w : Equivalence (cong w).
Proof. split; red; unfold cong; congruence. Qed.

#[global] Instance cong_add w : Proper (cong w ==> cong w ==> cong w) Z.add.
Proof.
  intros x x' Hx y y' Hy. unfold cong, wrap in *.
  by rewrite (Zplus_mod x y), Hx, Hy, <- Zplus_mod.
Qed.

#[global] Instance cong_mul w : Proper (cong w ==> cong w ==> cong w) Z.mul.
Proof.
  intros x x' Hx y y' Hy. unfold cong, wrap in *.
  by rewrite (Zmult_mod x y), Hx, Hy, <- Zmult_mod.
Qed.

Lemma cong_wrap w x : cong w (wrap w x) x.
Proof. apply wrap_wrap. Qed.

(** Both sides are one wrapped sum of the same terms. *)
Ltac wrapped_sum :=
  unfold add32, add64;
  match goal with |- wrap ?w ?x = wrap ?w ?y => change (cong w x y) end;
  repeat setoid_rewrite cong_wrap; unfold cong; f_equal; ring.

(** ** Bits *)

(** [zbits] reduces an equality of integers to an equality of their bits and
    rewrites the bit operators away; what is left are cases on bit positions. *)
Lemma testbit_fits w x n : fits w x → w <= n → Z.testbit x n = false.
Proof.
  intros [H0 H1] Hn. destruct (decide (x = 0)) as [->|]; [apply Z.bits_0|].
  apply Z.bits_above_log2; [lia|].
  assert (0 <= w) by (destruct (Z.le_gt_cases 0 w); [done|rewrite Z.pow_neg_r in H1; lia]).
  assert (Z.log2 x < w) by (apply Z.log2_lt_pow2; lia). lia.
Qed.

Lemma fits_testbit w x :
  0 <= w → 0 <= x → (∀ n, w <= n → Z.testbit x n = false) → fits w x.
Proof.
  intros Hw Hx Hb. split; [done|].
  assert (x / 2 ^ w = 0) as Hd.
  { rewrite <- Z.shiftr_div_pow2 by done. apply Z.bits_inj'. intros n Hn.
    rewrite Z.shiftr_spec by done. rewrite Z.bits_0. apply Hb. lia. }
  apply Z.div_small_iff in Hd; [|pose proof (pow2_pos w); lia]. pose proof (pow2_pos w). lia.
Qed.

Lemma land_fits w x y : 0 <= w → fits w x → 0 <= y → fits w (Z.land x y).
Proof.
  intros Hw Hx Hy. apply fits_testbit; [done| |].
  - apply Z.land_nonneg. left. apply Hx.
  - intros n Hn. rewrite Z.land_spec, (testbit_fits w x n) by done. done.
Qed.

Lemma lor_fits w x y : 0 <= w → fits w x → fits w y → fits w (Z.lor x y).
Proof.
  intros Hw Hx Hy. apply fits_testbit; [done| |].
  - apply Z.lor_nonneg. split; [apply Hx|apply Hy].
  - intros n Hn. by rewrite Z.lor_spec, (testbit_fits w x n), (testbit_fits w y n).
Qed.

Lemma lxor_fits w x y : 0 <= w → fits w x → fits w y → fits w (Z.lxor x y).
Proof.
  intros Hw Hx Hy. apply fits_testbit; [done| |].
  - apply Z.lxor_nonneg. unfold fits in *. lia.
  - intros n Hn. by rewrite Z.lxor_spec, (testbit_fits w x n), (testbit_fits w y n).
Qed.

Lemma shiftr_fits w x n : 0 <= w → 0 <= n → fits w x → fits w (Z.shiftr x n).
Proof.
  intros Hw Hn Hx. unfold fits in *. rewrite Z.shiftr_div_pow2 by done.
  pose proof (pow2_pos n Hn). split; [apply Z.div_pos; lia|].
  apply Z.div_lt_upper_bound; [lia|]. nia.
Qed.
#[export] Hint Resolve land_fits lor_fits lxor_fits shiftr_fits : word.

(** Two numbers whose bits do not overlap are joined by [|]. *)
Lemma lor_add_disjoint x y w :
  0 <= w → fits w x → Z.lor x (Z.shiftl y w) = x + y * 2 ^ w.
Proof.
  intros Hw Hx. rewrite <- Z.shiftl_mul_pow2 by done. symmetry. apply Z.add_nocarry_lor.
  apply Z.bits_inj'. intros n Hn. rewrite Z.land_spec, Z.bits_0.
  destruct (Z.lt_ge_cases n w).
  - rewrite Z.shiftl_spec_low by done. by rewrite andb_false_r.
  - by rewrite (testbit_fits w x n).
Qed.

(** Testing one bit with a mask. *)
Lemma land_pow2 w n : 0 <= n → negb (Z.land w (Z.shiftl 1 n) =? 0) = Z.testbit w n.
Proof.
  intros Hn. rewrite Z.shiftl_1_l. destruct (Z.testbit w n) eqn:E.
  - apply negb_true_iff, Z.eqb_neq. intros H0.
    assert (Z.testbit (Z.land w (2 ^ n)) n = true) as Ht
      by (rewrite Z.land_spec, E, Z.pow2_bits_true by done; done).
    by rewrite H0, Z.bits_0 in Ht.
  - apply negb_false_iff, Z.eqb_eq. apply Z.bits_inj'. intros m Hm.
    rewrite Z.land_spec, Z.bits_0. destruct (decide (m = n)) as [->|].
    + by rewrite E.
    + by rewrite Z.pow2_bits_false, andb_false_r by done.
Qed.

(** The top bit of a [w+1]-bit number. *)
Lemma testbit_top w x : 0 <= w → fits (w + 1) x → Z.testbit x w = (2 ^ w <=? x).
Proof.
  intros Hw [H0 H1]. destruct (Z.leb_spec (2 ^ w) x).
  - assert (Z.log2 x = w) as E by (apply Z.log2_unique; lia). pose proof (pow2_pos w Hw).
    rewrite <- E. apply Z.bit_log2. lia.
  - by apply (testbit_fits w).
Qed.

(** ** Byte order

    The C code moves integers to and from byte buffers with [memcpy] and the
    [htole]/[le..toh] and [htobe]/[be..toh] families; what these compute is the
    little- or big-endian sequence of the bytes of a value, on any host. *)

Fixpoint le_bytes (n : nat) (x : Z) : list Z :=
  match n with
  | O => []
  | S n' => x mod 256 :: le_bytes n' (x / 256)
  end.

Fixpoint le_value (l : list Z) : Z :=
  match l with
  | [] => 0
  | b :: l' => b + 256 * le_value l'
  end.

Definition be_bytes (n : nat) (x : Z) : list Z := reverse (le_bytes n x).
Definition be_value (l : list Z) : Z := le_value (reverse l).

Lemma length_le_bytes n x : length (le_bytes n x) = n.
Proof. revert x. induction n; intros; simpl; [done|]. by rewrite IHn. Qed.

Lemma length_be_bytes n x : length (be_bytes n x) = n.
Proof. unfold be_bytes. by rewrite length_reverse, length_le_bytes. Qed.

Lemma le_bytes_ok n x : bytes_ok (le_bytes n x).
Proof.
  revert x. induction n; intros; simpl; constructor; [|done].
  apply Z.mod_pos_bound. lia.
Qed.

Lemma be_bytes_ok n x : bytes_ok (be_bytes n x).
Proof. apply Forall_reverse, le_bytes_ok. Qed.

Lemma le_value_bound l : bytes_ok l → 0 <= le_value l < 256 ^ Z.of_nat (length l).
Proof.
  induction 1 as [|b l [Hb0 Hb1] _ IH]; [simpl; lia|].
  cbn [le_value length]. rewrite Nat2Z.inj_succ, Z.pow_succ_r by lia.
  change (2 ^ 8) with 256 in Hb1. lia.
Qed.

Lemma le_value_le_bytes n x : le_value (le_bytes n x) = x mod 256 ^ Z.of_nat n.
Proof.
  revert x. induction n as [|n IH]; intros x; [by rewrite Z.mod_1_r|].
  cbn [le_bytes le_value]. rewrite IH, Nat2Z.inj_succ, Z.pow_succ_r by lia.
  rewrite Z.rem_mul_r; [done|lia|apply Z.pow_pos_nonneg; lia].
Qed.

Lemma le_bytes_le_value l : bytes_ok l → le_bytes (length l) (le_value l) = l.
Proof.
  induction 1 as [|b l [Hb0 Hb1] _ IH]; [done|]. change (2 ^ 8) with 256 in Hb1.
  cbn [length le_value le_bytes]. rewrite Z.mul_comm, Z.mod_add, Z.div_add by lia.
  by rewrite Z.mod_small, Z.div_small, Z.add_0_l, IH by lia.
Qed.

Lemma le_value_inj l1 l2 :
  bytes_ok l1 → bytes_ok l2 → length l1 = length l2 → le_value l1 = le_value l2 → l1 = l2.
Proof.
  intros H1 H2 Hl Hv. rewrite <- (le_bytes_le_value l1), <- (le_bytes_le_value l2) by done.
  by rewrite Hl, Hv.
Qed.

Lemma le_value_app l1 l2 :
  le_value (l1 ++ l2) = le_value l1 + 256 ^ Z.of_nat (length l1) * le_value l2.
Proof.
  induction l1 as [|b l1 IH]; [simpl; lia|]. cbn [le_value app length].
  rewrite IH, Nat2Z.inj_succ, Z.pow_succ_r by lia. lia.
Qed.

Lemma be_value_be_bytes n x : be_value (be_bytes n x) = x mod 256 ^ Z.of_nat n.
Proof. unfold be_value, be_bytes. by rewrite reverse_involutive, le_value_le_bytes. Qed.

Lemma be_bytes_be_value l : bytes_ok l → be_bytes (length l) (be_value l) = l.
Proof.
  intros Hl. unfold be_value, be_bytes. rewrite <- length_reverse.
  rewrite le_bytes_le_value by by apply Forall_reverse. apply reverse_involutive.
Qed.

(** Leading zeros do not change a number. *)
Lemma le_bytes_app m n x : le_bytes (m + n) x = le_bytes m x ++ le_bytes n (x / 256 ^ Z.of_nat m).
Proof.
  revert x. induction m as [|m IH]; intros x; [by rewrite Z.div_1_r|]. cbn [le_bytes Nat.add app]. f_equal.
  rewrite IH, Z.div_div by lia. do 3 f_equal. rewrite Nat2Z.inj_succ, Z.pow_succ_r by lia. done.
Qed.

Lemma be_bytes_wide m n x : fits (8 * Z.of_nat n) x → be_bytes (n + m) x = replicate m 0 ++ be_bytes n x.
Proof.
  intros [H0 H1]. unfold be_bytes. rewrite le_bytes_app, reverse_app.
  rewrite Z.div_small by (split; [done|change 256 with (2 ^ 8); rewrite <- Z.pow_mul_r by lia; done]).
  f_equal. clear. assert (le_bytes m 0 = replicate m 0) as -> by (induction m as [|m IH]; [done|]; cbn; by f_equal).
  apply reverse_replicate.
Qed.

Lemma be_value_bound l : bytes_ok l → 0 <= be_value l < 256 ^ Z.of_nat (length l).
Proof.
  intros Hl. unfold be_value. rewrite <- (length_reverse l).
  by apply le_value_bound, Forall_reverse.
Qed.

(** The character codes of a C string literal. *)
Fixpoint chars (s : string) : list Z :=
  match s with
  | EmptyString => []
  | String c s' => Z.of_N (Ascii.N_of_ascii c) :: chars s'
  end.

(** ** Lists *)

Lemma Forall_repl {A} (P : A → Prop) l i x : P x → Forall P l → Forall P (<[i:=x]> l).
Proof. intros. by apply Forall_insert. Qed.

Lemma Forall_snoc {A} (P : A → Prop) l x : Forall P l → P x → Forall P (l ++ [x]).
Proof. intros. apply Forall_app. split; [done|]. by apply Forall_cons_2. Qed.

(** [for (i = lo; i < hi; i++) s = body(i, s)]. *)
Definition for_range {S} (lo n : nat) (body : nat → S → S) (s : S) : S :=
  foldl (λ s i, body i s) s (seq lo n).

Lemma for_range_S {S} n (body : nat → S → S) s :
  for_range 0 (Datatypes.S n) body s = body n (for_range 0 n body s).
Proof. unfold for_range. by rewrite seq_S, foldl_app. Qed.

Lemma for_range_ind {S} (P : nat → S → Prop) lo n body s :
  P lo s → (∀ i s, (lo <= i < lo + n)%nat → P i s → P (Datatypes.S i) (body i s)) →
  P (lo + n)%nat (for_range lo n body s).
Proof.
  unfold for_range. revert lo s. induction n as [|n IH]; intros lo s H0 Hs; simpl.
  - by rewrite Nat.add_0_r.
  - replace (lo + Datatypes.S n)%nat with (Datatypes.S lo + n)%nat by lia. apply IH.
    + apply Hs; [lia|done].
    + intros i s' Hi. apply Hs. lia.
Qed.
