(* ===== verification/Prevector.v ===== *)
(** * The vector behind [CScript]: [prevector.h]

    [prevector<N, T>] keeps up to [N] elements inside the object and more of them
    in a heap block; the field [_size] says which, because it counts [N + 1] more
    when the elements are in the heap.  Here [T] is [unsigned char], a cell of
    memory is [None] while it is uninitialised, the heap is a map from addresses
    to blocks, and [storage] is the active member of the union.  Reading the other
    member, touching a cell outside a block, reading an uninitialised cell and
    freeing what is not allocated are [MFault]; the assertion after a failed
    allocation is [MAbort].  An iterator is the offset of its pointer from
    [begin()]. *)

From stdpp Require Import base gmap list numbers decidable.
From S2P Require Import Prelude.

Open Scope Z_scope.

(** ** Memory *)

Abbreviation cell := (option Z).
Abbreviation heap := (gmap Z (list (option Z))).

Inductive mres (A : Type) :=
  | MOk (a : A)
  | MAbort
  | MFault.
Arguments MOk {A} a.
Arguments MAbort {A}.
Arguments MFault {A}.

Definition mem_bind {A B} (x : mres A) (f : A → mres B) : mres B :=
  match x with MOk a => f a | MAbort => MAbort | MFault => MFault end.
Declare Scope mem_scope.
Delimit Scope mem_scope with mem.
Notation "'let&' x ':=' c1 'in' c2" := (mem_bind c1 (λ x, c2))
  (at level 10, x name, c1 at level 100, c2 at level 200) : mem_scope.
Notation "'let&' ' p ':=' c1 'in' c2" := (mem_bind c1 (λ p, c2))
  (at level 10, p strict pattern, c1 at level 100, c2 at level 200) : mem_scope.
Open Scope mem_scope.

Definition of_option {A} (o : option A) : mres A := match o with Some a => MOk a | None => MFault end.

(** [n] cells from [off] on, and writing cells there. *)
Definition in_block (b : list cell) (off n : Z) : bool :=
  (0 <=? off) && (0 <=? n) && (off + n <=? Z.of_nat (length b)).
Definition load (b : list cell) (off n : Z) : mres (list cell) :=
  if in_block b off n then MOk (take (Z.to_nat n) (drop (Z.to_nat off) b)) else MFault.
Definition store (b : list cell) (off : Z) (cs : list cell) : mres (list cell) :=
  if in_block b off (Z.of_nat (length cs)) then
    MOk (take (Z.to_nat off) b ++ cs ++ drop (Z.to_nat off + length cs) b)
  else MFault.
Definition uninit (n : Z) : list cell := replicate (Z.to_nat n) None.

(** [memmove] inside one block. *)
Definition memmove (b : list cell) (dst src n : Z) : mres (list cell) :=
  let& cs := load b src n in store b dst cs.

(** The elements of initialised cells. *)
Definition values (cs : list cell) : mres (list Z) := of_option (mapM id cs).

(** The allocator: what it answers for the addresses in use and a size. *)
Class Allocator := { alloc : gset Z → Z → option Z; alloc_fresh : ∀ d n p, alloc d n = Some p → p ∉ d }.

Section memory.
Context `{Allocator}.

Definition malloc (h : heap) (n : Z) : mres (Z * heap) :=
  match alloc (dom h) n with
  | Some p => MOk (p, <[p := uninit n]> h)
  | None => MAbort
  end.
Definition free (h : heap) (p : Z) : mres heap :=
  match h !! p with Some _ => MOk (delete p h) | None => MFault end.
(** The block may move; the cells that both sizes have are kept. *)
Definition realloc (h : heap) (p n : Z) : mres (Z * heap) :=
  match h !! p with
  | None => MFault
  | Some b =>
      match alloc (dom (delete p h)) n with
      | Some q => MOk (q, <[q := take (Z.to_nat n) (b ++ uninit n)]> (delete p h))
      | None => MAbort
      end
  end.
End memory.

(** ** The object *)

Inductive storage :=
  | Direct (direct : list cell)
  | Indirect (capacity indirect : Z).

Record prevector := mk_prevector { pv_size : Z; pv_union : storage }.

Section prevector.
Context `{Allocator} (N : Z).

Implicit Types (h : heap) (v : prevector).

Definition is_direct v : bool := pv_size v <=? N.
Definition size v : Z := if is_direct v then pv_size v else wrap32 (pv_size v - N - 1).
Definition empty v : bool := size v =? 0.
Definition add_size (n : Z) v : prevector := mk_prevector (wrap32 (pv_size v + n)) (pv_union v).

(** The block that [item_ptr] points into, and the block replaced. *)
Definition items h v : mres (list cell) :=
  match is_direct v, pv_union v with
  | true, Direct b => MOk b
  | false, Indirect _ p => of_option (h !! p)
  | _, _ => MFault
  end.
Definition set_items h v (b : list cell) : mres (heap * prevector) :=
  match is_direct v, pv_union v with
  | true, Direct _ => MOk (h, mk_prevector (pv_size v) (Direct b))
  | false, Indirect _ p => MOk (<[p := b]> h, v)
  | _, _ => MFault
  end.

(** [item_ptr(pos)] as an offset: the argument is a [difference_type]. *)
Definition item_ptr (pos : Z) : Z := swrap32 pos.

Definition capacity v : mres Z :=
  if is_direct v then MOk N
  else match pv_union v with Indirect c _ => MOk c | Direct _ => MFault end.

Definition change_capacity (new_capacity : Z) h v : mres (heap * prevector) :=
  if new_capacity <=? N then
    if is_direct v then MOk (h, v)
    else
      let& src := items h v in
      let& cs := load src 0 (size v) in
      let& d := store (uninit N) 0 cs in
      match pv_union v with
      | Indirect _ p => let& h := free h p in MOk (h, mk_prevector (wrap32 (pv_size v - (N + 1))) (Direct d))
      | Direct _ => MFault
      end
  else if is_direct v then
    let& '(p, h) := malloc h new_capacity in
    let& src := items h v in
    let& cs := load src 0 (size v) in
    let& d := store (uninit new_capacity) 0 cs in
    MOk (<[p := d]> h, mk_prevector (wrap32 (pv_size v + (N + 1))) (Indirect new_capacity p))
  else
    match pv_union v with
    | Indirect _ p =>
        let& '(q, h) := realloc h p new_capacity in
        MOk (h, mk_prevector (pv_size v) (Indirect new_capacity q))
    | Direct _ => MFault
    end.

(** [fill] from [dst] on, with given values. *)
Definition fill (dst : Z) (l : list Z) h v : mres (heap * prevector) :=
  let& b := items h v in
  let& b := store b dst (Some <$> l) in
  set_items h v b.

Definition begin_pos : Z := item_ptr 0.
Definition end_pos v : Z := item_ptr (size v).

Definition erase (first last : Z) h v : mres (heap * prevector) :=
  let endp := end_pos v in
  let& b := items h v in
  let& b := memmove b first last (endp - last) in
  let& '(h, v) := set_items h v b in
  MOk (h, add_size (- (last - first)) v).
Definition erase_at (pos : Z) h v : mres (heap * prevector) := erase pos (pos + 1) h v.

(** Growing, when the capacity is less than needed. *)
Definition grow (needed new_capacity : Z) h v : mres (heap * prevector) :=
  let& c := capacity v in
  if c <? needed then change_capacity new_capacity h v else MOk (h, v).

Definition resize (new_size : Z) h v : mres (heap * prevector) :=
  let cur_size := size v in
  if cur_size =? new_size then MOk (h, v)
  else if cur_size >? new_size then erase (item_ptr new_size) (end_pos v) h v
  else
    let& '(h, v) := grow new_size new_size h v in
    let increase := new_size - cur_size in
    let& '(h, v) := fill (item_ptr cur_size) (replicate (Z.to_nat increase) 0) h v in
    MOk (h, add_size increase v).

Definition reserve (new_capacity : Z) h v : mres (heap * prevector) := grow new_capacity new_capacity h v.
Definition shrink_to_fit h v : mres (heap * prevector) := change_capacity (size v) h v.
Definition clear h v : mres (heap * prevector) := resize 0 h v.

Definition assign (n : Z) (l : list Z) h v : mres (heap * prevector) :=
  let& '(h, v) := clear h v in
  let& '(h, v) := grow n n h v in
  fill (item_ptr 0) l h (add_size n v).
Definition assign_value (n val : Z) : heap → prevector → mres (heap * prevector) := assign n (replicate (Z.to_nat n) val).
Definition assign_range (l : list Z) : heap → prevector → mres (heap * prevector) := assign (wrap32 (Z.of_nat (length l))) l.

(** The three [insert] begin alike: room for [count] values at [p]. *)
Definition half_more (new_size : Z) : Z := wrap32 (new_size + Z.shiftr new_size 1).
Definition make_room (p count : Z) h v : mres (heap * prevector) :=
  let new_size := wrap32 (size v + count) in
  let& '(h, v) := grow new_size (half_more new_size) h v in
  let ptr := item_ptr p in
  let& b := items h v in
  let& b := memmove b (ptr + count) ptr (wrap32 (size v - p)) in
  set_items h v b.
Definition insert_one (pos value : Z) h v : mres (heap * prevector) :=
  let p := wrap32 pos in
  let& '(h, v) := make_room p 1 h v in
  let& '(h, v) := fill (item_ptr p) [value] h v in
  MOk (h, add_size 1 v).
Definition insert_value (pos count value : Z) h v : mres (heap * prevector) :=
  let p := wrap32 pos in
  let& '(h, v) := make_room p count h v in
  fill (item_ptr p) (replicate (Z.to_nat count) value) h (add_size count v).
Definition insert_range (pos : Z) (l : list Z) h v : mres (heap * prevector) :=
  let p := wrap32 pos in
  let count := swrap32 (Z.of_nat (length l)) in
  let& '(h, v) := make_room p count h v in
  let& '(h, v) := fill (item_ptr p) l h v in
  MOk (h, add_size count v).

Definition push_back (value : Z) h v : mres (heap * prevector) :=
  let new_size := wrap32 (size v + 1) in
  let& '(h, v) := grow new_size (half_more new_size) h v in
  let& '(h, v) := fill (item_ptr (size v)) [value] h v in
  MOk (h, add_size 1 v).
Definition pop_back h v : mres (heap * prevector) := erase (end_pos v - 1) (end_pos v) h v.

(** Reading and writing one element; [data] and the iterators read all of them. *)
Definition at_ (pos : Z) h v : mres Z :=
  let& b := items h v in
  let& cs := load b (item_ptr pos) 1 in
  let& l := values cs in of_option (head l).
Definition set_at (pos value : Z) h v : mres (heap * prevector) := fill (item_ptr pos) [value] h v.
Definition front h v : mres Z := at_ 0 h v.
Definition back h v : mres Z := at_ (wrap32 (size v - 1)) h v.
Definition elements h v : mres (list Z) :=
  let& b := items h v in let& cs := load b begin_pos (end_pos v - begin_pos) in values cs.

(** Constructors, assignment, destruction. *)
Definition prevector_new : prevector := mk_prevector 0 (Direct (replicate (Z.to_nat N) (Some 0))).
Definition prevector_raw : prevector := mk_prevector 0 (Direct (uninit N)).
Definition prevector_n (n : Z) h : mres (heap * prevector) := resize n h prevector_raw.
Definition construct (n : Z) (l : list Z) h : mres (heap * prevector) :=
  let& '(h, v) := change_capacity n h prevector_raw in fill (item_ptr 0) l h (add_size n v).
Definition prevector_value (n val : Z) : heap → mres (heap * prevector) := construct n (replicate (Z.to_nat n) val).
Definition prevector_range (l : list Z) : heap → mres (heap * prevector) := construct (wrap32 (Z.of_nat (length l))) l.
Definition prevector_copy (other : prevector) h : mres (heap * prevector) :=
  let& l := elements h other in construct (size other) l h.
Definition swap (v other : prevector) : prevector * prevector := (other, v).
Definition prevector_move (other : prevector) : prevector * prevector := swap prevector_raw other.
Definition copy_assign (other : prevector) h v : mres (heap * prevector) :=
  let& l := elements h other in assign_range l h v.
Definition destroy h v : mres heap :=
  if is_direct v then MOk h
  else match pv_union v with Indirect _ p => free h p | Direct _ => MFault end.

Fixpoint less_loop (b1 b2 : list Z) : bool :=
  match b1, b2 with
  | x :: b1, y :: b2 => if x <? y then true else if y <? x then false else less_loop b1 b2
  | _, _ => false
  end.
Definition pv_eq h v (other : prevector) : mres bool :=
  if negb (size other =? size v) then MOk false
  else let& l1 := elements h v in let& l2 := elements h other in MOk (bool_decide (l1 = l2)).
Definition pv_lt h v (other : prevector) : mres bool :=
  if size v <? size other then MOk true
  else if size v >? size other then MOk false
  else let& l1 := elements h v in let& l2 := elements h other in MOk (less_loop l1 l2).

Definition allocated_memory v : mres Z :=
  if is_direct v then MOk 0 else capacity v.

(** ** The vector it implements *)

Abbreviation len l := (Z.of_nat (length l)).

(** [b] is the block of the elements and [n] their number. *)
Definition view h v (b : list cell) (n : Z) : Prop :=
  0 <= n < 2 ^ 31 ∧ n <= len b ∧
  match pv_union v with
  | Direct d => b = d ∧ pv_size v = n ∧ len b = N
  | Indirect c p => h !! p = Some b ∧ pv_size v = n + N + 1 ∧ len b = c ∧ N < c < 2 ^ 32
  end.
Definition rep h v (l : list Z) : Prop := ∃ extra, view h v ((Some <$> l) ++ extra) (len l).

(** The heap without the block of the vector. *)
Definition rest h v : heap := match pv_union v with Direct _ => h | Indirect _ p => delete p h end.

Definition alloc_fails : Prop := ∃ d n, alloc d n = None.
Definition ends (x : mres (heap * prevector)) (Q : heap → prevector → Prop) : Prop :=
  match x with MOk (h, v) => Q h v | MAbort => alloc_fails | MFault => False end.

Lemma ends_bind x f Q : ends x (λ h v, ends (f (h, v)) Q) → ends (mem_bind x f) Q.
Proof. by destruct x as [[h v]| |]. Qed.
Lemma ends_mono x (Q Q' : heap → prevector → Prop) : ends x Q → (∀ h v, Q h v → Q' h v) → ends x Q'.
Proof. destruct x as [[h v]| |]; cbn; auto. Qed.

Context (HN : 0 <= N < 2 ^ 16).

Lemma view_direct h v b n : view h v b n → is_direct v = match pv_union v with Direct _ => true | _ => false end.
Proof.
  intros (Hn & Hb & Hv). unfold is_direct. destruct (pv_union v); destruct Hv as (? & -> & ?).
  - apply Z.leb_le. lia.
  - apply Z.leb_gt. lia.
Qed.

Lemma view_size h v b n : view h v b n → size v = n.
Proof.
  intros Hv. unfold size. rewrite (view_direct _ _ _ _ Hv). destruct Hv as (Hn & _ & Hv).
  destruct (pv_union v); destruct Hv as (? & -> & ?); [done|].
  replace (n + N + 1 - N - 1) with n by lia. apply wrap_id. unfold fits. lia.
Qed.

Lemma view_items h v b n : view h v b n → items h v = MOk b.
Proof.
  intros Hv. unfold items. rewrite (view_direct _ _ _ _ Hv). destruct Hv as (_ & _ & Hv).
  destruct (pv_union v); destruct Hv as (E & _); [by subst|]. by rewrite E.
Qed.

Lemma view_capacity h v b n : view h v b n → capacity v = MOk (len b).
Proof.
  intros Hv. unfold capacity. rewrite (view_direct _ _ _ _ Hv). destruct Hv as (_ & _ & Hv).
  destruct (pv_union v); by destruct Hv as (_ & _ & <- & _) || destruct Hv as (_ & _ & <-).
Qed.

Lemma view_set h v b n b' :
  view h v b n → length b' = length b →
  ends (set_items h v b') (λ h' v', view h' v' b' n ∧ rest h' v' = rest h v).
Proof.
  intros Hv Hl. unfold set_items. rewrite (view_direct _ _ _ _ Hv). destruct Hv as (Hn & Hb & Hv).
  unfold view, rest. destruct (pv_union v) as [d|c p] eqn:E; cbn.
  - destruct Hv as (_ & ? & ?). rewrite Hl. split_and!; try lia; try reflexivity; try assumption.
  - rewrite E, lookup_insert_eq, delete_insert_eq, Hl. destruct Hv as (_ & ? & ? & ?). split_and!; try lia; try reflexivity; try assumption.
Qed.

Lemma view_add h v b n k :
  view h v b n → 0 <= n + k < 2 ^ 31 → n + k <= len b → view h (add_size k v) b (n + k).
Proof.
  intros (Hn & Hb & Hv) Hk Hkb. unfold view, add_size. cbn [pv_union pv_size]. split; [done|]. split; [done|].
  destruct (pv_union v).
  - destruct Hv as (? & -> & ?). split; [done|]. split; [|done]. apply wrap_id. unfold fits. lia.
  - destruct Hv as (? & -> & ? & ?). split; [done|]. split; [|done]. rewrite wrap_id; [lia|]. unfold fits. lia.
Qed.
Lemma rest_add h v k : rest h (add_size k v) = rest h v.
Proof. done. Qed.

(** *** Blocks *)

Lemma in_block_true b off n : 0 <= off → 0 <= n → off + n <= len b → in_block b off n = true.
Proof. intros. unfold in_block. by rewrite !(proj2 (Z.leb_le _ _)). Qed.

Lemma load_ok b off n : 0 <= off → 0 <= n → off + n <= len b →
  load b off n = MOk (take (Z.to_nat n) (drop (Z.to_nat off) b)).
Proof. intros. unfold load. by rewrite in_block_true. Qed.

Lemma store_ok b off cs : 0 <= off → off + len cs <= len b →
  store b off cs = MOk (take (Z.to_nat off) b ++ cs ++ drop (Z.to_nat off + length cs) b).
Proof. intros. unfold store. by rewrite in_block_true by lia. Qed.

Lemma store_front b cs : len cs <= len b → store b 0 cs = MOk (cs ++ drop (length cs) b).
Proof. intros. by rewrite store_ok by lia. Qed.

Lemma length_store (b cs : list cell) (off : nat) :
  (off + length cs <= length b)%nat → length (take off b ++ cs ++ drop (off + length cs) b) = length b.
Proof. intros. rewrite !length_app, length_take, length_drop. lia. Qed.

Lemma view_change h v b n c :
  view h v b n → n <= c < 2 ^ 32 →
  ends (change_capacity c h v) (λ h' v', ∃ b', view h' v' b' n ∧ rest h' v' = rest h v ∧
    c <= len b' ∧ take (Z.to_nat n) b' = take (Z.to_nat n) b).
Proof.
  intros Hv Hc. pose proof (view_items _ _ _ _ Hv) as Hi. pose proof (view_size _ _ _ _ Hv) as Hs.
  unfold change_capacity. rewrite (view_direct _ _ _ _ Hv), Hs. pose proof Hv as (Hn & Hb & Hu).
  destruct (Z.leb_spec c N) as [Hle|Hgt]; destruct (pv_union v) as [d|cap p] eqn:E.
  - cbn. exists b. split_and!; try lia; try reflexivity; try assumption.
  - rewrite Hi. cbn. rewrite load_ok by lia. cbn. rewrite drop_0.
    assert (length (take (Z.to_nat n) b) = Z.to_nat n) as Hl by (rewrite length_take; lia).
    rewrite store_front by (unfold uninit; rewrite ?length_replicate; lia). cbn.
    destruct Hu as (Hp & Hsz & Hcap & Hcr). unfold free. rewrite Hp. cbn.
    match goal with |- context [Direct ?d] => exists d end. unfold view, rest. cbn. rewrite E. split; [|split; [done|]].
    + rewrite !length_app, length_drop. unfold uninit. rewrite length_replicate, Hl. split_and!; try lia; try reflexivity; try assumption.
      rewrite Hsz, wrap_id; [lia|]. unfold fits. lia.
    + rewrite !length_app, length_drop. unfold uninit. rewrite length_replicate, Hl. split; [lia|].
      by rewrite take_app_le, take_take, Nat.min_id by lia.
  - unfold malloc. destruct (alloc (dom h) c) as [p|] eqn:Ea; [|by do 2 eexists]. cbn.
    apply alloc_fresh, not_elem_of_dom in Ea. destruct Hu as (<- & Hsz & Hlen).
    unfold items. rewrite (view_direct _ _ _ _ Hv), E. cbn. rewrite load_ok by lia. cbn. rewrite drop_0.
    assert (length (take (Z.to_nat n) b) = Z.to_nat n) as Hl by (rewrite length_take; lia).
    rewrite store_front by (unfold uninit; rewrite ?length_replicate; lia). cbn.
    match goal with |- context [<[_ := ?d]> (<[_ := _]> _)] => exists d end. unfold view, rest. cbn. rewrite E. split; [|split].
    + rewrite !length_app, length_drop. unfold uninit. rewrite length_replicate, Hl, lookup_insert_eq.
      split_and!; try lia; try reflexivity; try assumption. rewrite Hsz, wrap_id; [lia|]. unfold fits. lia.
    + rewrite insert_insert_eq, delete_insert_id by done. done.
    + rewrite !length_app, length_drop. unfold uninit. rewrite length_replicate, Hl. split; [lia|].
      by rewrite take_app_le, take_take, Nat.min_id by lia.
  - destruct Hu as (Hp & Hsz & Hcap & Hcr). unfold realloc. rewrite Hp.
    destruct (alloc (dom (delete p h)) c) as [q|] eqn:Ea; [|by do 2 eexists]. cbn.
    apply alloc_fresh, not_elem_of_dom in Ea.
    match goal with |- context [<[_ := ?d]> _] => exists d end. unfold view, rest. cbn. rewrite E. split; [|split].
    + rewrite length_take, length_app. unfold uninit. rewrite length_replicate, lookup_insert_eq. split_and!; try lia; try reflexivity; try assumption.
    + by rewrite delete_insert_id.
    + rewrite length_take, length_app. unfold uninit. rewrite length_replicate. split; [lia|].
      by rewrite take_take, Nat.min_l, take_app_le by lia.
Qed.

(** *** Operations on the view *)

Lemma item_ptr_id pos : 0 <= pos < 2 ^ 31 → item_ptr pos = pos.
Proof. intros. apply swrap_id; [lia|]. unfold sfits. lia. Qed.

Lemma view_grow h v l needed c :
  rep h v l → needed <= c → len l <= c < 2 ^ 32 →
  ends (grow needed c h v) (λ h' v', ∃ extra, view h' v' ((Some <$> l) ++ extra) (len l) ∧ rest h' v' = rest h v ∧
    needed <= len ((Some <$> l) ++ extra)).
Proof.
  intros [extra Hv] Hle Hc. unfold grow. rewrite (view_capacity _ _ _ _ Hv). cbn [mem_bind].
  destruct (Z.ltb_spec (len ((Some <$> l) ++ extra)) needed) as [Hlt|Hge]; [|by exists extra].
  eapply ends_mono; [by apply view_change|]. intros h' v' (b & Hb & Hr & Hcap & Ht).
  rewrite Nat2Z.id, take_app_length' in Ht by (by rewrite length_fmap).
  rewrite <- (take_drop (length l) b), Ht in Hb, Hcap. exists (drop (length l) b). split_and!; [done|done|lia].
Qed.

Lemma view_fill h v b n dst l :
  view h v b n → 0 <= dst → dst + len l <= len b →
  ends (fill dst l h v) (λ h' v', view h' v' (take (Z.to_nat dst) b ++ (Some <$> l) ++ drop (Z.to_nat dst + length l) b) n ∧
    rest h' v' = rest h v).
Proof.
  intros Hv Hd Hl. unfold fill. rewrite (view_items _ _ _ _ Hv). cbn [mem_bind].
  rewrite store_ok by (rewrite ?length_fmap; done). cbn [mem_bind]. rewrite length_fmap. eapply view_set; [done|].
  rewrite <- (length_fmap Some l). apply length_store. rewrite length_fmap. lia.
Qed.

(** Appending, inserting and erasing in a block [l ++ extra]. *)
Lemma fill_end (l l2 : list Z) (extra : list cell) :
  take (length l) ((Some <$> l) ++ extra) ++ (Some <$> l2) ++ drop (length l + length l2) ((Some <$> l) ++ extra)
  = (Some <$> (l ++ l2)) ++ drop (length l2) extra.
Proof.
  rewrite take_app_length' by (by rewrite length_fmap). rewrite fmap_app, <- app_assoc. do 2 f_equal.
  by rewrite drop_app_add' by (by rewrite length_fmap).
Qed.

Lemma room_filled (a b l2 : list Z) (extra : list cell) :
  (length l2 <= length extra)%nat →
  let k := (length a + length l2)%nat in
  let cs := (Some <$> a ++ b) ++ extra in
  let moved := take k cs ++ (Some <$> b) ++ drop (k + length b) cs in
  take (length a) moved ++ (Some <$> l2) ++ drop k moved = (Some <$> (a ++ l2 ++ b)) ++ drop (length l2) extra.
Proof.
  intros Hk k cs moved. assert (length (take k cs) = k) as Hl.
  { subst cs k. rewrite length_take, length_app, length_fmap, length_app. lia. }
  assert (take (length a) moved = Some <$> a) as ->.
  { subst moved. rewrite take_app_le by lia. rewrite take_take, Nat.min_l by (subst k; lia).
    subst cs. rewrite fmap_app, <- app_assoc. by rewrite take_app_length' by (by rewrite length_fmap). }
  assert (drop k moved = (Some <$> b) ++ drop (length l2) extra) as ->.
  { subst moved. rewrite drop_app_length' by done. f_equal. subst cs k.
    replace (length a + length l2 + length b)%nat with (length (Some <$> a ++ b) + length l2)%nat
      by (rewrite length_fmap, length_app; lia). by rewrite drop_app_add. }
  by rewrite !fmap_app, <- !app_assoc.
Qed.

Lemma gap_closed (a m c : list Z) (extra : list cell) :
  let cs := (Some <$> a ++ m ++ c) ++ extra in
  take (length a) cs ++ (Some <$> c) ++ drop (length a + length c) cs
  = (Some <$> (a ++ c)) ++ drop (length a + length c) cs.
Proof.
  intros cs. subst cs. rewrite (fmap_app _ a (m ++ c)), <- (app_assoc (Some <$> a)).
  rewrite take_app_length' by (by rewrite length_fmap). by rewrite (fmap_app _ a c), <- (app_assoc (Some <$> a)).
Qed.

Lemma drop_cells (a b : list Z) (extra : list cell) :
  take (length b) (drop (length a) ((Some <$> a ++ b) ++ extra)) = Some <$> b.
Proof.
  rewrite fmap_app, <- app_assoc, drop_app_length' by (by rewrite length_fmap).
  by rewrite take_app_length' by (by rewrite length_fmap).
Qed.

(** *** The operations refine those of a list *)

(** An operation takes a vector of [l] to one of [l'] and touches no other block. *)
Definition takes (f : heap → prevector → mres (heap * prevector)) (l l' : list Z) : Prop :=
  ∀ h v, rep h v l → ends (f h v) (λ h' v', rep h' v' l' ∧ rest h' v' = rest h v).

Lemma rep_size h v l : rep h v l → size v = len l.
Proof. intros [e Hv]. by eapply view_size. Qed.
Lemma rep_small h v l : rep h v l → len l < 2 ^ 31.
Proof. intros (e & Hn & _). lia. Qed.
Lemma rep_end h v l : rep h v l → end_pos v = len l.
Proof. intros Hr. unfold end_pos. rewrite (rep_size _ _ _ Hr). apply item_ptr_id. pose proof (rep_small _ _ _ Hr). lia. Qed.

Lemma half_more_bound n : 0 <= n <= 2 ^ 31 → n <= half_more n < 2 ^ 32.
Proof. intros Hn. unfold half_more. rewrite Z.shiftr_div_pow2 by lia. rewrite wrap_id; unfold fits; divlia. Qed.

Lemma erase_takes a m c : takes (erase (len a) (len a + len m)) (a ++ m ++ c) (a ++ c).
Proof.
  intros h v Hr. pose proof (rep_end _ _ _ Hr) as He. pose proof (rep_small _ _ _ Hr) as Hs. destruct Hr as [extra Hv].
  unfold erase. rewrite He, (view_items _ _ _ _ Hv). cbn [mem_bind]. unfold memmove. rewrite !length_app in *.
  rewrite load_ok by (rewrite ?length_app, ?length_fmap, ?length_app; lia). cbn [mem_bind].
  replace (Z.to_nat (Z.of_nat (length a + (length m + length c)) - (len a + len m))) with (length c) by lia.
  replace (Z.to_nat (len a + len m)) with (length (a ++ m)) by (rewrite length_app; lia).
  rewrite (app_assoc a m c), drop_cells, <- app_assoc.
  rewrite store_ok by (rewrite ?length_app, ?length_fmap, ?length_app; lia). cbn [mem_bind].
  rewrite Nat2Z.id, length_fmap, gap_closed. apply ends_bind.
  eapply ends_mono; [eapply view_set; [done|]|].
  { rewrite <- gap_closed, <- (length_fmap Some c). apply length_store.
    rewrite length_app, !length_fmap, !length_app. lia. }
  intros h' v' [Hv' Hrest]. cbn. split; [|done]. eexists.
  replace (len (a ++ c)) with (Z.of_nat (length a + (length m + length c)) + - (len a + len m - len a)) by (rewrite length_app; lia).
  apply view_add; [done|lia|]. rewrite length_app, length_fmap, length_app. lia.
Qed.

Lemma push_back_takes x l : len l + 1 < 2 ^ 31 → takes (push_back x) l (l ++ [x]).
Proof.
  intros Hl h v Hr. unfold push_back. rewrite (rep_size _ _ _ Hr), wrap_id by (unfold fits; lia).
  pose proof (half_more_bound (len l + 1) ltac:(lia)). apply ends_bind.
  eapply ends_mono; [apply view_grow; [done|lia..]|]. intros h1 v1 (extra & Hv & Hr1 & Hc).
  rewrite length_app, length_fmap in Hc. rewrite (view_size _ _ _ _ Hv), item_ptr_id by lia. apply ends_bind.
  eapply ends_mono; [eapply view_fill; [done|lia|cbn; rewrite length_app, length_fmap; lia]|].
  intros h2 v2 [Hv2 Hr2]. rewrite Nat2Z.id, (fill_end l [x]) in Hv2. cbn. split; [|by rewrite rest_add, Hr2].
  eexists. rewrite (length_app l). change (Z.of_nat (length l + length [x])) with (Z.of_nat (length l + 1)).
  rewrite Nat2Z.inj_add. apply view_add; [done|lia|]. cbn. rewrite length_app, length_fmap, length_app, length_drop. cbn. lia.
Qed.

(** The block after [make_room] for [k] elements between [a] and [b]. *)
Definition room (a b : list Z) (k : nat) (extra : list cell) : list cell :=
  let cs := (Some <$> a ++ b) ++ extra in
  take (length a + k) cs ++ (Some <$> b) ++ drop (length a + k + length b) cs.

Lemma length_room a b k extra : (k <= length extra)%nat → length (room a b k extra) = length ((Some <$> a ++ b) ++ extra).
Proof.
  intros. unfold room. rewrite <- (length_fmap Some b). apply length_store. rewrite length_app, !length_fmap, length_app. lia.
Qed.

Lemma make_room_view a b k h v :
  rep h v (a ++ b) → len (a ++ b) + Z.of_nat k < 2 ^ 31 →
  ends (make_room (len a) (Z.of_nat k) h v) (λ h' v', ∃ extra, (k <= length extra)%nat ∧
    view h' v' (room a b k extra) (len (a ++ b)) ∧ rest h' v' = rest h v).
Proof.
  intros Hr Hl. unfold make_room. rewrite (rep_size _ _ _ Hr), wrap_id by (unfold fits; lia).
  pose proof (half_more_bound (len (a ++ b) + Z.of_nat k) ltac:(lia)). apply ends_bind.
  eapply ends_mono; [apply view_grow; [done|lia..]|]. intros h1 v1 (extra & Hv & Hr1 & Hc).
  assert (k <= length extra)%nat as Hk by (rewrite (length_app (Some <$> _)), length_fmap in Hc; lia).
  rewrite (view_items _ _ _ _ Hv), (view_size _ _ _ _ Hv). cbn [mem_bind]. rewrite length_app in *.
  rewrite item_ptr_id by lia. replace (Z.of_nat (length a + length b) - len a) with (len b) by lia.
  rewrite wrap_id by (unfold fits; lia). unfold memmove.
  rewrite load_ok by (rewrite ?length_app, ?length_fmap, ?length_app; lia). cbn [mem_bind].
  rewrite !Nat2Z.id, drop_cells. rewrite store_ok by (rewrite ?length_app, ?length_fmap, ?length_app; lia). cbn [mem_bind].
  replace (Z.to_nat (len a + Z.of_nat k)) with (length a + k)%nat by lia. rewrite length_fmap.
  change (take _ _ ++ _) with (room a b k extra). eapply ends_mono; [eapply view_set; [done|by apply length_room]|].
  intros h2 v2 [Hv2 Hr2]. exists extra. by rewrite Hr2.
Qed.

Lemma room_view h v a b l2 extra k :
  (length l2 <= length extra)%nat → len (a ++ b) + len l2 < 2 ^ 31 → k = length l2 →
  (** filled before or after the size is raised *)
  (view h v (room a b k extra) (len (a ++ b)) →
   ends (mem_bind (fill (len a) l2 h v) (λ '(h', v'), MOk (h', add_size (len l2) v')))
     (λ h' v', rep h' v' (a ++ l2 ++ b) ∧ rest h' v' = rest h v)) ∧
  (view h v (room a b k extra) (len (a ++ b)) →
   ends (fill (len a) l2 h (add_size (len l2) v)) (λ h' v', rep h' v' (a ++ l2 ++ b) ∧ rest h' v' = rest h v)).
Proof.
  intros Hk Hl ->. assert (len (room a b (length l2) extra) = len (a ++ b) + len extra) as Hlen
    by (rewrite length_room, !length_app, length_fmap, length_app by done; lia).
  assert (len (a ++ l2 ++ b) = len (a ++ b) + len l2) as Hn by (rewrite !length_app; lia).
  assert (∀ h' v', view h' v' (take (length a) (room a b (length l2) extra) ++ (Some <$> l2) ++
            drop (length a + length l2) (room a b (length l2) extra)) (len (a ++ b) + len l2) → rep h' v' (a ++ l2 ++ b)) as Hrep.
  { intros h' v' Hv. unfold room in Hv. rewrite room_filled in Hv by done. eexists. rewrite Hn. exact Hv. }
  split; intros Hv.
  - apply ends_bind. eapply ends_mono; [eapply view_fill; [done|lia|rewrite Hlen, length_app; lia]|].
    intros h' v' [Hv' Hr']. rewrite Nat2Z.id in Hv'. cbn. split; [|by rewrite rest_add]. apply Hrep. apply view_add; [done|lia|].
    pose proof (length_store (room a b (length l2) extra) (Some <$> l2) (length a)) as Hst. rewrite length_fmap in Hst.
    rewrite Hst by (rewrite length_app in Hlen; lia). lia.
  - eapply ends_mono; [eapply view_fill; [apply view_add; [done|lia|lia]|lia|rewrite Hlen, length_app; lia]|].
    intros h' v' [Hv' Hr']. rewrite Nat2Z.id in Hv'. split; [by apply Hrep|by rewrite Hr'].
Qed.

Lemma insert_one_takes a b x : len (a ++ b) + 1 < 2 ^ 31 → takes (insert_one (len a) x) (a ++ b) (a ++ [x] ++ b).
Proof.
  intros Hl h v Hr. unfold insert_one. cbv zeta. rewrite length_app in Hl. rewrite wrap_id, item_ptr_id by (unfold fits; lia).
  apply ends_bind. eapply ends_mono; [by apply (make_room_view a b 1); [|rewrite length_app]|].
  intros h1 v1 (extra & Hk & Hv & Hr1).
  eapply ends_mono; [apply (room_view h1 v1 a b [x] extra 1); [done|rewrite length_app; cbn; lia|done|done]|].
  intros h2 v2 [? ->]. done.
Qed.

Lemma insert_value_takes a b n x : (len (a ++ b) + Z.of_nat n < 2 ^ 31) →
  takes (insert_value (len a) (Z.of_nat n) x) (a ++ b) (a ++ replicate n x ++ b).
Proof.
  intros Hl h v Hr. unfold insert_value. cbv zeta. rewrite length_app in Hl. rewrite wrap_id, item_ptr_id, Nat2Z.id by (unfold fits; lia).
  apply ends_bind. eapply ends_mono; [by apply (make_room_view a b n); [|rewrite length_app]|].
  intros h1 v1 (extra & Hk & Hv & Hr1).
  replace (Z.of_nat n) with (len (replicate n x)) by (by rewrite length_replicate).
  eapply ends_mono; [apply (room_view h1 v1 a b (replicate n x) extra n);
    [by rewrite length_replicate|rewrite length_replicate, length_app; lia|by rewrite length_replicate|done]|].
  intros h2 v2 [? ->]. done.
Qed.

Lemma insert_range_takes a b l2 : len (a ++ b) + len l2 < 2 ^ 31 →
  takes (insert_range (len a) l2) (a ++ b) (a ++ l2 ++ b).
Proof.
  intros Hl h v Hr. unfold insert_range. cbv zeta. rewrite length_app in Hl.
  rewrite wrap_id, (item_ptr_id (len a)), (swrap_id 32 (len l2)) by (unfold fits, sfits; lia).
  apply ends_bind. eapply ends_mono; [by apply (make_room_view a b (length l2)); [|rewrite length_app]|].
  intros h1 v1 (extra & Hk & Hv & Hr1).
  eapply ends_mono; [apply (room_view h1 v1 a b l2 extra (length l2)); [done|rewrite length_app; lia|done|done]|].
  intros h2 v2 [? ->]. done.
Qed.

Lemma clear_takes l : takes clear l [].
Proof.
  intros h v Hr. unfold clear, resize. rewrite (rep_size _ _ _ Hr). destruct (Z.eqb_spec (len l) 0) as [E|Hne].
  - destruct l; [by split|cbn in E; lia].
  - destruct (Z.gtb_spec (len l) 0); [|lia]. rewrite (rep_end _ _ _ Hr), item_ptr_id by lia.
    pose proof (erase_takes [] l []) as He. rewrite app_nil_r in He. by apply He.
Qed.

Lemma resize_takes_shorter a c : c ≠ [] → takes (resize (len a)) (a ++ c) a.
Proof.
  intros Hc h v Hr. pose proof (rep_small _ _ _ Hr) as Hs. pose proof (rep_end _ _ _ Hr) as He.
  rewrite length_app in Hs, He. assert (0 < len c) by (destruct c; [done|cbn; lia]).
  unfold resize. rewrite (rep_size _ _ _ Hr), length_app.
  destruct (Z.eqb_spec (Z.of_nat (length a + length c)) (len a)); [lia|].
  destruct (Z.gtb_spec (Z.of_nat (length a + length c)) (len a)); [|lia].
  rewrite He, item_ptr_id, Nat2Z.inj_add by lia. pose proof (erase_takes a c []) as Ht. rewrite !app_nil_r in Ht. by apply Ht.
Qed.

Lemma resize_takes_longer l n : len l + Z.of_nat n < 2 ^ 31 → takes (resize (len l + Z.of_nat n)) l (l ++ replicate n 0).
Proof.
  intros Hn h v Hr. unfold resize. rewrite (rep_size _ _ _ Hr).
  destruct (Z.eqb_spec (len l) (len l + Z.of_nat n)) as [E|Hne].
  { replace n with 0%nat by lia. cbn. by rewrite app_nil_r. }
  destruct (Z.gtb_spec (len l) (len l + Z.of_nat n)); [lia|]. apply ends_bind.
  eapply ends_mono; [apply view_grow; [done|lia..]|]. intros h1 v1 (extra & Hv & Hr1 & Hc). rewrite item_ptr_id by lia.
  rewrite length_app, length_fmap in Hc. replace (len l + Z.of_nat n - len l) with (Z.of_nat n) by lia. rewrite Nat2Z.id.
  apply ends_bind. eapply ends_mono; [eapply view_fill; [done|lia|rewrite length_app, length_fmap, length_replicate; lia]|].
  intros h2 v2 [Hv2 Hr2]. rewrite Nat2Z.id, fill_end, length_replicate in Hv2. cbn. split; [|by rewrite rest_add, Hr2].
  eexists. rewrite (length_app l), length_replicate, Nat2Z.inj_add. apply view_add; [done|lia|].
  rewrite length_app, length_fmap, length_app, length_drop, length_replicate. lia.
Qed.

Lemma reserve_takes l n : 0 <= n < 2 ^ 32 → takes (reserve n) l l.
Proof.
  intros Hn h v [extra Hv]. unfold reserve, grow. rewrite (view_capacity _ _ _ _ Hv). cbn [mem_bind].
  destruct (Z.ltb_spec (len ((Some <$> l) ++ extra)) n); [|by split; [exists extra|]].
  rewrite length_app, length_fmap in *. eapply ends_mono; [eapply view_change; [done|lia]|].
  intros h' v' (b & Hb & Hr & Hcap & Ht). split; [|done]. rewrite Nat2Z.id, take_app_length' in Ht by (by rewrite length_fmap).
  exists (drop (length l) b). by rewrite <- Ht, take_drop.
Qed.

Lemma shrink_takes l : takes shrink_to_fit l l.
Proof.
  intros h v Hr. pose proof (rep_small _ _ _ Hr). unfold shrink_to_fit. rewrite (rep_size _ _ _ Hr). destruct Hr as [extra Hv].
  eapply ends_mono; [eapply view_change; [done|lia]|]. intros h' v' (b & Hb & Hr & Hcap & Ht). split; [|done].
  rewrite Nat2Z.id, take_app_length' in Ht by (by rewrite length_fmap). exists (drop (length l) b). by rewrite <- Ht, take_drop.
Qed.

Lemma fill_all h v l' n :
  rep h v [] → n = len l' → n < 2 ^ 31 → n <= match capacity v with MOk c => c | _ => 0 end →
  ends (fill (item_ptr 0) l' h (add_size n v)) (λ h' v', rep h' v' l' ∧ rest h' v' = rest h v).
Proof.
  intros [extra Hv] -> Hn Hc. rewrite (view_capacity _ _ _ _ Hv) in Hc. cbn in Hv, Hc. rewrite item_ptr_id by lia.
  eapply ends_mono; [eapply view_fill; [apply (view_add _ _ _ _ (len l') Hv); lia|lia|lia]|].
  intros h' v' [Hv' Hr']. split; [|done]. cbn [Nat.add] in Hv'. change (Z.to_nat 0) with 0%nat in Hv'. rewrite take_0 in Hv'.
  eexists. exact Hv'.
Qed.

Lemma assign_takes l l' : len l' < 2 ^ 31 → takes (assign (len l') l') l l'.
Proof.
  intros Hl h v Hr. unfold assign. apply ends_bind. eapply ends_mono; [exact (clear_takes l h v Hr)|]. intros h1 v1 [Hr1 E1].
  apply ends_bind. eapply ends_mono; [apply view_grow; [done|cbn; lia..]|]. intros h2 v2 (extra & Hv2 & E2 & Hc).
  eapply ends_mono; [apply fill_all; [by exists extra|done|done|by rewrite (view_capacity _ _ _ _ Hv2)]|].
  intros h3 v3 [? ->]. by rewrite E2.
Qed.

Lemma set_takes a b x y : takes (set_at (len a) y) (a ++ [x] ++ b) (a ++ [y] ++ b).
Proof.
  intros h v Hr. pose proof (rep_small _ _ _ Hr) as Hs. destruct Hr as [extra Hv]. unfold set_at. rewrite !length_app in Hs. cbn in Hs.
  rewrite item_ptr_id by lia. eapply ends_mono; [eapply view_fill; [done|lia|rewrite length_app, length_fmap, !length_app; cbn; lia]|].
  intros h' v' [Hv' Hr']. split; [|done]. exists extra. rewrite !length_app in *. cbn [length] in *.
  assert (∀ z, (Some <$> a ++ [z] ++ b) ++ extra = (Some <$> a) ++ [Some z] ++ (Some <$> b) ++ extra) as Hcs
    by (intros; by rewrite fmap_app, <- app_assoc).
  rewrite Hcs. rewrite Hcs, Nat2Z.id, take_app_length', drop_app_add' in Hv' by (by rewrite length_fmap). exact Hv'.
Qed.

(** *** Reading *)

Lemma values_some (l : list Z) : values (Some <$> l) = MOk l.
Proof.
  unfold values. replace (mapM id (Some <$> l)) with (Some l); [done|]. symmetry. apply mapM_Some.
  induction l; cbn; by constructor.
Qed.

Lemma rep_elements h v l : rep h v l → elements h v = MOk l.
Proof.
  intros Hr. pose proof (rep_end _ _ _ Hr) as He. destruct Hr as [extra Hv]. unfold elements, begin_pos.
  rewrite (view_items _ _ _ _ Hv), He, item_ptr_id by lia. cbn [mem_bind]. rewrite Z.sub_0_r.
  rewrite load_ok by (rewrite ?length_app, ?length_fmap; lia). cbn [mem_bind]. rewrite Nat2Z.id, drop_0.
  by rewrite take_app_length', values_some by (by rewrite length_fmap).
Qed.

Lemma rep_at h v l i x : rep h v l → l !! i = Some x → at_ (Z.of_nat i) h v = MOk x.
Proof.
  intros Hr Hi. pose proof (rep_small _ _ _ Hr) as Hs. pose proof (lookup_lt_Some _ _ _ Hi) as Hlt. destruct Hr as [extra Hv].
  unfold at_. rewrite (view_items _ _ _ _ Hv), item_ptr_id by lia. cbn [mem_bind].
  rewrite load_ok by (rewrite ?length_app, ?length_fmap; lia). cbn [mem_bind]. rewrite Nat2Z.id.
  assert (((Some <$> l) ++ extra) !! i = Some (Some x)) as Hb
    by (rewrite lookup_app_l by (rewrite length_fmap; lia); by rewrite list_lookup_fmap, Hi).
  by rewrite (drop_S _ _ _ Hb).
Qed.

Lemma rep_front h v x l : rep h v (x :: l) → front h v = MOk x.
Proof. intros Hr. by apply (rep_at _ _ _ 0 _ Hr). Qed.

Lemma rep_back h v l x : rep h v (l ++ [x]) → back h v = MOk x.
Proof.
  intros Hr. unfold back. pose proof (rep_small _ _ _ Hr) as Hs. rewrite (rep_size _ _ _ Hr). rewrite length_app in *. cbn [length] in *.
  rewrite wrap_id by (unfold fits; lia). replace (Z.of_nat (length l + 1) - 1) with (len l) by lia.
  apply (rep_at _ _ _ _ _ Hr). by apply list_lookup_middle.
Qed.

Lemma rep_destroy h v l : rep h v l → destroy h v = MOk (rest h v).
Proof.
  intros [extra Hv]. unfold destroy, rest. rewrite (view_direct _ _ _ _ Hv). destruct Hv as (_ & _ & Hv).
  destruct (pv_union v); [done|]. destruct Hv as (Hp & _). unfold free. by rewrite Hp.
Qed.

Lemma rep_new h : rep h prevector_new [] ∧ rest h prevector_new = h.
Proof.
  split; [|done]. exists (replicate (Z.to_nat N) (Some 0)). unfold view. cbn. rewrite length_replicate. split_and!; lia || done.
Qed.

Lemma rep_raw h : rep h prevector_raw [] ∧ rest h prevector_raw = h.
Proof.
  split; [|done]. exists (uninit N). unfold view, uninit. cbn. rewrite length_replicate. split_and!; lia || done.
Qed.

Lemma construct_rep h l : len l < 2 ^ 31 → ends (construct (len l) l h) (λ h' v', rep h' v' l ∧ rest h' v' = h).
Proof.
  intros Hl. unfold construct. apply ends_bind. destruct (rep_raw h) as [[extra Hv] Hr].
  eapply ends_mono; [eapply (view_change _ _ _ _ (len l) Hv); cbn; lia|]. intros h1 v1 (b & Hb & E & Hc & _).
  eapply ends_mono; [apply fill_all; [by exists b|done|done|by rewrite (view_capacity _ _ _ _ Hb)]|].
  intros h2 v2 [? ->]. by rewrite E.
Qed.

(** ** Runs of operations *)

Inductive vec_op :=
  | PushBack (x : Z) | PopBack | InsertOne (pos : nat) (x : Z) | InsertValue (pos n : nat) (x : Z)
  | InsertRange (pos : nat) (l : list Z) | EraseAt (pos : nat) | EraseRange (first last : nat)
  | Resize (n : nat) | Reserve (n : Z) | ShrinkToFit | Clear | AssignValue (n : nat) (x : Z)
  | AssignRange (l : list Z) | SetAt (pos : nat) (x : Z).

Definition pv_step (op : vec_op) : heap → prevector → mres (heap * prevector) :=
  match op with
  | PushBack x => push_back x
  | PopBack => pop_back
  | InsertOne pos x => insert_one (Z.of_nat pos) x
  | InsertValue pos n x => insert_value (Z.of_nat pos) (Z.of_nat n) x
  | InsertRange pos l => insert_range (Z.of_nat pos) l
  | EraseAt pos => erase_at (Z.of_nat pos)
  | EraseRange first last => erase (Z.of_nat first) (Z.of_nat last)
  | Resize n => resize (Z.of_nat n)
  | Reserve n => reserve n
  | ShrinkToFit => shrink_to_fit
  | Clear => clear
  | AssignValue n x => assign_value (Z.of_nat n) x
  | AssignRange l => assign_range l
  | SetAt pos x => set_at (Z.of_nat pos) x
  end.

(** The same operation on a list. *)
Definition vec_step (op : vec_op) (l : list Z) : list Z :=
  match op with
  | PushBack x => l ++ [x]
  | PopBack => take (length l - 1) l
  | InsertOne pos x => take pos l ++ [x] ++ drop pos l
  | InsertValue pos n x => take pos l ++ replicate n x ++ drop pos l
  | InsertRange pos l2 => take pos l ++ l2 ++ drop pos l
  | EraseAt pos => take pos l ++ drop (S pos) l
  | EraseRange first last => take first l ++ drop last l
  | Resize n => take n l ++ replicate (n - length l) 0
  | Reserve _ | ShrinkToFit => l
  | Clear => []
  | AssignValue n x => replicate n x
  | AssignRange l2 => l2
  | SetAt pos x => <[pos := x]> l
  end.

(** What the caller owes: positions inside the vector, fewer than 2^31 elements. *)
Definition vec_ok (op : vec_op) (l : list Z) : bool :=
  match op with
  | PopBack => bool_decide (l ≠ [])
  | InsertOne pos _ | InsertValue pos _ _ | InsertRange pos _ => bool_decide (pos <= length l)%nat
  | EraseAt pos | SetAt pos _ => bool_decide (pos < length l)%nat
  | EraseRange first last => bool_decide (first <= last <= length l)%nat
  | Reserve n => bool_decide (0 <= n < 2 ^ 32)
  | _ => true
  end && bool_decide (len (vec_step op l) < 2 ^ 31).

Fixpoint pv_run (ops : list vec_op) (h : heap) (v : prevector) : mres (heap * prevector) :=
  match ops with [] => MOk (h, v) | op :: ops => let& '(h, v) := pv_step op h v in pv_run ops h v end.
Fixpoint vec_run (ops : list vec_op) (l : list Z) : option (list Z) :=
  match ops with [] => Some l | op :: ops => if vec_ok op l then vec_run ops (vec_step op l) else None end.

Lemma split_at (l : list Z) pos : (pos <= length l)%nat → l = take pos l ++ drop pos l ∧ length (take pos l) = pos.
Proof. intros. rewrite take_drop, length_take. split; [done|lia]. Qed.

Lemma pv_step_takes op l : vec_ok op l = true → takes (pv_step op) l (vec_step op l).
Proof.
  unfold vec_ok. intros [Hpre Hlen]%andb_true_iff. apply bool_decide_eq_true_1 in Hlen.
  destruct op as [x| |pos x|pos n x|pos l2|pos|first last|n|n| | |n x|l2|pos x]; cbn [vec_step pv_step] in *;
    try apply bool_decide_eq_true_1 in Hpre.
  - apply push_back_takes. rewrite length_app in Hlen. cbn in Hlen. lia.
  - intros h v Hr. unfold pop_back. rewrite (rep_end _ _ _ Hr). destruct (exists_last Hpre) as (a & x & ->).
    rewrite length_app. cbn [length]. replace (length a + 1 - 1)%nat with (length a) by lia. rewrite take_app_length.
    replace (Z.of_nat (length a + 1)) with (len a + len [x]) by (cbn; lia). replace (len a + len [x] - 1) with (len a) by (cbn; lia).
    pose proof (erase_takes a [x] []) as He. rewrite !app_nil_r in He. by apply He.
  - destruct (split_at l pos Hpre) as [E Ep]. rewrite E at 1. rewrite <- Ep at 1. apply insert_one_takes.
    rewrite take_drop. rewrite !length_app, length_take, length_drop in Hlen. cbn in Hlen. lia.
  - destruct (split_at l pos Hpre) as [E Ep]. rewrite E at 1. rewrite <- Ep at 1. apply insert_value_takes.
    rewrite take_drop. rewrite !length_app, length_take, length_drop, length_replicate in Hlen. lia.
  - destruct (split_at l pos Hpre) as [E Ep]. rewrite E at 1. rewrite <- Ep at 1. apply insert_range_takes.
    rewrite take_drop. rewrite !length_app, length_take, length_drop in Hlen. lia.
  - destruct (lookup_lt_is_Some_2 l pos Hpre) as [x Hx]. unfold erase_at.
    destruct (split_at l pos ltac:(lia)) as [_ Ep]. pose proof (erase_takes (take pos l) [x] (drop (S pos) l)) as He.
    rewrite Ep in He. change ([x] ++ drop (S pos) l) with (x :: drop (S pos) l) in He. by rewrite (take_drop_middle _ _ _ Hx) in He.
  - destruct (split_at l first ltac:(lia)) as [E Ep]. destruct (split_at (drop first l) (last - first)) as [E2 Ep2]; [rewrite length_drop; lia|].
    rewrite drop_drop in E2. replace (first + (last - first))%nat with last in E2 by lia.
    pose proof (erase_takes (take first l) (take (last - first) (drop first l)) (drop last l)) as He.
    rewrite <- E2, take_drop, Ep, Ep2 in He. by replace (Z.of_nat last) with (Z.of_nat first + Z.of_nat (last - first)) by lia.
  - destruct (decide (length l <= n)%nat) as [Hle|Hgt].
    + rewrite take_ge by done. replace (Z.of_nat n) with (len l + Z.of_nat (n - length l)) by lia. apply resize_takes_longer.
      rewrite length_app, length_replicate, take_ge in Hlen by done. lia.
    + replace (n - length l)%nat with 0%nat by lia. cbn [replicate]. rewrite app_nil_r.
      destruct (split_at l n ltac:(lia)) as [E Ep]. rewrite E at 1. rewrite <- Ep at 1. apply resize_takes_shorter.
      intros Hd%(f_equal length). rewrite length_drop in Hd. cbn in Hd. lia.
  - by apply reserve_takes.
  - apply shrink_takes.
  - apply clear_takes.
  - unfold assign_value. rewrite Nat2Z.id. rewrite length_replicate in Hlen.
    pose proof (assign_takes l (replicate n x)) as Ha. rewrite length_replicate in Ha. by apply Ha.
  - unfold assign_range. rewrite wrap_id by (unfold fits; lia). by apply assign_takes.
  - destruct (lookup_lt_is_Some_2 l pos Hpre) as [y Hy]. rewrite insert_take_drop by done.
    destruct (split_at l pos ltac:(lia)) as [_ Ep]. pose proof (set_takes (take pos l) (drop (S pos) l) y x) as He.
    rewrite Ep in He. change ([y] ++ drop (S pos) l) with (y :: drop (S pos) l) in He. by rewrite (take_drop_middle _ _ _ Hy) in He.
Qed.

Lemma pv_run_takes ops l l' : vec_run ops l = Some l' → takes (pv_run ops) l l'.
Proof.
  revert l. induction ops as [|op ops IH]; intros l; cbn [vec_run].
  - intros [= <-] h v Hr. by split.
  - destruct (vec_ok op l) eqn:Hok; [|done]. intros Hrun h v Hr. cbn [pv_run]. apply ends_bind.
    eapply ends_mono; [exact (pv_step_takes op l Hok h v Hr)|]. intros h1 v1 [Hr1 E1].
    eapply ends_mono; [exact (IH _ Hrun h1 v1 Hr1)|]. intros h2 v2 [? ->]. done.
Qed.

(** *** Two vectors *)

(** The order of [operator<]: the shorter first, then the first difference. *)
Definition shortlex (l m : list Z) : Prop :=
  (length l < length m)%nat ∨
  length l = length m ∧ ∃ i x y, take i l = take i m ∧ l !! i = Some x ∧ m !! i = Some y ∧ x < y.

Lemma less_loop_spec l m :
  less_loop l m = true ↔ ∃ i x y, take i l = take i m ∧ l !! i = Some x ∧ m !! i = Some y ∧ x < y.
Proof.
  revert m. induction l as [|a l IH]; intros [|b m]; cbn [less_loop].
  1-3: split; [done|]; intros (i & x & y & _ & Hx & Hy & _); by destruct i.
  destruct (Z.ltb_spec a b) as [Hlt|Hge]; [split; [intros _; by exists 0%nat, a, b|done]|].
  destruct (Z.ltb_spec b a) as [Hgt|Hle].
  - split; [done|]. intros (i & x & y & Ht & Hx & Hy & Hxy). destruct i; cbn in *; simplify_eq; lia.
  - assert (a = b) as -> by lia. rewrite IH. split; intros (i & x & y & Ht & Hx & Hy & Hxy).
    + exists (S i), x, y. cbn. by rewrite Ht.
    + destruct i; cbn in *; simplify_eq; [lia|]. by exists i, x, y.
Qed.

Lemma rep_eq h v w l m : rep h v l → rep h w m → pv_eq h v w = MOk (bool_decide (l = m)).
Proof.
  intros Hv Hw. unfold pv_eq. rewrite (rep_size _ _ _ Hv), (rep_size _ _ _ Hw), (rep_elements _ _ _ Hv), (rep_elements _ _ _ Hw).
  destruct (Z.eqb_spec (len m) (len l)); [done|]. cbn. rewrite bool_decide_eq_false_2; [done|]. by intros ->.
Qed.

Lemma rep_lt h v w l m : rep h v l → rep h w m → ∃ r, pv_lt h v w = MOk r ∧ (r = true ↔ shortlex l m).
Proof.
  intros Hv Hw. unfold pv_lt, shortlex.
  rewrite (rep_size _ _ _ Hv), (rep_size _ _ _ Hw), (rep_elements _ _ _ Hv), (rep_elements _ _ _ Hw).
  destruct (Z.ltb_spec (len l) (len m)); [exists true; split; [done|]; split; [intros _; left; lia|done]|].
  destruct (Z.gtb_spec (len l) (len m)); [exists false; split; [done|]; split; [done|lia]|].
  cbn. eexists. split; [done|]. rewrite less_loop_spec. split; [intros Hl; right; split; [lia|done]|]. intros [?|[_ ?]]; [lia|done].
Qed.

(** Two vectors own different blocks. *)
Definition apart v (w : prevector) : Prop :=
  match pv_union v, pv_union w with Indirect _ p, Indirect _ q => p ≠ q | _, _ => True end.

Lemma rep_other h v h' v' w m : rep h w m → apart v w → rest h' v' = rest h v → rep h' w m ∧ apart v' w.
Proof.
  intros [extra (Hn & Hb & Hw)] Ha Hr. unfold rep, view, apart, rest in *. destruct (pv_union w) as [d|c q].
  { split; [by exists extra|]. by destruct (pv_union v'). }
  destruct Hw as (Hq & Hs & Hl & Hc).
  assert (match pv_union v with Indirect _ p => delete p h | _ => h end !! q = Some ((Some <$> m) ++ extra)) as Hold.
  { destruct (pv_union v); [done|]. by rewrite lookup_delete_ne. }
  rewrite <- Hr in Hold. destruct (pv_union v') as [d'|c' p'].
  - split; [|done]. by exists extra.
  - apply lookup_delete_Some in Hold as [Hne Hold]. split; [|done]. by exists extra.
Qed.

Lemma copy_assign_rep h v w l m : rep h v l → rep h w m → apart v w →
  ends (copy_assign w h v) (λ h' v', rep h' v' m ∧ rep h' w m ∧ apart v' w ∧ rest h' v' = rest h v).
Proof.
  intros Hv Hw Ha. pose proof (rep_small _ _ _ Hw). unfold copy_assign, assign_range. rewrite (rep_elements _ _ _ Hw). cbn [mem_bind].
  rewrite wrap_id by (unfold fits; lia). eapply ends_mono; [exact (assign_takes l m ltac:(done) h v Hv)|].
  intros h' v' [Hv' Hr]. destruct (rep_other _ _ _ _ _ _ Hw Ha Hr). done.
Qed.

Lemma prevector_copy_rep h w m : rep h w m →
  ends (prevector_copy w h) (λ h' v', rep h' v' m ∧ rep h' w m ∧ apart v' w ∧ rest h' v' = h).
Proof.
  intros Hw. pose proof (rep_small _ _ _ Hw). unfold prevector_copy. rewrite (rep_elements _ _ _ Hw), (rep_size _ _ _ Hw). cbn [mem_bind].
  eapply ends_mono; [by apply construct_rep|]. intros h' v' [Hv' Hr].
  destruct (rep_other h prevector_raw h' v' w m Hw I Hr). done.
Qed.
End prevector.

(** ** Properties *)

(** C17 [prevector] is a vector of bytes: whatever operations are run on it, with positions inside it and fewer than 2^31
    elements, no access leaves a block or reads an uninitialised cell or the inactive member of the union, and the elements,
    their number and each [operator[]] are those of the list that the same operations give.  The heap then holds one block
    more than before at most: destroying the vector gives the heap back as it was. *)
Theorem prevector_refines_vector `{Allocator} (N : Z) (h : heap) (ops : list vec_op) (l : list Z) :
  0 <= N < 2 ^ 16 → vec_run ops [] = Some l →
  match pv_run N ops h (prevector_new N) with
  | MOk (h', v) => elements N h' v = MOk l ∧ size N v = Z.of_nat (length l) ∧
      (∀ i x, l !! i = Some x → at_ N (Z.of_nat i) h' v = MOk x) ∧ destroy N h' v = MOk h
  | MAbort => alloc_fails
  | MFault => False
  end.
Proof.
  intros HN Hrun. destruct (rep_new N HN h) as [Hnew Hrest]. pose proof (pv_run_takes N HN ops [] l Hrun h _ Hnew) as Hr.
  destruct (pv_run N ops h (prevector_new N)) as [[h' v]| |]; [|done..]. destruct Hr as [Hr E].
  split_and!; [by apply rep_elements|by eapply rep_size|intros; by eapply rep_at|]. erewrite rep_destroy, E by done. by rewrite Hrest.
Qed.

Definition first_fit : Allocator := {| alloc d n := Some (fresh d); alloc_fresh d n p := λ E, eq_rect _ (λ q, q ∉ d) (is_fresh d) _ (Some_inj _ _ E) |}.

Definition sample_ops : list vec_op :=
  [InsertRange 0 (seqZ 0 27); PushBack 1; PushBack 2; InsertOne 3 7; EraseRange 0 20; ShrinkToFit; Resize 12; SetAt 0 9; PopBack].

Lemma prevector_refines_vector_witness :
  ∃ h v, pv_run (H := first_fit) 28 sample_ops ∅ (prevector_new 28) = MOk (h, v) ∧
    elements 28 h v = MOk [9; 20; 21; 22; 23; 24; 25; 26; 1; 2; 0] ∧ destroy 28 h v = MOk ∅.
Proof.
  destruct (pv_run (H := first_fit) 28 sample_ops ∅ (prevector_new 28)) as [[h v]| |] eqn:E;
    [|exfalso; revert E; vm_compute; discriminate..].
  pose proof (prevector_refines_vector (H := first_fit) 28 ∅ sample_ops [9; 20; 21; 22; 23; 24; 25; 26; 1; 2; 0]
                ltac:(lia) ltac:(vm_compute; reflexivity)) as Hr.
  rewrite E in Hr. exists h, v. destruct Hr as (Hl & _ & _ & Hd). split; [reflexivity|]. split; [exact Hl|exact Hd].
Defined.

(** Comparison and copying: [operator==] is equality of the elements, [operator<] orders by length and then by
    the first difference, and a copy has the elements of its source, which keeps them, in storage of its own. *)
Theorem prevector_copies_and_compares `{Allocator} (N : Z) (h : heap) (v w : prevector) (l m : list Z) :
  0 <= N < 2 ^ 16 → rep N h v l → rep N h w m → apart v w →
  pv_eq N h v w = MOk (bool_decide (l = m)) ∧ (∃ r, pv_lt N h v w = MOk r ∧ (r = true ↔ shortlex l m)) ∧
  match prevector_copy N w h with
  | MOk (h', u) => rep N h' u m ∧ rep N h' w m ∧ apart u w
  | MAbort => alloc_fails
  | MFault => False
  end ∧
  match copy_assign N w h v with
  | MOk (h', u) => rep N h' u m ∧ rep N h' w m ∧ apart u w
  | MAbort => alloc_fails
  | MFault => False
  end.
Proof.
  intros HN Hv Hw Ha. split_and!; [by apply rep_eq|by apply rep_lt| |].
  - pose proof (prevector_copy_rep N HN h w m Hw) as Hc. destruct (prevector_copy N w h) as [[h' u]| |]; [|done..]. destruct Hc as (? & ? & ? & _). by split_and!.
  - pose proof (copy_assign_rep N HN h v w l m Hv Hw Ha) as Hc. destruct (copy_assign N w h v) as [[h' u]| |]; [|done..]. destruct Hc as (? & ? & ? & _). by split_and!.
Qed.
