(* ===== verification/Queue.v ===== *)
(** * The blocking queue: [queue.h]

    A bounded queue shared by threads, guarded by one mutex, with two condition
    variables and two atomic flags for shutting down.  The threads are a map from
    identifiers to program points of [push], [pop], [finished] and [quit]; a label
    names the thread that moves, so a schedule is a list of labels and [run] executes
    it.  The flags are loaded and stored in steps of their own, since [finished] and
    [quit] do not take the mutex.  Proved for every schedule: the elements come out
    in the order in which they went in, none lost or repeated, the bound is kept, at
    most one thread is inside; a thread waits only while it has to, and if nothing
    can move, only consumers of an empty or producers to a full queue are waiting.
    And a schedule in which a shutdown is missed. *)

From stdpp Require Import base gmap list numbers option.

(** ** Threads *)

(** What a call returned, with the element that [pop] stored. *)
Definition answer (T : Type) : Type := bool * option T.

(** The points at which another thread may move in between.  At [..Enter] the mutex
    is being taken, on entry or after a wait; [..Waiting]: blocked in [wait]; from
    [..Quit] to [Unlock] the mutex is held. *)
Inductive point (T : Type) :=
  | Idle (last : option (answer T))
  | PushEnter (x : T) | PushQuit (x : T) | PushFinished (x : T) | PushTest (x : T) | PushWaiting (x : T) | PushNotify
  | PopEnter | PopQuit | PopTest | PopFinished | PopBlock | PopWaiting | PopNotify (x : T)
  | Unlock (r : answer T)
  | FinishedStore | FinishedNotify
  | QuitStore | QuitNotifyEmpty | QuitNotifyFull.
Arguments Idle {T} last.
Arguments PushEnter {T} x.
Arguments PushQuit {T} x.
Arguments PushFinished {T} x.
Arguments PushTest {T} x.
Arguments PushWaiting {T} x.
Arguments PushNotify {T}.
Arguments PopEnter {T}.
Arguments PopQuit {T}.
Arguments PopTest {T}.
Arguments PopFinished {T}.
Arguments PopBlock {T}.
Arguments PopWaiting {T}.
Arguments PopNotify {T} x.
Arguments Unlock {T} r.
Arguments FinishedStore {T}.
Arguments FinishedNotify {T}.
Arguments QuitStore {T}.
Arguments QuitNotifyEmpty {T}.
Arguments QuitNotifyFull {T}.

Inductive call (T : Type) := CallPush (x : T) | CallPop | CallFinished | CallQuit.
Arguments CallPush {T} x.
Arguments CallPop {T}.
Arguments CallFinished {T}.
Arguments CallQuit {T}.

(** The members of [Queue] and the threads; [mutex] is the thread that holds it.
    [accepted] and [delivered] record the elements pushed and popped so far. *)
Record Queue (T : Type) := mk_Queue {
  queue : list T;
  size_max : nat;
  mutex : option nat;
  quit_flag : bool;
  finished_flag : bool;
  threads : gmap nat (point T);
  accepted : list T;
  delivered : list T;
}.
Arguments mk_Queue {T} queue size_max mutex quit_flag finished_flag threads accepted delivered.
Arguments queue {T} q : rename.
Arguments size_max {T} q : rename.
Arguments mutex {T} q : rename.
Arguments quit_flag {T} q : rename.
Arguments finished_flag {T} q : rename.
Arguments threads {T} q : rename.
Arguments accepted {T} q : rename.
Arguments delivered {T} q : rename.

Section queue.
Context {T : Type}.
Implicit Types (s : Queue T) (t : nat) (x : T).

Definition Queue_new (size : nat) (n : nat) : Queue T :=
  mk_Queue [] size None false false (list_to_map ((λ t, (t, Idle None)) <$> seq 0 n)) [] [].

Definition goto t (p : point T) s : Queue T :=
  mk_Queue (queue s) (size_max s) (mutex s) (quit_flag s) (finished_flag s) (<[t := p]> (threads s)) (accepted s) (delivered s).
Definition set_mutex (m : option nat) s : Queue T :=
  mk_Queue (queue s) (size_max s) m (quit_flag s) (finished_flag s) (threads s) (accepted s) (delivered s).
Definition store_quit s : Queue T :=
  mk_Queue (queue s) (size_max s) (mutex s) true (finished_flag s) (threads s) (accepted s) (delivered s).
Definition store_finished s : Queue T :=
  mk_Queue (queue s) (size_max s) (mutex s) (quit_flag s) true (threads s) (accepted s) (delivered s).
Definition enqueue x s : Queue T :=
  mk_Queue (queue s ++ [x]) (size_max s) (mutex s) (quit_flag s) (finished_flag s) (threads s) (accepted s ++ [x]) (delivered s).
Definition dequeue x (rest : list T) s : Queue T :=
  mk_Queue rest (size_max s) (mutex s) (quit_flag s) (finished_flag s) (threads s) (accepted s) (delivered s ++ [x]).

(** [notify_all]: the threads blocked on the condition variable go back to taking
    the mutex. *)
Definition wake_empty (p : point T) : point T := match p with PopWaiting => PopEnter | _ => p end.
Definition wake_full (p : point T) : point T := match p with PushWaiting x => PushEnter x | _ => p end.
Definition wake (f : point T → point T) s : Queue T :=
  mk_Queue (queue s) (size_max s) (mutex s) (quit_flag s) (finished_flag s) (f <$> threads s) (accepted s) (delivered s).
Definition notify_empty s : Queue T := wake wake_empty s.
Definition notify_full s : Queue T := wake wake_full s.

(** ** Steps *)

Definition start (c : call T) : point T :=
  match c with
  | CallPush x => PushEnter x
  | CallPop => PopEnter
  | CallFinished => FinishedStore
  | CallQuit => QuitStore
  end.

(** The mutex is taken if it is free. *)
Definition lock t (p : point T) s : option (Queue T) :=
  match mutex s with None => Some (goto t p (set_mutex (Some t) s)) | Some _ => None end.

Definition push_step t s (p : point T) : option (Queue T) :=
  match p with
  | PushEnter x => lock t (PushQuit x) s
  | PushQuit x => Some (goto t (if quit_flag s then Unlock (false, None) else PushFinished x) s)
  | PushFinished x => Some (goto t (if finished_flag s then Unlock (false, None) else PushTest x) s)
  | PushTest x =>
      if length (queue s) <? size_max s then Some (goto t PushNotify (enqueue x s))
      else Some (goto t (PushWaiting x) (set_mutex None s))
  | PushNotify => Some (goto t (Unlock (true, None)) (notify_empty s))
  | _ => None
  end.

Definition pop_step t s (p : point T) : option (Queue T) :=
  match p with
  | PopEnter => lock t PopQuit s
  | PopQuit => Some (goto t (if quit_flag s then Unlock (false, None) else PopTest) s)
  | PopTest =>
      match queue s with
      | x :: rest => Some (goto t (PopNotify x) (dequeue x rest s))
      | [] => Some (goto t PopFinished s)
      end
  | PopFinished => Some (goto t (if finished_flag s then Unlock (false, None) else PopBlock) s)
  | PopBlock => Some (goto t PopWaiting (set_mutex None s))
  | PopNotify x => Some (goto t (Unlock (true, Some x)) (notify_full s))
  | _ => None
  end.

(** [finished] and [quit], and the end of a critical section. *)
Definition other_step t s (p : point T) : option (Queue T) :=
  match p with
  | Unlock r => Some (goto t (Idle (Some r)) (set_mutex None s))
  | FinishedStore => Some (goto t FinishedNotify (store_finished s))
  | FinishedNotify => Some (goto t (Idle None) (notify_empty s))
  | QuitStore => Some (goto t QuitNotifyEmpty (store_quit s))
  | QuitNotifyEmpty => Some (goto t QuitNotifyFull (notify_empty s))
  | QuitNotifyFull => Some (goto t (Idle None) (notify_full s))
  | _ => None
  end.

Definition thread_step t s (p : point T) : option (Queue T) :=
  match p with
  | PushEnter _ | PushQuit _ | PushFinished _ | PushTest _ | PushNotify => push_step t s p
  | PopEnter | PopQuit | PopTest | PopFinished | PopBlock | PopNotify _ => pop_step t s p
  | _ => other_step t s p
  end.

(** A thread calls a member function, goes on, or is woken without a notification,
    which a condition variable may do at any time. *)
Inductive label := Call (t : nat) (c : call T) | Go (t : nat) | Spurious (t : nat).

Definition step (l : label) s : option (Queue T) :=
  match l with
  | Call t c => match threads s !! t with Some (Idle _) => Some (goto t (start c) s) | _ => None end
  | Go t => threads s !! t ≫= thread_step t s
  | Spurious t =>
      match threads s !! t with
      | Some PopWaiting => Some (goto t PopEnter s)
      | Some (PushWaiting x) => Some (goto t (PushEnter x) s)
      | _ => None
      end
  end.

(** Labels that cannot move are skipped. *)
Fixpoint run (ls : list label) s : Queue T :=
  match ls with [] => s | l :: ls' => run ls' (default s (step l s)) end.

Definition length_ s : nat := length (queue s).

(** ** Invariant *)

Definition inside (p : point T) : bool :=
  match p with
  | PushQuit _ | PushFinished _ | PushTest _ | PushNotify | PopQuit | PopTest | PopFinished | PopBlock | PopNotify _
  | Unlock _ => true
  | _ => false
  end.

(** At [PopFinished] and [PopBlock] the queue was seen empty and the mutex is held
    since. *)
Definition saw_empty (p : point T) : bool := match p with PopFinished | PopBlock => true | _ => false end.

Record queue_inv s : Prop := {
  inv_fifo : accepted s = delivered s ++ queue s;
  inv_bound : (length (queue s) <= size_max s)%nat;
  inv_inside : ∀ t p, threads s !! t = Some p → (inside p = true ↔ mutex s = Some t);
  inv_holder : ∀ t, mutex s = Some t → ∃ p, threads s !! t = Some p ∧ inside p = true;
  inv_empty : ∀ t p, threads s !! t = Some p → saw_empty p = true → queue s = [];
  inv_pop : ∀ t, threads s !! t = Some PopWaiting → queue s = [] ∨ ∃ u, threads s !! u = Some PushNotify;
  inv_push : ∀ t x, threads s !! t = Some (PushWaiting x) →
    length (queue s) = size_max s ∨ ∃ u y, threads s !! u = Some (PopNotify y);
}.

(** Looking up a thread after a step. *)
Ltac lookup_thread :=
  repeat match goal with
  | H : <[?t := _]> _ !! ?u = Some _ |- _ =>
      destruct (decide (t = u)) as [<-|];
      [rewrite lookup_insert_eq in H; apply Some_inj in H; subst|rewrite lookup_insert_ne in H by done]
  end.

Lemma inside_unique s t u p r :
  queue_inv s → threads s !! t = Some p → threads s !! u = Some r → inside p = true → inside r = true → t = u.
Proof.
  intros I Ht Hu Hp Hr. apply (inv_inside s I t p Ht) in Hp. apply (inv_inside s I u r Hu) in Hr. congruence.
Qed.

(** Other threads than [t] keep their reason to wait when [t] moves. *)
Lemma inv_goto s t p p' :
  queue_inv s → threads s !! t = Some p → inside p' = inside p → (saw_empty p' = true → queue s = []) →
  p' ≠ PopWaiting → (∀ x, p' ≠ PushWaiting x) →
  (p = PushNotify → ∀ u, threads s !! u ≠ Some PopWaiting) →
  (∀ y, p = PopNotify y → ∀ u x, threads s !! u ≠ Some (PushWaiting x)) →
  queue_inv (goto t p' s).
Proof.
  intros I Ht Hin Hempty Hw1 Hw2 Hn1 Hn2. destruct I as [I1 I2 I3 I4 I5 I6 I7]. split; cbn; [done|done| | | | |].
  - intros u r Hu. lookup_thread; [rewrite Hin; by apply I3|by apply I3].
  - intros u Hu. destruct (I4 u Hu) as (r & Hr & Hir). destruct (decide (t = u)) as [<-|].
    + exists p'. rewrite lookup_insert_eq. split; [done|]. rewrite Hin. congruence.
    + exists r. by rewrite lookup_insert_ne.
  - intros u r Hu Hs. lookup_thread; [by apply Hempty|by apply (I5 u r)].
  - intros u Hu. lookup_thread; [done|]. destruct (I6 u Hu) as [?|[v Hv]]; [by left|]. right. exists v.
    destruct (decide (t = v)) as [<-|]; [|by rewrite lookup_insert_ne]. rewrite Ht in Hv. apply Some_inj in Hv.
    by destruct (Hn1 Hv u).
  - intros u x Hu. lookup_thread; [by destruct (Hw2 x)|]. destruct (I7 u x Hu) as [?|(v & y & Hv)]; [by left|]. right.
    exists v, y. destruct (decide (t = v)) as [<-|]; [|by rewrite lookup_insert_ne]. rewrite Ht in Hv. apply Some_inj in Hv.
    by destruct (Hn2 y Hv u x).
Qed.

Lemma inv_lock s t p p' :
  queue_inv s → threads s !! t = Some p → mutex s = None → inside p' = true → saw_empty p' = false → inside p = false →
  queue_inv (goto t p' (set_mutex (Some t) s)).
Proof.
  intros I Ht Hm Hin Hs Hp. destruct I as [I1 I2 I3 I4 I5 I6 I7].
  assert (∀ u r, threads s !! u = Some r → inside r = false) as Hout.
  { intros u r Hu. destruct (inside r) eqn:E; [|done]. apply (I3 u r Hu) in E. congruence. }
  split; cbn; [done|done| | | | |].
  - intros u r Hu. lookup_thread; [done|]. rewrite (Hout u r Hu). split; [done|]. congruence.
  - intros u [= <-]. exists p'. by rewrite lookup_insert_eq.
  - intros u r Hu Hr. lookup_thread; [congruence|by apply (I5 u r)].
  - intros u Hu. lookup_thread; [done|]. destruct (I6 u Hu) as [?|[v Hv]]; [by left|]. by apply Hout in Hv.
  - intros u x Hu. lookup_thread; [done|]. destruct (I7 u x Hu) as [?|(v & y & Hv)]; [by left|]. by apply Hout in Hv.
Qed.

Lemma inv_unlock s t p p' :
  queue_inv s → threads s !! t = Some p → inside p = true → inside p' = false → p ≠ PushNotify → (∀ y, p ≠ PopNotify y) →
  (p' = PopWaiting → queue s = []) → (∀ x, p' = PushWaiting x → length (queue s) = size_max s) →
  queue_inv (goto t p' (set_mutex None s)).
Proof.
  intros I Ht Hp Hp' Hn1 Hn2 Hw1 Hw2. pose proof (inside_unique s t) as Huniq. pose proof I as [I1 I2 I3 I4 I5 I6 I7].
  split; cbn; [done|done| | | | |].
  - intros u r Hu. lookup_thread; [by rewrite Hp'|]. split; [|done]. intros Hr. by destruct (Huniq u p r I Ht Hu Hp Hr).
  - done.
  - intros u r Hu Hr. lookup_thread; [by destruct r|by apply (I5 u r)].
  - intros u Hu. lookup_thread; [by left; apply Hw1|]. destruct (I6 u Hu) as [?|[v Hv]]; [by left|].
    destruct (Huniq v p _ I Ht Hv Hp eq_refl). congruence.
  - intros u x Hu. lookup_thread; [by left; apply (Hw2 x)|]. destruct (I7 u x Hu) as [?|(v & y & Hv)]; [by left|].
    destruct (Huniq v p _ I Ht Hv Hp eq_refl). congruence.
Qed.

Lemma inv_flags s quit fin :
  queue_inv s →
  queue_inv (mk_Queue (queue s) (size_max s) (mutex s) quit fin (threads s) (accepted s) (delivered s)).
Proof. intros [I1 I2 I3 I4 I5 I6 I7]. by split. Qed.

(** What a notification leaves alone. *)
Lemma inv_wake s f :
  queue_inv s → (∀ p, f p = wake_empty p) ∨ (∀ p, f p = wake_full p) → queue_inv (wake f s).
Proof.
  intros [I1 I2 I3 I4 I5 I6 I7] Hf.
  assert (∀ p, inside (f p) = inside p ∧ saw_empty (f p) = saw_empty p ∧ (f p = PopWaiting → p = PopWaiting) ∧
    (∀ x, f p = PushWaiting x → p = PushWaiting x) ∧ (p = PushNotify → f p = PushNotify) ∧
    (∀ y, p = PopNotify y → f p = PopNotify y)) as Hp.
  { intros p. destruct Hf as [E|E]; rewrite E; by destruct p. }
  assert (∀ t r, (f <$> threads s) !! t = Some r → ∃ p, threads s !! t = Some p ∧ r = f p) as Hl.
  { intros t r. rewrite lookup_fmap. intros (p & E & ->)%fmap_Some. eauto. }
  split; cbn; [done|done| | | | |].
  - intros t r (p & Ht & ->)%Hl. destruct (Hp p) as [-> _]. by apply I3.
  - intros t (p & Ht & Hi)%I4. exists (f p). rewrite lookup_fmap, Ht. split; [done|]. by rewrite (proj1 (Hp p)).
  - intros t r (p & Ht & ->)%Hl Hs. destruct (Hp p) as (_ & E & _). rewrite E in Hs. by apply (I5 t p).
  - intros t (p & Ht & E)%Hl. symmetry in E. apply Hp in E as ->. destruct (I6 t Ht) as [?|[u Hu]]; [by left|].
    right. exists u. rewrite lookup_fmap, Hu. cbn. f_equal. by apply (Hp PushNotify).
  - intros t x (p & Ht & E)%Hl. symmetry in E. apply Hp in E as ->. destruct (I7 t x Ht) as [?|(u & y & Hu)]; [by left|].
    right. exists u, y. rewrite lookup_fmap, Hu. cbn. f_equal. by apply (Hp (PopNotify y)).
Qed.

Lemma woken_empty s u : threads (notify_empty s) !! u ≠ Some PopWaiting.
Proof. cbn. rewrite lookup_fmap. destruct (threads s !! u) as [[]|]; done. Qed.
Lemma woken_full s u x : threads (notify_full s) !! u ≠ Some (PushWaiting x).
Proof. cbn. rewrite lookup_fmap. destruct (threads s !! u) as [[]|]; done. Qed.

Lemma inv_enqueue s t x :
  queue_inv s → threads s !! t = Some (PushTest x) → (length (queue s) < size_max s)%nat →
  queue_inv (goto t PushNotify (enqueue x s)).
Proof.
  intros I Ht Hlt. pose proof (λ u r Hu Hr, inside_unique s t u _ r I Ht Hu eq_refl Hr) as Huniq.
  destruct I as [I1 I2 I3 I4 I5 I6 I7]. split; cbn.
  - by rewrite I1, app_assoc.
  - rewrite length_app. cbn. lia.
  - intros u r Hu. lookup_thread; [|by apply I3]. pose proof (I3 t _ Ht) as E. done.
  - intros u Hu. destruct (I4 u Hu) as (r & Hr & Hir). destruct (decide (t = u)) as [<-|].
    + exists PushNotify. by rewrite lookup_insert_eq.
    + exists r. by rewrite lookup_insert_ne.
  - intros u r Hu Hs. lookup_thread; [done|]. exfalso. assert (inside r = true) as Hr by (by destruct r). by destruct (Huniq u r Hu Hr).
  - intros u Hu. right. exists t. by rewrite lookup_insert_eq.
  - intros u y Hu. lookup_thread; [done|]. exfalso. destruct (I7 u y Hu) as [?|(v & z & Hv)]; [lia|].
    destruct (Huniq v _ Hv eq_refl). congruence.
Qed.

Lemma inv_dequeue s t x rest :
  queue_inv s → threads s !! t = Some PopTest → queue s = x :: rest → queue_inv (goto t (PopNotify x) (dequeue x rest s)).
Proof.
  intros I Ht Eq. pose proof (λ u r Hu Hr, inside_unique s t u _ r I Ht Hu eq_refl Hr) as Huniq.
  destruct I as [I1 I2 I3 I4 I5 I6 I7]. rewrite Eq in *. split; cbn.
  - by rewrite I1, <- app_assoc.
  - cbn in I2. lia.
  - intros u r Hu. lookup_thread; [|by apply I3]. pose proof (I3 t _ Ht) as E. done.
  - intros u Hu. destruct (I4 u Hu) as (r & Hr & Hir). destruct (decide (t = u)) as [<-|].
    + exists (PopNotify x). by rewrite lookup_insert_eq.
    + exists r. by rewrite lookup_insert_ne.
  - intros u r Hu Hs. lookup_thread; [done|]. exfalso. assert (inside r = true) as Hr by (by destruct r). by destruct (Huniq u r Hu Hr).
  - intros u Hu. lookup_thread; [done|]. exfalso. destruct (I6 u Hu) as [?|(v & Hv)]; [done|].
    destruct (Huniq v _ Hv eq_refl). congruence.
  - intros u y Hu. right. exists t, x. by rewrite lookup_insert_eq.
Qed.

Lemma inv_notify_empty s t p p' :
  queue_inv s → threads s !! t = Some p → inside p' = inside p → saw_empty p' = false → p' ≠ PopWaiting →
  (∀ x, p' ≠ PushWaiting x) → (∀ y, p ≠ PopNotify y) → p ≠ PopWaiting → queue_inv (goto t p' (notify_empty s)).
Proof.
  intros I Ht Hin Hs Hw1 Hw2 Hn Hp. apply (inv_goto _ t (wake_empty p)); [by apply inv_wake; auto| |by destruct p|by rewrite Hs|done..| |].
  - cbn. by rewrite lookup_fmap, Ht.
  - intros _ u. apply woken_empty.
  - intros y E. destruct p; try discriminate E. by destruct (Hn x).
Qed.

Lemma inv_notify_full s t p p' :
  queue_inv s → threads s !! t = Some p → inside p' = inside p → saw_empty p' = false → p' ≠ PopWaiting →
  (∀ x, p' ≠ PushWaiting x) → p ≠ PushNotify → (∀ x, p ≠ PushWaiting x) → queue_inv (goto t p' (notify_full s)).
Proof.
  intros I Ht Hin Hs Hw1 Hw2 Hn Hp. apply (inv_goto _ t (wake_full p)); [by apply inv_wake; auto| |by destruct p|by rewrite Hs|done..| |].
  - cbn. by rewrite lookup_fmap, Ht.
  - intros E. by destruct p.
  - intros y _ u x. apply woken_full.
Qed.

Lemma inv_thread_step s t p s' :
  queue_inv s → threads s !! t = Some p → thread_step t s p = Some s' → queue_inv s'.
Proof.
  intros I Ht E. pose proof (inv_empty s I t p Ht) as Hempty.
  destruct p; cbn [thread_step push_step pop_step other_step] in E; try discriminate E; unfold lock in E.
  1, 6: destruct (mutex s) eqn:Em; [discriminate E|]; injection E as <-; by eapply inv_lock.
  3: { destruct (Nat.ltb_spec (length (queue s)) (size_max s)); injection E as <-.
       - by apply inv_enqueue.
       - eapply inv_unlock; [done..|]. intros y _. pose proof (inv_bound s I). lia. }
  5: { destruct (queue s) as [|x rest] eqn:Eq; injection E as <-; [|by apply inv_dequeue].
       by eapply inv_goto. }
  all: injection E as <-.
  all: try by (eapply inv_goto; [done|done|..]; repeat case_match; auto).
  all: try by (eapply inv_notify_empty).
  all: try by (eapply inv_notify_full).
  all: try by (eapply inv_unlock; [done|done|..]; auto).
  all: eapply inv_goto; [by apply inv_flags|exact Ht|done..].
Qed.

Lemma inv_step l s s' : queue_inv s → step l s = Some s' → queue_inv s'.
Proof.
  intros I. destruct l as [t c|t|t]; cbn [step].
  - destruct (threads s !! t) as [[]|] eqn:Ht; try done. intros [= <-]. eapply inv_goto; [done|exact Ht|by destruct c..].
  - intros (p & Ht & E)%bind_Some. by apply (inv_thread_step s t p).
  - destruct (threads s !! t) as [[]|] eqn:Ht; try done; intros [= <-]; by eapply inv_goto; [done|exact Ht|..].
Qed.

Lemma inv_run ls s : queue_inv s → queue_inv (run ls s).
Proof.
  revert s. induction ls as [|l ls IH]; intros s I; [done|]. cbn [run]. apply IH.
  destruct (step l s) eqn:E; [by apply (inv_step l s)|done].
Qed.

Lemma inv_new size n : queue_inv (Queue_new size n).
Proof.
  assert (∀ t p, threads (Queue_new size n) !! t = Some p → p = Idle None) as Hp.
  { intros t p. cbn. intros E%elem_of_list_to_map_2. apply list_elem_of_fmap in E as (u & [= _ ->] & _). done. }
  split; cbn; [done|lia|..].
  - intros t p Ht. by rewrite (Hp t p Ht).
  - done.
  - intros t p Ht. by rewrite (Hp t p Ht).
  - intros t Ht. by left.
  - intros t x Ht. by apply Hp in Ht.
Qed.

Lemma step_size_max l s s' : step l s = Some s' → size_max s' = size_max s.
Proof.
  destruct l as [t c|t|t]; cbn [step]; destruct (threads s !! t) as [p|]; try done; cbn [mbind option_bind].
  all: destruct p; unfold thread_step, push_step, pop_step, other_step, lock; intros E; repeat case_match; by simplify_eq.
Qed.

Lemma run_size_max ls s : size_max (run ls s) = size_max s.
Proof.
  revert s. induction ls as [|l ls IH]; intros s; [done|]. cbn [run]. rewrite IH.
  destruct (step l s) eqn:E; [by apply (step_size_max l)|done].
Qed.

(** The thread that holds the mutex can go on, and so can one that wants it when it
    is free. *)
Lemma inside_moves s t p : inside p = true → is_Some (thread_step t s p).
Proof.
  destruct p; try done; intros _; cbn [thread_step push_step pop_step other_step]; repeat case_match; by eexists.
Qed.

Lemma stuck_points s t p :
  queue_inv s → (∀ u, step (Go u) s = None) → threads s !! t = Some p →
  (∃ r, p = Idle r) ∨ p = PopWaiting ∨ ∃ x, p = PushWaiting x.
Proof.
  intros I Hstuck Ht.
  assert (∀ u r, threads s !! u = Some r → thread_step u s r = None) as Hno.
  { intros u r Hu. pose proof (Hstuck u) as E. cbn [step] in E. by rewrite Hu in E. }
  assert (mutex s = None) as Hm.
  { destruct (mutex s) as [u|] eqn:Em; [|done]. destruct (inv_holder s I u Em) as (r & Hu & Hr).
    destruct (inside_moves s u r Hr) as [? E]. by rewrite (Hno u r Hu) in E. }
  pose proof (Hno t p Ht) as E. destruct p; eauto; exfalso; revert E;
    cbn [thread_step push_step pop_step other_step]; unfold lock; rewrite ?Hm; repeat case_match; done.
Qed.

Lemma stuck_two s p0 p1 :
  threads s = <[0 := p0]> {[1 := p1]} → thread_step 0 s p0 = None → thread_step 1 s p1 = None → ∀ t, step (Go t) s = None.
Proof.
  intros E H0 H1 t. cbn [step]. rewrite E. destruct t as [|[|t]]; [done|done|].
  by rewrite lookup_insert_ne, lookup_singleton_ne.
Qed.
End queue.

(** ** Properties *)

(** C15: the queue is a bounded first-in first-out queue under every schedule of any
    number of threads: the elements that [pop] has delivered are, in order, the
    first ones that [push] accepted and the rest are those in the queue, none lost
    and none repeated; there are never more than [_size_max] of them; and at most
    one thread is between taking and releasing the mutex. *)
Theorem queue_is_fifo {T} (size n : nat) (ls : list (label (T := T))) :
  let s := run ls (Queue_new size n) in
  accepted s = delivered s ++ queue s ∧ length_ s <= size_max s ∧
  (∀ t u p q, threads s !! t = Some p → threads s !! u = Some q → inside p = true → inside q = true → t = u).
Proof.
  intros s. pose proof (inv_run ls _ (inv_new size n)) as I. split_and!; [apply I|apply I|].
  intros t u p q Ht Hu Hp Hq. by apply (inside_unique s t u p q I).
Qed.

(** C16: waiting is justified, under every schedule: a thread blocked in [pop] waits
    for an element, or is about to be notified, and one blocked in [push] waits for
    room, or is about to be notified.  So when no thread can go on, every thread
    inside a call is a consumer of an empty queue, or every one is a producer to a
    full queue: no deadlock. *)
Theorem waiting_is_justified {T} (size n : nat) (ls : list (label (T := T))) :
  0 < size →
  let s := run ls (Queue_new size n) in
  (∀ t, threads s !! t = Some PopWaiting → queue s = [] ∨ ∃ u, threads s !! u = Some PushNotify) ∧
  (∀ t x, threads s !! t = Some (PushWaiting x) → length_ s = size ∨ ∃ u y, threads s !! u = Some (PopNotify y)) ∧
  ((∀ t, step (Go t) s = None) →
     (∀ t p, threads s !! t = Some p →
        (∃ r, p = Idle r) ∨ (p = PopWaiting ∧ queue s = []) ∨ ∃ x, p = PushWaiting x ∧ length_ s = size) ∧
     ¬ ((∃ t, threads s !! t = Some PopWaiting) ∧ ∃ u x, threads s !! u = Some (PushWaiting x))).
Proof.
  intros Hsize s. pose proof (inv_run ls _ (inv_new size n)) as I. fold s in I.
  assert (size_max s = size) as Em by apply run_size_max. pose proof (inv_pop s I) as Hpop. pose proof (inv_push s I) as Hpush.
  rewrite Em in Hpush. split; [done|]. split; [done|]. intros Hstuck.
  assert (∀ t, threads s !! t = Some PopWaiting → queue s = []) as Hpop'.
  { intros t Ht. destruct (Hpop t Ht) as [?|[u Hu]]; [done|].
    by destruct (stuck_points s u _ I Hstuck Hu) as [[? ?]|[?|[? ?]]]. }
  assert (∀ t x, threads s !! t = Some (PushWaiting x) → length_ s = size) as Hpush'.
  { intros t x Ht. destruct (Hpush t x Ht) as [?|(u & y & Hu)]; [done|].
    by destruct (stuck_points s u _ I Hstuck Hu) as [[? ?]|[?|[? ?]]]. }
  split.
  - intros t p Ht. destruct (stuck_points s t p I Hstuck Ht) as [?|[->|[x ->]]]; eauto 6.
  - intros [[t Ht] (u & x & Hu)]. apply Hpop' in Ht. apply Hpush' in Hu. unfold length_ in Hu. rewrite Ht in Hu. cbn in Hu. lia.
Qed.

Lemma waiting_is_justified_witness :
  let s := run [Call 0 CallPop; Go 0; Go 0; Go 0; Go 0; Go 0] (Queue_new (T := nat) 1 2) in
  threads s !! 0 = Some PopWaiting ∧ (queue s = [] ∨ ∃ u, threads s !! u = Some PushNotify).
Proof.
  split; [by vm_compute|].
  refine (proj1 (waiting_is_justified (T := nat) 1 2 [Call 0 CallPop; Go 0; Go 0; Go 0; Go 0; Go 0] _) 0 _); [lia|by vm_compute].
Defined.

(** A shutdown can be missed: the flags are stored and the notifications sent without
    the mutex, so [quit] can run between the test of the flag in [pop] and the wait;
    it has then returned, the consumer waits, and no thread can go on.  And a producer
    that waits for room is not notified by [finished], which notifies [_empty] only:
    it waits although [push] would refuse the element. *)
Theorem shutdown_can_be_missed :
  (∃ ls, let s := run ls (Queue_new (T := nat) 1 2) in
     quit_flag s = true ∧ threads s !! 0 = Some PopWaiting ∧ threads s !! 1 = Some (Idle None) ∧ ∀ t, step (Go t) s = None) ∧
  (∃ ls, let s := run ls (Queue_new (T := nat) 1 2) in
     finished_flag s = true ∧ threads s !! 0 = Some (PushWaiting 8) ∧ threads s !! 1 = Some (Idle None) ∧ ∀ t, step (Go t) s = None).
Proof.
  split.
  - exists [Call 0 CallPop; Go 0; Go 0; Go 0; Go 0; Call 1 CallQuit; Go 1; Go 1; Go 1; Go 0].
    split_and!; [by vm_compute..|]. by apply (stuck_two _ PopWaiting (Idle None)); vm_compute.
  - exists [Call 1 (CallPush 7); Go 1; Go 1; Go 1; Go 1; Go 1; Go 1; Call 0 (CallPush 8); Go 0; Go 0; Go 0; Go 0;
            Call 1 CallFinished; Go 1; Go 1].
    split_and!; [by vm_compute..|]. by apply (stuck_two _ (PushWaiting 8) (Idle None)); vm_compute.
Qed.
