(* ===== verification/Sync.v ===== *)
(** * Lock order checking and semaphores: [sync.h], [sync.cpp]

    With DEBUG_LOCKORDER every thread keeps the stack of the locks it holds or waits
    for, and one table, guarded by a mutex, keeps the pairs of locks that were taken one
    after the other.  The mutex makes [push_lock] and [DeleteLock] single steps of the
    threads; [lreach] is the states that are reached as long as nothing is reported.
    There, no two threads hold or wait for two locks in opposite orders, and what is
    reported is such an inversion.  Pointers are numbers, a thread is a number.

    A semaphore's operations are single steps too; its grants are kept in a store.  The
    value and the grants of a semaphore add up to its initial value, whatever the
    operations. *)

From stdpp Require Import base gmap list strings pretty.
From S2P Require Import Prelude.

Open Scope Z_scope.

(** ** Lock order *)

Record CLockLocation := mk_CLockLocation {
  fTry : bool;
  mutexName : string;
  sourceFile : string;
  m_thread_name : string;
  sourceLine : Z;
}.

Definition CLockLocation_ToString (l : CLockLocation) : string :=
  mutexName l +:+ " " +:+ sourceFile l +:+ ":" +:+ pretty (sourceLine l) +:+
  (if fTry l then " (TRY)" else "") +:+ " (in thread " +:+ m_thread_name l +:+ ")".

Definition LockStack := list (Z * CLockLocation).

Record LockData := mk_LockData {
  available : bool;
  lockorders : gmap (Z * Z) LockStack;
  invlockorders : gset (Z * Z);
}.
Definition LockData_new : LockData := mk_LockData true ∅ ∅.

(** The table, and [g_lockstack] of each thread. *)
Record locks := mk_locks { lockdata : LockData; g_lockstack : gmap Z LockStack }.
Definition locks_new : locks := mk_locks LockData_new ∅.
Definition stack_of (st : locks) (t : Z) : LockStack := default [] (g_lockstack st !! t).
Definition set_stack (t : Z) (s : LockStack) (st : locks) : locks := mk_locks (lockdata st) (<[t := s]> (g_lockstack st)).

(** How [potential_deadlock_detected] ends, with what it prints. *)
Inductive deadlock_end := Aborts | Throws.

Definition report_lines (mismatch : Z * Z) (s : LockStack) : list string :=
  (λ i, (if i.1 =? mismatch.1 then " (1)" else "") +:+ (if i.1 =? mismatch.2 then " (2)" else "") +:+
        " " +:+ CLockLocation_ToString i.2) <$> s.

Definition potential_deadlock_detected (g_debug_lockorder_abort : bool) (mismatch : Z * Z) (s1 s2 : LockStack)
    : list string * deadlock_end :=
  (["POTENTIAL DEADLOCK DETECTED"; "Previous lock order was:"] ++ report_lines mismatch s2 ++
   ["Current lock order is:"] ++ report_lines mismatch s1,
   if g_debug_lockorder_abort then Aborts else Throws).

(** The loop of [push_lock] over [g_lockstack], with the arguments of the report. *)
Definition report := (Z * Z * LockStack * LockStack)%type.

Fixpoint push_loop (c : Z) (stack l : LockStack) (d : LockData) : LockData * option report :=
  match l with
  | [] => (d, None)
  | i :: l =>
      if i.1 =? c then (d, None) else
      let p1 := (i.1, c) in
      match lockorders d !! p1 with
      | Some _ => push_loop c stack l d
      | None =>
          let p2 := (c, i.1) in
          let d := mk_LockData (available d) (<[p1 := stack]> (lockorders d)) ({[p2]} ∪ invlockorders d) in
          match lockorders d !! p2 with
          | Some s => (d, Some (p1, s, stack))
          | None => push_loop c stack l d
          end
      end
  end.

Definition push_lock (t c : Z) (locklocation : CLockLocation) (st : locks) : locks * option report :=
  let stack := stack_of st t ++ [(c, locklocation)] in
  let '(d, r) := push_loop c stack stack (lockdata st) in
  (mk_locks d (<[t := stack]> (g_lockstack st)), r).

(** [pop_back] of an empty stack is undefined. *)
Definition pop_lock (t : Z) (st : locks) : option locks :=
  match stack_of st t with [] => None | s => Some (set_stack t (take (length s - 1) s) st) end.

Definition EnterCritical (pszName pszFile : string) (nLine : Z) (thread_name : string) (t cs : Z) (fTry : bool)
    (st : locks) : locks * option report :=
  push_lock t cs (mk_CLockLocation fTry pszName pszFile thread_name nLine) st.
Definition LeaveCritical (t : Z) (st : locks) : option locks := pop_lock t st.

Definition LocksHeld (t : Z) (st : locks) : string :=
  foldl (λ result i, result +:+ CLockLocation_ToString i.2 +:+ String (Ascii.ascii_of_nat 10) "") "" (stack_of st t).

(** Whether the assertions return; otherwise they abort. *)
Definition AssertLockHeldInternal (t cs : Z) (st : locks) : bool := existsb (λ i, i.1 =? cs) (stack_of st t).
Definition AssertLockNotHeldInternal (t cs : Z) (st : locks) : bool := forallb (λ i, negb (i.1 =? cs)) (stack_of st t).

(** The keys from [lower_bound((cs, nullptr))] on, as long as their first lock is [cs]. *)
Definition keys_of (cs : Z) (X : gset (Z * Z)) : list (Z * Z) := filter (λ p, p.1 = cs) (elements X).

Definition erase_orders (d : LockData) (p : Z * Z) : LockData :=
  mk_LockData (available d) (delete p (lockorders d)) (invlockorders d ∖ {[(p.2, p.1)]}).
Definition erase_inverse (d : LockData) (p : Z * Z) : LockData :=
  mk_LockData (available d) (delete (p.2, p.1) (lockorders d)) (invlockorders d ∖ {[p]}).

Definition DeleteLock (cs : Z) (st : locks) : locks :=
  let d := lockdata st in
  if negb (available d) then st else
  let d := foldl erase_orders d (keys_of cs (dom (lockorders d))) in
  let d := foldl erase_inverse d (keys_of cs (invlockorders d)) in
  mk_locks d (g_lockstack st).

(** [UniqueLock]: [got] says whether the mutex was free for [try_lock]. *)
Definition TryEnter (pszName pszFile : string) (nLine : Z) (thread_name : string) (t cs : Z) (got : bool) (st : locks)
    : option (locks * option report * bool) :=
  match EnterCritical pszName pszFile nLine thread_name t cs true st with
  | (st, Some r) => Some (st, Some r, false)
  | (st, None) => if got then Some (st, None, true) else st ← LeaveCritical t st; Some (st, None, false)
  end.

(** ** Semaphores *)

Module Semaphore.

(** What a call does: return, wait for another thread, or use a null pointer. *)
Inductive run (A : Type) := Ok (a : A) | Blocked | Undefined.
Arguments Ok {A} _.
Arguments Blocked {A}.
Arguments Undefined {A}.

Record CSemaphoreGrant := mk_CSemaphoreGrant { sem : option Z; fHaveGrant : bool }.

(** The values of the semaphores and the grants, by address. *)
Record sem_store := mk_sem_store { value : gmap Z Z; grants : gmap Z CSemaphoreGrant }.

Definition CSemaphore_new (s init : Z) (σ : sem_store) : sem_store := mk_sem_store (<[s := init]> (value σ)) (grants σ).
Definition wait (s : Z) (σ : sem_store) : run sem_store :=
  match value σ !! s with
  | None => Undefined
  | Some v => if v >=? 1 then Ok (mk_sem_store (<[s := swrap32 (v - 1)]> (value σ)) (grants σ)) else Blocked
  end.
Definition try_wait (s : Z) (σ : sem_store) : run (bool * sem_store) :=
  match value σ !! s with
  | None => Undefined
  | Some v => if v <? 1 then Ok (false, σ) else Ok (true, mk_sem_store (<[s := swrap32 (v - 1)]> (value σ)) (grants σ))
  end.
Definition post (s : Z) (σ : sem_store) : run sem_store :=
  match value σ !! s with
  | None => Undefined
  | Some v => Ok (mk_sem_store (<[s := swrap32 (v + 1)]> (value σ)) (grants σ))
  end.

Definition set_grant (g : Z) (x : CSemaphoreGrant) (σ : sem_store) : sem_store := mk_sem_store (value σ) (<[g := x]> (grants σ)).

Definition Acquire (g : Z) (σ : sem_store) : run sem_store :=
  match grants σ !! g with
  | None => Undefined
  | Some x =>
      if fHaveGrant x then Ok σ else
      match sem x with
      | None => Undefined
      | Some s => match wait s σ with Ok σ => Ok (set_grant g (mk_CSemaphoreGrant (Some s) true) σ) | r => r end
      end
  end.
Definition Release (g : Z) (σ : sem_store) : run sem_store :=
  match grants σ !! g with
  | None => Undefined
  | Some x =>
      if negb (fHaveGrant x) then Ok σ else
      match sem x with
      | None => Undefined
      | Some s => match post s σ with Ok σ => Ok (set_grant g (mk_CSemaphoreGrant (Some s) false) σ) | r => r end
      end
  end.
Definition TryAcquire (g : Z) (σ : sem_store) : run (bool * sem_store) :=
  match grants σ !! g with
  | None => Undefined
  | Some x =>
      if fHaveGrant x then Ok (true, σ) else
      match sem x with
      | None => Undefined
      | Some s =>
          match try_wait s σ with
          | Ok (true, σ) => Ok (true, set_grant g (mk_CSemaphoreGrant (Some s) true) σ)
          | Ok (false, σ) => Ok (false, σ)
          | Blocked => Blocked
          | Undefined => Undefined
          end
      end
  end.

(** [this->MoveTo(grant)]: the two may be one object. *)
Definition MoveTo (this grant : Z) (σ : sem_store) : run sem_store :=
  match Release grant σ with
  | Ok σ =>
      match grants σ !! this with
      | None => Undefined
      | Some x =>
          let σ := set_grant grant x σ in
          match grants σ !! this with
          | None => Undefined
          | Some x => Ok (set_grant this (mk_CSemaphoreGrant (sem x) false) σ)
          end
      end
  | r => r
  end.

(** The constructors, at a new address, and the destructor. *)
Definition CSemaphoreGrant_new (g : Z) (σ : sem_store) : sem_store := set_grant g (mk_CSemaphoreGrant None false) σ.
Definition CSemaphoreGrant_of (g s : Z) (fTry : bool) (σ : sem_store) : run sem_store :=
  let σ := set_grant g (mk_CSemaphoreGrant (Some s) false) σ in
  if fTry then match TryAcquire g σ with Ok (_, σ) => Ok σ | Blocked => Blocked | Undefined => Undefined end
  else Acquire g σ.
Definition CSemaphoreGrant_delete (g : Z) (σ : sem_store) : run sem_store :=
  match Release g σ with Ok σ => Ok (mk_sem_store (value σ) (delete g (grants σ))) | r => r end.

End Semaphore.

(** ** Lemmas on the lock order *)

(** The locks of a stack before the first [c]. *)
Fixpoint before (c : Z) (l : LockStack) : list Z :=
  match l with [] => [] | i :: l => if i.1 =? c then [] else i.1 :: before c l end.

(** [a] is taken before [b] is first taken. *)
Definition ordered_in (s : LockStack) (a b : Z) : Prop := a ∈ before b s ∧ b ∈ s.*1.

Lemma before_ne c l h : h ∈ before c l → h ≠ c.
Proof.
  induction l as [|i l IH]; cbn [before]; [by intros ?%elem_of_nil|]. destruct (Z.eqb_spec i.1 c); [by intros ?%elem_of_nil|].
  intros [->|?]%elem_of_cons; auto.
Qed.

Lemma before_app c l x : c ∈ l.*1 → before c (l ++ x) = before c l.
Proof.
  induction l as [|i l IH]; [by intros ?%elem_of_nil|]. cbn [before app]. destruct (Z.eqb_spec i.1 c); [done|].
  intros [?|?]%elem_of_cons; [congruence|]. by rewrite IH.
Qed.

Lemma ordered_in_app s x a b : ordered_in s a b → ordered_in (s ++ x) a b.
Proof. intros [H1 H2]. split; [by rewrite before_app|]. rewrite fmap_app. apply elem_of_app. by left. Qed.

Lemma before_elem a b s : a ∈ before b s → a ∈ s.*1.
Proof.
  induction s as [|i s IH]; cbn [before]; [done|]. destruct (i.1 =? b); [by intros ?%elem_of_nil|].
  intros [->|?]%elem_of_cons; [apply list_elem_of_here|apply list_elem_of_further; auto].
Qed.

(** Either the last lock was taken before, or it comes after all. *)
Lemma ordered_in_snoc s c loc a b :
  ordered_in (s ++ [(c, loc)]) a b → ordered_in s a b ∨ (b = c ∧ a ∈ before c (s ++ [(c, loc)])).
Proof.
  intros [H1 H2]. destruct (decide (b ∈ s.*1)) as [Hb|Hb].
  - left. split; [by rewrite before_app in H1|done].
  - right. rewrite fmap_app, elem_of_app in H2. destruct H2 as [?|H2]; [done|]. by apply list_elem_of_singleton in H2 as ->.
Qed.

Definition ordered (d : LockData) (a b : Z) : Prop := is_Some (lockorders d !! (a, b)).

(** One run of the loop: it only adds pairs of a lock of the stack and the new lock, ... *)
Lemma push_loop_mono c stack l d p s :
  lockorders d !! p = Some s → lockorders (push_loop c stack l d).1 !! p = Some s.
Proof.
  revert d. induction l as [|i l IH]; intros d Hp; cbn [push_loop]; [done|].
  destruct (i.1 =? c); [done|]. destruct (lockorders d !! (i.1, c)) eqn:E; [by apply IH|].
  assert (<[(i.1, c) := stack]> (lockorders d) !! p = Some s) as Hp'.
  { rewrite lookup_insert_ne; [done|]. intros <-. congruence. }
  cbn [lockorders]. case_match; [done|]. by apply IH.
Qed.

Lemma push_loop_only c stack l d p s :
  lockorders (push_loop c stack l d).1 !! p = Some s →
  lockorders d !! p = Some s ∨ (s = stack ∧ p.2 = c ∧ p.1 ∈ before c l).
Proof.
  revert d. induction l as [|i l IH]; intros d; cbn [push_loop before]; [by left|].
  destruct (i.1 =? c); [by left|]. destruct (lockorders d !! (i.1, c)) eqn:E.
  { intros [?|(-> & ? & ?)]%IH; [by left|]. right. split_and!; [done..|]. by apply list_elem_of_further. }
  cbn [lockorders]. assert (∀ d' : LockData, lockorders d' = <[(i.1, c) := stack]> (lockorders d) → lockorders d' !! p = Some s →
    lockorders d !! p = Some s ∨ (s = stack ∧ p.2 = c ∧ p.1 ∈ i.1 :: before c l)) as Hin.
  { intros d' -> [[<- <-]|[_ ?]]%lookup_insert_Some; [right|by left]. split_and!; [done..|]. apply list_elem_of_here. }
  case_match; [by apply Hin|]. intros [H0|(-> & ? & ?)]%IH; [revert H0; by apply Hin|].
  right. split_and!; [done..|]. by apply list_elem_of_further.
Qed.

(** ... it reports a pair that is in the table the other way round, and adds all of them otherwise. *)
Lemma push_loop_report c stack l d :
  match (push_loop c stack l d).2 with
  | Some (p1, s1, s2) => ∃ h, h ∈ before c l ∧ p1 = (h, c) ∧ s2 = stack ∧ lockorders d !! (c, h) = Some s1 ∧ ¬ ordered d h c
  | None => ∀ h, h ∈ before c l → ordered (push_loop c stack l d).1 h c ∧ (ordered d h c ∨ lockorders d !! (c, h) = None)
  end.
Proof.
  revert d. induction l as [|i l IH]; intros d; cbn [push_loop before]; [by intros h ?%elem_of_nil|].
  destruct (Z.eqb_spec i.1 c) as [|Hne]; [by intros h ?%elem_of_nil|]. destruct (lockorders d !! (i.1, c)) as [s0|] eqn:E.
  { specialize (IH d). destruct (push_loop c stack l d) as [d' [[[p1 s1] s2]|]] eqn:EL; cbn [fst snd] in *.
    - destruct IH as (h & ? & ? & ? & ? & ?). exists h. split_and!; try done. by apply list_elem_of_further.
    - intros h [->|?]%elem_of_cons; [|by apply IH]. split; [|left; by exists s0].
      exists s0. pose proof (push_loop_mono c stack l d _ _ E) as Hm. by rewrite EL in Hm. }
  cbn [lockorders]. assert (lockorders d !! (c, i.1) = <[(i.1, c) := stack]> (lockorders d) !! (c, i.1)) as Ecs.
  { rewrite lookup_insert_ne; [done|]. congruence. }
  rewrite <- Ecs. destruct (lockorders d !! (c, i.1)) as [s|] eqn:E2; cbn [fst snd].
  { exists i.1. split_and!; try done; [apply list_elem_of_here|]. unfold ordered. rewrite E. by intros []. }
  set (d1 := mk_LockData _ _ _). specialize (IH d1).
  assert (∀ h, h ∈ before c l → lockorders d1 !! (c, h) = lockorders d !! (c, h)) as Eq.
  { intros h Hh. unfold d1. cbn [lockorders]. rewrite lookup_insert_ne; [done|]. apply before_ne in Hh. congruence. }
  destruct (push_loop c stack l d1) as [d' [[[p1 s1] s2]|]] eqn:EL; cbn [fst snd] in *.
  - destruct IH as (h & Hh & ? & ? & Hc & Hn). rewrite Eq in Hc by done. exists h. split_and!; try done; [by apply list_elem_of_further|].
    intros [s3 Hs]. apply Hn. unfold ordered, d1. cbn [lockorders]. rewrite lookup_insert_is_Some'. right. by exists s3.
  - intros h [->|Hh]%elem_of_cons.
    + split; [|by right]. exists stack. pose proof (push_loop_mono c stack l d1 (i.1, c) stack) as Hm. rewrite EL in Hm. apply Hm. unfold d1. cbn [lockorders]. apply lookup_insert_eq.
    + destruct (IH h Hh) as [? [Ho|?]]; split; try done; [|right; by rewrite <- Eq].
      destruct Ho as [s Hs]. unfold d1 in Hs. cbn [lockorders] in Hs. apply lookup_insert_Some in Hs as [[[= <-] _]|[_ ?]]; [by right|left; by exists s].
Qed.

(** The table of the inverse pairs mirrors the table of pairs. *)
Definition mirrored (d : LockData) : Prop := ∀ a b, ordered d a b ↔ (b, a) ∈ invlockorders d.

Lemma push_loop_mirrored c stack l d : mirrored d → mirrored (push_loop c stack l d).1.
Proof.
  revert d. induction l as [|i l IH]; intros d Hd; cbn [push_loop]; [done|].
  destruct (i.1 =? c); [done|]. case_match; [by apply IH|].
  assert (mirrored (mk_LockData (available d) (<[(i.1, c) := stack]> (lockorders d)) ({[(c, i.1)]} ∪ invlockorders d))) as Hm.
  { intros a b. specialize (Hd a b). unfold ordered in *. cbn [lockorders invlockorders].
    rewrite lookup_insert_is_Some', elem_of_union, elem_of_singleton, <- Hd. naive_solver. }
  cbn [lockorders]. case_match; [done|]. by apply IH.
Qed.

Lemma push_loop_available c stack l d : available (push_loop c stack l d).1 = available d.
Proof.
  revert d. induction l as [|i l IH]; intros d; cbn [push_loop]; [done|]. destruct (i.1 =? c); [done|].
  case_match; [by apply IH|]. cbn [lockorders]. case_match; [done|]. by rewrite IH.
Qed.

(** The loops of [DeleteLock] take out the pairs they walk over. *)
Lemma erase_orders_all ps d :
  let d' := foldl erase_orders d ps in
  available d' = available d ∧
  (∀ a b, ordered d' a b ↔ ordered d a b ∧ (a, b) ∉ ps) ∧
  (∀ a b, (a, b) ∈ invlockorders d' ↔ (a, b) ∈ invlockorders d ∧ (b, a) ∉ ps).
Proof.
  revert d. induction ps as [|[x y] ps IH]; intros d; cbn [foldl].
  { split_and!; [done|intros a b; split; [intros ?; split; [done|apply not_elem_of_nil]|tauto]..]. }
  destruct (IH (erase_orders d (x, y))) as (Ha & Ho & Hi). split_and!; [done|..]; intros a b.
  - rewrite Ho. unfold ordered. cbn [erase_orders lockorders]. rewrite lookup_delete_is_Some, elem_of_cons. naive_solver.
  - rewrite Hi. cbn [erase_orders invlockorders fst snd]. rewrite elem_of_difference, elem_of_singleton, elem_of_cons. naive_solver.
Qed.

Lemma erase_inverse_all ps d :
  let d' := foldl erase_inverse d ps in
  available d' = available d ∧
  (∀ a b, ordered d' a b ↔ ordered d a b ∧ (b, a) ∉ ps) ∧
  (∀ a b, (a, b) ∈ invlockorders d' ↔ (a, b) ∈ invlockorders d ∧ (a, b) ∉ ps).
Proof.
  revert d. induction ps as [|[x y] ps IH]; intros d; cbn [foldl].
  { split_and!; [done|intros a b; split; [intros ?; split; [done|apply not_elem_of_nil]|tauto]..]. }
  destruct (IH (erase_inverse d (x, y))) as (Ha & Ho & Hi). split_and!; [done|..]; intros a b.
  - rewrite Ho. unfold ordered. cbn [erase_inverse lockorders fst snd]. rewrite lookup_delete_is_Some, elem_of_cons. naive_solver.
  - rewrite Hi. cbn [erase_inverse invlockorders]. rewrite elem_of_difference, elem_of_singleton, elem_of_cons. naive_solver.
Qed.

Lemma elem_of_keys cs X a b : (a, b) ∈ keys_of cs X ↔ a = cs ∧ (a, b) ∈ X.
Proof. unfold keys_of. by rewrite list_elem_of_filter, elem_of_elements. Qed.

Lemma DeleteLock_spec cs st : available (lockdata st) = true → mirrored (lockdata st) →
  let d := lockdata st in
  let d' := lockdata (DeleteLock cs st) in
  available d' = true ∧ mirrored d' ∧ (∀ a b, ordered d' a b ↔ ordered d a b ∧ a ≠ cs ∧ b ≠ cs) ∧
  (∀ p s, lockorders d' !! p = Some s → lockorders d !! p = Some s).
Proof.
  intros Hav Hm d d'. unfold d', DeleteLock. fold d in Hav, Hm |- *. rewrite Hav. cbn [negb lockdata].
  set (d1 := foldl erase_orders d _). set (d2 := foldl erase_inverse d1 _).
  destruct (erase_orders_all (keys_of cs (dom (lockorders d))) d) as (Ha1 & Ho1 & Hi1). fold d1 in Ha1, Ho1, Hi1.
  destruct (erase_inverse_all (keys_of cs (invlockorders d1)) d1) as (Ha2 & Ho2 & Hi2). fold d2 in Ha2, Ho2, Hi2.
  assert (∀ a b, ordered d1 a b ↔ ordered d a b ∧ a ≠ cs) as O1.
  { intros a b. rewrite Ho1, elem_of_keys, elem_of_dom. unfold ordered. destruct (decide (a = cs)); tauto. }
  assert (mirrored d1) as M1.
  { intros a b. rewrite Ho1, Hi1. specialize (Hm a b). tauto. }
  assert (∀ a b, ordered d2 a b ↔ ordered d a b ∧ a ≠ cs ∧ b ≠ cs) as O2.
  { intros a b. rewrite Ho2, elem_of_keys, <- (M1 a b), O1. destruct (decide (b = cs)); tauto. }
  split_and!; [congruence| |exact O2|].
  - intros a b. rewrite Ho2, Hi2. specialize (M1 a b). tauto.
  - assert (∀ ps e p s, lockorders (foldl erase_orders e ps) !! p = Some s → lockorders e !! p = Some s) as E1.
    { induction ps as [|q ps IH]; intros e p s; [done|]. cbn [foldl]. intros H%IH. cbn in H. by apply lookup_delete_Some in H as [_ ?]. }
    assert (∀ ps e p s, lockorders (foldl erase_inverse e ps) !! p = Some s → lockorders e !! p = Some s) as E2.
    { induction ps as [|q ps IH]; intros e p s; [done|]. cbn [foldl]. intros H%IH. cbn in H. by apply lookup_delete_Some in H as [_ ?]. }
    intros p s H%E2. by apply E1 in H.
Qed.

(** What holds as long as nothing was reported: no pair is in the table in both orders,
    the stack kept for a pair shows it, and the pairs of every stack are in the table. *)
Record lock_inv (st : locks) : Prop := {
  li_available : available (lockdata st) = true;
  li_mirrored : mirrored (lockdata st);
  li_one_way : ∀ a b, ordered (lockdata st) a b → ¬ ordered (lockdata st) b a;
  li_shown : ∀ a b s, lockorders (lockdata st) !! (a, b) = Some s → ordered_in s a b;
  li_stacks : ∀ t a b, ordered_in (stack_of st t) a b → ordered (lockdata st) a b;
}.

(** The threads' steps: a lock is taken without a report, released, or destroyed while
    no thread holds it or waits for it. *)
Inductive lreach : locks → Prop :=
  | lr_new : lreach locks_new
  | lr_push st st' t c loc : lreach st → push_lock t c loc st = (st', None) → lreach st'
  | lr_pop st st' t : lreach st → pop_lock t st = Some st' → lreach st'
  | lr_delete st cs : lreach st → (∀ t, cs ∉ (stack_of st t).*1) → lreach (DeleteLock cs st).

Lemma stack_of_insert d m t s t' : stack_of (mk_locks d (<[t := s]> m)) t' = if decide (t = t') then s else default [] (m !! t').
Proof. unfold stack_of. cbn. destruct (decide (t = t')) as [->|]; [by rewrite lookup_insert_eq|by rewrite lookup_insert_ne]. Qed.

Lemma push_lock_inv st st' t c loc : lock_inv st → push_lock t c loc st = (st', None) → lock_inv st'.
Proof.
  intros [Hav Hm Hw Hs Ht]. unfold push_lock. set (stack := stack_of st t ++ [(c, loc)]).
  pose proof (push_loop_report c stack stack (lockdata st)) as Hr. pose proof (push_loop_mono c stack stack (lockdata st)) as Hmono.
  pose proof (push_loop_only c stack stack (lockdata st)) as Ho. pose proof (push_loop_mirrored c stack stack _ Hm) as Hm'.
  pose proof (push_loop_available c stack stack (lockdata st)) as Hav'.
  destruct (push_loop c stack stack (lockdata st)) as [d r]. cbn [fst snd] in *. intros [= <- ->].
  assert (∀ a b, ordered (lockdata st) a b → ordered d a b) as Hup by (intros a b [s ?]; exists s; by apply Hmono).
  assert (∀ a b, ordered d a b → ordered (lockdata st) a b ∨ (b = c ∧ a ∈ before c stack)) as Hnew.
  { intros a b [s [?|(_ & ? & ?)]%Ho]; [left; by exists s|by right]. }
  constructor; cbn [lockdata].
  - congruence.
  - done.
  - intros a b Hab Hba. destruct (Hnew _ _ Hab) as [Oab|[-> Ha]], (Hnew _ _ Hba) as [Oba|[-> Hb]].
    + by eapply Hw.
    + destruct (Hr b Hb) as [_ [O|O]]; [by apply (Hw _ _ O)|]. destruct Oab as [s Es]. congruence.
    + destruct (Hr a Ha) as [_ [O|O]]; [by apply (Hw _ _ O)|]. destruct Oba as [s Es]. congruence.
    + by apply before_ne in Ha.
  - intros a b s [?|(-> & Hb & Ha)]%Ho; [by apply Hs|]. cbn [fst snd] in *. subst b. split; [done|].
    unfold stack. rewrite fmap_app. apply elem_of_app. right. apply list_elem_of_here.
  - intros t' a b. rewrite stack_of_insert. case_decide; [|intros ?; by apply Hup, (Ht t')].
    intros [?|[-> Ha]]%ordered_in_snoc; [by apply Hup, (Ht t)|by apply Hr].
Qed.

Lemma pop_lock_inv st st' t : lock_inv st → pop_lock t st = Some st' → lock_inv st'.
Proof.
  intros [Hav Hm Hw Hs Ht] H. assert (∃ k, st' = set_stack t (take k (stack_of st t)) st) as [k ->].
  { unfold pop_lock in H. destruct (stack_of st t) as [|i s]; [done|]. injection H as <-. eauto. }
  constructor; try done. intros t' a b. unfold set_stack. rewrite stack_of_insert. case_decide; [subst t'|by apply (Ht t')].
  intros Hab. apply (Ht t). rewrite <- (take_drop k (stack_of st t)). by apply ordered_in_app.
Qed.

Lemma DeleteLock_inv st cs : lock_inv st → (∀ t, cs ∉ (stack_of st t).*1) → lock_inv (DeleteLock cs st).
Proof.
  intros [Hav Hm Hw Hs Ht] Hcs. destruct (DeleteLock_spec cs st Hav Hm) as (Hav' & Hm' & Ho & Hl).
  assert (∀ t, stack_of (DeleteLock cs st) t = stack_of st t) as Est by (intros t; unfold DeleteLock; by case_match).
  constructor; try done.
  - intros a b (O & _)%Ho (O' & _)%Ho. by apply (Hw a b).
  - intros a b s H%Hl. by apply Hs.
  - intros t a b Hab. rewrite Est in Hab. apply Ho. split_and!; [by apply (Ht t)|intros ->; apply (Hcs t)..]; [|by apply Hab].
    eapply before_elem, Hab.
Qed.

Lemma lreach_inv st : lreach st → lock_inv st.
Proof.
  induction 1; [|by eapply push_lock_inv|by eapply pop_lock_inv|by apply DeleteLock_inv].
  constructor; try done; cbn.
  - intros a b. unfold ordered. cbn. rewrite lookup_empty. split; [by intros []|by intros ?%elem_of_empty].
  - intros a b [s H]. cbn in H. by rewrite lookup_empty in H.
  - intros t a b [H%elem_of_nil _]; done.
Qed.

(** ** Properties of the lock order *)

(** As long as nothing was reported, no two threads hold or wait for two locks in
    opposite orders, so no two threads block each other on two locks. *)
Theorem no_opposite_orders (st : locks) (t1 t2 a b : Z) : lreach st →
  ordered_in (stack_of st t1) a b → ¬ ordered_in (stack_of st t2) b a.
Proof. intros [_ _ Hw _ Ht]%lreach_inv H1 H2. eapply Hw; eapply Ht; eassumption. Qed.

(** A lock is reported exactly when the table has it before a lock that the thread
    holds: the first inversion of two locks is reported, and nothing else is. *)
Theorem push_lock_reports_iff (st : locks) (t c : Z) (loc : CLockLocation) : lreach st →
  is_Some (push_lock t c loc st).2 ↔
  ∃ h, h ∈ before c (stack_of st t ++ [(c, loc)]) ∧ ordered (lockdata st) c h.
Proof.
  intros [_ _ Hw _ _]%lreach_inv. unfold push_lock. set (stack := stack_of st t ++ [(c, loc)]).
  pose proof (push_loop_report c stack stack (lockdata st)) as Hr.
  destruct (push_loop c stack stack (lockdata st)) as [d [[[p1 s1] s2]|]]; cbn [fst snd] in *.
  - destruct Hr as (h & Hh & _ & _ & Hc & _). split; [|by eauto]. intros _. exists h. split; [done|by exists s1].
  - split; [by intros []|]. intros (h & Hh & Hc). destruct (Hr h Hh) as [_ [O|O]]; [by destruct (Hw _ _ Hc)|].
    unfold ordered in Hc. rewrite O in Hc. by destruct Hc.
Qed.

(** The two stacks of a report show the two locks in opposite orders, the second one
    being the thread's own. *)
Theorem report_shows_the_inversion (st st' : locks) (t c : Z) (loc : CLockLocation) (p1 : Z * Z) (s1 s2 : LockStack) :
  lreach st → push_lock t c loc st = (st', Some (p1, s1, s2)) →
  p1.2 = c ∧ s2 = stack_of st t ++ [(c, loc)] ∧ ordered_in s1 p1.2 p1.1 ∧ ordered_in s2 p1.1 p1.2.
Proof.
  intros [_ _ _ Hs _]%lreach_inv. unfold push_lock. set (stack := stack_of st t ++ [(c, loc)]).
  pose proof (push_loop_report c stack stack (lockdata st)) as Hr.
  destruct (push_loop c stack stack (lockdata st)) as [d r]. cbn [fst snd] in *. intros [= <- ->].
  destruct Hr as (h & Hh & -> & -> & Hc & _). cbn [fst snd]. split_and!; [done..|by apply Hs|].
  split; [done|]. unfold stack. rewrite fmap_app. apply elem_of_app. right. apply list_elem_of_here.
Qed.

(** A destroyed lock leaves no pair behind, and the pairs of other locks stay. *)
Theorem DeleteLock_forgets (st : locks) (cs a b : Z) : lreach st →
  ordered (lockdata (DeleteLock cs st)) a b ↔ ordered (lockdata st) a b ∧ a ≠ cs ∧ b ≠ cs.
Proof. intros [Hav Hm _ _ _]%lreach_inv. by apply DeleteLock_spec. Qed.

(** A lock that could not be had at once leaves the stack as it was. *)
Theorem TryEnter_restores (pszName pszFile thread_name : string) (nLine t cs : Z) (st st' : locks) (owns : bool) :
  TryEnter pszName pszFile nLine thread_name t cs false st = Some (st', None, owns) →
  owns = false ∧ ∀ t', stack_of st' t' = stack_of st t'.
Proof.
  unfold TryEnter, EnterCritical, LeaveCritical, push_lock, pop_lock.
  destruct (push_loop _ _ _ _) as [d [r|]]; [done|]. rewrite stack_of_insert, decide_True by done.
  set (l := stack_of st t). set (x := (cs, _)). destruct (l ++ [x]) as [|i s] eqn:E; [by destruct l|]. cbn [mbind option_bind].
  intros [= <- <-]. split; [done|]. intros t'. unfold set_stack. rewrite stack_of_insert. case_decide as Et; [subst t'|].
  - change (take (length (i :: s) - 1) (i :: s) = l). rewrite <- E, length_app, Nat.add_sub. apply take_app_length.
  - cbn [g_lockstack]. by rewrite lookup_insert_ne.
Qed.

(** Three threads, each with two of three locks: the cycle has no inverted pair and is
    not reported. *)
Definition here (name : string) : CLockLocation := mk_CLockLocation false name "a.cpp" "main" 1.
Definition push_many (ops : list (Z * Z)) (st : locks) : locks * list bool :=
  foldl (λ acc op, let '(st, r) := push_lock op.1 op.2 (here "m") acc.1 in (st, acc.2 ++ [bool_decide (is_Some r)])) (st, []) ops.

Example cycle_of_three : (push_many [(1, 10); (2, 20); (3, 30); (1, 20); (2, 30); (3, 10)] locks_new).2 = replicate 6 false.
Proof. vm_compute. reflexivity. Qed.

(** The text names the orders the wrong way round: the thread's own stack is printed as
    the previous order, and the stack of the table as the current one. *)
Theorem report_swaps_the_orders :
  let '(st, _) := push_lock 1 20 (mk_CLockLocation false "b" "x.cpp" "first" 2)
                    (push_lock 1 10 (mk_CLockLocation false "a" "x.cpp" "first" 1) locks_new).1 in
  let '(_, r) := push_lock 2 10 (mk_CLockLocation false "a" "y.cpp" "second" 4)
                   (push_lock 2 20 (mk_CLockLocation false "b" "y.cpp" "second" 3) st).1 in
  ∃ p s1 s2, r = Some (p, s1, s2) ∧
    potential_deadlock_detected false p s1 s2 =
      (["POTENTIAL DEADLOCK DETECTED";
        "Previous lock order was:"; " (1) b y.cpp:3 (in thread second)"; " (2) a y.cpp:4 (in thread second)";
        "Current lock order is:"; " (2) a x.cpp:1 (in thread first)"; " (1) b x.cpp:2 (in thread first)"], Throws).
Proof. vm_compute. do 3 eexists. split; reflexivity. Qed.

(** After the exception the lock, which the thread does not have, stays on its stack. *)
Theorem thrown_lock_stays :
  let st := (push_many [(1, 10); (1, 20); (2, 20)] locks_new).1 in
  let '(st', r) := push_lock 2 10 (here "a") st in
  is_Some r ∧ AssertLockHeldInternal 2 10 st' = true ∧ AssertLockHeldInternal 2 10 st = false.
Proof. vm_compute. eauto. Qed.

(** ** Semaphores: the grants add up *)

Module SemaphoreProps.
Import Semaphore.

#[global] Instance CSemaphoreGrant_eq_dec : EqDecision CSemaphoreGrant.
Proof. solve_decision. Defined.

(** The number of grants of a semaphore, and whether an object is one. *)
Abbreviation granted s := (mk_CSemaphoreGrant (Some s) true).
Definition held (s : Z) (m : gmap Z CSemaphoreGrant) : Z := Z.of_nat (size (filter (λ kx, kx.2 = granted s) m)).
Definition has (s : Z) (o : option CSemaphoreGrant) : Z := if decide (o = Some (granted s)) then 1 else 0.

Lemma has_not s x : fHaveGrant x = false → has s (Some x) = 0.
Proof. intros H. unfold has. case_decide as E; [|done]. by injection E as ->. Qed.

Lemma held_fresh s g x m : m !! g = None → held s (<[g := x]> m) = held s m + has s (Some x).
Proof.
  intros Hg. unfold held, has. rewrite map_filter_insert. cbn [snd]. destruct (decide (x = granted s)) as [->|Hx].
  - rewrite decide_True by done. rewrite map_size_insert_None; [lia|]. rewrite map_lookup_filter, Hg. done.
  - rewrite decide_False by congruence. rewrite delete_id by done. lia.
Qed.

Lemma held_delete s g m : held s (delete g m) = held s m - has s (m !! g).
Proof.
  destruct (m !! g) as [x|] eqn:E; [|by rewrite delete_id, Z.sub_0_r].
  rewrite <- (insert_id m g x E) at 2. rewrite <- insert_delete_eq, held_fresh; [lia|apply lookup_delete_eq].
Qed.

Lemma held_insert s g x m : held s (<[g := x]> m) = held s m - has s (m !! g) + has s (Some x).
Proof. rewrite <- insert_delete_eq, held_fresh, held_delete by apply lookup_delete_eq. lia. Qed.

(** The value and the grants of every semaphore add up to what it was made with, and a
    grant is of a semaphore that exists. *)
Record sem_inv (σ : sem_store) (total : gmap Z Z) : Prop := {
  si_sum : ∀ s v, value σ !! s = Some v → ∃ n, total !! s = Some n ∧ sfits 32 n ∧ 0 <= v ∧ v + held s (grants σ) = n;
  si_sem : ∀ g x, grants σ !! g = Some x → fHaveGrant x = true → ∃ s, sem x = Some s ∧ is_Some (value σ !! s);
}.

Lemma held_nonneg s m : 0 <= held s m.
Proof. unfold held. lia. Qed.

Lemma held_none σ total s : sem_inv σ total → value σ !! s = None → held s (grants σ) = 0.
Proof.
  intros [_ Hs] Hv. unfold held. enough (filter (λ kx, kx.2 = granted s) (grants σ) = ∅) as -> by done.
  apply map_empty_filter. intros g x Hg E. cbn [snd] in E. subst x. destruct (Hs g _ Hg eq_refl) as (s' & [= <-] & [v Hv']). congruence.
Qed.

(** One object changes, and the value of its semaphore with it. *)
Lemma sem_inv_update σ total V g y :
  sem_inv σ total →
  (∀ s v', V !! s = Some v' → ∃ v, value σ !! s = Some v ∧ 0 <= v' ∧ v' - v = has s (grants σ !! g) - has s (Some y)) →
  (∀ s, is_Some (value σ !! s) → is_Some (V !! s)) →
  (fHaveGrant y = true → ∃ s, sem y = Some s ∧ is_Some (V !! s)) →
  sem_inv (mk_sem_store V (<[g := y]> (grants σ))) total.
Proof.
  intros [Hsum Hs] HV Hdom Hy. constructor; cbn [value grants].
  - intros s v' (v & Hv & ? & ?)%HV. destruct (Hsum s v Hv) as (n & ? & ? & ? & ?). exists n. rewrite held_insert. split_and!; [done..|lia].
  - intros g' x [[<- <-]|[_ Hx]]%lookup_insert_Some Hh; [auto|]. destruct (Hs g' x Hx Hh) as (s & ? & ?). eauto.
Qed.

(** An object that is no grant is replaced by another. *)
Lemma sem_inv_neutral σ total g y :
  sem_inv σ total → (∀ s, has s (grants σ !! g) = 0) → fHaveGrant y = false → sem_inv (set_grant g y σ) total.
Proof.
  intros H Hg Hy. apply sem_inv_update; [done| |done|congruence].
  intros s v Hv. exists v. split; [done|]. destruct (si_sum _ _ H s v Hv) as (n & _ & _ & ? & _).
  rewrite Hg, has_not by done. lia.
Qed.

(** A semaphore's value is moved into an object, or out of it. *)
Lemma sem_inv_take σ total s v g x : sem_inv σ total → value σ !! s = Some v → 1 <= v →
  grants σ !! g = Some x → fHaveGrant x = false →
  sem_inv (mk_sem_store (<[s := swrap32 (v - 1)]> (value σ)) (<[g := granted s]> (grants σ))) total.
Proof.
  intros H Hv Hv1 Hg Hx. destruct (si_sum _ _ H s v Hv) as (n & _ & Hn & _ & Hsum). pose proof (held_nonneg s (grants σ)).
  rewrite swrap_id by (unfold sfits in *; lia). apply sem_inv_update; [done|..].
  - intros s' v' [[<- <-]|[Hne Hv']]%lookup_insert_Some; rewrite Hg, has_not by done.
    + exists v. unfold has. rewrite decide_True by done. split_and!; [done|lia..].
    + exists v'. destruct (si_sum _ _ H s' v' Hv') as (? & _ & _ & ? & _). unfold has. rewrite decide_False by congruence. split_and!; [done|lia..].
  - intros s' ?. rewrite lookup_insert_is_Some'. by right.
  - intros _. exists s. rewrite lookup_insert_is_Some'. auto.
Qed.

Lemma sem_inv_give σ total s v g : sem_inv σ total → value σ !! s = Some v → grants σ !! g = Some (granted s) →
  sem_inv (mk_sem_store (<[s := swrap32 (v + 1)]> (value σ)) (<[g := mk_CSemaphoreGrant (Some s) false]> (grants σ))) total.
Proof.
  intros H Hv Hg. destruct (si_sum _ _ H s v Hv) as (n & _ & Hn & ? & Hsum).
  assert (1 <= held s (grants σ)).
  { pose proof (held_nonneg s (delete g (grants σ))) as Hd. rewrite held_delete, Hg in Hd. unfold has in Hd. rewrite decide_True in Hd by done. lia. }
  rewrite swrap_id by (unfold sfits in *; lia). apply sem_inv_update; [done|..|done].
  - intros s' v' [[<- <-]|[Hne Hv']]%lookup_insert_Some; rewrite Hg, (has_not _ (mk_CSemaphoreGrant _ false)) by done.
    + exists v. unfold has. rewrite decide_True by done. split_and!; [done|lia..].
    + exists v'. destruct (si_sum _ _ H s' v' Hv') as (? & _ & _ & ? & _). unfold has. rewrite decide_False by congruence. split_and!; [done|lia..].
  - intros s' ?. rewrite lookup_insert_is_Some'. by right.
Qed.

Lemma Acquire_inv σ σ' total g : sem_inv σ total → Acquire g σ = Ok σ' → sem_inv σ' total.
Proof.
  intros H. unfold Acquire, wait. destruct (grants σ !! g) as [x|] eqn:Hg; [|done].
  destruct (fHaveGrant x) eqn:Hx; [by intros [= <-]|]. destruct (sem x) as [s|]; [|done].
  destruct (value σ !! s) as [v|] eqn:Hv; [|done]. rewrite Z.geb_leb. destruct (Z.leb_spec 1 v) as [Hv1|]; [|done].
  intros [= <-]. exact (sem_inv_take σ total s v g x H Hv Hv1 Hg Hx).
Qed.

Lemma TryAcquire_inv σ σ' total g b : sem_inv σ total → TryAcquire g σ = Ok (b, σ') → sem_inv σ' total.
Proof.
  intros H. unfold TryAcquire, try_wait. destruct (grants σ !! g) as [x|] eqn:Hg; [|done].
  destruct (fHaveGrant x) eqn:Hx; [by intros [= _ <-]|]. destruct (sem x) as [s|]; [|done].
  destruct (value σ !! s) as [v|] eqn:Hv; [|done]. destruct (Z.ltb_spec v 1) as [|Hv1]; intros [= _ <-]; [done|].
  exact (sem_inv_take σ total s v g x H Hv Hv1 Hg Hx).
Qed.

(** [Release] never fails, and leaves no grant. *)
Lemma Release_inv σ total g x : sem_inv σ total → grants σ !! g = Some x →
  ∃ σ', Release g σ = Ok σ' ∧ sem_inv σ' total ∧
    (∃ y, grants σ' !! g = Some y ∧ fHaveGrant y = false) ∧ (∀ g', g' ≠ g → grants σ' !! g' = grants σ !! g') ∧
    (∀ s, is_Some (value σ' !! s) ↔ is_Some (value σ !! s)).
Proof.
  intros H Hg. unfold Release. rewrite Hg. destruct (fHaveGrant x) eqn:Hx; cbn [negb]; [|by exists σ; eauto 10].
  destruct (si_sem _ _ H g x Hg Hx) as (s & Hs & v & Hv). rewrite Hs. unfold post. rewrite Hv.
  assert (x = granted s) as -> by (destruct x; cbn in *; congruence).
  eexists. split; [done|]. split_and!; [exact (sem_inv_give σ total s v g H Hv Hg)|..]; cbn [set_grant value grants].
  - rewrite lookup_insert_eq. eauto.
  - intros g' ?. by rewrite lookup_insert_ne.
  - intros s'. rewrite lookup_insert_is_Some'. split; [intros [<-|?]; eauto|auto].
Qed.

Lemma Release_Some σ σ' g : Release g σ = Ok σ' → is_Some (grants σ !! g).
Proof. unfold Release. by destruct (grants σ !! g). Qed.

Lemma MoveTo_inv σ σ' total this grant : sem_inv σ total → MoveTo this grant σ = Ok σ' → sem_inv σ' total.
Proof.
  intros H. unfold MoveTo. destruct (Release grant σ) as [σ1| |] eqn:ER; try done. destruct (Release_Some _ _ _ ER) as [x0 Hx0].
  destruct (Release_inv _ _ _ _ H Hx0) as (? & E & H1 & (y & Hy & Hyf) & _). rewrite ER in E. injection E as <-.
  destruct (grants σ1 !! this) as [x|] eqn:Hx; [|done]. cbn [set_grant grants]. destruct (decide (grant = this)) as [->|Hne].
  - assert (x = y) as -> by congruence. rewrite lookup_insert_eq. intros [= <-].
    apply sem_inv_neutral; [|cbn [set_grant grants]; rewrite lookup_insert_eq; intros s; by apply has_not|done].
    apply sem_inv_neutral; [done| |done]. intros s. rewrite Hx. by apply has_not.
  - rewrite lookup_insert_ne, Hx by done. intros [= <-]. destruct H1 as [Hsum Hs]. constructor; cbn [set_grant value grants].
    + intros s v Hv. destruct (Hsum s v Hv) as (n & ? & ? & ? & ?). exists n. split_and!; [done..|].
      rewrite !held_insert, lookup_insert_ne, Hx, Hy by done. rewrite (has_not s y), (has_not s (mk_CSemaphoreGrant _ false)) by done. lia.
    + intros g z. rewrite !lookup_insert_Some. intros [[<- <-]|[? [[<- <-]|[? Hz]]]] Hh; [done|by apply (Hs this)|by apply (Hs g)].
Qed.

Lemma delete_inv σ σ' total g : sem_inv σ total → CSemaphoreGrant_delete g σ = Ok σ' → sem_inv σ' total.
Proof.
  intros H. unfold CSemaphoreGrant_delete. destruct (Release g σ) as [σ1| |] eqn:ER; try done. destruct (Release_Some _ _ _ ER) as [x0 Hx0].
  destruct (Release_inv _ _ _ _ H Hx0) as (? & E & H1 & (y & Hy & Hyf) & _). rewrite ER in E. injection E as <-.
  intros [= <-]. destruct H1 as [Hsum Hs]. constructor; cbn [value grants].
  - intros s v Hv. destruct (Hsum s v Hv) as (n & ? & ? & ? & ?). exists n. split_and!; [done..|].
    rewrite held_delete, Hy, has_not by done. lia.
  - intros g' x [_ Hx]%lookup_delete_Some. by apply (Hs g').
Qed.

(** The program's use of semaphores through grants; objects are made at new addresses.
    [total] keeps what each semaphore was made with. *)
Inductive sreach : sem_store → gmap Z Z → Prop :=
  | sr_new : sreach (mk_sem_store ∅ ∅) ∅
  | sr_sem σ total s init : sreach σ total → value σ !! s = None → 0 <= init → sfits 32 init →
      sreach (CSemaphore_new s init σ) (<[s := init]> total)
  | sr_grant σ total g : sreach σ total → grants σ !! g = None → sreach (CSemaphoreGrant_new g σ) total
  | sr_grant_of σ σ' total g s fTry : sreach σ total → grants σ !! g = None → CSemaphoreGrant_of g s fTry σ = Ok σ' → sreach σ' total
  | sr_acquire σ σ' total g : sreach σ total → Acquire g σ = Ok σ' → sreach σ' total
  | sr_try σ σ' total g b : sreach σ total → TryAcquire g σ = Ok (b, σ') → sreach σ' total
  | sr_release σ σ' total g : sreach σ total → Release g σ = Ok σ' → sreach σ' total
  | sr_move σ σ' total this grant : sreach σ total → MoveTo this grant σ = Ok σ' → sreach σ' total
  | sr_delete σ σ' total g : sreach σ total → CSemaphoreGrant_delete g σ = Ok σ' → sreach σ' total.

Lemma fresh_inv σ total g o : sem_inv σ total → grants σ !! g = None → sem_inv (set_grant g (mk_CSemaphoreGrant o false) σ) total.
Proof. intros H Hg. apply sem_inv_neutral; [done|by rewrite Hg|done]. Qed.

Lemma grant_of_inv σ σ' total g s fTry : sem_inv σ total → grants σ !! g = None →
  CSemaphoreGrant_of g s fTry σ = Ok σ' → sem_inv σ' total.
Proof.
  intros H Hg. unfold CSemaphoreGrant_of. set (σ0 := set_grant _ _ σ). assert (sem_inv σ0 total) by by apply fresh_inv.
  destruct fTry; [|by apply Acquire_inv]. destruct (TryAcquire g σ0) as [[b σ1]| |] eqn:E; try done. intros [= <-].
  by eapply TryAcquire_inv.
Qed.

Lemma new_sem_inv σ total s init : sem_inv σ total → value σ !! s = None → 0 <= init → sfits 32 init →
  sem_inv (CSemaphore_new s init σ) (<[s := init]> total).
Proof.
  intros H Hv Hi Hf. constructor; cbn [CSemaphore_new value grants].
  - intros s' v [[<- <-]|[Hne Hv']]%lookup_insert_Some.
    + exists init. rewrite lookup_insert_eq, (held_none σ total) by done. split_and!; [done..|lia].
    + rewrite lookup_insert_ne by done. by apply (si_sum _ _ H).
  - intros g x Hg Hx. destruct (si_sem _ _ H g x Hg Hx) as (s' & ? & ?). exists s'. rewrite lookup_insert_is_Some'. auto.
Qed.

Lemma sreach_inv σ total : sreach σ total → sem_inv σ total.
Proof.
  induction 1; [|by apply new_sem_inv|by apply fresh_inv|by eapply grant_of_inv|by eapply Acquire_inv|by eapply TryAcquire_inv| |by eapply MoveTo_inv|by eapply delete_inv].
  - by constructor; intros ?? ?; cbn in *; rewrite lookup_empty in *.
  - destruct (Release_Some _ _ _ H0) as [x Hx]. destruct (Release_inv _ _ _ _ IHsreach Hx) as (? & E & ? & _). congruence.
Qed.

(** Whatever is acquired, tried, moved, released and destroyed, and in whatever order,
    the value of a semaphore is never negative and adds up with its grants to the value
    it was made with: no more grants are given out than it has, and none is lost. *)
Theorem grants_add_up (σ : sem_store) (total : gmap Z Z) (s v : Z) : sreach σ total → value σ !! s = Some v →
  ∃ n, total !! s = Some n ∧ 0 <= v ∧ v + held s (grants σ) = n.
Proof. intros [Hsum _]%sreach_inv Hv. destruct (Hsum s v Hv) as (n & ? & _ & ? & ?). eauto. Qed.

(** Releasing a grant that exists, or moving it away, never uses a null pointer. *)
Theorem Release_is_defined (σ : sem_store) (total : gmap Z Z) (g : Z) (x : CSemaphoreGrant) : sreach σ total →
  grants σ !! g = Some x → ∃ σ', Release g σ = Ok σ' ∧ ∃ y, grants σ' !! g = Some y ∧ fHaveGrant y = false.
Proof. intros H Hg. destruct (Release_inv _ _ _ _ (sreach_inv _ _ H) Hg) as (σ' & ? & _ & ? & _). eauto. Qed.
End SemaphoreProps.
