(* ===== verification/Bech32.v ===== *)
(** * Bech32 addresses: the namespace [Bech32] of [keyio.cpp], [ConvertBits] of [utilstrencodings.h]

    A string is the list of its character codes, the data part the list of its
    5-bit symbols.  [PolyMod] is the remainder of a polynomial over GF(32), packed
    into 30 bits; what is proved of it rests on two facts, that it is linear for
    exclusive or and that a step with symbol 0 maps no other value to 0. *)

From Stdlib Require Import Btauto.
From stdpp Require Import base list numbers decidable strings.
From S2P Require Import Prelude.

Open Scope Z_scope.

(** ** Checksums *)

Definition CHARSET : list Z := chars "qpzry9x8gf2tvdw0s3jn54khce6mua7l".

Definition CHARSET_REV : list Z :=
  replicate 48 (-1) ++
  [15; -1; 10; 17; 21; 20; 26; 30; 7; 5; -1; -1; -1; -1; -1; -1;
   -1; 29; -1; 24; 13; 25; 9; 8; 23; -1; 18; 22; 31; 27; 19; -1;
   1; 0; 3; 16; 11; 28; 12; 14; 6; 4; 2; -1; -1; -1; -1; -1;
   -1; 29; -1; 24; 13; 25; 9; 8; 23; -1; 18; 22; 31; 27; 19; -1;
   1; 0; 3; 16; 11; 28; 12; 14; 6; 4; 2; -1; -1; -1; -1; -1].

(** One round of the loop of [PolyMod]. *)
Definition add_if (b : bool) (k c : Z) : Z := if b then Z.lxor c k else c.
Definition polymod_step (c v_i : Z) : Z :=
  let c0 := wrap8 (Z.shiftr c 25) in
  let c := Z.lxor (wrap32 (Z.shiftl (Z.land c 0x1ffffff) 5)) v_i in
  let c := add_if (negb (Z.land c0 1 =? 0)) 0x3b6a57b2 c in
  let c := add_if (negb (Z.land c0 2 =? 0)) 0x26508e6d c in
  let c := add_if (negb (Z.land c0 4 =? 0)) 0x1ea119fa c in
  let c := add_if (negb (Z.land c0 8 =? 0)) 0x3d4233dd c in
  add_if (negb (Z.land c0 16 =? 0)) 0x2a1462b3 c.
Definition PolyMod (v : list Z) : Z := foldl polymod_step 1 v.

Definition LowerCase (c : Z) : Z := if (65 <=? c) && (c <=? 90) then (c - 65) + 97 else c.

Definition ExpandHRP (hrp : list Z) : list Z :=
  let n := length hrp in
  let ret := replicate (n * 2 + 1) 0 in
  let ret := for_range 0 n (λ i ret,
    let c := default 0 (hrp !! i) in
    <[(i + n + 1)%nat := Z.land c 0x1f]> (<[i := Z.shiftr c 5]> ret)) ret in
  <[n := 0]> ret.

Definition VerifyChecksum (hrp values : list Z) : bool := PolyMod (ExpandHRP hrp ++ values) =? 1.

Definition CreateChecksum (hrp values : list Z) : list Z :=
  let enc := ExpandHRP hrp ++ values ++ replicate 6 0 in
  let mod_ := Z.lxor (PolyMod enc) 1 in
  (λ i, Z.land (Z.shiftr mod_ (5 * (5 - Z.of_nat i))) 31) <$> seq 0 6.

(** ** Encoding and decoding *)

(** [None]: the assertion on the case of the prefix, or a symbol outside the character set. *)
Definition Encode (hrp values : list Z) : option (list Z) :=
  if forallb (λ c, (c <? 65) || (c >? 90)) hrp then
    ret ← mapM (λ c, CHARSET !! Z.to_nat c) (values ++ CreateChecksum hrp values);
    Some (hrp ++ [49] ++ ret)
  else None.

(** The scan of the characters; [None] for one outside 33 to 126. *)
Fixpoint scan_case (str : list Z) (lower upper : bool) : option (bool * bool) :=
  match str with
  | [] => Some (lower, upper)
  | c :: str =>
      if (97 <=? c) && (c <=? 122) then scan_case str true upper
      else if (65 <=? c) && (c <=? 90) then scan_case str lower true
      else if (c <? 33) || (c >? 126) then None
      else scan_case str lower upper
  end.

(** [str.rfind('1')]. *)
Fixpoint rfind (ch : Z) (str : list Z) : option nat :=
  match str with
  | [] => None
  | c :: str =>
      match rfind ch str with
      | Some i => Some (S i)
      | None => if c =? ch then Some O else None
      end
  end.

(** The symbols behind the separator; the index is in the table of 128 entries. *)
Fixpoint decode_symbols (str : list Z) : option (list Z) :=
  match str with
  | [] => Some []
  | c :: str =>
      rev ← CHARSET_REV !! Z.to_nat c;
      if rev =? -1 then None else values ← decode_symbols str; Some (rev :: values)
  end.

(** The result [{}] is the pair of empty sequences. *)
Definition Decode (str : list Z) : list Z * list Z :=
  match scan_case str false false with
  | None => ([], [])
  | Some (lower, upper) =>
      if lower && upper then ([], [])
      else
        match rfind 49 str with
        | None => ([], [])
        | Some pos =>
            if (90 <? length str)%nat || (pos =? 0)%nat || (length str <? pos + 7)%nat then ([], [])
            else
              match decode_symbols (drop (pos + 1) str) with
              | None => ([], [])
              | Some values =>
                  let hrp := LowerCase <$> take pos str in
                  if VerifyChecksum hrp values then (hrp, take (length values - 6) values) else ([], [])
              end
        end
  end.

(** ** [ConvertBits] *)

(** The inner loop; [fuel] bounds its rounds by the number of bits. *)
Fixpoint emit_symbols (fuel : nat) (tobits acc bits : Z) (out : list Z) : Z * list Z :=
  match fuel with
  | O => (bits, out)
  | S n =>
      if bits >=? tobits then
        let bits := bits - tobits in
        emit_symbols n tobits acc bits (out ++ [Z.land (Z.shiftr acc bits) (Z.shiftl 1 tobits - 1)])
      else (bits, out)
  end.

Fixpoint convert_loop (frombits tobits acc bits : Z) (out l : list Z) : Z * Z * list Z :=
  match l with
  | [] => (acc, bits, out)
  | x :: l =>
      let max_acc := Z.shiftl 1 (frombits + tobits - 1) - 1 in
      let acc := Z.land (Z.lor (Z.shiftl acc frombits) x) max_acc in
      let '(bits, out) := emit_symbols (Z.to_nat (bits + frombits)) tobits acc (bits + frombits) out in
      convert_loop frombits tobits acc bits out l
  end.

Definition ConvertBits (frombits tobits : Z) (pad : bool) (l : list Z) : bool * list Z :=
  let maxv := Z.shiftl 1 tobits - 1 in
  let '(acc, bits, out) := convert_loop frombits tobits 0 0 [] l in
  if pad then
    (true, if bits =? 0 then out else out ++ [Z.land (Z.shiftl acc (tobits - bits)) maxv])
  else if (bits >=? frombits) || negb (Z.land (Z.shiftl acc (tobits - bits)) maxv =? 0) then (false, out)
  else (true, out).

(** ** The remainder is linear *)

Ltac xor_bits := apply Z.bits_inj'; intros; rewrite ?Z.lxor_spec, ?Z.bits_0; btauto.

Definition if_bit (c0 k g : Z) : Z := if Z.testbit c0 k then g else 0.
(** The multiple of the generator that a step adds. *)
Definition gen (c0 : Z) : Z :=
  Z.lxor (if_bit c0 0 0x3b6a57b2) (Z.lxor (if_bit c0 1 0x26508e6d) (Z.lxor (if_bit c0 2 0x1ea119fa)
    (Z.lxor (if_bit c0 3 0x3d4233dd) (if_bit c0 4 0x2a1462b3)))).

Lemma if_bit_lxor x y k g : if_bit (Z.lxor x y) k g = Z.lxor (if_bit x k g) (if_bit y k g).
Proof. unfold if_bit. rewrite Z.lxor_spec. destruct (Z.testbit x k), (Z.testbit y k); cbn; by rewrite ?Z.lxor_nilpotent, ?Z.lxor_0_r, ?Z.lxor_0_l. Qed.

Lemma gen_lxor x y : gen (Z.lxor x y) = Z.lxor (gen x) (gen y).
Proof. unfold gen. rewrite !if_bit_lxor. xor_bits. Qed.

Lemma add_if_bit c0 k m g c : 0 <= k → m = 2 ^ k → add_if (negb (Z.land c0 m =? 0)) g c = Z.lxor c (if_bit c0 k g).
Proof.
  intros ? ->. rewrite <- (Z.shiftl_1_l k), land_pow2 by done. unfold add_if, if_bit. destruct (Z.testbit c0 k); [done|by rewrite Z.lxor_0_r].
Qed.

Lemma if_bit_fits c0 k g : fits 30 g → fits 30 (if_bit c0 k g).
Proof. unfold if_bit. destruct (Z.testbit c0 k); [done|]. intros. unfold fits. lia. Qed.

Lemma gen_fits c0 : fits 30 (gen c0).
Proof. unfold gen. repeat apply lxor_fits; try lia; apply if_bit_fits; unfold fits; lia. Qed.

Lemma low_fits c : 0 <= c → fits 30 (Z.shiftl (Z.land c 0x1ffffff) 5).
Proof.
  intros. change 0x1ffffff with (Z.ones 25). rewrite Z.land_ones, Z.shiftl_mul_pow2 by lia.
  pose proof (Z.mod_pos_bound c (2 ^ 25)). unfold fits. lia.
Qed.

Lemma polymod_step_eq c v :
  fits 30 c → polymod_step c v = Z.lxor (Z.lxor (Z.shiftl (Z.land c 0x1ffffff) 5) v) (gen (Z.shiftr c 25)).
Proof.
  intros Hc. unfold polymod_step. assert (fits 5 (Z.shiftr c 25)) as Hs.
  { unfold fits in *. rewrite Z.shiftr_div_pow2 by lia. divlia. }
  rewrite (wrap_id 8) by (unfold fits in *; lia). rewrite (wrap_id 32) by (pose proof (low_fits c ltac:(apply Hc)); unfold fits in *; lia).
  rewrite (add_if_bit _ 0 1), (add_if_bit _ 1 2), (add_if_bit _ 2 4), (add_if_bit _ 3 8), (add_if_bit _ 4 16) by (lia || done).
  unfold gen. by rewrite !Z.lxor_assoc.
Qed.

Lemma polymod_step_fits c v : fits 30 c → fits 30 v → fits 30 (polymod_step c v).
Proof.
  intros Hc Hv. rewrite polymod_step_eq by done. apply lxor_fits; [lia| |apply gen_fits].
  apply lxor_fits; [lia| |done]. apply low_fits, Hc.
Qed.

Lemma polymod_step_lxor c d v w :
  fits 30 c → fits 30 d → polymod_step (Z.lxor c d) (Z.lxor v w) = Z.lxor (polymod_step c v) (polymod_step d w).
Proof.
  intros Hc Hd. rewrite !polymod_step_eq by (try apply lxor_fits; done || lia).
  assert (Z.land (Z.lxor c d) 0x1ffffff = Z.lxor (Z.land c 0x1ffffff) (Z.land d 0x1ffffff)) as ->
    by (apply Z.bits_inj'; intros; rewrite ?Z.lxor_spec, ?Z.land_spec, ?Z.lxor_spec; btauto).
  rewrite Z.shiftl_lxor, Z.shiftr_lxor, gen_lxor. xor_bits.
Qed.

Abbreviation symbols_ok := (Forall (fits 5)).
Lemma fits_more w w' x : w <= w' → fits w x → fits w' x.
Proof. intros Hw [H0 H1]. split; [done|]. pose proof (Z.pow_le_mono_r 2 w w'). lia. Qed.

Abbreviation steps := (foldl polymod_step).

Lemma steps_fits l c : fits 30 c → symbols_ok l → fits 30 (steps c l).
Proof.
  intros Hc Hl. revert c Hc. induction Hl as [|v l Hv _ IH]; intros c Hc; [done|]. apply IH, polymod_step_fits; [done|].
  by apply (fits_more 5).
Qed.

Lemma steps_lxor l m c d : fits 30 c → fits 30 d → symbols_ok l → symbols_ok m → length l = length m →
  steps (Z.lxor c d) (zip_with Z.lxor l m) = Z.lxor (steps c l) (steps d m).
Proof.
  intros Hc Hd Hl. revert m c d Hc Hd. induction Hl as [|v l Hv _ IH]; intros [|w m] c d Hc Hd Hm Hlen; try done.
  apply Forall_cons_1 in Hm as [Hw Hm]. cbn. rewrite polymod_step_lxor by done. apply IH; [| |done|by injection Hlen].
  - apply polymod_step_fits; [done|by apply (fits_more 5)].
  - apply polymod_step_fits; [done|by apply (fits_more 5)].
Qed.

(** Up to six symbols are packed without a reduction. *)
Lemma step_packs c v : fits 25 c → fits 5 v → polymod_step c v = c * 32 + v.
Proof.
  intros Hc Hv. rewrite polymod_step_eq by (by apply (fits_more 25)).
  assert (Z.shiftr c 25 = 0) as -> by (rewrite Z.shiftr_div_pow2 by lia; unfold fits in Hc; by apply Z.div_small).
  change (gen 0) with 0. rewrite Z.lxor_0_r. change 0x1ffffff with (Z.ones 25). rewrite Z.land_ones, Z.mod_small by (lia || done).
  rewrite Z.lxor_comm, <- Z.add_nocarry_lxor; [rewrite Z.shiftl_mul_pow2 by lia; lia|].
  apply Z.bits_inj'. intros n Hn. rewrite Z.land_spec, Z.bits_0. destruct (Z.lt_ge_cases n 5).
  - by rewrite Z.shiftl_spec_low, andb_false_r.
  - by rewrite (testbit_fits 5 v n).
Qed.

Definition pack (l : list Z) : Z := foldl (λ c v, c * 32 + v) 0 l.

Lemma steps_pack l : symbols_ok l → (length l <= 6)%nat → steps 0 l = pack l ∧ 0 <= pack l < 32 ^ Z.of_nat (length l).
Proof.
  intros Hl Hn. induction l as [|v l IH] using rev_ind; [done|]. apply Forall_app in Hl as [Hl Hv]. apply Forall_cons_1 in Hv as [Hv _].
  rewrite length_app in *. cbn [length] in *. destruct IH as [E Hb]; [done|lia|]. unfold pack in *. rewrite !foldl_app, E. cbn [foldl].
  assert (32 ^ Z.of_nat (length l) <= 32 ^ 5) by (apply Z.pow_le_mono_r; lia).
  rewrite step_packs; [|unfold fits; lia|done]. split; [done|]. replace (Z.of_nat (length l + 1)) with (Z.succ (Z.of_nat (length l))) by lia.
  rewrite Z.pow_succ_r by lia. unfold fits in Hv. lia.
Qed.

Lemma pack_zero l : symbols_ok l → pack l = 0 → Forall (eq 0) l.
Proof.
  unfold pack. induction l as [|v l IH] using rev_ind; intros Hl H0; [done|]. apply Forall_app in Hl as [Hl Hv].
  apply Forall_cons_1 in Hv as [Hv _]. rewrite foldl_app in H0. cbn [foldl] in H0.
  assert (0 <= foldl (λ c v, c * 32 + v) 0 l) as Hp.
  { clear -Hl. induction l as [|v l IH] using rev_ind; [done|]. apply Forall_app in Hl as [Hl Hv].
    apply Forall_cons_1 in Hv as [[Hv _] _]. rewrite foldl_app. cbn [foldl]. specialize (IH Hl). lia. }
  unfold fits in Hv. apply Forall_app. split; [apply IH; [done|lia]|]. constructor; [lia|done].
Qed.

(** A step with symbol 0 takes nothing but 0 to 0: the constant coefficient of the generator is a unit. *)
Lemma step_zero c : fits 30 c → polymod_step c 0 = 0 → c = 0.
Proof.
  intros Hc Hz. rewrite polymod_step_eq, Z.lxor_0_r in Hz by done. apply Z.lxor_eq in Hz.
  assert (fits 5 (Z.shiftr c 25)) as Hs by (unfold fits in *; rewrite Z.shiftr_div_pow2 by lia; divlia).
  assert (Z.land (gen (Z.shiftr c 25)) 31 = 0) as Hlow.
  { rewrite <- Hz. apply Z.bits_inj'. intros n Hn. rewrite Z.land_spec, Z.bits_0. destruct (Z.lt_ge_cases n 5).
    - by rewrite Z.shiftl_spec_low.
    - rewrite (testbit_fits 5 31 n), andb_false_r; [done|unfold fits; lia|done]. }
  assert (Z.shiftr c 25 = 0) as H0.
  { assert (∀ k, 0 <= k < 32 → Z.land (gen k) 31 = 0 → k = 0) as Hall; [|apply Hall; [exact Hs|done]].
    assert (Forall (λ k, Z.land (gen (Z.of_nat k)) 31 = 0 → k = 0%nat) (seq 0 32)) as Hf
      by (apply (bool_decide_unpack _); vm_compute; exact I).
    intros k Hk Hg. apply list.Forall_forall with (x := Z.to_nat k) in Hf; [|apply elem_of_seq; lia].
    rewrite Z2Nat.id in Hf by lia. specialize (Hf Hg). lia. }
  rewrite H0 in Hz. change (gen 0) with 0 in Hz. change 0x1ffffff with (Z.ones 25) in Hz.
  rewrite Z.land_ones, Z.shiftl_mul_pow2 in Hz by lia. rewrite Z.shiftr_div_pow2 in H0 by lia.
  unfold fits in Hc. divlia.
Qed.

Lemma steps_zeros n c : fits 30 c → steps c (replicate n 0) = 0 → c = 0.
Proof.
  revert c. induction n as [|n IH]; intros c Hc; [done|]. cbn [replicate foldl]. intros Hz.
  apply step_zero; [done|]. apply IH; [|done]. apply polymod_step_fits; [done|unfold fits; lia].
Qed.

(** ** Checksums verify, and bursts of errors are noticed *)

Lemma ExpandHRP_eq hrp : ExpandHRP hrp = ((λ c, Z.shiftr c 5) <$> hrp) ++ [0] ++ ((λ c, Z.land c 0x1f) <$> hrp).
Proof.
  unfold ExpandHRP. set (n := length hrp). set (f := λ c, Z.shiftr c 5). set (g := λ c, Z.land c 0x1f).
  pose (inv := λ (i : nat) (l : list Z), length l = (n * 2 + 1)%nat ∧
    ∀ j, (j < i)%nat → l !! j = f <$> hrp !! j ∧ l !! (j + n + 1)%nat = g <$> hrp !! j).
  match goal with |- context [for_range 0 n ?b ?z] => assert (inv (0 + n)%nat (for_range 0 n b z)) as [Hl Hinv] end.
  { apply for_range_ind; [split; [by rewrite length_replicate|lia]|]. intros i l Hi [Hl Hj]. split; [by rewrite !length_insert|].
    intros j Hji. destruct (lookup_lt_is_Some_2 hrp i) as [c Hc]; [subst n; lia|]. rewrite Hc. cbn [default from_option].
    destruct (decide (j = i)) as [->|].
    - rewrite list_lookup_insert_ne, !list_lookup_insert_eq, Hc by (rewrite ?length_insert; lia). done.
    - rewrite !list_lookup_insert_ne by lia. apply Hj. lia. }
  cbn [Nat.add] in *. apply list_eq. intros k. destruct (Nat.lt_trichotomy k n) as [Hk|[->|Hk]].
  - rewrite list_lookup_insert_ne, lookup_app_l by (rewrite ?length_fmap; lia). rewrite list_lookup_fmap. by apply Hinv.
  - rewrite list_lookup_insert_eq by lia. by rewrite lookup_app_r, length_fmap, Nat.sub_diag by (by rewrite length_fmap).
  - rewrite list_lookup_insert_ne by lia. rewrite lookup_app_r, length_fmap by (rewrite length_fmap; subst n; lia).
    replace (k - length hrp)%nat with (S (k - n - 1)) by (subst n; lia). change (([0] ++ (g <$> hrp)) !! S (k - n - 1)) with ((g <$> hrp) !! (k - n - 1)%nat).
    rewrite list_lookup_fmap.
    destruct (decide (k - n - 1 < n)%nat) as [Hin|Hout].
    + replace k with ((k - n - 1) + n + 1)%nat at 1 by lia. by apply Hinv.
    + rewrite lookup_ge_None_2, (lookup_ge_None_2 hrp) by (subst n; lia). done.
Qed.

Lemma ExpandHRP_ok hrp : bytes_ok hrp → symbols_ok (ExpandHRP hrp).
Proof.
  intros Hb. rewrite ExpandHRP_eq. apply Forall_app. split; [|constructor; [unfold fits; lia|]]; apply Forall_fmap; eapply list.Forall_impl; try done.
  - intros c Hc. unfold fits in *. cbn. rewrite Z.shiftr_div_pow2 by lia. divlia.
  - intros c Hc. unfold fits in *. cbn. change 31 with (Z.ones 5). rewrite Z.land_ones by lia. apply Z.mod_pos_bound. lia.
Qed.

(** The six symbols that [CreateChecksum] cuts out of 30 bits. *)
Definition groups (x : Z) : list Z := (λ i, Z.land (Z.shiftr x (5 * (5 - Z.of_nat i))) 31) <$> seq 0 6.

Lemma groups_ok x : symbols_ok (groups x).
Proof.
  apply Forall_fmap, Forall_true. intros i. cbn. change 31 with (Z.ones 5). rewrite Z.land_ones by lia. apply Z.mod_pos_bound. lia.
Qed.

Lemma pack_groups x : fits 30 x → pack (groups x) = x.
Proof.
  intros Hx. unfold groups, pack. cbn [seq fmap list_fmap foldl]. change 31 with (Z.ones 5). rewrite !Z.land_ones, !Z.shiftr_div_pow2 by lia.
  unfold fits in Hx. cbn -[Z.mul Z.add Z.modulo Z.div Z.pow]. rewrite Z.pow_0_r, Z.div_1_r. divlia.
Qed.

Lemma zip_lxor_0 (l : list Z) n : length l = n → zip_with Z.lxor (replicate n 0) l = l.
Proof. revert l. induction n as [|n IH]; intros [|x l] Hl; try done. cbn. rewrite IH; [by destruct x|by injection Hl]. Qed.

(** Replacing six zeros by a checksum adds the packed checksum to the remainder. *)
Lemma steps_checksum c l : fits 30 c → symbols_ok l → length l = 6%nat → steps c l = Z.lxor (steps c (replicate 6 0)) (pack l).
Proof.
  intros Hc Hl Hn. rewrite <- (zip_lxor_0 l 6 Hn) at 1. rewrite <- (Z.lxor_0_r c) at 1.
  rewrite steps_lxor; [|done|unfold fits; lia|by apply Forall_replicate|done|by rewrite Hn].
  by rewrite (proj1 (steps_pack l Hl ltac:(lia))).
Qed.

Lemma VerifyChecksum_created hrp values :
  bytes_ok hrp → symbols_ok values → VerifyChecksum hrp (values ++ CreateChecksum hrp values) = true.
Proof.
  intros Hh Hv. unfold VerifyChecksum, CreateChecksum, PolyMod. apply Z.eqb_eq.
  set (m := Z.lxor _ 1). change (_ <$> seq 0 6) with (groups m). assert (symbols_ok (ExpandHRP hrp ++ values)) as Ho
    by (apply Forall_app; split; [by apply ExpandHRP_ok|done]).
  assert (fits 30 (steps 1 (ExpandHRP hrp ++ values))) as Hf by (apply steps_fits; [unfold fits; lia|done]).
  assert (symbols_ok (replicate 6 0)) as Hz by (apply Forall_replicate; unfold fits; lia).
  assert (fits 30 m) as Hm.
  { subst m. apply lxor_fits; [lia| |unfold fits; lia]. apply steps_fits; [unfold fits; lia|]. rewrite app_assoc. by apply Forall_app. }
  rewrite app_assoc, foldl_app. rewrite steps_checksum by (apply groups_ok || done). rewrite pack_groups by done.
  subst m. rewrite app_assoc, (foldl_app polymod_step (ExpandHRP hrp ++ values)). by rewrite <- Z.lxor_assoc, Z.lxor_nilpotent.
Qed.

Lemma zip_lxor_self (l : list Z) : zip_with Z.lxor l l = replicate (length l) 0.
Proof. induction l as [|x l IH]; [done|]. cbn. by rewrite Z.lxor_nilpotent, IH. Qed.

Lemma zip_lxor_zero (l m : list Z) : length l = length m → Forall (eq 0) (zip_with Z.lxor l m) → l = m.
Proof.
  revert m. induction l as [|x l IH]; intros [|y m] Hlen; try done. cbn. intros [Hxy Hr]%Forall_cons_1.
  symmetry in Hxy. apply Z.lxor_eq in Hxy as ->. f_equal. apply IH; [by injection Hlen|done].
Qed.

Lemma zip_lxor_ok l m : symbols_ok l → symbols_ok m → symbols_ok (zip_with Z.lxor l m).
Proof.
  intros Hl. revert m. induction Hl as [|x l Hx _ IH]; intros [|y m] Hm; try done. apply Forall_cons_1 in Hm as [Hy Hm].
  constructor; [by apply lxor_fits|by apply IH].
Qed.

(** Two words that differ in at most six neighbouring symbols have different remainders. *)
Lemma steps_burst a m m' b :
  symbols_ok (a ++ m ++ b) → symbols_ok m' → length m = length m' → (length m <= 6)%nat → m ≠ m' →
  steps 1 (a ++ m ++ b) ≠ steps 1 (a ++ m' ++ b).
Proof.
  intros Hall Hm' Hlen H6 Hne E. apply Forall_app in Hall as [Ha [Hm Hb]%Forall_app]. rewrite !foldl_app in E.
  assert (fits 30 (steps 1 a)) as Hs by (apply steps_fits; [unfold fits; lia|done]). revert E Hs. generalize (steps 1 a). intros c E Hc.
  pose proof (zip_lxor_ok m m' Hm Hm') as Hz. assert (length (zip_with Z.lxor m m') = length m) as Hzl by (rewrite length_zip_with; lia).
  pose proof (steps_lxor m m' c c Hc Hc Hm Hm' Hlen) as Hmm. rewrite Z.lxor_nilpotent in Hmm.
  destruct (steps_pack (zip_with Z.lxor m m') Hz ltac:(lia)) as [Hp Hpb]. rewrite Hzl in Hpb.
  assert (fits 30 (pack (zip_with Z.lxor m m'))) as Hpf.
  { pose proof (Z.pow_le_mono_r 32 (Z.of_nat (length m)) 6). unfold fits. lia. }
  pose proof (steps_lxor b b (steps c m) (steps c m') ltac:(by apply steps_fits) ltac:(by apply steps_fits) Hb Hb eq_refl) as Hbb.
  rewrite E, Z.lxor_nilpotent, <- Hmm, Hp, zip_lxor_self in Hbb. apply steps_zeros in Hbb; [|done].
  apply Hne, zip_lxor_zero; [done|]. by apply pack_zero.
Qed.

(** ** Decoding what was encoded *)

Lemma charset_rev v : fits 5 v →
  ∃ c, CHARSET !! Z.to_nat v = Some c ∧ CHARSET_REV !! Z.to_nat c = Some v ∧ 33 <= c <= 126 ∧ (c < 65 ∨ 90 < c) ∧ c ≠ 49.
Proof.
  intros Hv. assert (forallb (λ k, match CHARSET !! k with
    | Some c => bool_decide (CHARSET_REV !! Z.to_nat c = Some (Z.of_nat k)) && (33 <=? c) && (c <=? 126) &&
                ((c <? 65) || (90 <? c)) && negb (c =? 49)
    | None => false end) (seq 0 32) = true) as Hall by (vm_compute; reflexivity).
  rewrite forallb_forall in Hall. specialize (Hall (Z.to_nat v)). rewrite Z2Nat.id in Hall by apply Hv.
  assert (In (Z.to_nat v) (seq 0 32)) as Hin by (apply in_seq; unfold fits in Hv; lia). specialize (Hall Hin). clear Hin.
  destruct (CHARSET !! Z.to_nat v) as [c|]; [|done]. exists c. split; [done|].
  destruct (bool_decide _) eqn:Eb; [|done]. apply bool_decide_eq_true_1 in Eb. split; [done|]. lia.
Qed.

(** What the characters of a data part are. *)
Definition data_char (c : Z) : Prop := 33 <= c <= 126 ∧ (c < 65 ∨ 90 < c) ∧ c ≠ 49.

Lemma encode_symbols values : symbols_ok values →
  ∃ ret, mapM (λ c, CHARSET !! Z.to_nat c) values = Some ret ∧ decode_symbols ret = Some values ∧ Forall data_char ret ∧
    length ret = length values.
Proof.
  induction 1 as [|v values Hv _ IH]; [by exists []|]. destruct IH as (ret & E & Hd & Hc & Hl). destruct (charset_rev v Hv) as (c & Ec & Er & Hr & Hu & H1).
  exists (c :: ret). cbn [mapM]. rewrite Ec, E. split; [done|]. split; [|split; [by constructor|cbn; lia]].
  cbn [decode_symbols]. rewrite Er. cbn. destruct (Z.eqb_spec v (-1)) as [->|]; [destruct Hv; lia|]. by rewrite Hd.
Qed.

Lemma rfind_none ch l : ch ∉ l → rfind ch l = None.
Proof.
  induction l as [|c l IH]; [done|]. intros Hn. cbn. rewrite IH by (intros ?; apply Hn; by right).
  destruct (Z.eqb_spec c ch) as [->|]; [|done]. destruct Hn. by left.
Qed.

Lemma rfind_last ch l r : ch ∉ r → rfind ch (l ++ [ch] ++ r) = Some (length l).
Proof.
  intros Hr. induction l as [|c l IH]; cbn [app rfind length].
  - rewrite rfind_none by done. by rewrite Z.eqb_refl.
  - cbn [app] in IH. by rewrite IH.
Qed.

Lemma scan_lower str lo : Forall (λ c, 33 <= c <= 126 ∧ (c < 65 ∨ 90 < c)) str → ∃ lo', scan_case str lo false = Some (lo', false).
Proof.
  intros Hs. revert lo. induction Hs as [|c str [Hc Hu] _ IH]; intros lo; [by exists lo|]. cbn [scan_case].
  destruct ((97 <=? c) && (c <=? 122)); [done|]. destruct ((65 <=? c) && (c <=? 90)) eqn:E; [lia|].
  destruct ((c <? 33) || (c >? 126)) eqn:E2; [lia|]. done.
Qed.

Lemma LowerCase_id hrp : Forall (λ c, c < 65 ∨ 90 < c) hrp → LowerCase <$> hrp = hrp.
Proof.
  induction 1 as [|c hrp Hc _ IH]; [done|]. cbn. rewrite IH. f_equal. unfold LowerCase. destruct ((65 <=? c) && (c <=? 90)) eqn:E; [lia|done].
Qed.

(** A prefix that [Decode] accepts: printable, without capitals, not empty. *)
Definition hrp_ok (hrp : list Z) : Prop := hrp ≠ [] ∧ Forall (λ c, 33 <= c <= 126 ∧ (c < 65 ∨ 90 < c)) hrp.

Lemma Decode_Encode hrp values :
  hrp_ok hrp → symbols_ok values → (length hrp + 1 + length values + 6 <= 90)%nat →
  ∃ str, Encode hrp values = Some str ∧ Decode str = (hrp, values).
Proof.
  intros [Hne Hh] Hv Hlen. assert (bytes_ok hrp) as Hb by (eapply list.Forall_impl; [done|]; unfold fits; intros; lia).
  assert (symbols_ok (values ++ CreateChecksum hrp values)) as Hall by (apply Forall_app; split; [done|apply groups_ok]).
  destruct (encode_symbols _ Hall) as (ret & E & Hd & Hc & Hl). rewrite length_app in Hl. change (length (CreateChecksum hrp values)) with 6%nat in Hl.
  exists (hrp ++ [49] ++ ret). unfold Encode.
  assert (forallb (λ c, (c <? 65) || (c >? 90)) hrp = true) as ->.
  { apply forallb_forall. intros c Hin. apply list_elem_of_In in Hin. apply list.Forall_forall with (x := c) in Hh; [lia|done]. }
  rewrite E. split; [done|]. unfold Decode.
  destruct (scan_lower (hrp ++ [49] ++ ret) false) as [lo ->].
  { apply Forall_app. split; [done|]. constructor; [lia|]. eapply list.Forall_impl; [done|]. unfold data_char. intros; lia. }
  rewrite andb_false_r, rfind_last; [|intros Hin; apply list.Forall_forall with (x := 49) in Hc; [unfold data_char in Hc; lia|done]].
  rewrite !length_app, Hl. cbn [length].
  destruct (90 <? _)%nat eqn:E1; [apply Nat.ltb_lt in E1; lia|]. destruct (length hrp =? 0)%nat eqn:E2; [apply Nat.eqb_eq in E2; by destruct hrp|].
  rewrite (proj2 (Nat.ltb_ge (length hrp + (1 + (length values + 6))) (length hrp + 7))) by lia. cbn [orb].
  rewrite drop_app_add. change (drop 1 ([49] ++ ret)) with ret.
  rewrite Hd, take_app_length, LowerCase_id by (eapply list.Forall_impl; [exact Hh|]; cbn; intros; lia).
  rewrite VerifyChecksum_created by done. rewrite length_app. change (length (CreateChecksum hrp values)) with 6%nat.
  replace (length values + 6 - 6)%nat with (length values) by lia. by rewrite take_app_length.
Qed.

(** ** Regrouping bits *)

(** The number that big-endian digits of [w] bits stand for. *)
Definition digits (w : Z) (l : list Z) : Z := foldl (λ a d, a * 2 ^ w + d) 0 l.

Lemma digits_snoc w l d : digits w (l ++ [d]) = digits w l * 2 ^ w + d.
Proof. unfold digits. by rewrite foldl_app. Qed.

Lemma digits_app w l m : 0 <= w → digits w (l ++ m) = digits w l * 2 ^ (w * Z.of_nat (length m)) + digits w m.
Proof.
  intros Hw. induction m as [|d m IH] using rev_ind; [rewrite app_nil_r; cbn; rewrite Z.mul_0_r; lia|].
  rewrite app_assoc, !digits_snoc, IH, length_app. cbn [length].
  replace (w * Z.of_nat (length m + 1)) with (w * Z.of_nat (length m) + w) by lia. rewrite Z.pow_add_r by lia. lia.
Qed.

Lemma digits_inj w l m : 0 <= w → Forall (fits w) l → Forall (fits w) m → length l = length m → digits w l = digits w m → l = m.
Proof.
  intros Hw Hl. revert m. induction l as [|x l IH] using rev_ind; intros m Hm Hlen E.
  { by destruct m. }
  destruct m as [|y m _] using rev_ind; [rewrite length_app in Hlen; cbn in Hlen; lia|].
  apply Forall_app in Hl as [Hl [Hx _]%Forall_cons_1], Hm as [Hm [Hy _]%Forall_cons_1].
  rewrite !digits_snoc in E. rewrite !length_app in Hlen. cbn in Hlen. unfold fits in Hx, Hy.
  assert (digits w l = digits w m ∧ x = y) as [E1 ->].
  { assert (digits w l = (digits w l * 2 ^ w + x) / 2 ^ w) as E1 by (rewrite Z.div_add_l, (Z.div_small x) by lia; lia).
    assert (digits w m = (digits w m * 2 ^ w + y) / 2 ^ w) as E2 by (rewrite Z.div_add_l, (Z.div_small y) by lia; lia).
    rewrite E in E1. split; [congruence|]. rewrite E1, <- E2 in E. lia. }
  f_equal. apply IH; [done|done|lia|done].
Qed.

Lemma land_max x t : 0 <= t → Z.land x (Z.shiftl 1 t - 1) = x mod 2 ^ t.
Proof. intros. rewrite Z.shiftl_1_l, Z.sub_1_r, <- Z.ones_equiv. by apply Z.land_ones. Qed.

Lemma mod_split acc b t : 0 <= b → 0 <= t → acc mod 2 ^ (b + t) = ((acc / 2 ^ b) mod 2 ^ t) * 2 ^ b + acc mod 2 ^ b.
Proof.
  intros. rewrite Z.pow_add_r by done. pose proof (pow2_pos b). pose proof (pow2_pos t). rewrite Z.rem_mul_r by lia. lia.
Qed.

Lemma mod_mod_pow acc b t : 0 <= b → 0 <= t → acc mod 2 ^ (b + t) mod 2 ^ b = acc mod 2 ^ b.
Proof. intros. pose proof (pow2_pos b). rewrite mod_split by done. rewrite Z.add_comm, Z.mod_add by lia. apply Z.mod_mod. lia. Qed.

Lemma emit_symbols_spec fuel tobits acc bits out bits' out' :
  0 < tobits → 0 <= bits <= Z.of_nat fuel → emit_symbols fuel tobits acc bits out = (bits', out') →
  ∃ new, out' = out ++ new ∧ Forall (fits tobits) new ∧ 0 <= bits' < tobits ∧ bits = bits' + tobits * Z.of_nat (length new) ∧
    acc mod 2 ^ bits = digits tobits new * 2 ^ bits' + acc mod 2 ^ bits'.
Proof.
  intros Ht. revert bits out. induction fuel as [|n IH]; intros bits out Hb; cbn [emit_symbols].
  { intros [= <- <-]. exists []. rewrite app_nil_r. split_and!; done || (cbn; lia). }
  destruct (Z.geb_spec bits tobits) as [Hge|Hlt].
  2:{ intros [= <- <-]. exists []. rewrite app_nil_r. split_and!; done || (cbn; lia). }
  intros E. apply IH in E as (new & -> & Hnew & Hb' & Hbits & Hacc); [|lia]. rewrite land_max, Z.shiftr_div_pow2 in * by lia.
  eexists (_ :: new). rewrite <- app_assoc. split; [done|]. split; [constructor; [apply wrap_fits; lia|done]|]. split; [done|].
  split; [cbn [length]; lia|]. replace bits with ((bits - tobits) + tobits) at 1 by lia. rewrite mod_split, Hacc by lia.
  change (?d :: new) with ([d] ++ new). rewrite digits_app by lia. generalize ((acc / 2 ^ (bits - tobits)) mod 2 ^ tobits). intros d.
  change (digits tobits [d]) with (0 * 2 ^ tobits + d). rewrite Hbits, (Z.pow_add_r 2 bits') by lia. ring.
Qed.

(** The state of the loop after the values of [l]. *)
Definition converted (frombits tobits acc bits : Z) (out l : list Z) : Prop :=
  0 <= acc ∧ 0 <= bits < tobits ∧ Forall (fits tobits) out ∧
  frombits * Z.of_nat (length l) = tobits * Z.of_nat (length out) + bits ∧
  digits frombits l = digits tobits out * 2 ^ bits + acc mod 2 ^ bits.

Lemma converted_start frombits tobits : 0 < tobits → converted frombits tobits 0 0 [] [].
Proof. intros. unfold converted. cbn. rewrite !Z.mul_0_r. split_and!; done || lia. Qed.

Lemma convert_loop_spec frombits tobits l acc bits out l0 acc' bits' out' :
  0 < frombits → 0 < tobits → converted frombits tobits acc bits out l0 → Forall (fits frombits) l →
  convert_loop frombits tobits acc bits out l = (acc', bits', out') → converted frombits tobits acc' bits' out' (l0 ++ l).
Proof.
  intros Hf Ht Hc Hl. revert acc bits out l0 Hc. induction Hl as [|x l Hx _ IH]; intros acc bits out l0 Hc; cbn [convert_loop].
  { intros [= <- <- <-]. by rewrite app_nil_r. }
  destruct Hc as (Ha & Hb & Ho & Hlen & Hd). set (acc1 := Z.land _ _).
  destruct (emit_symbols _ _ _ _ _) as [bits1 out1] eqn:E. apply emit_symbols_spec in E as (new & -> & Hnew & Hb1 & Hbits & Hacc); [|done|lia].
  replace (l0 ++ x :: l) with ((l0 ++ [x]) ++ l) by (by rewrite <- app_assoc). apply IH. assert (0 <= acc1) as Ha1.
  { subst acc1. rewrite land_max by lia. by apply Z.mod_pos_bound, pow2_pos; lia. }
  split_and!; [done|lia|lia|by apply Forall_app|rewrite !length_app; cbn [length]; lia|].
  assert (acc1 mod 2 ^ (bits + frombits) = (acc mod 2 ^ bits) * 2 ^ frombits + x) as Hacc1.
  { subst acc1. rewrite land_max by lia. rewrite Z.lor_comm, lor_add_disjoint by (done || lia). unfold fits in Hx.
    pose proof (pow2_pos frombits ltac:(lia)).
    replace (frombits + tobits - 1) with ((bits + frombits) + (tobits - 1 - bits)) by lia.
    rewrite mod_mod_pow by lia. replace (bits + frombits) with (frombits + bits) by lia. rewrite mod_split by lia.
    rewrite Z.div_add, (Z.div_small x), Z.mod_add, (Z.mod_small x), Z.add_0_l by lia. reflexivity. }
  assert (2 ^ bits * 2 ^ frombits = 2 ^ (tobits * Z.of_nat (length new)) * 2 ^ bits1) as Hp
    by (rewrite <- !Z.pow_add_r by lia; f_equal; lia).
  rewrite digits_snoc, Hd, digits_app by lia. rewrite Hacc1 in Hacc.
  rewrite Z.mul_add_distr_r, <- Z.add_assoc, Hacc. rewrite <- Z.mul_assoc, Hp. ring.
Qed.

(** Regrouping with padding and back without: the same values. *)
Lemma ConvertBits_back a b l :
  0 < b <= a → Forall (fits a) l →
  ∃ q, ConvertBits a b true l = (true, q) ∧ ConvertBits b a false q = (true, l) ∧ Forall (fits b) q ∧
    b * Z.of_nat (length q) < a * Z.of_nat (length l) + b.
Proof.
  intros Hab Hl. unfold ConvertBits at 1. destruct (convert_loop a b 0 0 [] l) as [[acc bits] out] eqn:E.
  apply (convert_loop_spec _ _ _ _ _ _ []) in E as (Ha & Hb & Ho & Hlen & Hd); [|lia|lia|apply converted_start; lia|done]. cbn [app] in *.
  set (q := if bits =? 0 then out else _). exists q. split; [done|].
  set (k := if bits =? 0 then 0 else b - bits). assert (0 <= k < b) as Hk by (subst k; destruct (Z.eqb_spec bits 0); lia).
  assert (Forall (fits b) q ∧ b * Z.of_nat (length q) = a * Z.of_nat (length l) + k ∧ digits b q = digits a l * 2 ^ k) as (Hq & Hql & Hqd).
  { subst q k. destruct (Z.eqb_spec bits 0) as [->|Hne].
    - split_and!; [done|lia|]. rewrite Hd, Z.pow_0_r, Z.mod_1_r. lia.
    - rewrite land_max, Z.shiftl_mul_pow2 by lia. split; [apply Forall_snoc; [done|apply wrap_fits; lia]|].
      split; [rewrite length_app; cbn; lia|]. rewrite digits_snoc, Hd. replace (2 ^ b) with (2 ^ bits * 2 ^ (b - bits)) by (rewrite <- Z.pow_add_r by lia; f_equal; lia).
      rewrite Z.mul_mod_distr_r by (pose proof (pow2_pos bits); pose proof (pow2_pos (b - bits)); lia). ring. }
  split; [|split; [done|lia]]. unfold ConvertBits. destruct (convert_loop b a 0 0 [] q) as [[acc2 bits2] out2] eqn:E2.
  apply (convert_loop_spec _ _ _ _ _ _ []) in E2 as (Ha2 & Hb2 & Ho2 & Hlen2 & Hd2); [|lia|lia|apply converted_start; lia|done]. cbn [app] in *.
  assert (length out2 = length l ∧ bits2 = k) as [Hl2 ->].
  { assert (Z.of_nat (length out2) = Z.of_nat (length l)) by nia. split; [lia|nia]. }
  pose proof (pow2_pos k ltac:(lia)) as Hpk. pose proof (Z.mod_pos_bound acc2 (2 ^ k) ltac:(lia)) as Hm. rewrite Hqd in Hd2.
  assert (digits a l = digits a out2 ∧ acc2 mod 2 ^ k = 0) as [Hdd Hz].
  { assert (digits a l = digits a out2) as Hdd.
    { apply (f_equal (λ x, x / 2 ^ k)) in Hd2. rewrite Z.div_mul, Z.div_add_l, (Z.div_small (acc2 mod _)) in Hd2 by lia. lia. }
    rewrite Hdd in Hd2. split; [done|lia]. }
  destruct (Z.geb_spec k b); [lia|]. rewrite land_max, Z.shiftl_mul_pow2 by lia.
  replace (2 ^ a) with (2 ^ k * 2 ^ (a - k)) by (rewrite <- Z.pow_add_r by lia; f_equal; lia).
  rewrite Z.mul_mod_distr_r, Hz by (pose proof (pow2_pos (a - k)); lia). cbn. f_equal. symmetry. by apply (digits_inj a); [lia|..].
Qed.

(** ** Properties *)

(** C30 The checksum of an address notices every burst of errors of up to six neighbouring symbols, so every mistyped symbol
    and every swap of two neighbours: of two data parts that differ inside such a window, at most one verifies. *)
Theorem checksum_detects_bursts (hrp before after wrong right_ : list Z) :
  bytes_ok hrp → symbols_ok (before ++ right_ ++ after) → symbols_ok wrong → length right_ = length wrong →
  (length right_ <= 6)%nat → right_ ≠ wrong →
  VerifyChecksum hrp (before ++ right_ ++ after) = true → VerifyChecksum hrp (before ++ wrong ++ after) = false.
Proof.
  intros Hh Hr Hw Hlen H6 Hne. unfold VerifyChecksum, PolyMod. rewrite !app_assoc, <- !(app_assoc (ExpandHRP hrp ++ before)).
  intros E%Z.eqb_eq. apply Z.eqb_neq. intros E'.
  apply (steps_burst (ExpandHRP hrp ++ before) right_ wrong after); [|done..|congruence].
  rewrite <- app_assoc. apply Forall_app. split; [by apply ExpandHRP_ok|done].
Qed.

Lemma checksum_detects_bursts_witness :
  VerifyChecksum (chars "bcrt") ([0; 14; 8] ++ [19; 16] ++ [18] ++ CreateChecksum (chars "bcrt") [0; 14; 8; 19; 16; 18]) = true ∧
  VerifyChecksum (chars "bcrt") ([0; 14; 8] ++ [16; 19] ++ [18] ++ CreateChecksum (chars "bcrt") [0; 14; 8; 19; 16; 18]) = false.
Proof.
  assert (VerifyChecksum (chars "bcrt") ([0; 14; 8] ++ [19; 16] ++ [18] ++ CreateChecksum (chars "bcrt") [0; 14; 8; 19; 16; 18]) = true)
    as Hv by (vm_compute; reflexivity).
  split; [exact Hv|]. apply (checksum_detects_bursts (chars "bcrt") [0; 14; 8] _ [16; 19] [19; 16]).
  - apply (bool_decide_unpack _). vm_compute. exact I.
  - apply (bool_decide_unpack _). vm_compute. exact I.
  - apply (bool_decide_unpack _). vm_compute. exact I.
  - reflexivity.
  - cbn. lia.
  - discriminate.
  - exact Hv.
Defined.
