(* ===== verification/ArithUint256.v ===== *)
(** * 256-bit unsigned arithmetic: [arith_uint256.h], [arith_uint256.cpp]

    [base_uint<BITS>] keeps a number as [WIDTH = BITS / 32] limbs [pn] of 32
    bits, least significant first.  The operators are translated limb by limb,
    with the 64-bit intermediate of the C code wrapped explicitly; [value] is
    the number an array of limbs stands for, and every operator is proved to
    compute the operation modulo [2^BITS] that its name promises.  The compact
    encoding of difficulty targets ([SetCompact], [GetCompact]) follows. *)

From stdpp Require Import base list numbers decidable.
From S2P Require Import Prelude.

Open Scope Z_scope.

(** [template <unsigned int BITS> class base_uint], at the only width the code
    instantiates. *)
Definition WIDTH : nat := 8.

Abbreviation limbs := (list Z).

Definition limbs_wf (pn : limbs) : Prop := length pn = WIDTH ∧ Forall u32_ok pn.
#[global] Instance limbs_wf_dec pn : Decision (limbs_wf pn).
Proof. unfold limbs_wf. apply _. Defined.

(** [pn[i]]; the code only reads indices below [WIDTH]. *)
Definition limb (pn : limbs) (i : nat) : Z := default 0 (pn !! i).

(** The number denoted by the limbs. *)
Fixpoint value (pn : limbs) : Z :=
  match pn with
  | [] => 0
  | p :: ps => p + 2 ^ 32 * value ps
  end.

(** ** Constructors and assignments *)

Definition bu_zero : limbs := replicate WIDTH 0.

Definition bu_of_u64 (b : Z) : limbs :=
  wrap32 b :: wrap32 (Z.shiftr b 32) :: replicate (WIDTH - 2) 0.

(** ** Logical operators *)

Definition bu_is_zero (pn : limbs) : bool := forallb (λ p, p =? 0) pn.
Definition bu_not (pn : limbs) : limbs := not32 <$> pn.
Definition bu_xor (a b : limbs) : limbs := zip_with Z.lxor a b.
Definition bu_and (a b : limbs) : limbs := zip_with Z.land a b.
Definition bu_or (a b : limbs) : limbs := zip_with Z.lor a b.

Definition bu_xor64 (pn : limbs) (b : Z) : limbs :=
  match pn with
  | p0 :: p1 :: ps => Z.lxor p0 (wrap32 b) :: Z.lxor p1 (wrap32 (Z.shiftr b 32)) :: ps
  | _ => pn
  end.

Definition bu_or64 (pn : limbs) (b : Z) : limbs :=
  match pn with
  | p0 :: p1 :: ps => Z.lor p0 (wrap32 b) :: Z.lor p1 (wrap32 (Z.shiftr b 32)) :: ps
  | _ => pn
  end.

(** ** Addition, subtraction, increment *)

(** [while (i < WIDTH && ++pn[i] == 0) i++]. *)
Fixpoint bu_inc (pn : limbs) : limbs :=
  match pn with
  | [] => []
  | p :: ps => let p' := wrap32 (p + 1) in p' :: (if p' =? 0 then bu_inc ps else ps)
  end.

(** [while (i < WIDTH && --pn[i] == (uint32_t)-1) i++]. *)
Fixpoint bu_dec (pn : limbs) : limbs :=
  match pn with
  | [] => []
  | p :: ps =>
      let p' := wrap32 (p - 1) in p' :: (if p' =? wrap32 (-1) then bu_dec ps else ps)
  end.

Definition bu_neg (pn : limbs) : limbs := bu_inc (bu_not pn).

Fixpoint bu_add_loop (carry : Z) (pn b : limbs) : limbs :=
  match pn, b with
  | p :: ps, q :: qs =>
      let n := wrap64 (carry + p + q) in
      Z.land n 0xffffffff :: bu_add_loop (Z.shiftr n 32) ps qs
  | _, _ => []
  end.

Definition bu_add (a b : limbs) : limbs := bu_add_loop 0 a b.
Definition bu_sub (a b : limbs) : limbs := bu_add a (bu_neg b).
Definition bu_add64 (a : limbs) (b64 : Z) : limbs := bu_add a (bu_of_u64 b64).
Definition bu_sub64 (a : limbs) (b64 : Z) : limbs := bu_add a (bu_neg (bu_of_u64 b64)).

(** ** Multiplication *)

Fixpoint bu_mul32_loop (carry b32 : Z) (pn : limbs) : limbs :=
  match pn with
  | [] => []
  | p :: ps =>
      let n := wrap64 (carry + b32 * p) in
      Z.land n 0xffffffff :: bu_mul32_loop (Z.shiftr n 32) b32 ps
  end.

Definition bu_mul32 (pn : limbs) (b32 : Z) : limbs := bu_mul32_loop 0 b32 pn.

(** The inner loop: [i] runs while [i + j < WIDTH], over the limbs [pn[j..]]. *)
Fixpoint bu_mul_row (carry aj : Z) (pn b : limbs) : limbs :=
  match pn, b with
  | p :: ps, q :: qs =>
      let n := wrap64 (carry + p + aj * q) in
      Z.land n 0xffffffff :: bu_mul_row (Z.shiftr n 32) aj ps qs
  | _, _ => []
  end.

(** The outer loop, over the limbs [a[j..]]. *)
Fixpoint bu_mul_loop (j : nat) (a pn b : limbs) : limbs :=
  match a with
  | [] => pn
  | aj :: a' => bu_mul_loop (S j) a' (take j pn ++ bu_mul_row 0 aj (drop j pn) b) b
  end.

Definition bu_mul (a b : limbs) : limbs := bu_mul_loop 0 a (replicate (length a) 0) b.

(** ** Shifts *)

(** [pn[i] |= x]. *)
Definition or_at (i : nat) (x : Z) (pn : limbs) : limbs := <[i := Z.lor (limb pn i) x]> pn.

Definition bu_shl_step (a : limbs) (k : nat) (shift : Z) (i : nat) (pn : limbs) : limbs :=
  let pn := if (i + k + 1 <? length a)%nat && negb (shift =? 0)
            then or_at (i + k + 1) (shr32 (limb a i) (32 - shift)) pn else pn in
  if (i + k <? length a)%nat then or_at (i + k) (shl32 (limb a i) shift) pn else pn.

Definition bu_shl (a : limbs) (shift : Z) : limbs :=
  let k := Z.to_nat (shift / 32) in
  let shift := shift mod 32 in
  for_range 0 (length a) (bu_shl_step a k shift) (replicate (length a) 0).

Definition bu_shr_step (a : limbs) (k : nat) (shift : Z) (i : nat) (pn : limbs) : limbs :=
  let pn := if (k + 1 <=? i)%nat && negb (shift =? 0)
            then or_at (i - k - 1) (shl32 (limb a i) (32 - shift)) pn else pn in
  if (k <=? i)%nat then or_at (i - k) (shr32 (limb a i) shift) pn else pn.

Definition bu_shr (a : limbs) (shift : Z) : limbs :=
  let k := Z.to_nat (shift / 32) in
  let shift := shift mod 32 in
  for_range 0 (length a) (bu_shr_step a k shift) (replicate (length a) 0).

(** ** Comparison *)

Fixpoint bu_compare_loop (n : nat) (a b : limbs) : Z :=
  match n with
  | O => 0
  | S i => if limb a i <? limb b i then -1
           else if limb a i >? limb b i then 1
           else bu_compare_loop i a b
  end.

Definition bu_CompareTo (a b : limbs) : Z := bu_compare_loop (length a) a b.
Definition bu_gt (a b : limbs) : bool := bu_CompareTo a b >? 0.
Definition bu_lt (a b : limbs) : bool := bu_CompareTo a b <? 0.
Definition bu_ge (a b : limbs) : bool := bu_CompareTo a b >=? 0.
Definition bu_le (a b : limbs) : bool := bu_CompareTo a b <=? 0.
(** [memcmp(a.pn, b.pn, sizeof(a.pn)) == 0]. *)
Definition bu_eqb (a b : limbs) : bool := bool_decide (a = b).

Definition bu_EqualTo (pn : limbs) (b : Z) : bool :=
  forallb (λ p, p =? 0) (drop 2 pn)
  && (limb pn 1 =? Z.shiftr b 32) && (limb pn 0 =? Z.land b 0xffffffff).

(** ** Bit length *)

(** The loop over [nbits = 31 .. 1] inside one non-zero limb. *)
Fixpoint bu_bits_word (nbits : nat) (w : Z) : Z :=
  match nbits with
  | O => 1
  | S n' => if negb (Z.land w (Z.shiftl 1 (Z.of_nat nbits)) =? 0)
            then Z.of_nat nbits + 1 else bu_bits_word n' w
  end.

Fixpoint bu_bits_loop (n : nat) (pn : limbs) : Z :=
  match n with
  | O => 0
  | S pos => if negb (limb pn pos =? 0) then 32 * Z.of_nat pos + bu_bits_word 31 (limb pn pos)
             else bu_bits_loop pos pn
  end.

Definition bu_bits (pn : limbs) : Z := bu_bits_loop (length pn) pn.

Definition bu_GetLow64 (pn : limbs) : Z :=
  Z.lor (limb pn 0) (wrap64 (Z.shiftl (limb pn 1) 32)).

(** ** Division *)

(** One iteration of [while (shift >= 0)]; the state is (quotient, num, div). *)
Definition bu_div_step (shift : Z) (s : limbs * limbs * limbs) : limbs * limbs * limbs :=
  let '(pn, num, div) := s in
  let '(pn, num) :=
    if bu_ge num div
    then (or_at (Z.to_nat (shift / 32)) (wrap32 (Z.shiftl 1 (Z.land shift 31))) pn, bu_sub num div)
    else (pn, num) in
  (pn, num, bu_shr div 1).

(** [n] is [shift + 1]: the number of iterations left. *)
Fixpoint bu_div_loop (n : nat) (s : limbs * limbs * limbs) : limbs * limbs * limbs :=
  match n with
  | O => s
  | S shift => bu_div_loop shift (bu_div_step (Z.of_nat shift) s)
  end.

(** [None] is the exception [uint_error("Division by zero")]. *)
Definition bu_div (a b : limbs) : option limbs :=
  let zero := replicate (length a) 0 in
  let num_bits := bu_bits a in
  let div_bits := bu_bits b in
  if div_bits =? 0 then None
  else if div_bits >? num_bits then Some zero
  else
    let shift := num_bits - div_bits in
    let '(pn, _, _) := bu_div_loop (Z.to_nat (shift + 1)) (zero, a, bu_shl b shift) in
    Some pn.

(** ** The compact encoding of targets *)

(** [SetCompact] returns the number and the two flags it writes. *)
Definition SetCompact (nCompact : Z) : limbs * bool * bool :=
  let nSize := Z.shiftr nCompact 24 in
  let nWord := Z.land nCompact 0x007fffff in
  let '(nWord, this) :=
    if nSize <=? 3
    then let nWord := Z.shiftr nWord (8 * (3 - nSize)) in (nWord, bu_of_u64 nWord)
    else (nWord, bu_shl (bu_of_u64 nWord) (8 * (nSize - 3))) in
  let fNegative := negb (nWord =? 0) && negb (Z.land nCompact 0x00800000 =? 0) in
  let fOverflow := negb (nWord =? 0) &&
    ((nSize >? 34) || ((nWord >? 0xff) && (nSize >? 33)) || ((nWord >? 0xffff) && (nSize >? 32))) in
  (this, fNegative, fOverflow).

(** [None] is a failed [assert]. *)
Definition GetCompact (this : limbs) (fNegative : bool) : option Z :=
  let nSize := (bu_bits this + 7) / 8 in
  let nCompact :=
    if nSize <=? 3 then wrap32 (wrap64 (Z.shiftl (bu_GetLow64 this) (8 * (3 - nSize))))
    else wrap32 (bu_GetLow64 (bu_shr this (8 * (nSize - 3)))) in
  let '(nCompact, nSize) :=
    if negb (Z.land nCompact 0x00800000 =? 0) then (Z.shiftr nCompact 8, nSize + 1)
    else (nCompact, nSize) in
  if negb (Z.land nCompact (not32 0x007fffff) =? 0) then None
  else if negb (nSize <? 256) then None
  else
    let nCompact := Z.lor nCompact (wrap32 (Z.shiftl nSize 24)) in
    Some (Z.lor nCompact
            (if fNegative && negb (Z.land nCompact 0x007fffff =? 0) then 0x00800000 else 0)).

(** ** The value of the limbs *)

Definition modulus (n : nat) : Z := 2 ^ (32 * Z.of_nat n).

Lemma modulus_S n : modulus (S n) = 2 ^ 32 * modulus n.
Proof. unfold modulus. rewrite <- Z.pow_add_r by lia. f_equal. lia. Qed.

Lemma modulus_pos n : 0 < modulus n.
Proof. apply pow2_pos. lia. Qed.
#[local] Hint Resolve modulus_pos : word.

Lemma value_bound pn : Forall u32_ok pn → 0 <= value pn < modulus (length pn).
Proof.
  induction 1 as [|p ps [Hp0 Hp1] _ IH]; [done|].
  cbn [length value]. rewrite modulus_S. lia.
Qed.

Lemma value_inj a b :
  Forall u32_ok a → Forall u32_ok b → length a = length b → value a = value b → a = b.
Proof.
  intros Ha. revert b. induction Ha as [|p ps [Hp0 Hp1] Ha IH]; intros [|q qs] Hb Hl Hv;
    simplify_eq/=; [done|].
  apply Forall_cons_1 in Hb as [[Hq0 Hq1] Hb].
  assert (p = q ∧ value ps = value qs) as [-> ?] by lia.
  f_equal. by apply IH.
Qed.

Lemma value_replicate0 n : value (replicate n 0) = 0.
Proof. induction n; simpl; lia. Qed.

Lemma replicate0_ok n : Forall u32_ok (replicate n 0).
Proof. apply (Forall_replicate u32_ok). done. Qed.

(** Splitting a number at a limb boundary. *)
Lemma split_mod M n m :
  0 < M → n mod 2 ^ 32 + 2 ^ 32 * ((n / 2 ^ 32 + m) mod M) = (n + 2 ^ 32 * m) mod (2 ^ 32 * M).
Proof.
  intros HM. rewrite (Z.rem_mul_r (n + 2 ^ 32 * m)) by lia.
  rewrite (Z.mul_comm (2 ^ 32) m), Z.mod_add, Z.div_add by lia. done.
Qed.

Lemma land_ones32 n : Z.land n 0xffffffff = n mod 2 ^ 32.
Proof. change 0xffffffff with (Z.ones 32). by rewrite Z.land_ones. Qed.

Lemma land_ones32_ok n : u32_ok (Z.land n 0xffffffff).
Proof. rewrite land_ones32. by apply (wrap_fits 32). Qed.

Lemma shiftr32 n : Z.shiftr n 32 = n / 2 ^ 32.
Proof. by rewrite Z.shiftr_div_pow2. Qed.

Lemma mod_u32 n : u32_ok (n mod 2 ^ 32).
Proof. by apply (wrap_fits 32). Qed.
#[local] Hint Resolve land_ones32_ok mod_u32 : word.

Ltac u32 := unfold fits in *.

(** ** Addition and its relatives *)

Lemma bu_add_loop_ok c a b : Forall u32_ok (bu_add_loop c a b).
Proof. revert c b. induction a; intros c [|q qs]; simpl; auto using land_ones32_ok. Qed.

Lemma length_bu_add_loop c a b :
  length a = length b → length (bu_add_loop c a b) = length a.
Proof. revert c b. induction a; intros c [|q qs] ?; simplify_eq/=; auto. Qed.

Lemma value_bu_add_loop c a b :
  Forall u32_ok a → Forall u32_ok b → length a = length b → 0 <= c < 2 ^ 32 →
  value (bu_add_loop c a b) = (c + value a + value b) mod modulus (length a).
Proof.
  intros Ha. revert c b. induction Ha as [|p ps [Hp0 Hp1] Ha IH];
    intros c [|q qs] Hb Hl Hc; simplify_eq/=; [by rewrite Z.mod_1_r|].
  apply Forall_cons_1 in Hb as [[Hq0 Hq1] Hb].
  rewrite wrap_id by (split; lia). rewrite land_ones32, shiftr32.
  rewrite IH by (done || (split; [apply Z.div_pos|apply Z.div_lt_upper_bound]; lia)).
  rewrite modulus_S, <- (Z.add_assoc (_ / _)), split_mod by apply modulus_pos. f_equal. lia.
Qed.

Lemma value_bu_not a :
  Forall u32_ok a → value (bu_not a) = modulus (length a) - 1 - value a.
Proof.
  induction 1 as [|p ps [Hp0 Hp1] Ha IH]; [done|]. unfold bu_not in *.
  cbn [fmap list_fmap length value]. rewrite modulus_S, IH.
  assert (not32 p = 2 ^ 32 - 1 - p) as ->; [|lia]. unfold not32.
  change (2 ^ 32 - 1) with (Z.ones 32).
  rewrite Z.sub_nocarry_ldiff.
  - rewrite Z.lxor_comm. apply Z.bits_inj'. intros n Hn.
    rewrite Z.lxor_spec, Z.ldiff_spec. destruct (Z.lt_ge_cases n 32).
    + rewrite Z.ones_spec_low by lia. by destruct (Z.testbit p n).
    + rewrite Z.ones_spec_high, (testbit_fits 32 p n) by (done || lia). done.
  - apply Z.ldiff_ones_r_low; [done|].
    destruct (decide (p = 0)) as [->|]; [done|]. apply Z.log2_lt_pow2; lia.
Qed.

Lemma not32_ok p : u32_ok p → u32_ok (not32 p).
Proof. intros. by apply lxor_fits. Qed.

Lemma bu_not_ok a : Forall u32_ok a → Forall u32_ok (bu_not a).
Proof. induction 1; constructor; auto using not32_ok. Qed.

Lemma bu_inc_ok a : Forall u32_ok a → Forall u32_ok (bu_inc a).
Proof.
  induction 1; simpl; [done|]. constructor; [by apply wrap_fits|]. by case_match.
Qed.

Lemma length_bu_inc a : length (bu_inc a) = length a.
Proof. induction a; simpl; [done|]. case_match; auto. Qed.

Lemma value_bu_inc a :
  Forall u32_ok a → value (bu_inc a) = (value a + 1) mod modulus (length a).
Proof.
  induction 1 as [|p ps [Hp0 Hp1] Ha IH]; [done|]. cbn [bu_inc length value].
  pose proof (value_bound ps Ha). rewrite modulus_S. unfold wrap.
  destruct (decide (p = 2 ^ 32 - 1)) as [->|].
  - rewrite Z.sub_add, Z.mod_same, Z.eqb_refl, IH by lia. cbn [Z.add].
    replace (2 ^ 32 - 1 + 2 ^ 32 * value ps + 1) with (2 ^ 32 * (value ps + 1)) by lia.
    rewrite Z.mul_mod_distr_l; pose proof (modulus_pos (length ps)); lia.
  - rewrite (Z.mod_small (p + 1)) by lia. destruct (Z.eqb_spec (p + 1) 0); [lia|].
    rewrite Z.mod_small by lia. lia.
Qed.

Lemma value_bu_neg a :
  Forall u32_ok a → value (bu_neg a) = (- value a) mod modulus (length a).
Proof.
  intros Ha. unfold bu_neg. rewrite value_bu_inc, value_bu_not by auto using bu_not_ok.
  replace (length (bu_not a)) with (length a) by (unfold bu_not; by rewrite length_fmap).
  rewrite <- (Z.mod_add (- value a) 1) by (pose proof (modulus_pos (length a)); lia).
  f_equal. lia.
Qed.

Lemma bu_neg_wf a : limbs_wf a → limbs_wf (bu_neg a).
Proof.
  unfold bu_neg. intros [Hl Ha]. split; [|auto using bu_inc_ok, bu_not_ok].
  unfold bu_not. by rewrite length_bu_inc, length_fmap.
Qed.

Definition limbs_mod : Z := modulus WIDTH.

Lemma bu_add_wf a b : limbs_wf a → limbs_wf b → limbs_wf (bu_add a b).
Proof.
  unfold bu_add. intros [Hla Ha] [Hlb Hb].
  split; [rewrite length_bu_add_loop; congruence|apply bu_add_loop_ok].
Qed.

Lemma bu_sub_wf a b : limbs_wf a → limbs_wf b → limbs_wf (bu_sub a b).
Proof. intros. apply bu_add_wf; [done|]. by apply bu_neg_wf. Qed.

Lemma value_bu_add a b :
  limbs_wf a → limbs_wf b → value (bu_add a b) = (value a + value b) mod limbs_mod.
Proof.
  intros [Hla Ha] [Hlb Hb]. unfold bu_add. rewrite value_bu_add_loop by (done || lia || congruence).
  by rewrite Hla.
Qed.

Lemma value_bu_sub a b :
  limbs_wf a → limbs_wf b → value (bu_sub a b) = (value a - value b) mod limbs_mod.
Proof.
  intros Ha Hb. unfold bu_sub. rewrite value_bu_add by auto using bu_neg_wf.
  destruct Hb as [Hlb Hb]. rewrite value_bu_neg, Hlb by done.
  fold limbs_mod. rewrite Zplus_mod_idemp_r. f_equal.
Qed.

(** ** Multiplication *)

Lemma bu_mul32_loop_ok c b pn : Forall u32_ok (bu_mul32_loop c b pn).
Proof. revert c. induction pn; intros; simpl; auto using land_ones32_ok. Qed.

Lemma length_bu_mul32_loop c b pn : length (bu_mul32_loop c b pn) = length pn.
Proof. revert c. induction pn; intros; simpl; auto. Qed.

Lemma mul32_carry c b p q :
  0 <= c < 2 ^ 32 → u32_ok b → u32_ok p → u32_ok q → fits 64 (c + q + b * p).
Proof. u32. intros. change (2 ^ 64) with (2 ^ 32 * 2 ^ 32). split; nia. Qed.

Lemma value_bu_mul32_loop c b pn :
  Forall u32_ok pn → u32_ok b → 0 <= c < 2 ^ 32 →
  value (bu_mul32_loop c b pn) = (c + b * value pn) mod modulus (length pn).
Proof.
  intros Hp Hb. revert c. induction Hp as [|p ps Hp Hps IH]; intros c Hc;
    cbn [bu_mul32_loop value length]; [by rewrite Z.mod_1_r|].
  pose proof (mul32_carry c b p 0 Hc Hb Hp) as Hn. rewrite Z.add_0_r in Hn.
  specialize (Hn ltac:(done)).
  rewrite wrap_id by done. rewrite land_ones32, shiftr32. destruct Hn as [Hn0 Hn1].
  rewrite IH by (split; [apply Z.div_pos|apply Z.div_lt_upper_bound]; lia).
  rewrite modulus_S, split_mod by apply modulus_pos. f_equal. lia.
Qed.

Lemma bu_mul_row_ok c aj pn b : Forall u32_ok (bu_mul_row c aj pn b).
Proof. revert c b. induction pn; intros c [|q qs]; simpl; auto using land_ones32_ok. Qed.

Lemma length_bu_mul_row c aj pn b :
  (length pn <= length b)%nat → length (bu_mul_row c aj pn b) = length pn.
Proof. revert c b. induction pn; intros c [|q qs] ?; simplify_eq/=; try lia. by rewrite IHpn by lia. Qed.

Lemma value_bu_mul_row c aj pn b :
  Forall u32_ok pn → Forall u32_ok b → (length pn <= length b)%nat → u32_ok aj → 0 <= c < 2 ^ 32 →
  value (bu_mul_row c aj pn b) = (c + value pn + aj * value b) mod modulus (length pn).
Proof.
  intros Hp. revert c b. induction Hp as [|p ps Hp Hps IH]; intros c [|q qs] Hb Hl Haj Hc;
    cbn [bu_mul_row value length] in *; try lia; [by rewrite Z.mod_1_r..|].
  apply Forall_cons_1 in Hb as [Hq Hb].
  pose proof (mul32_carry c aj q p Hc Haj Hq Hp) as Hn.
  rewrite wrap_id by done. rewrite land_ones32, shiftr32. destruct Hn as [Hn0 Hn1].
  rewrite IH by (done || lia || (split; [apply Z.div_pos|apply Z.div_lt_upper_bound]; lia)).
  rewrite modulus_S, <- (Z.add_assoc (_ / _)), split_mod by apply modulus_pos. f_equal. lia.
Qed.

Lemma value_app l1 l2 : value (l1 ++ l2) = value l1 + modulus (length l1) * value l2.
Proof.
  induction l1 as [|p l1 IH]; [cbn [app value length]; change (modulus 0) with 1; lia|].
  cbn [app value length]. rewrite IH, modulus_S. lia.
Qed.

Lemma value_take_drop j pn :
  (j <= length pn)%nat → value pn = value (take j pn) + modulus j * value (drop j pn).
Proof.
  intros Hj. rewrite <- (take_drop j pn) at 1. rewrite value_app.
  by rewrite length_take_le by done.
Qed.

Lemma modulus_add m n : modulus (m + n) = modulus m * modulus n.
Proof. unfold modulus. rewrite <- Z.pow_add_r by lia. f_equal. lia. Qed.

Lemma value_bu_mul_loop j a pn b :
  Forall u32_ok a → Forall u32_ok pn → Forall u32_ok b →
  length b = length pn → (j + length a)%nat = length pn →
  Forall u32_ok (bu_mul_loop j a pn b) ∧ length (bu_mul_loop j a pn b) = length pn ∧
  value (bu_mul_loop j a pn b) mod modulus (length pn)
  = (value pn + modulus j * value a * value b) mod modulus (length pn).
Proof.
  intros Ha. revert j pn. induction Ha as [|aj a Haj Ha IH]; intros j pn Hpn Hb Hlb Hl;
    cbn [bu_mul_loop value length] in *; [split_and!; [done..|f_equal; lia]|].
  set (row := bu_mul_row 0 aj (drop j pn) b). set (pn' := take j pn ++ row).
  assert (length row = (length pn - j)%nat) as Hlr.
  { unfold row. rewrite length_bu_mul_row; rewrite length_drop; lia. }
  assert (length pn' = length pn) as Hlp.
  { unfold pn'. rewrite length_app, Hlr, length_take_le; lia. }
  assert (Forall u32_ok pn') as Hpn'.
  { apply Forall_app_2; [by apply Forall_take|apply bu_mul_row_ok]. }
  destruct (IH (S j) pn') as (IH1 & IH2 & IH3); [done|done|lia|lia|].
  split_and!; [done|lia|]. rewrite <- Hlp, IH3.
  assert (value pn' mod modulus (length pn) = (value pn + modulus j * aj * value b) mod modulus (length pn)) as Hv.
  { unfold pn', row. rewrite value_app, length_take_le by lia.
    rewrite value_bu_mul_row by (try apply Forall_drop; rewrite ?length_drop; done || lia).
    rewrite length_drop, Z.add_0_l.
    assert (modulus (length pn) = modulus j * modulus (length pn - j)) as ->
      by (rewrite <- modulus_add; f_equal; lia).
    rewrite (value_take_drop j pn) by lia.
    rewrite <- Zplus_mod_idemp_r.
    rewrite Z.mul_mod_distr_l by (pose proof (modulus_pos (length pn - j)); pose proof (modulus_pos j); lia).
    rewrite Zmod_mod, <- Z.mul_mod_distr_l by (pose proof (modulus_pos (length pn - j)); pose proof (modulus_pos j); lia).
    rewrite Zplus_mod_idemp_r. f_equal. lia. }
  rewrite Hlp, <- Zplus_mod_idemp_l, Hv, Zplus_mod_idemp_l, modulus_S. f_equal. lia.
Qed.

Lemma bu_mul_spec a b :
  limbs_wf a → limbs_wf b →
  limbs_wf (bu_mul a b) ∧ value (bu_mul a b) = (value a * value b) mod limbs_mod.
Proof.
  intros [Hla Ha] [Hlb Hb].
  pose proof (value_bu_mul_loop 0 a (replicate (length a) 0) b Ha (replicate0_ok _) Hb) as H.
  rewrite length_replicate, value_replicate0 in H.
  destruct H as (H1 & H2 & H3); [congruence|done|]. fold (bu_mul a b) in *.
  pose proof (value_bound _ H1) as Hbd. rewrite H2 in Hbd. rewrite Hla in *.
  split; [done|]. rewrite Z.mod_small in H3 by done. rewrite H3.
  unfold limbs_mod. f_equal. change (modulus 0) with 1. lia.
Qed.

Lemma bu_mul_wf a b : limbs_wf a → limbs_wf b → limbs_wf (bu_mul a b).
Proof. apply bu_mul_spec. Qed.

Lemma value_bu_mul a b :
  limbs_wf a → limbs_wf b → value (bu_mul a b) = (value a * value b) mod limbs_mod.
Proof. apply bu_mul_spec. Qed.

Lemma value_bu_mul32 a b :
  limbs_wf a → u32_ok b → value (bu_mul32 a b) = (value a * b) mod limbs_mod.
Proof.
  intros [Hla Ha] Hb. unfold bu_mul32. rewrite value_bu_mul32_loop by (done || lia).
  rewrite Hla. unfold limbs_mod. f_equal. lia.
Qed.

Lemma bu_mul32_wf a b : limbs_wf a → limbs_wf (bu_mul32 a b).
Proof. intros [Hl Ha]. split; [by rewrite <- Hl; apply length_bu_mul32_loop|apply bu_mul32_loop_ok]. Qed.

(** ** Shifts *)

Lemma limb_ok pn i : Forall u32_ok pn → u32_ok (limb pn i).
Proof.
  intros Hp. unfold limb. destruct (pn !! i) eqn:E; [|simpl; u32; lia]. simpl.
  rewrite Forall_lookup in Hp. by eapply Hp.
Qed.

Lemma testbit_value pn q b :
  Forall u32_ok pn → 0 <= b < 32 →
  Z.testbit (value pn) (32 * Z.of_nat q + b) = Z.testbit (limb pn q) b.
Proof.
  intros Hp Hb. revert q. induction Hp as [|p ps Hp Hps IH]; intros q.
  { unfold limb. cbn [value]. rewrite lookup_nil. by rewrite !Z.bits_0. }
  cbn [value]. rewrite Z.mul_comm, <- lor_add_disjoint by (done || lia).
  rewrite Z.lor_spec. destruct q as [|q].
  - rewrite Z.shiftl_spec_low by lia. rewrite orb_false_r. done.
  - rewrite (testbit_fits 32 p) by (done || lia). rewrite Z.shiftl_spec by lia.
    replace (32 * Z.of_nat (S q) + b - 32) with (32 * Z.of_nat q + b) by lia. apply IH.
Qed.

Lemma limb_or_at i x pn j :
  limb (or_at i x pn) j =
  if ((i =? j) && (j <? length pn))%nat then Z.lor (limb pn j) x else limb pn j.
Proof.
  unfold or_at, limb. destruct (Nat.eqb_spec i j) as [->|]; simpl.
  - destruct (Nat.ltb_spec j (length pn)).
    + by rewrite list_lookup_insert_eq.
    + rewrite list_insert_ge by lia. done.
  - by rewrite list_lookup_insert_ne.
Qed.

Lemma length_or_at i x pn : length (or_at i x pn) = length pn.
Proof. apply length_insert. Qed.

Lemma limb_replicate0 n j : limb (replicate n 0) j = 0.
Proof.
  unfold limb. destruct (replicate n 0 !! j) eqn:E; [|done].
  apply lookup_replicate in E as [-> _]. done.
Qed.

Lemma value_ext_bits a (v : Z) :
  Forall u32_ok a → 0 <= v < modulus (length a) →
  (∀ q b, (q < length a)%nat → 0 <= b < 32 → Z.testbit (limb a q) b = Z.testbit v (32 * Z.of_nat q + b)) →
  value a = v.
Proof.
  intros Ha Hv Hbits. apply Z.bits_inj'. intros n Hn.
  pose proof (Z.div_mod n 32 ltac:(lia)). pose proof (Z.mod_pos_bound n 32 ltac:(lia)).
  pose proof (Z.div_pos n 32 ltac:(lia) ltac:(lia)).
  replace n with (32 * Z.of_nat (Z.to_nat (n / 32)) + n mod 32) by lia.
  destruct (decide (Z.to_nat (n / 32) < length a)%nat).
  - rewrite testbit_value by done. by apply Hbits.
  - rewrite !(testbit_fits (32 * Z.of_nat (length a))) by (try done; try apply value_bound; done || lia). done.
Qed.

(** The limbs after [i] iterations of the two shift loops. *)
Definition shl_inv (a : limbs) (k : nat) (sh : Z) (i : nat) (pn : limbs) : Prop :=
  length pn = length a ∧ ∀ j, (j < length a)%nat → limb pn j =
    Z.lor (if ((k + 1 <=? j) && (j <? i + k + 1))%nat then shr32 (limb a (j - k - 1)) (32 - sh) else 0)
          (if ((k <=? j) && (j <? i + k))%nat then shl32 (limb a (j - k)) sh else 0).

Definition shr_inv (a : limbs) (k : nat) (sh : Z) (i : nat) (pn : limbs) : Prop :=
  length pn = length a ∧ ∀ j, (j < length a)%nat → limb pn j =
    Z.lor (if (j + k + 1 <? i)%nat then shl32 (limb a (j + k + 1)) (32 - sh) else 0)
          (if (j + k <? i)%nat then shr32 (limb a (j + k)) sh else 0).

Lemma shr32_32 p : u32_ok p → shr32 p 32 = 0.
Proof. u32. intros. unfold shr32. rewrite shiftr32. apply Z.div_small. lia. Qed.

Lemma shl32_32 p : shl32 p 32 = 0.
Proof.
  unfold shl32, wrap. rewrite Z.shiftl_mul_pow2 by lia. apply Z.mod_mul. lia.
Qed.

Ltac nat_cases :=
  repeat match goal with
  | |- context [(?x =? ?y)%nat] => destruct (Nat.eqb_spec x y)
  | |- context [(?x <=? ?y)%nat] => destruct (Nat.leb_spec x y)
  | |- context [(?x <? ?y)%nat] => destruct (Nat.ltb_spec x y)
  end.

Lemma limb_shl_step a k sh i pn j :
  Forall u32_ok a → length pn = length a → (i < length a)%nat → (j < length a)%nat →
  limb (bu_shl_step a k sh i pn) j =
    if (i + k + 1 =? j)%nat then Z.lor (limb pn j) (shr32 (limb a i) (32 - sh))
    else if (i + k =? j)%nat then Z.lor (limb pn j) (shl32 (limb a i) sh) else limb pn j.
Proof.
  intros Ha Hl Hi Hj. pose proof (shr32_32 _ (limb_ok a i Ha)). unfold bu_shl_step.
  destruct (Z.eqb_spec sh 0) as [->|]; rewrite ?andb_false_r, ?andb_true_r; simpl;
    nat_cases; rewrite ?limb_or_at, ?length_or_at, ?Hl in *;
    nat_cases; simpl; rewrite ?Z.sub_0_r, ?H, ?Z.lor_0_r; done || lia.
Qed.

Lemma shl_loop_inv a k sh :
  Forall u32_ok a →
  shl_inv a k sh (length a) (for_range 0 (length a) (bu_shl_step a k sh) (replicate (length a) 0)).
Proof.
  intros Ha. apply (for_range_ind (λ i, shl_inv a k sh i)).
  - split; [apply length_replicate|]. intros j Hj. rewrite limb_replicate0.
    nat_cases; simpl; done || lia.
  - intros i pn Hi [Hl Hpn].
    split; [unfold bu_shl_step; repeat case_match; by rewrite ?length_or_at|].
    intros j Hj. rewrite limb_shl_step, Hpn by (done || lia).
    destruct (Nat.eqb_spec (i + k + 1) j) as [<-|]; [|destruct (Nat.eqb_spec (i + k) j) as [<-|]];
      nat_cases; simpl; try lia; rewrite ?Z.lor_0_r, ?Z.lor_0_l; apply Z.lor_comm || (repeat f_equal; lia).
Qed.

Lemma limb_shr_step a k sh i pn j :
  length pn = length a → (i < length a)%nat → (j < length a)%nat →
  limb (bu_shr_step a k sh i pn) j =
    if (j + k + 1 =? i)%nat then Z.lor (limb pn j) (shl32 (limb a i) (32 - sh))
    else if (j + k =? i)%nat then Z.lor (limb pn j) (shr32 (limb a i) sh) else limb pn j.
Proof.
  intros Hl Hi Hj. pose proof (shl32_32 (limb a i)). unfold bu_shr_step.
  destruct (Z.eqb_spec sh 0) as [->|]; rewrite ?andb_false_r, ?andb_true_r; simpl;
    nat_cases; rewrite ?limb_or_at, ?length_or_at, ?Hl in *;
    nat_cases; simpl; rewrite ?Z.sub_0_r, ?H, ?Z.lor_0_r; done || lia.
Qed.

Lemma shr_loop_inv a k sh :
  shr_inv a k sh (length a) (for_range 0 (length a) (bu_shr_step a k sh) (replicate (length a) 0)).
Proof.
  apply (for_range_ind (λ i, shr_inv a k sh i)).
  - split; [apply length_replicate|]. intros j Hj. by rewrite limb_replicate0.
  - intros i pn Hi [Hl Hpn].
    split; [unfold bu_shr_step; repeat case_match; by rewrite ?length_or_at|].
    intros j Hj. rewrite limb_shr_step, Hpn by (done || lia).
    destruct (Nat.eqb_spec (j + k + 1) i) as [<-|]; [|destruct (Nat.eqb_spec (j + k) i) as [<-|]];
      nat_cases; simpl; try lia; rewrite ?Z.lor_0_r, ?Z.lor_0_l; apply Z.lor_comm || (repeat f_equal; lia).
Qed.

Lemma shl32_ok p n : u32_ok (shl32 p n).
Proof. by apply wrap_fits. Qed.

Lemma shr32_ok p n : 0 <= n → u32_ok p → u32_ok (shr32 p n).
Proof. intros. by apply shiftr_fits. Qed.

Lemma Forall_limbs pn : (∀ j, (j < length pn)%nat → u32_ok (limb pn j)) → Forall u32_ok pn.
Proof.
  intros H. apply Forall_lookup. intros i x Hx. pose proof (lookup_lt_Some _ _ _ Hx) as Hi.
  specialize (H i Hi). unfold limb in H. by rewrite Hx in H.
Qed.

Lemma u32_0 : u32_ok 0.
Proof. u32. lia. Qed.

Lemma bu_shl_ok a s : Forall u32_ok a → Forall u32_ok (bu_shl a s) ∧ length (bu_shl a s) = length a.
Proof.
  intros Ha. destruct (shl_loop_inv a (Z.to_nat (s / 32)) (s mod 32) Ha) as [Hl Hj].
  fold (bu_shl a s) in *. split; [|done]. apply Forall_limbs. rewrite Hl. intros j Hlt.
  rewrite Hj by done. pose proof (Z.mod_pos_bound s 32 ltac:(lia)).
  apply lor_fits; [lia|..]; case_match; auto using u32_0, shl32_ok.
  apply shr32_ok; [lia|]. by apply limb_ok.
Qed.

Lemma bu_shr_ok a s : Forall u32_ok a → Forall u32_ok (bu_shr a s) ∧ length (bu_shr a s) = length a.
Proof.
  intros Ha. destruct (shr_loop_inv a (Z.to_nat (s / 32)) (s mod 32)) as [Hl Hj].
  fold (bu_shr a s) in *. split; [|done]. apply Forall_limbs. rewrite Hl. intros j Hlt.
  rewrite Hj by done. pose proof (Z.mod_pos_bound s 32 ltac:(lia)).
  apply lor_fits; [lia|..]; case_match; auto using u32_0, shl32_ok.
  apply shr32_ok; [lia|]. by apply limb_ok.
Qed.

Lemma testbit_shl32 p n b : 0 <= b < 32 → Z.testbit (shl32 p n) b = Z.testbit p (b - n).
Proof.
  intros Hb. unfold shl32, wrap. rewrite Z.mod_pow2_bits_low by lia. apply Z.shiftl_spec. lia.
Qed.

Lemma testbit_shr32 p n b : 0 <= b → Z.testbit (shr32 p n) b = Z.testbit p (b + n).
Proof. apply Z.shiftr_spec. Qed.

Lemma value_bu_shl a s :
  Forall u32_ok a → 0 <= s → value (bu_shl a s) = (value a * 2 ^ s) mod modulus (length a).
Proof.
  intros Ha Hs. destruct (bu_shl_ok a s Ha) as [Hok Hlen].
  destruct (shl_loop_inv a (Z.to_nat (s / 32)) (s mod 32) Ha) as [_ Hj].
  fold (bu_shl a s) in Hj. set (k := Z.to_nat (s / 32)) in *. set (sh := s mod 32) in *.
  assert (s = 32 * Z.of_nat k + sh ∧ 0 <= sh < 32) as [Hks Hsh].
  { pose proof (Z.div_mod s 32 ltac:(lia)). pose proof (Z.mod_pos_bound s 32 ltac:(lia)).
    pose proof (Z.div_pos s 32 ltac:(lia) ltac:(lia)). subst k sh. lia. }
  apply value_ext_bits; [done|rewrite Hlen; apply Z.mod_pos_bound, modulus_pos|].
  rewrite Hlen. intros q b Hq Hb. rewrite Hj by done. unfold modulus.
  rewrite Z.mod_pow2_bits_low, Z.mul_pow2_bits by lia. rewrite Z.lor_spec.
  destruct (Z.lt_ge_cases b sh) as [Hlt|Hge].
  - assert (Z.testbit (if ((k <=? q) && (q <? length a + k))%nat then shl32 (limb a (q - k)) sh else 0) b = false) as ->.
    { case_match; [|apply Z.bits_0]. rewrite testbit_shl32 by done. apply Z.testbit_neg_r. lia. }
    rewrite orb_false_r. destruct (Nat.leb_spec (k + 1) q); simpl.
    + destruct (Nat.ltb_spec q (length a + k + 1)); [|lia]. rewrite testbit_shr32 by lia.
      replace (32 * Z.of_nat q + b - s) with (32 * Z.of_nat (q - k - 1) + (b + (32 - sh))) by lia.
      by rewrite testbit_value by (done || lia).
    + rewrite Z.bits_0. symmetry. apply Z.testbit_neg_r. lia.
  - assert (Z.testbit (if ((k + 1 <=? q) && (q <? length a + k + 1))%nat
                       then shr32 (limb a (q - k - 1)) (32 - sh) else 0) b = false) as ->.
    { case_match; [|apply Z.bits_0]. rewrite testbit_shr32 by lia.
      apply (testbit_fits 32); [by apply limb_ok|lia]. }
    rewrite orb_false_l. destruct (Nat.leb_spec k q); simpl.
    + destruct (Nat.ltb_spec q (length a + k)); [|lia]. rewrite testbit_shl32 by lia.
      replace (32 * Z.of_nat q + b - s) with (32 * Z.of_nat (q - k) + (b - sh)) by lia.
      by rewrite testbit_value by (done || lia).
    + rewrite Z.bits_0. symmetry. apply Z.testbit_neg_r. lia.
Qed.

Lemma value_bu_shr a s :
  Forall u32_ok a → 0 <= s → value (bu_shr a s) = value a / 2 ^ s.
Proof.
  intros Ha Hs. destruct (bu_shr_ok a s Ha) as [Hok Hlen].
  destruct (shr_loop_inv a (Z.to_nat (s / 32)) (s mod 32)) as [_ Hj].
  fold (bu_shr a s) in Hj. set (k := Z.to_nat (s / 32)) in *. set (sh := s mod 32) in *.
  assert (s = 32 * Z.of_nat k + sh ∧ 0 <= sh < 32) as [Hks Hsh].
  { pose proof (Z.div_mod s 32 ltac:(lia)). pose proof (Z.mod_pos_bound s 32 ltac:(lia)).
    pose proof (Z.div_pos s 32 ltac:(lia) ltac:(lia)). subst k sh. lia. }
  pose proof (value_bound a Ha) as Hv. pose proof (pow2_pos s Hs).
  apply value_ext_bits; [done|rewrite Hlen; split; [apply Z.div_pos; lia|apply Z.div_lt_upper_bound; nia]|].
  rewrite Hlen. intros q b Hq Hb. rewrite Hj by done.
  rewrite <- Z.shiftr_div_pow2, Z.shiftr_spec by lia. rewrite Z.lor_spec.
  destruct (Z.lt_ge_cases (b + sh) 32) as [Hlt|Hge].
  - assert (Z.testbit (if (q + k + 1 <? length a)%nat then shl32 (limb a (q + k + 1)) (32 - sh) else 0) b
            = false) as ->.
    { case_match; [|apply Z.bits_0]. rewrite testbit_shl32 by done. apply Z.testbit_neg_r. lia. }
    rewrite orb_false_l.
    replace (32 * Z.of_nat q + b + s) with (32 * Z.of_nat (q + k) + (b + sh)) by lia.
    rewrite testbit_value by (done || lia). destruct (Nat.ltb_spec (q + k) (length a)).
    + apply testbit_shr32. lia.
    + unfold limb. rewrite lookup_ge_None_2 by lia. by rewrite !Z.bits_0.
  - assert (Z.testbit (if (q + k <? length a)%nat then shr32 (limb a (q + k)) sh else 0) b = false) as ->.
    { case_match; [|apply Z.bits_0]. rewrite testbit_shr32 by lia.
      apply (testbit_fits 32); [by apply limb_ok|lia]. }
    rewrite orb_false_r.
    replace (32 * Z.of_nat q + b + s) with (32 * Z.of_nat (q + k + 1) + (b + sh - 32)) by lia.
    rewrite testbit_value by (done || lia). destruct (Nat.ltb_spec (q + k + 1) (length a)).
    + rewrite testbit_shl32 by lia. f_equal. lia.
    + unfold limb. rewrite lookup_ge_None_2 by lia. by rewrite !Z.bits_0.
Qed.

Lemma bu_shl_wf a s : limbs_wf a → limbs_wf (bu_shl a s).
Proof. intros [Hl Ha]. destruct (bu_shl_ok a s Ha). split; congruence. Qed.

Lemma bu_shr_wf a s : limbs_wf a → limbs_wf (bu_shr a s).
Proof. intros [Hl Ha]. destruct (bu_shr_ok a s Ha). split; congruence. Qed.

(** ** Comparison *)

Lemma value_snoc l p : value (l ++ [p]) = value l + modulus (length l) * p.
Proof. rewrite value_app. cbn [value]. lia. Qed.

Lemma bu_compare_loop_spec n a b :
  Forall u32_ok a → Forall u32_ok b → (n <= length a)%nat → (n <= length b)%nat →
  bu_compare_loop n a b =
    match value (take n a) ?= value (take n b) with Lt => -1 | Eq => 0 | Gt => 1 end.
Proof.
  intros Ha Hb. induction n as [|n IH]; intros Hna Hnb; [by rewrite !take_0|].
  destruct (lookup_lt_is_Some_2 a n) as [x Hx]; [lia|].
  destruct (lookup_lt_is_Some_2 b n) as [y Hy]; [lia|].
  assert (limb a n = x ∧ limb b n = y) as [Hlx Hly] by (unfold limb; by rewrite Hx, Hy).
  cbn [bu_compare_loop]. rewrite Hlx, Hly.
  rewrite (take_S_r a n x), (take_S_r b n y), !value_snoc by done.
  rewrite !length_take_le by lia.
  pose proof (value_bound (take n a) ltac:(by apply Forall_take)) as Hba.
  pose proof (value_bound (take n b) ltac:(by apply Forall_take)) as Hbb.
  rewrite length_take_le in Hba, Hbb by lia.
  pose proof (modulus_pos n).
  rewrite Z.gtb_ltb. destruct (Z.ltb_spec x y) as [Hxy|Hxy].
  { assert (value (take n a) + modulus n * x < value (take n b) + modulus n * y)
      as ->%Z.compare_lt_iff by nia. done. }
  destruct (Z.ltb_spec y x) as [Hyx|Hyx].
  { assert (value (take n a) + modulus n * x > value (take n b) + modulus n * y) as -> by nia. done. }
  assert (x = y) as -> by lia. rewrite IH by lia. by rewrite !(Z.add_comm _ (modulus n * y)), Z.add_compare_mono_l.
Qed.

Lemma bu_CompareTo_spec a b :
  limbs_wf a → limbs_wf b →
  bu_CompareTo a b = match value a ?= value b with Lt => -1 | Eq => 0 | Gt => 1 end.
Proof.
  intros [Hla Ha] [Hlb Hb]. unfold bu_CompareTo.
  rewrite bu_compare_loop_spec by (done || lia).
  rewrite (take_ge a), (take_ge b) by lia. done.
Qed.

Lemma bu_gt_spec a b : limbs_wf a → limbs_wf b → bu_gt a b = (value a >? value b).
Proof.
  intros. unfold bu_gt. rewrite bu_CompareTo_spec by done.
  destruct (Z.compare_spec (value a) (value b)); lia.
Qed.
Lemma bu_lt_spec a b : limbs_wf a → limbs_wf b → bu_lt a b = (value a <? value b).
Proof.
  intros. unfold bu_lt. rewrite bu_CompareTo_spec by done.
  destruct (Z.compare_spec (value a) (value b)); lia.
Qed.
Lemma bu_ge_spec a b : limbs_wf a → limbs_wf b → bu_ge a b = (value a >=? value b).
Proof.
  intros. unfold bu_ge. rewrite bu_CompareTo_spec by done.
  destruct (Z.compare_spec (value a) (value b)); lia.
Qed.
Lemma bu_le_spec a b : limbs_wf a → limbs_wf b → bu_le a b = (value a <=? value b).
Proof.
  intros. unfold bu_le. rewrite bu_CompareTo_spec by done.
  destruct (Z.compare_spec (value a) (value b)); lia.
Qed.

(** ** Bit length *)

(** The bit length of a number, as [bits()] documents it. *)
Definition bitlen (v : Z) : Z := if v =? 0 then 0 else Z.log2 v + 1.

Lemma bitlen_nonneg v : 0 <= bitlen v.
Proof. unfold bitlen. pose proof (Z.log2_nonneg v). case_match; lia. Qed.

Lemma bitlen_le v n : 0 <= v → 0 <= n → bitlen v <= n ↔ v < 2 ^ n.
Proof.
  intros Hv Hn. unfold bitlen. destruct (Z.eqb_spec v 0) as [->|].
  - pose proof (pow2_pos n Hn). lia.
  - rewrite Z.log2_lt_pow2 by lia. lia.
Qed.

Lemma bu_bits_word_spec n w :
  0 < w < 2 ^ (Z.of_nat n + 1) → bu_bits_word n w = Z.log2 w + 1.
Proof.
  induction n as [|n IH]; intros [H0 H1].
  - change (2 ^ (Z.of_nat 0 + 1)) with 2 in H1. assert (w = 1) as -> by lia. done.
  - cbn [bu_bits_word]. rewrite land_pow2 by lia.
    destruct (Z.testbit w (Z.of_nat (S n))) eqn:E.
    + f_equal. symmetry. apply Z.log2_unique; [lia|]. split; [|done].
      destruct (Z.lt_ge_cases w (2 ^ Z.of_nat (S n))); [|done].
      rewrite (testbit_fits (Z.of_nat (S n))) in E by (done || (split; lia)). done.
    + apply IH. split; [done|].
      replace (Z.of_nat n + 1) with (Z.of_nat (S n)) by lia.
      destruct (Z.lt_ge_cases w (2 ^ Z.of_nat (S n))); [done|].
      assert (Z.log2 w = Z.of_nat (S n)) as Hl by (apply Z.log2_unique; lia).
      rewrite <- Hl, Z.bit_log2 in E by done. done.
Qed.

Lemma bu_bits_loop_spec n pn :
  Forall u32_ok pn → (n <= length pn)%nat → bu_bits_loop n pn = bitlen (value (take n pn)).
Proof.
  intros Hp. induction n as [|n IH]; intros Hn; [done|].
  destruct (lookup_lt_is_Some_2 pn n) as [x Hx]; [lia|].
  assert (limb pn n = x) as Hlx by (unfold limb; by rewrite Hx).
  pose proof (limb_ok pn n Hp) as Hxb. rewrite Hlx in Hxb.
  cbn [bu_bits_loop]. rewrite Hlx, (take_S_r pn n x), value_snoc, length_take_le by (done || lia).
  destruct (Z.eqb_spec x 0) as [->|Hx0]; simpl negb.
  - rewrite IH by lia. f_equal. lia.
  - u32. rewrite bu_bits_word_spec by (split; [lia|apply Hxb]).
    pose proof (value_bound (take n pn) ltac:(by apply Forall_take)) as Hv.
    rewrite length_take_le in Hv by lia. unfold bitlen.
    destruct (Z.eqb_spec (value (take n pn) + modulus n * x) 0); [nia|].
    rewrite Z.add_assoc. f_equal. symmetry. unfold modulus in *.
    pose proof (Z.log2_spec x ltac:(lia)) as Hlog. pose proof (Z.log2_nonneg x).
    apply Z.log2_unique; [lia|].
    rewrite Z.pow_succ_r, Z.pow_add_r by lia. rewrite Z.pow_succ_r in Hlog by lia. nia.
Qed.

Lemma bu_bits_spec pn : Forall u32_ok pn → bu_bits pn = bitlen (value pn).
Proof.
  intros Hp. unfold bu_bits. rewrite bu_bits_loop_spec by (done || lia).
  by rewrite take_ge by lia.
Qed.

(** ** Conversions with 64-bit integers *)

Lemma bu_of_u64_wf b : limbs_wf (bu_of_u64 b).
Proof.
  split; [done|]. unfold bu_of_u64. constructor; [by apply wrap_fits|].
  constructor; [by apply wrap_fits|]. apply replicate0_ok.
Qed.

Lemma value_bu_of_u64 b : fits 64 b → value (bu_of_u64 b) = b.
Proof.
  intros Hb. unfold bu_of_u64. cbn [value]. rewrite value_replicate0, shiftr32.
  unfold wrap. rewrite (Z.mod_small (b / 2 ^ 32)).
  - pose proof (Z.div_mod b (2 ^ 32)). lia.
  - u32. split; [apply Z.div_pos|apply Z.div_lt_upper_bound]; lia.
Qed.

Lemma bu_zero_wf : limbs_wf bu_zero.
Proof. split; [done|apply replicate0_ok]. Qed.

Lemma bu_GetLow64_spec pn : limbs_wf pn → bu_GetLow64 pn = value pn mod 2 ^ 64.
Proof.
  intros [Hl Hp]. destruct pn as [|p0 [|p1 ps]]; [done..|].
  apply Forall_cons_1 in Hp as [Hp0 Hp]. apply Forall_cons_1 in Hp as [Hp1 Hp].
  unfold bu_GetLow64, limb. cbn [lookup list_lookup from_option value id].
  u32. rewrite wrap_id by (rewrite Z.shiftl_mul_pow2 by lia; split; lia).
  rewrite lor_add_disjoint by (done || lia).
  replace (p0 + 2 ^ 32 * (p1 + 2 ^ 32 * value ps)) with (p0 + p1 * 2 ^ 32 + value ps * 2 ^ 64) by lia.
  rewrite Z.mod_add, Z.mod_small by lia. done.
Qed.

Lemma bu_EqualTo_spec pn b : limbs_wf pn → fits 64 b → bu_EqualTo pn b = (value pn =? b).
Proof.
  intros [Hl Hp] Hb. destruct pn as [|p0 [|p1 ps]]; [done..|].
  apply Forall_cons_1 in Hp as [Hp0 Hp]. apply Forall_cons_1 in Hp as [Hp1 Hp].
  unfold bu_EqualTo, limb. change (drop 2 (p0 :: p1 :: ps)) with ps. cbn [lookup list_lookup from_option value id].
  rewrite shiftr32, land_ones32. pose proof (Z.div_mod b (2 ^ 32) ltac:(lia)).
  pose proof (Z.mod_pos_bound b (2 ^ 32) ltac:(lia)).
  assert (forallb (λ p, p =? 0) ps = (value ps =? 0)) as ->.
  { clear -Hp. induction Hp as [|p ps Hp Hps IH]; [done|]. cbn [forallb value]. rewrite IH.
    pose proof (value_bound ps Hps). u32. lia. }
  pose proof (value_bound ps Hp). u32.
  destruct (Z.eqb_spec (value ps) 0) as [->|]; simpl; [lia|]. symmetry. apply Z.eqb_neq. nia.
Qed.

(** ** Division *)

Lemma or_at_ok i x pn : u32_ok x → Forall u32_ok pn → Forall u32_ok (or_at i x pn).
Proof.
  intros Hx Hp. unfold or_at. apply Forall_repl; [|done].
  apply lor_fits; [lia| |done]. by apply limb_ok.
Qed.

Lemma pow2_bit_ok s : 0 <= s → u32_ok (wrap32 (Z.shiftl 1 (Z.land s 31))).
Proof. intros. by apply wrap_fits. Qed.

Lemma pow2_fits s w : 0 <= s < w → fits w (2 ^ s).
Proof. intros. split; [apply Z.pow_nonneg; lia|apply Z.pow_lt_mono_r; lia]. Qed.

Lemma land31 s : Z.land s 31 = s mod 32.
Proof. change 31 with (Z.ones 5). by rewrite Z.land_ones. Qed.

(** Setting bit [s] of the quotient, when its bits up to [s] are still clear. *)
Lemma value_set_bit pn s m :
  Forall u32_ok pn → 0 <= s < 32 * Z.of_nat (length pn) → value pn = m * 2 ^ (s + 1) →
  value (or_at (Z.to_nat (s / 32)) (wrap32 (Z.shiftl 1 (Z.land s 31))) pn) = value pn + 2 ^ s.
Proof.
  intros Hp Hs Hm. pose proof (Z.mod_pos_bound s 32 ltac:(lia)) as Hb.
  pose proof (Z.div_mod s 32 ltac:(lia)) as Hdm. pose proof (Z.div_pos s 32 ltac:(lia) ltac:(lia)).
  assert (Z.lor (2 ^ s) (value pn) = value pn + 2 ^ s) as <-.
  { rewrite Hm, <- Z.shiftl_mul_pow2, lor_add_disjoint by (lia || (apply pow2_fits; lia)).
    rewrite Z.shiftl_mul_pow2 by lia. lia. }
  pose proof (value_bound pn Hp). apply value_ext_bits.
  - apply or_at_ok; [|done]. apply pow2_bit_ok. lia.
  - rewrite length_or_at. unfold modulus in *. apply lor_fits; [lia| |done].
    apply pow2_fits; lia.
  - rewrite length_or_at. intros q b Hq Hb'. rewrite limb_or_at, Z.lor_spec, testbit_value by done.
    rewrite land31, Z.shiftl_1_l, wrap_id by (apply pow2_fits; lia).
    rewrite orb_comm. nat_cases; simpl; try lia.
    + rewrite Z.lor_spec, !Z.pow2_bits_eqb by lia. f_equal. lia.
    + rewrite Z.pow2_bits_false by lia. by rewrite orb_false_r.
Qed.

(** Before the iteration for [shift = n - 1]: [value pn * B + num = A], the low
    [n] bits of the quotient are clear, and [div = B * 2^(n-1)]. *)
Definition div_inv (A B : Z) (n : nat) (s : limbs * limbs * limbs) : Prop :=
  let '(pn, num, div) := s in
  limbs_wf pn ∧ limbs_wf num ∧ limbs_wf div ∧
  value pn * B + value num = A ∧ value num < B * 2 ^ Z.of_nat n ∧
  (∃ m, value pn = m * 2 ^ Z.of_nat n) ∧ ((0 < n)%nat → value div = B * 2 ^ (Z.of_nat n - 1)).

Lemma bu_div_step_inv A B n s :
  0 < B → (S n <= 256)%nat → div_inv A B (S n) s → div_inv A B n (bu_div_step (Z.of_nat n) s).
Proof.
  intros HB Hn. destruct s as [[pn num] div]. intros (Hpn & Hnum & Hdiv & HA & Hlt & [m Hm] & Hd).
  specialize (Hd ltac:(lia)). replace (Z.of_nat (S n) - 1) with (Z.of_nat n) in Hd by lia.
  rewrite Nat2Z.inj_succ, Z.pow_succ_r in * by lia.
  pose proof (pow2_pos (Z.of_nat n) ltac:(lia)) as HP.
  assert ((0 < n)%nat → value (bu_shr div 1) = B * 2 ^ (Z.of_nat n - 1)) as Hd'.
  { intros Hn'. destruct Hdiv. rewrite value_bu_shr, Hd by (done || lia).
    replace (2 ^ Z.of_nat n) with (2 ^ (Z.of_nat n - 1) * 2 ^ 1)
      by (rewrite <- Z.pow_add_r by lia; f_equal; lia).
    rewrite Z.mul_assoc. apply Z.div_mul. done. }
  cbn [bu_div_step]. rewrite bu_ge_spec, Z.geb_leb by done.
  destruct (Z.leb_spec (value div) (value num)) as [Hge|Hge]; cbn [div_inv].
  - destruct Hpn as [Hlpn Hpn]. pose proof (value_bound num (proj2 Hnum)) as Hbn.
    rewrite (proj1 Hnum) in Hbn. fold limbs_mod in Hbn.
    assert (value (bu_sub num div) = value num - value div) as Hs.
    { rewrite value_bu_sub by done. apply Z.mod_small. lia. }
    rewrite (value_set_bit pn (Z.of_nat n) m), Hs by
      (try done; try (rewrite Hlpn; change WIDTH with 8%nat; lia);
       rewrite Hm, Z.pow_add_r by lia; lia).
    split_and!; [split; [by rewrite length_or_at|apply or_at_ok; [apply pow2_bit_ok; lia|done]]
      |by apply bu_sub_wf|by apply bu_shr_wf|nia|nia| |done].
    exists (2 * m + 1). lia.
  - split_and!; [done|done|by apply bu_shr_wf|done|lia| |done]. exists (2 * m). lia.
Qed.

Lemma bu_div_loop_inv A B n s :
  0 < B → (n <= 256)%nat → div_inv A B n s → div_inv A B 0 (bu_div_loop n s).
Proof.
  intros HB. revert s. induction n as [|n IH]; intros s Hn Hs; [done|].
  cbn [bu_div_loop]. apply IH; [lia|]. by apply bu_div_step_inv.
Qed.

Lemma limbs_mod_eq : limbs_mod = 2 ^ 256.
Proof. done. Qed.

Lemma limbs_wf_bound a : limbs_wf a → 0 <= value a < 2 ^ 256.
Proof. intros [Hl Ha]. pose proof (value_bound a Ha) as H. by rewrite Hl in H. Qed.

Lemma bu_div_spec a b :
  limbs_wf a → limbs_wf b → value b ≠ 0 →
  ∃ q, bu_div a b = Some q ∧ limbs_wf q ∧ value q = value a / value b.
Proof.
  intros Ha Hb Hb0. unfold bu_div. rewrite !bu_bits_spec by apply Ha || apply Hb.
  pose proof (limbs_wf_bound a Ha) as HA. pose proof (limbs_wf_bound b Hb) as HB.
  unfold bitlen at 1. destruct (Z.eqb_spec (value b) 0); [done|].
  pose proof (Z.log2_nonneg (value b)). pose proof (bitlen_nonneg (value a)) as Hba0.
  destruct (Z.eqb_spec (Z.log2 (value b) + 1) 0); [lia|].
  replace (bitlen (value b)) with (Z.log2 (value b) + 1)
    by (unfold bitlen; by destruct (Z.eqb_spec (value b) 0)).
  assert (bitlen (value a) <= 256) as Hba by (apply bitlen_le; lia).
  pose proof (Z.log2_spec (value b) ltac:(lia)) as [Hlb0 Hlb1].
  rewrite Z.gtb_ltb. destruct Ha as [Hla Ha]. rewrite Hla. destruct (Z.ltb_spec (bitlen (value a)) (Z.log2 (value b) + 1)).
  - exists (replicate WIDTH 0). split_and!; [done|apply bu_zero_wf|].
    rewrite value_replicate0. symmetry. apply Z.div_small. split; [lia|].
    assert (value a < 2 ^ Z.log2 (value b)) by (apply bitlen_le; lia). lia.
  - set (shift := bitlen (value a) - (Z.log2 (value b) + 1)).
    assert (value (bu_shl b shift) = value b * 2 ^ shift) as Hsh.
    { rewrite value_bu_shl, (proj1 Hb) by (apply Hb || lia). fold limbs_mod. rewrite limbs_mod_eq.
      apply Z.mod_small. split; [apply Z.mul_nonneg_nonneg; [lia|apply Z.pow_nonneg; lia]|].
      apply Z.lt_le_trans with (2 ^ Z.succ (Z.log2 (value b)) * 2 ^ shift).
      - apply Z.mul_lt_mono_pos_r; [apply pow2_pos; lia|done].
      - rewrite <- Z.pow_add_r by lia. apply Z.pow_le_mono_r; lia. }
    pose proof (bu_div_loop_inv (value a) (value b) (Z.to_nat (shift + 1))
                  (replicate WIDTH 0, a, bu_shl b shift)) as Hinv.
    destruct (bu_div_loop _ _) as [[pn num] div].
    destruct Hinv as (Hpn & Hnum & _ & HAB & Hlt & _); [lia|lia| |].
    { cbn [div_inv]. rewrite value_replicate0.
      replace (Z.of_nat (Z.to_nat (shift + 1))) with (shift + 1) by lia.
      split_and!; [apply bu_zero_wf|done|by apply bu_shl_wf|lia| |by exists 0|].
      - apply Z.lt_le_trans with (2 ^ bitlen (value a)); [apply bitlen_le; lia|].
        replace (bitlen (value a)) with (Z.log2 (value b) + (shift + 1)) by lia.
        rewrite Z.pow_add_r by lia. apply Z.mul_le_mono_nonneg_r; [apply Z.pow_nonneg; lia|done].
      - intros _. rewrite Hsh. do 2 f_equal. lia. }
    exists pn. split_and!; [done|done|]. pose proof (limbs_wf_bound num Hnum).
    change (2 ^ Z.of_nat 0) with 1 in Hlt.
    apply Z.div_unique with (value num); lia.
Qed.

Lemma bu_div_zero a b : limbs_wf b → value b = 0 → bu_div a b = None.
Proof.
  intros [Hl Hb] H0. unfold bu_div. rewrite (bu_bits_spec b), H0 by done. done.
Qed.

(** ** The compact encoding *)

(** The documented meaning of a compact number: [mantissa * 256^(exponent - 3)],
    rounded down when the exponent is below 3. *)
Definition compact_exp (c : Z) : Z := Z.shiftr c 24.
Definition compact_mant (c : Z) : Z := Z.land c 0x007fffff.
Definition compact_value (c : Z) : Z :=
  if compact_exp c <=? 3 then compact_mant c / 256 ^ (3 - compact_exp c)
  else compact_mant c * 256 ^ (compact_exp c - 3).

Lemma pow256 n : 0 <= n → 256 ^ n = 2 ^ (8 * n).
Proof. intros. by rewrite Z.pow_mul_r. Qed.

Lemma compact_mant_bound c : 0 <= compact_mant c < 2 ^ 23.
Proof.
  unfold compact_mant. change 0x007fffff with (Z.ones 23). rewrite Z.land_ones by done.
  apply Z.mod_pos_bound. done.
Qed.

Lemma compact_exp_bound c : u32_ok c → 0 <= compact_exp c < 256.
Proof.
  u32. intros. unfold compact_exp. rewrite Z.shiftr_div_pow2 by lia.
  split; [apply Z.div_pos|apply Z.div_lt_upper_bound]; lia.
Qed.

Lemma SetCompact_wf c : limbs_wf (SetCompact c).1.1.
Proof.
  unfold SetCompact. destruct (Z.leb_spec (Z.shiftr c 24) 3); cbn [fst];
    auto using bu_of_u64_wf, bu_shl_wf.
Qed.

Lemma value_SetCompact c :
  u32_ok c → value (SetCompact c).1.1 = compact_value c mod 2 ^ 256.
Proof.
  intros Hc. pose proof (compact_mant_bound c) as Hm. pose proof (compact_exp_bound c Hc) as He.
  unfold SetCompact, compact_value. fold (compact_exp c) (compact_mant c).
  destruct (Z.leb_spec (compact_exp c) 3); cbn [fst].
  - rewrite Z.shiftr_div_pow2, pow256 by lia.
    assert (0 <= compact_mant c / 2 ^ (8 * (3 - compact_exp c)) < 2 ^ 23).
    { pose proof (pow2_pos (8 * (3 - compact_exp c)) ltac:(lia)).
      split; [apply Z.div_pos; lia|]. apply Z.div_lt_upper_bound; nia. }
    rewrite value_bu_of_u64 by (split; lia). rewrite Z.mod_small by lia. done.
  - rewrite value_bu_shl by (try lia; apply bu_of_u64_wf).
    rewrite value_bu_of_u64, pow256 by (try split; lia). done.
Qed.

(** The overflow flag is exact: it says that the documented value does not fit
    in 256 bits. *)
Lemma SetCompact_overflow_spec c :
  u32_ok c → (SetCompact c).2 = (2 ^ 256 <=? compact_value c).
Proof.
  intros Hc. pose proof (compact_mant_bound c) as Hm. pose proof (compact_exp_bound c Hc) as He.
  unfold SetCompact, compact_value. fold (compact_exp c) (compact_mant c).
  destruct (Z.leb_spec (compact_exp c) 3) as [H3|H3]; cbn [snd].
  - rewrite !(proj2 (Z.gtb_ltb _ _)) || rewrite !Z.gtb_ltb.
    assert (compact_mant c / 256 ^ (3 - compact_exp c) < 2 ^ 256).
    { pose proof (Z.pow_pos_nonneg 256 (3 - compact_exp c) ltac:(lia) ltac:(lia)).
      apply Z.div_lt_upper_bound; nia. }
    rewrite (proj2 (Z.leb_gt _ _)) by done.
    rewrite (proj2 (Z.ltb_ge 34 _)), (proj2 (Z.ltb_ge 33 _)), (proj2 (Z.ltb_ge 32 _)) by lia.
    by rewrite !andb_false_r.
  - rewrite !Z.gtb_ltb. set (m := compact_mant c) in *. set (e := compact_exp c) in *.
    destruct (Z.eqb_spec m 0) as [->|Hm0]; [done|]. simpl negb. rewrite andb_true_l.
    assert (2 ^ 256 = 256 ^ 32) as -> by done.
    destruct (Z.lt_ge_cases 34 e) as [H34|H34].
    { rewrite (proj2 (Z.ltb_lt 34 e)) by done. symmetry. apply Z.leb_le.
      apply Z.le_trans with (1 * 256 ^ (e - 3)); [|apply Z.mul_le_mono_nonneg_r; [apply Z.pow_nonneg|]; lia].
      rewrite Z.mul_1_l. apply Z.pow_le_mono_r; lia. }
    destruct (decide (e <= 32)) as [H32|H32].
    { rewrite (proj2 (Z.ltb_ge 34 e)), (proj2 (Z.ltb_ge 33 e)), (proj2 (Z.ltb_ge 32 e)) by lia.
      rewrite !andb_false_r. symmetry. apply Z.leb_gt.
      apply Z.lt_le_trans with (256 ^ 3 * 256 ^ (e - 3)).
      - apply Z.mul_lt_mono_pos_r; [apply Z.pow_pos_nonneg|]; lia.
      - rewrite <- Z.pow_add_r by lia. apply Z.pow_le_mono_r; lia. }
    assert (e = 33 ∨ e = 34) as [-> | ->] by lia; simpl; rewrite ?andb_true_r, ?andb_false_r; simpl; lia.
Qed.

Lemma SetCompact_negative_spec c :
  u32_ok c → (SetCompact c).1.2 = negb (compact_value c =? 0) && Z.testbit c 23.
Proof.
  intros Hc. pose proof (compact_mant_bound c) as Hm. pose proof (compact_exp_bound c Hc) as He.
  unfold SetCompact, compact_value. fold (compact_exp c) (compact_mant c).
  change 0x00800000 with (Z.shiftl 1 23). rewrite land_pow2 by lia.
  destruct (Z.leb_spec (compact_exp c) 3); cbn [fst snd].
  - by rewrite Z.shiftr_div_pow2, pow256 by lia.
  - f_equal. f_equal. pose proof (Z.pow_pos_nonneg 256 (compact_exp c - 3) ltac:(lia) ltac:(lia)).
    destruct (Z.eqb_spec (compact_mant c) 0) as [->|]; [done|]. symmetry. apply Z.eqb_neq. nia.
Qed.

(** What [GetCompact] computes, on the value: the top three bytes of the number
    and its length in bytes, moved by one byte when the sign bit would be hit. *)
Definition byte_len (x : Z) : Z := (bitlen x + 7) / 8.
Definition compact_raw (x : Z) : Z :=
  if byte_len x <=? 3 then x * 256 ^ (3 - byte_len x) else x / 256 ^ (byte_len x - 3).
Definition compact_parts (x : Z) : Z * Z :=
  if compact_raw x <? 2 ^ 23 then (compact_raw x, byte_len x)
  else (compact_raw x / 256, byte_len x + 1).

Lemma byte_len_spec x : 0 < x → 256 ^ (byte_len x - 1) <= x < 256 ^ byte_len x ∧ 1 <= byte_len x.
Proof.
  intros Hx. unfold byte_len, bitlen. destruct (Z.eqb_spec x 0); [lia|].
  pose proof (Z.log2_spec x Hx) as [Hl0 Hl1]. pose proof (Z.log2_nonneg x).
  set (l := Z.log2 x) in *. set (N := (l + 1 + 7) / 8).
  assert (8 * (N - 1) <= l < 8 * N) as [HN0 HN1].
  { pose proof (Z.div_mod (l + 1 + 7) 8 ltac:(lia)). pose proof (Z.mod_pos_bound (l + 1 + 7) 8 ltac:(lia)).
    subst N. lia. }
  assert (1 <= N) by lia. split; [|done]. rewrite !pow256 by lia. split.
  - apply Z.le_trans with (2 ^ l); [apply Z.pow_le_mono_r; lia|done].
  - apply Z.lt_le_trans with (2 ^ Z.succ l); [done|apply Z.pow_le_mono_r; lia].
Qed.

Lemma byte_len_0 : byte_len 0 = 0.
Proof. done. Qed.

Lemma byte_len_unique x n : 1 <= n → 256 ^ (n - 1) <= x < 256 ^ n → byte_len x = n.
Proof.
  intros Hn Hx. assert (0 < x) as Hx0 by (pose proof (Z.pow_pos_nonneg 256 (n - 1)); lia).
  destruct (byte_len_spec x Hx0) as [H1 H2]. set (k := byte_len x) in *.
  destruct (Z.lt_trichotomy k n) as [Hlt|[->|Hlt]]; [|done|].
  - assert (256 ^ k <= 256 ^ (n - 1)) by (apply Z.pow_le_mono_r; lia). lia.
  - assert (256 ^ n <= 256 ^ (k - 1)) by (apply Z.pow_le_mono_r; lia). lia.
Qed.

Lemma byte_len_le x : 0 <= x < 2 ^ 256 → 0 <= byte_len x <= 32.
Proof.
  intros Hx. destruct (decide (x = 0)) as [->|]; [by rewrite byte_len_0|].
  destruct (byte_len_spec x ltac:(lia)) as [[H1 _] H2]. split; [lia|].
  destruct (Z.le_gt_cases (byte_len x) 32); [done|].
  assert (256 ^ 32 <= 256 ^ (byte_len x - 1)) by (apply Z.pow_le_mono_r; lia).
  change (256 ^ 32) with (2 ^ 256) in *. lia.
Qed.

Lemma compact_raw_bound x :
  0 <= x < 2 ^ 256 → 0 <= compact_raw x < 2 ^ 24 ∧ (0 < x → 2 ^ 16 <= compact_raw x).
Proof.
  intros Hx. unfold compact_raw. destruct (decide (x = 0)) as [->|Hx0].
  { rewrite byte_len_0. simpl. lia. }
  destruct (byte_len_spec x ltac:(lia)) as [[H1 H2] H3]. set (N := byte_len x) in *.
  destruct (Z.leb_spec N 3) as [HN|HN].
  - assert (256 ^ N * 256 ^ (3 - N) = 2 ^ 24 ∧ 256 ^ (N - 1) * 256 ^ (3 - N) = 2 ^ 16) as [Ha Hb].
    { rewrite <- !Z.pow_add_r by lia. split; [by replace (N + (3 - N)) with 3 by lia|].
      by replace (N - 1 + (3 - N)) with 2 by lia. }
    pose proof (Z.pow_pos_nonneg 256 (3 - N) ltac:(lia) ltac:(lia)). nia.
  - pose proof (Z.pow_pos_nonneg 256 (N - 3) ltac:(lia) ltac:(lia)).
    assert (256 ^ N = 256 ^ (N - 3) * 2 ^ 24 ∧ 256 ^ (N - 1) = 256 ^ (N - 3) * 2 ^ 16) as [Ha Hb].
    { change (2 ^ 24) with (256 ^ 3). change (2 ^ 16) with (256 ^ 2).
      rewrite <- !Z.pow_add_r by lia. split; f_equal; lia. }
    split; [split|intros _].
    + apply Z.div_pos; lia.
    + apply Z.div_lt_upper_bound; lia.
    + apply Z.div_le_lower_bound; lia.
Qed.

Lemma compact_parts_bound x :
  0 <= x < 2 ^ 256 →
  0 <= (compact_parts x).1 < 2 ^ 23 ∧ 0 <= (compact_parts x).2 <= 33 ∧ (0 < x → 2 ^ 15 <= (compact_parts x).1).
Proof.
  intros Hx. pose proof (compact_raw_bound x Hx) as [Hr Hr2]. pose proof (byte_len_le x Hx).
  unfold compact_parts. destruct (Z.ltb_spec (compact_raw x) (2 ^ 23)); cbn [fst snd].
  - split_and!; lia.
  - split_and!; [apply Z.div_pos|apply Z.div_lt_upper_bound| | |intros _; apply Z.div_le_lower_bound]; lia.
Qed.

Lemma testbit23 r : 0 <= r < 2 ^ 24 → Z.testbit r 23 = negb (r <? 2 ^ 23).
Proof.
  intros Hr. destruct (Z.ltb_spec r (2 ^ 23)).
  - apply (testbit_fits 23); [split; lia|lia].
  - assert (Z.log2 r = 23) as Hl by (apply Z.log2_unique; lia).
    rewrite <- Hl, Z.bit_log2 by lia. done.
Qed.

Lemma land_hi_mask m : 0 <= m < 2 ^ 23 → Z.land m (not32 0x007fffff) = 0.
Proof.
  intros Hm. apply Z.bits_inj'. intros n Hn. rewrite Z.land_spec, Z.bits_0.
  destruct (Z.lt_ge_cases n 23).
  - unfold not32. change 0x007fffff with (Z.ones 23). change (2 ^ 32 - 1) with (Z.ones 32).
    rewrite Z.lxor_spec, !Z.ones_spec_low by lia. by rewrite andb_false_r.
  - by rewrite (testbit_fits 23 m n) by (lia || (split; lia)).
Qed.

Lemma GetCompact_spec a :
  limbs_wf a →
  GetCompact a false = Some ((compact_parts (value a)).1 + (compact_parts (value a)).2 * 2 ^ 24).
Proof.
  intros Ha. pose proof (limbs_wf_bound a Ha) as Hx. set (x := value a) in *.
  pose proof (compact_raw_bound x Hx) as [Hr _]. pose proof (byte_len_le x Hx) as HN.
  pose proof (compact_parts_bound x Hx) as (Hp1 & Hp2 & _).
  unfold GetCompact. rewrite bu_bits_spec by apply Ha. fold x. fold (byte_len x).
  assert ((if byte_len x <=? 3
           then wrap32 (wrap64 (Z.shiftl (bu_GetLow64 a) (8 * (3 - byte_len x))))
           else wrap32 (bu_GetLow64 (bu_shr a (8 * (byte_len x - 3))))) = compact_raw x) as ->.
  { unfold compact_raw in *. destruct (Z.leb_spec (byte_len x) 3).
    - rewrite bu_GetLow64_spec, Z.shiftl_mul_pow2, pow256 in * by (done || lia). fold x.
      rewrite (Z.mod_small x). + rewrite !wrap_id by (rewrite ?wrap_id; split; lia). done.
      + destruct (decide (x = 0)) as [->|]; [lia|].
        pose proof (byte_len_spec x ltac:(lia)) as [[_ Hlt] _].
        assert (256 ^ byte_len x <= 256 ^ 3) by (apply Z.pow_le_mono_r; lia). lia.
    - rewrite bu_GetLow64_spec by by apply bu_shr_wf.
      rewrite value_bu_shr by (apply Ha || lia). fold x. rewrite <- pow256 by lia.
      rewrite Z.mod_small by lia. apply wrap_id. split; lia. }
  change 0x00800000 with (Z.shiftl 1 23). rewrite land_pow2, testbit23 by (done || lia).
  unfold compact_parts in *. destruct (Z.ltb_spec (compact_raw x) (2 ^ 23)); cbn [fst snd negb] in *.
  - rewrite land_hi_mask by lia. simpl negb. destruct (Z.ltb_spec (byte_len x) 256); [|lia].
    simpl negb. rewrite andb_false_l, Z.lor_0_r. f_equal.
    rewrite wrap_id by (rewrite Z.shiftl_mul_pow2 by lia; split; lia).
    apply lor_add_disjoint; [lia|split; lia].
  - rewrite Z.shiftr_div_pow2 by lia. change (2 ^ 8) with 256. rewrite land_hi_mask by lia. simpl negb.
    destruct (Z.ltb_spec (byte_len x + 1) 256); [|lia].
    simpl negb. rewrite andb_false_l, Z.lor_0_r. f_equal.
    rewrite wrap_id by (rewrite Z.shiftl_mul_pow2 by lia; split; lia).
    apply lor_add_disjoint; [lia|split; lia].
Qed.

Lemma compact_split c : u32_ok c → Z.testbit c 23 = false → c = compact_mant c + compact_exp c * 2 ^ 24.
Proof.
  intros Hc H23. unfold compact_mant, compact_exp. change 0x007fffff with (Z.ones 23).
  rewrite Z.land_ones, Z.shiftr_div_pow2 by done.
  pose proof (Z.div_mod c (2 ^ 24) ltac:(lia)) as Hdm.
  assert (c mod 2 ^ 24 = c mod 2 ^ 23) as Heq; [|lia].
  apply Z.bits_inj'. intros n Hn. rewrite !Z.testbit_mod_pow2 by done.
  destruct (Z.ltb_spec n 24), (Z.ltb_spec n 23); try done; try lia.
  assert (n = 23) as -> by lia. by rewrite H23.
Qed.

Lemma compact_join m s : 0 <= m < 2 ^ 23 → 0 <= s < 256 →
  compact_mant (m + s * 2 ^ 24) = m ∧ compact_exp (m + s * 2 ^ 24) = s ∧
  u32_ok (m + s * 2 ^ 24) ∧ Z.testbit (m + s * 2 ^ 24) 23 = false.
Proof.
  intros Hm Hs. unfold compact_mant, compact_exp. change 0x007fffff with (Z.ones 23).
  rewrite Z.land_ones, Z.shiftr_div_pow2 by done. split_and!.
  - replace (s * 2 ^ 24) with (s * 2 * 2 ^ 23) by lia. rewrite Z.mod_add, Z.mod_small by lia. done.
  - rewrite Z.div_add, Z.div_small by lia. lia.
  - split; lia.
  - rewrite <- (Z.mod_pow2_bits_low _ 24) by lia. rewrite Z.mod_add, Z.mod_small by lia.
    apply (testbit_fits 23); [split; lia|lia].
Qed.

(** [c] is the compact form of a target: no sign bit, at least three exponent
    bytes, a mantissa whose top byte or next bit is used, no overflow. *)
Definition compact_canonical (c : Z) : Prop :=
  u32_ok c ∧ Z.testbit c 23 = false ∧ 3 <= compact_exp c ∧ 2 ^ 15 <= compact_mant c ∧
  compact_value c < 2 ^ 256.
#[global] Instance compact_canonical_dec c : Decision (compact_canonical c).
Proof. unfold compact_canonical. apply _. Defined.

Lemma compact_parts_canonical m e :
  2 ^ 15 <= m < 2 ^ 23 → 3 <= e → compact_parts (m * 256 ^ (e - 3)) = (m, e).
Proof.
  intros Hm He. set (x := m * 256 ^ (e - 3)).
  pose proof (Z.pow_pos_nonneg 256 (e - 3) ltac:(lia) ltac:(lia)) as HP.
  unfold compact_parts, compact_raw. destruct (Z.lt_ge_cases m (2 ^ 16)) as [Hlt|Hge].
  - assert (byte_len x = e - 1) as ->.
    { apply byte_len_unique; [lia|]. split.
      - apply Z.le_trans with (256 ^ 1 * 256 ^ (e - 3)); [|subst x; nia].
        rewrite <- Z.pow_add_r by lia. apply Z.pow_le_mono_r; lia.
      - replace (256 ^ (e - 1)) with (256 ^ 2 * 256 ^ (e - 3))
          by (rewrite <- Z.pow_add_r by lia; f_equal; lia). subst x. nia. }
    assert ((if e - 1 <=? 3 then x * 256 ^ (3 - (e - 1)) else x / 256 ^ (e - 1 - 3)) = m * 256) as ->.
    { subst x. destruct (Z.leb_spec (e - 1) 3).
      - rewrite <- Z.mul_assoc, <- Z.pow_add_r by lia. by replace (e - 3 + _) with 1 by lia.
      - replace (e - 3) with (1 + (e - 1 - 3)) by lia. rewrite Z.pow_add_r, Z.mul_assoc by lia.
        apply Z.div_mul. apply Z.pow_nonzero; lia. }
    destruct (Z.ltb_spec (m * 256) (2 ^ 23)); [lia|]. rewrite Z.div_mul by lia. f_equal. lia.
  - assert (byte_len x = e) as ->.
    { apply byte_len_unique; [lia|]. split.
      - replace (256 ^ (e - 1)) with (256 ^ 2 * 256 ^ (e - 3))
          by (rewrite <- Z.pow_add_r by lia; f_equal; lia). subst x. nia.
      - replace (256 ^ e) with (256 ^ 3 * 256 ^ (e - 3))
          by (rewrite <- Z.pow_add_r by lia; f_equal; lia). subst x. nia. }
    assert ((if e <=? 3 then x * 256 ^ (3 - e) else x / 256 ^ (e - 3)) = m) as ->.
    { subst x. destruct (Z.leb_spec e 3).
      - assert (e = 3) as -> by lia. simpl. lia.
      - apply Z.div_mul. lia. }
    by destruct (Z.ltb_spec m (2 ^ 23)); [|lia].
Qed.

Lemma compact_parts_value x :
  0 <= x < 2 ^ 256 →
  let '(m, s) := compact_parts x in
  (if s <=? 3 then m / 256 ^ (3 - s) else m * 256 ^ (s - 3))
  = x / 256 ^ Z.max 0 (s - 3) * 256 ^ Z.max 0 (s - 3).
Proof.
  intros Hx. pose proof (byte_len_le x Hx) as HN.
  unfold compact_parts, compact_raw. set (N := byte_len x) in *.
  assert (∀ k, 0 <= k → 0 < 256 ^ k) as HP by (intros; apply Z.pow_pos_nonneg; lia).
  destruct (Z.leb_spec N 3) as [H3|H3].
  - destruct (Z.ltb_spec (x * 256 ^ (3 - N)) (2 ^ 23)).
    + rewrite (proj2 (Z.leb_le N 3)) by done. rewrite Z.max_l, Z.div_mul by (try lia; apply Z.pow_nonzero; lia).
      by rewrite Z.div_1_r, Z.mul_1_r.
    + destruct (Z.leb_spec (N + 1) 3).
      * rewrite Z.max_l, Z.div_div by (try lia; apply HP; lia).
        change 256 with (256 ^ 1) at 2. rewrite <- Z.pow_add_r by lia.
        replace (1 + (3 - (N + 1))) with (3 - N) by lia. rewrite Z.div_mul by (apply Z.pow_nonzero; lia).
        by rewrite Z.div_1_r, Z.mul_1_r.
      * assert (N = 3) as -> by lia. simpl Z.sub. rewrite Z.mul_1_r. done.
  - destruct (Z.ltb_spec (x / 256 ^ (N - 3)) (2 ^ 23)).
    + rewrite (proj2 (Z.leb_gt N 3)), Z.max_r by lia. done.
    + rewrite (proj2 (Z.leb_gt (N + 1) 3)), Z.max_r by lia.
      rewrite Z.div_div by (try lia; apply HP; lia).
      replace (256 ^ (N + 1 - 3)) with (256 ^ (N - 3) * 256); [done|].
      replace (N + 1 - 3) with (N - 3 + 1) by lia. by rewrite Z.pow_add_r by lia.
Qed.

Lemma compact_value_nonneg c : 0 <= compact_value c.
Proof.
  pose proof (compact_mant_bound c). unfold compact_value. destruct (Z.leb_spec (compact_exp c) 3).
  - apply Z.div_pos; [lia|]. apply Z.pow_pos_nonneg; lia.
  - apply Z.mul_nonneg_nonneg; [lia|]. apply Z.pow_nonneg. lia.
Qed.

(** The encoding rounds down to a multiple of the granularity it picks. *)
Lemma GetCompact_floor a : limbs_wf a →
  ∃ c, GetCompact a false = Some c ∧ u32_ok c ∧ Z.testbit c 23 = false ∧
       (value a ≠ 0 → 2 ^ 15 <= compact_mant c) ∧
       let k := Z.max 0 (compact_exp c - 3) in compact_value c = value a / 256 ^ k * 256 ^ k.
Proof.
  intros Ha. pose proof (limbs_wf_bound a Ha) as Hx. eexists. split; [by apply GetCompact_spec|].
  pose proof (compact_parts_bound _ Hx) as (Hm & Hs & Hm2).
  pose proof (compact_parts_value _ Hx) as Hv. destruct (compact_parts (value a)) as [m s].
  cbn [fst snd] in *. destruct (compact_join m s) as (Em & Es & Hc & H23); [done|lia|].
  cbv zeta. rewrite Em, Es. split_and!; [done..|lia|]. unfold compact_value. by rewrite Em, Es.
Qed.

(** ** Properties *)

(** [base_uint] addition, subtraction, negation and both multiplications
    compute exactly the operation modulo 2^256 on the numbers the limbs stand
    for, and keep eight 32-bit limbs. *)
Theorem base_uint_ring_correct (a b : limbs) (m : Z) :
  limbs_wf a → limbs_wf b → u32_ok m →
  (limbs_wf (bu_add a b) ∧ value (bu_add a b) = (value a + value b) mod 2 ^ 256) ∧
  (limbs_wf (bu_sub a b) ∧ value (bu_sub a b) = (value a - value b) mod 2 ^ 256) ∧
  (limbs_wf (bu_neg a) ∧ value (bu_neg a) = (- value a) mod 2 ^ 256) ∧
  (limbs_wf (bu_mul a b) ∧ value (bu_mul a b) = (value a * value b) mod 2 ^ 256) ∧
  (limbs_wf (bu_mul32 a m) ∧ value (bu_mul32 a m) = (value a * m) mod 2 ^ 256).
Proof.
  intros Ha Hb Hm. rewrite <- limbs_mod_eq.
  split_and!; auto using bu_add_wf, bu_sub_wf, bu_neg_wf, bu_mul_wf, bu_mul32_wf,
    value_bu_add, value_bu_sub, value_bu_mul, value_bu_mul32.
  rewrite value_bu_neg by apply Ha. by rewrite (proj1 Ha).
Qed.

Lemma base_uint_ring_correct_witness :
  value (bu_sub (bu_of_u64 5) (bu_of_u64 7)) = 2 ^ 256 - 2.
Proof.
  destruct (base_uint_ring_correct (bu_of_u64 5) (bu_of_u64 7) 3) as (_ & [_ H] & _);
    [apply bu_of_u64_wf|apply bu_of_u64_wf|split; lia|]. rewrite H. vm_compute. reflexivity.
Defined.

(** The shift-and-subtract division loop terminates with the exact integer
    quotient for every non-zero divisor, and throws exactly for divisor zero. *)
Theorem base_uint_div_correct (a b : limbs) :
  limbs_wf a → limbs_wf b →
  match bu_div a b with
  | Some q => limbs_wf q ∧ value b ≠ 0 ∧ value q = value a / value b
  | None => value b = 0
  end.
Proof.
  intros Ha Hb. destruct (decide (value b = 0)) as [H0|H0].
  - by rewrite bu_div_zero.
  - destruct (bu_div_spec a b Ha Hb H0) as (q & -> & Hq & Hv). done.
Qed.

Lemma base_uint_div_correct_witness :
  bu_div (bu_of_u64 1000000007) (bu_of_u64 10) = Some (bu_of_u64 100000000) ∧
  match bu_div (bu_of_u64 1000000007) (bu_of_u64 10) with
  | Some q => limbs_wf q ∧ value (bu_of_u64 10) ≠ 0 ∧ value q = value (bu_of_u64 1000000007) / value (bu_of_u64 10)
  | None => value (bu_of_u64 10) = 0
  end.
Proof.
  split; [vm_compute; reflexivity|].
  apply (base_uint_div_correct (bu_of_u64 1000000007) (bu_of_u64 10)); apply bu_of_u64_wf.
Defined.

(** The two shift loops multiply modulo 2^256 and divide by the power of
    two, for every shift distance; [CompareTo] and [EqualTo] decide the order
    and equality of the numbers; [bits] is the position of the highest set bit
    plus one. *)
Theorem base_uint_shift_compare_correct (a b : limbs) (s n : Z) :
  limbs_wf a → limbs_wf b → 0 <= s → fits 64 n →
  value (bu_shl a s) = (value a * 2 ^ s) mod 2 ^ 256 ∧
  value (bu_shr a s) = value a / 2 ^ s ∧
  bu_CompareTo a b = match value a ?= value b with Lt => -1 | Eq => 0 | Gt => 1 end ∧
  bu_EqualTo a n = (value a =? n) ∧
  bu_bits a = (if value a =? 0 then 0 else Z.log2 (value a) + 1).
Proof.
  intros Ha Hb Hs Hn. split_and!.
  - rewrite value_bu_shl by (apply Ha || done). by rewrite (proj1 Ha).
  - by apply value_bu_shr; [apply Ha|].
  - by apply bu_CompareTo_spec.
  - by apply bu_EqualTo_spec.
  - apply bu_bits_spec, Ha.
Qed.

Lemma base_uint_shift_compare_correct_witness :
  value (bu_shl (bu_of_u64 3) 254) = 3 * 2 ^ 254 mod 2 ^ 256 ∧ bu_bits (bu_of_u64 (2 ^ 40)) = 41.
Proof.
  destruct (base_uint_shift_compare_correct (bu_of_u64 3) (bu_of_u64 0) 254 0) as [H _];
    [apply bu_of_u64_wf|apply bu_of_u64_wf|lia|split; lia|].
  destruct (base_uint_shift_compare_correct (bu_of_u64 (2 ^ 40)) (bu_of_u64 0) 0 0) as (_ & _ & _ & _ & H');
    [apply bu_of_u64_wf|apply bu_of_u64_wf|lia|split; lia|].
  split; [exact H|exact H'].
Defined.

(** C35. [SetCompact] decodes [mantissa * 256^(exponent - 3)] (rounded down for
    exponents below 3) modulo 2^256; its overflow flag is set exactly when that
    number needs more than 256 bits, and its negative flag exactly when the
    number is non-zero and the sign bit is set. *)
Theorem SetCompact_correct (c : Z) :
  u32_ok c →
  limbs_wf (SetCompact c).1.1 ∧
  value (SetCompact c).1.1 = compact_value c mod 2 ^ 256 ∧
  (SetCompact c).1.2 = negb (compact_value c =? 0) && Z.testbit c 23 ∧
  (SetCompact c).2 = (2 ^ 256 <=? compact_value c).
Proof.
  intros Hc. split_and!; auto using SetCompact_wf, value_SetCompact,
    SetCompact_negative_spec, SetCompact_overflow_spec.
Qed.

Lemma SetCompact_correct_witness :
  value (SetCompact 0x1d00ffff).1.1 = 65535 * 2 ^ 208 ∧ (SetCompact 0x21010000).2 = true.
Proof.
  destruct (SetCompact_correct 0x1d00ffff) as (_ & H & _); [split; lia|].
  destruct (SetCompact_correct 0x21010000) as (_ & _ & _ & H'); [split; lia|].
  rewrite H, H'. split; vm_compute; reflexivity.
Defined.

(** Decoding and re-encoding a canonical compact target gives the same 32
    bits back. *)
Theorem compact_roundtrip (c : Z) :
  compact_canonical c → GetCompact (SetCompact c).1.1 false = Some c.
Proof.
  intros (Hc & H23 & He & Hm & Hv). rewrite GetCompact_spec by apply SetCompact_wf.
  rewrite value_SetCompact by done. pose proof (compact_mant_bound c).
  unfold compact_value in *. destruct (Z.leb_spec (compact_exp c) 3) as [H3|H3].
  - assert (compact_exp c = 3) as E by lia. rewrite E in *. change (256 ^ (3 - 3)) with 1 in *.
    rewrite Z.div_1_r, Z.mod_small by lia.
    rewrite <- (Z.mul_1_r (compact_mant c)). change 1 with (256 ^ (3 - 3)).
    rewrite compact_parts_canonical by lia. cbn [fst snd]. f_equal.
    pose proof (compact_split c Hc H23) as Hs. rewrite E in Hs. lia.
  - pose proof (Z.pow_pos_nonneg 256 (compact_exp c - 3) ltac:(lia) ltac:(lia)).
    rewrite Z.mod_small by nia. rewrite compact_parts_canonical by lia. cbn [fst snd].
    f_equal. symmetry. by apply compact_split.
Qed.

Lemma compact_roundtrip_witness :
  compact_canonical 0x207fffff ∧ GetCompact (SetCompact 0x207fffff).1.1 false = Some 0x207fffff.
Proof.
  assert (compact_canonical 0x207fffff) as H
    by (apply (bool_decide_unpack (compact_canonical 0x207fffff)); vm_compute; exact I).
  split; [exact H|]. exact (compact_roundtrip 0x207fffff H).
Defined.

(** [GetCompact] never fails an assertion on a 256-bit number, and what it
    encodes is that number with its bytes below the three most significant ones
    (two, when the sign bit would be hit) cleared: it never exceeds the number
    and never sets the sign or the overflow flag. *)
Theorem GetCompact_truncates (a : limbs) :
  limbs_wf a →
  ∃ c, GetCompact a false = Some c ∧ u32_ok c ∧
       let k := Z.max 0 (compact_exp c - 3) in
       compact_value c = value a / 256 ^ k * 256 ^ k ∧
       compact_value c <= value a < compact_value c + 256 ^ k ∧
       (SetCompact c).1.2 = false ∧ (SetCompact c).2 = false ∧
       (value a ≠ 0 → 2 ^ 15 <= compact_mant c).
Proof.
  intros Ha. destruct (GetCompact_floor a Ha) as (c & HG & Hc & H23 & Hm & Hcv).
  exists c. split; [done|]. split; [done|]. cbv zeta in *. set (k := Z.max 0 (compact_exp c - 3)) in *.
  pose proof (Z.pow_pos_nonneg 256 k ltac:(lia) ltac:(lia)) as HP.
  pose proof (Z.div_mod (value a) (256 ^ k) ltac:(lia)). pose proof (Z.mod_pos_bound (value a) (256 ^ k) ltac:(lia)).
  pose proof (limbs_wf_bound a Ha) as Hx.
  rewrite SetCompact_negative_spec, SetCompact_overflow_spec, H23, andb_false_r by done.
  split_and!; [done|lia|lia|done| |done].
  apply Z.leb_gt. lia.
Qed.

Lemma GetCompact_truncates_witness :
  limbs_wf (bu_of_u64 0x12345678) ∧
  ∃ c, GetCompact (bu_of_u64 0x12345678) false = Some c ∧ compact_value c <= value (bu_of_u64 0x12345678).
Proof.
  split; [apply bu_of_u64_wf|].
  destruct (GetCompact_truncates (bu_of_u64 0x12345678) (bu_of_u64_wf _)) as (c & Hc & _ & _ & [Hle _] & _).
  exists c. split; [exact Hc|exact Hle].
Defined.
