(* ===== verification/Serialize.v ===== *)
(** * Serialization: [serialize.h] and the message stream of [net.h]

    Every [Serialize] overload only appends bytes to its stream and reads the
    stream's version, so a serializer is a function from the version and the
    object to bytes.  [Unserialize] reads from a [NetMessageData]: the stream
    does not signal a short read, it leaves the destination untouched, so a
    reader takes the previous contents of the destination where that object is
    initialised, and is [Indeterminate] where the C++ code goes on with an
    uninitialised local.  Exceptions are values.

    The class [Serializable] states what each pair of overloads promises (what
    was written is read back, and exactly its bytes are consumed); the clients
    [Tx] and [Block] are built from its instances. *)

From stdpp Require Import base list numbers decidable.
From S2P Require Import Prelude.

Open Scope Z_scope.

Definition MAX_SIZE : Z := 0x02000000.

(** ** The stream: [class NetMessageData] *)

Record NetMessageData := mk_NetMessageData {
  nd_data : list Z;      (* TBuffer _data *)
  nd_readPos : Z;        (* uint32_t _readPos *)
  nd_command : list Z;   (* std::string _command *)
  nd_nVersion : Z;       (* int _nVersion *)
}.

Definition HEADER_SIZE : Z := 24.
Definition MESSAGE_START_SIZE : Z := 4.
Definition COMMAND_SIZE : Z := 12.
Definition MESSAGE_SIZE_OFFSET : Z := 16.

Definition nd_empty_stream (version : Z) : NetMessageData := mk_NetMessageData [] 0 [] version.
Definition nd_of_buffer (buf : list Z) (version : Z) : NetMessageData :=
  mk_NetMessageData buf 0 [] version.
(** Copies restart reading at the beginning. *)
Definition nd_copy (s : NetMessageData) : NetMessageData :=
  mk_NetMessageData (nd_data s) 0 (nd_command s) (nd_nVersion s).

Definition nd_set_pos (p : Z) (s : NetMessageData) : NetMessageData :=
  mk_NetMessageData (nd_data s) p (nd_command s) (nd_nVersion s).
Definition nd_ResetPos : NetMessageData → NetMessageData := nd_set_pos 0.
Definition nd_ResetBodyPos : NetMessageData → NetMessageData := nd_set_pos HEADER_SIZE.

Definition nd_size (s : NetMessageData) : Z := Z.of_nat (length (nd_data s)).
Definition nd_empty (s : NetMessageData) : bool := nd_size s =? nd_readPos s.

(** [memcpy(pBuf, &_data[pos], n)]. *)
Definition slice (l : list Z) (pos n : Z) : list Z := take (Z.to_nat n) (drop (Z.to_nat pos) l).

(** [None]: the call returned without touching the destination. *)
Definition nd_read (size : Z) (s : NetMessageData) : option (list Z) * NetMessageData :=
  if size <=? 0 then (None, s)
  else if nd_size s <? nd_readPos s + size then (None, s)
  else (Some (slice (nd_data s) (nd_readPos s) size),
        nd_set_pos (wrap32 (nd_readPos s + size)) s).

Definition nd_write (bs : list Z) (s : NetMessageData) : NetMessageData :=
  mk_NetMessageData (nd_data s ++ bs) (nd_readPos s) (nd_command s) (nd_nVersion s).

Definition nd_ignore (size : Z) (s : NetMessageData) : NetMessageData :=
  if (size <? 0) || (nd_size s <? nd_readPos s + size) then s
  else nd_set_pos (wrap32 (nd_readPos s + size)) s.

Definition nd_Resize (n : Z) (s : NetMessageData) : NetMessageData :=
  if nd_size s <? n
  then mk_NetMessageData (nd_data s ++ replicate (Z.to_nat (n - nd_size s)) 0)
         (nd_readPos s) (nd_command s) (nd_nVersion s)
  else s.

(** [le32toh] of the four bytes at the size field, converted to [size_t] from a
    signed [int32_t] variable but through the unsigned [le32toh]. *)
Definition nd_ParseBodySize (s : NetMessageData) : Z :=
  le_value (slice (nd_data s) MESSAGE_SIZE_OFFSET 4).

(** [strnlen(p, n)] bytes of [p]. *)
Fixpoint until_nul (n : nat) (l : list Z) : list Z :=
  match n, l with
  | S n', b :: l' => if b =? 0 then [] else b :: until_nul n' l'
  | _, _ => []
  end.

Definition nd_GetMessageCommand (s : NetMessageData) : list Z * NetMessageData :=
  match nd_command s with
  | _ :: _ => (nd_command s, s)
  | [] =>
      if nd_size s <? HEADER_SIZE then ([], s)
      else
        let c := until_nul (Z.to_nat COMMAND_SIZE) (drop (Z.to_nat MESSAGE_START_SIZE) (nd_data s)) in
        (c, mk_NetMessageData (nd_data s) (nd_readPos s) c (nd_nVersion s))
  end.

(** ** The reader monad *)

Inductive ser_exn :=
  | NonCanonicalCompactSize | CompactSizeTooLarge | VarIntTooLarge | StringLimitExceeded | InvalidExtendedKeySize.

Inductive outcome (A : Type) :=
  | Done (a : A)
  | Thrown (e : ser_exn)
  | Indeterminate.
Arguments Done {A} a.
Arguments Thrown {A} e.
Arguments Indeterminate {A}.

Definition rd (A : Type) := NetMessageData → outcome (A * NetMessageData).

Definition rd_ret {A} (a : A) : rd A := λ s, Done (a, s).
Definition rd_throw {A} (e : ser_exn) : rd A := λ _, Thrown e.
Definition rd_bind {A B} (x : rd A) (f : A → rd B) : rd B := λ s,
  match x s with
  | Done (a, s') => f a s'
  | Thrown e => Thrown e
  | Indeterminate => Indeterminate
  end.

Declare Scope rd_scope.
Delimit Scope rd_scope with rd.
Notation "'let!' x ':=' c1 'in' c2" := (rd_bind c1 (λ x, c2))
  (at level 10, x name, c1 at level 100, c2 at level 200) : rd_scope.
Open Scope rd_scope.

(** Reading into an object that holds [old] / into an uninitialised local. *)
Definition rd_into (old : list Z) (size : Z) : rd (list Z) := λ s,
  let '(o, s') := nd_read size s in Done (default old o, s').
Definition rd_uninit (size : Z) : rd (list Z) := λ s,
  match nd_read size s with
  | (Some bs, s') => Done (bs, s')
  | (None, _) => Indeterminate
  end.

(** ** Fixed-width integers *)

Definition ser_writedata8 (obj : Z) : list Z := le_bytes 1 (wrap8 obj).
Definition ser_writedata16 (obj : Z) : list Z := le_bytes 2 (wrap16 obj).
Definition ser_writedata32 (obj : Z) : list Z := le_bytes 4 (wrap32 obj).
Definition ser_writedata64 (obj : Z) : list Z := le_bytes 8 (wrap64 obj).

Definition ser_readdata8 : rd Z := let! b := rd_uninit 1 in rd_ret (le_value b).
Definition ser_readdata16 : rd Z := let! b := rd_uninit 2 in rd_ret (le_value b).
Definition ser_readdata32 : rd Z := let! b := rd_uninit 4 in rd_ret (le_value b).
Definition ser_readdata64 : rd Z := let! b := rd_uninit 8 in rd_ret (le_value b).

(** ** Compact sizes *)

Definition GetSizeOfCompactSize (nSize : Z) : Z :=
  if nSize <? 253 then 1
  else if nSize <=? 0xffff then 3
  else if nSize <=? 0xffffffff then 5
  else 9.

Definition WriteCompactSize (nSize : Z) : list Z :=
  if nSize <? 253 then ser_writedata8 nSize
  else if nSize <=? 0xffff then ser_writedata8 253 ++ ser_writedata16 nSize
  else if nSize <=? 0xffffffff then ser_writedata8 254 ++ ser_writedata32 nSize
  else ser_writedata8 255 ++ ser_writedata64 nSize.

Definition check_max (nSizeRet : Z) : rd Z :=
  if nSizeRet >? MAX_SIZE then rd_throw CompactSizeTooLarge else rd_ret nSizeRet.

Definition ReadCompactSize : rd Z :=
  let! chSize := ser_readdata8 in
  if chSize <? 253 then check_max chSize
  else if chSize =? 253 then
    let! n := ser_readdata16 in
    if n <? 253 then rd_throw NonCanonicalCompactSize else check_max n
  else if chSize =? 254 then
    let! n := ser_readdata32 in
    if n <? 0x10000 then rd_throw NonCanonicalCompactSize else check_max n
  else
    let! n := ser_readdata64 in
    if n <? 0x100000000 then rd_throw NonCanonicalCompactSize else check_max n.

(** ** Variable-length integers, for an unsigned type [I] of [w] bits *)

Fixpoint varint_size_loop (fuel : nat) (n : Z) : Z :=
  match fuel with
  | O => 0
  | S fuel' => if n <=? 0x7f then 1 else 1 + varint_size_loop fuel' (Z.shiftr n 7 - 1)
  end.

(** [tmp] has [(sizeof(n)*8+6)/7] entries: the loop never runs longer. *)
Definition varint_len (w : Z) : nat := Z.to_nat ((w + 6) / 7).

Definition GetSizeOfVarInt (w n : Z) : Z := varint_size_loop (varint_len w) n.

(** The array [tmp], filled from index [len] on; [first] says [len == 0]. *)
Fixpoint varint_tmp (fuel : nat) (first : bool) (n : Z) : list Z :=
  match fuel with
  | O => []
  | S fuel' =>
      Z.lor (Z.land n 0x7f) (if first then 0 else 0x80)
      :: (if n <=? 0x7f then [] else varint_tmp fuel' false (Z.shiftr n 7 - 1))
  end.

Definition WriteVarInt (w n : Z) : list Z :=
  reverse (varint_tmp (varint_len w) true n) ≫= ser_writedata8.

(** One byte is consumed per iteration, so the length of the stream bounds the
    loop ([read_varint_fuel]). *)
Fixpoint ReadVarInt_loop (fuel : nat) (w n : Z) : rd Z :=
  match fuel with
  | O => λ _, Indeterminate
  | S fuel' =>
      let! chData := ser_readdata8 in
      if n >? Z.shiftr (2 ^ w - 1) 7 then rd_throw VarIntTooLarge
      else
        let n := wrap w (Z.lor (Z.shiftl n 7) (Z.land chData 0x7f)) in
        if negb (Z.land chData 0x80 =? 0) then
          if n =? 2 ^ w - 1 then rd_throw VarIntTooLarge
          else ReadVarInt_loop fuel' w (n + 1)
        else rd_ret n
  end.

Definition ReadVarInt (w : Z) : rd Z := λ s, ReadVarInt_loop (S (length (nd_data s))) w 0 s.

(** ** Vectors, strings and arrays *)

(** [while (i < nSize) { blk = min(nSize - i, 5000000); resize; read; i += blk; }]
    A short read leaves the value-initialised zeros of [resize]. *)
Fixpoint read_blocks (fuel : nat) (nLeft : Z) : rd (list Z) :=
  match fuel with
  | O => rd_ret []
  | S fuel' =>
      if nLeft <=? 0 then rd_ret []
      else
        let blk := Z.min nLeft (1 + 4999999) in
        let! b := rd_into (replicate (Z.to_nat blk) 0) blk in
        let! bs := read_blocks fuel' (nLeft - blk) in
        rd_ret (b ++ bs)
  end.

(** [MAX_SIZE / 5000000 < 7] blocks. *)
Definition max_blocks : nat := 8.

Definition unserialize_bytes : rd (list Z) :=
  let! nSize := ReadCompactSize in read_blocks max_blocks nSize.
Definition serialize_bytes (v : list Z) : list Z :=
  WriteCompactSize (Z.of_nat (length v)) ++ v.

(** [LimitedString<Limit>]. *)
Definition unserialize_limited (Limit : Z) : rd (list Z) :=
  let! size := ReadCompactSize in
  if size >? Limit then rd_throw StringLimitExceeded
  else if size =? 0 then rd_ret []
  else rd_into (replicate (Z.to_nat size) 0) size.

(** [std::string]. *)
Definition unserialize_string : rd (list Z) :=
  let! nSize := ReadCompactSize in
  if nSize =? 0 then rd_ret [] else rd_into (replicate (Z.to_nat nSize) 0) nSize.

Section vectors.
Context {A : Type} (def : A) (ser : Z → A → list Z) (unser : A → rd A).

Definition serialize_vector (version : Z) (v : list A) : list Z :=
  WriteCompactSize (Z.of_nat (length v)) ++ (v ≫= ser version).

(** [for (; i < nMid; i++) Unserialize(is, v[i]);] on value-initialised slots. *)
Fixpoint unserialize_n (n : nat) : rd (list A) :=
  match n with
  | O => rd_ret []
  | S n' => let! a := unser def in let! l := unserialize_n n' in rd_ret (a :: l)
  end.

(** The vector grows by at most [5000000 / sizeof(T)] slots at a time. *)
Fixpoint unserialize_chunks (fuel : nat) (chunk : Z) (nLeft : Z) : rd (list A) :=
  match fuel with
  | O => rd_ret []
  | S fuel' =>
      if nLeft <=? 0 then rd_ret []
      else
        let n := Z.min chunk nLeft in
        let! l1 := unserialize_n (Z.to_nat n) in
        let! l2 := unserialize_chunks fuel' chunk (nLeft - n) in
        rd_ret (l1 ++ l2)
  end.

Definition unserialize_vector (chunk : Z) : rd (list A) :=
  let! nSize := ReadCompactSize in
  unserialize_chunks (Z.to_nat nSize) chunk nSize.

End vectors.

(** ** Reading back what was written *)

(** [l] is what is left to read. *)
Definition avail (s : NetMessageData) (l : list Z) : Prop :=
  0 <= nd_readPos s ∧ drop (Z.to_nat (nd_readPos s)) (nd_data s) = l ∧
  nd_readPos s + Z.of_nat (length l) = nd_size s ∧ nd_size s < 2 ^ 32.

Definition nd_advance (n : nat) (s : NetMessageData) : NetMessageData :=
  nd_set_pos (nd_readPos s + Z.of_nat n) s.

(** The reader [r] consumes exactly [bs] and produces [a], at version [v]. *)
Definition reads {A} (v : Z) (r : rd A) (bs : list Z) (a : A) : Prop :=
  ∀ s rest, nd_nVersion s = v → avail s (bs ++ rest) → r s = Done (a, nd_advance (length bs) s).

Create HintDb ser.

Lemma nd_advance_0 s : nd_advance 0 s = s.
Proof. destruct s. unfold nd_advance, nd_set_pos. simpl. f_equal. lia. Qed.

Lemma nd_advance_add m n s : nd_advance n (nd_advance m s) = nd_advance (m + n) s.
Proof. destruct s. unfold nd_advance, nd_set_pos. simpl. f_equal. lia. Qed.

Lemma avail_advance s l1 l2 : avail s (l1 ++ l2) → avail (nd_advance (length l1) s) l2.
Proof.
  intros (H0 & H1 & H2 & H3). rewrite length_app in H2. unfold avail, nd_advance, nd_set_pos, nd_size in *.
  cbn [nd_readPos nd_data] in *. split_and!; [lia| |lia|lia].
  rewrite Z2Nat.inj_add, Nat2Z.id, <- drop_drop, H1 by lia. apply drop_app_length.
Qed.

Lemma nd_read_avail s bs rest :
  bs ≠ [] → avail s (bs ++ rest) →
  nd_read (Z.of_nat (length bs)) s = (Some bs, nd_advance (length bs) s).
Proof.
  intros Hne (H0 & H1 & H2 & H3). rewrite length_app in H2.
  assert (0 < length bs)%nat by (destruct bs; simpl; [done|lia]).
  unfold nd_read. destruct (Z.leb_spec (Z.of_nat (length bs)) 0); [lia|].
  destruct (Z.ltb_spec (nd_size s) (nd_readPos s + Z.of_nat (length bs))); [lia|].
  unfold slice. rewrite H1, Nat2Z.id, take_app_length. f_equal. unfold nd_advance.
  f_equal. apply wrap_id. split; lia.
Qed.

Lemma reads_ret {A} v (a : A) : reads v (rd_ret a) [] a.
Proof. intros s rest _ _. by rewrite nd_advance_0. Qed.

Lemma reads_bind {A B} v (r : rd A) (f : A → rd B) bs1 bs2 a b :
  reads v r bs1 a → reads v (f a) bs2 b → reads v (rd_bind r f) (bs1 ++ bs2) b.
Proof.
  intros H1 H2 s rest Hv Ha. rewrite <- app_assoc in Ha. unfold rd_bind.
  rewrite (H1 s (bs2 ++ rest)) by done.
  rewrite (H2 (nd_advance (length bs1) s) rest) by (done || by apply avail_advance).
  by rewrite nd_advance_add, length_app.
Qed.

(** The continuation consumes nothing more. *)
Lemma reads_bind_nil {A B} v (r : rd A) (f : A → rd B) bs a b :
  reads v r bs a → reads v (f a) [] b → reads v (rd_bind r f) bs b.
Proof. intros. rewrite <- (app_nil_r bs). by eapply reads_bind. Qed.

(** The first part consumes nothing. *)
Lemma reads_bind_pure {A B} v (r : rd A) (f : A → rd B) bs a b :
  reads v r [] a → reads v (f a) bs b → reads v (rd_bind r f) bs b.
Proof. apply (reads_bind v r f []). Qed.

Lemma reads_bind_ret {A B} v (r : rd A) (g : A → B) bs a :
  reads v r bs a → reads v (let! x := r in rd_ret (g x)) bs (g a).
Proof. intros H. eapply reads_bind_nil; [done|]. apply reads_ret. Qed.

Lemma reads_uninit v bs : bs ≠ [] → reads v (rd_uninit (Z.of_nat (length bs))) bs bs.
Proof. intros Hne s rest _ Ha. unfold rd_uninit. by rewrite (nd_read_avail s bs rest). Qed.

Lemma reads_into v old bs : bs ≠ [] → reads v (rd_into old (Z.of_nat (length bs))) bs bs.
Proof. intros Hne s rest _ Ha. unfold rd_into. by rewrite (nd_read_avail s bs rest). Qed.

Lemma reads_eq {A} v (r : rd A) bs bs' a a' :
  reads v r bs a → bs = bs' → a = a' → reads v r bs' a'.
Proof. by intros ? <- <-. Qed.

(** A reader of [n] little-endian bytes. *)
Lemma reads_le v (n : nat) x :
  (0 < n)%nat → 0 <= x < 256 ^ Z.of_nat n →
  reads v (let! b := rd_uninit (Z.of_nat n) in rd_ret (le_value b)) (le_bytes n x) x.
Proof.
  intros Hn Hx. eapply reads_eq; [eapply reads_bind_ret|reflexivity|].
  - rewrite <- (length_le_bytes n x) at 1. apply reads_uninit. destruct n; [lia|done].
  - rewrite le_value_le_bytes. by apply Z.mod_small.
Qed.

Lemma reads_8 v x : fits 8 x → reads v ser_readdata8 (ser_writedata8 x) x.
Proof. intros. unfold ser_writedata8. rewrite wrap_id by done. by apply (reads_le v 1 x); [lia|]. Qed.
Lemma reads_16 v x : fits 16 x → reads v ser_readdata16 (ser_writedata16 x) x.
Proof. intros. unfold ser_writedata16. rewrite wrap_id by done. by apply (reads_le v 2 x); [lia|]. Qed.
Lemma reads_32 v x : fits 32 x → reads v ser_readdata32 (ser_writedata32 x) x.
Proof. intros. unfold ser_writedata32. rewrite wrap_id by done. by apply (reads_le v 4 x); [lia|]. Qed.
Lemma reads_64 v x : fits 64 x → reads v ser_readdata64 (ser_writedata64 x) x.
Proof. intros. unfold ser_writedata64. rewrite wrap_id by done. by apply (reads_le v 8 x); [lia|]. Qed.
#[export] Hint Resolve reads_ret reads_8 reads_16 reads_32 reads_64 : ser.

Lemma reads_check_max v n : n <= MAX_SIZE → reads v (check_max n) [] n.
Proof.
  intros Hn. unfold check_max. rewrite Z.gtb_ltb. destruct (Z.ltb_spec MAX_SIZE n); [lia|apply reads_ret].
Qed.

Lemma reads_CompactSize v n :
  0 <= n <= MAX_SIZE → reads v ReadCompactSize (WriteCompactSize n) n.
Proof.
  intros Hn. unfold MAX_SIZE in *. unfold WriteCompactSize, ReadCompactSize.
  destruct (Z.ltb_spec n 253) as [H1|H1].
  { eapply reads_bind_nil; [apply reads_8; split; lia|].
    destruct (Z.ltb_spec n 253); [|lia]. apply reads_check_max; unfold MAX_SIZE; lia. }
  destruct (Z.leb_spec n 0xffff) as [H2|H2]; [|destruct (Z.leb_spec n 0xffffffff); [|lia]];
    (eapply reads_bind; [apply reads_8; split; lia|]; cbv beta;
     rewrite ?(proj2 (Z.ltb_ge 253 253)), ?(proj2 (Z.ltb_ge 254 253)) by lia; simpl;
     eapply reads_bind_nil; [(apply reads_16 || apply reads_32); split; lia|]; cbv beta).
  - destruct (Z.ltb_spec n 253); [lia|]. apply reads_check_max; unfold MAX_SIZE; lia.
  - destruct (Z.ltb_spec n 0x10000); [lia|]. apply reads_check_max; unfold MAX_SIZE; lia.
Qed.
#[export] Hint Resolve reads_CompactSize : ser.

Lemma length_WriteCompactSize n :
  Z.of_nat (length (WriteCompactSize n)) = GetSizeOfCompactSize n.
Proof.
  unfold WriteCompactSize, GetSizeOfCompactSize, ser_writedata8, ser_writedata16, ser_writedata32, ser_writedata64.
  repeat case_match; rewrite ?length_app, ?length_le_bytes; done.
Qed.

(** ** Byte strings and vectors *)

Lemma reads_blocks v bs fuel :
  (Z.of_nat (length bs) <= 5000000 * Z.of_nat fuel) →
  reads v (read_blocks fuel (Z.of_nat (length bs))) bs bs.
Proof.
  revert bs. induction fuel as [|fuel IH]; intros bs Hf.
  { destruct bs; [|simpl in Hf; lia]. apply reads_ret. }
  cbn [read_blocks]. destruct (Z.leb_spec (Z.of_nat (length bs)) 0) as [H0|H0].
  { destruct bs; [|simpl in H0; lia]. apply reads_ret. }
  set (k := Z.to_nat (Z.min (Z.of_nat (length bs)) (1 + 4999999))).
  assert (length (take k bs) = k) as Hk by (rewrite length_take_le; lia).
  eapply reads_eq.
  - eapply (reads_bind v _ _ (take k bs) (drop k bs)).
    + replace (Z.min (Z.of_nat (length bs)) (1 + 4999999)) with (Z.of_nat (length (take k bs))) by lia.
      apply reads_into. intros E. rewrite E in Hk. simpl in Hk. lia.
    + cbv beta. eapply reads_bind_ret.
      replace (Z.of_nat (length bs) - Z.min (Z.of_nat (length bs)) (1 + 4999999))
        with (Z.of_nat (length (drop k bs))) by (rewrite length_drop; lia).
      apply IH. rewrite length_drop. lia.
  - apply take_drop.
  - cbv beta. apply take_drop.
Qed.

Lemma reads_bytes v bs :
  Z.of_nat (length bs) <= MAX_SIZE → reads v unserialize_bytes (serialize_bytes bs) bs.
Proof.
  intros H. unfold unserialize_bytes, serialize_bytes.
  eapply reads_bind; [apply reads_CompactSize; lia|]. apply reads_blocks.
  unfold MAX_SIZE in *. change max_blocks with 8%nat. lia.
Qed.

Lemma reads_opt_into v bs :
  reads v (if Z.of_nat (length bs) =? 0 then rd_ret []
           else rd_into (replicate (Z.to_nat (Z.of_nat (length bs))) 0) (Z.of_nat (length bs))) bs bs.
Proof.
  destruct bs as [|b bs]; [apply reads_ret|].
  destruct (Z.eqb_spec (Z.of_nat (length (b :: bs))) 0); [done|]. by apply reads_into.
Qed.

Lemma reads_string v bs :
  Z.of_nat (length bs) <= MAX_SIZE → reads v unserialize_string (serialize_bytes bs) bs.
Proof.
  intros H. eapply reads_bind; [apply reads_CompactSize; lia|]. apply reads_opt_into.
Qed.

Lemma reads_limited v Limit bs :
  Z.of_nat (length bs) <= MAX_SIZE → Z.of_nat (length bs) <= Limit →
  reads v (unserialize_limited Limit) (serialize_bytes bs) bs.
Proof.
  intros H HL. eapply reads_bind; [apply reads_CompactSize; lia|]. rewrite Z.gtb_ltb.
  destruct (Z.ltb_spec Limit (Z.of_nat (length bs))); [lia|]. apply reads_opt_into.
Qed.

Section vector_lemmas.
Context {A : Type} (def : A) (ser : Z → A → list Z) (unser : A → rd A) (ok : Z → A → Prop).
Hypothesis ser_law : ∀ v a, ok v a → reads v (unser def) (ser v a) a.

Lemma reads_n v l : Forall (ok v) l → reads v (unserialize_n def unser (length l)) (l ≫= ser v) l.
Proof.
  induction 1 as [|a l Ha _ IH]; [apply reads_ret|]. cbn [length unserialize_n].
  change ((a :: l) ≫= ser v) with (ser v a ++ (l ≫= ser v)).
  eapply reads_bind; [by apply ser_law|]. by eapply reads_bind_ret.
Qed.

Lemma reads_chunks v l chunk fuel :
  Forall (ok v) l → 1 <= chunk → (length l <= fuel)%nat →
  reads v (unserialize_chunks def unser fuel chunk (Z.of_nat (length l))) (l ≫= ser v) l.
Proof.
  intros Hl Hc. revert l Hl. induction fuel as [|fuel IH]; intros l Hl Hf.
  { destruct l; [apply reads_ret|simpl in Hf; lia]. }
  cbn [unserialize_chunks]. destruct (Z.leb_spec (Z.of_nat (length l)) 0) as [H0|H0].
  { destruct l; [apply reads_ret|simpl in H0; lia]. }
  set (k := Z.to_nat (Z.min chunk (Z.of_nat (length l)))).
  assert (length (take k l) = k) as Hk by (rewrite length_take_le; lia).
  eapply reads_eq.
  - eapply (reads_bind v _ _ (take k l ≫= ser v) (drop k l ≫= ser v)).
    + rewrite <- Hk at 1. apply reads_n. by apply Forall_take.
    + cbv beta. eapply reads_bind_ret.
      replace (Z.of_nat (length l) - Z.min chunk (Z.of_nat (length l)))
        with (Z.of_nat (length (drop k l))) by (rewrite length_drop; lia).
      apply IH; [by apply Forall_drop|rewrite length_drop; lia].
  - rewrite <- bind_app. by rewrite take_drop.
  - cbv beta. apply take_drop.
Qed.

Lemma reads_vector v l chunk :
  Forall (ok v) l → 1 <= chunk → Z.of_nat (length l) <= MAX_SIZE →
  reads v (unserialize_vector def unser chunk) (serialize_vector ser v l) l.
Proof.
  intros Hl Hc Hm. eapply reads_bind; [apply reads_CompactSize; lia|].
  rewrite Nat2Z.id. by apply reads_chunks.
Qed.

(** Growing the vector in chunks changes nothing but the allocations: the
    result is that of reading the elements one after the other. *)
Lemma unserialize_n_app m n :
  ∀ s, unserialize_n def unser (m + n) s
       = (let! l1 := unserialize_n def unser m in
          let! l2 := unserialize_n def unser n in rd_ret (l1 ++ l2)) s.
Proof.
  induction m as [|m IH]; intros s; unfold rd_bind, rd_ret in *; cbn.
  - destruct (unserialize_n def unser n s) as [[l s']| |]; done.
  - unfold rd_bind in *. destruct (unser def s) as [[a s']| |]; try done. rewrite IH.
    destruct (unserialize_n def unser m s') as [[l s'']| |]; try done.
    cbn. destruct (unserialize_n def unser n s'') as [[l' s''']| |]; done.
Qed.

Lemma unserialize_chunks_eq fuel chunk n s :
  1 <= chunk → (n <= fuel)%nat →
  unserialize_chunks def unser fuel chunk (Z.of_nat n) s = unserialize_n def unser n s.
Proof.
  intros Hc. revert n s. induction fuel as [|fuel IH]; intros n s Hn.
  { assert (n = 0)%nat as -> by lia. done. }
  cbn [unserialize_chunks]. destruct (Z.leb_spec (Z.of_nat n) 0) as [H0|H0].
  { assert (n = 0)%nat as -> by lia. done. }
  set (k := Z.to_nat (Z.min chunk (Z.of_nat n))).
  assert (unserialize_n def unser n = unserialize_n def unser (k + (n - k))) as -> by (f_equal; lia).
  rewrite unserialize_n_app. unfold rd_bind.
  destruct (unserialize_n def unser k s) as [[l s']| |]; try done.
  replace (Z.of_nat n - Z.min chunk (Z.of_nat n)) with (Z.of_nat (n - k)) by lia.
  by rewrite IH by lia.
Qed.

End vector_lemmas.

(** ** Variable-length integers *)

(** The bytes most significant first, all but the last with bit 7 set. *)
Lemma ser_writedata8_byte b : byte_ok b → ser_writedata8 b = [b].
Proof.
  intros Hb. unfold ser_writedata8. rewrite wrap_id by done. cbn [le_bytes].
  by rewrite Z.mod_small by apply Hb.
Qed.

Lemma land7f n : Z.land n 0x7f = n mod 128.
Proof. change 0x7f with (Z.ones 7). by rewrite Z.land_ones. Qed.

Lemma lor80 x : 0 <= x < 128 → Z.lor x 0x80 = x + 128.
Proof.
  intros. change 0x80 with (Z.shiftl 1 7). rewrite lor_add_disjoint by (done || split; lia). done.
Qed.

Lemma varint_tmp_ok fuel first n : bytes_ok (varint_tmp fuel first n).
Proof.
  revert first n. induction fuel as [|fuel IH]; intros; cbn [varint_tmp]; constructor.
  - apply lor_fits; [lia| |case_match; split; lia].
    rewrite land7f. pose proof (Z.mod_pos_bound n 128). split; lia.
  - case_match; [done|apply IH].
Qed.

(** The loop reads a list of bytes that all have the continuation bit. *)
Fixpoint varint_acc (w acc : Z) (l : list Z) : option Z :=
  match l with
  | [] => Some acc
  | b :: l' =>
      if acc >? Z.shiftr (2 ^ w - 1) 7 then None
      else let n := acc * 128 + b mod 128 in
           if n =? 2 ^ w - 1 then None else varint_acc w (n + 1) l'
  end.

Lemma varint_acc_app w acc l1 l2 :
  varint_acc w acc (l1 ++ l2) = varint_acc w acc l1 ≫= λ a, varint_acc w a l2.
Proof.
  revert acc. induction l1 as [|b l1 IH]; intros; [done|]. cbn [app varint_acc].
  repeat case_match; simplify_eq/=; done || apply IH.
Qed.

Lemma shiftr7 n : Z.shiftr n 7 = n / 128.
Proof. by rewrite Z.shiftr_div_pow2. Qed.

Lemma varint_tmp_acc w fuel n :
  7 <= w → 0 <= n < 2 ^ w - 1 → n < 128 ^ Z.of_nat fuel → (0 < fuel)%nat →
  varint_acc w 0 (reverse (varint_tmp fuel false n)) = Some (n + 1).
Proof.
  intros Hw. revert n. induction fuel as [|fuel IH]; intros n Hn Hf Hpos; [lia|].
  rewrite Nat2Z.inj_succ, Z.pow_succ_r in Hf by lia.
  cbn [varint_tmp]. rewrite reverse_cons, varint_acc_app.
  pose proof (Z.div_mod n 128 ltac:(lia)). pose proof (Z.mod_pos_bound n 128 ltac:(lia)).
  assert (Z.lor (Z.land n 127) 128 mod 128 = n mod 128) as Hb.
  { rewrite land7f, lor80 by lia. pose proof (Z.mod_add (n mod 128) 1 128 ltac:(lia)) as E.
    rewrite Z.mul_1_l in E. by rewrite E, Zmod_mod. }
  assert (varint_acc w 0 (reverse (if n <=? 127 then [] else varint_tmp fuel false (Z.shiftr n 7 - 1)))
          = Some (n / 128)) as ->.
  { destruct (Z.leb_spec n 127); [rewrite Z.div_small by lia; done|].
    assert (1 <= n / 128) by (apply Z.div_le_lower_bound; lia).
    assert (n / 128 < 128 ^ Z.of_nat fuel) by (apply Z.div_lt_upper_bound; lia).
    assert (0 < fuel)%nat by (destruct fuel; [simpl in *; lia|lia]).
    rewrite shiftr7, IH by lia. f_equal. lia. }
  cbn [mbind option_bind varint_acc]. rewrite Z.gtb_ltb, shiftr7, Hb.
  assert (n / 128 <= (2 ^ w - 1) / 128) by (apply Z.div_le_mono; lia).
  destruct (Z.ltb_spec ((2 ^ w - 1) / 128) (n / 128)); [lia|].
  replace (n / 128 * 128 + n mod 128) with n by lia.
  destruct (Z.eqb_spec n (2 ^ w - 1)); [lia|done].
Qed.

(** The reader loop on a run of continuation bytes followed by a last byte. *)
Lemma lor_shift7 w acc b : 7 <= w → 0 <= acc → acc <= Z.shiftr (2 ^ w - 1) 7 →
  wrap w (Z.lor (Z.shiftl acc 7) (Z.land b 0x7f)) = acc * 128 + b mod 128.
Proof.
  intros Hw H0 Ha. rewrite shiftr7 in Ha. rewrite Z.lor_comm, land7f.
  pose proof (Z.mod_pos_bound b 128 ltac:(lia)).
  rewrite lor_add_disjoint by (lia || (split; lia)). rewrite wrap_id; [lia|].
  split; [lia|]. assert (2 ^ w = 2 ^ (w - 7) * 128) as E.
  { change 128 with (2 ^ 7). rewrite <- Z.pow_add_r by lia. f_equal. lia. }
  pose proof (pow2_pos (w - 7) ltac:(lia)).
  assert ((2 ^ w - 1) / 128 <= 2 ^ (w - 7) - 1) by (apply Z.lt_succ_r; apply Z.div_lt_upper_bound; lia). lia.
Qed.

Lemma test80 b : byte_ok b → negb (Z.land b 0x80 =? 0) = (128 <=? b).
Proof.
  intros Hb. change (Z.land b 0x80) with (Z.land b (Z.shiftl 1 7)).
  rewrite land_pow2 by done. by apply (testbit_top 7).
Qed.

Lemma reads_varint_loop v w l last acc m fuel :
  7 <= w → bytes_ok l → Forall (λ b, 128 <= b) l → 0 <= last < 128 → 0 <= acc →
  varint_acc w acc l = Some m → m <= Z.shiftr (2 ^ w - 1) 7 → (length l < fuel)%nat →
  reads v (ReadVarInt_loop fuel w acc) (l ++ [last]) (m * 128 + last).
Proof.
  intros Hw Hl. revert acc fuel. induction Hl as [|b l Hb Hl IH]; intros acc fuel H8 Hlast H0 Hacc Hm Hf;
    (destruct fuel as [|fuel]; [simpl in Hf; lia|]); cbn [varint_acc ReadVarInt_loop] in *.
  - simplify_eq. eapply reads_bind_nil.
    { rewrite <- (ser_writedata8_byte last) by (split; lia). apply reads_8. split; lia. }
    rewrite Z.gtb_ltb, (proj2 (Z.ltb_ge _ _)) by lia. cbv zeta.
    rewrite lor_shift7, test80 by (lia || (split; lia)).
    rewrite (proj2 (Z.leb_gt _ _)), (Z.mod_small last) by lia. apply reads_ret.
  - apply Forall_cons_1 in H8 as [Hb8 H8]. rewrite Z.gtb_ltb in *.
    destruct (Z.ltb_spec (Z.shiftr (2 ^ w - 1) 7) acc); [done|].
    destruct (Z.eqb_spec (acc * 128 + b mod 128) (2 ^ w - 1)); [done|].
    pose proof (Z.mod_pos_bound b 128 ltac:(lia)).
    change (b :: l) with ([b] ++ l). rewrite <- app_assoc. eapply reads_bind.
    { rewrite <- (ser_writedata8_byte b) by done. by apply reads_8. }
    cbv zeta. rewrite lor_shift7, test80, (proj2 (Z.leb_le _ _)) by done || lia.
    destruct (Z.eqb_spec (acc * 128 + b mod 128) (2 ^ w - 1)); [done|].
    apply IH; simpl in Hf; done || lia.
Qed.

Lemma varint_tmp_cont fuel n : Forall (λ b, 128 <= b) (varint_tmp fuel false n).
Proof.
  revert n. induction fuel as [|fuel IH]; intros; cbn [varint_tmp]; constructor.
  - rewrite land7f, lor80; pose proof (Z.mod_pos_bound n 128); lia.
  - case_match; [done|apply IH].
Qed.

Lemma bind_bytes l : bytes_ok l → l ≫= ser_writedata8 = l.
Proof.
  induction 1 as [|b l Hb _ IH]; [done|].
  change ((b :: l) ≫= ser_writedata8) with (ser_writedata8 b ++ (l ≫= ser_writedata8)).
  by rewrite ser_writedata8_byte, IH.
Qed.

Lemma varint_len_enough w n : 7 <= w → 0 <= n < 2 ^ w → n < 128 ^ Z.of_nat (varint_len w).
Proof.
  intros Hw Hn. unfold varint_len. pose proof (Z.div_mod (w + 6) 7 ltac:(lia)).
  pose proof (Z.mod_pos_bound (w + 6) 7 ltac:(lia)). rewrite Z2Nat.id by (apply Z.div_pos; lia).
  change 128 with (2 ^ 7). rewrite <- Z.pow_mul_r by lia.
  apply Z.lt_le_trans with (2 ^ w); [lia|]. apply Z.pow_le_mono_r; lia.
Qed.

Lemma reads_VarInt v w n : 7 <= w → 0 <= n < 2 ^ w → reads v (ReadVarInt w) (WriteVarInt w n) n.
Proof.
  intros Hw Hn. unfold WriteVarInt, ReadVarInt.
  rewrite bind_bytes by (apply Forall_reverse, varint_tmp_ok).
  assert (0 < varint_len w)%nat as Hvl.
  { unfold varint_len. assert (1 <= (w + 6) / 7) by (apply Z.div_le_lower_bound; lia). lia. }
  pose proof (varint_len_enough w n Hw Hn) as Hbig.
  destruct (varint_len w) as [|fuel]; [lia|]. cbn [varint_tmp]. rewrite reverse_cons, Z.lor_0_r, land7f.
  pose proof (Z.div_mod n 128 ltac:(lia)) as Hdm. pose proof (Z.mod_pos_bound n 128 ltac:(lia)).
  assert (n / 128 <= Z.shiftr (2 ^ w - 1) 7) by (rewrite shiftr7; apply Z.div_le_mono; lia).
  rewrite Nat2Z.inj_succ, Z.pow_succ_r in Hbig by lia.
  intros s rest Hv Ha.
  set (l := if n <=? 127 then [] else varint_tmp fuel false (Z.shiftr n 7 - 1)) in *.
  assert (varint_acc w 0 (reverse l) = Some (n / 128)) as Hacc.
  { subst l. destruct (Z.leb_spec n 127); [by rewrite Z.div_small by lia|].
    assert (1 <= n / 128) by (apply Z.div_le_lower_bound; lia).
    assert (n / 128 < 128 ^ Z.of_nat fuel) by (apply Z.div_lt_upper_bound; lia).
    assert (0 < fuel)%nat by (destruct fuel; simpl in *; lia).
    rewrite shiftr7, varint_tmp_acc by lia. f_equal. lia. }
  assert (bytes_ok l ∧ Forall (λ b, 128 <= b) l) as [Hl1 Hl2].
  { subst l. case_match; [done|]. split; [apply varint_tmp_ok|apply varint_tmp_cont]. }
  assert (length (reverse l) < S (length (nd_data s)))%nat as Hfuel.
  { destruct Ha as (Hp & _ & Hs & _). rewrite !length_app in Hs. unfold nd_size in Hs. lia. }
  rewrite (reads_varint_loop v w (reverse l) (n mod 128) 0 (n / 128) _ Hw
             (proj2 (Forall_reverse _ _) Hl1) (proj2 (Forall_reverse _ _) Hl2) H ltac:(lia) Hacc H0 Hfuel s rest Hv Ha).
  by replace (n / 128 * 128 + n mod 128) with n by lia.
Qed.

(** ** What a pair of overloads promises *)

Class Serializable (A : Type) := {
  ser_def : A;                     (* the default-constructed object *)
  serialize : Z → A → list Z;      (* version, object *)
  unserialize : A → rd A;          (* the object read into *)
  ser_ok : Z → A → Prop;           (* the values the format can carry *)
  ser_law : ∀ v a, ser_ok v a → reads v (unserialize ser_def) (serialize v a) a
}.

(** [std::vector<T>]: the slots are value-initialised before they are read.  The
    vector grows by [1 + 4999999 / sizeof(T)] slots at a time, which changes
    nothing in the result ([unserialize_chunks_eq]). *)
Definition chunk_of (sizeof : Z) : Z := 1 + 4999999 / sizeof.

Section serializable_vector.
Context {A : Type} `{Serializable A} (sizeof : Z).

Definition ser_vec (v : Z) (l : list A) : list Z := serialize_vector serialize v l.
Definition unser_vec : rd (list A) := unserialize_vector ser_def unserialize (chunk_of sizeof).
Definition vec_ok (v : Z) (l : list A) : Prop :=
  Z.of_nat (length l) <= MAX_SIZE ∧ Forall (ser_ok v) l.

Lemma reads_vec v l : 0 < sizeof → vec_ok v l → reads v unser_vec (ser_vec v l) l.
Proof.
  intros Hs [Hl Hok]. eapply reads_vector; [apply ser_law|done| |done].
  unfold chunk_of. assert (0 <= 4999999 / sizeof) by (apply Z.div_pos; lia). lia.
Qed.

End serializable_vector.

(** Integers, by width and signedness. *)
Definition ser_int (n : nat) (x : Z) : list Z := le_bytes n (wrap (8 * Z.of_nat n) x).
Definition unser_uint (n : nat) : rd Z :=
  let! b := rd_uninit (Z.of_nat n) in rd_ret (le_value b).
Definition unser_int (n : nat) : rd Z :=
  let! b := rd_uninit (Z.of_nat n) in rd_ret (swrap (8 * Z.of_nat n) (le_value b)).

Lemma pow256_nat n : 256 ^ Z.of_nat n = 2 ^ (8 * Z.of_nat n).
Proof. change 256 with (2 ^ 8). by rewrite <- Z.pow_mul_r by lia. Qed.

Lemma reads_uint v n x :
  (0 < n)%nat → fits (8 * Z.of_nat n) x → reads v (unser_uint n) (ser_int n x) x.
Proof.
  intros Hn Hx. unfold ser_int. rewrite wrap_id by done. apply reads_le; [done|].
  by rewrite pow256_nat.
Qed.

Lemma swrap_wrap w x : 1 <= w → sfits w x → swrap w (wrap w x) = x.
Proof.
  intros Hw Hx. unfold swrap, wrap. rewrite Zplus_mod_idemp_l.
  change (swrap w x = x). by apply swrap_id.
Qed.

Lemma reads_int v n x :
  (0 < n)%nat → sfits (8 * Z.of_nat n) x → reads v (unser_int n) (ser_int n x) x.
Proof.
  intros Hn Hx. unfold ser_int. eapply reads_eq; [eapply reads_bind_ret|reflexivity|].
  - rewrite <- (length_le_bytes n (wrap (8 * Z.of_nat n) x)) at 1. apply reads_uninit.
    destruct n; [lia|done].
  - rewrite le_value_le_bytes, pow256_nat. cbv beta. change (_ mod 2 ^ (8 * Z.of_nat n)) with
      (wrap (8 * Z.of_nat n) (wrap (8 * Z.of_nat n) x)). rewrite wrap_wrap. apply swrap_wrap; [lia|done].
Qed.

(** [bool] travels as one byte. *)
Definition ser_bool (b : bool) : list Z := ser_writedata8 (if b then 1 else 0).
Definition unser_bool : rd bool := let! f := ser_readdata8 in rd_ret (negb (f =? 0)).

Lemma reads_bool v b : reads v unser_bool (ser_bool b) b.
Proof.
  eapply reads_eq; [eapply reads_bind_ret, reads_8|reflexivity|]; destruct b; done || (split; lia).
Qed.

(** Fixed-size arrays and blobs ([base_blob], [char (&)[N]], [FLATDATA]). *)
Lemma reads_array v (n : nat) old bs :
  (0 < n)%nat → length bs = n → reads v (rd_into old (Z.of_nat n)) bs bs.
Proof. intros Hn <-. apply reads_into. destruct bs; [simpl in Hn; lia|done]. Qed.

(** ** Inversion: what a successful read says about the bytes *)

Lemma rd_uninit_inv k s l bs s' :
  avail s l → rd_uninit k s = Done (bs, s') →
  ∃ rest, l = bs ++ rest ∧ Z.of_nat (length bs) = k ∧ s' = nd_advance (length bs) s ∧ avail s' rest.
Proof.
  intros Ha. pose proof Ha as (H0 & H1 & H2 & H3). unfold rd_uninit, nd_read.
  destruct (Z.leb_spec k 0); [done|].
  destruct (Z.ltb_spec (nd_size s) (nd_readPos s + k)); [done|]. intros [= <- <-].
  unfold slice. rewrite H1. exists (drop (Z.to_nat k) l).
  assert (Z.of_nat (length (take (Z.to_nat k) l)) = k) as Hk by (rewrite length_take_le; lia).
  assert (nd_set_pos (wrap32 (nd_readPos s + k)) s = nd_advance (length (take (Z.to_nat k) l)) s) as ->.
  { unfold nd_advance. rewrite Hk, wrap_id by (split; lia). done. }
  split_and!; [by rewrite take_drop|done|done|].
  apply avail_advance. by rewrite take_drop.
Qed.

Lemma rd_bind_inv {A B} (r : rd A) (f : A → rd B) s b s' :
  rd_bind r f s = Done (b, s') → ∃ a s1, r s = Done (a, s1) ∧ f a s1 = Done (b, s').
Proof. unfold rd_bind. destruct (r s) as [[a s1]| |]; try done. eauto. Qed.

Lemma unser_uint_inv n s l x s' :
  avail s l → bytes_ok l → unser_uint n s = Done (x, s') →
  ∃ rest, l = ser_int n x ++ rest ∧ fits (8 * Z.of_nat n) x ∧
          s' = nd_advance (length (ser_int n x)) s ∧ avail s' rest ∧ bytes_ok rest.
Proof.
  intros Ha Hl Hr. unfold unser_uint in Hr. apply rd_bind_inv in Hr as (bs & s1 & Hr & [= <- <-]).
  destruct (rd_uninit_inv _ _ _ _ _ Ha Hr) as (rest & -> & Hlen & -> & Ha').
  apply Forall_app in Hl as [Hb Hrest]. exists rest.
  assert (n = length bs) as -> by lia. pose proof (le_value_bound bs Hb) as Hv. rewrite pow256_nat in Hv.
  unfold ser_int. rewrite wrap_id, le_bytes_le_value by done. done.
Qed.

Lemma check_max_inv n s m s' : check_max n s = Done (m, s') → m = n ∧ s' = s ∧ n <= MAX_SIZE.
Proof.
  unfold check_max. rewrite Z.gtb_ltb. destruct (Z.ltb_spec MAX_SIZE n); [done|]. by intros [= -> ->].
Qed.

Lemma ser_int_8 x : ser_int 1 x = ser_writedata8 x. Proof. done. Qed.
Lemma ser_int_16 x : ser_int 2 x = ser_writedata16 x. Proof. done. Qed.
Lemma ser_int_32 x : ser_int 4 x = ser_writedata32 x. Proof. done. Qed.
Lemma ser_int_64 x : ser_int 8 x = ser_writedata64 x. Proof. done. Qed.

(** The three long forms differ in the marker byte and the width only. *)
Lemma long_compact_inv k s1 rest1 n s' lo marker :
  avail s1 rest1 → bytes_ok rest1 →
  (let! n := unser_uint k in
   if n <? lo then rd_throw NonCanonicalCompactSize else check_max n) s1 = Done (n, s') →
  lo <= n <= MAX_SIZE ∧ (∃ rest, ser_writedata8 marker ++ rest1 = (ser_writedata8 marker ++ ser_int k n) ++ rest) ∧
  s' = nd_advance (length (ser_int k n)) s1 ∧ fits (8 * Z.of_nat k) n.
Proof.
  intros Ha Hb Hr. apply rd_bind_inv in Hr as (x & s2 & Hx & Hr).
  destruct (unser_uint_inv _ _ _ _ _ Ha Hb Hx) as (rest & -> & Hfit & -> & _).
  destruct (Z.ltb_spec x lo); [done|]. apply check_max_inv in Hr as (-> & -> & Hmax).
  split_and!; [lia|lia| |done|done]. exists rest. by rewrite app_assoc.
Qed.

Lemma ReadCompactSize_inv s l n s' :
  avail s l → bytes_ok l → ReadCompactSize s = Done (n, s') →
  0 <= n <= MAX_SIZE ∧ (∃ rest, l = WriteCompactSize n ++ rest) ∧
  s' = nd_advance (length (WriteCompactSize n)) s.
Proof.
  intros Ha Hl Hr. apply rd_bind_inv in Hr as (ch & s1 & Hch & Hr).
  change ser_readdata8 with (unser_uint 1) in Hch.
  destruct (unser_uint_inv _ _ _ _ _ Ha Hl Hch) as (rest1 & -> & Hfit & -> & Ha1 & Hb1).
  change (8 * Z.of_nat 1) with 8 in Hfit. destruct Hfit as [Hf0 Hf1].
  rewrite ser_int_8 in *. unfold WriteCompactSize.
  destruct (Z.ltb_spec ch 253) as [H1|H1].
  { apply check_max_inv in Hr as (-> & -> & Hmax).
    rewrite (proj2 (Z.ltb_lt ch 253)) by done. split_and!; [lia|lia|by exists rest1|done]. }
  destruct (Z.eqb_spec ch 253) as [->|]; [|destruct (Z.eqb_spec ch 254) as [->|]].
  - change ser_readdata16 with (unser_uint 2) in Hr.
    destruct (long_compact_inv 2 _ _ _ _ 253 253 Ha1 Hb1 Hr) as ([H2 H3] & Hex & -> & [_ H4]).
    change (2 ^ (8 * Z.of_nat 2)) with 65536 in H4.
    rewrite (proj2 (Z.ltb_ge n 253)), (proj2 (Z.leb_le n 0xffff)) by lia.
    rewrite nd_advance_add, <- length_app. split_and!; [lia|lia|done|done].
  - change ser_readdata32 with (unser_uint 4) in Hr.
    destruct (long_compact_inv 4 _ _ _ _ 0x10000 254 Ha1 Hb1 Hr) as ([H2 H3] & Hex & -> & [_ H4]).
    change (2 ^ (8 * Z.of_nat 4)) with (2 ^ 32) in H4.
    rewrite (proj2 (Z.ltb_ge n 253)), (proj2 (Z.leb_gt n 0xffff)), (proj2 (Z.leb_le n 0xffffffff)) by lia.
    rewrite nd_advance_add, <- length_app. split_and!; [lia|lia|done|done].
  - change ser_readdata64 with (unser_uint 8) in Hr.
    destruct (long_compact_inv 8 _ _ _ _ 0x100000000 255 Ha1 Hb1 Hr) as ([H2 H3] & _).
    unfold MAX_SIZE in H3. lia.
Qed.

(** ** Properties *)

(** A compact size up to MAX_SIZE is read back from its encoding, consuming
    exactly the encoding's bytes; conversely, whatever [ReadCompactSize] accepts
    is at most MAX_SIZE and was the one canonical (shortest) encoding of it. *)
Theorem CompactSize_roundtrip_canonical (s : NetMessageData) (l : list Z) (n : Z) :
  avail s l → bytes_ok l →
  (0 <= n <= MAX_SIZE ∧ (∃ rest, l = WriteCompactSize n ++ rest)) ↔
  ReadCompactSize s = Done (n, nd_advance (length (WriteCompactSize n)) s).
Proof.
  intros Ha Hl. split.
  - intros [Hn [rest ->]]. by eapply reads_CompactSize.
  - intros Hr. destruct (ReadCompactSize_inv s l n _ Ha Hl Hr) as (Hn & Hrest & _). done.
Qed.

Lemma CompactSize_roundtrip_canonical_witness :
  ReadCompactSize (nd_of_buffer [253; 253; 0; 7] 0)
  = Done (253, nd_set_pos 3 (nd_of_buffer [253; 253; 0; 7] 0)) ∧
  ReadCompactSize (nd_of_buffer [253; 252; 0; 7] 0) = Thrown NonCanonicalCompactSize.
Proof.
  split; [|reflexivity].
  apply (CompactSize_roundtrip_canonical (nd_of_buffer [253; 253; 0; 7] 0) [253; 253; 0; 7] 253).
  - unfold avail. split_and!; vm_compute; congruence.
  - repeat (constructor; [split; lia|]). constructor.
  - split; [unfold MAX_SIZE; lia|]. exists [7]. reflexivity.
Defined.

(** A variable-length integer of any unsigned width is read back from its
    encoding, which fits the [tmp] array and whose reading loop never runs out
    of iterations. *)
Theorem VarInt_roundtrip (w n : Z) (s : NetMessageData) (rest : list Z) :
  7 <= w → 0 <= n < 2 ^ w → avail s (WriteVarInt w n ++ rest) →
  ReadVarInt w s = Done (n, nd_advance (length (WriteVarInt w n)) s).
Proof. intros Hw Hn Ha. by eapply reads_VarInt. Qed.

Lemma VarInt_roundtrip_witness :
  WriteVarInt 64 65535 = [0x82; 0xfe; 0x7f] ∧
  ReadVarInt 64 (nd_of_buffer (WriteVarInt 64 65535) 0)
  = Done (65535, nd_set_pos 3 (nd_of_buffer (WriteVarInt 64 65535) 0)).
Proof.
  split; [reflexivity|].
  apply (VarInt_roundtrip 64 65535 (nd_of_buffer (WriteVarInt 64 65535) 0) []); [lia|lia|].
  unfold avail. split_and!; vm_compute; congruence.
Defined.
