(* ===== verification/Containers.v ===== *)
(** * Sizes, pairs, sets and maps on the wire: the rest of [serialize.h]

    The templates of serialize.h write to any stream.  What an object does to a stream
    is here the list of its calls: raw bytes, or a compact size, the function that is
    overloaded for [CSizeComputer], which only counts.  The size it computes is proved to be the
    number of bytes written.  [std::set] and [std::map] are lists in the order of
    their keys; what was written is read back, and whatever arrives, the container
    that is read is in order and without duplicate keys. *)

From Stdlib Require Import ZifyNat.
From stdpp Require Import base list numbers sorting.
From S2P Require Import Prelude Serialize.

Open Scope Z_scope.

(** ** Streams *)

(** A call of the stream: [write] with its bytes, or the unqualified [WriteCompactSize],
    which is overloaded for [CSizeComputer]. *)
Inductive emission := EWrite (bytes : list Z) | ECompact (n : Z).

(** [template<typename Stream>]: what a stream does with the calls. *)
Class OutStream (S : Type) := {
  os_write : list Z → S → S;
  os_compact : Z → S → S;
}.

Definition emit {S} `{OutStream S} (s : S) (e : emission) : S :=
  match e with EWrite bytes => os_write bytes s | ECompact n => os_compact n s end.
Definition emit_all {S} `{OutStream S} (es : list emission) (s : S) : S := foldl emit s es.

(** A stream of bytes, with the general templates. *)
#[global] Instance bytes_stream : OutStream (list Z) := {|
  os_write bytes s := s ++ bytes;
  os_compact n s := s ++ WriteCompactSize n;
|}.

(** [class CSizeComputer]; its [read] and [operator>>] do nothing. *)
Record CSizeComputer := mk_CSizeComputer { sc_nSize : Z; sc_nType : Z; sc_nVersion : Z }.

Definition CSizeComputer_new (nType nVersion : Z) : CSizeComputer := mk_CSizeComputer 0 nType nVersion.
Definition sc_seek (s : CSizeComputer) (n : Z) : CSizeComputer :=
  mk_CSizeComputer (wrap64 (sc_nSize s + n)) (sc_nType s) (sc_nVersion s).
Definition sc_write (s : CSizeComputer) (bytes : list Z) : CSizeComputer :=
  mk_CSizeComputer (wrap64 (sc_nSize s + Z.of_nat (length bytes))) (sc_nType s) (sc_nVersion s).
Definition sc_read (s : CSizeComputer) (n : Z) : CSizeComputer := s.

(** [WriteCompactSize(CSizeComputer&, ...)]. *)
Definition sc_WriteCompactSize (s : CSizeComputer) (nSize : Z) : CSizeComputer := sc_seek s (GetSizeOfCompactSize nSize).

#[global] Instance size_stream : OutStream CSizeComputer := {|
  os_write bytes s := sc_write s bytes;
  os_compact n s := sc_WriteCompactSize s n;
|}.

(** ** Objects *)

(** [CFlatData] and arrays: the bytes between two pointers. *)
Definition ser_flat (bytes : list Z) : list emission := [EWrite bytes].
Definition unser_flat (old : list Z) : rd (list Z) := rd_into old (Z.of_nat (length old)).

(** [CVarInt]: the wrapper names the template arguments of [WriteVarInt], which selects
    the general template for every stream, one [write] per byte. *)
Definition ser_CVarInt (w n : Z) : list emission :=
  (λ b, EWrite (ser_writedata8 b)) <$> reverse (varint_tmp (varint_len w) true n).
Definition unser_CVarInt (w : Z) : rd Z := ReadVarInt w.

(** [CCompactSize]: the general template again, a marker byte and the number. *)
Definition ser_CCompactSize (nSize : Z) : list emission :=
  if nSize <? 253 then [EWrite (ser_writedata8 nSize)]
  else if nSize <=? 0xFFFF then [EWrite (ser_writedata8 253); EWrite (ser_writedata16 nSize)]
  else if nSize <=? 0xFFFFFFFF then [EWrite (ser_writedata8 254); EWrite (ser_writedata32 nSize)]
  else [EWrite (ser_writedata8 255); EWrite (ser_writedata64 nSize)].
Definition unser_CCompactSize : rd Z := ReadCompactSize.

(** Strings and [LimitedString]. *)
Definition ser_string (str : list Z) : list emission :=
  ECompact (Z.of_nat (length str)) :: (if (length str =? 0)%nat then [] else [EWrite str]).

(** A [float] or [double] is its bit pattern. *)
Definition ser_float (bits : Z) : list emission := [EWrite (ser_writedata32 bits)].
Definition unser_float : rd Z := ser_readdata32.
Definition ser_double (bits : Z) : list emission := [EWrite (ser_writedata64 bits)].
Definition unser_double : rd Z := ser_readdata64.

(** [SerializeMany] of the members of an object, [UnserializeMany] into them. *)
Fixpoint SerializeMany (args : list (list emission)) : list emission :=
  match args with [] => [] | arg :: args => arg ++ SerializeMany args end.
Fixpoint UnserializeMany {T} (args : list (T → rd T)) (obj : T) : rd T :=
  match args with [] => rd_ret obj | arg :: args => let! obj := arg obj in UnserializeMany args obj end.

Section objects.
Context {A B : Type}.

(** [std::pair]. *)
Definition ser_pair (f : A → list emission) (g : B → list emission) (item : A * B) : list emission := f item.1 ++ g item.2.
Definition unser_pair (f : A → rd A) (g : B → rd B) (item : A * B) : rd (A * B) :=
  let! a := f item.1 in let! b := g item.2 in rd_ret (a, b).

(** [std::unique_ptr] and [std::shared_ptr]: the object pointed to, none for a null
    pointer, which must not be written; reading replaces it by a new object. *)
Definition ser_ptr (f : A → list emission) (p : option A) : option (list emission) := f <$> p.
Definition unser_ptr (deserialize : rd A) (p : option A) : rd (option A) :=
  let! t := deserialize in rd_ret (Some t).

(** The containers that are walked through. *)
Definition ser_each (f : A → list emission) (m : list A) : list emission := ECompact (Z.of_nat (length m)) :: (m ≫= f).

(** [std::set] with the order [lt] on its elements, or [std::map] with the order on the
    keys of its pairs: [insert] leaves an equivalent element in place. *)
Context (lt : A → A → bool).

Fixpoint ord_insert (x : A) (m : list A) : list A :=
  match m with
  | [] => [x]
  | y :: m' => if lt x y then x :: m else if lt y x then y :: ord_insert x m' else m
  end.

(** [for (unsigned int i = 0; i < nSize; i++)] with a default-constructed object each. *)
Fixpoint unser_ord_loop (def : A) (f : A → rd A) (n : nat) (m : list A) : rd (list A) :=
  match n with O => rd_ret m | S n => let! x := f def in unser_ord_loop def f n (ord_insert x m) end.
Definition unser_ord (def : A) (f : A → rd A) : rd (list A) :=
  let! nSize := ReadCompactSize in unser_ord_loop def f (Z.to_nat (wrap32 nSize)) [].
End objects.

(** [std::set<K>]. *)
Definition ser_set {K} (f : K → list emission) (m : list K) : list emission := ser_each f m.
Definition unser_set {K} (lt : K → K → bool) (def : K) (f : K → rd K) : rd (list K) := unser_ord lt def f.

(** [std::map<K, T>]. *)
Definition key_lt {K T} (lt : K → K → bool) (a b : K * T) : bool := lt a.1 b.1.
Definition ser_map {K T} (f : K → list emission) (g : T → list emission) (m : list (K * T)) : list emission :=
  ser_each (ser_pair f g) m.
Definition unser_map {K T} (lt : K → K → bool) (def : K * T) (f : K → rd K) (g : T → rd T) : rd (list (K * T)) :=
  unser_ord (key_lt lt) def (unser_pair f g).

(** [GetSerializeSize]. *)
Definition GetSerializeSize (nType nVersion : Z) (es : list emission) : Z :=
  sc_nSize (emit_all es (CSizeComputer_new nType nVersion)).

(** The size for the type and version of another stream. *)
Definition GetSerializeSize_like (s : CSizeComputer) (es : list emission) : Z := GetSerializeSize (sc_nType s) (sc_nVersion s) es.

(** The bytes of an object. *)
Definition bytes_of (es : list emission) : list Z := emit_all es [].

(** ** Sizes *)

Definition emission_bytes (e : emission) : list Z :=
  match e with EWrite bytes => bytes | ECompact n => WriteCompactSize n end.

Lemma bytes_of_eq es : bytes_of es = es ≫= emission_bytes.
Proof.
  unfold bytes_of, emit_all. assert (∀ s, foldl emit s es = s ++ (es ≫= emission_bytes)) as H; [|apply H].
  induction es as [|e es IH]; intros s; [by rewrite app_nil_r|]. cbn [foldl]. rewrite IH.
  change ((e :: es) ≫= emission_bytes) with (emission_bytes e ++ (es ≫= emission_bytes)). rewrite app_assoc. by destruct e.
Qed.

Lemma bytes_of_app es1 es2 : bytes_of (es1 ++ es2) = bytes_of es1 ++ bytes_of es2.
Proof. by rewrite !bytes_of_eq, bind_app. Qed.

Lemma bytes_of_cons e es : bytes_of (e :: es) = emission_bytes e ++ bytes_of es.
Proof. by rewrite !bytes_of_eq. Qed.

Lemma bytes_of_bind {A} (f : A → list emission) l : bytes_of (l ≫= f) = l ≫= (λ x, bytes_of (f x)).
Proof.
  induction l as [|x l IH]; [done|].
  change ((x :: l) ≫= f) with (f x ++ (l ≫= f)). by rewrite bytes_of_app, IH.
Qed.

(** The wrappers write what the functions of the byte stream write. *)
Lemma bytes_of_CVarInt w n : bytes_of (ser_CVarInt w n) = WriteVarInt w n.
Proof.
  rewrite bytes_of_eq. unfold ser_CVarInt, WriteVarInt. generalize (reverse (varint_tmp (varint_len w) true n)) as l.
  induction l as [|b l IH]; [done|]. cbn [fmap list_fmap].
  change (emission_bytes (EWrite (ser_writedata8 b)) ++ ((λ b, EWrite (ser_writedata8 b)) <$> l) ≫= emission_bytes = ser_writedata8 b ++ (l ≫= ser_writedata8)).
  by rewrite IH.
Qed.

Lemma bytes_of_CCompactSize n : bytes_of (ser_CCompactSize n) = WriteCompactSize n.
Proof. rewrite bytes_of_eq. unfold ser_CCompactSize, WriteCompactSize. by repeat case_match. Qed.

Lemma length_varint fuel first n : (0 < fuel)%nat → 0 <= n < 128 ^ Z.of_nat fuel →
  Z.of_nat (length (varint_tmp fuel first n)) = varint_size_loop fuel n.
Proof.
  revert first n. induction fuel as [|fuel IH]; intros first n Hf Hn; [lia|]. cbn [varint_tmp varint_size_loop].
  destruct (Z.leb_spec n 0x7f); [done|]. cbn [length]. rewrite Nat2Z.inj_succ in *. rewrite Z.pow_succ_r in Hn by lia.
  destruct fuel as [|fuel]; [cbn in Hn; lia|]. rewrite IH; [lia|lia|]. rewrite shiftr7. Z.div_mod_to_equations. lia.
Qed.

Lemma varint_size_bound fuel n : 0 <= varint_size_loop fuel n <= Z.of_nat fuel.
Proof. revert n. induction fuel as [|fuel IH]; intros n; cbn [varint_size_loop]; [lia|]. case_match; [lia|]. specialize (IH (Z.shiftr n 7 - 1)). lia. Qed.

Lemma length_WriteVarInt w n : 7 <= w → 0 <= n < 2 ^ w → Z.of_nat (length (WriteVarInt w n)) = GetSizeOfVarInt w n.
Proof.
  intros Hw Hn. unfold WriteVarInt, GetSizeOfVarInt.
  rewrite bind_bytes by (apply Forall_reverse, varint_tmp_ok). rewrite length_reverse.
  apply length_varint; [|split; [lia|by apply varint_len_enough]].
  unfold varint_len. assert (1 <= (w + 6) / 7) by (apply Z.div_le_lower_bound; lia). lia.
Qed.

Lemma emission_size e s : sc_nSize (emit s e) = wrap64 (sc_nSize s + Z.of_nat (length (emission_bytes e))).
Proof. destruct e as [bytes|n]; [done|]. cbn. by rewrite length_WriteCompactSize. Qed.

(** The size is counted modulo the width of [size_t]. *)
Lemma emit_all_size es s : fits 64 (sc_nSize s) →
  sc_nSize (emit_all es s) = wrap64 (sc_nSize s + Z.of_nat (length (bytes_of es))).
Proof.
  unfold emit_all. revert s. induction es as [|e es IH]; intros s Hs.
  { cbn [foldl]. change (bytes_of []) with (@nil Z). by rewrite Z.add_0_r, wrap_id. }
  cbn [foldl]. rewrite bytes_of_cons, length_app, IH, emission_size.
  - unfold wrap. rewrite Zplus_mod_idemp_l. f_equal. lia.
  - rewrite emission_size. apply wrap_fits; lia.
Qed.

Section order.
Context {A : Type} (lt : A → A → bool).
Let R (a b : A) : Prop := lt a b = true.
Context (lt_trans : ∀ a b c, lt a b = true → lt b c = true → lt a c = true) (lt_irrefl : ∀ a, lt a a = false).

Lemma ord_insert_In x z m : z ∈ ord_insert lt x m → z = x ∨ z ∈ m.
Proof using Type*.
  induction m as [|y m IH]; cbn [ord_insert]; [intros ?%list_elem_of_singleton; auto|].
  destruct (lt x y); [intros [->|?]%elem_of_cons; auto|]. destruct (lt y x); [|auto].
  intros [->|Hz]%elem_of_cons; [right; apply list_elem_of_here|]. destruct (IH Hz) as [->|]; [auto|]. right. by apply list_elem_of_further.
Qed.

Lemma ord_insert_sorted x m : StronglySorted R m → StronglySorted R (ord_insert lt x m).
Proof using Type*.
  induction 1 as [|y m Hm IH Hy]; cbn [ord_insert]; [by repeat constructor|].
  destruct (lt x y) eqn:Exy.
  - constructor; [by constructor|]. constructor; [done|]. eapply Forall_impl; [exact Hy|]. intros z Hz. by apply (lt_trans x y z).
  - destruct (lt y x) eqn:Eyx; [|by constructor]. constructor; [done|]. apply list.Forall_forall. intros z [->|Hz]%ord_insert_In; [done|].
    rewrite list.Forall_forall in Hy. by apply Hy.
Qed.

Lemma ord_insert_last x m : Forall (λ y, R y x) m → ord_insert lt x m = m ++ [x].
Proof using Type*.
  induction 1 as [|y m Hy Hm IH]; [done|]. cbn [ord_insert app]. destruct (lt x y) eqn:E.
  - pose proof (lt_trans x y x E Hy) as C. by rewrite lt_irrefl in C.
  - unfold R in Hy. by rewrite Hy, IH.
Qed.
End order.

(** ** Sets and maps *)

Section ordered.
Context {A : Type} (lt : A → A → bool) (def : A) (f : A → rd A).
Context (lt_trans : ∀ a b c, lt a b = true → lt b c = true → lt a c = true) (lt_irrefl : ∀ a, lt a a = false).

Lemma unser_ord_loop_sorted n m s l s' : StronglySorted (λ a b, lt a b = true) m →
  unser_ord_loop lt def f n m s = Done (l, s') → StronglySorted (λ a b, lt a b = true) l.
Proof using Type*.
  revert m s. induction n as [|n IH]; intros m s Hm; cbn [unser_ord_loop]; [by intros [= <- <-]|].
  intros (x & s1 & _ & H)%rd_bind_inv. eapply IH; [|exact H]. by apply ord_insert_sorted.
Qed.

Lemma reads_ord_loop v (g : A → list emission) l m :
  Forall (λ x, reads v (f def) (bytes_of (g x)) x) l → StronglySorted (λ a b, lt a b = true) (m ++ l) →
  reads v (unser_ord_loop lt def f (length l) m) (bytes_of (l ≫= g)) (m ++ l).
Proof using Type*.
  intros Hl. revert m. induction Hl as [|x l Hx Hl IH]; intros m Hs; cbn [length unser_ord_loop].
  { rewrite app_nil_r. apply reads_ret. }
  change ((x :: l) ≫= g) with (g x ++ (l ≫= g)). rewrite bytes_of_app. eapply reads_bind; [exact Hx|].
  rewrite ord_insert_last; [|exact lt_trans|exact lt_irrefl|].
  - rewrite (cons_middle x m l), app_assoc. apply IH. by rewrite <- app_assoc.
  - apply list.Forall_forall. intros y Hy. by apply (StronglySorted_app_1_elem_of (λ a b, lt a b = true) m (x :: l)); [|..|apply list_elem_of_here].
Qed.
End ordered.

(** ** Properties *)

(** The size computer counts the bytes that writing the object to a stream produces,
    though it never forms them: [GetSerializeSize] is their number modulo 2^64, whatever
    the object. *)
Theorem GetSerializeSize_counts (nType nVersion : Z) (es : list emission) :
  GetSerializeSize nType nVersion es = wrap64 (Z.of_nat (length (bytes_of es))).
Proof. unfold GetSerializeSize. rewrite emit_all_size; [done|]. by vm_compute. Qed.

(** For a variable-length integer of its type, the wrapper's size is the one
    [GetSizeOfVarInt] computes by shifting. *)
Theorem GetSerializeSize_CVarInt (nType nVersion w n : Z) : 7 <= w <= 64 → 0 <= n < 2 ^ w →
  GetSerializeSize nType nVersion (ser_CVarInt w n) = GetSizeOfVarInt w n.
Proof.
  intros Hw Hn. rewrite GetSerializeSize_counts, bytes_of_CVarInt, length_WriteVarInt by lia.
  apply wrap_id. unfold GetSizeOfVarInt. pose proof (varint_size_bound (varint_len w) n). unfold varint_len in *.
  assert ((w + 6) / 7 <= 10) by (apply Z.div_le_upper_bound; lia). unfold fits. lia.
Qed.

(** A set or map that is in order, as the container keeps it, and whose elements read
    back, is read back from the bytes it was written as. *)
Lemma reads_ordered {A} (lt : A → A → bool) (def : A) (f : A → rd A) (g : A → list emission) (v : Z) (m : list A) :
  (∀ a b c, lt a b = true → lt b c = true → lt a c = true) → (∀ a, lt a a = false) →
  Z.of_nat (length m) <= MAX_SIZE → StronglySorted (λ a b, lt a b = true) m →
  Forall (λ x, reads v (f def) (bytes_of (g x)) x) m →
  reads v (unser_ord lt def f) (bytes_of (ser_each g m)) m.
Proof.
  intros Ht Hi Hlen Hs Hm. unfold unser_ord, ser_each. rewrite bytes_of_cons. eapply reads_bind.
  - apply reads_CompactSize. unfold MAX_SIZE in *. lia.
  - unfold MAX_SIZE in *. rewrite wrap_id by (unfold fits; lia). rewrite Nat2Z.id. by apply (reads_ord_loop lt def f Ht Hi v g m []).
Qed.

(** Whatever bytes arrive, the set or map that is read is in strict order: no two of its
    elements are equivalent, however often an element was sent. *)
Theorem unser_ord_sorted {A} (lt : A → A → bool) (def : A) (f : A → rd A) (s s' : NetMessageData) (m : list A) :
  (∀ a b c, lt a b = true → lt b c = true → lt a c = true) → (∀ a, lt a a = false) →
  unser_ord lt def f s = Done (m, s') → StronglySorted (λ a b, lt a b = true) m.
Proof.
  intros Ht Hi. unfold unser_ord. intros (n & s1 & _ & H)%rd_bind_inv.
  eapply unser_ord_loop_sorted; [exact Ht|exact Hi| |exact H]. constructor.
Qed.

(** A map of pairs of bytes, by the order of the keys. *)
Theorem map_roundtrip {K T} (lt : K → K → bool) (def : K * T) (fk : K → rd K) (ft : T → rd T)
    (gk : K → list emission) (gt : T → list emission) (v : Z) (m : list (K * T)) :
  (∀ a b c, lt a b = true → lt b c = true → lt a c = true) → (∀ a, lt a a = false) →
  Z.of_nat (length m) <= MAX_SIZE → StronglySorted (λ a b, lt a.1 b.1 = true) m →
  Forall (λ x, reads v (fk def.1) (bytes_of (gk x.1)) x.1 ∧ reads v (ft def.2) (bytes_of (gt x.2)) x.2) m →
  reads v (unser_map lt def fk ft) (bytes_of (ser_map gk gt m)) m.
Proof.
  intros Ht Hi Hlen Hs Hm. apply (reads_ordered (key_lt lt)); [intros ???; apply Ht|intros ?; apply Hi|done|done|].
  eapply Forall_impl; [exact Hm|]. intros [k t] [Hk Ht']. unfold ser_pair, unser_pair. cbn [fst snd] in *. rewrite bytes_of_app.
  eapply reads_bind; [exact Hk|]. eapply reads_bind_nil; [exact Ht'|apply reads_ret].
Qed.

(** Three elements of which two are equal make a set of two, in order. *)
Example set_of_three_bytes :
  match unser_set Z.ltb 0 (λ _, ser_readdata8) (nd_of_buffer [3; 7; 2; 7] 0) with Done (m, _) => m | _ => [] end = [2; 7].
Proof. vm_compute. reflexivity. Qed.

Example map_bytes :
  bytes_of (ser_map (λ k, [EWrite (ser_writedata8 k)]) (ser_CVarInt 64) [(1, 300); (2, 5)]) = [2; 1; 0x81; 0x2c; 2; 5].
Proof. vm_compute. reflexivity. Qed.
