(* ===== verification/Uint256.v ===== *)
(** * Opaque blobs: [uint256.h], [uint256.cpp], the byte-order helpers of
    [common.h], and the conversions of [arith_uint256.cpp]

    A [base_blob<BITS>] is its array [data] of [BITS / 8] bytes, the least
    significant byte first.  Characters of C strings are their codes; a C string
    is the list of the characters before its terminator. *)

From stdpp Require Import base list numbers decidable.
From S2P Require Import Prelude ArithUint256.

Open Scope Z_scope.

Abbreviation blob := (list Z).

Definition blob_wf (width : nat) (b : blob) : Prop := length b = width ∧ bytes_ok b.

#[global] Instance blob_wf_dec width b : Decision (blob_wf width b).
Proof. unfold blob_wf. apply _. Defined.

(** ** [common.h]: integers at an offset of a byte buffer *)

Definition ReadLE32 (buf : list Z) (off : nat) : Z := le_value (take 4 (drop off buf)).
Definition ReadLE64 (buf : list Z) (off : nat) : Z := le_value (take 8 (drop off buf)).

(** [memcpy(dst + off, src, size(src))]. *)
Definition splice (dst : list Z) (off : nat) (src : list Z) : list Z :=
  take off dst ++ src ++ drop (off + length src) dst.

Definition WriteLE32 (buf : list Z) (off : nat) (x : Z) : list Z := splice buf off (le_bytes 4 x).
Definition WriteBE32 (buf : list Z) (off : nat) (x : Z) : list Z := splice buf off (be_bytes 4 x).
Definition WriteBE64 (buf : list Z) (off : nat) (x : Z) : list Z := splice buf off (be_bytes 8 x).

(** The portable branch of [CountBits]: [while (x) { x >>= 1; ++ret; }]; 64
    iterations are enough for a [uint64_t]. *)
Fixpoint CountBits_loop (fuel : nat) (x ret : Z) : Z :=
  match fuel with
  | O => ret
  | S n => if x =? 0 then ret else CountBits_loop n (Z.shiftr x 1) (ret + 1)
  end.
Definition CountBits (x : Z) : Z := CountBits_loop 64 x 0.

(** ** [base_blob] *)

Definition blob_null (width : nat) : blob := replicate width 0.

(** The constructor from a vector asserts its size. *)
Definition blob_of_vector (width : nat) (vch : list Z) : option blob :=
  if (length vch =? width)%nat then Some vch else None.

Fixpoint blob_IsNull (b : blob) : bool :=
  match b with
  | [] => true
  | x :: b' => if negb (x =? 0) then false else blob_IsNull b'
  end.

(** [memcmp]: the sign of the first difference, as unsigned bytes. *)
Fixpoint memcmp (a b : list Z) : Z :=
  match a, b with
  | x :: a', y :: b' => if x =? y then memcmp a' b' else x - y
  | _, _ => 0
  end.

Definition blob_Compare (a b : blob) : Z := memcmp a b.
Definition blob_eqb (a b : blob) : bool := blob_Compare a b =? 0.
Definition blob_ltb (a b : blob) : bool := blob_Compare a b <? 0.

Definition blob_GetUint64 (b : blob) (pos : nat) : Z :=
  let ptr := λ i, default 0 (b !! (pos * 8 + i)%nat) in
  Z.lor (Z.lor (Z.lor (Z.lor (Z.lor (Z.lor (Z.lor (ptr 0%nat)
    (Z.shiftl (ptr 1%nat) 8)) (Z.shiftl (ptr 2%nat) 16)) (Z.shiftl (ptr 3%nat) 24))
    (Z.shiftl (ptr 4%nat) 32)) (Z.shiftl (ptr 5%nat) 40)) (Z.shiftl (ptr 6%nat) 48))
    (Z.shiftl (ptr 7%nat) 56).

Definition GetCheapHash (b : blob) : Z := ReadLE64 b 0.

(** ** Hexadecimal *)

(** The table [p_util_hexdigit]. *)
Definition HexDigit (c : Z) : Z :=
  if (48 <=? c) && (c <=? 57) then c - 48
  else if (65 <=? c) && (c <=? 70) then c - 55
  else if (97 <=? c) && (c <=? 102) then c - 87
  else -1.

Definition hexmap (n : Z) : Z := if n <? 10 then 48 + n else 87 + n.

Definition HexStr (bytes : list Z) : list Z :=
  bytes ≫= λ val, [hexmap (Z.shiftr val 4); hexmap (Z.land val 15)].

Definition blob_GetHex (b : blob) : list Z := HexStr (reverse b).

(** [isspace] and [tolower] in the C locale. *)
Definition isspace (c : Z) : bool := ((9 <=? c) && (c <=? 13)) || (c =? 32).
Definition tolower (c : Z) : Z := if (65 <=? c) && (c <=? 90) then c + 32 else c.

Fixpoint skip_spaces (psz : list Z) : list Z :=
  match psz with
  | c :: psz' => if isspace c then skip_spaces psz' else psz
  | [] => []
  end.

Definition skip_0x (psz : list Z) : list Z :=
  match psz with
  | c0 :: c1 :: psz' => if (c0 =? 48) && (tolower c1 =? 120) then psz' else psz
  | _ => psz
  end.

Fixpoint hex_digits (psz : list Z) : list Z :=
  match psz with
  | c :: psz' => if HexDigit c =? -1 then [] else HexDigit c :: hex_digits psz'
  | [] => []
  end.

(** The filling loop: from the last digit to the first, two per byte. *)
Fixpoint hex_fill (width : nat) (ds : list Z) : blob :=
  match width with
  | O => []
  | S w =>
      match ds with
      | [] => blob_null (S w)
      | [d] => d :: blob_null w
      | d0 :: d1 :: ds' => Z.lor d0 (wrap8 (Z.shiftl d1 4)) :: hex_fill w ds'
      end
  end.

Definition blob_SetHex (width : nat) (psz : list Z) : blob :=
  hex_fill width (reverse (hex_digits (skip_0x (skip_spaces psz)))).

Definition uint256S (str : list Z) : blob := blob_SetHex 32 str.

(** ** Conversions between [uint256] and [arith_uint256] *)

Definition ArithToUint256 (a : limbs) : blob :=
  for_range 0 WIDTH (λ x b, WriteLE32 b (x * 4) (limb a x)) (blob_null 32).

Definition UintToArith256 (a : blob) : limbs :=
  for_range 0 WIDTH (λ x pn, <[x := ReadLE32 a (x * 4)]> pn) bu_zero.

(** ** Comparison *)

Lemma memcmp_refl a : memcmp a a = 0.
Proof. induction a as [|x a IH]; simpl; [done|]. by rewrite Z.eqb_refl. Qed.

Lemma memcmp_eq a b : length a = length b → memcmp a b = 0 ↔ a = b.
Proof.
  revert b. induction a as [|x a IH]; intros [|y b] Hl; simpl in *; try done.
  injection Hl as Hl. destruct (Z.eqb_spec x y) as [->|Hne].
  - rewrite IH by done. split; [by intros ->|by intros [= ->]].
  - split; [lia|congruence].
Qed.

Lemma memcmp_antisym a b : length a = length b → memcmp b a = - memcmp a b.
Proof.
  revert b. induction a as [|x a IH]; intros [|y b] Hl; simpl in *; try done.
  injection Hl as Hl. destruct (Z.eqb_spec x y), (Z.eqb_spec y x); try lia. by apply IH.
Qed.

Lemma memcmp_trans a b c :
  length a = length b → length b = length c → memcmp a b < 0 → memcmp b c < 0 → memcmp a c < 0.
Proof.
  revert b c. induction a as [|x a IH]; intros [|y b] [|z c] H1 H2; simpl in *; try done.
  injection H1 as H1. injection H2 as H2.
  destruct (Z.eqb_spec x y), (Z.eqb_spec y z), (Z.eqb_spec x z); try lia; eauto.
Qed.

Lemma blob_eqb_spec a b : length a = length b → blob_eqb a b = bool_decide (a = b).
Proof.
  intros Hl. unfold blob_eqb, blob_Compare. apply eq_true_iff_eq.
  rewrite Z.eqb_eq, bool_decide_eq_true. by apply memcmp_eq.
Qed.

(** [operator<] is a strict total order on blobs of one width. *)
Lemma blob_ltb_irrefl a : blob_ltb a a = false.
Proof. unfold blob_ltb, blob_Compare. by rewrite memcmp_refl. Qed.

Lemma blob_ltb_trans a b c :
  length a = length b → length b = length c →
  blob_ltb a b = true → blob_ltb b c = true → blob_ltb a c = true.
Proof. unfold blob_ltb, blob_Compare. rewrite !Z.ltb_lt. by apply memcmp_trans. Qed.

Lemma blob_ltb_total a b :
  length a = length b → blob_ltb a b = true ∨ a = b ∨ blob_ltb b a = true.
Proof.
  intros Hl. unfold blob_ltb, blob_Compare. rewrite !Z.ltb_lt, (memcmp_antisym a b) by done.
  destruct (Z.lt_trichotomy (memcmp a b) 0) as [?|[?%memcmp_eq|?]]; auto with lia.
Qed.

Lemma blob_IsNull_spec b : blob_IsNull b = true ↔ b = blob_null (length b).
Proof.
  induction b as [|x b IH]; simpl; [done|]. destruct (Z.eqb_spec x 0) as [->|]; simpl.
  - rewrite IH. unfold blob_null. cbn [replicate]. split; congruence.
  - split; [done|]. unfold blob_null. cbn [replicate]. congruence.
Qed.

(** ** Hex digits and their value *)

Definition hex_number (ds : list Z) : Z := foldl (λ v d, 16 * v + d) 0 ds.

(** The same number from the last digit up. *)
Fixpoint hex_number_le (ds : list Z) : Z :=
  match ds with
  | [] => 0
  | d :: ds' => d + 16 * hex_number_le ds'
  end.

Lemma hex_number_rev ds : hex_number_le (reverse ds) = hex_number ds.
Proof.
  unfold hex_number. rewrite <- (reverse_involutive ds) at 2. generalize (reverse ds). clear ds.
  intros ds. induction ds as [|d ds IH]; [done|].
  rewrite reverse_cons, foldl_app. cbn [hex_number_le foldl]. rewrite IH. lia.
Qed.

Definition nibble_ok (d : Z) : Prop := 0 <= d < 16.

Lemma HexDigit_ok c : HexDigit c ≠ -1 → nibble_ok (HexDigit c).
Proof. unfold HexDigit, nibble_ok. repeat case_match; rewrite ?andb_true_iff, ?Z.leb_le in *; lia. Qed.

Lemma hex_digits_ok psz : Forall nibble_ok (hex_digits psz).
Proof.
  induction psz as [|c psz IH]; simpl; [done|]. destruct (Z.eqb_spec (HexDigit c) (-1)); [done|].
  constructor; [by apply HexDigit_ok|done].
Qed.

Lemma nibbles_join d0 d1 :
  nibble_ok d0 → nibble_ok d1 → Z.lor d0 (wrap8 (Z.shiftl d1 4)) = d0 + 16 * d1.
Proof.
  unfold nibble_ok. intros H0 H1.
  rewrite wrap_id by (unfold fits; rewrite Z.shiftl_mul_pow2; lia).
  rewrite lor_add_disjoint by (unfold fits; lia). lia.
Qed.

Lemma le_value_null n : le_value (blob_null n) = 0.
Proof. unfold blob_null. induction n; simpl; lia. Qed.

Lemma bytes_null n : bytes_ok (blob_null n).
Proof. apply Forall_replicate. unfold fits. lia. Qed.

Lemma hex_fill_spec w ds :
  Forall nibble_ok ds →
  blob_wf w (hex_fill w ds) ∧ le_value (hex_fill w ds) = hex_number_le ds mod 256 ^ Z.of_nat w.
Proof.
  revert ds. induction w as [|w IH]; intros ds Hds.
  { cbn. rewrite Z.mod_1_r. repeat split. constructor. }
  assert (256 ^ Z.of_nat (S w) = 256 * 256 ^ Z.of_nat w) as Ep by (rewrite Nat2Z.inj_succ, Z.pow_succ_r; lia).
  assert (0 < 256 ^ Z.of_nat w) by (apply Z.pow_pos_nonneg; lia).
  destruct ds as [|d0 [|d1 ds]]; cbn [hex_fill].
  - split; [split; [apply length_replicate|apply bytes_null]|]. by rewrite le_value_null, Z.mod_0_l by lia.
  - apply Forall_cons_1 in Hds as [H0 _]. unfold nibble_ok in H0. split.
    + split; [simpl; f_equal; apply length_replicate|]. constructor; [unfold fits; lia|apply bytes_null].
    + cbn [le_value hex_number_le]. rewrite le_value_null, Z.mod_small; lia.
  - apply Forall_cons_1 in Hds as [H0 Hds]. apply Forall_cons_1 in Hds as [H1 Hds].
    rewrite nibbles_join by done. unfold nibble_ok in *. destruct (IH ds Hds) as [[Hl Hb] Hv]. split.
    + split; [simpl; lia|]. constructor; [unfold fits; lia|done].
    + cbn [le_value hex_number_le]. rewrite Hv, Ep.
      replace (d0 + 16 * (d1 + 16 * hex_number_le ds)) with (d0 + 16 * d1 + hex_number_le ds * 256) by lia.
      rewrite Z.rem_mul_r, Z.mod_add, Z.div_add by lia.
      rewrite (Z.mod_small (d0 + 16 * d1)), (Z.div_small (d0 + 16 * d1)), Z.add_0_l by lia. lia.
Qed.

Lemma hexmap_HexDigit n : nibble_ok n → HexDigit (hexmap n) = n.
Proof.
  unfold nibble_ok. intros H.
  assert (n = 0 ∨ n = 1 ∨ n = 2 ∨ n = 3 ∨ n = 4 ∨ n = 5 ∨ n = 6 ∨ n = 7 ∨ n = 8 ∨ n = 9 ∨
          n = 10 ∨ n = 11 ∨ n = 12 ∨ n = 13 ∨ n = 14 ∨ n = 15) as Hc by lia.
  by repeat (destruct Hc as [->|Hc]; [reflexivity|]); subst.
Qed.

Lemma byte_nibbles v :
  byte_ok v → nibble_ok (Z.shiftr v 4) ∧ nibble_ok (Z.land v 15) ∧ 16 * Z.shiftr v 4 + Z.land v 15 = v.
Proof.
  unfold fits, nibble_ok. intros H. change 15 with (Z.ones 4).
  rewrite Z.land_ones, Z.shiftr_div_pow2 by lia. divlia.
Qed.

Lemma hex_digits_HexStr bs :
  bytes_ok bs → hex_digits (HexStr bs) = bs ≫= λ v, [Z.shiftr v 4; Z.land v 15].
Proof.
  induction 1 as [|v bs Hv _ IH]; [done|]. destruct (byte_nibbles v Hv) as (H1 & H0 & _).
  change (HexStr (v :: bs)) with (hexmap (Z.shiftr v 4) :: hexmap (Z.land v 15) :: HexStr bs).
  cbn [hex_digits]. rewrite !hexmap_HexDigit by done. unfold nibble_ok in *.
  destruct (Z.eqb_spec (Z.shiftr v 4) (-1)); [lia|]. destruct (Z.eqb_spec (Z.land v 15) (-1)); [lia|].
  by rewrite IH.
Qed.

Lemma hex_number_bytes bs : bytes_ok bs →
  hex_number (bs ≫= λ v, [Z.shiftr v 4; Z.land v 15]) = be_value bs.
Proof.
  unfold hex_number, be_value. intros H. induction bs as [|v bs IH] using rev_ind; [done|].
  apply Forall_app in H as [Hbs Hv]. apply Forall_cons_1 in Hv as [Hv _].
  rewrite bind_app, foldl_app, reverse_app, IH by done. cbn. destruct (byte_nibbles v Hv) as (_ & _ & E). lia.
Qed.

(** Neither a blank nor an [0x] prefix is seen in a printed blob. *)
Lemma hexmap_not_space n : nibble_ok n → isspace (hexmap n) = false ∧ (tolower (hexmap n) =? 120) = false.
Proof.
  unfold nibble_ok, isspace, hexmap, tolower. intros H.
  destruct (Z.ltb_spec n 10); split; repeat case_match;
    rewrite ?orb_false_iff, ?andb_false_iff, ?andb_true_iff, ?Z.leb_gt, ?Z.leb_le, ?Z.eqb_neq in *; lia.
Qed.

Lemma skip_HexStr bs : bytes_ok bs → skip_0x (skip_spaces (HexStr bs)) = HexStr bs.
Proof.
  destruct 1 as [|v bs Hv Hbs]; [done|]. destruct (byte_nibbles v Hv) as (H1 & H0 & _).
  change (HexStr (v :: bs)) with (hexmap (Z.shiftr v 4) :: hexmap (Z.land v 15) :: HexStr bs).
  cbn [skip_spaces]. destruct (hexmap_not_space _ H1) as [-> _]. cbn [skip_0x].
  destruct (hexmap_not_space _ H0) as [_ ->]. by rewrite andb_false_r.
Qed.

(** ** The conversions *)

Lemma UintToArith256_eq a :
  UintToArith256 a = (λ x, ReadLE32 a (x * 4)) <$> seq 0 8.
Proof. reflexivity. Qed.

Lemma list_bytes32 (a : blob) : blob_wf 32 a → a = concat ((λ x, take 4 (drop (x * 4) a)) <$> seq 0 8).
Proof.
  intros [Hl _]. by do 33 (destruct a as [|? a]; [try done|]).
Qed.

Lemma value_le_value ws :
  Forall (λ w, length w = 4%nat) ws → value (le_value <$> ws) = le_value (concat ws).
Proof.
  induction 1 as [|w ws Hw _ IH]; [done|]. cbn [fmap list_fmap concat value].
  rewrite le_value_app, Hw, IH. change (256 ^ Z.of_nat 4) with (2 ^ 32). lia.
Qed.

Lemma UintToArith256_wf a : blob_wf 32 a → limbs_wf (UintToArith256 a).
Proof.
  intros [Hl Hb]. rewrite UintToArith256_eq. split; [done|]. apply Forall_fmap, Forall_forall. intros x _.
  unfold compose, ReadLE32. pose proof (le_value_bound (take 4 (drop (x * 4) a))) as H.
  unfold fits.
  destruct H; [by apply Forall_take, Forall_drop|]. split; [done|].
  eapply Z.lt_le_trans; [done|]. change (2 ^ 32) with (256 ^ 4). apply Z.pow_le_mono_r; [lia|].
  rewrite length_take. lia.
Qed.

Lemma value_UintToArith256 a : blob_wf 32 a → value (UintToArith256 a) = le_value a.
Proof.
  intros Ha. rewrite UintToArith256_eq. trans (le_value (concat ((λ x, take 4 (drop (x * 4) a)) <$> seq 0 8)));
    [|by rewrite <- list_bytes32].
  rewrite <- value_le_value; [by rewrite <- list_fmap_compose|].
  apply Forall_fmap, Forall_forall. intros x Hx%in_seq. unfold compose.
  destruct Ha as [Hl _]. rewrite length_take, length_drop. lia.
Qed.

Lemma limbs8 (a : limbs) : limbs_wf a → ∃ a0 a1 a2 a3 a4 a5 a6 a7, a = [a0; a1; a2; a3; a4; a5; a6; a7].
Proof. intros [H _]. do 9 (destruct a as [|? a]; try done). by repeat eexists. Qed.

Lemma ArithToUint256_eq a : limbs_wf a → ArithToUint256 a = a ≫= le_bytes 4.
Proof. intros H. destruct (limbs8 a H) as (? & ? & ? & ? & ? & ? & ? & ? & ->). reflexivity. Qed.

Lemma le_bytes4_value a : u32_ok a → le_value (le_bytes 4 a) = a.
Proof. intros. rewrite le_value_le_bytes. by apply Z.mod_small. Qed.

Lemma ArithToUint256_spec a :
  limbs_wf a → blob_wf 32 (ArithToUint256 a) ∧ le_value (ArithToUint256 a) = value a.
Proof.
  intros Ha. rewrite ArithToUint256_eq by done. destruct Ha as [Hl Hok].
  assert (a ≫= le_bytes 4 = concat (le_bytes 4 <$> a)) as E 
    by (clear; induction a as [|x a IH]; [done|]; exact (f_equal (app (le_bytes 4 x)) IH)).
  split; [split|].
  - clear E Hok. unfold WIDTH in Hl. do 9 (destruct a as [|? a]; try done).
  - clear E Hl. induction Hok; [constructor|]. change ((x :: l) ≫= le_bytes 4) with (le_bytes 4 x ++ l ≫= le_bytes 4).
    apply Forall_app. split; [apply le_bytes_ok|done].
  - rewrite E, <- value_le_value by (apply Forall_fmap, Forall_forall; intros; apply length_le_bytes).
    f_equal. rewrite <- list_fmap_compose. clear E Hl. induction Hok as [|x l Hx _ IH]; [done|]. cbn [fmap list_fmap]. f_equal; [|apply IH].
    by apply le_bytes4_value.
Qed.

(** ** Properties *)

(** [ArithToUint256] and [UintToArith256] are inverse on well-formed values
    and keep the number: the blob read as a little-endian integer is the value of
    the limbs. *)
Theorem uint256_arith_roundtrip (a : limbs) (b : blob) :
  limbs_wf a → blob_wf 32 b →
  UintToArith256 (ArithToUint256 a) = a ∧ ArithToUint256 (UintToArith256 b) = b ∧
  le_value (ArithToUint256 a) = value a ∧ value (UintToArith256 b) = le_value b.
Proof.
  intros Ha Hb. destruct (ArithToUint256_spec a Ha) as [Hw Hv].
  pose proof (UintToArith256_wf b Hb) as Hw'. pose proof (value_UintToArith256 b Hb) as Hv'.
  destruct (ArithToUint256_spec _ Hw') as [Hw'' Hv'']. split_and!; [..|done|done].
  - destruct (UintToArith256_wf _ Hw) as [Hl Hok].
    apply value_inj; [done|apply Ha|by rewrite Hl; destruct Ha|]. rewrite value_UintToArith256; congruence.
  - apply le_value_inj; [apply Hw''|apply Hb|destruct Hw'', Hb; congruence|congruence].
Qed.

Lemma uint256_arith_roundtrip_witness :
  UintToArith256 (ArithToUint256 (bu_of_u64 0x1122334455667788)) = bu_of_u64 0x1122334455667788.
Proof.
  refine (proj1 (uint256_arith_roundtrip _ (blob_null 32) _ _)).
  - apply bu_of_u64_wf.
  - split; [reflexivity|apply bytes_null].
Defined.

(** [SetHex] stores the number its digits spell, reduced to the width, after
    any blanks and an optional [0x]; on a printed blob it gives the blob back. *)
Theorem SetHex_GetHex (width : nat) (psz : list Z) (b : blob) :
  blob_wf width b →
  blob_SetHex width (blob_GetHex b) = b ∧
  blob_wf width (blob_SetHex width psz) ∧
  le_value (blob_SetHex width psz) =
    hex_number (hex_digits (skip_0x (skip_spaces psz))) mod 256 ^ Z.of_nat width.
Proof.
  intros [Hl Hb].
  assert (∀ psz, blob_wf width (blob_SetHex width psz) ∧ le_value (blob_SetHex width psz) =
    hex_number (hex_digits (skip_0x (skip_spaces psz))) mod 256 ^ Z.of_nat width) as Hset.
  { intros p. unfold blob_SetHex. rewrite <- hex_number_rev. apply hex_fill_spec.
    apply Forall_reverse, hex_digits_ok. }
  split; [|apply Hset]. destruct (Hset (blob_GetHex b)) as [[Hl' Hb'] Hv].
  apply le_value_inj; [done..|congruence|]. rewrite Hv. unfold blob_GetHex.
  assert (bytes_ok (reverse b)) by by apply Forall_reverse.
  rewrite skip_HexStr, hex_digits_HexStr, hex_number_bytes by done.
  unfold be_value. rewrite reverse_involutive. apply Z.mod_small. rewrite <- Hl. by apply le_value_bound.
Qed.

Lemma SetHex_GetHex_witness :
  blob_SetHex 2 (blob_GetHex [0x1f; 0xa0]) = [0x1f; 0xa0] ∧
  blob_SetHex 2 [32; 48; 120; 49; 50; 51] = [0x23; 0x01].
Proof.
  split; [|reflexivity]. refine (proj1 (SetHex_GetHex 2 [] [0x1f; 0xa0] _)).
  split; [reflexivity|]. apply Forall_cons_2; [done|]. by apply Forall_cons_2.
Defined.
