(* ===== verification/StrEncodings.v ===== *)
(** * Strings and numbers: [utilstrencodings.h], [utilstrencodings.cpp]

    Base64 and Base32 go through [ConvertBits] (in [Bech32]); the hexadecimal
    conversions are in [Uint256].  Here are the two codecs with their padding, the
    predicates on hexadecimal text, [SanitizeString], the strict integer parsers
    over [strtol], [SplitHostPort], [TimingResistantEqual] and [ParseFixedPoint].
    The codecs round-trip on all byte strings, the comparison is equality, and
    [ParseFixedPoint] is exact: it returns a number only for JSON number syntax
    whose value, in units of [10^-decimals], is that number.  [ParseDouble] and
    [FormatParagraph] are left out: streams and text layout. *)

From Stdlib Require Import ZifyNat.
From stdpp Require Import base list numbers decidable strings.
From S2P Require Import Prelude ArithUint256 Uint256 Bech32.

Open Scope Z_scope.

(** ** Base64 and Base32 *)

Definition pbase64 : list Z := chars "ABCDEFGHIJKLMNOPQRSTUVWXYZabcdefghijklmnopqrstuvwxyz0123456789+/".
Definition pbase32 : list Z := chars "abcdefghijklmnopqrstuvwxyz234567".

(** The tables hold 256 entries; -1 stands for a character outside the alphabet. *)
Definition decode64_table : list Z :=
  replicate 43 (-1) ++ [62] ++ replicate 3 (-1) ++ [63] ++ seqZ 52 10 ++ replicate 7 (-1) ++ seqZ 0 26 ++
  replicate 6 (-1) ++ seqZ 26 26 ++ replicate 133 (-1).
Definition decode32_table : list Z :=
  replicate 50 (-1) ++ seqZ 26 6 ++ replicate 9 (-1) ++ seqZ 0 26 ++ replicate 6 (-1) ++ seqZ 0 26 ++ replicate 133 (-1).

(** [while (str.size() % n) str += '=';]. *)
Fixpoint pad_equals (fuel n : nat) (str : list Z) : list Z :=
  match fuel with
  | O => str
  | S fuel => if (length str mod n =? 0)%nat then str else pad_equals fuel n (str ++ [61])
  end.

Definition encode_base (alphabet : list Z) (bits : Z) (n : nat) (bytes : list Z) : list Z :=
  pad_equals n n ((λ v, default 0 (alphabet !! Z.to_nat v)) <$> (ConvertBits 8 bits true bytes).2).

Definition EncodeBase64 (bytes : list Z) : list Z := encode_base pbase64 6 4 bytes.
Definition EncodeBase32 (bytes : list Z) : list Z := encode_base pbase32 5 8 bytes.

(** The loop while [p] is not at the final zero, over the values of the characters, up to the first that has
    none; a C string ends at its first zero. *)
Fixpoint decode_values (table : list Z) (p : list Z) : list Z * list Z :=
  match p with
  | [] => ([], [])
  | c :: p' =>
      if c =? 0 then ([], p)
      else
        let x := default (-1) (table !! Z.to_nat c) in
        if x =? -1 then ([], p) else let '(val, rest) := decode_values table p' in (x :: val, rest)
  end.

(** [while (valid && *p != 0)] over the padding: whether only '=' was met, and the
    rest of the string. *)
Fixpoint skip_equals (p : list Z) : bool * list Z :=
  match p with
  | [] => (true, [])
  | c :: p' => if c =? 0 then (true, p) else if negb (c =? 61) then (false, p) else skip_equals p'
  end.

(** The bytes and whether the text was valid. *)
Definition decode_base (table : list Z) (bits : Z) (n : nat) (p : list Z) : list Z * bool :=
  let '(val, q) := decode_values table p in
  let '(valid, ret) := ConvertBits bits 8 false val in
  let '(valid, rest) := if valid then skip_equals q else (false, q) in
  (ret, valid && ((length p - length rest) mod n =? 0)%nat && (length q - length rest <? n)%nat).

Definition DecodeBase64 (p : list Z) : list Z * bool := decode_base decode64_table 6 4 p.
Definition DecodeBase32 (p : list Z) : list Z * bool := decode_base decode32_table 5 8 p.

(** ** Characters *)

Definition CHARS_ALPHA_NUM : list Z := chars "abcdefghijklmnopqrstuvwxyzABCDEFGHIJKLMNOPQRSTUVWXYZ0123456789".

(** [SAFE_CHARS_DEFAULT], [SAFE_CHARS_UA_COMMENT], [SAFE_CHARS_FILENAME]. *)
Definition SAFE_CHARS (rule : nat) : option (list Z) :=
  match rule with
  | 0%nat => Some (CHARS_ALPHA_NUM ++ chars " .,;-_/:?@()")
  | 1%nat => Some (CHARS_ALPHA_NUM ++ chars " .,;-_?@")
  | 2%nat => Some (CHARS_ALPHA_NUM ++ chars ".-_")
  | _ => None
  end.

Definition SanitizeString (str : list Z) (rule : nat) : option (list Z) :=
  safe ← SAFE_CHARS rule;
  Some (filter (λ c, c ∈ safe) str).

Definition IsHex (str : list Z) : bool :=
  forallb (λ c, negb (HexDigit c <? 0)) str && (0 <? length str)%nat && (length str mod 2 =? 0)%nat.

Definition IsHexNumber (str : list Z) : bool :=
  let starting_location :=
    match str with
    | c0 :: c1 :: _ :: _ => if (c0 =? 48) && (c1 =? 120) then 2%nat else 0%nat
    | _ => 0%nat
    end in
  forallb (λ c, negb (HexDigit c <? 0)) (drop starting_location str) && (starting_location <? length str)%nat.

(** [accumulator |= a[i] ^ b[i % b.size()]]. *)
Definition TimingResistantEqual (a b : list Z) : bool :=
  if (length b =? 0)%nat then (length a =? 0)%nat
  else
    let accumulator := Z.lxor (Z.of_nat (length a)) (Z.of_nat (length b)) in
    for_range 0 (length a) (λ i acc, Z.lor acc (Z.lxor (default 0 (a !! i)) (default 0 (b !! (i mod length b)%nat)))) accumulator =? 0.

(** ** Integers *)

Definition isdigit (c : Z) : bool := (48 <=? c) && (c <=? 57).

(** The digits in front of a string, and the rest. *)
Fixpoint take_digits (l : list Z) : list Z * list Z :=
  match l with
  | c :: l' => if isdigit c then let '(ds, rest) := take_digits l' in (c - 48 :: ds, rest) else ([], l)
  | [] => ([], [])
  end.

Definition decimal (ds : list Z) : Z := foldl (λ n d, 10 * n + d) 0 ds.

(** [strtol(s, &endp, 10)] and its kin, for results in [lo, hi]: the value, whether
    [errno] was set, and the string at [endp]. *)
Definition strtol (lo hi : Z) (s : list Z) : Z * bool * list Z :=
  let t := skip_spaces s in
  let '(neg, t) := match t with c :: t' => if c =? 45 then (true, t') else if c =? 43 then (false, t') else (false, t) | [] => (false, t) end in
  let '(ds, rest) := take_digits t in
  match ds with
  | [] => (0, false, s)
  | _ =>
      let n := if neg : bool then - decimal ds else decimal ds in
      if n <? lo then (lo, true, rest) else if hi <? n then (hi, true, rest) else (n, false, rest)
  end.

Definition ParsePrechecks (str : list Z) : bool :=
  match str with
  | [] => false
  | c :: _ => negb (isspace c || isspace (List.last str 0)) && forallb (λ c, negb (c =? 0)) str
  end.

(** Whether the string was accepted, and the number stored. *)
Definition ParseInt (lo hi : Z) (str : list Z) : bool * Z :=
  if negb (ParsePrechecks str) then (false, 0)
  else
    let '(n, errno, endp) := strtol (- 2 ^ 63) (2 ^ 63 - 1) str in
    (bool_decide (endp = []) && negb errno && (lo <=? n) && (n <=? hi), n).

Definition ParseInt32 (str : list Z) : bool * Z :=
  let '(ok, n) := ParseInt (- 2 ^ 31) (2 ^ 31 - 1) str in (ok, swrap32 n).
Definition ParseInt64 (str : list Z) : bool * Z := ParseInt (- 2 ^ 63) (2 ^ 63 - 1) str.

(** [strtoul] negates in the unsigned type; a sign '-' is refused beforehand. *)
Definition ParseUInt (hi : Z) (str : list Z) : bool * Z :=
  if negb (ParsePrechecks str) then (false, 0)
  else if match str with c :: _ => c =? 45 | [] => false end then (false, 0)
  else
    let '(n, errno, endp) := strtol 0 (2 ^ 64 - 1) str in
    (bool_decide (endp = []) && negb errno && (n <=? hi), n).

Definition ParseUInt32 (str : list Z) : bool * Z := let '(ok, n) := ParseUInt (2 ^ 32 - 1) str in (ok, wrap32 n).
Definition ParseUInt64 (str : list Z) : bool * Z := ParseUInt (2 ^ 64 - 1) str.

(** [find_last_of(c, pos)]: the last position of [c] among the first [pos + 1]. *)
Fixpoint find_last_of (c : Z) (s : list Z) (pos : nat) : option nat :=
  match pos with
  | O => if bool_decide (s !! 0%nat = Some c) then Some 0%nat else None
  | S p => if bool_decide (s !! pos = Some c) then Some pos else find_last_of c s p
  end.

(** [SplitHostPort(in, portOut, hostOut)] with the port passed in. *)
Definition SplitHostPort (inp : list Z) (portOut : Z) : Z * list Z :=
  let colon := find_last_of 58 inp (length inp) in
  let '(inp, portOut) :=
    match colon with
    | None => (inp, portOut)
    | Some colon =>
        let fBracketed := bool_decide (inp !! 0%nat = Some 91) && bool_decide (inp !! (colon - 1)%nat = Some 93) in
        let fMultiColon := match colon with O => true | S c => bool_decide (is_Some (find_last_of 58 inp c)) end in
        if (colon =? 0)%nat || fBracketed || negb fMultiColon then
          let '(ok, n) := ParseInt32 (drop (S colon) inp) in
          if ok && (n >? 0) && (n <? 0x10000) then (take colon inp, n) else (inp, portOut)
        else (inp, portOut)
    end in
  (portOut,
   if (0 <? length inp)%nat && bool_decide (inp !! 0%nat = Some 91) && bool_decide (inp !! (length inp - 1)%nat = Some 93)
   then take (length inp - 2) (drop 1 inp) else inp).

(** ** [ParseFixedPoint] *)

Definition UPPER_BOUND : Z := 1000000000000000000 - 1.

(** [for (int i=0; i<=mantissa_tzeros; ++i)], [n] rounds left. *)
Fixpoint scale_mantissa (n : nat) (mantissa : Z) : option Z :=
  match n with
  | O => Some mantissa
  | S n => if mantissa >? UPPER_BOUND / 10 then None else scale_mantissa n (mantissa * 10)
  end.

Definition ProcessMantissaDigit (ch mantissa : Z) (mantissa_tzeros : nat) : option (Z * nat) :=
  if ch =? 48 then Some (mantissa, S mantissa_tzeros)
  else
    mantissa ← scale_mantissa (S mantissa_tzeros) mantissa;
    Some (mantissa + (ch - 48), 0%nat).

(** The two loops over digits, which count their digits; the count of the second
    is [point_ofs]. *)
Fixpoint mantissa_digits (l : list Z) (mantissa : Z) (tzeros ofs : nat) : option (Z * nat * nat * list Z) :=
  match l with
  | c :: l' =>
      if isdigit c then '(mantissa, tzeros) ← ProcessMantissaDigit c mantissa tzeros; mantissa_digits l' mantissa tzeros (S ofs)
      else Some (mantissa, tzeros, ofs, l)
  | [] => Some (mantissa, tzeros, ofs, [])
  end.

Fixpoint exponent_digits (l : list Z) (exponent : Z) : option (Z * list Z) :=
  match l with
  | c :: l' =>
      if isdigit c then (if exponent >? UPPER_BOUND / 10 then None else exponent_digits l' (exponent * 10 + c - 48))
      else Some (exponent, l)
  | [] => Some (exponent, [])
  end.

Definition starts_digit (l : list Z) : bool := match l with c :: _ => isdigit c | [] => false end.

(** The integer part: a single zero, or digits that do not start with one. *)
Definition parse_int_part (val : list Z) : option (Z * nat * list Z) :=
  match val with
  | [] => None
  | c :: rest =>
      if c =? 48 then Some (0, 0%nat, rest)
      else if (49 <=? c) && (c <=? 57) then '(m, tz, _, rest) ← mantissa_digits val 0 0 0; Some (m, tz, rest)
      else None
  end.

Definition parse_fraction (val : list Z) (m : Z) (tz : nat) : option (Z * nat * nat * list Z) :=
  match val with
  | c :: rest => if c =? 46 then (if starts_digit rest then mantissa_digits rest m tz 0 else None) else Some (m, tz, 0%nat, val)
  | [] => Some (m, tz, 0%nat, [])
  end.

(** The exponent, signed. *)
Definition parse_exponent (val : list Z) : option (Z * list Z) :=
  match val with
  | c :: rest =>
      if (c =? 101) || (c =? 69) then
        let '(exponent_sign, rest) :=
          match rest with
          | d :: rest' => if d =? 43 then (false, rest') else if d =? 45 then (true, rest') else (false, rest)
          | [] => (false, rest)
          end in
        if starts_digit rest then '(e, rest) ← exponent_digits rest 0; Some (if exponent_sign : bool then - e else e, rest)
        else None
      else Some (0, val)
  | [] => Some (0, [])
  end.

(** [for (int i=0; i < exponent; ++i)]. *)
Fixpoint scale_signed (n : nat) (mantissa : Z) : option Z :=
  match n with
  | O => Some mantissa
  | S n =>
      if (mantissa >? UPPER_BOUND / 10) || (mantissa <? - (UPPER_BOUND / 10)) then None else scale_signed n (mantissa * 10)
  end.

Definition ParseFixedPoint (val : list Z) (decimals : Z) : option Z :=
  let '(mantissa_sign, val) := match val with c :: val' => if c =? 45 then (true, val') else (false, val) | [] => (false, val) end in
  '(mantissa, tzeros, val) ← parse_int_part val;
  '(mantissa, tzeros, point_ofs, val) ← parse_fraction val mantissa tzeros;
  '(exponent, val) ← parse_exponent val;
  match val with
  | _ :: _ => None
  | [] =>
      let exponent := exponent - Z.of_nat point_ofs + Z.of_nat tzeros in
      let mantissa := if mantissa_sign : bool then - mantissa else mantissa in
      let exponent := exponent + decimals in
      if exponent <? 0 then None
      else if exponent >=? 18 then None
      else
        mantissa ← scale_signed (Z.to_nat exponent) mantissa;
        if (mantissa >? UPPER_BOUND) || (mantissa <? - UPPER_BOUND) then None else Some mantissa
  end.

(** ** The codecs *)

Definition missing (n : nat) (str : list Z) : nat := ((n - length str mod n) mod n)%nat.

Lemma missing_snoc n str : (0 < n)%nat → (length str mod n ≠ 0)%nat → missing n str = S (missing n (str ++ [61])).
Proof.
  intros Hn Hm. unfold missing. rewrite length_app. cbn [length].
  pose proof (Nat.mod_upper_bound (length str) n ltac:(lia)) as Hr. set (r := (length str mod n)%nat) in *.
  rewrite <- (Nat.Div0.add_mod_idemp_l (length str) 1 n). fold r. rewrite (Nat.mod_small (n - r)) by lia.
  destruct (decide (r + 1 = n)%nat) as [E|E].
  - rewrite E, Nat.Div0.mod_same, Nat.sub_0_r, Nat.Div0.mod_same. lia.
  - rewrite (Nat.mod_small (r + 1)), Nat.mod_small by lia. lia.
Qed.

Lemma pad_equals_spec fuel n str : (0 < n)%nat → (missing n str <= fuel)%nat →
  pad_equals fuel n str = str ++ replicate (missing n str) 61.
Proof.
  intros Hn. revert str. induction fuel as [|fuel IH]; intros str Hm; cbn [pad_equals].
  - replace (missing n str) with 0%nat by lia. by rewrite app_nil_r.
  - destruct (Nat.eqb_spec (length str mod n) 0) as [E|E].
    + unfold missing. by rewrite E, Nat.sub_0_r, Nat.Div0.mod_same, app_nil_r.
    + rewrite missing_snoc in * by done. rewrite IH by lia. cbn [replicate]. by rewrite <- app_assoc.
Qed.

Lemma decode_values_app table (enc : Z → Z) q rest :
  (∀ v, v ∈ q → enc v ≠ 0 ∧ default (-1) (table !! Z.to_nat (enc v)) = v ∧ v ≠ -1) →
  (match rest with c :: _ => default (-1) (table !! Z.to_nat c) = -1 | [] => True end) →
  decode_values table ((enc <$> q) ++ rest) = (q, rest).
Proof.
  intros Hq Hr. induction q as [|v q IH]; cbn [fmap list_fmap app].
  - destruct rest as [|c rest]; [done|]. cbn [decode_values]. destruct (c =? 0); [done|]. by rewrite Hr.
  - cbn [decode_values]. destruct (Hq v) as (H0 & Hv & H1); [by apply list_elem_of_here|].
    rewrite (proj2 (Z.eqb_neq _ _)), Hv, (proj2 (Z.eqb_neq _ _)), IH by done || (intros; apply Hq; by apply list_elem_of_further).
    done.
Qed.

Lemma skip_equals_replicate k : skip_equals (replicate k 61) = (true, []).
Proof. induction k as [|k IH]; [done|]. exact IH. Qed.

(** Any alphabet whose table reads it back, with a padded length. *)
Lemma decode_encode_base alphabet table bits n bytes :
  0 < bits <= 8 → (0 < n)%nat → bytes_ok bytes →
  (∀ v, fits bits v → default 0 (alphabet !! Z.to_nat v) ≠ 0 ∧
     default (-1) (table !! Z.to_nat (default 0 (alphabet !! Z.to_nat v))) = v) →
  default (-1) (table !! 61%nat) = -1 →
  decode_base table bits n (encode_base alphabet bits n bytes) = (bytes, true).
Proof.
  intros Hbits Hn Hb Htab H61. destruct (ConvertBits_back 8 bits bytes Hbits Hb) as (q & Eq & Eback & Hq & _).
  unfold encode_base, decode_base. rewrite Eq. cbn [snd].
  set (enc := λ v, default 0 (alphabet !! Z.to_nat v)). set (t := enc <$> q).
  pose proof (Nat.mod_upper_bound (n - length t mod n) n ltac:(lia)) as Hlt. fold (missing n t) in Hlt.
  rewrite pad_equals_spec by lia. unfold t at 1. rewrite decode_values_app; cycle 1.
  { intros v Hv. rewrite list.Forall_forall in Hq. specialize (Hq v Hv). destruct (Htab v Hq). unfold fits in Hq. split_and!; [done..|lia]. }
  { destruct (missing n t); [done|]. exact H61. }
  fold t. rewrite Eback, skip_equals_replicate. cbn [length andb]. rewrite !Nat.sub_0_r, length_app, length_replicate.
  f_equal. apply andb_true_iff. split; [|by apply Nat.ltb_lt].
  apply Nat.eqb_eq. unfold missing. rewrite Nat.Div0.add_mod_idemp_r.
  pose proof (Nat.mod_upper_bound (length t) n ltac:(lia)). pose proof (Nat.div_mod_eq (length t) n) as E.
  replace (length t + (n - length t mod n))%nat with ((length t / n + 1) * n)%nat by nia. apply Nat.Div0.mod_mul.
Qed.

(** The tables read the alphabets back. *)
Lemma fits_seq bits v (P : Z → bool) : 0 <= bits →
  forallb P (Z.of_nat <$> seq 0 (Z.to_nat (2 ^ bits))) = true → fits bits v → P v = true.
Proof.
  intros Hb HP [H0 H1]. rewrite forallb_forall in HP. apply HP. apply list_elem_of_In, list_elem_of_fmap.
  exists (Z.to_nat v). split; [lia|]. apply elem_of_seq. lia.
Qed.

Lemma base64_table v : fits 6 v → default 0 (pbase64 !! Z.to_nat v) ≠ 0 ∧
  default (-1) (decode64_table !! Z.to_nat (default 0 (pbase64 !! Z.to_nat v))) = v.
Proof.
  intros Hv. apply (fits_seq 6 v (λ v, bool_decide (default 0 (pbase64 !! Z.to_nat v) ≠ 0 ∧
    default (-1) (decode64_table !! Z.to_nat (default 0 (pbase64 !! Z.to_nat v))) = v))) in Hv; [|lia|by vm_compute].
  by apply bool_decide_eq_true in Hv.
Qed.

Lemma base32_table v : fits 5 v → default 0 (pbase32 !! Z.to_nat v) ≠ 0 ∧
  default (-1) (decode32_table !! Z.to_nat (default 0 (pbase32 !! Z.to_nat v))) = v.
Proof.
  intros Hv. apply (fits_seq 5 v (λ v, bool_decide (default 0 (pbase32 !! Z.to_nat v) ≠ 0 ∧
    default (-1) (decode32_table !! Z.to_nat (default 0 (pbase32 !! Z.to_nat v))) = v))) in Hv; [|lia|by vm_compute].
  by apply bool_decide_eq_true in Hv.
Qed.

(** ** The comparison *)

Lemma lor_zero a b : Z.lor a b = 0 ↔ a = 0 ∧ b = 0.
Proof. apply Z.lor_eq_0_iff. Qed.

Lemma accumulate_zero (f : nat → Z) n acc : for_range 0 n (λ i acc, Z.lor acc (f i)) acc = 0 ↔ acc = 0 ∧ ∀ i, (i < n)%nat → f i = 0.
Proof.
  induction n as [|n IH]; [split; [intros; split; [done|lia]|by intros []]|]. rewrite for_range_S, lor_zero, IH. split.
  - intros [[? H] ?]. split; [done|]. intros i Hi. destruct (decide (i = n)) as [->|]; [done|]. apply H. lia.
  - intros [? H]. split_and!; [done| |apply H; lia]. intros i Hi. apply H. lia.
Qed.

(** The comparison that looks at every element of its first argument is equality. *)
Theorem TimingResistantEqual_spec (a b : list Z) : TimingResistantEqual a b = bool_decide (a = b).
Proof.
  unfold TimingResistantEqual. destruct (Nat.eqb_spec (length b) 0) as [Hb|Hb].
  { apply nil_length_inv in Hb as ->. by destruct a. }
  apply eq_bool_prop_intro. rewrite !Is_true_true, Z.eqb_eq, bool_decide_eq_true.
  rewrite (accumulate_zero (λ i, Z.lxor (default 0 (a !! i)) (default 0 (b !! (i mod length b)%nat)))), Z.lxor_eq_0_iff. split.
  - intros [Hl Hi]. apply list_eq_same_length with (length b); [done|lia|]. intros i x y Hlt Hx Hy. specialize (Hi i ltac:(lia)).
    rewrite Nat.mod_small, Hx, Hy in Hi by lia. exact (proj1 (Z.lxor_eq_0_iff _ _) Hi).
  - intros ->. split; [done|]. intros i Hi. rewrite Nat.mod_small by done. apply Z.lxor_nilpotent.
Qed.

(** ** Decimal numbers *)

Definition digits_ok (ds : list Z) : Prop := Forall (λ d, 0 <= d < 10) ds.
Definition show_digits (ds : list Z) : list Z := (λ d, 48 + d) <$> ds.

Lemma decimal_snoc ds d : decimal (ds ++ [d]) = 10 * decimal ds + d.
Proof. unfold decimal. by rewrite foldl_app. Qed.

Lemma decimal_app ds es : decimal (ds ++ es) = decimal ds * 10 ^ Z.of_nat (length es) + decimal es.
Proof.
  induction es as [|e es IH] using rev_ind; [rewrite app_nil_r; cbn; lia|]. rewrite app_assoc, !decimal_snoc, IH, length_app.
  cbn [length]. rewrite Nat2Z.inj_add, Z.pow_add_r by lia. lia.
Qed.

Lemma decimal_cons d ds : decimal (d :: ds) = d * 10 ^ Z.of_nat (length ds) + decimal ds.
Proof. change (d :: ds) with ([d] ++ ds). rewrite decimal_app. f_equal. Qed.

Lemma decimal_bound ds : digits_ok ds → 0 <= decimal ds < 10 ^ Z.of_nat (length ds).
Proof.
  induction ds as [|d ds IH] using rev_ind; intros Hd; [cbn; lia|]. apply Forall_app in Hd as [Hd Hd'].
  apply Forall_cons_1 in Hd' as [Hd' _]. rewrite decimal_snoc, length_app, Nat2Z.inj_add, Z.pow_add_r by lia. cbn. specialize (IH Hd). lia.
Qed.

Lemma isdigit_spec c : isdigit c = true ↔ 48 <= c <= 57.
Proof. unfold isdigit. rewrite andb_true_iff, !Z.leb_le. lia. Qed.

Lemma pow10_pos n : 0 <= n → 0 < 10 ^ n.
Proof. intros. by apply Z.pow_pos_nonneg. Qed.

(** A number whose significant digits are too many: what comes after a prefix that
    ends in a nonzero digit and exceeds the bound. *)
Definition too_long (M : Z) : Prop :=
  ∃ P j r, M = P * 10 ^ j + r ∧ 0 <= j ∧ 0 <= r < 10 ^ j ∧ P mod 10 ≠ 0 ∧ UPPER_BOUND < P.

Lemma too_long_snoc M d : too_long M → 0 <= d < 10 → too_long (10 * M + d).
Proof.
  intros (P & j & r & -> & Hj & Hr & Hm & HP) Hd. exists P, (j + 1), (10 * r + d). rewrite Z.pow_add_r by lia.
  split_and!; try lia.
Qed.

Lemma too_long_app M ds : too_long M → digits_ok ds → too_long (M * 10 ^ Z.of_nat (length ds) + decimal ds).
Proof.
  intros HM. induction ds as [|d ds IH] using rev_ind; intros Hd; [cbn; by rewrite Z.mul_1_r, Z.add_0_r|].
  apply Forall_app in Hd as [Hd Hd']. apply Forall_cons_1 in Hd' as [Hd' _]. specialize (IH Hd).
  rewrite decimal_snoc, length_app, Nat2Z.inj_add, Z.pow_add_r by lia. cbn [length]. change (10 ^ Z.of_nat 1) with 10.
  replace (M * (10 ^ Z.of_nat (length ds) * 10) + (10 * decimal ds + d)) with
    (10 * (M * 10 ^ Z.of_nat (length ds) + decimal ds) + d) by lia. by apply too_long_snoc.
Qed.

(** Such a number is no shorter number with zeros behind it. *)
Lemma too_long_spec M x k : too_long M → 0 <= k → M = x * 10 ^ k → UPPER_BOUND < x.
Proof.
  intros (P & j & r & HM & Hj & Hr & Hm & HP) Hk E. destruct (Z.le_gt_cases k j) as [Hle|Hgt].
  - assert (10 ^ j = 10 ^ (j - k) * 10 ^ k) as Ej by (rewrite <- Z.pow_add_r by lia; f_equal; lia).
    pose proof (pow10_pos k Hk). pose proof (pow10_pos (j - k) ltac:(lia)). unfold UPPER_BOUND in *. nia.
  - exfalso. assert (10 ^ k = 10 ^ (k - j - 1) * 10 * 10 ^ j) as Ek.
    { replace k with (k - j - 1 + 1 + j) at 1 by lia. by rewrite !Z.pow_add_r by lia. }
    pose proof (pow10_pos j Hj). assert (P = x * 10 ^ (k - j - 1) * 10) as EP by nia.
    apply Hm. rewrite EP. apply Z.mod_mul. lia.
Qed.

(** ** The mantissa *)

(** The mantissa is short and has no zeros at its end. *)
Definition mantissa_ok (m : Z) : Prop := 0 <= m <= UPPER_BOUND ∧ (m = 0 ∨ m mod 10 ≠ 0).

Lemma scale_mantissa_spec n m : 0 <= m → scale_mantissa (S n) m = if m * 10 ^ Z.of_nat n <=? UPPER_BOUND / 10 then Some (m * 10 ^ Z.of_nat (S n)) else None.
Proof.
  revert m. induction n as [|n IH]; intros m Hm.
  - cbn [scale_mantissa]. rewrite Z.mul_1_r. rewrite Z.gtb_ltb. destruct (Z.ltb_spec (UPPER_BOUND / 10) m), (Z.leb_spec m (UPPER_BOUND / 10)); (done || lia).
  - assert (m * 10 ^ Z.of_nat (S n) = m * 10 * 10 ^ Z.of_nat n) as E1 by (rewrite Nat2Z.inj_succ, Z.pow_succ_r by lia; lia).
    assert (m * 10 ^ Z.of_nat (S (S n)) = m * 10 * 10 ^ Z.of_nat (S n)) as E2 by (rewrite (Nat2Z.inj_succ (S n)), Z.pow_succ_r by lia; lia).
    rewrite E1, E2, <- IH by lia. change (scale_mantissa (S (S n)) m) with (if m >? UPPER_BOUND / 10 then None else scale_mantissa (S n) (m * 10)).
    rewrite Z.gtb_ltb. destruct (Z.ltb_spec (UPPER_BOUND / 10) m) as [H|H]; [|done]. rewrite IH by lia.
    pose proof (pow10_pos (Z.of_nat n) ltac:(lia)). destruct (Z.leb_spec (m * 10 * 10 ^ Z.of_nat n) (UPPER_BOUND / 10)); [|done].
    assert (0 <= UPPER_BOUND / 10) by done. nia.
Qed.

Lemma ProcessMantissaDigit_spec d m tz :
  mantissa_ok m → 0 <= d < 10 →
  match ProcessMantissaDigit (48 + d) m tz with
  | Some (m', tz') => mantissa_ok m' ∧ m' * 10 ^ Z.of_nat tz' = 10 * (m * 10 ^ Z.of_nat tz) + d
  | None => too_long (10 * (m * 10 ^ Z.of_nat tz) + d)
  end.
Proof.
  intros [Hm Hz] Hd. unfold ProcessMantissaDigit. pose proof (pow10_pos (Z.of_nat tz) ltac:(lia)) as Hp.
  assert (10 ^ Z.of_nat (S tz) = 10 * 10 ^ Z.of_nat tz) as E by (rewrite Nat2Z.inj_succ, Z.pow_succ_r by lia; done).
  destruct (Z.eqb_spec (48 + d) 48) as [E0|E0]; [split; [done|]; nia|].
  rewrite scale_mantissa_spec by lia. change (UPPER_BOUND / 10) with 99999999999999999. unfold mantissa_ok, UPPER_BOUND in *.
  assert ((10 * (m * 10 ^ Z.of_nat tz) + d) mod 10 ≠ 0) by (rewrite Z.add_comm, Z.mul_comm, Z.mod_add, Z.mod_small by lia; lia).
  replace (m * 10 ^ Z.of_nat (S tz) + (48 + d - 48)) with (10 * (m * 10 ^ Z.of_nat tz) + d) by nia.
  destruct (Z.leb_spec (m * 10 ^ Z.of_nat tz) 99999999999999999) as [Hle|Hgt]; cbn [mbind option_bind].
  - replace (m * 10 ^ Z.of_nat (S tz) + (48 + d - 48)) with (10 * (m * 10 ^ Z.of_nat tz) + d) by nia.
    split; [split; [nia|by right]|]. cbn. lia.
  - exists (10 * (m * 10 ^ Z.of_nat tz) + d), 0, 0. unfold UPPER_BOUND. split_and!; (lia || done).
Qed.

Lemma split_digits l : ∃ ds rest, l = show_digits ds ++ rest ∧ digits_ok ds ∧ starts_digit rest = false.
Proof.
  induction l as [|c l (ds & rest & -> & Hd & Hr)]; [exists [], []; split_and!; [done|constructor|done]|]. destruct (isdigit c) eqn:Hc.
  - apply isdigit_spec in Hc. exists (c - 48 :: ds), rest.
    split_and!; [change (show_digits (c - 48 :: ds)) with (48 + (c - 48) :: show_digits ds); cbn [app]; f_equal; lia|constructor; [lia|done]|done].
  - exists [], (c :: show_digits ds ++ rest). split_and!; [done|constructor|exact Hc].
Qed.

Lemma mantissa_digits_spec ds rest m tz ofs :
  digits_ok ds → starts_digit rest = false → mantissa_ok m →
  match mantissa_digits (show_digits ds ++ rest) m tz ofs with
  | Some (m', tz', ofs', rest') =>
      mantissa_ok m' ∧ m' * 10 ^ Z.of_nat tz' = m * 10 ^ Z.of_nat tz * 10 ^ Z.of_nat (length ds) + decimal ds ∧
      ofs' = (ofs + length ds)%nat ∧ rest' = rest
  | None => too_long (m * 10 ^ Z.of_nat tz * 10 ^ Z.of_nat (length ds) + decimal ds)
  end.
Proof.
  intros Hd Hr. revert m tz ofs. induction Hd as [|d ds Hd Hds IH]; intros m tz ofs Hm.
  - cbn [show_digits fmap list_fmap app length]. change (decimal []) with 0. rewrite Z.mul_1_r, Z.add_0_r.
    destruct rest as [|c rest]; cbn [mantissa_digits]; [split_and!; [done|done|lia|done]|].
    cbn [starts_digit] in Hr. rewrite Hr. split_and!; [done|done|lia|done].
  - change (show_digits (d :: ds) ++ rest) with (48 + d :: show_digits ds ++ rest). cbn [mantissa_digits].
    assert (isdigit (48 + d) = true) as -> by (apply isdigit_spec; lia).
    pose proof (ProcessMantissaDigit_spec d m tz Hm Hd) as HP. rewrite decimal_cons. cbn [length].
    replace (m * 10 ^ Z.of_nat tz * 10 ^ Z.of_nat (S (length ds)) + (d * 10 ^ Z.of_nat (length ds) + decimal ds)) with
      ((10 * (m * 10 ^ Z.of_nat tz) + d) * 10 ^ Z.of_nat (length ds) + decimal ds)
      by (rewrite Nat2Z.inj_succ, Z.pow_succ_r by lia; lia).
    destruct (ProcessMantissaDigit (48 + d) m tz) as [[m1 tz1]|]; cbn [mbind option_bind].
    + destruct HP as [Hm1 E1]. specialize (IH m1 tz1 (S ofs) Hm1). rewrite E1 in IH.
      destruct (mantissa_digits _ m1 tz1 (S ofs)) as [[[[m' tz'] ofs'] rest']|]; [|done].
      destruct IH as (? & ? & -> & ?). split_and!; [done|done|lia|done].
    + by apply too_long_app.
Qed.

(** ** The syntax of JSON numbers *)

Record number := mk_number {
  num_neg : bool;
  num_int : list Z;
  num_frac : option (list Z);
  num_exp : option (Z * option bool * list Z);   (* the letter, the sign, the digits *)
}.

Definition int_ok (ds : list Z) : Prop := ds = [0] ∨ (digits_ok ds ∧ ∃ d ds', ds = d :: ds' ∧ d ≠ 0).
Definition frac_ok (f : option (list Z)) : Prop := match f with Some ds => digits_ok ds ∧ ds ≠ [] | None => True end.
Definition exp_ok (e : option (Z * option bool * list Z)) : Prop :=
  match e with Some (c, _, ds) => (c = 101 ∨ c = 69) ∧ digits_ok ds ∧ ds ≠ [] | None => True end.
Definition number_ok (n : number) : Prop := int_ok (num_int n) ∧ frac_ok (num_frac n) ∧ exp_ok (num_exp n).

Definition show_frac (f : option (list Z)) : list Z := match f with Some ds => 46 :: show_digits ds | None => [] end.
Definition show_exp (e : option (Z * option bool * list Z)) : list Z :=
  match e with
  | Some (c, sign, ds) => c :: match sign with Some true => [45] | Some false => [43] | None => [] end ++ show_digits ds
  | None => []
  end.
Definition show_number (n : number) : list Z :=
  (if num_neg n then [45] else []) ++ show_digits (num_int n) ++ show_frac (num_frac n) ++ show_exp (num_exp n).

Definition exp_digits (e : option (Z * option bool * list Z)) : list Z := match e with Some (_, _, ds) => ds | None => [] end.
Definition exp_value (e : option (Z * option bool * list Z)) : Z :=
  match e with Some (_, Some true, ds) => - decimal ds | Some (_, _, ds) => decimal ds | None => 0 end.

(** All digits as one integer, and the power of ten it is scaled by. *)
Definition significand (n : number) : Z := decimal (num_int n ++ default [] (num_frac n)).
Definition scale (n : number) : Z := exp_value (num_exp n) - Z.of_nat (length (default [] (num_frac n))).

(** [a] units of [10^-decimals] are the value of [n], exactly. *)
Definition represents (n : number) (decimals a : Z) : Prop :=
  let e := scale n + decimals in
  a * 10 ^ Z.max 0 (- e) = (if num_neg n then - significand n else significand n) * 10 ^ Z.max 0 e.

(** ** The parts *)

Lemma parse_int_part_spec ds rest :
  int_ok ds → (ds ≠ [0] → starts_digit rest = false) →
  match parse_int_part (show_digits ds ++ rest) with
  | Some (m, tz, rest') => mantissa_ok m ∧ m * 10 ^ Z.of_nat tz = decimal ds ∧ rest' = rest
  | None => too_long (decimal ds)
  end.
Proof.
  intros [->|(Hd & d & ds' & -> & Hd0)] Hr; [split_and!; [unfold mantissa_ok, UPPER_BOUND; lia|done|done]|]. specialize (Hr ltac:(congruence)).
  assert (0 <= d < 10) as Hdr by (by apply Forall_cons_1 in Hd as [? _]).
  change (show_digits (d :: ds') ++ rest) with (48 + d :: show_digits ds' ++ rest). cbn [parse_int_part].
  rewrite (proj2 (Z.eqb_neq _ _)), (proj2 (Z.leb_le _ _)), (proj2 (Z.leb_le _ _)) by lia. cbn [andb].
  pose proof (mantissa_digits_spec (d :: ds') rest 0 0 0 Hd Hr ltac:(unfold mantissa_ok, UPPER_BOUND; lia)) as H.
  rewrite !Z.mul_0_l, Z.add_0_l in H. change (show_digits (d :: ds') ++ rest) with (48 + d :: show_digits ds' ++ rest) in H.
  destruct (mantissa_digits _ _ _ _) as [[[[m tz] ofs] rest']|]; cbn [mbind option_bind]; [|done]. by destruct H as (? & ? & _ & ?).
Qed.

Lemma parse_fraction_spec f rest m tz :
  frac_ok f → starts_digit rest = false → match rest with c :: _ => c ≠ 46 | [] => True end → mantissa_ok m →
  let ds := default [] f in
  match parse_fraction (show_frac f ++ rest) m tz with
  | Some (m', tz', ofs, rest') =>
      mantissa_ok m' ∧ m' * 10 ^ Z.of_nat tz' = m * 10 ^ Z.of_nat tz * 10 ^ Z.of_nat (length ds) + decimal ds ∧
      ofs = length ds ∧ rest' = rest
  | None => too_long (m * 10 ^ Z.of_nat tz * 10 ^ Z.of_nat (length ds) + decimal ds)
  end.
Proof.
  intros Hf Hr Hdot Hm ds. destruct f as [fs|]; subst ds; cbn [default show_frac app].
  - destruct Hf as [Hf Hne]. cbn [parse_fraction]. change (46 =? 46) with true. cbn iota.
    destruct fs as [|d fs]; [done|]. change (starts_digit (show_digits (d :: fs) ++ rest)) with (isdigit (48 + d)).
    assert (isdigit (48 + d) = true) as -> by (apply isdigit_spec; apply Forall_cons_1 in Hf as [? _]; lia).
    pose proof (mantissa_digits_spec (d :: fs) rest m tz 0 Hf Hr Hm) as H. by destruct (mantissa_digits _ _ _ _) as [[[[? ?] ?] ?]|].
  - rewrite Z.mul_1_r, Z.add_0_r. destruct rest as [|c rest]; cbn [parse_fraction]; [done|].
    rewrite (proj2 (Z.eqb_neq _ _)) by done. done.
Qed.

Lemma exponent_digits_spec ds rest e :
  digits_ok ds → starts_digit rest = false → 0 <= e →
  match exponent_digits (show_digits ds ++ rest) e with
  | Some (e', rest') => e' = e * 10 ^ Z.of_nat (length ds) + decimal ds ∧ rest' = rest
  | None => UPPER_BOUND < e * 10 ^ Z.of_nat (length ds) + decimal ds
  end.
Proof.
  intros Hd Hr. revert e. induction Hd as [|d ds Hd Hds IH]; intros e He.
  - cbn [length show_digits fmap list_fmap app]. rewrite Z.mul_1_r, Z.add_0_r. destruct rest as [|c rest]; [done|].
    cbn [exponent_digits]. cbn [starts_digit] in Hr. by rewrite Hr.
  - change (show_digits (d :: ds) ++ rest) with (48 + d :: show_digits ds ++ rest). cbn [exponent_digits].
    assert (isdigit (48 + d) = true) as -> by (apply isdigit_spec; lia). rewrite decimal_cons. cbn [length].
    pose proof (decimal_bound ds Hds) as Hb. pose proof (pow10_pos (Z.of_nat (length ds)) ltac:(lia)) as Hp.
    replace (e * 10 ^ Z.of_nat (S (length ds)) + (d * 10 ^ Z.of_nat (length ds) + decimal ds)) with
      ((e * 10 + (48 + d) - 48) * 10 ^ Z.of_nat (length ds) + decimal ds) by (rewrite Nat2Z.inj_succ, Z.pow_succ_r by lia; lia).
    rewrite Z.gtb_ltb. destruct (Z.ltb_spec (UPPER_BOUND / 10) e) as [Hgt|Hle]; [|by apply IH; lia].
    change (UPPER_BOUND / 10) with 99999999999999999 in Hgt. unfold UPPER_BOUND. nia.
Qed.

Lemma parse_exponent_spec e :
  exp_ok e →
  match parse_exponent (show_exp e) with
  | Some (x, rest) => x = exp_value e ∧ rest = []
  | None => UPPER_BOUND < decimal (exp_digits e)
  end.
Proof.
  intros He. destruct e as [[[c sign] ds]|]; [|done]. destruct He as (Hc & Hd & Hne). cbn [show_exp parse_exponent].
  assert ((c =? 101) || (c =? 69) = true) as -> by (destruct Hc as [->| ->]; done).
  destruct ds as [|d ds]; [done|]. assert (0 <= d < 10) as Hdr by (by apply Forall_cons_1 in Hd as [? _]).
  pose proof (exponent_digits_spec (d :: ds) [] 0 Hd eq_refl ltac:(lia)) as H. rewrite Z.mul_0_l, Z.add_0_l, app_nil_r in H.
  set (text := show_digits (d :: ds)) in *.
  assert (starts_digit text = true) as Hs by (apply isdigit_spec; lia).
  assert ((match text with
           | d' :: rest' => if d' =? 43 then (false, rest') else if d' =? 45 then (true, rest') else (false, text)
           | [] => (false, text) end) = (false, text)) as Hnone.
  { subst text. change (show_digits (d :: ds)) with (48 + d :: show_digits ds). cbv beta iota.
    rewrite (proj2 (Z.eqb_neq (48 + d) 43)), (proj2 (Z.eqb_neq (48 + d) 45)) by lia. done. }
  assert (∀ b : bool, match (if starts_digit text then '(e, rest) ← exponent_digits text 0; Some (if b then - e else e, rest) else None) with
     | Some (x, rest) => x = (if b then - decimal (d :: ds) else decimal (d :: ds)) ∧ rest = []
     | None => UPPER_BOUND < decimal (d :: ds) end) as Hb.
  { intros b. rewrite Hs. destruct (exponent_digits text 0) as [[e' rest']|]; cbn [mbind option_bind]; [|done].
    destruct H as [-> ->]. by destruct b. }
  destruct sign as [[|]|]; cbn [app exp_value exp_digits].
  - apply (Hb true).
  - apply (Hb false).
  - rewrite Hnone. apply (Hb false).
Qed.

Lemma parse_exponent_sound val x :
  parse_exponent val = Some (x, []) → ∃ e, exp_ok e ∧ val = show_exp e ∧ x = exp_value e.
Proof.
  destruct val as [|c val]; [intros [= <-]; by exists None|]. cbn [parse_exponent]. destruct ((c =? 101) || (c =? 69)) eqn:Ec; [|done].
  assert (c = 101 ∨ c = 69) as Hc by (apply orb_true_iff in Ec; rewrite !Z.eqb_eq in Ec; done). clear Ec.
  assert (∀ (sign : option bool) text, (if starts_digit text then '(e, rest) ← exponent_digits text 0; Some (if (default false sign) then - e else e, rest) else None)
     = Some (x, []) → ∃ e, exp_ok e ∧ c :: match sign with Some true => [45] | Some false => [43] | None => [] end ++ text = show_exp e ∧ x = exp_value e) as Hgen.
  { intros sign text. destruct (split_digits text) as (ds & rest & -> & Hd & Hr).
    pose proof (exponent_digits_spec ds rest 0 Hd Hr ltac:(lia)) as H. rewrite Z.mul_0_l, Z.add_0_l in H.
    destruct (starts_digit (show_digits ds ++ rest)) eqn:Hs; [|done]. destruct (exponent_digits _ _) as [[e' rest']|]; [|done].
    destruct H as [-> ->]. cbn [mbind option_bind]. intros [= <- ->]. rewrite app_nil_r in *.
    exists (Some (c, sign, ds)). split; [|split; [done|by destruct sign as [[|]|]]]. split_and!; [done|done|].
    intros ->. done. }
  destruct val as [|d val]; [apply (Hgen None)|]. destruct (Z.eqb_spec d 43) as [->|]; [apply (Hgen (Some false))|].
  destruct (Z.eqb_spec d 45) as [->|]; [apply (Hgen (Some true))|apply (Hgen None)].
Qed.

Lemma scale_signed_spec n m :
  match scale_signed n m with
  | Some x => x = m * 10 ^ Z.of_nat n
  | None => UPPER_BOUND < Z.abs m * 10 ^ Z.of_nat n
  end.
Proof.
  revert m. induction n as [|n IH]; intros m; [cbn; lia|]. cbn [scale_signed]. change (UPPER_BOUND / 10) with 99999999999999999.
  rewrite Nat2Z.inj_succ, Z.pow_succ_r by lia. pose proof (pow10_pos (Z.of_nat n) ltac:(lia)).
  destruct (_ || _) eqn:E.
  - assert (100000000000000000 <= Z.abs m) by (apply orb_true_iff in E; rewrite Z.gtb_lt, Z.ltb_lt in E; lia).
    assert (100000000000000000 * 10 <= Z.abs m * (10 * 10 ^ Z.of_nat n)) by (apply Z.mul_le_mono_nonneg; lia). unfold UPPER_BOUND. lia.
  - specialize (IH (m * 10)). destruct (scale_signed n (m * 10)); [rewrite IH; ring|].
    rewrite Z.abs_mul in IH. change (Z.abs 10) with 10 in IH. rewrite Z.mul_assoc. exact IH.
Qed.

(** ** The whole string *)

Lemma scale_value m tz e a :
  mantissa_ok (Z.abs m) → 0 <= e + Z.of_nat tz → a = m * 10 ^ (e + Z.of_nat tz) →
  a * 10 ^ Z.max 0 (- e) = m * 10 ^ Z.of_nat tz * 10 ^ Z.max 0 e.
Proof.
  intros _ He ->. rewrite <- !Z.mul_assoc, <- !Z.pow_add_r by lia. do 2 f_equal. lia.
Qed.

(** A value that fits is the mantissa scaled by what the code computes. *)
Lemma scale_complete m tz e a :
  mantissa_ok (Z.abs m) → m ≠ 0 → Z.abs a <= UPPER_BOUND →
  a * 10 ^ Z.max 0 (- e) = m * 10 ^ Z.of_nat tz * 10 ^ Z.max 0 e →
  0 <= e + Z.of_nat tz < 18 ∧ a = m * 10 ^ (e + Z.of_nat tz).
Proof.
  intros [_ Hm] Hm0 Ha E. assert (0 <= e + Z.of_nat tz) as He.
  { destruct (Z.le_gt_cases 0 (e + Z.of_nat tz)); [done|]. exfalso. rewrite (Z.max_r 0 (- e)), (Z.max_l 0 e), Z.mul_1_r in E by lia.
    replace (- e) with (- e - Z.of_nat tz - 1 + 1 + Z.of_nat tz) in E by lia. rewrite !Z.pow_add_r, !Z.mul_assoc in E by lia.
    apply Z.mul_cancel_r in E; [|pose proof (pow10_pos (Z.of_nat tz)); lia].
    destruct Hm as [?|Hm]; [lia|]. apply Hm. rewrite <- E, Z.abs_mul. apply Z.mod_mul. lia. }
  assert (a = m * 10 ^ (e + Z.of_nat tz)) as Ea.
  { rewrite <- Z.mul_assoc, <- Z.pow_add_r in E by lia.
    replace (Z.of_nat tz + Z.max 0 e) with (e + Z.of_nat tz + Z.max 0 (- e)) in E by lia.
    rewrite Z.pow_add_r, Z.mul_assoc in E by lia. apply Z.mul_cancel_r in E; [done|]. pose proof (pow10_pos (Z.max 0 (- e))). lia. }
  split; [|done]. split; [done|]. destruct (Z.lt_ge_cases (e + Z.of_nat tz) 18) as [|Hge]; [done|]. exfalso.
  apply (Z.pow_le_mono_r 10) in Hge; [|lia]. rewrite Ea, Z.abs_mul, (Z.abs_eq (10 ^ _)) in Ha by lia.
  unfold UPPER_BOUND in Ha. change (10 ^ 18) with 1000000000000000000 in Hge.
  assert (1 * 1000000000000000000 <= Z.abs m * 10 ^ (e + Z.of_nat tz)) by (apply Z.mul_le_mono_nonneg; lia). lia.
Qed.

Lemma show_exp_start e : exp_ok e →
  starts_digit (show_exp e) = false ∧ match show_exp e with c :: _ => c ≠ 46 | [] => True end.
Proof. destruct e as [[[c sign] ds]|]; [|done]. by intros ([->| ->] & _). Qed.

Lemma show_frac_start f e : exp_ok e → starts_digit (show_frac f ++ show_exp e) = false.
Proof. intros He. destruct f; [done|]. by apply show_exp_start. Qed.

Lemma int_ok_digits ds : int_ok ds → digits_ok ds.
Proof. intros [->|[? _]]; [|done]. by repeat constructor. Qed.

(** What the three parts give for a number: its significand without its zeros, or
    the number is too long. *)
Lemma parse_parts n :
  number_ok n →
  match '(m, tz, val) ← parse_int_part (show_digits (num_int n) ++ show_frac (num_frac n) ++ show_exp (num_exp n));
        '(m, tz, ofs, val) ← parse_fraction val m tz;
        '(e, val) ← parse_exponent val; Some (m, tz, ofs, e, val) with
  | Some (m, tz, ofs, e, val) =>
      mantissa_ok m ∧ m * 10 ^ Z.of_nat tz = significand n ∧ e - Z.of_nat ofs = scale n ∧ val = []
  | None => too_long (significand n) ∨ UPPER_BOUND < decimal (exp_digits (num_exp n))
  end.
Proof.
  intros (Hi & Hf & He). unfold significand, scale. rewrite decimal_app.
  assert (digits_ok (default [] (num_frac n))) as Hfd by (destruct (num_frac n); [apply Hf|constructor]).
  pose proof (parse_int_part_spec (num_int n) (show_frac (num_frac n) ++ show_exp (num_exp n)) Hi (λ _, show_frac_start _ _ He)) as H1.
  destruct (parse_int_part _) as [[[m1 tz1] val1]|]; cbn [mbind option_bind]; [|left; by apply too_long_app].
  destruct H1 as (Hm1 & E1 & ->). destruct (show_exp_start _ He) as [Hs Hdot].
  pose proof (parse_fraction_spec (num_frac n) (show_exp (num_exp n)) m1 tz1 Hf Hs Hdot Hm1) as H2. cbv zeta in H2. rewrite E1 in H2.
  destruct (parse_fraction _ m1 tz1) as [[[[m2 tz2] ofs] val2]|]; cbn [mbind option_bind]; [|by left].
  destruct H2 as (Hm2 & E2 & -> & ->). pose proof (parse_exponent_spec _ He) as H3.
  destruct (parse_exponent _) as [[e val3]|]; cbn [mbind option_bind]; [|by right]. destruct H3 as [-> ->]. done.
Qed.

(** Every string the parts accept is made of them. *)
Lemma parse_int_part_sound val m tz rest :
  parse_int_part val = Some (m, tz, rest) → ∃ ds, int_ok ds ∧ val = show_digits ds ++ rest ∧ mantissa_ok m.
Proof.
  destruct val as [|c val]; [done|]. cbn [parse_int_part]. destruct (Z.eqb_spec c 48) as [->|Hc].
  { intros [= <- <- <-]. exists [0]. split_and!; [by left|done|unfold mantissa_ok, UPPER_BOUND; lia]. }
  destruct ((49 <=? c) && (c <=? 57)) eqn:Ec; [|done]. apply andb_true_iff in Ec. rewrite !Z.leb_le in Ec.
  destruct (split_digits (c :: val)) as (ds & rest' & E & Hd & Hr). rewrite E.
  pose proof (mantissa_digits_spec ds rest' 0 0 0 Hd Hr ltac:(unfold mantissa_ok, UPPER_BOUND; lia)) as H.
  destruct (mantissa_digits _ _ _ _) as [[[[m' tz'] ofs'] rest'']|]; [|done]. cbn [mbind option_bind]. intros [= <- <- <-].
  destruct H as (Hm & _ & _ & ->). exists ds. split_and!; [|done|done]. right. split; [done|].
  destruct ds as [|d ds].
  - cbn [show_digits fmap list_fmap app] in E. subst rest'. cbn [starts_digit] in Hr. exfalso.
    assert (isdigit c = true) by (apply isdigit_spec; lia). congruence.
  - exists d, ds. split; [done|]. injection E as E _. lia.
Qed.

Lemma parse_fraction_sound val m tz m' tz' ofs rest :
  parse_fraction val m tz = Some (m', tz', ofs, rest) → mantissa_ok m → ∃ f, frac_ok f ∧ val = show_frac f ++ rest.
Proof.
  intros H Hm. destruct val as [|c val]; [injection H as <- <- <- <-; by exists None|]. cbn [parse_fraction] in H.
  destruct (Z.eqb_spec c 46) as [->|Hc]; [|injection H as <- <- <- <-; by exists None].
  destruct (split_digits val) as (ds & rest' & -> & Hd & Hr). destruct (starts_digit (show_digits ds ++ rest')) eqn:Hs; [|done].
  pose proof (mantissa_digits_spec ds rest' m tz 0 Hd Hr Hm) as H'. rewrite H in H'. destruct H' as (_ & _ & _ & ->).
  exists (Some ds). split; [|done]. split; [done|]. intros ->. cbn in Hs. congruence.
Qed.

Lemma ParseFixedPoint_sound val decimals a :
  ParseFixedPoint val decimals = Some a →
  ∃ n, number_ok n ∧ val = show_number n ∧ represents n decimals a ∧ Z.abs a <= UPPER_BOUND.
Proof.
  unfold ParseFixedPoint. set (sv := match val with c :: val' => if c =? 45 then (true, val') else (false, val) | [] => (false, val) end).
  assert (val = (if sv.1 then [45] else []) ++ sv.2) as Hv.
  { subst sv. destruct val as [|c val]; [done|]. by destruct (Z.eqb_spec c 45) as [->|]. }
  destruct sv as [neg val0]. cbn [fst snd] in Hv. subst val.
  destruct (parse_int_part val0) as [[[m1 tz1] val1]|] eqn:E1; [|done]. cbn [mbind option_bind].
  destruct (parse_fraction val1 m1 tz1) as [[[[m tz] ofs] val2]|] eqn:E2; [|done]. cbn [mbind option_bind].
  destruct (parse_exponent val2) as [[e [|? ?]]|] eqn:E3; [|done..]. cbn [mbind option_bind].
  destruct (parse_int_part_sound _ _ _ _ E1) as (ds & Hds & -> & Hm1).
  destruct (parse_fraction_sound _ _ _ _ _ _ _ E2 Hm1) as (f & Hf & ->).
  destruct (parse_exponent_sound _ _ E3) as (x & Hx & -> & _).
  set (n := mk_number neg ds f x). pose proof (parse_parts n (conj Hds (conj Hf Hx))) as Hp. cbn [num_int num_frac num_exp n] in Hp.
  rewrite E1 in Hp. cbn [mbind option_bind] in Hp. rewrite E2 in Hp. cbn [mbind option_bind] in Hp. rewrite E3 in Hp.
  cbn [mbind option_bind] in Hp. destruct Hp as (Hm & Esig & Esc & _). intros H. exists n.
  split; [done|]. split; [done|]. revert H. replace (e - Z.of_nat ofs + Z.of_nat tz + decimals) with (scale n + decimals + Z.of_nat tz) by lia.
  set (k := scale n + decimals). destruct (Z.ltb_spec (k + Z.of_nat tz) 0); [done|].
  rewrite Z.geb_leb. destruct (Z.leb_spec 18 (k + Z.of_nat tz)); [done|]. set (sm := if neg then - m else m).
  pose proof (scale_signed_spec (Z.to_nat (k + Z.of_nat tz)) sm) as Hs.
  destruct (scale_signed _ sm) as [y|]; [|done]. cbn [mbind option_bind]. destruct (_ || _) eqn:Eb; [done|]. intros [= <-].
  apply orb_false_iff in Eb as [Eb1 Eb2]. rewrite Z.gtb_ltb, Z.ltb_ge in Eb1. apply Z.ltb_ge in Eb2. split; [|lia].
  unfold represents. fold k. rewrite Z2Nat.id in Hs by done. cbn [num_neg n].
  replace (if neg then - significand n else significand n) with (sm * 10 ^ Z.of_nat tz) by (subst sm; destruct neg; lia).
  apply scale_value; [|done|done]. subst sm. unfold mantissa_ok in *. destruct neg; rewrite ?Z.abs_opp, Z.abs_eq by lia; done.
Qed.

(** A too long number does not fit. *)
Lemma too_long_unrepresentable n decimals a :
  too_long (significand n) → represents n decimals a → UPPER_BOUND < Z.abs a.
Proof.
  intros Hl Hr. unfold represents in Hr. set (e := scale n + decimals) in *. pose proof (too_long_spec _ (significand n) 0 Hl ltac:(lia) ltac:(lia)) as Hs.
  assert (Z.abs (if num_neg n then - significand n else significand n) = significand n) as Habs
    by (unfold UPPER_BOUND in Hs; destruct (num_neg n); lia).
  apply (f_equal Z.abs) in Hr. rewrite !Z.abs_mul, Habs, !(Z.abs_eq (10 ^ _)) in Hr by (apply Z.pow_nonneg; lia).
  destruct (Z.le_gt_cases 0 e).
  - rewrite (Z.max_l 0 (- e)), Z.mul_1_r in Hr by lia. rewrite Hr. pose proof (pow10_pos (Z.max 0 e) ltac:(lia)).
    unfold UPPER_BOUND in *. nia.
  - rewrite (Z.max_l 0 e), Z.mul_1_r in Hr by lia. apply (too_long_spec (significand n) (Z.abs a) (Z.max 0 (- e))); [done|lia|done].
Qed.

Lemma ParseFixedPoint_complete n decimals a :
  number_ok n → significand n ≠ 0 → decimal (exp_digits (num_exp n)) <= UPPER_BOUND →
  represents n decimals a → Z.abs a <= UPPER_BOUND → ParseFixedPoint (show_number n) decimals = Some a.
Proof.
  intros Hn H0 Hexp Hrep Ha. pose proof (parse_parts n Hn) as Hp. unfold ParseFixedPoint, show_number.
  assert (∀ l, (match (if num_neg n then [45] else []) ++ show_digits (num_int n) ++ l with
     | c :: val' => if c =? 45 then (true, val') else (false, (if num_neg n then [45] else []) ++ show_digits (num_int n) ++ l)
     | [] => (false, (if num_neg n then [45] else []) ++ show_digits (num_int n) ++ l) end) = (num_neg n, show_digits (num_int n) ++ l)) as Hsign.
  { intros l. destruct (num_neg n); [done|]. cbn [app]. pose proof Hn as (Hi & _). destruct (num_int n) as [|d ds] eqn:E; [by destruct Hi as [?|(_ & ? & ? & ? & _)]|].
    apply int_ok_digits in Hi.
    change (show_digits (d :: ds) ++ l) with (48 + d :: show_digits ds ++ l). apply Forall_cons_1 in Hi as [Hd _].
    by rewrite (proj2 (Z.eqb_neq (48 + d) 45)) by lia. }
  rewrite Hsign. clear Hsign.
  destruct (parse_int_part _) as [[[m1 tz1] val1]|]; cbn [mbind option_bind] in *;
    [|exfalso; destruct Hp as [Hp|Hp]; [apply (too_long_unrepresentable _ decimals a) in Hp; [lia|done]|lia]].
  destruct (parse_fraction val1 m1 tz1) as [[[[m tz] ofs] val2]|]; cbn [mbind option_bind] in *;
    [|exfalso; destruct Hp as [Hp|Hp]; [apply (too_long_unrepresentable _ decimals a) in Hp; [lia|done]|lia]].
  destruct (parse_exponent val2) as [[e val3]|]; cbn [mbind option_bind] in *;
    [|exfalso; destruct Hp as [Hp|Hp]; [apply (too_long_unrepresentable _ decimals a) in Hp; [lia|done]|lia]].
  destruct Hp as (Hm & Esig & Esc & ->). replace (e - Z.of_nat ofs + Z.of_nat tz + decimals) with (scale n + decimals + Z.of_nat tz) by lia.
  unfold represents in Hrep. set (k := scale n + decimals) in *. set (sm := if num_neg n then - m else m).
  assert ((if num_neg n then - significand n else significand n) = sm * 10 ^ Z.of_nat tz) as Es by (subst sm; destruct (num_neg n); lia).
  rewrite Es in Hrep. destruct (scale_complete sm tz k a) as [Hk Ea]; [| |done|done|].
  { subst sm. unfold mantissa_ok in *. destruct (num_neg n); rewrite ?Z.abs_opp, Z.abs_eq by lia; done. }
  { intros E. assert (m = 0) by (subst sm; destruct (num_neg n); lia). subst m. lia. }
  rewrite (proj2 (Z.ltb_ge _ _)) by lia. rewrite Z.geb_leb, (proj2 (Z.leb_gt _ _)) by lia.
  pose proof (scale_signed_spec (Z.to_nat (k + Z.of_nat tz)) sm) as Hs. rewrite Z2Nat.id in Hs by lia.
  destruct (scale_signed _ sm) as [y|]; cbn [mbind option_bind].
  - subst y. rewrite <- Ea. rewrite Z.gtb_ltb, (proj2 (Z.ltb_ge _ _)), (proj2 (Z.ltb_ge _ _)) by lia. done.
  - exfalso. rewrite Ea, Z.abs_mul, (Z.abs_eq (10 ^ _)) in Ha by (apply Z.pow_nonneg; lia). lia.
Qed.

(** ** The integer parsers *)

Lemma take_digits_show ds rest : digits_ok ds → starts_digit rest = false → take_digits (show_digits ds ++ rest) = (ds, rest).
Proof.
  intros Hd Hr. induction Hd as [|d ds Hd _ IH].
  - destruct rest as [|c rest]; [done|]. cbn [starts_digit] in Hr. cbn. by rewrite Hr.
  - change (show_digits (d :: ds) ++ rest) with (48 + d :: show_digits ds ++ rest). cbn [take_digits].
    assert (isdigit (48 + d) = true) as -> by (apply isdigit_spec; lia). rewrite IH. do 2 f_equal. lia.
Qed.

Definition show_sign (sign : option bool) : list Z := match sign with Some true => [45] | Some false => [43] | None => [] end.
Definition signed (sign : option bool) (n : Z) : Z := match sign with Some true => - n | _ => n end.

(** [strtol] on text that does not start with a space. *)
Lemma strtol_text lo hi sign ds rest :
  digits_ok ds → ds ≠ [] → starts_digit rest = false →
  strtol lo hi (show_sign sign ++ show_digits ds ++ rest) =
    let n := signed sign (decimal ds) in
    if n <? lo then (lo, true, rest) else if hi <? n then (hi, true, rest) else (n, false, rest).
Proof.
  intros Hd Hne Hr. destruct ds as [|d ds]; [done|]. assert (0 <= d < 10) as Hd0 by (by apply Forall_cons_1 in Hd as [? _]).
  assert (isspace (48 + d) = false) as Hsp.
  { unfold isspace. rewrite (proj2 (Z.leb_gt (48 + d) 13)), (proj2 (Z.eqb_neq (48 + d) 32)) by lia. by rewrite andb_false_r. }
  unfold strtol. destruct sign as [[|]|]; cbn [show_sign app].
  - cbn [skip_spaces]. change (isspace 45) with false. cbn iota. change (45 =? 45) with true. cbn iota.
    rewrite take_digits_show by done. done.
  - cbn [skip_spaces]. change (isspace 43) with false. cbn iota. change (43 =? 45) with false. change (43 =? 43) with true. cbn iota.
    rewrite take_digits_show by done. done.
  - pose proof (take_digits_show (d :: ds) rest Hd Hr) as Ht.
    change (show_digits (d :: ds) ++ rest) with (48 + d :: show_digits ds ++ rest) in *. cbn [skip_spaces]. rewrite Hsp.
    rewrite (proj2 (Z.eqb_neq (48 + d) 45)), (proj2 (Z.eqb_neq (48 + d) 43)) by lia. rewrite Ht. done.
Qed.

Lemma last_elem (c : Z) l : List.last (c :: l) 0 ∈ c :: l.
Proof.
  revert c. induction l as [|d l IH]; intros c; [apply list_elem_of_here|].
  change (List.last (c :: d :: l) 0) with (List.last (d :: l) 0). by apply list_elem_of_further.
Qed.

Lemma prechecks_digits sign ds : digits_ok ds → ds ≠ [] → ParsePrechecks (show_sign sign ++ show_digits ds) = true.
Proof.
  intros Hd Hne. set (str := show_sign sign ++ show_digits ds).
  assert (Forall (λ c, isspace c = false ∧ c ≠ 0) str) as Hall.
  { apply Forall_app. split; [destruct sign as [[|]|]; repeat constructor; done|]. apply Forall_fmap. eapply list.Forall_impl; [exact Hd|].
    intros d Hd0. cbn in *. split; [|lia]. unfold isspace. rewrite (proj2 (Z.leb_gt (48 + d) 13)), (proj2 (Z.eqb_neq (48 + d) 32)) by lia.
    by rewrite andb_false_r. }
  assert (str ≠ []) as Hs by (subst str; destruct sign as [[|]|], ds; done). destruct str as [|c str'] eqn:E; [done|]. cbn [ParsePrechecks].
  rewrite list.Forall_forall in Hall. rewrite (proj1 (Hall c (list_elem_of_here _ _))).
  rewrite (proj1 (Hall (List.last (c :: str') 0) (last_elem c str'))). cbn [orb negb andb].
  apply forallb_forall. intros x Hx%list_elem_of_In. apply negb_true_iff, Z.eqb_neq. by apply Hall.
Qed.

(** The strict parsers accept exactly a sign and digits whose value is in range,
    and store that value. *)
Theorem ParseInt_exact (lo hi : Z) (str : list Z) (n : Z) :
  - 2 ^ 63 <= lo → hi <= 2 ^ 63 - 1 →
  ParseInt lo hi str = (true, n) ↔
    ∃ sign ds, digits_ok ds ∧ ds ≠ [] ∧ str = show_sign sign ++ show_digits ds ∧ n = signed sign (decimal ds) ∧ lo <= n <= hi.
Proof.
  intros Hlo Hhi. unfold ParseInt. split.
  - destruct (ParsePrechecks str) eqn:Hpre; [|done]. cbn [negb].
    assert (∃ sign ds rest, str = show_sign sign ++ show_digits ds ++ rest ∧ digits_ok ds ∧ starts_digit rest = false ∧
      (ds = [] → (strtol (- 2 ^ 63) (2 ^ 63 - 1) str) = (0, false, str))) as (sign & ds & rest & Es & Hd & Hr & Hnil).
    { destruct str as [|c str]; [done|]. cbn [ParsePrechecks] in Hpre. apply andb_true_iff in Hpre as [Hsp%negb_true_iff _].
      apply orb_false_iff in Hsp as [Hsp _]. unfold strtol. cbn [skip_spaces]. rewrite Hsp.
      destruct (Z.eqb_spec c 45) as [->|Hc]; [|destruct (Z.eqb_spec c 43) as [->|Hc2]].
      - destruct (split_digits str) as (ds & rest & -> & Hd & Hr). exists (Some true), ds, rest. split_and!; [done..|].
        intros ->. by rewrite take_digits_show.
      - destruct (split_digits str) as (ds & rest & -> & Hd & Hr). exists (Some false), ds, rest. split_and!; [done..|].
        intros ->. by rewrite take_digits_show.
      - destruct (split_digits (c :: str)) as (ds & rest & E & Hd & Hr). rewrite E. exists None, ds, rest. split_and!; [done..|].
        intros ->. by rewrite take_digits_show. }
    destruct ds as [|d ds].
    { rewrite Hnil by done. destruct str; [done|]. by rewrite bool_decide_false. }
    rewrite Es, strtol_text by done. cbv zeta. destruct (Z.ltb_spec (signed sign (decimal (d :: ds))) (- 2 ^ 63));
      [by rewrite andb_false_r|]. destruct (Z.ltb_spec (2 ^ 63 - 1) (signed sign (decimal (d :: ds)))); [by rewrite andb_false_r|].
    intros [= E <-]. rewrite !andb_true_iff, bool_decide_eq_true, !Z.leb_le in E. destruct E as [[[-> _] ?] ?].
    exists sign, (d :: ds). rewrite app_nil_r. done.
  - intros (sign & ds & Hd & Hne & -> & -> & Hn). rewrite prechecks_digits by done. cbn [negb].
    pose proof (strtol_text (- 2 ^ 63) (2 ^ 63 - 1) sign ds [] Hd Hne eq_refl) as E. rewrite app_nil_r in E. rewrite E. cbv zeta.
    rewrite (proj2 (Z.ltb_ge _ _)), (proj2 (Z.ltb_ge _ _)) by lia. rewrite bool_decide_true, !(proj2 (Z.leb_le _ _)) by (done || lia). done.
Qed.

(** ** Properties *)

(** [ParseFixedPoint] is exact.  Whatever it returns is less than 10^18 and is
    the value of its input, which is a JSON number, in units of [10^-decimals],
    without rounding; and every JSON number with a nonzero digit whose value in
    those units is an integer below 10^18 is accepted, however many zeros it is
    written with (an exponent of at most eighteen digits). *)
Theorem ParseFixedPoint_exact (decimals : Z) :
  (∀ val a, ParseFixedPoint val decimals = Some a →
     ∃ n, number_ok n ∧ val = show_number n ∧ represents n decimals a ∧ Z.abs a < 10 ^ 18) ∧
  (∀ n a, number_ok n → significand n ≠ 0 → decimal (exp_digits (num_exp n)) < 10 ^ 18 →
     represents n decimals a → Z.abs a < 10 ^ 18 → ParseFixedPoint (show_number n) decimals = Some a).
Proof.
  change (10 ^ 18) with (UPPER_BOUND + 1). split.
  - intros val a (n & ? & ? & ? & ?)%ParseFixedPoint_sound. exists n. split_and!; [done..|lia].
  - intros n a ? ? ? ? ?. apply ParseFixedPoint_complete; (done || lia).
Qed.

(** Base64 and Base32 text decodes to the bytes it encodes and is valid, for
    all byte strings, padding included. *)
Theorem base64_base32_roundtrip (bytes : list Z) :
  bytes_ok bytes → DecodeBase64 (EncodeBase64 bytes) = (bytes, true) ∧ DecodeBase32 (EncodeBase32 bytes) = (bytes, true).
Proof.
  intros Hb. split; apply decode_encode_base; (lia || done || apply base64_table || apply base32_table || reflexivity).
Qed.

Lemma base64_base32_roundtrip_witness :
  DecodeBase64 (EncodeBase64 [0; 255]) = ([0; 255], true) ∧ DecodeBase32 (EncodeBase32 [0; 255]) = ([0; 255], true).
Proof. apply base64_base32_roundtrip. apply (bool_decide_unpack _). vm_compute. exact I. Defined.

Lemma ParseFixedPoint_exact_witness :
  ParseFixedPoint (chars "-1.50e2") 8 = Some (-15000000000) ∧
  ∃ n, number_ok n ∧ chars "-1.50e2" = show_number n ∧ represents n 8 (-15000000000).
Proof.
  destruct (ParseFixedPoint_exact 8) as [Hs Hc].
  assert (ParseFixedPoint (chars "-1.50e2") 8 = Some (-15000000000)) as E.
  { apply (Hc (mk_number true [1] (Some [5; 0]) (Some (101, None, [2])))).
    - split; [|split].
      + right. split; [apply (bool_decide_unpack _); vm_compute; exact I|by exists 1, []].
      + split; [apply (bool_decide_unpack _); vm_compute; exact I|done].
      + split; [by left|split; [apply (bool_decide_unpack _); vm_compute; exact I|done]].
    - done.
    - done.
    - reflexivity.
    - done. }
  split; [exact E|]. destruct (Hs _ _ E) as (n & ? & ? & ? & _). by exists n.
Defined.
