(* ===== verification/MdHash.v ===== *)
(** * Buffered block hashes: what [CRIPEMD160], [CSHA1], [CSHA512] and [SHA256_CPU] share

    Every hash object of the node keeps the chaining state, a buffer of 64 or 128
    bytes and a byte count, and differs in its [Transform], in the byte order of the
    length and of the result, and in how [Write] walks over whole blocks.
    [md_absorbed] says which bytes an object has been given; the lemmas on the
    three parts of a [Write] are shared by all of them.  The [Write] and
    [Finalize] that ripemd160.cpp, sha1.cpp and sha512.cpp have in common are defined here
    once, over a record of what differs. *)

From Stdlib Require Import ZifyNat.
From stdpp Require Import base list numbers.
From S2P Require Import Prelude ArithUint256 Uint256.

Open Scope Z_scope.

(** ** Writing into a buffer *)

Lemma take_splice dst off src :
  (off <= length dst)%nat → take (off + length src) (splice dst off src) = take off dst ++ src.
Proof.
  intros. unfold splice. rewrite app_assoc, take_app_le by (rewrite length_app, length_take_le; lia).
  rewrite take_ge; [done|]. rewrite length_app, length_take_le; lia.
Qed.

Lemma length_splice dst off src :
  (off + length src <= length dst)%nat → length (splice dst off src) = length dst.
Proof. intros. unfold splice. rewrite !length_app, length_drop, length_take_le; lia. Qed.

(** What a hash is made of: the initial state, [Transform] on one
    chunk, [sizedesc] of the bit count and the output of the state words; a chunk is
    64 bytes and the length 8, or 128 and 16. *)
Record md_params := mk_md_params {
  md_init : list Z;
  md_Transform : list Z → list Z → list Z;
  md_sizedesc : Z → list Z;
  md_output : list Z → list Z;
  md_block : nat;
  md_lensize : nat;
}.

(** The two sizes in use. *)
Class MdSizes (p : md_params) : Prop :=
  md_sizes : (md_block p = 64 ∧ md_lensize p = 8)%nat ∨ (md_block p = 128 ∧ md_lensize p = 16)%nat.

Section md.
Context (p : md_params).
Local Abbreviation B := (md_block p).
Local Abbreviation L := (md_lensize p).

(** The chaining state after [blocks] blocks of [msg]. *)
Fixpoint md_blocks (s msg : list Z) (blocks : nat) : list Z :=
  match blocks with
  | O => s
  | S n => md_blocks (md_Transform p s (take B msg)) (drop B msg) n
  end.

(** ** The hash objects: [Write], [Finalize], [Reset] *)

Record md_state := mk_md_state {
  md_s : list Z;      (* uint32_t s[5] or uint64_t s[8] *)
  md_buf : list Z;    (* unsigned char buf[64] or buf[128] *)
  md_bytes : Z;       (* uint64_t bytes *)
}.

(** The constructor leaves [buf] as it is in memory. *)
Definition md_new (buf : list Z) : md_state := mk_md_state (md_init p) buf 0.
Definition md_Reset (st : md_state) : md_state := mk_md_state (md_init p) (md_buf st) 0.

Definition md_fill (st : md_state) (data : list Z) (bufsize : Z) : md_state * list Z * Z :=
  if negb (bufsize =? 0) && (Z.of_nat B <=? bufsize + Z.of_nat (length data)) then
    let n := Z.to_nat (Z.of_nat B - bufsize) in
    let buf := splice (md_buf st) (Z.to_nat bufsize) (take n data) in
    (mk_md_state (md_Transform p (md_s st) (take B buf)) buf (wrap64 (md_bytes st + (Z.of_nat B - bufsize))),
     drop n data, 0)
  else (st, data, bufsize).

(** [while (end - data >= 64)]; every iteration takes a chunk off the input, so
    the length of the input bounds the loop. *)
Fixpoint md_chunks (fuel : nat) (st : md_state) (data : list Z) : md_state * list Z :=
  match fuel with
  | O => (st, data)
  | S n =>
      if Z.of_nat B <=? Z.of_nat (length data) then
        md_chunks n (mk_md_state (md_Transform p (md_s st) (take B data)) (md_buf st) (wrap64 (md_bytes st + Z.of_nat B)))
          (drop B data)
      else (st, data)
  end.

Definition md_Write (st : md_state) (data : list Z) : md_state :=
  let '(st, data, bufsize) := md_fill st data (md_bytes st mod Z.of_nat B) in
  let '(st, data) := md_chunks (length data) st data in
  if 0 <? Z.of_nat (length data) then
    mk_md_state (md_s st) (splice (md_buf st) (Z.to_nat bufsize) data)
      (wrap64 (md_bytes st + Z.of_nat (length data)))
  else st.

Definition md_pad : list Z := 0x80 :: replicate (B - 1) 0.

Definition md_Finalize (st : md_state) : list Z * md_state :=
  let sizedesc := md_sizedesc p (wrap64 (Z.shiftl (md_bytes st) 3)) in
  let st := md_Write st (take (Z.to_nat (1 + (Z.of_nat (2 * B - L - 1) - md_bytes st mod Z.of_nat B) mod Z.of_nat B)) md_pad) in
  let st := md_Write st sizedesc in
  (md_output p (md_s st), st).

(** ** What an object has absorbed *)

(** An object with state [s], buffer [buf] and count [bytes] has been given
    exactly the bytes [msg]. *)
Definition md_absorbed (s buf : list Z) (bytes : Z) (msg : list Z) : Prop :=
  bytes = Z.of_nat (length msg) ∧
  s = md_blocks (md_init p) msg (length msg / B) ∧
  length buf = B ∧
  take (length msg mod B) buf = drop (B * (length msg / B)) msg.

(** The padded message of the common scheme, and the hash of it. *)
Definition md_padded (msg : list Z) : list Z :=
  msg ++ 0x80 :: replicate ((2 * B - L - 1 - length msg mod B) mod B)%nat 0
    ++ md_sizedesc p (8 * Z.of_nat (length msg)).
Definition md_hash (msg : list Z) : list Z :=
  md_output p (md_blocks (md_init p) (md_padded msg) (length (md_padded msg) / B)).

(** Arithmetic with the chunk size known. *)
Local Ltac blia := first [lia | destruct (md_sizes (p := p)) as [[?EB ?EL]|[?EB ?EL]]; rewrite ?EB, ?EL in *; divlia].

Context `{!MdSizes p}.

Lemma md_blocks_add s msg m n :
  md_blocks s msg (m + n) = md_blocks (md_blocks s msg m) (drop (B * m) msg) n.
Proof.
  revert s msg. induction m as [|m IH]; intros s msg; [by rewrite Nat.mul_0_r, drop_0|].
  cbn [md_blocks Nat.add]. rewrite IH. f_equal. rewrite drop_drop. f_equal. blia.
Qed.

Lemma md_blocks_app s msg data n :
  (B * n <= length msg)%nat → md_blocks s (msg ++ data) n = md_blocks s msg n.
Proof.
  revert s msg. induction n as [|n IH]; intros s msg Hn; [done|]. cbn [md_blocks].
  rewrite take_app_le, drop_app_le by blia. apply IH. rewrite length_drop. blia.
Qed.

Lemma md_absorb_fill s buf bytes msg data :
  md_absorbed s buf bytes msg → (length msg mod B + length data = B)%nat →
  Z.of_nat (length (msg ++ data)) < 2 ^ 64 →
  let buf' := splice buf (length msg mod B) data in
  md_absorbed (md_blocks s buf' 1) buf' (wrap64 (bytes + Z.of_nat (length data))) (msg ++ data).
Proof.
  intros (Hb & Hs & Hl & Ht) Hfill Hlen buf'. rewrite length_app in Hlen.
  assert (length buf' = B) as Hbuf by (unfold buf'; rewrite length_splice; blia).
  assert (buf' = drop (B * (length msg / B)) msg ++ data) as Eb.
  { rewrite <- Ht, <- take_splice, Hfill by blia. by rewrite take_ge by (fold buf'; blia). }
  assert ((length msg + length data) / B = length msg / B + 1)%nat as Ediv by blia.
  assert ((length msg + length data) mod B = 0)%nat as Emod by blia.
  unfold md_absorbed. split_and!; rewrite ?length_app, ?Ediv, ?Emod.
  - rewrite Hb, wrap_id; unfold fits; blia.
  - rewrite md_blocks_add, md_blocks_app by blia.
    rewrite drop_app_le by blia. by rewrite <- Eb, Hs.
  - done.
  - symmetry. apply drop_ge. rewrite length_app. blia.
Qed.

Lemma md_absorb_blocks s buf bytes msg data n :
  md_absorbed s buf bytes msg → (length msg mod B = 0)%nat → (B * n <= length data)%nat →
  Z.of_nat (length (msg ++ data)) < 2 ^ 64 →
  md_absorbed (md_blocks s data n) buf (wrap64 (bytes + Z.of_nat B * Z.of_nat n)) (msg ++ take (B * n) data).
Proof.
  intros (Hb & Hs & Hl & Ht) Hmod Hn Hlen. rewrite length_app in Hlen.
  assert (length (msg ++ take (B * n) data) = length msg + B * n)%nat as EL
    by (rewrite length_app, length_take_le; blia).
  assert ((length msg + B * n) / B = length msg / B + n)%nat as Ediv by blia.
  assert ((length msg + B * n) mod B = 0)%nat as Emod by blia.
  unfold md_absorbed. split_and!; rewrite ?EL, ?Ediv, ?Emod.
  - rewrite Hb, wrap_id; unfold fits; blia.
  - rewrite md_blocks_add, md_blocks_app, <- Hs by blia.
    rewrite drop_app_le, drop_ge, app_nil_l by blia.
    rewrite <- (take_drop (B * n) data) at 1. by rewrite md_blocks_app by (rewrite length_take_le; blia).
  - done.
  - symmetry. apply drop_ge. rewrite EL. blia.
Qed.

Lemma md_absorb_tail s buf bytes msg data :
  md_absorbed s buf bytes msg → (length msg mod B + length data < B)%nat →
  Z.of_nat (length (msg ++ data)) < 2 ^ 64 →
  md_absorbed s (splice buf (length msg mod B) data) (wrap64 (bytes + Z.of_nat (length data))) (msg ++ data).
Proof.
  intros (Hb & Hs & Hl & Ht) Hn Hlen. rewrite length_app in Hlen.
  assert ((length msg + length data) / B = length msg / B)%nat as Ediv by blia.
  assert ((length msg + length data) mod B = length msg mod B + length data)%nat as Emod by blia.
  unfold md_absorbed. split_and!; rewrite ?length_app, ?Ediv, ?Emod.
  - rewrite Hb, wrap_id; unfold fits; blia.
  - rewrite md_blocks_app by blia. done.
  - rewrite length_splice; blia.
  - rewrite take_splice, Ht, drop_app_le by blia. done.
Qed.

(** The three parts of [Write] together: after the fill either the buffer is
    empty or the rest of the input fits into it. *)
Definition md_fits (msg data : list Z) : Prop :=
  (length msg mod B = 0 ∨ length msg mod B + length data < B)%nat.

Abbreviation md_absorbed_st st := (md_absorbed (md_s st) (md_buf st) (md_bytes st)).

Lemma md_fill_absorbed st msg data :
  md_absorbed_st st msg → Z.of_nat (length (msg ++ data)) < 2 ^ 64 →
  ∃ st1 msg1 data1,
    md_fill st data (md_bytes st mod Z.of_nat B) = (st1, data1, Z.of_nat (length msg1 mod B)) ∧
    md_absorbed_st st1 msg1 ∧ msg1 ++ data1 = msg ++ data ∧ md_fits msg1 data1.
Proof.
  intros Habs Hlen. pose proof Habs as (Hb & _).
  replace (md_bytes st mod Z.of_nat B) with (Z.of_nat (length msg mod B)) by (rewrite Hb; blia).
  unfold md_fill. destruct (negb _ && _) eqn:Ec.
  - apply andb_prop in Ec as [_ Ec%Z.leb_le]. set (n := Z.to_nat (Z.of_nat B - Z.of_nat (length msg mod B))).
    assert (length (take n data) = n) as En by (rewrite length_take_le; unfold n; blia).
    assert (length (msg ++ take n data) mod B = 0)%nat as E0
      by (rewrite length_app, En; unfold n; blia).
    pose proof (md_absorb_fill _ _ _ msg (take n data) Habs) as Hfill. rewrite En in Hfill.
    rewrite length_app in *. rewrite En in *.
    specialize (Hfill ltac:(unfold n; blia) ltac:(unfold n; blia)).
    eexists _, (msg ++ take n data), (drop n data). rewrite length_app, En, E0, Nat2Z.id.
    split; [reflexivity|]. split_and!.
    + replace (Z.of_nat B - Z.of_nat (length msg mod B)) with (Z.of_nat n) by (unfold n; blia). exact Hfill.
    + by rewrite <- app_assoc, take_drop.
    + left. by rewrite length_app, En.
  - exists st, msg, data. split_and!; [done..|]. unfold md_fits.
    apply andb_false_iff in Ec as [Ec%negb_false_iff%Z.eqb_eq|Ec%Z.leb_gt]; blia.
Qed.

Lemma md_chunks_absorbed fuel st msg data :
  md_absorbed_st st msg → Z.of_nat (length (msg ++ data)) < 2 ^ 64 →
  md_fits msg data → (length data <= fuel)%nat →
  ∃ st1 msg1 data1,
    md_chunks fuel st data = (st1, data1) ∧ md_absorbed_st st1 msg1 ∧ msg1 ++ data1 = msg ++ data ∧
    (length msg1 mod B = length msg mod B ∧ length msg mod B + length data1 < B)%nat.
Proof.
  revert st msg data. induction fuel as [|fuel IH]; intros st msg data Habs Hlen Hfit Hfuel.
  - exists st, msg, data. destruct data; [|simpl in Hfuel; blia]. cbn [md_chunks length]. split_and!; [done..|].
    blia.
  - cbn [md_chunks]. destruct (Z.leb_spec (Z.of_nat B) (Z.of_nat (length data))) as [Hge|Hlt].
    + unfold md_fits in Hfit. assert (length msg mod B = 0)%nat as E0 by blia.
      pose proof (md_absorb_blocks _ _ _ msg data 1 Habs E0 ltac:(blia) Hlen) as H1. rewrite Z.mul_1_r, Nat.mul_1_r in H1.
      assert (length (msg ++ take B data) mod B = 0)%nat as E1
        by (rewrite length_app, length_take_le by blia; blia).
      edestruct (IH (mk_md_state (md_Transform p (md_s st) (take B data)) (md_buf st) (wrap64 (md_bytes st + Z.of_nat B)))
        (msg ++ take B data) (drop B data)) as (st1 & msg1 & data1 & E & Habs1 & Eapp & Hm);
        [exact H1|by rewrite <- app_assoc, take_drop|by left|rewrite length_drop; blia|].
      exists st1, msg1, data1. rewrite <- app_assoc, take_drop in Eapp. split_and!; [done..| |]; blia.
    + exists st, msg, data. split_and!; [done..|]. unfold md_fits in Hfit. blia.
Qed.

Lemma md_Write_absorbed st msg data :
  md_absorbed_st st msg → Z.of_nat (length (msg ++ data)) < 2 ^ 64 →
  md_absorbed_st (md_Write st data) (msg ++ data).
Proof.
  intros Habs Hlen. unfold md_Write.
  destruct (md_fill_absorbed st msg data) as (st1 & msg1 & data1 & -> & Habs1 & E1 & Hc); [done..|].
  rewrite <- E1 in *.
  destruct (md_chunks_absorbed (length data1) st1 msg1 data1) as (st2 & msg2 & data2 & -> & Habs2 & E2 & Hm & Hlt);
    [done..|].
  rewrite <- E2 in *. destruct (Z.ltb_spec 0 (Z.of_nat (length data2))) as [Hp|Hz].
  - rewrite <- Hm in *. rewrite Nat2Z.id. by apply md_absorb_tail.
  - destruct data2; [by rewrite app_nil_r|simpl in Hz; blia].
Qed.

Lemma md_absorbed_new buf : length buf = B → md_absorbed (md_init p) buf 0 [].
Proof. intros. unfold md_absorbed. cbn [length]. rewrite Nat.Div0.div_0_l, Nat.Div0.mod_0_l, Nat.mul_0_r. by split_and!. Qed.

(** [Finalize] hashes the padded message, whatever the pieces were. *)
Lemma md_Finalize_absorbed st msg :
  (∀ n, length (md_sizedesc p n) = L) →
  md_absorbed_st st msg → Z.of_nat (length msg) < 2 ^ 61 →
  (md_Finalize st).1 = md_hash msg.
Proof.
  intros H8 Habs Hlen. pose proof Habs as (Hb & _). unfold md_Finalize.
  set (k := ((2 * B - L - 1 - length msg mod B) mod B)%nat).
  assert (take (Z.to_nat (1 + (Z.of_nat (2 * B - L - 1) - md_bytes st mod Z.of_nat B) mod Z.of_nat B)) md_pad = 0x80 :: replicate k 0) as ->.
  { assert (length msg mod B <= 2 * B - L - 1)%nat by blia.
    replace (Z.to_nat _) with (S k) by (rewrite Hb, <- Nat2Z.inj_mod, <- Nat2Z.inj_sub, <- Nat2Z.inj_mod by done; fold k; lia).
    unfold md_pad.
    cbn [take firstn]. rewrite take_replicate. do 2 f_equal. unfold k. blia. }
  assert (wrap64 (Z.shiftl (md_bytes st) 3) = 8 * Z.of_nat (length msg)) as ->.
  { rewrite Hb, Z.shiftl_mul_pow2, wrap_id by (unfold fits; blia). blia. }
  assert (length (0x80 :: replicate k 0) = S k) as Ek by (cbn; by rewrite length_replicate).
  assert (k < B)%nat by (unfold k; blia).
  apply md_Write_absorbed with (data := 0x80 :: replicate k 0) in Habs; [|rewrite length_app, Ek; blia].
  apply md_Write_absorbed with (data := md_sizedesc p (8 * Z.of_nat (length msg))) in Habs;
    [|rewrite !length_app, Ek, H8; blia].
  rewrite <- app_assoc, <- app_comm_cons in Habs. fold k in Habs.
  change (msg ++ _) with (md_padded msg) in Habs.
  unfold md_hash. by destruct Habs as (_ & <- & _).
Qed.

Lemma md_Write_all_absorbed pieces st msg :
  md_absorbed_st st msg → Z.of_nat (length (msg ++ concat pieces)) < 2 ^ 64 →
  md_absorbed_st (foldl md_Write st pieces) (msg ++ concat pieces).
Proof.
  revert st msg. induction pieces as [|b ps IH]; intros st msg Habs Hlen; cbn [foldl concat] in *.
  - by rewrite app_nil_r.
  - rewrite app_assoc in *. apply IH; [|done]. apply md_Write_absorbed; [done|].
    rewrite length_app in Hlen. blia.
Qed.

(** However the message is cut into writes. *)
Lemma md_streaming buf pieces :
  (∀ n, length (md_sizedesc p n) = L) →
  length buf = B → Z.of_nat (length (concat pieces)) < 2 ^ 61 →
  (md_Finalize (foldl md_Write (md_new buf) pieces)).1 = md_hash (concat pieces).
Proof.
  intros H8 Hbuf Hlen. apply md_Finalize_absorbed; [done| |done].
  apply (md_Write_all_absorbed pieces (md_new buf) []); [by apply md_absorbed_new|].
  rewrite app_nil_l. blia.
Qed.
End md.

(** Two hashes agree when their compression functions do on the states that occur. *)
Lemma md_hash_ext p q msg (ok : list Z → Prop) :
  md_init p = md_init q → md_sizedesc p (8 * Z.of_nat (length msg)) = md_sizedesc q (8 * Z.of_nat (length msg)) → md_output p = md_output q →
  md_block p = md_block q → md_lensize p = md_lensize q →
  ok (md_init p) → (∀ s b, ok s → ok (md_Transform p s b) ∧ md_Transform p s b = md_Transform q s b) →
  md_hash p msg = md_hash q msg.
Proof.
  intros Ei Es Eo Eb El Hok HT. unfold md_hash. assert (md_padded p msg = md_padded q msg) as ->
    by (unfold md_padded; by rewrite Es, Eb, El).
  rewrite Eo, Eb, <- Ei. f_equal. generalize (length (md_padded q msg) / md_block q)%nat as n.
  generalize (md_padded q msg) as l. intros l n. revert Hok l. generalize (md_init p) as s.
  induction n as [|n IH]; intros s Hok l; [done|].
  cbn [md_blocks]. rewrite <- Eb. destruct (HT s (take (md_block p) l) Hok) as [Hok' <-]. by apply IH.
Qed.
