(* ===== verification/Streams.v ===== *)
(** * Byte streams: [streams.h]

    [CVectorWriter] overwrites and extends a vector, [CDataStream] is a vector with a
    read position that also serves as a queue, [CAutoFile] wraps a file handle and
    [CBufferedFile] reads a file through a ring buffer that keeps some bytes for
    rewinding.  The writer is proved to put what it is given at its position, the data
    stream to be a queue of bytes under any sequence of calls whose sizes stay below
    2^32, and the ring buffer to deliver the bytes of the file at the reader's
    position under any sequence of reads, repositionings, limits and searches.  Three
    statements show where the code departs from its comments: the read position of a
    data stream wraps round, a small rewind of a buffered file can fail, and a rewind
    after [Seek] gives bytes of elsewhere. *)

From Stdlib Require Import ZifyNat.
From stdpp Require Import base list numbers decidable option.
From S2P Require Import Prelude ArithUint256 Uint256 MdHash.

Open Scope Z_scope.

(** ** Results *)

(** The texts of the exceptions. *)
Inductive failure := EndOfData | NegativeIgnore | NullHandle | EndOfFile | ReadFailed | WriteFailed | PastLimit | LargerThanBuffer.

(** A call returns, throws, or leaves what the language defines (it fails an assertion,
    touches memory outside of a vector or divides by zero); a loop that uses up its fuel is
    [Unfinished]. *)
Inductive outcome (S A : Type) := Returns (a : A) (s : S) | Throws (f : failure) (s : S) | Undefined | Unfinished.
Arguments Returns {S A} a s.
Arguments Throws {S A} f s.
Arguments Undefined {S A}.
Arguments Unfinished {S A}.

(** [resize(n)]: cut off, or filled up with zeros. *)
Definition resize (n : nat) (v : list Z) : list Z := take n v ++ replicate (n - length v) 0.

(** ** [class OverrideStream] *)

(** A stream with another type and version; bytes go to the stream itself. *)
Record OverrideStream (S : Type) := mk_OverrideStream { stream : S; os_nType : Z; os_nVersion : Z }.
Arguments mk_OverrideStream {S} stream os_nType os_nVersion.
Arguments stream {S} o : rename.

Definition WithOrVersion {S} (s : S) (nType nVersion nVersionFlag : Z) : OverrideStream S :=
  mk_OverrideStream s nType (Z.lor nVersion nVersionFlag).

(** ** [class CVectorWriter] *)

Record CVectorWriter := mk_CVectorWriter { vw_data : list Z; vw_nPos : nat }.

Definition CVectorWriter_new (vchData : list Z) (nPos : nat) : CVectorWriter :=
  mk_CVectorWriter (if (length vchData <? nPos)%nat then resize nPos vchData else vchData) nPos.

Definition CVectorWriter_write (w : CVectorWriter) (pch : list Z) : outcome CVectorWriter unit :=
  if (length (vw_data w) <? vw_nPos w)%nat then Undefined else
  let nOverwrite := Nat.min (length pch) (length (vw_data w) - vw_nPos w) in
  let v := if (nOverwrite =? 0)%nat then vw_data w else splice (vw_data w) (vw_nPos w) (take nOverwrite pch) in
  let v := if (nOverwrite <? length pch)%nat then v ++ drop nOverwrite pch else v in
  Returns tt (mk_CVectorWriter v (vw_nPos w + length pch)).

Definition CVectorWriter_seek (w : CVectorWriter) (nSize : nat) : CVectorWriter :=
  let nPos := (vw_nPos w + nSize)%nat in
  mk_CVectorWriter (if (length (vw_data w) <? nPos)%nat then resize nPos (vw_data w) else vw_data w) nPos.

(** [::SerializeMany] on the writer, with the bytes of the arguments. *)
Fixpoint CVectorWriter_many (w : CVectorWriter) (args : list (list Z)) : outcome CVectorWriter unit :=
  match args with
  | [] => Returns tt w
  | a :: args => match CVectorWriter_write w a with Returns _ w => CVectorWriter_many w args | r => r end
  end.

(** ** [class CDataStream] *)

Record CDataStream := mk_CDataStream { vch : list Z; nReadPos : Z; ds_nType : Z; ds_nVersion : Z }.

Definition set_stream (s : CDataStream) (v : list Z) (pos : Z) : CDataStream :=
  mk_CDataStream v pos (ds_nType s) (ds_nVersion s).

(** The constructors; [bytes] is what the vector starts with. *)
Definition CDataStream_new (bytes : list Z) (nType nVersion : Z) : CDataStream := mk_CDataStream bytes 0 nType nVersion.

(** [size()], and the bytes between [begin()] and [end()]. *)
Definition ds_size (s : CDataStream) : Z := Z.of_nat (length (vch s)) - nReadPos s.
Definition ds_bytes (s : CDataStream) : list Z := drop (Z.to_nat (nReadPos s)) (vch s).

Definition ds_append (s b : CDataStream) : CDataStream := set_stream s (vch s ++ ds_bytes b) (nReadPos s).
Definition ds_resize (s : CDataStream) (n : nat) : CDataStream :=
  set_stream s (resize (n + Z.to_nat (nReadPos s)) (vch s)) (nReadPos s).
Definition ds_clear (s : CDataStream) : CDataStream := set_stream s [] 0.

(** [insert(it, first, last)]; [it] as an index into [vch]. *)
Definition ds_insert (s : CDataStream) (it : Z) (bytes : list Z) : CDataStream :=
  let n := Z.of_nat (length bytes) in
  if n =? 0 then s
  else if (it =? nReadPos s) && (wrap32 n <=? nReadPos s) then
    let pos := wrap32 (nReadPos s - n) in
    set_stream s (splice (vch s) (Z.to_nat pos) bytes) pos
  else set_stream s (take (Z.to_nat it) (vch s) ++ bytes ++ drop (Z.to_nat it) (vch s)) (nReadPos s).

(** [erase(it)] and [erase(first, last)]. *)
Definition ds_erase (s : CDataStream) (it : Z) : CDataStream :=
  if it =? nReadPos s then
    let pos := wrap32 (nReadPos s + 1) in
    if Z.of_nat (length (vch s)) <=? pos then ds_clear s else set_stream s (vch s) pos
  else set_stream s (delete (Z.to_nat it) (vch s)) (nReadPos s).

Definition ds_erase_range (s : CDataStream) (first last : Z) : CDataStream :=
  if first =? nReadPos s then
    if last =? Z.of_nat (length (vch s)) then ds_clear s else set_stream s (vch s) (wrap32 last)
  else set_stream s (take (Z.to_nat first) (vch s) ++ drop (Z.to_nat last) (vch s)) (nReadPos s).

Definition Compact (s : CDataStream) : CDataStream := set_stream s (ds_bytes s) 0.

Definition Rewind (s : CDataStream) (n : Z) : bool * CDataStream :=
  if nReadPos s <? n then (false, s) else (true, set_stream s (vch s) (nReadPos s - n)).

(** [nReadPosNext] is an [unsigned int]; [memcpy] takes [nSize] bytes all the same. *)
Definition ds_read (s : CDataStream) (nSize : Z) : outcome CDataStream (list Z) :=
  if nSize =? 0 then Returns [] s else
  let next := wrap32 (nReadPos s + nSize) in
  let size := Z.of_nat (length (vch s)) in
  if size <? next then Throws EndOfData s
  else if size <? nReadPos s + nSize then Undefined
  else
    let out := take (Z.to_nat nSize) (ds_bytes s) in
    if next =? size then Returns out (ds_clear s) else Returns out (set_stream s (vch s) next).

Definition ds_ignore (s : CDataStream) (nSize : Z) : outcome CDataStream unit :=
  if nSize <? 0 then Throws NegativeIgnore s else
  let next := wrap32 (nReadPos s + nSize) in
  let size := Z.of_nat (length (vch s)) in
  if size <=? next then
    if size <? next then Throws EndOfData s else Returns tt (ds_clear s)
  else Returns tt (set_stream s (vch s) next).

Definition ds_write (s : CDataStream) (bytes : list Z) : CDataStream := set_stream s (vch s ++ bytes) (nReadPos s).

(** [Serialize] writes the whole vector. *)
Definition ds_Serialize (s : CDataStream) : list Z := vch s.

(** [GetAndClear(d)]: the bytes added to [d]. *)
Definition GetAndClear (s : CDataStream) : list Z * CDataStream := (ds_bytes s, ds_clear s).

(** [Xor]: [n] rounds of the loop are left, at index [i] of the vector and [j] of the
    key. *)
Fixpoint xor_loop (n i j : nat) (key v : list Z) : list Z :=
  match n with
  | O => v
  | S n =>
      let v := <[i := Z.lxor (default 0 (v !! i)) (default 0 (key !! j))]> v in
      xor_loop n (S i) (if (S j =? length key)%nat then 0 else S j)%nat key v
  end.
Definition ds_Xor (s : CDataStream) (key : list Z) : CDataStream :=
  if (length key =? 0)%nat then s
  else set_stream s (xor_loop (Z.to_nat (ds_size s)) 0 0 key (vch s)) (nReadPos s).

(** ** Files *)

(** An open [FILE]: its bytes, the position, the end-of-file indicator, and the
    offset from which on reading fails, if there is one. *)
Record FILE := mk_FILE { fbytes : list Z; fpos : Z; feof : bool; broken : option Z }.

(** Up to where the bytes can be read. *)
Definition readable (f : FILE) : Z :=
  match broken f with Some b => Z.min b (Z.of_nat (length (fbytes f))) | None => Z.of_nat (length (fbytes f)) end.

(** [fread(p, 1, n, f)] stores as many bytes as there are, up to [n]. *)
Definition fread (n : Z) (f : FILE) : list Z * FILE :=
  let k := Z.max 0 (Z.min n (readable f - fpos f)) in
  (take (Z.to_nat k) (drop (Z.to_nat (fpos f)) (fbytes f)),
   mk_FILE (fbytes f) (fpos f + k) (feof f || ((k <? n) && negb (bool_decide (is_Some (broken f))))) (broken f)).

(** [fseek(f, n, SEEK_SET)] refuses negative offsets. *)
Definition fseek (n : Z) (f : FILE) : option FILE :=
  if n <? 0 then None else Some (mk_FILE (fbytes f) n false (broken f)).

(** [fwrite(p, 1, n, f)]: how many bytes the device takes is up to it. *)
Definition fwrite (room : nat) (bytes : list Z) (f : FILE) : nat * FILE :=
  let k := Nat.min room (length bytes) in
  (k, mk_FILE (splice (resize (Nat.max (length (fbytes f)) (Z.to_nat (fpos f) + k)) (fbytes f)) (Z.to_nat (fpos f)) (take k bytes))
        (fpos f + Z.of_nat k) (feof f) (broken f)).

Definition read_failure (f : FILE) : failure := if feof f then EndOfFile else ReadFailed.

(** ** [class CAutoFile] *)

(** The handle; [None] for a null pointer.  The second component of [fclose] says
    whether the file was closed. *)
Definition CAutoFile : Type := option FILE.

Definition CAutoFile_fclose (a : CAutoFile) : CAutoFile * bool := match a with Some _ => (None, true) | None => (None, false) end.
Definition CAutoFile_release (a : CAutoFile) : option FILE * CAutoFile := (a, None).
Definition CAutoFile_IsNull (a : CAutoFile) : bool := match a with None => true | Some _ => false end.

Definition CAutoFile_read (a : CAutoFile) (nSize : Z) : outcome CAutoFile (list Z) :=
  match a with
  | None => Throws NullHandle a
  | Some f =>
      let '(out, f) := fread nSize f in
      if Z.of_nat (length out) =? nSize then Returns out (Some f) else Throws (read_failure f) (Some f)
  end.

(** The loop over pieces of 4096 bytes. *)
Fixpoint ignore_loop (fuel : nat) (nSize : Z) (f : FILE) : outcome CAutoFile unit :=
  match fuel with
  | O => Unfinished
  | S fuel =>
      if 0 <? nSize then
        let nNow := Z.min nSize 4096 in
        let '(data, f) := fread nNow f in
        if Z.of_nat (length data) =? nNow then ignore_loop fuel (nSize - nNow) f else Throws (read_failure f) (Some f)
      else Returns tt (Some f)
  end.
Definition CAutoFile_ignore (a : CAutoFile) (nSize : Z) : outcome CAutoFile unit :=
  match a with None => Throws NullHandle a | Some f => ignore_loop (S (Z.to_nat nSize)) nSize f end.

Definition CAutoFile_write (room : nat) (a : CAutoFile) (bytes : list Z) : outcome CAutoFile unit :=
  match a with
  | None => Throws NullHandle a
  | Some f =>
      let '(k, f) := fwrite room bytes f in
      if (k =? length bytes)%nat then Returns tt (Some f) else Throws WriteFailed (Some f)
  end.

(** ** [class CBufferedFile] *)

Record CBufferedFile := mk_CBufferedFile {
  src : FILE;
  nSrcPos : Z;
  bf_nReadPos : Z;
  nReadLimit : Z;
  nRewind : Z;
  vchBuf : list Z;
}.

Definition CBufferedFile_new (fileIn : FILE) (nBufSize nRewindIn : Z) : CBufferedFile :=
  mk_CBufferedFile fileIn 0 0 (2 ^ 64 - 1) nRewindIn (replicate (Z.to_nat nBufSize) 0).

Definition buf_size (b : CBufferedFile) : Z := Z.of_nat (length (vchBuf b)).
Definition set_read (b : CBufferedFile) (pos : Z) : CBufferedFile :=
  mk_CBufferedFile (src b) (nSrcPos b) pos (nReadLimit b) (nRewind b) (vchBuf b).

(** [Fill()]; its locals are [unsigned int]s. *)
Definition Fill (b : CBufferedFile) : outcome CBufferedFile bool :=
  if buf_size b =? 0 then Undefined else
  let pos := wrap32 (nSrcPos b mod buf_size b) in
  let readNow := wrap32 (buf_size b - pos) in
  let nAvail := wrap32 (buf_size b - (nSrcPos b - bf_nReadPos b) - nRewind b) in
  let readNow := if nAvail <? readNow then nAvail else readNow in
  if readNow =? 0 then Returns false b else
  let '(data, f) := fread readNow (src b) in
  let nBytes := Z.of_nat (length data) in
  let b' := mk_CBufferedFile f (wrap64 (nSrcPos b + nBytes)) (bf_nReadPos b) (nReadLimit b) (nRewind b)
              (splice (vchBuf b) (Z.to_nat pos) data) in
  if nBytes =? 0 then Throws (read_failure f) b' else Returns true b'.

(** [if (nReadPos == nSrcPos) Fill();]. *)
Definition fill_if_empty (b : CBufferedFile) : outcome CBufferedFile bool :=
  if bf_nReadPos b =? nSrcPos b then Fill b else Returns true b.

(** [while (nSize > 0)]; [out] was read so far. *)
Fixpoint bf_read_loop (fuel : nat) (nSize : Z) (out : list Z) (b : CBufferedFile) : outcome CBufferedFile (list Z) :=
  match fuel with
  | O => Unfinished
  | S fuel =>
      if 0 <? nSize then
        match fill_if_empty b with
        | Returns _ b =>
            if buf_size b =? 0 then Undefined else
            let pos := wrap32 (bf_nReadPos b mod buf_size b) in
            let nNow := nSize in
            let nNow := if buf_size b <? add64 nNow pos then wrap64 (buf_size b - pos) else nNow in
            let nNow := if nSrcPos b <? add64 nNow (bf_nReadPos b) then wrap64 (nSrcPos b - bf_nReadPos b) else nNow in
            if buf_size b <? pos + nNow then Undefined else
            let piece := take (Z.to_nat nNow) (drop (Z.to_nat pos) (vchBuf b)) in
            bf_read_loop fuel (nSize - nNow) (out ++ piece) (set_read b (add64 (bf_nReadPos b) nNow))
        | Throws f b => Throws f b
        | Undefined => Undefined
        | Unfinished => Unfinished
        end
      else Returns out b
  end.

Definition bf_read (b : CBufferedFile) (nSize : Z) : outcome CBufferedFile (list Z) :=
  if nReadLimit b <? add64 nSize (bf_nReadPos b) then Throws PastLimit b
  else if buf_size b <? add64 nSize (nRewind b) then Throws LargerThanBuffer b
  else bf_read_loop (S (Z.to_nat nSize)) nSize [] b.

Definition GetPos (b : CBufferedFile) : Z := bf_nReadPos b.

Definition SetPos (b : CBufferedFile) (nPos : Z) : bool * CBufferedFile :=
  if add64 nPos (nRewind b) <? nSrcPos b then (false, set_read b (wrap64 (nSrcPos b - nRewind b)))
  else if nSrcPos b <? nPos then (false, set_read b (nSrcPos b))
  else (true, set_read b nPos).

Definition bf_Seek (b : CBufferedFile) (nPos : Z) : bool * CBufferedFile :=
  let nLongPos := swrap64 nPos in
  if negb (nPos =? wrap64 nLongPos) then (false, b) else
  match fseek nLongPos (src b) with
  | None => (false, b)
  | Some f => (true, mk_CBufferedFile f (fpos f) (fpos f) (nReadLimit b) (nRewind b) (vchBuf b))
  end.

Definition SetLimit (b : CBufferedFile) (nPos : Z) : bool * CBufferedFile :=
  if nPos <? bf_nReadPos b then (false, b)
  else (true, mk_CBufferedFile (src b) (nSrcPos b) (bf_nReadPos b) nPos (nRewind b) (vchBuf b)).

Definition bf_eof (b : CBufferedFile) : bool := (bf_nReadPos b =? nSrcPos b) && feof (src b).

(** [while (true)], for at most [fuel] rounds. *)
Fixpoint FindByte (fuel : nat) (ch : Z) (b : CBufferedFile) : outcome CBufferedFile unit :=
  match fuel with
  | O => Unfinished
  | S fuel =>
      match fill_if_empty b with
      | Returns _ b =>
          match vchBuf b !! Z.to_nat (bf_nReadPos b mod buf_size b) with
          | None => Undefined
          | Some c => if c =? ch then Returns tt b else FindByte fuel ch (set_read b (add64 (bf_nReadPos b) 1))
          end
      | Throws f b => Throws f b
      | Undefined => Undefined
      | Unfinished => Unfinished
      end
  end.

(** ** Vectors written in place *)

Lemma resize_length n v : length (resize n v) = n.
Proof. unfold resize. rewrite length_app, length_take, length_replicate. lia. Qed.

Lemma splice_twice (v a b : list Z) p : (p <= length v)%nat → splice (splice v p a) (p + length a) b = splice v p (a ++ b).
Proof.
  intros Hp. unfold splice at 1. rewrite take_splice by done. unfold splice. rewrite <- !app_assoc. do 3 f_equal.
  rewrite !drop_app, !drop_drop, length_take, length_app.
  rewrite (drop_ge (take p v)) by (rewrite length_take; lia). rewrite (drop_ge a) by lia. cbn [app]. f_equal. lia.
Qed.

Lemma CVectorWriter_write_spec v p a : (p <= length v)%nat →
  CVectorWriter_write (mk_CVectorWriter v p) a = Returns tt (mk_CVectorWriter (splice v p a) (p + length a)) ∧
  (p + length a <= length (splice v p a))%nat.
Proof.
  intros Hp. unfold CVectorWriter_write. cbn [vw_data vw_nPos]. destruct (Nat.ltb_spec (length v) p); [lia|]. split.
  - do 2 f_equal. set (k := Nat.min (length a) (length v - p)).
    assert ((if (k =? 0)%nat then v else splice v p (take k a)) = splice v p (take k a)) as ->.
    { destruct (Nat.eqb_spec k 0) as [->|]; [|done]. change (take 0 a) with (@nil Z). unfold splice. cbn [length app].
      by rewrite Nat.add_0_r, take_drop. }
    destruct (Nat.ltb_spec k (length a)).
    + unfold splice. rewrite length_take_le by lia. rewrite (drop_ge v (p + k)), (drop_ge v) by lia.
      rewrite !app_nil_r, <- app_assoc. by rewrite take_drop.
    + by rewrite take_ge.
  - unfold splice. rewrite !length_app, length_take, length_drop. lia.
Qed.

Lemma CVectorWriter_many_spec args v p : (p <= length v)%nat →
  CVectorWriter_many (mk_CVectorWriter v p) args =
    Returns tt (mk_CVectorWriter (splice v p (concat args)) (p + length (concat args))).
Proof.
  revert v p. induction args as [|a args IH]; intros v p Hp; cbn [CVectorWriter_many concat].
  { unfold splice. cbn [app length]. by rewrite Nat.add_0_r, take_drop. }
  destruct (CVectorWriter_write_spec v p a Hp) as [-> Hl]. rewrite IH by done.
  by rewrite splice_twice, length_app, Nat.add_assoc by done.
Qed.

(** ** Data streams as queues *)

(** Calls of a data stream; positions are relative to [begin()].  [Append] stands for
    [+=] with a stream whose unread bytes are given, [Drain] for [GetAndClear]. *)
Inductive ds_op :=
  | DWrite (bytes : list Z) | DRead (n : Z) | DIgnore (n : Z) | DInsert (i : nat) (bytes : list Z) | DErase (i : nat)
  | DEraseRange (i j : nat) | DCompact | DResize (n : nat) | DClear | DAppend (other : CDataStream) | DDrain.

Definition ds_step (o : ds_op) (s : CDataStream) : outcome CDataStream (list Z) :=
  let at_ (i : nat) := nReadPos s + Z.of_nat i in
  match o with
  | DWrite bytes => Returns [] (ds_write s bytes)
  | DRead n => ds_read s n
  | DIgnore n => match ds_ignore s n with Returns _ s => Returns [] s | Throws f s => Throws f s | Undefined => Undefined | Unfinished => Unfinished end
  | DInsert i bytes => Returns [] (ds_insert s (at_ i) bytes)
  | DErase i => Returns [] (ds_erase s (at_ i))
  | DEraseRange i j => Returns [] (ds_erase_range s (at_ i) (at_ j))
  | DCompact => Returns [] (Compact s)
  | DResize n => Returns [] (ds_resize s n)
  | DClear => Returns [] (ds_clear s)
  | DAppend other => Returns [] (ds_append s other)
  | DDrain => let '(out, s) := GetAndClear s in Returns out s
  end.

(** What the calls mean for a sequence of bytes. *)
Definition queue_step (o : ds_op) (q : list Z) : (failure + list Z) * list Z :=
  match o with
  | DWrite bytes => (inr [], q ++ bytes)
  | DRead n => if Z.of_nat (length q) <? n then (inl EndOfData, q) else (inr (take (Z.to_nat n) q), drop (Z.to_nat n) q)
  | DIgnore n =>
      if n <? 0 then (inl NegativeIgnore, q)
      else if Z.of_nat (length q) <? n then (inl EndOfData, q) else (inr [], drop (Z.to_nat n) q)
  | DInsert i bytes => (inr [], take i q ++ bytes ++ drop i q)
  | DErase i => (inr [], delete i q)
  | DEraseRange i j => (inr [], take i q ++ drop j q)
  | DCompact => (inr [], q)
  | DResize n => (inr [], resize n q)
  | DClear => (inr [], [])
  | DAppend other => (inr [], q ++ ds_bytes other)
  | DDrain => (inr q, [])
  end.

(** Iterators point into the sequence. *)
Definition op_valid (o : ds_op) (q : list Z) : Prop :=
  match o with
  | DRead n => 0 <= n
  | DInsert i _ => (i <= length q)%nat
  | DErase i => (i < length q)%nat
  | DEraseRange i j => (i <= j <= length q)%nat
  | _ => True
  end.

Definition ds_op_size (o : ds_op) : Z :=
  match o with
  | DWrite bytes | DInsert _ bytes => Z.of_nat (length bytes)
  | DRead n | DIgnore n => Z.max 0 n
  | DResize n => Z.of_nat n
  | DAppend other => Z.of_nat (length (ds_bytes other))
  | _ => 0
  end.

Definition stream_ok (s : CDataStream) : Prop := 0 <= nReadPos s <= Z.of_nat (length (vch s)).

(** A call that agrees with the queue and makes the vector at most [n] longer. *)
Definition agrees (s : CDataStream) (n : Z) (r : outcome CDataStream (list Z)) (e : (failure + list Z) * list Z) : Prop :=
  ∃ s', r = (match e.1 with inl f => Throws f s' | inr out => Returns out s' end) ∧ ds_bytes s' = e.2 ∧ stream_ok s' ∧
    Z.of_nat (length (vch s')) <= Z.of_nat (length (vch s)) + n.

Lemma ds_bytes_length s : stream_ok s → Z.of_nat (length (ds_bytes s)) = ds_size s.
Proof. unfold stream_ok, ds_bytes, ds_size. rewrite length_drop. lia. Qed.

Lemma ds_clear_agrees s n out : 0 <= n → agrees s n (Returns out (ds_clear s)) (inr out, []).
Proof. intros. exists (ds_clear s). cbn. split_and!; [done|done|by unfold stream_ok; cbn|lia]. Qed.

(** Moving the read position forward, as [read], [ignore] and [erase] do it. *)
Lemma advance_agrees s n k out : stream_ok s → 0 <= n → 0 <= k → k < ds_size s →
  agrees s n (Returns out (set_stream s (vch s) (nReadPos s + k))) (inr out, drop (Z.to_nat k) (ds_bytes s)).
Proof.
  intros Hs Hn Hk Hlt. unfold stream_ok, ds_size in *. eexists. split; [reflexivity|]. cbn [fst snd].
  unfold ds_bytes, set_stream. cbn [vch nReadPos]. rewrite drop_drop. split_and!; [f_equal; lia| |lia].
  unfold stream_ok. cbn [vch nReadPos]. lia.
Qed.

Lemma ds_read_agrees s n : stream_ok s → 0 <= n → Z.of_nat (length (vch s)) + n < 2 ^ 32 →
  agrees s n (ds_read s n) (queue_step (DRead n) (ds_bytes s)).
Proof.
  intros Hs Hn Hlen. pose proof (ds_bytes_length s Hs) as El. cbn [queue_step]. rewrite El. unfold ds_read.
  destruct (Z.eqb_spec n 0) as [->|Hn0].
  { destruct (Z.ltb_spec (ds_size s) 0); [unfold stream_ok, ds_size in *; lia|]. exists s. cbn. split_and!; [done..|lia]. }
  rewrite wrap_id by (unfold fits, stream_ok in *; lia). unfold ds_size.
  destruct (Z.ltb_spec (Z.of_nat (length (vch s))) (nReadPos s + n)); destruct (Z.ltb_spec (Z.of_nat (length (vch s)) - nReadPos s) n); [|lia|lia|].
  - exists s. split_and!; [done..|lia].
  - destruct (Z.eqb_spec (nReadPos s + n) (Z.of_nat (length (vch s)))).
    + rewrite drop_ge by (unfold ds_size in El; lia). by apply ds_clear_agrees.
    + apply advance_agrees; unfold ds_size; lia || done.
Qed.

Lemma ds_ignore_agrees s n : stream_ok s → Z.of_nat (length (vch s)) + Z.max 0 n < 2 ^ 32 →
  agrees s (Z.max 0 n) (ds_step (DIgnore n) s) (queue_step (DIgnore n) (ds_bytes s)).
Proof.
  intros Hs Hlen. pose proof (ds_bytes_length s Hs) as El. cbn [queue_step ds_step]. rewrite El. unfold ds_ignore.
  destruct (Z.ltb_spec n 0); [exists s; split_and!; [done..|lia]|].
  rewrite wrap_id by (unfold fits, stream_ok in *; lia). unfold ds_size.
  destruct (Z.leb_spec (Z.of_nat (length (vch s))) (nReadPos s + n)).
  - destruct (Z.ltb_spec (Z.of_nat (length (vch s))) (nReadPos s + n)); destruct (Z.ltb_spec (Z.of_nat (length (vch s)) - nReadPos s) n); [|lia|lia|].
    + exists s. split_and!; [done..|lia].
    + rewrite drop_ge by (unfold ds_size in El; lia). apply ds_clear_agrees. lia.
  - destruct (Z.ltb_spec (Z.of_nat (length (vch s)) - nReadPos s) n); [lia|].
    apply (advance_agrees s _ n []); unfold ds_size; lia || done.
Qed.

(** A change of the vector behind the read position. *)
Lemma behind_agrees s n v q : stream_ok s → take (Z.to_nat (nReadPos s)) v = take (Z.to_nat (nReadPos s)) (vch s) →
  drop (Z.to_nat (nReadPos s)) v = q → Z.of_nat (length v) <= Z.of_nat (length (vch s)) + n →
  agrees s n (Returns [] (set_stream s v (nReadPos s))) (inr [], q).
Proof.
  intros Hs Ht Hq Hl. eexists. split; [reflexivity|]. cbn [fst snd]. unfold ds_bytes, set_stream, stream_ok in *. cbn [vch nReadPos].
  split_and!; [done| | |done]; [lia|]. apply (f_equal length) in Ht. rewrite !length_take in Ht. lia.
Qed.

Lemma ds_insert_agrees s i bytes : stream_ok s → (i <= length (ds_bytes s))%nat →
  Z.of_nat (length (vch s)) + Z.of_nat (length bytes) < 2 ^ 32 →
  agrees s (Z.of_nat (length bytes)) (ds_step (DInsert i bytes) s) (queue_step (DInsert i bytes) (ds_bytes s)).
Proof.
  intros Hs Hi Hlen. pose proof (ds_bytes_length s Hs) as El. unfold ds_size in El. cbn [ds_step queue_step]. unfold ds_insert.
  pose proof Hs as [Hp0 Hp1]. destruct (Z.eqb_spec (Z.of_nat (length bytes)) 0) as [E0|E0].
  { destruct bytes; [|done]. exists s. cbn [app fst snd]. rewrite take_drop. split_and!; [done..|cbn; lia]. }
  rewrite wrap_id by (unfold fits; lia). destruct ((nReadPos s + Z.of_nat i =? nReadPos s) && (Z.of_nat (length bytes) <=? nReadPos s)) eqn:Ec.
  - apply andb_true_iff in Ec as [E1%Z.eqb_eq E2%Z.leb_le]. assert (i = 0%nat) as -> by lia.
    rewrite wrap_id by (unfold fits; lia). change (take 0 (ds_bytes s)) with (@nil Z). rewrite drop_0. cbn [app].
    eexists. split; [reflexivity|]. cbn [fst snd]. unfold ds_bytes, set_stream, stream_ok. cbn [vch nReadPos].
    rewrite length_splice by lia. split_and!; [|lia|lia|lia]. unfold splice.
    rewrite drop_app_length' by (rewrite length_take; lia). do 2 f_equal. lia.
  - apply behind_agrees; [done| | |rewrite !length_app, length_take, length_drop; lia].
    + rewrite take_app_le by (rewrite length_take; lia). rewrite take_take. f_equal. lia.
    + rewrite drop_app_le by (rewrite length_take; lia). unfold ds_bytes. rewrite drop_drop, skipn_firstn_comm.
      f_equal; [f_equal; lia|]. do 2 f_equal. lia.
Qed.

Lemma ds_erase_agrees s i : stream_ok s → (i < length (ds_bytes s))%nat → Z.of_nat (length (vch s)) < 2 ^ 32 →
  agrees s 0 (ds_step (DErase i) s) (queue_step (DErase i) (ds_bytes s)).
Proof.
  intros Hs Hi Hlen. pose proof (ds_bytes_length s Hs) as El. unfold ds_size in El. cbn [ds_step queue_step]. unfold ds_erase.
  pose proof Hs as [Hp0 Hp1]. destruct (Z.eqb_spec (nReadPos s + Z.of_nat i) (nReadPos s)).
  - assert (i = 0%nat) as -> by lia. rewrite wrap_id by (unfold fits; lia).
    destruct (Z.leb_spec (Z.of_nat (length (vch s))) (nReadPos s + 1)).
    + assert (delete 0%nat (ds_bytes s) = []) as -> by (destruct (ds_bytes s) as [|? [|]]; cbn in *; [done|done|lia]). by apply ds_clear_agrees.
    + assert (delete 0%nat (ds_bytes s) = drop (Z.to_nat 1) (ds_bytes s)) as -> by (by destruct (ds_bytes s)).
      apply (advance_agrees s 0 1 []); unfold ds_size; lia || done.
  - apply behind_agrees; [done| | |].
    + rewrite delete_take_drop, take_app_le by (rewrite length_take; lia). rewrite take_take. f_equal. lia.
    + rewrite !delete_take_drop. rewrite drop_app_le by (rewrite length_take; lia). unfold ds_bytes. rewrite drop_drop, skipn_firstn_comm.
      f_equal; f_equal; lia.
    + rewrite delete_take_drop, length_app, length_take, length_drop. lia.
Qed.

Lemma ds_erase_range_agrees s i j : stream_ok s → (i <= j <= length (ds_bytes s))%nat → Z.of_nat (length (vch s)) < 2 ^ 32 →
  agrees s 0 (ds_step (DEraseRange i j) s) (queue_step (DEraseRange i j) (ds_bytes s)).
Proof.
  intros Hs Hi Hlen. pose proof (ds_bytes_length s Hs) as El. unfold ds_size in El. cbn [ds_step queue_step]. unfold ds_erase_range.
  pose proof Hs as [Hp0 Hp1]. destruct (Z.eqb_spec (nReadPos s + Z.of_nat i) (nReadPos s)).
  - assert (i = 0%nat) as -> by lia. change (take 0 (ds_bytes s)) with (@nil Z). cbn [app].
    destruct (Z.eqb_spec (nReadPos s + Z.of_nat j) (Z.of_nat (length (vch s)))).
    + rewrite drop_ge by lia. by apply ds_clear_agrees.
    + rewrite wrap_id by (unfold fits; lia). rewrite <- (Nat2Z.id j) at 2. apply (advance_agrees s 0 (Z.of_nat j) []); unfold ds_size; lia || done.
  - apply behind_agrees; [done| | |rewrite length_app, length_take, length_drop; lia].
    + rewrite take_app_le by (rewrite length_take; lia). rewrite take_take. f_equal. lia.
    + rewrite drop_app_le by (rewrite length_take; lia). unfold ds_bytes. rewrite drop_drop, skipn_firstn_comm. f_equal; f_equal; lia.
Qed.

Lemma ds_step_agrees o s : stream_ok s → op_valid o (ds_bytes s) → Z.of_nat (length (vch s)) + ds_op_size o < 2 ^ 32 →
  agrees s (ds_op_size o) (ds_step o s) (queue_step o (ds_bytes s)).
Proof.
  intros Hs Hv Hlen. pose proof Hs as [Hp0 Hp1]. destruct o; cbn [op_valid ds_op_size] in *.
  - apply behind_agrees; [done|by rewrite take_app_le by lia|by rewrite drop_app_le by lia|rewrite length_app; lia].
  - rewrite Z.max_r in * by done. by apply ds_read_agrees.
  - by apply ds_ignore_agrees.
  - by apply ds_insert_agrees.
  - apply ds_erase_agrees; [done|done|lia].
  - apply ds_erase_range_agrees; [done|done|lia].
  - eexists. split; [reflexivity|]. cbn [fst snd]. unfold Compact, ds_bytes, set_stream, stream_ok. cbn [vch nReadPos].
    rewrite drop_0, length_drop. split_and!; [done|lia..].
  - assert (ds_bytes (ds_resize s n) = resize n (ds_bytes s)) as E.
    { unfold ds_resize, set_stream, ds_bytes, resize. cbn [vch nReadPos]. rewrite length_drop, drop_app, skipn_firstn_comm, length_take.
      f_equal; [f_equal; lia|]. rewrite drop_replicate. f_equal. lia. }
    eexists. split; [reflexivity|]. cbn [fst snd]. rewrite E. unfold ds_resize, set_stream, stream_ok. cbn [vch nReadPos].
    rewrite resize_length. split_and!; [done|lia..].
  - by apply ds_clear_agrees.
  - apply behind_agrees; [done|by rewrite take_app_le by lia|by rewrite drop_app_le by lia|rewrite length_app; lia].
  - by apply ds_clear_agrees.
Qed.

(** A sequence of calls; the caller goes on after an exception. *)
Fixpoint ds_run (os : list ds_op) (s : CDataStream) : option (list (failure + list Z) * CDataStream) :=
  match os with
  | [] => Some ([], s)
  | o :: os =>
      match ds_step o s with
      | Returns out s => '(outs, s) ← ds_run os s; Some (inr out :: outs, s)
      | Throws f s => '(outs, s) ← ds_run os s; Some (inl f :: outs, s)
      | _ => None
      end
  end.

Fixpoint queue_run (os : list ds_op) (q : list Z) : list (failure + list Z) * list Z :=
  match os with
  | [] => ([], q)
  | o :: os => let '(out, q) := queue_step o q in let '(outs, q) := queue_run os q in (out :: outs, q)
  end.

(** Every call is valid when it is made. *)
Fixpoint ops_valid (os : list ds_op) (q : list Z) : Prop :=
  match os with [] => True | o :: os => op_valid o q ∧ ops_valid os (queue_step o q).2 end.

Definition total_size (os : list ds_op) : Z := foldr (λ o n, ds_op_size o + n) 0 os.

Lemma total_size_nonneg os : 0 <= total_size os.
Proof. induction os as [|o os IH]; [done|]. change (0 <= ds_op_size o + total_size os). destruct o; cbn [ds_op_size]; lia. Qed.

Lemma op_size_nonneg o : 0 <= ds_op_size o.
Proof. destruct o; cbn [ds_op_size]; lia. Qed.

Lemma ds_run_agrees os s : stream_ok s → ops_valid os (ds_bytes s) → Z.of_nat (length (vch s)) + total_size os < 2 ^ 32 →
  ∃ s', ds_run os s = Some ((queue_run os (ds_bytes s)).1, s') ∧ ds_bytes s' = (queue_run os (ds_bytes s)).2.
Proof.
  revert s. induction os as [|o os IH]; intros s Hs Hv Hlen; [by exists s|]. destruct Hv as [Ho Hos].
  change (total_size (o :: os)) with (ds_op_size o + total_size os) in Hlen. pose proof (total_size_nonneg os). pose proof (op_size_nonneg o).
  destruct (ds_step_agrees o s Hs Ho ltac:(lia)) as (s1 & E & Eb & Hs1 & Hl). cbn [ds_run queue_run].
  destruct (queue_step o (ds_bytes s)) as [out q]. cbn [fst snd] in *. subst q.
  destruct (IH s1 Hs1 Hos ltac:(lia)) as (s2 & E2 & Eb2). exists s2.
  destruct (queue_run os (ds_bytes s1)) as [outs q]. cbn [fst snd] in *. subst q. rewrite E. by destruct out; rewrite E2.
Qed.

(** ** Properties of writers and data streams *)

(** C19: a data stream is a queue of bytes: under every sequence of writes, reads,
    skips, insertions, erasures, compactions, resizings and concatenations whose
    iterators are valid and whose sizes add up to less than 2^32, its unread bytes and
    everything it returns or throws are those of a plain sequence of bytes, wherever
    the read position stands and whenever the vector is cut back. *)
Theorem CDataStream_is_a_queue (bytes : list Z) (nType nVersion : Z) (os : list ds_op) :
  ops_valid os bytes → Z.of_nat (length bytes) + total_size os < 2 ^ 32 →
  ∃ s, ds_run os (CDataStream_new bytes nType nVersion) = Some ((queue_run os bytes).1, s) ∧ ds_bytes s = (queue_run os bytes).2.
Proof.
  intros Hv Hlen. apply (ds_run_agrees os (CDataStream_new bytes nType nVersion)); [|done..].
  unfold stream_ok, CDataStream_new. cbn. lia.
Qed.

Lemma CDataStream_is_a_queue_witness :
  let os := [DRead 2; DWrite [5; 6]; DInsert 0 [9]; DRead 7; DErase 1; DIgnore 2; DRead 2; DRead 1] in
  ∃ s, ds_run os (CDataStream_new [1; 2; 3; 4] 0 70015) =
    Some ([inr [1; 2]; inr []; inr []; inl EndOfData; inr []; inr []; inr [5; 6]; inl EndOfData], s) ∧ ds_bytes s = [].
Proof.
  intros os. destruct (CDataStream_is_a_queue [1; 2; 3; 4] 0 70015 os) as (s & E & Eb).
  - repeat (split; [first [exact I|vm_compute; lia|vm_compute; discriminate]|]); exact I.
  - vm_compute. reflexivity.
  - exists s. split; [exact E|exact Eb].
Defined.

(** Bytes that were read can be given back unless they were the last. *)
Theorem Rewind_undoes_read (s : CDataStream) (n : Z) :
  stream_ok s → Z.of_nat (length (vch s)) < 2 ^ 32 → 0 < n < ds_size s →
  ∃ s', ds_read s n = Returns (take (Z.to_nat n) (ds_bytes s)) s' ∧ Rewind s' n = (true, s).
Proof.
  intros [H0 H1] Hlen Hn. unfold ds_read, ds_size in *. destruct (Z.eqb_spec n 0); [lia|]. rewrite wrap_id by (unfold fits; lia).
  destruct (Z.ltb_spec (Z.of_nat (length (vch s))) (nReadPos s + n)); [lia|].
  destruct (Z.eqb_spec (nReadPos s + n) (Z.of_nat (length (vch s)))); [lia|]. eexists. split; [reflexivity|].
  unfold Rewind, set_stream. cbn [nReadPos vch ds_nType ds_nVersion]. destruct (Z.ltb_spec (nReadPos s + n) n); [lia|].
  rewrite Z.add_simpl_r. by destruct s.
Qed.

(** A read of 2^32 bytes passes the check for the end of the data, whatever the stream
    holds, and then copies bytes from behind the vector. *)
Theorem read_position_wraps (bytes : list Z) (nType nVersion : Z) :
  Z.of_nat (length bytes) < 2 ^ 32 → ds_read (CDataStream_new bytes nType nVersion) (2 ^ 32) = Undefined.
Proof.
  intros Hl. unfold ds_read. cbn [nReadPos vch CDataStream_new]. change (2 ^ 32 =? 0) with false.
  change (wrap32 (0 + 2 ^ 32)) with 0. cbv iota zeta. destruct (Z.ltb_spec (Z.of_nat (length bytes)) 0); [lia|].
  destruct (Z.ltb_spec (Z.of_nat (length bytes)) (0 + 2 ^ 32)); [done|lia].
Qed.

(** [Serialize] and [Xor] start at the front of the vector, not at the read position:
    after one byte was read, the first is written once more and the last one is not
    changed by the key. *)
Theorem Serialize_and_Xor_ignore_read_position :
  ∃ s, ds_read (CDataStream_new [1; 2; 3] 0 0) 1 = Returns [1] s ∧ ds_bytes s = [2; 3] ∧
    ds_Serialize s = [1; 2; 3] ∧ ds_bytes (ds_Xor s [0xff]) = [0xfd; 3].
Proof. eexists. split; [reflexivity|]. split_and!; reflexivity. Qed.

(** a vector writer that starts at any position of a vector, also behind its end,
    puts the bytes it is given one after the other at that position: the vector is
    filled up with zeros to the position, what was there before is overwritten, what
    lies behind stays, and the vector grows if the bytes do not fit. *)
Theorem CVectorWriter_overwrites (v : list Z) (nPos : nat) (args : list (list Z)) :
  let bytes := concat args in
  let before := take nPos v ++ replicate (nPos - length v) 0 in
  CVectorWriter_many (CVectorWriter_new v nPos) args =
    Returns tt (mk_CVectorWriter (before ++ bytes ++ drop (nPos + length bytes) v) (nPos + length bytes)).
Proof.
  intros bytes before. unfold CVectorWriter_new. destruct (Nat.ltb_spec (length v) nPos).
  - rewrite CVectorWriter_many_spec by (by rewrite resize_length). fold bytes. do 2 f_equal. unfold splice.
    rewrite take_ge by (by rewrite resize_length). rewrite !drop_ge by (rewrite ?resize_length; lia). done.
  - rewrite CVectorWriter_many_spec by lia. fold bytes. do 2 f_equal. unfold splice, before.
    replace (nPos - length v)%nat with 0%nat by lia. cbn [replicate]. by rewrite app_nil_r.
Qed.

(** ** The ring buffer *)

(** [n] bytes from position [p]. *)
Definition file_slice (F : list Z) (p n : Z) : list Z := take (Z.to_nat n) (drop (Z.to_nat p) F).

(** The last [buf_size] bytes read from the file are in the buffer, each at its
    position modulo the size. *)
Record buffered (b : CBufferedFile) : Prop := {
  bfo_size : 0 < buf_size b < 2 ^ 32;
  bfo_rewind : 0 <= nRewind b < buf_size b;
  bfo_file : fpos (src b) = nSrcPos b;
  bfo_end : nSrcPos b <= readable (src b) < 2 ^ 62;
  bfo_pos : 0 <= bf_nReadPos b <= nSrcPos b;
  bfo_near : nSrcPos b - buf_size b <= bf_nReadPos b;
  bfo_limit : u64_ok (nReadLimit b);
  bfo_ring p : 0 <= p → nSrcPos b - buf_size b <= p < nSrcPos b →
    vchBuf b !! Z.to_nat (p mod buf_size b) = fbytes (src b) !! Z.to_nat p;
}.

(** The same file, sizes and limit. *)
Definition same_file (b b' : CBufferedFile) : Prop :=
  fbytes (src b') = fbytes (src b) ∧ readable (src b') = readable (src b) ∧ nReadLimit b' = nReadLimit b ∧
  nRewind b' = nRewind b ∧ buf_size b' = buf_size b.

Lemma same_file_refl b : same_file b b.
Proof. by split_and!. Qed.
Lemma same_file_trans b1 b2 b3 : same_file b1 b2 → same_file b2 b3 → same_file b1 b3.
Proof. unfold same_file. intros (? & ? & ? & ? & ?) (? & ? & ? & ? & ?). split_and!; congruence. Qed.

Lemma readable_le f : readable f <= Z.of_nat (length (fbytes f)).
Proof. unfold readable. destruct (broken f); lia. Qed.

(** Going on by less than a round. *)
Lemma mod_step s d B : 0 < B → 0 <= d < B → (s + d) mod B = (if s mod B + d <? B then s mod B + d else s mod B + d - B).
Proof.
  intros HB Hd. pose proof (Z.mod_pos_bound s B HB). rewrite Zplus_mod, (Z.mod_small d) by lia.
  destruct (Z.ltb_spec (s mod B + d) B); [apply Z.mod_small; lia|].
  rewrite <- (Z.mod_add _ (-1)) by lia. apply Z.mod_small. lia.
Qed.

Lemma lookup_splice (v a : list Z) p i : (p + length a <= length v)%nat →
  splice v p a !! i = if decide (p <= i < p + length a)%nat then a !! (i - p)%nat else v !! i.
Proof.
  intros Hl. unfold splice. case_decide as Hi.
  - rewrite lookup_app_r by (rewrite length_take; lia). rewrite length_take_le by lia. by rewrite lookup_app_l by lia.
  - destruct (Nat.lt_ge_cases i p).
    + by rewrite lookup_app_l, lookup_take_lt by (rewrite ?length_take; lia).
    + rewrite lookup_app_r by (rewrite length_take; lia). rewrite length_take_le by lia. rewrite lookup_app_r by lia.
      rewrite lookup_drop. f_equal. lia.
Qed.

Lemma fread_spec n f : 0 <= n → 0 <= fpos f <= readable f →
  let k := Z.min n (readable f - fpos f) in
  ∃ f', fread n f = (file_slice (fbytes f) (fpos f) k, f') ∧ Z.of_nat (length (file_slice (fbytes f) (fpos f) k)) = k ∧
    fbytes f' = fbytes f ∧ fpos f' = fpos f + k ∧ readable f' = readable f.
Proof.
  intros Hn Hp k. pose proof (readable_le f). unfold fread. rewrite Z.max_r by lia. fold k. eexists. split; [reflexivity|].
  split_and!; [|done..]. unfold file_slice. rewrite length_take, length_drop. lia.
Qed.

(** Storing [k] bytes at the end of what was read keeps the ring. *)
Lemma ring_fill B (buf F : list Z) s k p :
  Z.of_nat (length buf) = B → 0 < B → 0 <= s → 0 <= k → s mod B + k <= B → s + k <= Z.of_nat (length F) →
  (∀ q, 0 <= q → s - B <= q < s → buf !! Z.to_nat (q mod B) = F !! Z.to_nat q) →
  0 <= p → s + k - B <= p < s + k →
  splice buf (Z.to_nat (s mod B)) (file_slice F s k) !! Z.to_nat (p mod B) = F !! Z.to_nat p.
Proof.
  intros HB HB0 Hs Hk Hfit Hend Hring Hp0 Hp. pose proof (Z.mod_pos_bound s B HB0) as Hm. pose proof (Z.mod_pos_bound p B HB0) as Hmp.
  assert (Z.of_nat (length (file_slice F s k)) = k) as Hlen by (unfold file_slice; rewrite length_take, length_drop; lia).
  rewrite lookup_splice by lia. destruct (Z.lt_ge_cases p s) as [Hlt|Hge].
  - rewrite decide_False; [apply Hring; lia|].
    pose proof (mod_step s (p + B - s) B HB0 ltac:(lia)) as E. replace (s + (p + B - s)) with (p + 1 * B) in E by lia.
    rewrite Z.mod_add in E by lia. destruct (Z.ltb_spec (s mod B + (p + B - s)) B); lia.
  - destruct (Z.eq_dec k 0) as [->|]; [lia|]. pose proof (mod_step s (p - s) B HB0 ltac:(lia)) as E.
    replace (s + (p - s)) with p in E by lia. destruct (Z.ltb_spec (s mod B + (p - s)) B); [|lia].
    rewrite decide_True by lia. unfold file_slice. rewrite lookup_take_lt by lia. rewrite lookup_drop. f_equal. lia.
Qed.

(** [Fill] when everything read from the file was read from the buffer. *)
Lemma Fill_spec b : buffered b → bf_nReadPos b = nSrcPos b →
  ∃ b', buffered b' ∧ same_file b b' ∧ bf_nReadPos b' = bf_nReadPos b ∧
    if nSrcPos b <? readable (src b) then Fill b = Returns true b' ∧ nSrcPos b < nSrcPos b'
    else nSrcPos b' = nSrcPos b ∧ Fill b = Throws (read_failure (src b')) b'.
Proof.
  intros [Hsz Hrw Hf He Hp Hn Hl Hr] Heq. unfold Fill. destruct (Z.eqb_spec (buf_size b) 0) as [|_]; [lia|].
  pose proof (Z.mod_pos_bound (nSrcPos b) (buf_size b) ltac:(lia)) as Hm. rewrite (wrap_id 32 (nSrcPos b mod buf_size b)) by (unfold fits; lia).
  rewrite Heq, Z.sub_diag, Z.sub_0_r. rewrite (wrap_id 32 (buf_size b - nRewind b)) by (unfold fits; lia).
  rewrite (wrap_id 32 (buf_size b - nSrcPos b mod buf_size b)) by (unfold fits; lia).
  set (n := if _ <? _ then _ else _). assert (0 < n /\ n <= buf_size b - nSrcPos b mod buf_size b /\ n <= buf_size b - nRewind b) as Hnow.
  { unfold n. destruct (Z.ltb_spec (buf_size b - nRewind b) (buf_size b - nSrcPos b mod buf_size b)); lia. }
  clearbody n. destruct (Z.eqb_spec n 0); [lia|].
  destruct (fread_spec n (src b) ltac:(lia) ltac:(lia)) as (f' & Ef & Hlen & Hfb & Hfp & Hfr). rewrite Ef. rewrite Hf in *.
  set (k := Z.min n (readable (src b) - nSrcPos b)) in *. rewrite Hlen, wrap_id by (unfold fits; lia).
  pose proof (readable_le (src b)). exists (mk_CBufferedFile f' (nSrcPos b + k) (nSrcPos b) (nReadLimit b) (nRewind b)
    (splice (vchBuf b) (Z.to_nat (nSrcPos b mod buf_size b)) (file_slice (fbytes (src b)) (nSrcPos b) k))).
  split; [|split; [|split; [done|]]].
  - split; cbn [src nSrcPos bf_nReadPos nReadLimit nRewind vchBuf buf_size];
      unfold buf_size in *; cbn [vchBuf]; rewrite ?length_splice by lia; rewrite ?Hfb, ?Hfr; try lia; try done.
    intros p Hp0 Hpr. apply ring_fill; (done || lia).
  - unfold same_file, buf_size in *. cbn [src nReadLimit nRewind vchBuf]. rewrite length_splice by lia. by split_and!.
  - destruct (Z.ltb_spec (nSrcPos b) (readable (src b))); destruct (Z.eqb_spec k 0); try lia.
    + split; [done|]. cbn [nSrcPos]. lia.
    + cbn [nSrcPos src]. split; [lia|done].
Qed.

(** A byte to read, or the end of the file. *)
Lemma fill_if_empty_spec b : buffered b →
  ∃ b', buffered b' ∧ same_file b b' ∧ bf_nReadPos b' = bf_nReadPos b ∧ nSrcPos b <= nSrcPos b' ∧
    (bf_nReadPos b < nSrcPos b → nSrcPos b' = nSrcPos b) ∧
    if bf_nReadPos b <? readable (src b) then fill_if_empty b = Returns true b' ∧ bf_nReadPos b < nSrcPos b'
    else fill_if_empty b = Throws (read_failure (src b')) b' ∧ nSrcPos b' = nSrcPos b.
Proof.
  intros Hb. unfold fill_if_empty. pose proof (bfo_pos b Hb). pose proof (bfo_end b Hb). destruct (Z.eqb_spec (bf_nReadPos b) (nSrcPos b)) as [E|E].
  - destruct (Fill_spec b Hb E) as (b' & Hb' & Hs & Hr & Hcase). exists b'. rewrite E in *.
    destruct (Z.ltb_spec (nSrcPos b) (readable (src b))); destruct Hcase; split_and!; (done || lia).
  - exists b. destruct (Z.ltb_spec (bf_nReadPos b) (readable (src b))); [|lia]. split_and!; (done || lia || apply same_file_refl).
Qed.

(** Moving the read position within what was read from the file. *)
Lemma set_read_buffered b p : buffered b → nSrcPos b - buf_size b <= p <= nSrcPos b → 0 <= p → buffered (set_read b p).
Proof.
  intros [] ? ?. split; try change (buf_size (set_read b p)) with (buf_size b);
    cbn [set_read src nSrcPos bf_nReadPos nReadLimit nRewind vchBuf]; (assumption || lia).
Qed.

(** A piece of the buffer that does not go round the end is a piece of the file. *)
Lemma ring_piece b p n : buffered b → 0 <= p → nSrcPos b - buf_size b <= p → 0 <= n → p + n <= nSrcPos b → p mod buf_size b + n <= buf_size b →
  file_slice (vchBuf b) (p mod buf_size b) n = file_slice (fbytes (src b)) p n.
Proof.
  intros Hb Hp Hnear Hn Hsrc Hfit. pose proof (bfo_size b Hb) as [HB _]. pose proof (Z.mod_pos_bound p (buf_size b) HB) as Hm.
  unfold file_slice. apply list_eq. intros i. destruct (decide (i < Z.to_nat n)%nat) as [Hi|Hi].
  - rewrite !lookup_take_lt, !lookup_drop by lia. pose proof (bfo_ring b Hb (p + Z.of_nat i) ltac:(lia) ltac:(lia)) as E.
    rewrite mod_step in E by lia. destruct (Z.ltb_spec (p mod buf_size b + Z.of_nat i) (buf_size b)); [|lia].
    replace (Z.to_nat (p mod buf_size b) + i)%nat with (Z.to_nat (p mod buf_size b + Z.of_nat i)) by lia.
    rewrite E. f_equal. lia.
  - by rewrite !lookup_take_ge by lia.
Qed.

Lemma slice_app F p m n : 0 <= p → 0 <= m → 0 <= n → file_slice F p m ++ file_slice F (p + m) n = file_slice F p (m + n).
Proof.
  intros. unfold file_slice. rewrite !Z2Nat.inj_add by lia. rewrite <- drop_drop. apply take_take_drop.
Qed.

Definition read_error (f : failure) : Prop := f = EndOfFile ∨ f = ReadFailed.

Lemma read_loop_spec fuel n out b : buffered b → 0 <= n < 2 ^ 62 → n < Z.of_nat fuel →
  ∃ b', buffered b' ∧ same_file b b' ∧ nSrcPos b <= nSrcPos b' ∧ (bf_nReadPos b + n <= nSrcPos b → nSrcPos b' = nSrcPos b) ∧
    if bf_nReadPos b + n <=? readable (src b) then
      bf_read_loop fuel n out b = Returns (out ++ file_slice (fbytes (src b)) (bf_nReadPos b) n) b' ∧ bf_nReadPos b' = bf_nReadPos b + n
    else ∃ f, read_error f ∧ bf_read_loop fuel n out b = Throws f b' ∧ bf_nReadPos b' = readable (src b) ∧ nSrcPos b' = readable (src b).
Proof.
  revert n out b. induction fuel as [|fuel IH]; intros n out b Hb Hn Hfuel; [lia|]. cbn [bf_read_loop].
  pose proof (bfo_pos b Hb) as Hpos. pose proof (bfo_end b Hb) as Hend. destruct (Z.ltb_spec 0 n) as [Hn0|Hn0].
  2: { assert (n = 0) as -> by lia. exists b. destruct (Z.leb_spec (bf_nReadPos b + 0) (readable (src b))); [|lia].
       split_and!; try (done || lia || apply same_file_refl). unfold file_slice. by rewrite app_nil_r. }
  destruct (fill_if_empty_spec b Hb) as (b1 & Hb1 & Hs1 & Hr1 & Hsrc1 & Hkeep & Hcase).
  destruct (Z.ltb_spec (bf_nReadPos b) (readable (src b))) as [Hmore|Hstop].
  2: { destruct Hcase as [-> Hsame]. exists b1. destruct (Z.leb_spec (bf_nReadPos b + n) (readable (src b))); [lia|].
       split_and!; try (done || lia). exists (read_failure (src b1)). split_and!; try (done || lia).
       unfold read_error, read_failure. destruct (feof (src b1)); auto. }
  destruct Hcase as [-> Hlt]. destruct Hs1 as (Ef1 & Er1 & El1 & Ew1 & Es1). pose proof (bfo_size b1 Hb1) as HB. pose proof (bfo_end b1 Hb1) as Hend1.
  pose proof (bfo_near b1 Hb1) as Hnear1. destruct (Z.eqb_spec (buf_size b1) 0) as [|_]; [lia|].
  pose proof (Z.mod_pos_bound (bf_nReadPos b1) (buf_size b1) ltac:(lia)) as Hm. rewrite (wrap_id 32 (bf_nReadPos b1 mod buf_size b1)) by (unfold fits; lia).
  set (k := Z.min n (Z.min (buf_size b1 - bf_nReadPos b1 mod buf_size b1) (nSrcPos b1 - bf_nReadPos b1))).
  match goal with |- context [if nSrcPos b1 <? add64 ?x _ then _ else _] => assert (x = Z.min n (buf_size b1 - bf_nReadPos b1 mod buf_size b1)) as E1 end.
  { unfold add64. rewrite wrap_id by (unfold fits; lia). destruct (Z.ltb_spec (buf_size b1) (n + bf_nReadPos b1 mod buf_size b1)).
    - rewrite wrap_id by (unfold fits; lia). lia.
    - lia. }
  rewrite E1. clear E1. match goal with |- context [if buf_size b1 <? _ + ?x then _ else _] => assert (x = k) as E2 end.
  { unfold add64. rewrite wrap_id by (unfold fits; lia). destruct (Z.ltb_spec (nSrcPos b1) (Z.min n (buf_size b1 - bf_nReadPos b1 mod buf_size b1) + bf_nReadPos b1)).
    - rewrite wrap_id by (unfold fits; lia). lia.
    - lia. }
  rewrite E2. clear E2. destruct (Z.ltb_spec (buf_size b1) (bf_nReadPos b1 mod buf_size b1 + k)); [lia|].
  change (take (Z.to_nat k) (drop (Z.to_nat (bf_nReadPos b1 mod buf_size b1)) (vchBuf b1))) with (file_slice (vchBuf b1) (bf_nReadPos b1 mod buf_size b1) k).
  rewrite ring_piece by (done || lia). unfold add64. rewrite wrap_id by (unfold fits; lia). rewrite Ef1, Hr1 in *.
  assert (buffered (set_read b1 (bf_nReadPos b + k))) as Hb2 by (apply set_read_buffered; [done|lia..]).
  destruct (IH (n - k) (out ++ file_slice (fbytes (src b)) (bf_nReadPos b) k) _ Hb2 ltac:(lia) ltac:(lia)) as (b' & Hb' & Hs' & Hsrc' & Hkeep' & Hres).
  cbn [set_read bf_nReadPos nSrcPos src] in *. rewrite Ef1, Er1 in *. exists b'.
  replace (bf_nReadPos b + k + (n - k)) with (bf_nReadPos b + n) in * by lia.
  split_and!; [done| |lia| |].
  - eapply same_file_trans; [|exact Hs']. by split_and!.
  - intros Hin. rewrite Hkeep' by lia. apply Hkeep. lia.
  - destruct (Z.leb_spec (bf_nReadPos b + n) (readable (src b))); [|exact Hres]. destruct Hres as [-> Hp']. split; [|done].
    rewrite <- app_assoc, slice_app by lia. do 3 f_equal. lia.
Qed.

Lemma FindByte_spec fuel ch b : buffered b → readable (src b) - bf_nReadPos b < Z.of_nat fuel →
  ∃ b', buffered b' ∧ same_file b b' ∧ nSrcPos b <= nSrcPos b' ∧ (bf_nReadPos b' < nSrcPos b → nSrcPos b' = nSrcPos b) ∧
    bf_nReadPos b <= bf_nReadPos b' ∧
    (∀ p, bf_nReadPos b <= p < bf_nReadPos b' → fbytes (src b) !! Z.to_nat p ≠ Some ch) ∧
    ((FindByte fuel ch b = Returns tt b' ∧ bf_nReadPos b' < readable (src b) ∧ fbytes (src b) !! Z.to_nat (bf_nReadPos b') = Some ch) ∨
     (∃ f, read_error f ∧ FindByte fuel ch b = Throws f b' ∧ bf_nReadPos b' = readable (src b) ∧ nSrcPos b' = readable (src b))).
Proof.
  revert b. induction fuel as [|fuel IH]; intros b Hb Hfuel; [pose proof (bfo_pos b Hb); pose proof (bfo_end b Hb); lia|]. cbn [FindByte].
  pose proof (bfo_pos b Hb) as Hpos. pose proof (bfo_end b Hb) as Hend.
  destruct (fill_if_empty_spec b Hb) as (b1 & Hb1 & Hs1 & Hr1 & Hsrc1 & Hkeep & Hcase).
  destruct (Z.ltb_spec (bf_nReadPos b) (readable (src b))) as [Hmore|Hstop].
  2: { destruct Hcase as [-> Hsame]. exists b1. split_and!; try (done || lia).
       right. exists (read_failure (src b1)). split_and!; try (done || lia). unfold read_error, read_failure. destruct (feof (src b1)); auto. }
  destruct Hcase as [-> Hlt]. pose proof Hs1 as (Ef1 & Er1 & El1 & Ew1 & Es1). pose proof (bfo_end b1 Hb1). pose proof (bfo_near b1 Hb1).
  pose proof (bfo_size b1 Hb1). rewrite (bfo_ring b1 Hb1) by lia. rewrite Ef1, Hr1 in *. pose proof (readable_le (src b)).
  destruct (lookup_lt_is_Some_2 (fbytes (src b)) (Z.to_nat (bf_nReadPos b)) ltac:(lia)) as [c Hc]. rewrite Hc.
  destruct (Z.eqb_spec c ch) as [->|Hne].
  { exists b1. rewrite Hr1. split_and!; try (done || lia). left. split_and!; (done || lia). }
  unfold add64. rewrite wrap_id by (unfold fits; lia).
  assert (buffered (set_read b1 (bf_nReadPos b + 1))) as Hb2 by (apply set_read_buffered; [done|lia..]).
  destruct (IH _ Hb2) as (b' & Hb' & Hs' & Hsrc' & Hkeep' & Hge & Hnone & Hres).
  { cbn [set_read src bf_nReadPos]. lia. }
  cbn [set_read bf_nReadPos nSrcPos src] in *. rewrite Ef1, Er1 in *. exists b'. split_and!; [done| |lia| |lia| |exact Hres].
  - eapply same_file_trans; [exact Hs1|exact Hs'].
  - intros Hin. rewrite Hkeep' by lia. apply Hkeep. lia.
  - intros p Hp. destruct (Z.eq_dec p (bf_nReadPos b)) as [->|]; [congruence|]. apply Hnone. lia.
Qed.

(** ** Sequences of calls *)

Inductive bf_op := BRead (n : Z) | BSetPos (p : Z) | BSetLimit (p : Z) | BFindByte (ch : Z) | BGetPos.
Inductive bf_out := OBytes (l : list Z) | OThrow (f : failure) | OBool (r : bool) | OPos (p : Z) | ODone.

Definition bf_step (fuel : nat) (o : bf_op) (b : CBufferedFile) : option (bf_out * CBufferedFile) :=
  match o with
  | BRead n => match bf_read b n with Returns l b => Some (OBytes l, b) | Throws f b => Some (OThrow f, b) | _ => None end
  | BSetPos p => let '(r, b) := SetPos b p in Some (OBool r, b)
  | BSetLimit p => let '(r, b) := SetLimit b p in Some (OBool r, b)
  | BFindByte ch => match FindByte fuel ch b with Returns _ b => Some (ODone, b) | Throws f b => Some (OThrow f, b) | _ => None end
  | BGetPos => Some (OPos (GetPos b), b)
  end.

Fixpoint bf_run (fuel : nat) (os : list bf_op) (b : CBufferedFile) : option (list bf_out * CBufferedFile) :=
  match os with
  | [] => Some ([], b)
  | o :: os => '(x, b) ← bf_step fuel o b; '(xs, b) ← bf_run fuel os b; Some (x :: xs, b)
  end.

Definition bf_op_ok (o : bf_op) : Prop :=
  match o with BRead n => 0 <= n < 2 ^ 62 | BSetPos p | BSetLimit p => 0 <= p < 2 ^ 63 | _ => True end.

(** A plain reader of a file with bytes [F] of which [e] can be read: its position, the
    highest position reached in the file, and the limit.  [size] and [keep] are the
    size of the buffer and the number of bytes kept; what lies between the positions
    read and [hi] is up to the buffer, but nothing is read ahead before it is needed. *)
Inductive file_step (F : list Z) (e size keep : Z) : bf_op → Z * Z * Z → bf_out → Z * Z * Z → Prop :=
  | fs_read n pos hi hi' lim :
      pos + n <= lim → n + keep <= size → pos + n <= e → hi <= hi' → pos + n <= hi' <= e → (pos + n <= hi → hi' = hi) →
      file_step F e size keep (BRead n) (pos, hi, lim) (OBytes (file_slice F pos n)) (pos + n, hi', lim)
  | fs_limit n pos hi lim : lim < pos + n → file_step F e size keep (BRead n) (pos, hi, lim) (OThrow PastLimit) (pos, hi, lim)
  | fs_large n pos hi lim : pos + n <= lim → size < n + keep →
      file_step F e size keep (BRead n) (pos, hi, lim) (OThrow LargerThanBuffer) (pos, hi, lim)
  | fs_end n pos hi lim f : pos + n <= lim → n + keep <= size → e < pos + n → read_error f →
      file_step F e size keep (BRead n) (pos, hi, lim) (OThrow f) (e, e, lim)
  | fs_back p pos hi lim : p + keep < hi → file_step F e size keep (BSetPos p) (pos, hi, lim) (OBool false) (hi - keep, hi, lim)
  | fs_ahead p pos hi lim : hi < p → file_step F e size keep (BSetPos p) (pos, hi, lim) (OBool false) (hi, hi, lim)
  | fs_setpos p pos hi lim : hi - keep <= p <= hi → file_step F e size keep (BSetPos p) (pos, hi, lim) (OBool true) (p, hi, lim)
  | fs_nolimit p pos hi lim : p < pos → file_step F e size keep (BSetLimit p) (pos, hi, lim) (OBool false) (pos, hi, lim)
  | fs_setlimit p pos hi lim : pos <= p → file_step F e size keep (BSetLimit p) (pos, hi, lim) (OBool true) (pos, hi, p)
  | fs_found ch pos pos' hi hi' lim :
      pos <= pos' < e → F !! Z.to_nat pos' = Some ch → (∀ p, pos <= p < pos' → F !! Z.to_nat p ≠ Some ch) →
      hi <= hi' → pos' <= hi' <= e → (pos' < hi → hi' = hi) →
      file_step F e size keep (BFindByte ch) (pos, hi, lim) ODone (pos', hi', lim)
  | fs_notfound ch pos hi lim f : (∀ p, pos <= p < e → F !! Z.to_nat p ≠ Some ch) → read_error f →
      file_step F e size keep (BFindByte ch) (pos, hi, lim) (OThrow f) (e, e, lim)
  | fs_getpos pos hi lim : file_step F e size keep BGetPos (pos, hi, lim) (OPos pos) (pos, hi, lim).

Inductive file_run (F : list Z) (e size keep : Z) : list bf_op → Z * Z * Z → list bf_out → Prop :=
  | fr_nil c : file_run F e size keep [] c []
  | fr_cons o os c x c' xs : file_step F e size keep o c x c' → file_run F e size keep os c' xs → file_run F e size keep (o :: os) c (x :: xs).

Definition cursor (b : CBufferedFile) : Z * Z * Z := (bf_nReadPos b, nSrcPos b, nReadLimit b).

Lemma bf_step_spec fuel o b : buffered b → bf_op_ok o → readable (src b) < Z.of_nat fuel →
  ∃ x b', bf_step fuel o b = Some (x, b') ∧ buffered b' ∧ fbytes (src b') = fbytes (src b) ∧ readable (src b') = readable (src b) ∧
    nRewind b' = nRewind b ∧ buf_size b' = buf_size b ∧
    file_step (fbytes (src b)) (readable (src b)) (buf_size b) (nRewind b) o (cursor b) x (cursor b').
Proof.
  intros Hb Ho Hfuel. pose proof (bfo_pos b Hb) as Hpos. pose proof (bfo_end b Hb) as Hend. pose proof (bfo_size b Hb) as Hsize.
  pose proof (bfo_rewind b Hb) as Hrw. pose proof (bfo_limit b Hb) as Hlim. destruct o as [n|p|p|ch|]; cbn [bf_step bf_op_ok] in *.
  - unfold bf_read, add64. rewrite (wrap_id 64 (n + bf_nReadPos b)) by (unfold fits; lia). rewrite (wrap_id 64 (n + nRewind b)) by (unfold fits; lia).
    destruct (Z.ltb_spec (nReadLimit b) (n + bf_nReadPos b)).
    { exists (OThrow PastLimit), b. split_and!; try done. constructor. lia. }
    destruct (Z.ltb_spec (buf_size b) (n + nRewind b)).
    { exists (OThrow LargerThanBuffer), b. split_and!; try done. constructor; lia. }
    destruct (read_loop_spec (S (Z.to_nat n)) n [] b Hb Ho ltac:(lia)) as (b' & Hb' & (E1 & E2 & E3 & E4 & E5) & Hs & Hk & Hcase).
    pose proof (bfo_pos b' Hb') as Hpos'. pose proof (bfo_end b' Hb') as Hend'.
    destruct (Z.leb_spec (bf_nReadPos b + n) (readable (src b))).
    + destruct Hcase as [-> Hp]. eexists _, b'. split; [reflexivity|]. split_and!; try done. unfold cursor. rewrite E3, Hp. cbn [app].
      constructor; lia.
    + destruct Hcase as (f & Hf & -> & Hp & Hs'). exists (OThrow f), b'. split_and!; try done. unfold cursor. rewrite E3, Hp, Hs'. constructor; (done || lia).
  - unfold SetPos, add64. rewrite wrap_id by (unfold fits; lia). destruct (Z.ltb_spec (p + nRewind b) (nSrcPos b)).
    { rewrite wrap_id by (unfold fits; lia). eexists _, _. split; [reflexivity|]. split_and!; try done; [apply set_read_buffered; [done|lia..]|].
      by constructor. }
    destruct (Z.ltb_spec (nSrcPos b) p); eexists _, _; (split; [reflexivity|]); split_and!; try done; try (apply set_read_buffered; [done|lia..]).
    + by constructor.
    + constructor. lia.
  - unfold SetLimit. destruct (Z.ltb_spec p (bf_nReadPos b)); eexists _, _; (split; [reflexivity|]); split_and!; try done.
    + by constructor.
    + destruct Hb. split; try done. cbn. unfold fits. lia.
    + by constructor.
  - destruct (FindByte_spec fuel ch b Hb ltac:(lia)) as (b' & Hb' & (E1 & E2 & E3 & E4 & E5) & Hs & Hk & Hge & Hnone & Hcase).
    pose proof (bfo_pos b' Hb') as Hpos'. pose proof (bfo_end b' Hb') as Hend'. destruct Hcase as [(-> & Hlt & Hfound)|(f & Hf & -> & Hp & Hs')].
    + exists ODone, b'. split_and!; try done. unfold cursor. rewrite E3. constructor; (done || lia).
    + exists (OThrow f), b'. split_and!; try done. unfold cursor. rewrite E3, Hp, Hs'. constructor; [|done]. rewrite Hp in Hnone. done.
  - exists (OPos (GetPos b)), b. split_and!; try done. constructor.
Qed.

Lemma bf_run_spec fuel os b : buffered b → Forall bf_op_ok os → readable (src b) < Z.of_nat fuel →
  ∃ xs b', bf_run fuel os b = Some (xs, b') ∧ file_run (fbytes (src b)) (readable (src b)) (buf_size b) (nRewind b) os (cursor b) xs.
Proof.
  intros Hb Hos. revert b Hb. induction Hos as [|o os Ho Hos IH]; intros b Hb Hfuel; [exists [], b; split; [done|constructor]|].
  destruct (bf_step_spec fuel o b Hb Ho Hfuel) as (x & b1 & E & Hb1 & E1 & E2 & E3 & E4 & Hstep).
  destruct (IH b1 Hb1 ltac:(lia)) as (xs & b2 & Er & Hrun). exists (x :: xs), b2. cbn [bf_run]. rewrite E. cbn [mbind option_bind].
  rewrite Er. split; [done|]. rewrite E1, E2, E3, E4 in Hrun. by econstructor.
Qed.

Lemma new_buffered f size keep : fpos f = 0 → 0 <= readable f < 2 ^ 62 → 0 <= keep < size → size < 2 ^ 32 →
  buffered (CBufferedFile_new f size keep).
Proof.
  intros Hf He Hk Hs. assert (buf_size (CBufferedFile_new f size keep) = size) as Ebs.
  { unfold buf_size, CBufferedFile_new. cbn [vchBuf]. rewrite length_replicate. lia. }
  split; rewrite ?Ebs; cbn [CBufferedFile_new src nSrcPos bf_nReadPos nReadLimit nRewind]; try lia; try done.
Qed.

(** ** Properties of buffered files *)

(** C18: reading a file through the ring buffer is reading the file: for every
    sequence of reads, repositionings, limits and searches each call returns, the
    bytes delivered are those of the file at the current position, however the ring
    wraps round, a read fails exactly if it goes past the limit, is too large for the
    buffer or meets the end of what can be read, and a search stops at the first
    occurrence or at the end.  Repositioning succeeds exactly between the kept bytes
    before the highest position reached and that position. *)
Theorem CBufferedFile_reads_the_file (f : FILE) (nBufSize nRewindIn : Z) (fuel : nat) (os : list bf_op) :
  fpos f = 0 → 0 <= readable f < 2 ^ 62 → 0 <= nRewindIn < nBufSize → nBufSize < 2 ^ 32 →
  Forall bf_op_ok os → readable f < Z.of_nat fuel →
  ∃ outs b, bf_run fuel os (CBufferedFile_new f nBufSize nRewindIn) = Some (outs, b) ∧
    file_run (fbytes f) (readable f) nBufSize nRewindIn os (0, 0, 2 ^ 64 - 1) outs.
Proof.
  intros Hf He Hk Hs Hos Hfuel. pose proof (new_buffered f nBufSize nRewindIn Hf He Hk Hs) as Hb.
  destruct (bf_run_spec fuel os _ Hb Hos Hfuel) as (outs & b & E & Hrun). exists outs, b. split; [exact E|].
  unfold cursor, buf_size in Hrun. cbn [CBufferedFile_new src nSrcPos bf_nReadPos nReadLimit nRewind vchBuf] in Hrun.
  rewrite length_replicate, Z2Nat.id in Hrun by lia. exact Hrun.
Qed.

Definition example_file : FILE := mk_FILE (Z.of_nat <$> seq 0 40) 0 false None.

Lemma CBufferedFile_reads_the_file_witness :
  let os := [BRead 5; BRead 4; BRead 4; BSetPos 10; BRead 5; BSetLimit 16; BRead 2; BFindByte 30; BRead 1; BGetPos] in
  ∃ b, bf_run 50 os (CBufferedFile_new example_file 8 3) =
    Some ([OBytes [0; 1; 2; 3; 4]; OBytes [5; 6; 7; 8]; OBytes [9; 10; 11; 12]; OBool true; OBytes [10; 11; 12; 13; 14]; OBool true;
           OThrow PastLimit; ODone; OThrow PastLimit; OPos 30], b).
Proof.
  intros os. assert (readable example_file = 40) as Er by reflexivity.
  destruct (CBufferedFile_reads_the_file example_file 8 3 50 os eq_refl ltac:(lia) ltac:(lia) ltac:(lia)) as (outs & b & E & _).
  - unfold os. repeat constructor; cbn; lia.
  - lia.
  - exists b. etrans; [exact E|]. f_equal. f_equal. vm_compute in E. apply Some_inj, pair_eq in E as [<- _]. reflexivity.
Defined.

(** The number of bytes kept is counted from what was read from the file, not from
    what was read through the buffer: after one byte of a long file a rewind by one
    byte, of the ten that are guaranteed, fails and moves ahead to position 80.  And
    after [Seek] the buffer still holds bytes from before: a rewind by five bytes
    succeeds and the bytes read then are not those of the file. *)
Definition long_file : FILE := mk_FILE (Z.of_nat <$> seq 0 200) 0 false None.

Theorem rewinding_goes_wrong :
  (∃ b, bf_run 0 [BRead 1; BGetPos; BSetPos 0; BGetPos; BRead 2] (CBufferedFile_new long_file 100 10) =
     Some ([OBytes [0]; OPos 1; OBool false; OPos 80; OBytes [80; 81]], b)) ∧
  (∃ b b', bf_Seek (CBufferedFile_new long_file 100 10) 50 = (true, b) ∧
     bf_run 0 [BSetPos 45; BRead 5; BRead 2] b = Some ([OBool true; OBytes [0; 0; 0; 0; 0]; OBytes [50; 51]], b')).
Proof. split; [|do 2 eexists; split; [reflexivity|]]; try eexists; vm_compute; reflexivity. Qed.

(** [ignore] of a file takes it as far as a read of as many bytes, in pieces. *)
Theorem CAutoFile_ignore_skips (f : FILE) (n : Z) :
  0 <= fpos f <= readable f → 0 <= n →
  if fpos f + n <=? readable f then
    (∃ f', CAutoFile_ignore (Some f) n = Returns tt (Some f') ∧ fbytes f' = fbytes f ∧ fpos f' = fpos f + n) ∧
    (∃ f', CAutoFile_read (Some f) n = Returns (file_slice (fbytes f) (fpos f) n) (Some f') ∧ fpos f' = fpos f + n)
  else ∃ e e' f1 f2, read_error e ∧ read_error e' ∧ CAutoFile_ignore (Some f) n = Throws e (Some f1) ∧
    CAutoFile_read (Some f) n = Throws e' (Some f2) ∧ fpos f1 = readable f ∧ fpos f2 = readable f.
Proof.
  intros Hp Hn.
  assert (∀ g, read_error (read_failure g)) as Herr by (intros g; unfold read_error, read_failure; destruct (feof g); auto).
  assert (∀ fuel n f, 0 <= fpos f <= readable f → 0 <= n < Z.of_nat fuel →
    if fpos f + n <=? readable f then ∃ f', ignore_loop fuel n f = Returns tt (Some f') ∧ fbytes f' = fbytes f ∧ fpos f' = fpos f + n
    else ∃ e f', read_error e ∧ ignore_loop fuel n f = Throws e (Some f') ∧ fpos f' = readable f) as Hloop.
  { induction fuel as [|fuel IH]; intros m g Hg Hm; [lia|]. cbn [ignore_loop]. destruct (Z.ltb_spec 0 m).
    2: { destruct (Z.leb_spec (fpos g + m) (readable g)); [|lia]. exists g. split_and!; [done..|lia]. }
    destruct (fread_spec (Z.min m 4096) g ltac:(lia) Hg) as (g' & -> & -> & E1 & E2 & E3).
    destruct (Z.eqb_spec (Z.min (Z.min m 4096) (readable g - fpos g)) (Z.min m 4096)).
    - specialize (IH (m - Z.min m 4096) g' ltac:(lia) ltac:(lia)). rewrite E1, E2, E3 in IH.
      replace (fpos g + Z.min (Z.min m 4096) (readable g - fpos g) + (m - Z.min m 4096)) with (fpos g + m) in IH by lia. exact IH.
    - destruct (Z.leb_spec (fpos g + m) (readable g)); [lia|]. exists (read_failure g'), g'. split_and!; [done..|lia]. }
  specialize (Hloop (S (Z.to_nat n)) n f Hp ltac:(lia)). cbn [CAutoFile_ignore CAutoFile_read].
  destruct (fread_spec n f Hn Hp) as (f' & -> & -> & E1 & E2 & E3). destruct (Z.leb_spec (fpos f + n) (readable f)).
  - split; [exact Hloop|]. rewrite (Z.min_l n) in * by lia. rewrite Z.eqb_refl. by exists f'.
  - destruct Hloop as (e & f1 & He & E & Ep). destruct (Z.eqb_spec (Z.min n (readable f - fpos f)) n); [lia|].
    exists e, (read_failure f'), f1, f'. split_and!; [done..|lia].
Qed.
