(* ===== verification/SipHash.v ===== *)
(** * SipHash-2-4 and MurmurHash3: [hash.h], [hash.cpp]

    [Hash::SipHasher] takes its input as bytes or as 64-bit words and keeps the
    bytes of an unfinished word in [tmp]; [Node::Node] draws its nonce from it.
    It is proved to compute SipHash-2-4 of everything written, words counting as
    their eight little-endian bytes.  [MurmurHash3] permutes the seeds: for every
    input, its inverse is given and proved. *)

From Stdlib Require Import ZifyNat.
From stdpp Require Import base list numbers decidable.
From S2P Require Import Prelude ArithUint256 Uint256 MdHash.

Open Scope Z_scope.

(** ** [SipHasher] *)

(** [ROTL(x, b)]. *)
Definition ROTL64 (x b : Z) : Z := Z.lor (shl64 x b) (Z.shiftr x (64 - b)).

Definition sipvec : Type := Z * Z * Z * Z.

Definition SIPROUND (v : sipvec) : sipvec :=
  let '(v0, v1, v2, v3) := v in
  let v0 := add64 v0 v1 in let v1 := ROTL64 v1 13 in let v1 := Z.lxor v1 v0 in
  let v0 := ROTL64 v0 32 in
  let v2 := add64 v2 v3 in let v3 := ROTL64 v3 16 in let v3 := Z.lxor v3 v2 in
  let v0 := add64 v0 v3 in let v3 := ROTL64 v3 21 in let v3 := Z.lxor v3 v0 in
  let v2 := add64 v2 v1 in let v1 := ROTL64 v1 17 in let v1 := Z.lxor v1 v2 in
  let v2 := ROTL64 v2 32 in
  (v0, v1, v2, v3).

Record SipHasher := mk_SipHasher {
  sip_v : sipvec;      (* uint64_t v[4] *)
  sip_tmp : Z;         (* uint64_t tmp *)
  sip_count : Z;       (* int count *)
}.

Definition SipHasher_new (k0 k1 : Z) : SipHasher :=
  mk_SipHasher (Z.lxor 0x736f6d6570736575 k0, Z.lxor 0x646f72616e646f6d k1,
                Z.lxor 0x6c7967656e657261 k0, Z.lxor 0x7465646279746573 k1) 0 0.

(** [v3 ^= d; SIPROUND; SIPROUND; v0 ^= d;]. *)
Definition sip_absorb (v : sipvec) (d : Z) : sipvec :=
  let '(v0, v1, v2, v3) := v in
  let '(v0, v1, v2, v3) := SIPROUND (SIPROUND (v0, v1, v2, Z.lxor v3 d)) in
  (Z.lxor v0 d, v1, v2, v3).

(** [count += n] is undefined when the sum leaves [int]. *)
Definition int_add (c n : Z) : option Z := if c + n <? 2 ^ 31 then Some (c + n) else None.

(** [Write(uint64_t)]: [None] is the failed [assert]. *)
Definition SipHasher_Write_word (h : SipHasher) (data : Z) : option SipHasher :=
  if sip_count h mod 8 =? 0 then
    c ← int_add (sip_count h) 8;
    Some (mk_SipHasher (sip_absorb (sip_v h) data) (sip_tmp h) c)
  else None.

(** One iteration of the loop of [Write(const unsigned char*, size_t)]. *)
Definition sip_byte (h : SipHasher) (b : Z) : option SipHasher :=
  let t := Z.lor (sip_tmp h) (shl64 b (8 * (sip_count h mod 8))) in
  c ← int_add (sip_count h) 1;
  if Z.land c 7 =? 0 then Some (mk_SipHasher (sip_absorb (sip_v h) t) 0 c)
  else Some (mk_SipHasher (sip_v h) t c).

Fixpoint SipHasher_Write (h : SipHasher) (data : list Z) : option SipHasher :=
  match data with
  | [] => Some h
  | b :: data => h ← sip_byte h b; SipHasher_Write h data
  end.

Definition SipHasher_Finalize (h : SipHasher) : Z :=
  let t := Z.lor (sip_tmp h) (shl64 (wrap64 (sip_count h)) 56) in
  let '(v0, v1, v2, v3) := sip_absorb (sip_v h) t in
  let '(v0, v1, v2, v3) := SIPROUND (SIPROUND (SIPROUND (SIPROUND (v0, v1, Z.lxor v2 0xFF, v3)))) in
  Z.lxor (Z.lxor (Z.lxor v0 v1) v2) v3.

(** The nonce [Node::Node] draws for the node with identifier [id]. *)
Definition node_nonce (id : Z) : option Z :=
  h ← SipHasher_Write_word (SipHasher_new 0x0706050403020100 0x0F0E0D0C0B0A0908) 0xd93e69e2bbfa5735;
  h ← SipHasher_Write_word h id;
  Some (SipHasher_Finalize h).

(** ** [MurmurHash3] *)

Definition mul32 (x y : Z) : Z := wrap32 (x * y).
Definition ROTL32 (x r : Z) : Z := Z.lor (shl32 x r) (shr32 x (32 - r)).

(** The scrambled word [k1]. *)
Definition murmur_k (k1 : Z) : Z := mul32 (ROTL32 (mul32 k1 0xcc9e2d51) 15) 0x1b873593.

(** One iteration of the body, on the block's word. *)
Definition murmur_block (h1 k1 : Z) : Z :=
  add32 (mul32 (ROTL32 (Z.lxor h1 (murmur_k k1)) 13) 5) 0xe6546b64.

(** The tail, one to three bytes, none when the length is a multiple of four. *)
Definition murmur_tail (h1 : Z) (tail : list Z) : Z :=
  let byte i := default 0 (tail !! i) in
  match length tail with
  | 3%nat => Z.lxor h1 (murmur_k (Z.lxor (Z.lxor (Z.shiftl (byte 2%nat) 16) (Z.shiftl (byte 1%nat) 8)) (byte 0%nat)))
  | 2%nat => Z.lxor h1 (murmur_k (Z.lxor (Z.shiftl (byte 1%nat) 8) (byte 0%nat)))
  | 1%nat => Z.lxor h1 (murmur_k (byte 0%nat))
  | _ => h1
  end.

Definition murmur_finish (h1 size : Z) : Z :=
  let h1 := Z.lxor h1 size in
  let h1 := Z.lxor h1 (shr32 h1 16) in
  let h1 := mul32 h1 0x85ebca6b in
  let h1 := Z.lxor h1 (shr32 h1 13) in
  let h1 := mul32 h1 0xc2b2ae35 in
  Z.lxor h1 (shr32 h1 16).

Definition MurmurHash3 (nHashSeed : Z) (vDataToHash : list Z) : Z :=
  let nblocks := (length vDataToHash / 4)%nat in
  let h1 := for_range 0 nblocks (λ i h1, murmur_block h1 (le_value (take 4 (drop (i * 4) vDataToHash)))) nHashSeed in
  let h1 := murmur_tail h1 (drop (nblocks * 4) vDataToHash) in
  murmur_finish h1 (wrap32 (Z.of_nat (length vDataToHash))).

(** ** SipHash-2-4, as its authors define it *)

Module SipSpec.
Definition rotl (x b : Z) : Z := (x * 2 ^ b) mod 2 ^ 64 + x / 2 ^ (64 - b).

(** The two halves of a round work on [(v0, v1)] with [(v2, v3)] side by side,
    then on [(v2, v1)] with [(v0, v3)]. *)
Definition half (a b c d s t : Z) : Z * Z * Z * Z :=
  let a := (a + b) mod 2 ^ 64 in
  let c := (c + d) mod 2 ^ 64 in
  (rotl a 32, Z.lxor (rotl b s) a, c, Z.lxor (rotl d t) c).

Definition round (v : sipvec) : sipvec :=
  let '(v0, v1, v2, v3) := v in
  let '(v0, v1, v2, v3) := half v0 v1 v2 v3 13 16 in
  let '(v2, v1, v0, v3) := half v2 v1 v0 v3 17 21 in
  (v0, v1, v2, v3).

Definition compress (v : sipvec) (m : Z) : sipvec :=
  let '(v0, v1, v2, v3) := v in
  let '(v0, v1, v2, v3) := Nat.iter 2 round (v0, v1, v2, Z.lxor v3 m) in
  (Z.lxor v0 m, v1, v2, v3).

(** The little-endian words of a message whose length is a multiple of eight. *)
Fixpoint words_of (n : nat) (l : list Z) : list Z :=
  match n with
  | O => []
  | S n => le_value (take 8 l) :: words_of n (drop 8 l)
  end.

(** The last word ends with the length modulo 256. *)
Definition pad (msg : list Z) : list Z :=
  msg ++ replicate (7 - length msg mod 8) 0 ++ [Z.of_nat (length msg) mod 256].

Definition init (k0 k1 : Z) : sipvec :=
  (Z.lxor k0 0x736f6d6570736575, Z.lxor k1 0x646f72616e646f6d, Z.lxor k0 0x6c7967656e657261, Z.lxor k1 0x7465646279746573).

Definition siphash24 (k0 k1 : Z) (msg : list Z) : Z :=
  let v := foldl compress (init k0 k1) (words_of (length (pad msg) / 8) (pad msg)) in
  let '(v0, v1, v2, v3) := v in
  let '(v0, v1, v2, v3) := Nat.iter 4 round (v0, v1, Z.lxor v2 0xFF, v3) in
  Z.lxor (Z.lxor (Z.lxor v0 v1) v2) v3.
End SipSpec.

(** ** The rounds *)

Definition vec_ok (v : sipvec) : Prop :=
  let '(v0, v1, v2, v3) := v in u64_ok v0 ∧ u64_ok v1 ∧ u64_ok v2 ∧ u64_ok v3.

(** Rotation to the left, by arithmetic. *)
Lemma rotl_arith w x b : 0 < b < w → fits w x →
  Z.lor (wrap w (Z.shiftl x b)) (Z.shiftr x (w - b)) = x mod 2 ^ (w - b) * 2 ^ b + x / 2 ^ (w - b) ∧
  fits w (x mod 2 ^ (w - b) * 2 ^ b + x / 2 ^ (w - b)).
Proof.
  intros Hb Hx. unfold wrap. rewrite Z.shiftl_mul_pow2, Z.shiftr_div_pow2 by lia.
  assert (2 ^ w = 2 ^ (w - b) * 2 ^ b) as E by (rewrite <- Z.pow_add_r by lia; f_equal; lia).
  pose proof (pow2_pos b ltac:(lia)). pose proof (pow2_pos (w - b) ltac:(lia)). unfold fits in *.
  assert (0 <= x / 2 ^ (w - b) < 2 ^ b) by (split; [apply Z.div_pos; lia|apply Z.div_lt_upper_bound; lia]).
  rewrite E, Z.mul_mod_distr_r by lia. rewrite <- Z.shiftl_mul_pow2 by lia.
  rewrite Z.lor_comm, lor_add_disjoint by (unfold fits; lia). rewrite Z.shiftl_mul_pow2 by lia.
  pose proof (Z.mod_pos_bound x (2 ^ (w - b)) ltac:(lia)). split; [lia|]. nia.
Qed.

Lemma ROTL64_rotl x b : 0 < b < 64 → u64_ok x → ROTL64 x b = SipSpec.rotl x b ∧ u64_ok (ROTL64 x b).
Proof.
  intros Hb Hx. destruct (rotl_arith 64 x b Hb Hx) as [E Hok]. unfold ROTL64, shl64. rewrite E. split; [|done].
  unfold SipSpec.rotl. replace (2 ^ 64) with (2 ^ (64 - b) * 2 ^ b) by (rewrite <- Z.pow_add_r by lia; f_equal; lia).
  rewrite Z.mul_mod_distr_r; [done|..]; pose proof (pow2_pos b); pose proof (pow2_pos (64 - b)); lia.
Qed.

Lemma add64_ok x y : u64_ok (add64 x y).
Proof. apply wrap_fits. lia. Qed.

Lemma SIPROUND_spec v : vec_ok v → SIPROUND v = SipSpec.round v ∧ vec_ok (SIPROUND v).
Proof.
  destruct v as [[[v0 v1] v2] v3]. intros (H0 & H1 & H2 & H3). unfold SIPROUND, SipSpec.round, SipSpec.half.
  change ((?a + ?b) mod 2 ^ 64) with (add64 a b). unfold vec_ok.
  repeat match goal with |- context [ROTL64 ?x ?b] =>
    let E := fresh "E" in let O := fresh "O" in
    assert (u64_ok x) as O by auto using add64_ok, lxor_fits with lia;
    destruct (ROTL64_rotl x b ltac:(lia) O) as [E ?O]; rewrite E in *; clear O end.
  split; [done|]. split_and!; auto using add64_ok, lxor_fits with lia.
Qed.

Lemma sip_absorb_spec v m : vec_ok v → u64_ok m → sip_absorb v m = SipSpec.compress v m ∧ vec_ok (sip_absorb v m).
Proof.
  destruct v as [[[v0 v1] v2] v3]. intros (H0 & H1 & H2 & H3) Hm. unfold sip_absorb, SipSpec.compress.
  assert (vec_ok (v0, v1, v2, Z.lxor v3 m)) as Hv by (split_and!; auto using lxor_fits with lia).
  destruct (SIPROUND_spec _ Hv) as [E1 O1]. destruct (SIPROUND_spec _ O1) as [E2 O2]. change (Nat.iter 2 ?f ?x) with (f (f x)).
  rewrite E2, E1 in O2 |- *. destruct (SipSpec.round (SipSpec.round _)) as [[[a b] c] d]. destruct O2 as (? & ? & ? & ?).
  split; [done|]. split_and!; auto using lxor_fits with lia.
Qed.

(** ** What a hasher has absorbed *)

Definition sip_words (msg : list Z) : list Z := SipSpec.words_of (length msg / 8) msg.

Record sip_absorbed (k0 k1 : Z) (h : SipHasher) (msg : list Z) : Prop := {
  sa_bytes : bytes_ok msg;
  sa_count : sip_count h = Z.of_nat (length msg);
  sa_v : sip_v h = foldl SipSpec.compress (SipSpec.init k0 k1) (sip_words msg);
  sa_ok : vec_ok (sip_v h);
  sa_tmp : sip_tmp h = le_value (drop (8 * (length msg / 8)) msg);
}.

Lemma words_of_add m n l : SipSpec.words_of (m + n) l = SipSpec.words_of m l ++ SipSpec.words_of n (drop (8 * m) l).
Proof.
  revert l. induction m as [|m IH]; intros l; [done|]. cbn [SipSpec.words_of Nat.add app]. rewrite IH, drop_drop.
  do 4 f_equal. lia.
Qed.

Lemma words_of_app n l k : (8 * n <= length l)%nat → SipSpec.words_of n (l ++ k) = SipSpec.words_of n l.
Proof.
  revert l. induction n as [|n IH]; intros l Hn; [done|]. cbn [SipSpec.words_of].
  rewrite take_app_le, drop_app_le, IH by (rewrite ?length_drop; lia). done.
Qed.

(** The words of a message that grows to the next multiple of eight. *)
Lemma sip_words_fill msg l :
  (length msg mod 8 + length l = 8)%nat →
  sip_words (msg ++ l) = sip_words msg ++ [le_value (drop (8 * (length msg / 8)) msg ++ l)].
Proof.
  intros Hl. unfold sip_words. rewrite length_app.
  replace ((length msg + length l) / 8)%nat with (length msg / 8 + 1)%nat by divlia.
  rewrite words_of_add, words_of_app by divlia. f_equal. cbn [SipSpec.words_of]. do 2 f_equal.
  rewrite drop_app_le by divlia. apply take_ge. rewrite length_app, length_drop. divlia.
Qed.

Lemma sip_words_more msg l :
  (length msg mod 8 + length l < 8)%nat → sip_words (msg ++ l) = sip_words msg.
Proof.
  intros Hl. unfold sip_words. rewrite length_app.
  replace ((length msg + length l) / 8)%nat with (length msg / 8)%nat by divlia. apply words_of_app. divlia.
Qed.

(** A byte that is put above the bytes of the unfinished word. *)
Lemma sip_tmp_byte (l : list Z) b :
  bytes_ok l → byte_ok b → (length l < 8)%nat →
  Z.lor (le_value l) (shl64 b (8 * Z.of_nat (length l))) = le_value (l ++ [b]) ∧ u64_ok (le_value (l ++ [b])).
Proof.
  intros Hl Hb H8. pose proof (le_value_bound l Hl) as Hv. assert (bytes_ok (l ++ [b])) as Hlb by (apply Forall_app; auto).
  pose proof (le_value_bound _ Hlb) as Hv'. rewrite length_app in Hv'. cbn [length] in Hv'.
  assert (256 ^ Z.of_nat (length l) = 2 ^ (8 * Z.of_nat (length l))) as E by (rewrite Z.pow_mul_r by lia; done).
  assert (2 ^ (8 * Z.of_nat (length l)) * 256 <= 2 ^ 64) as Hp.
  { change 256 with (2 ^ 8). rewrite <- Z.pow_add_r by lia. apply Z.pow_le_mono_r; lia. }
  unfold fits in *. unfold shl64. rewrite wrap_id by (unfold fits; rewrite Z.shiftl_mul_pow2 by lia; nia).
  rewrite lor_add_disjoint by (unfold fits; lia). rewrite le_value_app, <- E. cbn [le_value]. split; [lia|].
  rewrite le_value_app in Hv'. cbn [le_value] in Hv'. rewrite E in *. nia.
Qed.

Lemma land7 x : 0 <= x → Z.land x 7 = x mod 8.
Proof. intros. change 7 with (Z.ones 3). by rewrite Z.land_ones. Qed.

Lemma int_add_Some c n : c + n < 2 ^ 31 → int_add c n = Some (c + n).
Proof. intros. unfold int_add. by rewrite (proj2 (Z.ltb_lt _ _)). Qed.

Lemma sip_byte_absorbed k0 k1 h msg b :
  sip_absorbed k0 k1 h msg → byte_ok b → Z.of_nat (length msg) + 1 < 2 ^ 31 →
  ∃ h', sip_byte h b = Some h' ∧ sip_absorbed k0 k1 h' (msg ++ [b]).
Proof.
  intros [Hbs Hc Hv Hok Ht] Hb Hlen. unfold sip_byte. rewrite Hc, Ht.
  set (l := drop (8 * (length msg / 8)) msg).
  assert (length l = length msg mod 8)%nat as Hl by (unfold l; rewrite length_drop; divlia).
  assert (bytes_ok l) as Hlok by (by apply Forall_drop).
  replace (Z.of_nat (length msg) mod 8) with (Z.of_nat (length l)) by (rewrite Hl; divlia).
  destruct (sip_tmp_byte l b Hlok Hb ltac:(rewrite Hl; divlia)) as [-> Hlb].
  rewrite int_add_Some by done. cbn [mbind option_bind]. rewrite land7 by lia.
  assert (length (msg ++ [b]) = length msg + 1)%nat as E1 by (rewrite length_app; done).
  assert (bytes_ok (msg ++ [b])) by (apply Forall_app; auto).
  destruct (Z.eqb_spec ((Z.of_nat (length msg) + 1) mod 8) 0) as [E|E]; (eexists; split; [reflexivity|]).
  - destruct (sip_absorb_spec (sip_v h) (le_value (l ++ [b])) Hok Hlb) as [Ea Oa].
    constructor; cbn [sip_v sip_tmp sip_count]; [done|rewrite E1; lia| |done|].
    + rewrite Ea, sip_words_fill, foldl_app, Hv by (cbn [length]; divlia). done.
    + rewrite drop_ge; [done|]. rewrite E1. divlia.
  - constructor; cbn [sip_v sip_tmp sip_count]; [done|rewrite E1; lia| |done|].
    + rewrite sip_words_more by (cbn [length]; divlia). done.
    + rewrite E1. replace ((length msg + 1) / 8)%nat with (length msg / 8)%nat by divlia.
      rewrite drop_app_le by divlia. done.
Qed.

Lemma sip_new_absorbed k0 k1 : u64_ok k0 → u64_ok k1 → sip_absorbed k0 k1 (SipHasher_new k0 k1) [].
Proof.
  intros H0 H1. constructor; cbn [SipHasher_new sip_v sip_tmp sip_count]; [done|done| | |done].
  - cbn. by rewrite (Z.lxor_comm _ k0), (Z.lxor_comm _ k0), (Z.lxor_comm _ k1), (Z.lxor_comm _ k1).
  - split_and!; apply lxor_fits; (lia || done).
Qed.

Lemma sip_Write_absorbed k0 k1 data h msg :
  sip_absorbed k0 k1 h msg → bytes_ok data → Z.of_nat (length msg) + Z.of_nat (length data) < 2 ^ 31 →
  ∃ h', SipHasher_Write h data = Some h' ∧ sip_absorbed k0 k1 h' (msg ++ data).
Proof.
  intros Habs Hd. revert h msg Habs. induction Hd as [|b data Hb _ IH]; intros h msg Habs Hlen; cbn [length] in Hlen.
  - exists h. by rewrite app_nil_r.
  - destruct (sip_byte_absorbed _ _ _ _ b Habs Hb ltac:(lia)) as (h' & E & Habs'). cbn [SipHasher_Write]. rewrite E.
    cbn [mbind option_bind]. destruct (IH h' (msg ++ [b]) Habs') as (h'' & E' & Habs'');
      [rewrite length_app; cbn [length]; lia|]. exists h''. by rewrite <- app_assoc in Habs''.
Qed.

Lemma sip_word_absorbed k0 k1 h msg d :
  sip_absorbed k0 k1 h msg → u64_ok d → (length msg mod 8 = 0)%nat → Z.of_nat (length msg) + 8 < 2 ^ 31 →
  ∃ h', SipHasher_Write_word h d = Some h' ∧ sip_absorbed k0 k1 h' (msg ++ le_bytes 8 d).
Proof.
  intros [Hbs Hc Hv Hok Ht] Hd Hm Hlen. unfold SipHasher_Write_word. rewrite Hc.
  replace (Z.of_nat (length msg) mod 8) with 0 by divlia. cbn [Z.eqb]. rewrite int_add_Some by done. eexists.
  split; [reflexivity|]. destruct (sip_absorb_spec (sip_v h) d Hok Hd) as [Ea Oa].
  assert (drop (8 * (length msg / 8)) msg = []) as E by (apply drop_ge; divlia).
  constructor; cbn [sip_v sip_tmp sip_count]; [apply Forall_app; split; [done|apply le_bytes_ok]
    |rewrite length_app, length_le_bytes; lia| |done|].
  - rewrite Ea, sip_words_fill, foldl_app, Hv, E, app_nil_l by (rewrite length_le_bytes; lia). cbn [foldl].
    rewrite le_value_le_bytes. f_equal. symmetry. apply Z.mod_small, Hd.
  - rewrite Ht, E, length_app, length_le_bytes, drop_ge; [done|]. rewrite length_app, length_le_bytes. divlia.
Qed.

Lemma sip_last_word msg :
  bytes_ok msg → Z.of_nat (length msg) < 2 ^ 31 →
  let l := drop (8 * (length msg / 8)) msg in
  Z.lor (le_value l) (shl64 (wrap64 (Z.of_nat (length msg))) 56) =
    le_value (l ++ replicate (7 - length msg mod 8) 0 ++ [Z.of_nat (length msg) mod 256]).
Proof.
  intros Hb Hlen l. assert (length l = length msg mod 8)%nat as Hl by (unfold l; rewrite length_drop; divlia).
  assert (bytes_ok l) as Hlok by (by apply Forall_drop).
  assert (∀ k, le_value (replicate k 0) = 0) as Hz by (induction k as [|k IHk]; cbn; lia).
  rewrite wrap_id by (unfold fits; lia). unfold shl64, wrap. rewrite Z.shiftl_mul_pow2 by lia.
  replace (2 ^ 64) with (256 * 2 ^ 56) by lia. rewrite Z.mul_mod_distr_r by lia. rewrite <- Z.shiftl_mul_pow2 by lia.
  set (n := (length msg mod 8)%nat) in *. assert (n < 8)%nat by (unfold n; divlia).
  pose proof (le_value_bound l Hlok) as Hv.
  assert (256 ^ Z.of_nat (length l) <= 2 ^ 56).
  { change 256 with (2 ^ 8). rewrite <- Z.pow_mul_r by lia. apply Z.pow_le_mono_r; lia. }
  rewrite lor_add_disjoint by (unfold fits; lia). rewrite app_assoc, le_value_app, le_value_app, Hz.
  cbn [le_value]. rewrite length_app, length_replicate, Hl. replace (n + (7 - n))%nat with 7%nat by lia.
  change (256 ^ Z.of_nat 7) with (2 ^ 56). lia.
Qed.

Lemma sip_Finalize_absorbed k0 k1 h msg :
  sip_absorbed k0 k1 h msg → Z.of_nat (length msg) < 2 ^ 31 →
  SipHasher_Finalize h = SipSpec.siphash24 k0 k1 msg.
Proof.
  intros [Hbs Hc Hv Hok Ht] Hlen. unfold SipHasher_Finalize, SipSpec.siphash24. rewrite Hc, Ht, sip_last_word by done.
  set (l := replicate (7 - length msg mod 8) 0 ++ [Z.of_nat (length msg) mod 256]).
  assert (length l = 8 - length msg mod 8)%nat as Hl by (unfold l; rewrite length_app, length_replicate; cbn [length]; divlia).
  set (m := le_value _).
  assert (u64_ok m) as Hm.
  { assert (bytes_ok (drop (8 * (length msg / 8)) msg ++ l)) as Hb.
    { repeat apply Forall_app_2; [by apply Forall_drop|apply Forall_replicate; done|].
      apply Forall_singleton. apply Z.mod_pos_bound. lia. }
    pose proof (le_value_bound _ Hb) as Hbd. rewrite length_app, length_drop, Hl in Hbd.
    replace (length msg - 8 * (length msg / 8) + (8 - length msg mod 8))%nat with 8%nat in Hbd by divlia. exact Hbd. }
  destruct (sip_absorb_spec (sip_v h) m Hok Hm) as [Ea Oa]. rewrite Ea in *.
  assert (foldl SipSpec.compress (SipSpec.init k0 k1) (SipSpec.words_of (length (SipSpec.pad msg) / 8) (SipSpec.pad msg)) =
    SipSpec.compress (sip_v h) m) as ->.
  { change (SipSpec.words_of _ _) with (sip_words (msg ++ l)). rewrite sip_words_fill by (rewrite Hl; divlia).
    by rewrite foldl_app, Hv. }
  destruct (SipSpec.compress (sip_v h) m) as [[[a b] c] d]. destruct Oa as (? & ? & ? & ?).
  assert (vec_ok (a, b, Z.lxor c 0xFF, d)) as Hx by (split_and!; auto; apply lxor_fits; done).
  destruct (SIPROUND_spec _ Hx) as [E1 O1], (SIPROUND_spec _ O1) as [E2 O2], (SIPROUND_spec _ O2) as [E3 O3], (SIPROUND_spec _ O3) as [E4 _].
  change (Nat.iter 4 ?f ?x) with (f (f (f (f x)))). by rewrite E4, E3, E2, E1.
Qed.

(** ** Writes of bytes and of words *)

Inductive sip_write := WBytes (data : list Z) | WWord (data : Z).

Definition sip_do (h : SipHasher) (w : sip_write) : option SipHasher :=
  match w with WBytes data => SipHasher_Write h data | WWord data => SipHasher_Write_word h data end.

Fixpoint sip_run (h : SipHasher) (ws : list sip_write) : option SipHasher :=
  match ws with
  | [] => Some h
  | w :: ws => h ← sip_do h w; sip_run h ws
  end.

Definition write_bytes (w : sip_write) : list Z :=
  match w with WBytes data => data | WWord data => le_bytes 8 data end.

Definition write_ok (w : sip_write) : Prop :=
  match w with WBytes data => bytes_ok data | WWord data => u64_ok data end.

(** Words start at multiples of eight. *)
Fixpoint aligned (n : nat) (ws : list sip_write) : bool :=
  match ws with
  | [] => true
  | w :: ws =>
      match w with WWord _ => (n mod 8 =? 0)%nat | WBytes _ => true end && aligned (n + length (write_bytes w)) ws
  end.

Lemma sip_run_absorbed k0 k1 ws h msg :
  sip_absorbed k0 k1 h msg → Forall write_ok ws → Z.of_nat (length msg + length (ws ≫= write_bytes)) < 2 ^ 31 →
  if aligned (length msg) ws then ∃ h', sip_run h ws = Some h' ∧ sip_absorbed k0 k1 h' (msg ++ ws ≫= write_bytes)
  else sip_run h ws = None.
Proof.
  intros Habs Hok. revert h msg Habs. induction Hok as [|w ws Hw _ IH]; intros h msg Habs Hlen.
  - exists h. by rewrite app_nil_r.
  - change ((w :: ws) ≫= write_bytes) with (write_bytes w ++ ws ≫= write_bytes) in *. rewrite length_app in Hlen.
    assert (∀ h', sip_absorbed k0 k1 h' (msg ++ write_bytes w) → sip_do h w = Some h' →
      if aligned (length msg + length (write_bytes w)) ws
      then ∃ h', sip_run h (w :: ws) = Some h' ∧ sip_absorbed k0 k1 h' (msg ++ write_bytes w ++ ws ≫= write_bytes)
      else sip_run h (w :: ws) = None) as Hnext.
    { intros h' Habs' E. cbn [sip_run]. rewrite E. cbn [mbind option_bind]. rewrite <- length_app, app_assoc.
      apply IH; [done|]. rewrite length_app. lia. }
    destruct w as [data|d]; cbn [aligned andb write_bytes write_ok] in *.
    + destruct (sip_Write_absorbed k0 k1 data h msg Habs Hw ltac:(lia)) as (h' & E & Habs'). by apply (Hnext h').
    + rewrite length_le_bytes in *. destruct (Nat.eqb_spec (length msg mod 8) 0) as [Em|Em]; cbn [andb].
      * destruct (sip_word_absorbed k0 k1 h msg d Habs Hw Em ltac:(lia)) as (h' & E & Habs'). by apply (Hnext h').
      * cbn [sip_run sip_do]. unfold SipHasher_Write_word. rewrite (sa_count _ _ _ _ Habs).
        rewrite (proj2 (Z.eqb_neq _ _)) by divlia. done.
Qed.

(** ** [MurmurHash3] permutes the seeds *)

Definition unmurmur_finish (h size : Z) : Z :=
  let h := Z.lxor h (shr32 h 16) in
  let h := mul32 h 0x7ed1b41d in
  let h := Z.lxor (Z.lxor h (shr32 h 13)) (shr32 h 26) in
  let h := mul32 h 0xa5cb9243 in
  let h := Z.lxor h (shr32 h 16) in
  Z.lxor h size.

Definition unmurmur_block (h k1 : Z) : Z :=
  Z.lxor (ROTL32 (mul32 (wrap32 (h - 0xe6546b64)) 0xcccccccd) 19) (murmur_k k1).

Definition unmurmur (h : Z) (data : list Z) : Z :=
  let nblocks := (length data / 4)%nat in
  let h := unmurmur_finish h (wrap32 (Z.of_nat (length data))) in
  let h := murmur_tail h (drop (nblocks * 4) data) in
  foldr (λ i h, unmurmur_block h (le_value (take 4 (drop (i * 4) data)))) h (seq 0 nblocks).

Lemma mul32_inv x c d : u32_ok x → (c * d) mod 2 ^ 32 = 1 → mul32 (mul32 x c) d = x.
Proof.
  intros Hx Hcd. unfold mul32, wrap. rewrite Zmult_mod_idemp_l, <- Z.mul_assoc, <- Zmult_mod_idemp_r, Hcd, Z.mul_1_r.
  apply Z.mod_small, Hx.
Qed.

Lemma lxor_cancel x y : Z.lxor (Z.lxor x y) y = x.
Proof. by rewrite Z.lxor_assoc, Z.lxor_nilpotent, Z.lxor_0_r. Qed.

Lemma shiftr_big x n : u32_ok x → 32 <= n → Z.shiftr x n = 0.
Proof.
  intros Hx Hn. rewrite Z.shiftr_div_pow2 by lia. apply Z.div_small. unfold fits in Hx.
  pose proof (Z.pow_le_mono_r 2 32 n ltac:(lia) Hn). lia.
Qed.

(** A right shift by half the width or more undoes itself, one by a third needs two. *)
Lemma xorshift16_inv x : u32_ok x → let y := Z.lxor x (shr32 x 16) in Z.lxor y (shr32 y 16) = x.
Proof.
  intros Hx. unfold shr32. cbv zeta. rewrite Z.shiftr_lxor, Z.shiftr_shiftr by lia. cbn [Z.add Pos.add Pos.succ].
  rewrite (shiftr_big x (16 + 16)) by (done || lia). by rewrite Z.lxor_0_r, lxor_cancel.
Qed.

Lemma xorshift13_inv x : u32_ok x →
  let y := Z.lxor x (shr32 x 13) in Z.lxor (Z.lxor y (shr32 y 13)) (shr32 y 26) = x.
Proof.
  intros Hx. unfold shr32. cbv zeta. rewrite !Z.shiftr_lxor, !Z.shiftr_shiftr by lia.
  rewrite (shiftr_big x (13 + 26)), Z.lxor_0_r by (done || lia). change (13 + 13) with 26.
  rewrite <- (Z.lxor_assoc (Z.lxor x _)), lxor_cancel. apply lxor_cancel.
Qed.

Lemma mul32_ok x y : u32_ok (mul32 x y).
Proof. apply wrap_fits. lia. Qed.

Lemma xorshift_ok x n : 0 <= n → u32_ok x → u32_ok (Z.lxor x (shr32 x n)).
Proof. intros. apply lxor_fits; [lia|done|]. by apply shiftr_fits. Qed.

Lemma murmur_finish_inv h size : u32_ok h → u32_ok size → unmurmur_finish (murmur_finish h size) size = h.
Proof.
  intros Hh Hs. unfold unmurmur_finish, murmur_finish. assert (u32_ok (Z.lxor h size)) as H0 by (by apply lxor_fits).
  rewrite xorshift16_inv by apply mul32_ok. rewrite mul32_inv by (done || apply xorshift_ok; (lia || apply mul32_ok)).
  rewrite xorshift13_inv by apply mul32_ok. rewrite mul32_inv by (done || by apply xorshift_ok).
  rewrite xorshift16_inv by done. apply lxor_cancel.
Qed.

Lemma ROTL32_inv x : u32_ok x → ROTL32 (ROTL32 x 13) 19 = x ∧ u32_ok (ROTL32 x 13).
Proof.
  intros Hx. unfold ROTL32, shl32, shr32. destruct (rotl_arith 32 x 13 ltac:(lia) Hx) as [E Hok]. rewrite E.
  destruct (rotl_arith 32 _ 19 ltac:(lia) Hok) as [E' _]. rewrite E'. split; [|done]. clear E E' Hok.
  change (32 - 13) with 19. change (32 - 19) with 13. change (2 ^ 19) with 524288. change (2 ^ 13) with 8192.
  unfold fits in Hx. divlia.
Qed.

Lemma murmur_block_inv h k1 : u32_ok h → unmurmur_block (murmur_block h k1) k1 = h ∧ u32_ok (murmur_block h k1).
Proof.
  intros Hh. unfold murmur_block, unmurmur_block, add32. set (y := Z.lxor h (murmur_k k1)).
  assert (u32_ok y) as Hy by (apply lxor_fits; [lia|done|apply mul32_ok]). split; [|apply wrap_fits; lia].
  assert (wrap32 (wrap32 (mul32 (ROTL32 y 13) 5 + 0xe6546b64) - 0xe6546b64) = mul32 (ROTL32 y 13) 5) as ->.
  { pose proof (mul32_ok (ROTL32 y 13) 5) as H. unfold wrap. rewrite Zminus_mod_idemp_l.
    rewrite Z.add_simpl_r. by apply Z.mod_small. }
  destruct (ROTL32_inv y Hy) as [E Hr]. rewrite mul32_inv, E by done. apply lxor_cancel.
Qed.

Lemma murmur_tail_inv h tail : u32_ok h → murmur_tail (murmur_tail h tail) tail = h ∧ u32_ok (murmur_tail h tail).
Proof.
  intros Hh. unfold murmur_tail. destruct tail as [|? [|? [|? [|? ?]]]]; cbn [length]; rewrite ?lxor_cancel;
    split; try done; (apply lxor_fits; [lia|done|apply mul32_ok]).
Qed.

(** Different seeds give different hashes of the same data. *)
Theorem MurmurHash3_permutes_seeds (seed : Z) (data : list Z) :
  u32_ok seed → unmurmur (MurmurHash3 seed data) data = seed.
Proof.
  intros Hs. unfold unmurmur, MurmurHash3. set (f := λ i, le_value (take 4 (drop (i * 4) data))).
  set (n := (length data / 4)%nat). set (tail := drop (n * 4) data).
  assert (∀ n, u32_ok (for_range 0 n (λ i h1, murmur_block h1 (f i)) seed) ∧
    foldr (λ i h, unmurmur_block h (f i)) (for_range 0 n (λ i h1, murmur_block h1 (f i)) seed) (seq 0 n) = seed) as Hn.
  { intros k. induction k as [|k [IHok IH]]; [done|]. rewrite for_range_S, seq_S, foldr_app. cbn [foldr Nat.add].
    destruct (murmur_block_inv _ (f k) IHok) as [-> Hok]. done. }
  destruct (Hn n) as [Hok E]. destruct (murmur_tail_inv _ tail Hok) as [Et Ht].
  rewrite murmur_finish_inv by (done || (apply wrap_fits; lia)). unfold f in *. by rewrite Et.
Qed.

(** ** Properties *)

(** [SipHasher] is SipHash-2-4 (the definition of its authors, rounds in two
    parallel halves, rotation by multiplication and division): any mix of byte
    and word writes in which words start at a multiple of eight bytes runs without
    a failed assertion, and [Finalize] is the hash of all bytes written; a word at
    any other position fails the assertion.  The nonce of node [id] is the hash
    of the randomizer identifier followed by [id], so two runs give the same
    nonces. *)
Theorem SipHasher_is_SipHash24 (k0 k1 : Z) (ws : list sip_write) (id : Z) :
  u64_ok k0 → u64_ok k1 → u64_ok id → Forall write_ok ws → Z.of_nat (length (ws ≫= write_bytes)) < 2 ^ 31 →
  SipHasher_Finalize <$> sip_run (SipHasher_new k0 k1) ws =
    (if aligned 0 ws then Some (SipSpec.siphash24 k0 k1 (ws ≫= write_bytes)) else None) ∧
  node_nonce id = Some (SipSpec.siphash24 0x0706050403020100 0x0F0E0D0C0B0A0908
                          (le_bytes 8 0xd93e69e2bbfa5735 ++ le_bytes 8 id)).
Proof.
  intros H0 H1 Hid Hok Hlen. split.
  - pose proof (sip_run_absorbed k0 k1 ws _ [] (sip_new_absorbed k0 k1 H0 H1) Hok Hlen) as H. cbn [length] in H.
    destruct (aligned 0 ws); [|by rewrite H]. destruct H as (h & -> & Habs). cbn [fmap option_fmap option_map].
    f_equal. by apply sip_Finalize_absorbed.
  - pose proof (sip_run_absorbed _ _ [WWord 0xd93e69e2bbfa5735; WWord id] _ []
      (sip_new_absorbed 0x0706050403020100 0x0F0E0D0C0B0A0908 ltac:(done) ltac:(done))) as H.
    destruct H as (h & E & Habs); [apply Forall_cons_2; [done|apply Forall_cons_2; [exact Hid|constructor]]|cbn [mbind list_bind write_bytes]; rewrite !length_app, !length_le_bytes; done|].
    cbn [mbind list_bind write_bytes] in Habs. rewrite app_nil_r, app_nil_l in Habs.
    unfold node_nonce. cbn [sip_run sip_do] in E.
    destruct (SipHasher_Write_word _ _) as [h1|]; [|done]. cbn [mbind option_bind] in *.
    destruct (SipHasher_Write_word h1 id) as [h2|]; [|done]. cbn [mbind option_bind] in *. injection E as ->.
    f_equal. by apply sip_Finalize_absorbed; [|rewrite length_app, !length_le_bytes].
Qed.

Lemma SipHasher_is_SipHash24_witness :
  SipHasher_Finalize <$> sip_run (SipHasher_new 0x0706050403020100 0x0F0E0D0C0B0A0908)
    [WWord 0x0706050403020100; WBytes [8; 9; 10]; WBytes [11; 12; 13; 14]] = Some 0xa129ca6149be45e5.
Proof.
  destruct (SipHasher_is_SipHash24 0x0706050403020100 0x0F0E0D0C0B0A0908
    [WWord 0x0706050403020100; WBytes [8; 9; 10]; WBytes [11; 12; 13; 14]] 1) as [H _].
  - apply (bool_decide_unpack _). vm_compute. exact I.
  - apply (bool_decide_unpack _). vm_compute. exact I.
  - apply (bool_decide_unpack _). vm_compute. exact I.
  - repeat constructor; apply (bool_decide_unpack _); vm_compute; exact I.
  - vm_compute. reflexivity.
  - rewrite H. vm_compute. reflexivity.
Defined.
