(* ===== verification/Sha256.v ===== *)
(** * SHA-256 on the CPU: [sha256_cpu.h], [sha256_cpu.cpp], [Hash::DoubleHash256]

    [Transform] is the unrolled compression loop of the source: 64 calls of
    [Round] whose argument lists rotate the registers [a..h] instead of moving
    them, over sixteen in-place schedule words.  Here the registers and the
    schedule words are arrays, the [i]-th call reads and writes the positions
    its argument list names, and the unrolling is the loop over [i].  It is
    proved equal to the compression function of FIPS 180-4, and the streaming
    interface ([Write], [Finalize]) to the one-shot hash of the concatenation. *)

From stdpp Require Import base list numbers decidable.
From S2P Require Import Prelude ArithUint256 Uint256 MdHash.

Open Scope Z_scope.

(** ** Bit functions *)

Definition ror32 (x n m : Z) : Z := Z.lor (shr32 x n) (shl32 x m).

Definition Ch (x y z : Z) : Z := Z.lxor z (Z.land x (Z.lxor y z)).
Definition Maj (x y z : Z) : Z := Z.lor (Z.land x y) (Z.land z (Z.lor x y)).
Definition Sigma0 (x : Z) : Z := Z.lxor (Z.lxor (ror32 x 2 30) (ror32 x 13 19)) (ror32 x 22 10).
Definition Sigma1 (x : Z) : Z := Z.lxor (Z.lxor (ror32 x 6 26) (ror32 x 11 21)) (ror32 x 25 7).
Definition sigma0 (x : Z) : Z := Z.lxor (Z.lxor (ror32 x 7 25) (ror32 x 18 14)) (shr32 x 3).
Definition sigma1 (x : Z) : Z := Z.lxor (Z.lxor (ror32 x 17 15) (ror32 x 19 13)) (shr32 x 10).

(** The constants of the 64 calls, in order. *)
Definition round_constants : list Z :=
  mjoin [[0x428a2f98; 0x71374491; 0xb5c0fbcf; 0xe9b5dba5];
         [0x3956c25b; 0x59f111f1; 0x923f82a4; 0xab1c5ed5];
         [0xd807aa98; 0x12835b01; 0x243185be; 0x550c7dc3];
         [0x72be5d74; 0x80deb1fe; 0x9bdc06a7; 0xc19bf174];
         [0xe49b69c1; 0xefbe4786; 0x0fc19dc6; 0x240ca1cc];
         [0x2de92c6f; 0x4a7484aa; 0x5cb0a9dc; 0x76f988da];
         [0x983e5152; 0xa831c66d; 0xb00327c8; 0xbf597fc7];
         [0xc6e00bf3; 0xd5a79147; 0x06ca6351; 0x14292967];
         [0x27b70a85; 0x2e1b2138; 0x4d2c6dfc; 0x53380d13];
         [0x650a7354; 0x766a0abb; 0x81c2c92e; 0x92722c85];
         [0xa2bfe8a1; 0xa81a664b; 0xc24b8b70; 0xc76c51a3];
         [0xd192e819; 0xd6990624; 0xf40e3585; 0x106aa070];
         [0x19a4c116; 0x1e376c08; 0x2748774c; 0x34b0bcb5];
         [0x391c0cb3; 0x4ed8aa4a; 0x5b9cca4f; 0x682e6ff3];
         [0x748f82ee; 0x78a5636f; 0x84c87814; 0x8cc70208];
         [0x90befffa; 0xa4506ceb; 0xbef9a3f7; 0xc67178f2]].

(** [Initialize]. *)
Definition sha_init : list Z :=
  [0x6a09e667; 0xbb67ae85; 0x3c6ef372; 0xa54ff53a; 0x510e527f; 0x9b05688c; 0x1f83d9ab; 0x5be0cd19].

(** Element [i] of an array the code only indexes within its bounds. *)
Definition at_ (l : list Z) (i : nat) : Z := default 0 (l !! i).

(** ** One round, on the registers of the call *)

(** [Round(a, b, c, d, e, f, g, h, k)] returns the new [d] and [h]. *)
Definition Round (a b c d e f g h k : Z) : Z * Z :=
  let t1 := add32 (add32 (add32 h (Sigma1 e)) (Ch e f g)) k in
  let t2 := add32 (Sigma0 a) (Maj a b c) in
  (add32 d t1, add32 t1 t2).

(** The [j]-th argument of the [i]-th call is register [reg_of i j]: the first
    call is [Round(a, b, c, d, e, f, g, h, ..)], the second
    [Round(h, a, b, c, d, e, f, g, ..)], and so on. *)
Definition reg_of (i j : nat) : nat := ((j + 7 * i) mod 8)%nat.

Definition round_call (i : nat) (k : Z) (r : list Z) : list Z :=
  let v := λ j, at_ r (reg_of i j) in
  let '(d, h) := Round (v 0%nat) (v 1%nat) (v 2%nat) (v 3%nat) (v 4%nat) (v 5%nat) (v 6%nat) (v 7%nat) k in
  <[reg_of i 7 := h]> (<[reg_of i 3 := d]> r).

(** [ReadBE32(chunk + 4 * i)]. *)
Definition ReadBE32 (bs : list Z) (off : nat) : Z := be_value (take 4 (drop off bs)).

(** The schedule word of call [i]: read from the chunk, or updated in place by
    [w_i += sigma1(w_(i+14)) + w_(i+9) + sigma0(w_(i+1))], indices modulo 16. *)
Definition schedule_call (chunk : list Z) (i : nat) (w : list Z) : list Z :=
  if (i <? 16)%nat then <[i := ReadBE32 chunk (4 * i)]> w
  else
    let x := λ j, at_ w ((i + j) mod 16)%nat in
    <[(i mod 16)%nat := add32 (x 0%nat) (add32 (add32 (sigma1 (x 14%nat)) (x 9%nat)) (sigma0 (x 1%nat)))]> w.

Definition transform_step (chunk : list Z) (i : nat) (rw : list Z * list Z) : list Z * list Z :=
  let '(r, w) := rw in
  let w := schedule_call chunk i w in
  (round_call i (add32 (at_ round_constants i) (at_ w (i mod 16)%nat)) r, w).

(** One iteration of [while (blocks--)]; [w] starts uninitialised, each word is
    written before it is read. *)
Definition Transform_block (s chunk : list Z) : list Z :=
  let '(r, _) := for_range 0 64 (transform_step chunk) (s, replicate 16 0) in
  zip_with add32 s r.

Fixpoint Transform (s chunk : list Z) (blocks : nat) : list Z :=
  match blocks with
  | O => s
  | S n => Transform (Transform_block s chunk) (drop 64 chunk) n
  end.

(** ** The streaming interface: [class SHA256_CPU] *)

Record SHA256_CPU := mk_SHA256_CPU {
  sha_s : list Z;      (* uint32_t s[8] *)
  sha_buf : list Z;    (* unsigned char buf[64] *)
  sha_bytes : Z;       (* uint64_t bytes *)
}.

(** The constructor leaves [buf] as it is in memory. *)
Definition SHA256_CPU_new (buf : list Z) : SHA256_CPU := mk_SHA256_CPU sha_init buf 0.
Definition SHA256_CPU_Reset (st : SHA256_CPU) : SHA256_CPU := mk_SHA256_CPU sha_init (sha_buf st) 0.

(** The three parts of [Write]: fill the buffer and process it, process whole
    blocks of the input, keep the rest. *)
Definition Write_fill (st : SHA256_CPU) (data : list Z) (bufsize : Z) : SHA256_CPU * list Z * Z :=
  if negb (bufsize =? 0) && (64 <=? bufsize + Z.of_nat (length data)) then
    let n := Z.to_nat (64 - bufsize) in
    let buf := splice (sha_buf st) (Z.to_nat bufsize) (take n data) in
    (mk_SHA256_CPU (Transform (sha_s st) buf 1) buf (wrap64 (sha_bytes st + (64 - bufsize))),
     drop n data, 0)
  else (st, data, bufsize).

Definition Write_blocks (st : SHA256_CPU) (data : list Z) : SHA256_CPU * list Z :=
  if 64 <=? Z.of_nat (length data) then
    let blocks := (length data / 64)%nat in
    (mk_SHA256_CPU (Transform (sha_s st) data blocks) (sha_buf st)
       (wrap64 (sha_bytes st + 64 * Z.of_nat blocks)),
     drop (64 * blocks) data)
  else (st, data).

Definition SHA256_CPU_Write (st : SHA256_CPU) (data : list Z) : SHA256_CPU :=
  let '(st, data, bufsize) := Write_fill st data (sha_bytes st mod 64) in
  let '(st, data) := Write_blocks st data in
  if 0 <? Z.of_nat (length data) then
    mk_SHA256_CPU (sha_s st) (splice (sha_buf st) (Z.to_nat bufsize) data)
      (wrap64 (sha_bytes st + Z.of_nat (length data)))
  else st.

(** [WriteBE32] of the eight state words. *)
Definition write_state (s : list Z) : list Z := s ≫= be_bytes 4.

Definition sha_pad : list Z := 0x80 :: replicate 63 0.

(** [Finalize] returns the digest and leaves the object as the writes left it. *)
Definition SHA256_CPU_Finalize (st : SHA256_CPU) : list Z * SHA256_CPU :=
  let sizedesc := be_bytes 8 (wrap64 (Z.shiftl (sha_bytes st) 3)) in
  let st := SHA256_CPU_Write st (take (Z.to_nat (1 + (119 - sha_bytes st mod 64) mod 64)) sha_pad) in
  let st := SHA256_CPU_Write st sizedesc in
  (write_state (sha_s st), st).

(** ** [Hash::DoubleHash256] and [Hash::Hash256] *)

Definition DoubleHash256_Finalize (st : SHA256_CPU) : list Z * SHA256_CPU :=
  let '(buf, st) := SHA256_CPU_Finalize st in
  SHA256_CPU_Finalize (SHA256_CPU_Write (SHA256_CPU_Reset st) buf).

Definition Hash256 (data : list Z) : list Z :=
  (DoubleHash256_Finalize (SHA256_CPU_Write (SHA256_CPU_new (replicate 64 0)) data)).1.

(** [Hash::Hash]: a single SHA-256. *)
Definition Hash1 (data : list Z) : list Z :=
  (SHA256_CPU_Finalize (SHA256_CPU_Write (SHA256_CPU_new (replicate 64 0)) data)).1.

(** ** FIPS 180-4

    The standard's definitions, with the message schedule as a list that grows
    by one word per step and a working state that is shifted in every round. *)

Module FIPS.
Definition ROTR (n x : Z) : Z := Z.lor (Z.shiftr x n) (wrap32 (Z.shiftl x (32 - n))).
Definition Ch (x y z : Z) : Z := Z.lxor (Z.land x y) (Z.land (not32 x) z).
Definition Maj (x y z : Z) : Z := Z.lxor (Z.lxor (Z.land x y) (Z.land x z)) (Z.land y z).
Definition SIGMA0 (x : Z) : Z := Z.lxor (Z.lxor (ROTR 2 x) (ROTR 13 x)) (ROTR 22 x).
Definition SIGMA1 (x : Z) : Z := Z.lxor (Z.lxor (ROTR 6 x) (ROTR 11 x)) (ROTR 25 x).
Definition s0 (x : Z) : Z := Z.lxor (Z.lxor (ROTR 7 x) (ROTR 18 x)) (Z.shiftr x 3).
Definition s1 (x : Z) : Z := Z.lxor (Z.lxor (ROTR 17 x) (ROTR 19 x)) (Z.shiftr x 10).

(** [W_0 .. W_(n-1)] of a message block. *)
Fixpoint schedule (block : list Z) (n : nat) : list Z :=
  match n with
  | O => []
  | S t =>
      let W := schedule block t in
      W ++ [if (t <? 16)%nat then be_value (take 4 (drop (4 * t) block))
            else wrap32 (s1 (at_ W (t - 2)) + at_ W (t - 7) + s0 (at_ W (t - 15)) + at_ W (t - 16))]
  end.

Definition round (st : list Z) (KW : Z) : list Z :=
  match st with
  | [a; b; c; d; e; f; g; h] =>
      let T1 := h + SIGMA1 e + Ch e f g + KW in
      let T2 := SIGMA0 a + Maj a b c in
      [wrap32 (T1 + T2); a; b; c; wrap32 (d + T1); e; f; g]
  | _ => st
  end.

Definition rounds (n : nat) (st : list Z) (block : list Z) : list Z :=
  foldl round st (zip_with Z.add (take n round_constants) (schedule block n)).

Definition compress (st block : list Z) : list Z := zip_with add32 st (rounds 64 st block).

(** The digest of the blocks of a padded message. *)
Fixpoint digest (st : list Z) (msg : list Z) (blocks : nat) : list Z :=
  match blocks with
  | O => st
  | S n => digest (compress st (take 64 msg)) (drop 64 msg) n
  end.

(** The message, a one bit, the fewest zeros that leave room for the length,
    and the length in bits. *)
Definition pad (msg : list Z) : list Z :=
  msg ++ 0x80 :: replicate ((119 - length msg mod 64) mod 64)%nat 0 ++ be_bytes 8 (8 * Z.of_nat (length msg)).

Definition SHA256 (msg : list Z) : list Z :=
  digest sha_init (pad msg) (length (pad msg) / 64)%nat ≫= be_bytes 4.

(** The constants as the standard defines them: the first 32 bits of the fractional
    parts of the cube roots of the first 64 primes and of the square roots of the first
    eight. *)
Definition is_prime (n : nat) : bool := (2 <=? n)%nat && forallb (λ d, negb (n mod d =? 0)%nat) (seq 2 (n - 2)).
Definition primes : list Z := Z.of_nat <$> List.filter is_prime (seq 0 312).

(** The largest number below [2^40] whose cube is at most [n]. *)
Definition cube_root (n : Z) : Z :=
  foldl (λ r k, let r' := r + 2 ^ Z.of_nat k in if r' ^ 3 <=? n then r' else r) 0 (reverse (seq 0 40)).

Definition K : list Z := (λ p, cube_root (p * 2 ^ 96) mod 2 ^ 32) <$> primes.
Definition H0 : list Z := (λ p, Z.sqrt (p * 2 ^ 64) mod 2 ^ 32) <$> take 8 primes.
End FIPS.

(** The constants of the source, which the functions above share, are those. *)
Theorem constants_are_FIPS : round_constants = FIPS.K ∧ sha_init = FIPS.H0 ∧ length FIPS.primes = 64%nat.
Proof. split_and!; vm_compute; reflexivity. Qed.

(** The bit functions of the source are those of the standard. *)
Lemma Maj_fips x y z : Maj x y z = FIPS.Maj x y z.
Proof.
  apply Z.bits_inj'. intros n _. unfold Maj, FIPS.Maj.
  rewrite !Z.lxor_spec, !Z.lor_spec, !Z.land_spec, Z.lor_spec.
  by destruct (Z.testbit x n), (Z.testbit y n), (Z.testbit z n).
Qed.

Lemma Ch_fips x y z : u32_ok y → u32_ok z → Ch x y z = FIPS.Ch x y z.
Proof.
  intros Hy Hz. apply Z.bits_inj'. intros n Hn. unfold Ch, FIPS.Ch, not32.
  rewrite !Z.lxor_spec, !Z.land_spec, !Z.lxor_spec. change (2 ^ 32 - 1) with (Z.ones 32).
  destruct (Z.lt_ge_cases n 32).
  - rewrite Z.ones_spec_low by lia. by destruct (Z.testbit x n), (Z.testbit y n), (Z.testbit z n).
  - rewrite (testbit_fits 32 y n), (testbit_fits 32 z n) by done. by rewrite !andb_false_r.
Qed.

Lemma Round_fips a b c d e f g h k K w :
  u32_ok f → u32_ok g → k = add32 K w →
  FIPS.round [a; b; c; d; e; f; g; h] (K + w) =
    [(Round a b c d e f g h k).2; a; b; c; (Round a b c d e f g h k).1; e; f; g].
Proof.
  intros Hf Hg ->. unfold FIPS.round, Round. cbn [fst snd].
  rewrite Maj_fips, Ch_fips by done.
  change (FIPS.SIGMA1 e) with (Sigma1 e). change (FIPS.SIGMA0 a) with (Sigma0 a).
  f_equal; [|do 4 f_equal]; wrapped_sum.
Qed.

(** Which register plays which role in call [i]. *)
Lemma reg_of_lt i j : (reg_of i j < 8)%nat.
Proof. apply Nat.mod_upper_bound. lia. Qed.

Lemma reg_of_S i j : reg_of (S i) j = reg_of i (j + 7).
Proof. unfold reg_of. f_equal. lia. Qed.

Lemma reg_of_wrap i j : reg_of i (j + 8) = reg_of i j.
Proof.
  unfold reg_of. replace (j + 8 + 7 * i)%nat with (j + 7 * i + 1 * 8)%nat by lia.
  apply Nat.Div0.mod_add.
Qed.

Lemma reg_of_inj i j k : (j < 8)%nat → (k < 8)%nat → reg_of i j = reg_of i k → j = k.
Proof. unfold reg_of. intros. divlia. Qed.

Lemma at_insert_eq (l : list Z) i x : (i < length l)%nat → at_ (<[i:=x]> l) i = x.
Proof. intros. unfold at_. by rewrite list_lookup_insert_eq. Qed.

Lemma at_insert_ne (l : list Z) i j x : i ≠ j → at_ (<[i:=x]> l) j = at_ l j.
Proof. intros. unfold at_. by rewrite list_lookup_insert_ne. Qed.

Lemma at_app_l (l k : list Z) i : (i < length l)%nat → at_ (l ++ k) i = at_ l i.
Proof. intros. unfold at_. by rewrite lookup_app_l. Qed.

Lemma at_app_r (l : list Z) x : at_ (l ++ [x]) (length l) = x.
Proof. unfold at_. by rewrite lookup_app_r, Nat.sub_diag. Qed.

Lemma at_snoc (l : list Z) x n : length l = n → at_ (l ++ [x]) n = x.
Proof. intros <-. apply at_app_r. Qed.

(** A schedule that grows by one word per step keeps the words it has. *)
Definition grows (W : nat → list Z) : Prop := ∀ n, length (W n) = n ∧ ∃ x, W (S n) = W n ++ [x].

Lemma at_grows W i n m : grows W → (i < n)%nat → (n <= m)%nat → at_ (W m) i = at_ (W n) i.
Proof.
  intros HW Hi Hnm. induction Hnm as [|m Hnm IH]; [done|]. destruct (HW m) as (Hl & x & ->).
  rewrite <- IH. apply at_app_l. lia.
Qed.

(** What holds before call [i]: register [reg_of i j] is the [j]-th word of the
    standard's state, whose words are [ok], and the ring holds the last sixteen
    schedule words. *)
Definition regs_rel (ok : Z → Prop) (i : nat) (r st : list Z) : Prop :=
  length r = 8%nat ∧ length st = 8%nat ∧ Forall ok st ∧
  ∀ j, (j < 8)%nat → at_ r (reg_of i j) = at_ st j.

Definition ring_rel (i : nat) (w W : list Z) : Prop :=
  length w = 16%nat ∧ length W = i ∧
  ∀ j, (j < i <= j + 16)%nat → at_ w (j mod 16) = at_ W j.

Lemma list8 (l : list Z) :
  length l = 8%nat → ∃ a b c d e f g h, l = [a; b; c; d; e; f; g; h].
Proof. intros H. do 9 (destruct l as [|? l]; try done). by repeat eexists. Qed.

(** Writing the new [d] and [h] in place is the shift of the standard's state. *)
Lemma rotate_rel ok i r a b c d e f g h d' h' :
  regs_rel ok i r [a; b; c; d; e; f; g; h] → ok d' → ok h' →
  regs_rel ok (S i) (<[reg_of i 7 := h']> (<[reg_of i 3 := d']> r)) [h'; a; b; c; d'; e; f; g].
Proof.
  intros (Hr & Hst & Hok & Hreg) Hd' Hh'. do 8 apply Forall_cons_1 in Hok as [? Hok].
  split_and!; [by rewrite !length_insert|done| |].
  - by do 8 (apply Forall_cons_2; [done|]).
  - intros j Hj. rewrite reg_of_S. assert (reg_of i 3 ≠ reg_of i 7) by (intros ?%reg_of_inj; lia).
    destruct (decide (j = 0%nat)) as [->|].
    { rewrite at_insert_eq; [done|]. rewrite length_insert, Hr. apply reg_of_lt. }
    replace (j + 7)%nat with (j - 1 + 8)%nat by lia. rewrite reg_of_wrap.
    rewrite at_insert_ne by (intros ?%reg_of_inj; lia).
    destruct (decide (j = 4%nat)) as [->|].
    { rewrite at_insert_eq; [done|]. rewrite Hr. apply reg_of_lt. }
    rewrite at_insert_ne by (intros ?%reg_of_inj; lia). rewrite Hreg by lia.
    do 8 (destruct j as [|j]; [done|]). lia.
Qed.

(** The arguments of call [i] are the words of the state, in order. *)
Lemma regs_rel_args ok i r a b c d e f g h (P : Z → Z → Z → Z → Z → Z → Z → Z → Prop) :
  regs_rel ok i r [a; b; c; d; e; f; g; h] → P a b c d e f g h →
  let v := λ j, at_ r (reg_of i j) in
  P (v 0%nat) (v 1%nat) (v 2%nat) (v 3%nat) (v 4%nat) (v 5%nat) (v 6%nat) (v 7%nat).
Proof.
  intros (_ & _ & _ & Hreg) HP. cbv zeta beta. rewrite (Hreg 0%nat), (Hreg 1%nat), (Hreg 2%nat), (Hreg 3%nat),
    (Hreg 4%nat), (Hreg 5%nat), (Hreg 6%nat), (Hreg 7%nat) by lia. exact HP.
Qed.

Lemma round_call_rel i r st K w :
  regs_rel u32_ok i r st →
  regs_rel u32_ok (S i) (round_call i (add32 K w) r) (FIPS.round st (K + w)).
Proof.
  intros Hrel. pose proof Hrel as (_ & Hst & Hok & _).
  destruct (list8 _ Hst) as (a & b & c & d & e & f & g & h & ->).
  do 8 apply Forall_cons_1 in Hok as [? Hok].
  rewrite (Round_fips a b c d e f g h (add32 K w)) by done. unfold round_call.
  apply (regs_rel_args u32_ok i r a b c d e f g h (λ a' b' c' d' e' f' g' h',
    regs_rel u32_ok (S i) (let '(d1, h1) := Round a' b' c' d' e' f' g' h' (add32 K w) in _) _) Hrel).
  apply rotate_rel with d h; [done|apply wrap_fits; lia..].
Qed.

Lemma length_schedule block n : length (FIPS.schedule block n) = n.
Proof. induction n; simpl; [done|]. rewrite length_app, IHn. simpl. lia. Qed.

Lemma grows_schedule block : grows (FIPS.schedule block).
Proof. intros n. split; [apply length_schedule|]. cbn [FIPS.schedule]. by eexists. Qed.

Lemma mod16_inj i j : (i < j < i + 16)%nat → (i mod 16 ≠ j mod 16)%nat.
Proof. intros H E. divlia. Qed.

Lemma ring_rel_push i w W v :
  ring_rel i w W → ring_rel (S i) (<[(i mod 16)%nat := v]> w) (W ++ [v]).
Proof.
  intros (Hw & HW & Hring).
  split_and!; [by rewrite length_insert|rewrite length_app, HW; simpl; lia|].
  intros j Hj. destruct (decide (j = i)) as [->|].
  - rewrite at_insert_eq by (rewrite Hw; apply Nat.mod_upper_bound; lia).
    rewrite <- HW. by rewrite at_app_r.
  - rewrite at_insert_ne by (apply not_eq_sym, mod16_inj; lia).
    rewrite at_app_l by lia. apply Hring. lia.
Qed.

(** A word of the ring, sixteen steps back at most. *)
Lemma ring_rel_at i w W k :
  ring_rel i w W → (16 <= i)%nat → (k < 16)%nat → at_ w ((i + k) mod 16)%nat = at_ W (i + k - 16).
Proof. intros (_ & _ & Hring) ? ?. rewrite <- Hring by lia. f_equal. divlia. Qed.

Lemma schedule_call_rel chunk i w :
  ring_rel i w (FIPS.schedule chunk i) →
  ring_rel (S i) (schedule_call chunk i w) (FIPS.schedule chunk (S i)).
Proof.
  intros Hring.
  assert (∃ v, FIPS.schedule chunk (S i) = FIPS.schedule chunk i ++ [v] ∧
               schedule_call chunk i w = <[(i mod 16)%nat := v]> w) as (v & -> & ->).
  { cbn [FIPS.schedule]. unfold schedule_call, ReadBE32. eexists. split; [reflexivity|].
    destruct (Nat.ltb_spec i 16); [by rewrite Nat.mod_small|]. f_equal.
    rewrite !(ring_rel_at i w (FIPS.schedule chunk i)) by (done || lia). replace (i + 14 - 16)%nat with (i - 2)%nat by lia.
    replace (i + 9 - 16)%nat with (i - 7)%nat by lia. replace (i + 1 - 16)%nat with (i - 15)%nat by lia.
    replace (i + 0 - 16)%nat with (i - 16)%nat by lia.
    change FIPS.s1 with sigma1. change FIPS.s0 with sigma0. wrapped_sum. }
  by apply ring_rel_push.
Qed.

Lemma rounds_S n st block :
  (n < 64)%nat →
  FIPS.rounds (S n) st block =
    FIPS.round (FIPS.rounds n st block) (at_ round_constants n + at_ (FIPS.schedule block (S n)) n).
Proof.
  intros Hn. unfold FIPS.rounds, at_.
  destruct (lookup_lt_is_Some_2 round_constants n) as [k Hk]; [done|].
  rewrite (take_S_r _ _ k) by done. cbn [FIPS.schedule].
  rewrite zip_with_app by (rewrite length_schedule, length_take_le by (cbn; lia); done).
  rewrite foldl_app, Hk, lookup_app_r, length_schedule, Nat.sub_diag by (by rewrite length_schedule).
  done.
Qed.

(** The unrolled, register-rotating loop computes the compression function. *)
Lemma transform_loop_fips n s chunk :
  (n <= 64)%nat → length s = 8%nat → Forall u32_ok s →
  let rw := for_range 0 n (transform_step chunk) (s, replicate 16 0) in
  regs_rel u32_ok n rw.1 (FIPS.rounds n s chunk) ∧ ring_rel n rw.2 (FIPS.schedule chunk n).
Proof.
  intros Hn Hs Hok. apply (for_range_ind (λ i rw, regs_rel u32_ok i rw.1 (FIPS.rounds i s chunk) ∧
     ring_rel i rw.2 (FIPS.schedule chunk i)) 0 n).
  - split; [|split_and!; [done|done|intros; lia]].
    split_and!; [done..|]. intros j Hj. unfold reg_of.
    by rewrite Nat.mul_0_r, Nat.add_0_r, Nat.mod_small.
  - intros i [r' w'] Hi [HR HW]. cbn [transform_step fst snd] in *.
    apply schedule_call_rel in HW. split; [|done]. rewrite rounds_S by lia.
    destruct HW as (_ & _ & HW). rewrite (HW i) by lia. by apply round_call_rel.
Qed.

(** After a multiple of eight calls every register is back in its place. *)
Lemma regs_rel_done ok n r st : regs_rel ok (8 * n) r st → r = st.
Proof.
  intros (Hr & Hst & _ & Hreg). apply list_eq_same_length with 8%nat; [done..|].
  intros j x y Hj Hx Hy. specialize (Hreg j Hj). unfold at_, reg_of in Hreg.
  replace ((j + 7 * (8 * n)) mod 8)%nat with j in Hreg by divlia.
  by rewrite Hx, Hy in Hreg.
Qed.

Lemma Transform_block_fips s chunk :
  length s = 8%nat → Forall u32_ok s → Transform_block s chunk = FIPS.compress s chunk.
Proof.
  intros Hs Hok. unfold Transform_block, FIPS.compress.
  pose proof (transform_loop_fips 64 s chunk ltac:(lia) Hs Hok) as [HR _].
  destruct (for_range 0 64 (transform_step chunk) (s, replicate 16 0)) as [r w].
  by rewrite <- (regs_rel_done u32_ok 8 r (FIPS.rounds 64 s chunk)).
Qed.

Lemma length_rounds n st block : (n <= 64)%nat → length st = 8%nat → Forall u32_ok st →
  length (FIPS.rounds n st block) = 8%nat.
Proof. intros. by destruct (transform_loop_fips n st block) as [(_ & ? & _) _]. Qed.

Definition words_ok (s : list Z) : Prop := length s = 8%nat ∧ Forall u32_ok s.

Lemma compress_ok st block : words_ok st → words_ok (FIPS.compress st block).
Proof.
  intros [Hs Hok]. unfold FIPS.compress. split.
  - rewrite length_zip_with, length_rounds, Hs by (done || lia). done.
  - generalize (FIPS.rounds 64 st block). clear. induction st as [|x st IH]; intros [|y l]; simpl; try constructor.
    + apply wrap_fits. lia.
    + apply IH.
Qed.

Lemma Transform_block_ok s chunk : words_ok s → words_ok (Transform_block s chunk).
Proof. intros H. rewrite Transform_block_fips by apply H. by apply compress_ok. Qed.

(** ** Blocks *)

(** Only the 64 bytes of the block matter. *)
Lemma schedule_take block n : FIPS.schedule (take 64 block) n = FIPS.schedule block n.
Proof.
  induction n as [|n IH]; [done|]. cbn [FIPS.schedule]. rewrite IH. do 2 f_equal.
  destruct (Nat.ltb_spec n 16); [|done]. rewrite skipn_firstn_comm, take_take. do 2 f_equal. lia.
Qed.

Lemma compress_take st block : FIPS.compress st (take 64 block) = FIPS.compress st block.
Proof. unfold FIPS.compress, FIPS.rounds. by rewrite schedule_take. Qed.

Lemma Transform_fips s msg n : words_ok s → Transform s msg n = FIPS.digest s msg n.
Proof.
  revert s msg. induction n as [|n IH]; intros s msg Hs; [done|]. cbn [Transform FIPS.digest].
  rewrite Transform_block_fips, compress_take by apply Hs. apply IH. by apply compress_ok.
Qed.

Lemma Transform_ok s msg n : words_ok s → words_ok (Transform s msg n).
Proof.
  revert s msg. induction n as [|n IH]; intros s msg Hs; [done|]. apply IH. by apply Transform_block_ok.
Qed.

(** ** The streaming interface

    SHA-256 is one of the buffered block hashes: [sha256_md] is what sets it
    apart, and [absorbed st msg] says that the object has been given exactly the
    bytes [msg]. *)
Definition sha256_md : md_params := mk_md_params sha_init Transform_block (be_bytes 8) write_state 64 8.
#[export] Instance sha256_md_sizes : MdSizes sha256_md := or_introl (conj eq_refl eq_refl).

Definition of_md (st : md_state) : SHA256_CPU := mk_SHA256_CPU (md_s st) (md_buf st) (md_bytes st).
Definition as_md (st : SHA256_CPU) : md_state := mk_md_state (sha_s st) (sha_buf st) (sha_bytes st).

Definition absorbed (st : SHA256_CPU) (msg : list Z) : Prop :=
  md_absorbed sha256_md (sha_s st) (sha_buf st) (sha_bytes st) msg.

Lemma sha_init_ok : words_ok sha_init.
Proof. split; [done|]. repeat (apply Forall_cons_2; [done|]). done. Qed.

Lemma Transform_md s msg n : words_ok s → Transform s msg n = md_blocks sha256_md s msg n.
Proof.
  revert s msg. induction n as [|n IH]; intros s msg Hs; [done|]. cbn [Transform md_blocks].
  change (md_Transform sha256_md) with Transform_block.
  rewrite !Transform_block_fips, compress_take by apply Hs. apply IH. by apply compress_ok.
Qed.

Lemma absorbed_words st msg : absorbed st msg → words_ok (sha_s st).
Proof.
  intros (_ & -> & _). rewrite <- Transform_md by apply sha_init_ok. apply Transform_ok, sha_init_ok.
Qed.

Lemma Write_fill_absorbed st msg data :
  absorbed st msg → Z.of_nat (length (msg ++ data)) < 2 ^ 64 →
  ∃ st1 msg1 data1,
    Write_fill st data (sha_bytes st mod 64) = (st1, data1, Z.of_nat (length msg1 mod 64)) ∧
    absorbed st1 msg1 ∧ msg1 ++ data1 = msg ++ data ∧
    (length msg1 mod 64 = 0 ∨ length msg1 mod 64 + length data1 < 64)%nat.
Proof.
  intros Habs Hlen. pose proof (absorbed_words _ _ Habs) as Hw.
  destruct (md_fill_absorbed sha256_md (as_md st) msg data Habs Hlen) as (st1 & msg1 & data1 & E & Habs1 & Hr).
  exists (of_md st1), msg1, data1. split; [|by split].
  revert E. unfold md_fill, as_md, Write_fill. cbn [md_s md_buf md_bytes sha256_md md_block]. change (Z.of_nat 64) with 64.
  generalize (Z.of_nat (length msg1 mod 64)). intros b.
  destruct (negb _ && _); intros [= <- <- <-]; [|by destruct st].
  by rewrite Transform_md by done.
Qed.

Lemma Write_blocks_absorbed st msg data :
  absorbed st msg → Z.of_nat (length (msg ++ data)) < 2 ^ 64 →
  (length msg mod 64 = 0 ∨ length msg mod 64 + length data < 64)%nat →
  ∃ st1 msg1 data1,
    Write_blocks st data = (st1, data1) ∧ absorbed st1 msg1 ∧ msg1 ++ data1 = msg ++ data ∧
    (length msg1 mod 64 = length msg mod 64 ∧ length msg mod 64 + length data1 < 64)%nat.
Proof.
  intros Habs Hlen Hcase. unfold Write_blocks.
  destruct (Z.leb_spec 64 (Z.of_nat (length data))) as [Hge|Hlt].
  - set (n := (length data / 64)%nat). eexists _, (msg ++ take (64 * n) data), (drop (64 * n) data). split; [reflexivity|].
    split; [unfold absorbed; cbn [sha_s sha_buf sha_bytes];
      rewrite Transform_md by (by eapply absorbed_words); apply (md_absorb_blocks sha256_md); [exact Habs|cbn [sha256_md md_block]; lia|cbn [sha256_md md_block]; unfold n; divlia|done]|].
    rewrite <- app_assoc, take_drop, length_app, length_take_le, length_drop by (unfold n; divlia).
    unfold n. split; [done|]. divlia.
  - exists st, msg, data. split_and!; [done..|]. lia.
Qed.

Lemma Write_absorbed st msg data :
  absorbed st msg → Z.of_nat (length (msg ++ data)) < 2 ^ 64 →
  absorbed (SHA256_CPU_Write st data) (msg ++ data).
Proof.
  intros Habs Hlen. unfold SHA256_CPU_Write.
  destruct (Write_fill_absorbed st msg data) as (st1 & msg1 & data1 & -> & Habs1 & E1 & Hc); [done..|].
  rewrite <- E1 in *.
  destruct (Write_blocks_absorbed st1 msg1 data1) as (st2 & msg2 & data2 & -> & Habs2 & E2 & Hm & Hlt); [done..|].
  rewrite <- E2 in *. destruct (Z.ltb_spec 0 (Z.of_nat (length data2))) as [Hp|Hz].
  - rewrite <- Hm in *. rewrite Nat2Z.id. by apply (md_absorb_tail sha256_md).
  - destruct data2; [by rewrite app_nil_r|simpl in Hz; lia].
Qed.

(** ** [Finalize] is the padded hash of everything written *)

Lemma absorbed_new buf : length buf = 64%nat → absorbed (SHA256_CPU_new buf) [].
Proof. apply (md_absorbed_new sha256_md). Qed.

Lemma absorbed_Reset st msg : absorbed st msg → absorbed (SHA256_CPU_Reset st) [].
Proof. intros (_ & _ & ? & _). by apply absorbed_new. Qed.

Lemma Finalize_absorbed st msg :
  absorbed st msg → Z.of_nat (length msg) < 2 ^ 61 →
  ∃ st', SHA256_CPU_Finalize st = (FIPS.SHA256 msg, st') ∧ absorbed st' (FIPS.pad msg).
Proof.
  intros Habs Hlen. pose proof Habs as (Hb & _). unfold SHA256_CPU_Finalize.
  set (k := ((119 - length msg mod 64) mod 64)%nat).
  assert (take (Z.to_nat (1 + (119 - sha_bytes st mod 64) mod 64)) sha_pad = 0x80 :: replicate k 0) as ->.
  { replace (Z.to_nat _) with (S k) by (rewrite Hb; unfold k; divlia). unfold sha_pad.
    cbn [take firstn]. rewrite take_replicate. do 2 f_equal. unfold k. divlia. }
  assert (wrap64 (Z.shiftl (sha_bytes st) 3) = 8 * Z.of_nat (length msg)) as ->.
  { rewrite Hb, Z.shiftl_mul_pow2, wrap_id by (unfold fits; lia). lia. }
  assert (length (0x80 :: replicate k 0) = S k) as Ek by (cbn; by rewrite length_replicate).
  assert (k < 64)%nat by (unfold k; divlia).
  apply Write_absorbed with (data := 0x80 :: replicate k 0) in Habs; [|rewrite length_app, Ek; lia].
  apply Write_absorbed with (data := be_bytes 8 (8 * Z.of_nat (length msg))) in Habs;
    [|rewrite !length_app, Ek, length_be_bytes; lia].
  rewrite <- app_assoc, <- app_comm_cons in Habs. fold k in Habs.
  change (msg ++ _) with (FIPS.pad msg) in Habs.
  eexists. split; [|exact Habs]. f_equal. unfold write_state, FIPS.SHA256.
  destruct Habs as (_ & -> & _). by rewrite <- Transform_md, Transform_fips by apply sha_init_ok.
Qed.

Lemma length_SHA256 msg : length (FIPS.SHA256 msg) = 32%nat.
Proof.
  unfold FIPS.SHA256. rewrite <- Transform_fips by apply sha_init_ok.
  pose proof (Transform_ok sha_init (FIPS.pad msg) (length (FIPS.pad msg) / 64) sha_init_ok) as [Hl _].
  destruct (list8 _ Hl) as (? & ? & ? & ? & ? & ? & ? & ? & ->). reflexivity.
Qed.

Lemma length_write_state s : length (write_state s) = (4 * length s)%nat.
Proof.
  induction s as [|x s IH]; [done|]. change (write_state (x :: s)) with (be_bytes 4 x ++ write_state s).
  rewrite length_app, IH, length_be_bytes. cbn [length]. lia.
Qed.

Lemma write_state_ok s : bytes_ok (write_state s).
Proof.
  unfold write_state. induction s as [|x s IH]; [constructor|].
  change ((x :: s) ≫= be_bytes 4) with (be_bytes 4 x ++ s ≫= be_bytes 4).
  apply Forall_app. split; [apply be_bytes_ok|done].
Qed.

Lemma SHA256_bytes msg : bytes_ok (FIPS.SHA256 msg).
Proof. apply write_state_ok. Qed.

(** Feeding an object piece by piece. *)
Definition Write_all (st : SHA256_CPU) (pieces : list (list Z)) : SHA256_CPU :=
  foldl SHA256_CPU_Write st pieces.

Lemma Write_all_absorbed pieces st msg :
  absorbed st msg → Z.of_nat (length (msg ++ concat pieces)) < 2 ^ 64 →
  absorbed (Write_all st pieces) (msg ++ concat pieces).
Proof.
  revert st msg. induction pieces as [|p ps IH]; intros st msg Habs Hlen; cbn [Write_all foldl concat] in *.
  - by rewrite app_nil_r.
  - rewrite app_assoc in *. apply IH; [|done]. apply Write_absorbed; [done|].
    rewrite length_app in Hlen. lia.
Qed.

Lemma DoubleHash256_Finalize_absorbed st msg :
  absorbed st msg → Z.of_nat (length msg) < 2 ^ 61 →
  (DoubleHash256_Finalize st).1 = FIPS.SHA256 (FIPS.SHA256 msg).
Proof.
  intros Habs Hlen. unfold DoubleHash256_Finalize.
  destruct (Finalize_absorbed st msg Habs Hlen) as (st' & -> & Habs').
  apply absorbed_Reset, Write_absorbed with (data := FIPS.SHA256 msg) in Habs';
    [|rewrite app_nil_l, length_SHA256; lia].
  destruct (Finalize_absorbed _ _ Habs') as (st'' & -> & _); [|done].
  rewrite app_nil_l, length_SHA256. lia.
Qed.

Lemma Hash256_fips data :
  Z.of_nat (length data) < 2 ^ 61 → Hash256 data = FIPS.SHA256 (FIPS.SHA256 data).
Proof.
  intros. unfold Hash256. apply DoubleHash256_Finalize_absorbed; [|done].
  apply (Write_absorbed _ []); [by apply absorbed_new|]. rewrite app_nil_l. lia.
Qed.

Lemma length_Hash256 data : Z.of_nat (length data) < 2 ^ 61 → length (Hash256 data) = 32%nat.
Proof. intros. rewrite Hash256_fips by done. apply length_SHA256. Qed.

Lemma Hash1_fips data : Z.of_nat (length data) < 2 ^ 61 → Hash1 data = FIPS.SHA256 data.
Proof.
  intros Hlen. unfold Hash1.
  assert (absorbed (SHA256_CPU_Write (SHA256_CPU_new (replicate 64 0)) data) data) as Habs.
  { apply (Write_absorbed _ []); [by apply absorbed_new|]. rewrite app_nil_l. lia. }
  by destruct (Finalize_absorbed _ _ Habs Hlen) as (st & -> & _).
Qed.

(** ** Properties *)

(** the unrolled [Transform] of the source (rotating registers, schedule
    words updated in place) maps every state of eight 32-bit words and every
    input of [blocks] 64-byte chunks to what FIPS 180-4 computes from them. *)
Theorem Transform_is_FIPS (s chunk : list Z) (blocks : nat) :
  length s = 8%nat → Forall u32_ok s →
  Transform s chunk blocks = FIPS.digest s chunk blocks.
Proof. intros. by apply Transform_fips. Qed.

Lemma Transform_is_FIPS_witness :
  Transform sha_init (replicate 130 7) 2 = FIPS.digest sha_init (replicate 130 7) 2.
Proof. apply Transform_is_FIPS; apply sha_init_ok. Defined.

(** C20: [SHA256_CPU] is a streaming SHA-256: however a message of less than
    2^61 bytes is cut into [Write] calls, [Finalize] returns the FIPS 180-4
    digest of the whole message, and [DoubleHash256::Finalize] the digest of
    that digest. *)
Theorem SHA256_CPU_streaming (buf : list Z) (pieces : list (list Z)) :
  length buf = 64%nat → Z.of_nat (length (concat pieces)) < 2 ^ 61 →
  (SHA256_CPU_Finalize (Write_all (SHA256_CPU_new buf) pieces)).1 = FIPS.SHA256 (concat pieces) ∧
  (DoubleHash256_Finalize (Write_all (SHA256_CPU_new buf) pieces)).1 =
    FIPS.SHA256 (FIPS.SHA256 (concat pieces)).
Proof.
  intros Hbuf Hlen.
  assert (absorbed (Write_all (SHA256_CPU_new buf) pieces) (concat pieces)) as Habs.
  { apply (Write_all_absorbed pieces _ []); [by apply absorbed_new|]. rewrite app_nil_l. lia. }
  split; [|by apply DoubleHash256_Finalize_absorbed].
  by destruct (Finalize_absorbed _ _ Habs Hlen) as (? & -> & _).
Qed.

Lemma SHA256_CPU_streaming_witness :
  (SHA256_CPU_Finalize (Write_all (SHA256_CPU_new (replicate 64 0)) [[97]; [98; 99]])).1 =
    be_bytes 32 0xba7816bf8f01cfea414140de5dae2223b00361a396177a9cb410ff61f20015ad.
Proof.
  destruct (SHA256_CPU_streaming (replicate 64 0) [[97]; [98; 99]]) as [H _]; [done|done|].
  rewrite H. vm_compute. reflexivity.
Defined.
