(* ===== verification/Sha256D64.v ===== *)
(** * Double SHA-256 of 64-byte blocks: [sha256_cpu.cpp], [TransformD64], [SHA256D64], [SelfTest]

    [TransformD64] hashes one 64-byte input twice, with everything that does not
    depend on the input folded into constants: the second compression runs over
    the padding of a 64-byte message, the third over a 32-byte digest with its
    padding.  [SHA256D64] hashes a row of such inputs, eight, four or two at a
    time where such a routine is installed.  Both are proved equal to the double
    hash of every block, which is what the Merkle tree wants; [SelfTest], the
    test vectors of the source, passes. *)

From stdpp Require Import base list numbers decidable strings.
From S2P Require Import Prelude ArithUint256 Uint256 MdHash Sha256.

Open Scope Z_scope.

(** ** [TransformD64] *)

(** Transform 1 is [Transform] from the initial state, except that the last two
    words are not stored. *)
Definition d64_step1 (inp : list Z) (i : nat) (rw : list Z * list Z) : list Z * list Z :=
  let '(r, w) := rw in
  let w' := schedule_call inp i w in
  (round_call i (add32 (at_ round_constants i) (at_ w' (i mod 16)%nat)) r, if (i <? 62)%nat then w' else w).

(** The constants of Transform 2. *)
Definition d64_constants2 : list Z :=
  mjoin [[0xc28a2f98; 0x71374491; 0xb5c0fbcf; 0xe9b5dba5; 0x3956c25b; 0x59f111f1];
         [0x923f82a4; 0xab1c5ed5; 0xd807aa98; 0x12835b01; 0x243185be; 0x550c7dc3];
         [0x72be5d74; 0x80deb1fe; 0x9bdc06a7; 0xc19bf374; 0x649b69c1; 0xf0fe4786];
         [0x0fe1edc6; 0x240cf254; 0x4fe9346f; 0x6cc984be; 0x61b9411e; 0x16f988fa];
         [0xf2c65152; 0xa88e5a6d; 0xb019fc65; 0xb9d99ec7; 0x9a1231c3; 0xe70eeaa0];
         [0xfdb1232b; 0xc7353eb0; 0x3069bad5; 0xcb976d5f; 0x5a0f118f; 0xdc1eeefd];
         [0x0a35b689; 0xde0b7a04; 0x58f4ca9d; 0xe15d5b16; 0x007f3e86; 0x37088980];
         [0xa507ea32; 0x6fab9537; 0x17406110; 0x0d8cd6f1; 0xcdaa3b6d; 0xc0bbbe37];
         [0x83613bda; 0xdb48a363; 0x0b02e931; 0x6fd15ca7; 0x521afaca; 0x31338431];
         [0x6ed41a95; 0x6d437890; 0xc39c91f2; 0x9eccabbd; 0xb5c9a0e6; 0x532fb63c];
         [0xd2c741c6; 0x07237ea3; 0xa4954b68; 0x4c191d76]].

Definition d64_step2 (i : nat) (r : list Z) : list Z := round_call i (at_ d64_constants2 i) r.

(** Transform 3.  Calls 8 to 15 have constants of their own. *)
Definition d64_constants3 : list Z :=
  [0x5807aa98; 0x12835b01; 0x243185be; 0x550c7dc3; 0x72be5d74; 0x80deb1fe; 0x9bdc06a7; 0xc19bf274].

(** The words of calls 16 to 31, as they are written out. *)
Definition d64_word3 (i : nat) (w : list Z) : Z :=
  let x := at_ w in
  match i with
  | 16%nat => add32 (x 0%nat) (sigma0 (x 1%nat))
  | 17%nat => add32 (x 1%nat) (add32 0xa00000 (sigma0 (x 2%nat)))
  | 18%nat => add32 (x 2%nat) (add32 (sigma1 (x 0%nat)) (sigma0 (x 3%nat)))
  | 19%nat => add32 (x 3%nat) (add32 (sigma1 (x 1%nat)) (sigma0 (x 4%nat)))
  | 20%nat => add32 (x 4%nat) (add32 (sigma1 (x 2%nat)) (sigma0 (x 5%nat)))
  | 21%nat => add32 (x 5%nat) (add32 (sigma1 (x 3%nat)) (sigma0 (x 6%nat)))
  | 22%nat => add32 (x 6%nat) (add32 (add32 (sigma1 (x 4%nat)) 0x100) (sigma0 (x 7%nat)))
  | 23%nat => add32 (x 7%nat) (add32 (add32 (sigma1 (x 5%nat)) (x 0%nat)) 0x11002000)
  | 24%nat => add32 (add32 0x80000000 (sigma1 (x 6%nat))) (x 1%nat)
  | 25%nat => add32 (sigma1 (x 7%nat)) (x 2%nat)
  | 26%nat => add32 (sigma1 (x 8%nat)) (x 3%nat)
  | 27%nat => add32 (sigma1 (x 9%nat)) (x 4%nat)
  | 28%nat => add32 (sigma1 (x 10%nat)) (x 5%nat)
  | 29%nat => add32 (sigma1 (x 11%nat)) (x 6%nat)
  | 30%nat => add32 (add32 (sigma1 (x 12%nat)) (x 7%nat)) 0x400022
  | _ => add32 (add32 (add32 0x100 (sigma1 (x 13%nat))) (x 8%nat)) (sigma0 (x 0%nat))
  end.

Definition d64_step3 (i : nat) (rw : list Z * list Z) : list Z * list Z :=
  let '(r, w) := rw in
  if (i <? 8)%nat then (round_call i (add32 (at_ round_constants i) (at_ w i)) r, w)
  else if (i <? 16)%nat then (round_call i (at_ d64_constants3 (i - 8)) r, w)
  else
    let w' := if (i <? 32)%nat then <[(i mod 16)%nat := d64_word3 i w]> w else schedule_call [] i w in
    (round_call i (add32 (at_ round_constants i) (at_ w' (i mod 16)%nat)) r, if (i <? 62)%nat then w' else w).

Definition TransformD64 (inp : list Z) : list Z :=
  let '(r, w) := for_range 0 64 (d64_step1 inp) (sha_init, replicate 16 0) in
  let t := zip_with add32 r sha_init in
  let r := for_range 0 64 d64_step2 t in
  let w := zip_with add32 t r ++ drop 8 w in
  let '(r, _) := for_range 0 64 d64_step3 (sha_init, w) in
  write_state (zip_with add32 r sha_init).

(** ** [TransformD64Wrapper]: the same by three calls of a [Transform] *)

Definition padding1 : list Z := 0x80 :: replicate 61 0 ++ [2; 0].

Definition TransformD64Wrapper (tr : list Z → list Z → nat → list Z) (inp : list Z) : list Z :=
  let s := tr sha_init inp 1%nat in
  let s := tr s padding1 1%nat in
  let buffer2 := write_state s ++ 0x80 :: replicate 29 0 ++ [1; 0] in
  write_state (tr sha_init buffer2 1%nat).

(** ** [SHA256D64] *)

(** [while (blocks >= n) { f(out, in); out += 32 n; in += 64 n; blocks -= n; }], a
    null pointer skips the loop; [blocks] bounds the iterations. *)
Fixpoint d64_loop (fuel n : nat) (f : list Z → list Z) (out inp : list Z) (blocks : nat) : list Z * list Z * nat :=
  match fuel with
  | O => (out, inp, blocks)
  | S fuel =>
      if (n <=? blocks)%nat then d64_loop fuel n f (out ++ f inp) (drop (64 * n) inp) (blocks - n)
      else (out, inp, blocks)
  end.

Definition d64_way (way : option (list Z → list Z)) (n : nat) (st : list Z * list Z * nat) : list Z * list Z * nat :=
  let '(out, inp, blocks) := st in
  match way with
  | Some f => d64_loop blocks n f out inp blocks
  | None => st
  end.

Definition SHA256D64 (way8 way4 way2 : option (list Z → list Z)) (inp : list Z) (blocks : nat) : list Z :=
  let st := d64_way way2 2 (d64_way way4 4 (d64_way way8 8 ([], inp, blocks))) in
  (d64_way (Some TransformD64) 1 st).1.1.

(** ** [SelfTest] *)

Definition selftest_data : list Z :=
  mjoin (chars <$>
        ["-";
         "Lorem ipsum dolor sit amet, consectetur adipiscing elit, sed do ";
         "eiusmod tempor incididunt ut labore et dolore magna aliqua. Et m";
         "olestie ac feugiat sed lectus vestibulum mattis ullamcorper. Mor";
         "bi blandit cursus risus at ultrices mi tempus imperdiet nulla. N";
         "unc congue nisi vita suscipit tellus mauris. Imperdiet proin fer";
         "mentum leo vel orci. Massa tempor nec feugiat nisl pretium fusce";
         " id velit. Telus in metus vulputate eu scelerisque felis. Mi tem";
         "pus imperdiet nulla malesuada pellentesque. Tristique magna sit."]) ++ replicate 128 0.

Definition selftest_result : list (list Z) :=
  [[0x6a09e667; 0xbb67ae85; 0x3c6ef372; 0xa54ff53a; 0x510e527f; 0x9b05688c; 0x1f83d9ab; 0x5be0cd19];
   [0x91f8ec6b; 0x4da10fe3; 0x1c9c292c; 0x45e18185; 0x435cc111; 0x3ca26f09; 0xeb954cae; 0x402a7069];
   [0xcabea5ac; 0x374fb97c; 0x182ad996; 0x7bd69cbf; 0x450ff900; 0xc1d2be8a; 0x6a41d505; 0xe6212dc3];
   [0xbcff09d6; 0x3e76f36e; 0x3ecb2501; 0x78866e97; 0xe1c1e2fd; 0x32f4eaff; 0x8aa6c4e5; 0xdfc024bc];
   [0xa08c5d94; 0x0a862f93; 0x6b7f2f40; 0x8f9fae76; 0x6d40439f; 0x79dcee0c; 0x3e39ff3a; 0xdc3bdbb1];
   [0x216a0895; 0x9f1a3662; 0xe99946f9; 0x87ba4364; 0x0fb5db2c; 0x12bed3d3; 0x6689c0c7; 0x292f1b04];
   [0xca3067f8; 0xbc8c2656; 0x37cb7e0d; 0x9b6b8b0f; 0x46dc380b; 0xf1287f57; 0xc42e4b23; 0x3fefe94d];
   [0x3e4c4039; 0xbb6fca8c; 0x6f27d2f7; 0x301e44a4; 0x8352ba14; 0x5769ce37; 0x48a1155f; 0xc0e1c4c6];
   [0xfe2fa9dd; 0x69d0862b; 0x1ae0db23; 0x471f9244; 0xf55c0145; 0xc30f9c3b; 0x40a84ea0; 0x5b8a266c]].

Definition selftest_d64 : list Z :=
  mjoin (be_bytes 32 <$>
    [0x093ac4d00ff757e172857942fee7e0a0fc52d7db076345fb53147d172286f052;
     0x48b6119e6e48816dcc571fb297a8d5259b82aa89e2fd2d56e828830be2fa53b7;
     0xd66b078583b010a2f5513cf96003ab456c156eefb5ac3e6cdfb492222dcebf3e;
     0xe9e5f6290e014fd2d44565b3bbf24c1637503c6e498c5a892b1babc437d146e9;
     0x3d0e85a25073a15e5437d7941756c2d8e59fed4eae1542060d74745e2430ced1;
     0x9e50a39ab8f04a57697867128458bec736aaee7c64a376ecff5541002a44684d;
     0xb6539e1c95b7cadc7f7d74275c8ea684b5ac87a9f3ff75f234cd1a3b822c2b4e;
     0x6a4630a6898623acf8a515e90aaa1e9ad7936b28e43bfd59c6ed7c5fa541cb51]).

(** A test of an n-way routine is skipped when the pointer is null. *)
Definition selftest_way (way : option (list Z → list Z)) (n : nat) : bool :=
  match way with
  | Some f => bool_decide (f (drop 1 selftest_data) = take (32 * n) selftest_d64)
  | None => true
  end.

Definition SelfTest (way8 way4 way2 : option (list Z → list Z)) : bool :=
  forallb (λ i, bool_decide (Transform sha_init (drop 1 selftest_data) i = default [] (selftest_result !! i))) (seq 0 9) &&
  bool_decide (TransformD64 (drop 1 selftest_data) = take 32 selftest_d64) &&
  selftest_way way2 2 && selftest_way way4 4 && selftest_way way8 8.

(** ** Running the rounds of a block

    A loop whose call [i] adds the constant [K_i] and the word [W_i] of a block
    computes the rounds of that block, whatever else it keeps in [w]. *)
Section run.
Context {A : Type} (block s : list Z) (step : nat → list Z * A → list Z * A) (inv : nat → A → Prop).
Local Abbreviation W := (FIPS.schedule block 64).
Context (Hs : words_ok s).
Context (Hstep : ∀ i r w, (i < 64)%nat → inv i w →
  ∃ w', step i (r, w) = (round_call i (add32 (at_ round_constants i) (at_ W i)) r, w') ∧ inv (S i) w').

Lemma run_rounds n w :
  (n <= 64)%nat → inv 0 w →
  let rw := for_range 0 n step (s, w) in regs_rel u32_ok n rw.1 (FIPS.rounds n s block) ∧ inv n rw.2.
Proof.
  intros Hn Hw. apply (for_range_ind (λ i rw, regs_rel u32_ok i rw.1 (FIPS.rounds i s block) ∧ inv i rw.2) 0 n).
  - split; [|exact Hw]. destruct Hs as [Hl Hok]. split_and!; [exact Hl|exact Hl|exact Hok|]. intros j Hj. unfold reg_of.
    by rewrite Nat.mul_0_r, Nat.add_0_r, Nat.mod_small.
  - intros i [r w'] Hi [HR HI]. cbn [fst snd] in *. destruct (Hstep i r w' ltac:(lia) HI) as (w'' & -> & HI').
    split; [|done]. rewrite rounds_S by lia. rewrite (at_grows _ i (S i) 64) by (apply grows_schedule || lia).
    by apply round_call_rel.
Qed.

Lemma run_block w :
  inv 0 w → ∃ w', for_range 0 64 step (s, w) = (FIPS.rounds 64 s block, w') ∧ inv 64 w'.
Proof.
  intros Hw. destruct (run_rounds 64 w (le_n _) Hw) as [HR HI].
  destruct (for_range 0 64 step (s, w)) as [r w']. cbn [fst snd] in *.
  apply (regs_rel_done u32_ok 8) in HR. subst r. by eexists.
Qed.
End run.

(** ** The words of a block, recomputed in a ring that need not hold all of them *)

Definition ring (P : nat → Prop) (W : list Z) (m : nat) (w : list Z) : Prop :=
  length w = 16%nat ∧ ∀ j, P j → (j < m <= j + 16)%nat → at_ w (j mod 16) = at_ W j.

Lemma ring_push P W m w : ring P W m w → ring P W (S m) (<[(m mod 16)%nat := at_ W m]> w).
Proof.
  intros [Hl Hr]. split; [by rewrite length_insert|]. intros j HP Hj. destruct (decide (j = m)) as [->|].
  - apply at_insert_eq. rewrite Hl. apply Nat.mod_upper_bound. lia.
  - rewrite at_insert_ne by (apply not_eq_sym, mod16_inj; lia). apply Hr; [done|lia].
Qed.

Lemma ring_skip P W m w : ¬ P m → ring P W m w → ring P W (S m) w.
Proof. intros HP [Hl Hr]. split; [done|]. intros j Hj ?. apply Hr; [done|]. assert (j ≠ m) by (by intros ->). lia. Qed.

Lemma schedule_rec block i : (16 <= i < 64)%nat → let W := FIPS.schedule block 64 in
  at_ W i = wrap32 (sigma1 (at_ W (i - 2)) + at_ W (i - 7) + sigma0 (at_ W (i - 15)) + at_ W (i - 16)).
Proof.
  intros Hi W. unfold W. rewrite (at_grows _ i (S i) 64), !(at_grows _ _ i 64) by (apply grows_schedule || lia).
  cbn [FIPS.schedule]. rewrite (at_snoc _ _ i) by apply length_schedule. destruct (Nat.ltb_spec i 16); [lia|done].
Qed.

Lemma schedule_load block i : (i < 16)%nat → at_ (FIPS.schedule block 64) i = ReadBE32 block (4 * i).
Proof.
  intros Hi. rewrite (at_grows _ i (S i) 64) by (apply grows_schedule || lia). cbn [FIPS.schedule].
  rewrite (at_snoc _ _ i) by apply length_schedule. by destruct (Nat.ltb_spec i 16); [|lia].
Qed.

(** The in-place update gives [W_i] when the four words it reads are there. *)
Lemma schedule_call_word c block i w :
  let W := FIPS.schedule block 64 in
  (16 <= i < 64)%nat → length w = 16%nat →
  (∀ k, (k = 0 ∨ k = 1 ∨ k = 9 ∨ k = 14)%nat → at_ w ((i + k) mod 16)%nat = at_ W (i + k - 16)) →
  schedule_call c i w = <[(i mod 16)%nat := at_ W i]> w.
Proof.
  intros W Hi Hw Hat. unfold schedule_call. destruct (Nat.ltb_spec i 16); [lia|]. f_equal.
  rewrite !Hat by lia. unfold W. rewrite (schedule_rec block i Hi).
  replace (i + 14 - 16)%nat with (i - 2)%nat by lia. replace (i + 9 - 16)%nat with (i - 7)%nat by lia.
  replace (i + 1 - 16)%nat with (i - 15)%nat by lia. replace (i + 0 - 16)%nat with (i - 16)%nat by lia. generalize (FIPS.schedule block 64). intros V. wrapped_sum.
Qed.

(** The last two calls read no word that was not stored. *)
Lemma ring_reads P W i w k :
  ring P W (Nat.min i 62) w → (16 <= i < 64)%nat → (k = 0 ∨ k = 1 ∨ k = 9 ∨ k = 14)%nat → P (i + k - 16)%nat →
  at_ w ((i + k) mod 16)%nat = at_ W (i + k - 16).
Proof. intros [_ Hr] Hi Hk HP. rewrite <- Hr by (done || lia). f_equal. divlia. Qed.

Lemma at_mod_insert w i v : length w = 16%nat → at_ (<[(i mod 16)%nat := v]> w) (i mod 16) = v.
Proof. intros Hl. apply at_insert_eq. rewrite Hl. apply Nat.mod_upper_bound. lia. Qed.

(** ** Transform 1 *)

Lemma d64_step1_word inp i r w :
  (i < 64)%nat → ring (λ _, True) (FIPS.schedule inp 64) (Nat.min i 62) w →
  ∃ w', d64_step1 inp i (r, w) = (round_call i (add32 (at_ round_constants i) (at_ (FIPS.schedule inp 64) i)) r, w') ∧
        ring (λ _, True) (FIPS.schedule inp 64) (Nat.min (S i) 62) w'.
Proof.
  intros Hi Hring. pose proof Hring as [Hw _]. unfold d64_step1.
  assert (schedule_call inp i w = <[(i mod 16)%nat := at_ (FIPS.schedule inp 64) i]> w) as ->.
  { destruct (Nat.lt_ge_cases i 16).
    - unfold schedule_call. rewrite schedule_load, (proj2 (Nat.ltb_lt _ _)), Nat.mod_small by done. done.
    - apply schedule_call_word; [lia|done|]. intros k Hk. by apply (ring_reads (λ _, True)). }
  rewrite at_mod_insert by done. eexists. split; [reflexivity|]. destruct (Nat.ltb_spec i 62).
  - rewrite (Nat.min_l i) in Hring by lia. rewrite (Nat.min_l (S i)) by lia. by apply ring_push.
  - rewrite (Nat.min_r i) in Hring by lia. by rewrite (Nat.min_r (S i)) by lia.
Qed.

(** ** Transform 2: the constants are those of the padding block *)

Lemma d64_constants2_spec i :
  (i < 64)%nat → at_ d64_constants2 i = add32 (at_ round_constants i) (at_ (FIPS.schedule padding1 64) i).
Proof.
  intros Hi. assert (d64_constants2 = zip_with add32 round_constants (FIPS.schedule padding1 64)) as -> by (vm_compute; reflexivity).
  destruct (lookup_lt_is_Some_2 round_constants i) as [k Hk]; [done|].
  destruct (lookup_lt_is_Some_2 (FIPS.schedule padding1 64) i) as [x Hx]; [by rewrite length_schedule|].
  unfold at_. rewrite lookup_zip_with, Hk, Hx. done.
Qed.

Lemma d64_rounds2 t : words_ok t → for_range 0 64 d64_step2 t = FIPS.rounds 64 t padding1.
Proof.
  intros Ht. set (step := λ (i : nat) (ru : list Z * unit), (d64_step2 i ru.1, ru.2)).
  assert (∀ n, (for_range 0 n step (t, ())).1 = for_range 0 n d64_step2 t) as E.
  { intros n. induction n as [|n IH]; [done|]. by rewrite !for_range_S, <- IH. }
  rewrite <- E. destruct (run_block padding1 t step (λ _ _, True) Ht) with () as (u & -> & _); [|done|done].
  intros i r u' Hi _. exists u'. split; [|done]. unfold step, d64_step2. cbn [fst snd]. by rewrite d64_constants2_spec.
Qed.

(** ** Transform 3 *)

(** The block of the third compression. *)
Definition d64_block3 (s : list Z) : list Z := write_state s ++ 0x80 :: replicate 29 0 ++ [1; 0].

Lemma read_write_state s rest i : (i < length s)%nat → Forall u32_ok s → ReadBE32 (write_state s ++ rest) (4 * i) = at_ s i.
Proof.
  unfold ReadBE32. intros Hi Hok. revert i Hi. induction Hok as [|x s Hx _ IH]; intros i Hi; [cbn in Hi; lia|].
  change (write_state (x :: s)) with (be_bytes 4 x ++ write_state s). rewrite <- app_assoc. destruct i as [|i].
  - rewrite Nat.mul_0_r, drop_0, take_app_le, take_ge by (rewrite length_be_bytes; lia). rewrite be_value_be_bytes.
    apply Z.mod_small, Hx.
  - replace (4 * S i)%nat with (length (be_bytes 4 x) + 4 * i)%nat by (rewrite length_be_bytes; lia).
    rewrite <- drop_drop, drop_app_length. apply IH. cbn in Hi. lia.
Qed.

Lemma d64_block3_words s : words_ok s →
  let W := FIPS.schedule (d64_block3 s) 64 in
  (∀ i, (i < 8)%nat → at_ W i = at_ s i) ∧
  at_ W 8 = 0x80000000 ∧ (∀ i, (9 <= i < 15)%nat → at_ W i = 0) ∧ at_ W 15 = 0x100.
Proof.
  intros [Hl Hok] W. unfold W. destruct (list8 _ Hl) as (a & b & c & d & e & f & g & h & ->).
  do 8 apply Forall_cons_1 in Hok as [? Hok]. split_and!.
  - intros i Hi. rewrite schedule_load by lia.
    apply read_write_state; [cbn; lia|]. by repeat (apply Forall_cons_2; [done|]).
  - rewrite schedule_load by lia. reflexivity.
  - intros i Hi. rewrite schedule_load by lia.
    assert (i = 9 ∨ i = 10 ∨ i = 11 ∨ i = 12 ∨ i = 13 ∨ i = 14)%nat as [->|[->|[->|[->|[->| ->]]]]] by lia; reflexivity.
  - rewrite schedule_load by lia. reflexivity.
Qed.

(** The words the ring of Transform 3 leaves out are the constants 8 to 15. *)
Definition computed (j : nat) : Prop := (j < 8 ∨ 16 <= j)%nat.

Lemma sigma_constants :
  sigma0 0 = 0 ∧ sigma1 0 = 0 ∧ sigma1 0x100 = 0xa00000 ∧ sigma0 0x100 = 0x400022 ∧ sigma0 0x80000000 = 0x11002000.
Proof. by vm_compute. Qed.

(** The words written out with the constants folded in are those of the schedule. *)
Lemma d64_word3_spec s i w :
  words_ok s → (16 <= i < 32)%nat → ring computed (FIPS.schedule (d64_block3 s) 64) i w →
  d64_word3 i w = at_ (FIPS.schedule (d64_block3 s) 64) i.
Proof.
  intros Hs Hi [_ Hr]. destruct (d64_block3_words s Hs) as (_ & E8 & E0 & E15).
  pose proof (λ H, schedule_rec (d64_block3 s) i (conj (proj1 Hi) H)) as Erec.
  specialize (Erec ltac:(lia)). cbv zeta in Erec. rewrite Erec. clear Erec.
  revert Hr E8 E0 E15. generalize (FIPS.schedule (d64_block3 s) 64). intros W Hr E8 E0 E15.
  assert (∀ j k, (j mod 16 = k)%nat → computed j → (j < i <= j + 16)%nat → at_ W j = at_ w k) as Hw
    by (intros j k <- ? ?; symmetry; by apply Hr).
  destruct sigma_constants as (C1 & C2 & C3 & C4 & C5).
  assert (i = 16 ∨ i = 17 ∨ i = 18 ∨ i = 19 ∨ i = 20 ∨ i = 21 ∨ i = 22 ∨ i = 23 ∨ i = 24 ∨ i = 25 ∨ i = 26 ∨ i = 27 ∨
    i = 28 ∨ i = 29 ∨ i = 30 ∨ i = 31)%nat as Hcase by lia.
  clear Hr. repeat destruct Hcase as [->|Hcase]; try subst i; cbn [Nat.sub d64_word3];
    repeat match goal with |- context [at_ W ?j] =>
      first [rewrite E8 | rewrite E15 | rewrite (E0 j) by lia
            | let k := eval cbv in (j mod 16)%nat in rewrite (Hw j k) by (reflexivity || (unfold computed; lia))] end;
    rewrite ?C1, ?C2, ?C3, ?C4, ?C5; clear; wrapped_sum.
Qed.

Lemma d64_step3_word s i r w :
  let W := FIPS.schedule (d64_block3 s) 64 in
  words_ok s → (i < 64)%nat → ring computed W (Nat.max 8 (Nat.min i 62)) w →
  ∃ w', d64_step3 i (r, w) = (round_call i (add32 (at_ round_constants i) (at_ W i)) r, w') ∧
        ring computed W (Nat.max 8 (Nat.min (S i) 62)) w'.
Proof.
  intros W Hs Hi Hring. pose proof Hring as [Hw Hr]. pose proof (d64_block3_words s Hs) as (_ & E8 & E0 & E15).
  unfold d64_step3. destruct (Nat.ltb_spec i 8).
  { exists w. rewrite Nat.max_l in Hring, Hr by lia. rewrite Nat.max_l by lia. split; [|done]. do 3 f_equal.
    rewrite <- (Hr i) by (unfold computed; lia). by rewrite Nat.mod_small by lia. }
  destruct (Nat.ltb_spec i 16).
  { exists w. rewrite Nat.max_r, Nat.min_l in Hring by lia. rewrite Nat.max_r, Nat.min_l by lia.
    split; [|apply ring_skip; [unfold computed; lia|done]]. do 2 f_equal. subst W.
    revert E8 E0 E15. generalize (FIPS.schedule (d64_block3 s) 64). intros W E8 E0 E15.
    assert (i = 8 ∨ i = 15 ∨ (9 <= i < 15))%nat as [->|[->|H9]] by lia; [by rewrite E8|by rewrite E15|].
    rewrite E0 by done. assert (i = 9 ∨ i = 10 ∨ i = 11 ∨ i = 12 ∨ i = 13 ∨ i = 14)%nat as Hc by lia.
    by repeat destruct Hc as [->|Hc]; try subst i. }
  rewrite Nat.max_r in Hring by lia.
  assert ((if (i <? 32)%nat then <[(i mod 16)%nat := d64_word3 i w]> w else schedule_call [] i w) =
    <[(i mod 16)%nat := at_ W i]> w) as ->.
  { destruct (Nat.ltb_spec i 32).
    - rewrite (d64_word3_spec s); [done..|lia|]. by rewrite Nat.min_l in Hring by lia.
    - apply schedule_call_word; [lia|done|]. intros k Hk. apply (ring_reads computed); [done|lia|done|unfold computed; lia]. }
  rewrite at_mod_insert by done. eexists. split; [reflexivity|]. rewrite Nat.max_r by lia. destruct (Nat.ltb_spec i 62).
  - rewrite (Nat.min_l i) in Hring by lia. rewrite (Nat.min_l (S i)) by lia. by apply ring_push.
  - rewrite (Nat.min_r i) in Hring by lia. by rewrite (Nat.min_r (S i)) by lia.
Qed.

(** ** The digests of messages of 64 and of 32 bytes *)

Lemma SHA256_64 inp :
  length inp = 64%nat → FIPS.SHA256 inp = write_state (FIPS.compress (FIPS.compress sha_init inp) padding1).
Proof.
  intros Hl. unfold FIPS.SHA256. assert (FIPS.pad inp = inp ++ padding1) as -> by (unfold FIPS.pad; rewrite Hl; reflexivity).
  rewrite length_app, Hl. change ((64 + length padding1) / 64)%nat with 2%nat. cbn [FIPS.digest]. unfold write_state.
  rewrite take_app_le, take_ge, drop_app_le, drop_ge, app_nil_l by lia. by rewrite compress_take.
Qed.

Lemma SHA256_32 h :
  length h = 32%nat → FIPS.SHA256 h = write_state (FIPS.compress sha_init (h ++ 0x80 :: replicate 29 0 ++ [1; 0])).
Proof.
  intros Hl. unfold FIPS.SHA256.
  assert (FIPS.pad h = h ++ 0x80 :: replicate 29 0 ++ [1; 0]) as -> by (unfold FIPS.pad; rewrite Hl; reflexivity).
  rewrite length_app, Hl. change ((32 + length _) / 64)%nat with 1%nat. cbn [FIPS.digest]. unfold write_state. rewrite (compress_take sha_init (h ++ _)). reflexivity.
Qed.

Lemma zip_add32_comm (l k : list Z) : zip_with add32 l k = zip_with add32 k l.
Proof.
  revert k. induction l as [|x l IH]; intros [|y k]; cbn [zip_with]; f_equal; [|done]. unfold add32. f_equal. lia.
Qed.

Lemma compress_rounds s block : zip_with add32 s (FIPS.rounds 64 s block) = FIPS.compress s block.
Proof. reflexivity. Qed.

Lemma compress_flip s block : zip_with add32 (FIPS.rounds 64 s block) s = FIPS.compress s block.
Proof. rewrite zip_add32_comm. reflexivity. Qed.

(** The double hash of a 64-byte message in three compressions. *)
Lemma double_hash_64 inp :
  length inp = 64%nat →
  FIPS.SHA256 (FIPS.SHA256 inp) =
    write_state (FIPS.compress sha_init (d64_block3 (FIPS.compress (FIPS.compress sha_init inp) padding1))).
Proof.
  intros Hl. rewrite (SHA256_64 inp) by done. apply SHA256_32. rewrite length_write_state.
  destruct (compress_ok _ padding1 (compress_ok _ inp sha_init_ok)) as [-> _]. done.
Qed.

Lemma TransformD64_fips inp : TransformD64 inp =
  write_state (FIPS.compress sha_init (d64_block3 (FIPS.compress (FIPS.compress sha_init inp) padding1))).
Proof.
  unfold TransformD64.
  destruct (run_block inp sha_init (d64_step1 inp) (λ i w, ring (λ _, True) (FIPS.schedule inp 64) (Nat.min i 62) w) sha_init_ok)
    with (replicate 16 0) as (w & -> & [Hw _]); [exact (d64_step1_word inp)|split; [reflexivity|intros j _ Hj; lia]|].
  rewrite (compress_flip sha_init inp).
  pose proof (compress_ok _ inp sha_init_ok) as Ht. rewrite d64_rounds2 by done.
  set (t := FIPS.compress sha_init inp) in *. rewrite (compress_rounds t padding1).
  pose proof (compress_ok t padding1 Ht) as Hs. set (s := FIPS.compress t padding1) in *.
  destruct (run_block (d64_block3 s) sha_init d64_step3
    (λ i w, ring computed (FIPS.schedule (d64_block3 s) 64) (Nat.max 8 (Nat.min i 62)) w) sha_init_ok)
    with (s ++ drop 8 w) as (w' & -> & _); [intros i r w' Hi; exact (d64_step3_word s i r w' Hs Hi)| |].
  - destruct (d64_block3_words s Hs) as (E & _). destruct Hs as [Hl _]. split.
    + rewrite length_app, length_drop, Hl, Hw. done.
    + intros j Hj Hlt. assert (j < 8)%nat by (unfold computed in Hj; lia). rewrite Nat.mod_small by lia.
      rewrite at_app_l by lia. symmetry. by apply E.
  - by rewrite (compress_flip sha_init).
Qed.

(** ** [SHA256D64] hashes block after block *)

(** The double hash of every 64-byte block, by the streaming object. *)
Fixpoint double_hashes (n : nat) (inp : list Z) : list Z :=
  match n with
  | O => []
  | S n => Hash256 (take 64 inp) ++ double_hashes n (drop 64 inp)
  end.

Lemma TransformD64_Hash256 inp : (64 <= length inp)%nat → TransformD64 inp = Hash256 (take 64 inp).
Proof.
  intros Hl. rewrite Hash256_fips, double_hash_64 by (rewrite length_take_le; lia).
  by rewrite TransformD64_fips, compress_take.
Qed.

Lemma double_hashes_add m n inp : double_hashes (m + n) inp = double_hashes m inp ++ double_hashes n (drop (64 * m) inp).
Proof.
  revert inp. induction m as [|m IH]; intros inp; [by rewrite drop_0|]. cbn [double_hashes Nat.add].
  rewrite IH, <- app_assoc, drop_drop. do 4 f_equal. lia.
Qed.

(** What an installed n-way routine has to do. *)
Definition way_ok (n : nat) (way : option (list Z → list Z)) : Prop :=
  ∀ f, way = Some f → ∀ inp, (64 * n <= length inp)%nat → f inp = double_hashes n inp.

(** [st] has hashed the front of [inp0]: what is left gives the rest. *)
Definition d64_left (inp0 : list Z) (blocks0 : nat) (st : list Z * list Z * nat) : Prop :=
  let '(out, inp, blocks) := st in
  out ++ double_hashes blocks inp = double_hashes blocks0 inp0 ∧ (64 * blocks <= length inp)%nat.

Lemma d64_loop_left inp0 blocks0 fuel n f out inp blocks :
  (0 < n)%nat → way_ok n (Some f) → (blocks <= fuel)%nat → d64_left inp0 blocks0 (out, inp, blocks) →
  let st := d64_loop fuel n f out inp blocks in d64_left inp0 blocks0 st ∧ (st.2 < n)%nat.
Proof.
  intros Hn Hf. revert out inp blocks. induction fuel as [|fuel IH]; intros out inp blocks Hfuel Hleft.
  - split; [done|]. cbn. lia.
  - cbn [d64_loop]. destruct (Nat.leb_spec n blocks) as [Hle|Hlt]; [|done].
    destruct Hleft as [E Hl]. apply IH; [lia|]. split.
    + rewrite (Hf f eq_refl) by nia. rewrite <- E, <- app_assoc. f_equal.
      rewrite <- double_hashes_add. f_equal. lia.
    + rewrite length_drop. nia.
Qed.

Lemma d64_way_left inp0 blocks0 way n st :
  (0 < n)%nat → way_ok n way → d64_left inp0 blocks0 st → d64_left inp0 blocks0 (d64_way way n st).
Proof.
  intros Hn Hw Hl. destruct way as [f|], st as [[out inp] blocks]; [|done]. by apply d64_loop_left.
Qed.

Lemma TransformD64_way : way_ok 1 (Some TransformD64).
Proof. intros f [= <-] inp Hl. cbn [double_hashes]. rewrite app_nil_r. apply TransformD64_Hash256. lia. Qed.

Lemma Wrapper_fips inp :
  TransformD64Wrapper Transform inp =
    write_state (FIPS.compress sha_init (d64_block3 (FIPS.compress (FIPS.compress sha_init inp) padding1))).
Proof.
  unfold TransformD64Wrapper, d64_block3. pose proof (compress_ok _ inp sha_init_ok) as H1.
  rewrite (Transform_fips sha_init inp) by apply sha_init_ok. cbn [FIPS.digest]. rewrite compress_take.
  rewrite (Transform_fips (FIPS.compress sha_init inp)) by exact H1. cbn [FIPS.digest].
  rewrite (compress_take (FIPS.compress sha_init inp) padding1), Transform_fips by apply sha_init_ok. cbn [FIPS.digest].
  rewrite (compress_take sha_init (write_state _ ++ _)). reflexivity.
Qed.

(** The vectors of the self test are what the streaming object computes. *)
Lemma selftest_vectors :
  take 256 selftest_d64 = double_hashes 8 (drop 1 selftest_data) ∧
  forallb (λ i, bool_decide (Transform sha_init (drop 1 selftest_data) i = default [] (selftest_result !! i))) (seq 0 9) = true.
Proof. split; vm_compute; reflexivity. Qed.

Lemma selftest_prefix n : (n <= 8)%nat → take (32 * n) selftest_d64 = double_hashes n (drop 1 selftest_data).
Proof.
  intros Hn. destruct selftest_vectors as [E _]. replace 8%nat with (n + (8 - n))%nat in E by lia.
  rewrite double_hashes_add in E.
  assert (∀ k inp, length (double_hashes k inp) = 32 * k)%nat as Hl.
  { induction k as [|k IH]; intros inp; [done|]. cbn [double_hashes]. rewrite length_app, IH, length_Hash256; [lia|].
    rewrite length_take. lia. }
  apply (f_equal (take (32 * n))) in E. rewrite take_take, Nat.min_l in E by lia. rewrite E.
  rewrite take_app_le, take_ge by (rewrite Hl; lia). done.
Qed.

Lemma selftest_way_ok n way : (n <= 8)%nat → way_ok n way → selftest_way way n = true.
Proof.
  intros Hn Hw. destruct way as [f|]; [|done]. apply bool_decide_eq_true. rewrite selftest_prefix by done.
  apply Hw; [done|]. rewrite length_drop. change (length selftest_data) with 641%nat. lia.
Qed.

(** ** Properties *)

(** C21: [SHA256D64] writes, for every 64-byte block of its input in order, the
    double SHA-256 that the streaming object computes for it, whichever of the
    eight-, four- and two-way routines are installed, provided each of them hashes
    its blocks; [TransformD64] with its folded constants agrees with the wrapper
    that makes three calls of [Transform], and [SelfTest] passes with those
    routines. *)
Theorem SHA256D64_hashes_blocks (way8 way4 way2 : option (list Z → list Z)) (inp : list Z) (blocks : nat) :
  way_ok 8 way8 → way_ok 4 way4 → way_ok 2 way2 → (64 * blocks <= length inp)%nat →
  SHA256D64 way8 way4 way2 inp blocks = double_hashes blocks inp ∧
  TransformD64 inp = TransformD64Wrapper Transform inp ∧
  SelfTest way8 way4 way2 = true.
Proof.
  intros H8 H4 H2 Hl. split_and!.
  - unfold SHA256D64. assert (d64_left inp blocks ([], inp, blocks)) as H0 by done.
    apply (d64_way_left _ _ way8 8) in H0; [|lia|done]. apply (d64_way_left _ _ way4 4) in H0; [|lia|done].
    apply (d64_way_left _ _ way2 2) in H0; [|lia|done]. destruct (d64_way way2 2 _) as [[out inp'] blocks'].
    destruct (d64_loop_left inp blocks blocks' 1 TransformD64 out inp' blocks' ltac:(lia) TransformD64_way (le_n _) H0) as [H1 Hb].
    cbn [d64_way]. destruct (d64_loop _ _ _ _ _ _) as [[o i] b]. cbn [fst snd] in *. destruct H1 as [<- _].
    replace b with 0%nat by lia. by rewrite app_nil_r.
  - by rewrite TransformD64_fips, Wrapper_fips.
  - unfold SelfTest. destruct selftest_vectors as [_ ->]. rewrite !selftest_way_ok by (done || lia).
    rewrite bool_decide_true; [done|]. transitivity (double_hashes 1 (drop 1 selftest_data)); [|symmetry; apply (selftest_prefix 1); lia].
    apply TransformD64_way; [done|].
    rewrite length_drop. change (length selftest_data) with 641%nat. lia.
Qed.

(** A two-way routine made of two calls. *)
Definition two_calls (inp : list Z) : list Z := TransformD64 inp ++ TransformD64 (drop 64 inp).

Lemma SHA256D64_hashes_blocks_witness :
  SHA256D64 None None (Some two_calls) (replicate 192 7) 3 = double_hashes 3 (replicate 192 7).
Proof.
  destruct (SHA256D64_hashes_blocks None None (Some two_calls) (replicate 192 7) 3) as [H _].
  - intros f [=].
  - intros f [=].
  - intros f [= <-] l Hl. unfold two_calls. cbn [double_hashes].
    rewrite !TransformD64_Hash256, app_nil_r by (rewrite ?length_drop; lia). reflexivity.
  - rewrite length_replicate. lia.
  - exact H.
Defined.
