(* ===== verification/ChaCha20.v ===== *)
(** * The ChaCha20 stream cipher: [chacha20.h], [chacha20.cpp]

    [Keystream] writes whole blocks and the front of a last one, [Crypt] joins
    them to a message; both leave the block counter, two 32-bit words with the
    carry done by hand, behind the last block used.  They are proved to give the
    blocks of the cipher at consecutive 64-bit positions, the block function being
    that of the specification in its row form; so [Crypt] undoes itself. *)

From Stdlib Require Import ZifyNat.
From stdpp Require Import base list numbers decidable strings.
From S2P Require Import Prelude ArithUint256 Uint256 MdHash Sha256.

Open Scope Z_scope.

(** ** The block function of the source *)

Definition rotl32 (v c : Z) : Z := Z.lor (shl32 v c) (shr32 v (32 - c)).

(** [QUARTERROUND(a, b, c, d)] on four variables. *)
Definition QUARTERROUND (a b c d : Z) : Z * Z * Z * Z :=
  let a := add32 a b in let d := rotl32 (Z.lxor d a) 16 in
  let c := add32 c d in let b := rotl32 (Z.lxor b c) 12 in
  let a := add32 a b in let d := rotl32 (Z.lxor d a) 8 in
  let c := add32 c d in let b := rotl32 (Z.lxor b c) 7 in
  (a, b, c, d).

(** The macro applied to the variables [xa], [xb], [xc], [xd]. *)
Definition quarter_at (x : list Z) (ix : nat * nat * nat * nat) : list Z :=
  let '(a, b, c, d) := ix in
  let '(va, vb, vc, vd) := QUARTERROUND (at_ x a) (at_ x b) (at_ x c) (at_ x d) in
  <[d := vd]> (<[c := vc]> (<[b := vb]> (<[a := va]> x))).

(** The body of [for (i = 20; i > 0; i -= 2)]. *)
Definition double_calls : list (nat * nat * nat * nat) :=
  [(0, 4, 8, 12); (1, 5, 9, 13); (2, 6, 10, 14); (3, 7, 11, 15);
   (0, 5, 10, 15); (1, 6, 11, 12); (2, 7, 8, 13); (3, 4, 9, 14)]%nat.
Definition double_round (x : list Z) : list Z := foldl quarter_at x double_calls.

Definition chacha_words (j : list Z) : list Z := zip_with add32 (Nat.iter 10 double_round j) j.

(** ** [class ChaCha20]: [uint32_t input[16]] *)

Definition sigma : list Z := [101; 120; 112; 97; 110; 100; 32; 51; 50; 45; 98; 121; 116; 101; 32; 107].
Definition tau : list Z := [101; 120; 112; 97; 110; 100; 32; 49; 54; 45; 98; 121; 116; 101; 32; 107].

Definition ReadLE32 (bs : list Z) (off : nat) : Z := le_value (take 4 (drop off bs)).
Definition four_words (bs : list Z) : list Z := [ReadLE32 bs 0; ReadLE32 bs 4; ReadLE32 bs 8; ReadLE32 bs 12].

Definition SetKey (k : list Z) (keylen : Z) : list Z :=
  let low := four_words k in
  let '(k, constants) := if keylen =? 32 then (drop 16 k, sigma) else (k, tau) in
  four_words constants ++ low ++ four_words k ++ [0; 0; 0; 0].

Definition ChaCha20_empty : list Z := replicate 16 0.
Definition ChaCha20_new (k : list Z) (keylen : Z) : list Z := SetKey k keylen.

Definition SetIV (inp : list Z) (iv : Z) : list Z := <[15%nat := wrap32 (Z.shiftr iv 32)]> (<[14%nat := wrap32 iv]> inp).
Definition Seek (inp : list Z) (pos : Z) : list Z := <[13%nat := wrap32 (Z.shiftr pos 32)]> (<[12%nat := wrap32 pos]> inp).

(** [++j12; if (!j12) ++j13;]. *)
Definition next_block (j : list Z) : list Z :=
  let j12 := add32 (at_ j 12) 1 in
  let j := <[12%nat := j12]> j in
  if j12 =? 0 then <[13%nat := add32 (at_ j 13) 1]> j else j.

(** [input[12] = j12; input[13] = j13;]. *)
Definition keep_counter (inp j : list Z) : list Z := <[13%nat := at_ j 13]> (<[12%nat := at_ j 12]> inp).

(** The loop of [Keystream]; an iteration uses up 64 bytes, so [bytes] bounds it.
    What is short of a block goes through [tmp]. *)
Fixpoint keystream_loop (fuel : nat) (inp j out : list Z) (bytes : nat) : option (list Z * list Z) :=
  match fuel with
  | O => None
  | S fuel =>
      let block := chacha_words j ≫= le_bytes 4 in
      let j := next_block j in
      if (bytes <=? 64)%nat then Some (out ++ (if (bytes <? 64)%nat then take bytes block else block), keep_counter inp j)
      else keystream_loop fuel inp j (out ++ block) (bytes - 64)
  end.

Definition Keystream (inp : list Z) (bytes : nat) : option (list Z * list Z) :=
  if (bytes =? 0)%nat then Some ([], inp) else keystream_loop bytes inp inp [] bytes.

(** [x_i ^= ReadLE32(m + 4 i)]. *)
Definition xor_words (x m : list Z) : list Z :=
  zip_with Z.lxor x ((λ i, ReadLE32 m (4 * i)) <$> seq 0 16).

(** The loop of [Crypt]; [tmp] is a 64-byte buffer, what it holds at first is left
    open. *)
Fixpoint crypt_loop (fuel : nat) (tmp inp j m out : list Z) (bytes : nat) : option (list Z * list Z) :=
  match fuel with
  | O => None
  | S fuel =>
      let m' := if (bytes <? 64)%nat then splice tmp 0 (take bytes m) else m in
      let block := xor_words (chacha_words j) m' ≫= le_bytes 4 in
      let j := next_block j in
      if (bytes <=? 64)%nat then Some (out ++ (if (bytes <? 64)%nat then take bytes block else block), keep_counter inp j)
      else crypt_loop fuel tmp inp j (drop 64 m) (out ++ block) (bytes - 64)
  end.

Definition Crypt (tmp inp m : list Z) (bytes : nat) : option (list Z * list Z) :=
  if (bytes =? 0)%nat then Some ([], inp) else crypt_loop bytes tmp inp inp m [] bytes.

(** ** The specification *)

Module ChaChaSpec.
(** Four rows of four words; a quarter round works on a column. *)
Definition row : Type := Z * Z * Z * Z.
Definition rot1 (r : row) : row := let '(a, b, c, d) := r in (b, c, d, a).

Definition columns (m : row * row * row * row) : row * row * row * row :=
  let '((a0, a1, a2, a3), (b0, b1, b2, b3), (c0, c1, c2, c3), (d0, d1, d2, d3)) := m in
  let '(a0, b0, c0, d0) := QUARTERROUND a0 b0 c0 d0 in
  let '(a1, b1, c1, d1) := QUARTERROUND a1 b1 c1 d1 in
  let '(a2, b2, c2, d2) := QUARTERROUND a2 b2 c2 d2 in
  let '(a3, b3, c3, d3) := QUARTERROUND a3 b3 c3 d3 in
  ((a0, a1, a2, a3), (b0, b1, b2, b3), (c0, c1, c2, c3), (d0, d1, d2, d3)).

(** Row [i] turned left by [i] makes the diagonals columns. *)
Definition shift_rows (m : row * row * row * row) : row * row * row * row :=
  let '(r0, r1, r2, r3) := m in (r0, rot1 r1, rot1 (rot1 r2), rot1 (rot1 (rot1 r3))).
Definition unshift_rows (m : row * row * row * row) : row * row * row * row :=
  let '(r0, r1, r2, r3) := m in (r0, rot1 (rot1 (rot1 r1)), rot1 (rot1 r2), rot1 r3).

Definition double (m : row * row * row * row) : row * row * row * row :=
  unshift_rows (columns (shift_rows (columns m))).

Definition matrix (l : list Z) : row * row * row * row :=
  let r i := (at_ l (4 * i), at_ l (4 * i + 1), at_ l (4 * i + 2), at_ l (4 * i + 3))%nat in
  (r 0, r 1, r 2, r 3)%nat.
Definition flat (m : row * row * row * row) : list Z :=
  let l (r : row) := let '(a, b, c, d) := r in [a; b; c; d] in
  let '(r0, r1, r2, r3) := m in l r0 ++ l r1 ++ l r2 ++ l r3.

(** The 64 bytes at block position [pos] of the stream of [inp]. *)
Definition at_pos (inp : list Z) (pos : Z) : list Z :=
  take 12 inp ++ [pos mod 2 ^ 32; pos / 2 ^ 32 mod 2 ^ 32] ++ drop 14 inp.
Definition block (inp : list Z) (pos : Z) : list Z :=
  let j := at_pos inp pos in
  zip_with (λ x y, (x + y) mod 2 ^ 32) (flat (Nat.iter 10 double (matrix j))) j ≫= le_bytes 4.

(** [n] blocks from position [pos] on. *)
Fixpoint blocks (inp : list Z) (pos : Z) (n : nat) : list Z :=
  match n with O => [] | S n => block inp pos ++ blocks inp (pos + 1) n end.

(** The position the two counter words hold. *)
Definition position (inp : list Z) : Z := at_ inp 12 + 2 ^ 32 * at_ inp 13.
Definition needed (bytes : nat) : nat := ((bytes + 63) / 64)%nat.
Definition stream (inp : list Z) (bytes : nat) : list Z := take bytes (blocks inp (position inp) (needed bytes)).
End ChaChaSpec.

(** ** The block function *)

Lemma list16 (l : list Z) : length l = 16%nat →
  ∃ a b c d e f g h i j k m n o p q, l = [a; b; c; d; e; f; g; h; i; j; k; m; n; o; p; q].
Proof. intros H. do 17 (destruct l as [|? l]; try done). by repeat eexists. Qed.

#[local] Opaque QUARTERROUND.

(** One call of the macro whose result is known. *)
Ltac quarter_step E :=
  match goal with |- context [foldl quarter_at ?l (?ix :: ?rest)] =>
    let t := eval cbv -[QUARTERROUND] in (quarter_at l ix) in
    change (foldl quarter_at l (ix :: rest)) with (foldl quarter_at t rest); rewrite E; cbv beta iota end.

(** The eight calls on numbered variables are two rounds on columns, the second
    with the rows shifted. *)
Lemma double_round_spec x : length x = 16%nat → double_round x = ChaChaSpec.flat (ChaChaSpec.double (ChaChaSpec.matrix x)).
Proof.
  intros (a & b & c & d & e & f & g & h & i & j & k & m & n & o & p & q & ->)%list16.
  destruct (QUARTERROUND a e i n) as [[[a' e'] i'] n'] eqn:E1, (QUARTERROUND b f j o) as [[[b' f'] j'] o'] eqn:E2,
    (QUARTERROUND c g k p) as [[[c' g'] k'] p'] eqn:E3, (QUARTERROUND d h m q) as [[[d' h'] m'] q'] eqn:E4.
  destruct (QUARTERROUND a' f' k' q') as [[[? ?] ?] ?] eqn:E5, (QUARTERROUND b' g' m' n') as [[[? ?] ?] ?] eqn:E6,
    (QUARTERROUND c' h' i' o') as [[[? ?] ?] ?] eqn:E7, (QUARTERROUND d' e' j' p') as [[[? ?] ?] ?] eqn:E8.
  unfold double_round, double_calls. quarter_step E1. quarter_step E2. quarter_step E3. quarter_step E4.
  quarter_step E5. quarter_step E6. quarter_step E7. quarter_step E8.
  cbv -[QUARTERROUND]. rewrite E1, E2, E3, E4. cbv -[QUARTERROUND]. rewrite E5, E6, E7, E8. reflexivity.
Qed.

Lemma matrix_flat m : ChaChaSpec.matrix (ChaChaSpec.flat m) = m ∧ length (ChaChaSpec.flat m) = 16%nat.
Proof. by destruct m as [[[[[[a0 a1] a2] a3] [[[b0 b1] b2] b3]] [[[c0 c1] c2] c3]] [[[d0 d1] d2] d3]]. Qed.

Lemma flat_matrix x : length x = 16%nat → ChaChaSpec.flat (ChaChaSpec.matrix x) = x.
Proof. by intros (a & b & c & d & e & f & g & h & i & j & k & m & n & o & p & q & ->)%list16. Qed.

Lemma rounds_spec n x : length x = 16%nat →
  Nat.iter n double_round x = ChaChaSpec.flat (Nat.iter n ChaChaSpec.double (ChaChaSpec.matrix x)).
Proof.
  intros Hx. induction n as [|n IH]; [symmetry; by apply flat_matrix|]. rewrite !Nat.iter_succ, IH.
  destruct (matrix_flat (Nat.iter n ChaChaSpec.double (ChaChaSpec.matrix x))) as [E Hl].
  rewrite double_round_spec by done. by rewrite E.
Qed.

(** ** The counter *)

Definition state_ok (inp : list Z) : Prop := length inp = 16%nat ∧ Forall u32_ok inp.

Lemma at_pos_words inp pos : length inp = 16%nat →
  let j := ChaChaSpec.at_pos inp pos in
  length j = 16%nat ∧ at_ j 12 = pos mod 2 ^ 32 ∧ at_ j 13 = pos / 2 ^ 32 mod 2 ^ 32.
Proof. by intros (a & b & c & d & e & f & g & h & i & j & k & m & n & o & p & q & ->)%list16. Qed.

Lemma at_pos_block inp pos : length inp = 16%nat →
  chacha_words (ChaChaSpec.at_pos inp pos) ≫= le_bytes 4 = ChaChaSpec.block inp pos ∧ length (chacha_words (ChaChaSpec.at_pos inp pos)) = 16%nat.
Proof.
  intros Hl. destruct (at_pos_words inp pos Hl) as [Hj _]. unfold chacha_words, ChaChaSpec.block. rewrite rounds_spec by done.
  split; [done|]. rewrite length_zip_with, Hj. by rewrite (proj2 (matrix_flat _)).
Qed.

Lemma next_block_words pre x y post : length pre = 12%nat →
  next_block (pre ++ x :: y :: post) = pre ++ add32 x 1 :: (if add32 x 1 =? 0 then add32 y 1 else y) :: post.
Proof.
  intros Hl. do 13 (destruct pre as [|? pre]; try done). clear Hl.
  cbn [app]. unfold next_block. change (at_ _ 12) with x. destruct (add32 x 1 =? 0); reflexivity.
Qed.

Lemma next_block_spec inp pos : length inp = 16%nat → next_block (ChaChaSpec.at_pos inp pos) = ChaChaSpec.at_pos inp (pos + 1).
Proof.
  intros Hl. unfold ChaChaSpec.at_pos. cbn [app]. rewrite next_block_words by (rewrite length_take; lia).
  assert (add32 (pos mod 2 ^ 32) 1 = (pos + 1) mod 2 ^ 32) as -> by (unfold add32, wrap; apply Zplus_mod_idemp_l).
  do 3 f_equal. unfold add32, wrap. change (2 ^ 32) with 4294967296. rewrite Zplus_mod_idemp_l.
  destruct (Z.eqb_spec ((pos + 1) mod 4294967296) 0); f_equal; divlia.
Qed.

Lemma position_spec inp : state_ok inp → ChaChaSpec.at_pos inp (ChaChaSpec.position inp) = inp.
Proof.
  intros [(a & b & c & d & e & f & g & h & i & j & k & m & n & o & p & q & ->)%list16 Hok].
  do 12 apply Forall_cons_1 in Hok as [_ Hok]. apply Forall_cons_1 in Hok as [Hn Hok]. apply Forall_cons_1 in Hok as [Ho Hok].
  unfold ChaChaSpec.at_pos. cbn [take drop app]. change (ChaChaSpec.position _) with (n + 2 ^ 32 * o).
  unfold fits in *. change (2 ^ 32) with 4294967296 in *.
  replace ((n + 4294967296 * o) mod 4294967296) with n by divlia.
  replace ((n + 4294967296 * o) / 4294967296 mod 4294967296) with o by divlia. done.
Qed.

Lemma keep_counter_spec inp pos : length inp = 16%nat → keep_counter inp (ChaChaSpec.at_pos inp pos) = ChaChaSpec.at_pos inp pos.
Proof. by intros (a & b & c & d & e & f & g & h & i & j & k & m & n & o & p & q & ->)%list16. Qed.

(** ** The stream *)

Lemma length_words_bytes (l : list Z) : length (l ≫= le_bytes 4) = (4 * length l)%nat.
Proof.
  induction l as [|x l IH]; [done|]. change ((x :: l) ≫= le_bytes 4) with (le_bytes 4 x ++ l ≫= le_bytes 4).
  rewrite length_app, IH, length_le_bytes. cbn [length]. lia.
Qed.

Lemma length_block inp pos : length inp = 16%nat → length (ChaChaSpec.block inp pos) = 64%nat.
Proof. intros Hl. destruct (at_pos_block inp pos Hl) as [<- H]. by rewrite length_words_bytes, H. Qed.

Lemma length_blocks inp pos n : length inp = 16%nat → length (ChaChaSpec.blocks inp pos n) = (64 * n)%nat.
Proof. intros Hl. revert pos. induction n as [|n IH]; intros pos; [done|]. cbn [ChaChaSpec.blocks]. rewrite length_app, length_block, IH by done. lia. Qed.

(** A block and the rest of the stream. *)
Lemma take_blocks_more inp pos bytes : length inp = 16%nat → (64 < bytes)%nat →
  take bytes (ChaChaSpec.blocks inp pos (ChaChaSpec.needed bytes)) =
    ChaChaSpec.block inp pos ++ take (bytes - 64) (ChaChaSpec.blocks inp (pos + 1) (ChaChaSpec.needed (bytes - 64))) ∧
  ChaChaSpec.needed bytes = S (ChaChaSpec.needed (bytes - 64)).
Proof.
  intros Hl Hb. assert (ChaChaSpec.needed bytes = S (ChaChaSpec.needed (bytes - 64))) as E by (unfold ChaChaSpec.needed; divlia).
  split; [|done]. rewrite E. cbn [ChaChaSpec.blocks]. rewrite take_app, length_block by done. f_equal.
  apply take_ge. rewrite length_block by done. lia.
Qed.

Lemma take_blocks_last inp pos bytes : length inp = 16%nat → (0 < bytes <= 64)%nat →
  take bytes (ChaChaSpec.blocks inp pos (ChaChaSpec.needed bytes)) = take bytes (ChaChaSpec.block inp pos) ∧
  ChaChaSpec.needed bytes = 1%nat.
Proof.
  intros Hl Hb. assert (ChaChaSpec.needed bytes = 1%nat) as -> by (unfold ChaChaSpec.needed; divlia).
  split; [|done]. cbn [ChaChaSpec.blocks]. by rewrite app_nil_r.
Qed.

Lemma take_short {A} (l : list A) n : length l = 64%nat → (if (n <? 64)%nat then take n l else l) = take n l.
Proof. intros Hl. destruct (Nat.ltb_spec n 64); [done|]. symmetry. apply take_ge. lia. Qed.

Lemma keystream_loop_spec fuel inp pos out bytes :
  length inp = 16%nat → (0 < bytes <= fuel)%nat →
  keystream_loop fuel inp (ChaChaSpec.at_pos inp pos) out bytes =
    Some (out ++ take bytes (ChaChaSpec.blocks inp pos (ChaChaSpec.needed bytes)),
          ChaChaSpec.at_pos inp (pos + Z.of_nat (ChaChaSpec.needed bytes))).
Proof.
  intros Hl. revert pos out bytes. induction fuel as [|fuel IH]; intros pos out bytes Hb; [lia|]. cbn [keystream_loop].
  destruct (at_pos_block inp pos Hl) as [-> _]. rewrite next_block_spec by done. destruct (Nat.leb_spec bytes 64).
  - destruct (take_blocks_last inp pos bytes Hl ltac:(lia)) as [-> ->].
    rewrite take_short by (by apply length_block). by rewrite keep_counter_spec.
  - destruct (take_blocks_more inp pos bytes Hl ltac:(lia)) as [-> ->]. rewrite IH by lia.
    rewrite app_assoc. do 3 f_equal. lia.
Qed.

(** ** Joining a message to the stream *)

Lemma land_lxor_distr a b c : Z.land (Z.lxor a b) c = Z.lxor (Z.land a c) (Z.land b c).
Proof.
  apply Z.bits_inj'. intros n _. rewrite Z.land_spec, !Z.lxor_spec, !Z.land_spec.
  by destruct (Z.testbit a n), (Z.testbit b n), (Z.testbit c n).
Qed.

Lemma le_bytes_lxor n x l : length l = n → bytes_ok l →
  le_bytes n (Z.lxor x (le_value l)) = zip_with Z.lxor (le_bytes n x) l.
Proof.
  intros <- Hl. revert x. induction Hl as [|b l Hb Hl IH]; intros x; [done|]. cbn [length le_bytes le_value zip_with].
  assert ((b + 256 * le_value l) mod 256 = b ∧ (b + 256 * le_value l) / 256 = le_value l) as [E1 E2]
    by (unfold fits in Hb; change (2 ^ 8) with 256 in Hb; split; divlia).
  f_equal.
  - change 256 with (2 ^ 8). rewrite <- !Z.land_ones by lia. rewrite land_lxor_distr.
    rewrite !Z.land_ones by lia. change (2 ^ 8) with 256. by rewrite E1.
  - rewrite <- IH. f_equal. change 256 with (2 ^ 8). rewrite <- !Z.shiftr_div_pow2 by lia.
    rewrite Z.shiftr_lxor, !Z.shiftr_div_pow2 by lia. change (2 ^ 8) with 256. by rewrite E2.
Qed.

Lemma xor_block (x m : list Z) k : length x = k → (4 * k <= length m)%nat → bytes_ok m →
  zip_with Z.lxor x ((λ i, ReadLE32 m (4 * i)) <$> seq 0 k) ≫= le_bytes 4 = zip_with Z.lxor (x ≫= le_bytes 4) (take (4 * k) m).
Proof.
  intros <-. revert m. induction x as [|w x IH]; intros m Hm Hok; [done|].
  change ((w :: x) ≫= le_bytes 4) with (le_bytes 4 w ++ x ≫= le_bytes 4). cbn [length seq fmap list_fmap zip_with].
  change (([Z.lxor w (ReadLE32 m (4 * 0))] ++ ?l) ≫= le_bytes 4) with (le_bytes 4 (Z.lxor w (ReadLE32 m (4 * 0))) ++ l ≫= le_bytes 4).
  cbn [mbind list_bind]. rewrite <- fmap_S_seq, <- list_fmap_compose.
  rewrite (list_fmap_ext _ (λ i, ReadLE32 (drop 4 m) (4 * i)) (seq 0 (length x)))
    by (intros _ i _; cbn; unfold ReadLE32; rewrite drop_drop; do 4 f_equal; lia).
  change (foldr _ _ _) with (zip_with Z.lxor x ((λ i, ReadLE32 (drop 4 m) (4 * i)) <$> seq 0 (length x)) ≫= le_bytes 4).
  cbn [length] in Hm. rewrite (IH (drop 4 m)) by (by apply Forall_drop || (rewrite length_drop; lia)).
  unfold ReadLE32 at 1. rewrite Nat.mul_0_r, drop_0, le_bytes_lxor by (by apply Forall_take || (rewrite length_take; lia)).
  rewrite <- zip_with_app by (rewrite length_le_bytes, length_take; lia). f_equal.
  rewrite take_take_drop. f_equal. lia.
Qed.

Lemma take_zip_with {A B C} (f : A → B → C) n l k : take n (zip_with f l k) = zip_with f (take n l) (take n k).
Proof. revert l k. induction n as [|n IH]; intros [|x l] [|y k]; cbn; [done..|by rewrite IH]. Qed.

Lemma crypt_block inp pos m : length inp = 16%nat → (64 <= length m)%nat → bytes_ok m →
  xor_words (chacha_words (ChaChaSpec.at_pos inp pos)) m ≫= le_bytes 4 = zip_with Z.lxor (ChaChaSpec.block inp pos) (take 64 m).
Proof.
  intros Hl Hm Hok. destruct (at_pos_block inp pos Hl) as [<- Hw]. unfold xor_words. by apply (xor_block _ _ 16).
Qed.

Lemma crypt_loop_spec fuel tmp inp pos m out bytes :
  length inp = 16%nat → length tmp = 64%nat → bytes_ok tmp → bytes_ok m → (0 < bytes <= fuel)%nat → (bytes <= length m)%nat →
  crypt_loop fuel tmp inp (ChaChaSpec.at_pos inp pos) m out bytes =
    Some (out ++ zip_with Z.lxor (take bytes (ChaChaSpec.blocks inp pos (ChaChaSpec.needed bytes))) (take bytes m),
          ChaChaSpec.at_pos inp (pos + Z.of_nat (ChaChaSpec.needed bytes))).
Proof.
  intros Hl Ht Htok. revert pos m out bytes. induction fuel as [|fuel IH]; intros pos m out bytes Hok Hb Hm; [lia|].
  cbn [crypt_loop]. rewrite next_block_spec by done.
  set (m' := if (bytes <? 64)%nat then splice tmp 0 (take bytes m) else m).
  assert ((64 <= length m')%nat ∧ bytes_ok m' ∧ take bytes m' = take bytes m) as (Hm' & Hok' & Et).
  { subst m'. destruct (Nat.ltb_spec bytes 64); [|split; [lia|done]]. 
    split_and!; [rewrite length_splice; rewrite ?length_take; lia|change (splice tmp 0 ?l) with (l ++ drop (length l) tmp); apply Forall_app_2; [by apply Forall_take|by apply Forall_drop]|].
    change (splice tmp 0 ?l) with (l ++ drop (length l) tmp). rewrite take_app_le by (rewrite length_take_le; lia). rewrite take_take. f_equal. lia. }
  rewrite crypt_block by done. destruct (Nat.leb_spec bytes 64).
  - destruct (take_blocks_last inp pos bytes Hl ltac:(lia)) as [-> ->].
    rewrite take_short by (rewrite length_zip_with, length_block, length_take by done; lia).
    rewrite keep_counter_spec, take_zip_with, take_take, Nat.min_l, Et by (done || lia). done.
  - destruct (take_blocks_more inp pos bytes Hl ltac:(lia)) as [-> ->].
    assert (m' = m) as -> by (subst m'; destruct (Nat.ltb_spec bytes 64); [lia|done]).
    rewrite IH by (by apply Forall_drop || (rewrite ?length_drop; lia)). rewrite <- app_assoc.
    rewrite <- zip_with_app by (rewrite length_block, length_take by done; lia). do 3 f_equal; [|lia].
    rewrite take_take_drop. do 2 f_equal. lia.
Qed.

Lemma Keystream_spec inp bytes : state_ok inp →
  Keystream inp bytes = Some (ChaChaSpec.stream inp bytes,
    ChaChaSpec.at_pos inp (ChaChaSpec.position inp + Z.of_nat (ChaChaSpec.needed bytes))).
Proof.
  intros Hs. unfold Keystream, ChaChaSpec.stream. destruct (Nat.eqb_spec bytes 0) as [->|Hb].
  - change (ChaChaSpec.needed 0) with 0%nat. by rewrite Z.add_0_r, position_spec.
  - rewrite <- (position_spec inp Hs) at 2. rewrite keystream_loop_spec by (lia || apply Hs). done.
Qed.

Lemma Crypt_spec tmp inp m bytes : state_ok inp → length tmp = 64%nat → bytes_ok tmp → bytes_ok m → (bytes <= length m)%nat →
  Crypt tmp inp m bytes = Some (zip_with Z.lxor (ChaChaSpec.stream inp bytes) (take bytes m),
    ChaChaSpec.at_pos inp (ChaChaSpec.position inp + Z.of_nat (ChaChaSpec.needed bytes))).
Proof.
  intros Hs Ht Htok Hm Hb. unfold Crypt, ChaChaSpec.stream. destruct (Nat.eqb_spec bytes 0) as [->|H0].
  - change (ChaChaSpec.needed 0) with 0%nat. by rewrite Z.add_0_r, position_spec.
  - rewrite <- (position_spec inp Hs) at 2. rewrite crypt_loop_spec by (done || lia || apply Hs). done.
Qed.

Lemma zip_xor_twice (s m : list Z) : (length m <= length s)%nat → zip_with Z.lxor s (zip_with Z.lxor s m) = m.
Proof.
  revert m. induction s as [|x s IH]; intros [|y m] Hl; try done; cbn in *; [lia|].
  rewrite <- Z.lxor_assoc, Z.lxor_nilpotent, Z.lxor_0_l, IH by lia. done.
Qed.

Lemma length_stream inp bytes : length inp = 16%nat → length (ChaChaSpec.stream inp bytes) = bytes.
Proof. intros Hl. unfold ChaChaSpec.stream. rewrite length_take_le; [done|]. rewrite length_blocks by done. unfold ChaChaSpec.needed. divlia. Qed.

Lemma stream_bytes inp n : bytes_ok (ChaChaSpec.stream inp n).
Proof.
  apply Forall_take. generalize (ChaChaSpec.position inp), (ChaChaSpec.needed n). intros pos k. revert pos.
  induction k as [|k IH]; intros pos; [constructor|]. cbn [ChaChaSpec.blocks]. apply Forall_app_2; [|done].
  unfold ChaChaSpec.block. generalize (zip_with (λ x y, (x + y) mod 2 ^ 32) (ChaChaSpec.flat
    (Nat.iter 10 ChaChaSpec.double (ChaChaSpec.matrix (ChaChaSpec.at_pos inp pos)))) (ChaChaSpec.at_pos inp pos)).
  intros l. induction l as [|x l IHl]; [constructor|].
  change ((x :: l) ≫= le_bytes 4) with (le_bytes 4 x ++ l ≫= le_bytes 4). apply Forall_app_2; [apply le_bytes_ok|done].
Qed.

Lemma zip_xor_bytes (s m : list Z) : bytes_ok s → bytes_ok m → bytes_ok (zip_with Z.lxor s m).
Proof.
  intros Hs. revert m. induction Hs as [|x s Hx _ IH]; intros m Hm; [constructor|]. destruct Hm as [|y m Hy Hm]; constructor.
  - by apply lxor_fits.
  - by apply IH.
Qed.

Lemma four_words_ok bs : bytes_ok bs → Forall u32_ok (four_words bs).
Proof.
  intros Hb. assert (∀ off, u32_ok (ReadLE32 bs off)) as Hr.
  { intros off. assert (bytes_ok (take 4 (drop off bs))) as H by (by apply Forall_take, Forall_drop).
    pose proof (le_value_bound _ H) as Hv. rewrite length_take in Hv. unfold fits.
    assert (256 ^ Z.of_nat (Nat.min 4 (length (drop off bs))) <= 256 ^ 4) by (apply Z.pow_le_mono_r; lia).
    unfold ReadLE32. change (2 ^ 32) with (256 ^ 4). lia. }
  repeat constructor; apply Hr.
Qed.

Lemma SetKey_ok k keylen : bytes_ok k → state_ok (SetKey k keylen).
Proof.
  intros Hk. assert (bytes_ok sigma ∧ bytes_ok tau) as [Hs Ht].
  { split; apply (bool_decide_unpack _); vm_compute; exact I. }
  unfold SetKey. assert (Forall u32_ok [0; 0; 0; 0]) as H0 by (apply (bool_decide_unpack _); vm_compute; exact I).
  destruct (keylen =? 32); (split; [done|]); repeat apply Forall_app_2; try done; apply four_words_ok; try done.
  by apply Forall_drop.
Qed.

Lemma Seek_spec inp pos : length inp = 16%nat → u64_ok pos → Seek inp pos = ChaChaSpec.at_pos inp pos.
Proof.
  intros Hl Hpos. unfold Seek, wrap. rewrite Z.shiftr_div_pow2 by lia.
  by destruct (list16 _ Hl) as (a & b & c & d & e & f & g & h & i & j & k & m & n & o & p & q & ->).
Qed.

(** ** Properties *)

(** an object keyed with any bytes and moved to any 64-bit block position
    produces the ChaCha20 stream from there: [Keystream] gives its first [n]
    bytes, over as many blocks as that takes, and leaves the counter behind the
    last block used, carrying between its two words; [Crypt] joins the stream to
    the message by exclusive or, whatever the local buffer held, moves the counter
    in the same way, and applied to its own output from the same position gives the
    message back. *)
Theorem ChaCha20_stream_cipher (k : list Z) (keylen pos : Z) (tmp m : list Z) (n : nat) :
  bytes_ok k → u64_ok pos → length tmp = 64%nat → bytes_ok tmp → bytes_ok m →
  let inp := Seek (ChaCha20_new k keylen) pos in
  let after n := ChaChaSpec.at_pos inp (pos + Z.of_nat (ChaChaSpec.needed n)) in
  let cipher := zip_with Z.lxor (ChaChaSpec.stream inp (length m)) m in
  ChaChaSpec.stream inp n = take n (ChaChaSpec.blocks inp pos (ChaChaSpec.needed n)) ∧
  Keystream inp n = Some (ChaChaSpec.stream inp n, after n) ∧
  Crypt tmp inp m (length m) = Some (cipher, after (length m)) ∧
  Crypt tmp inp cipher (length m) = Some (m, after (length m)).
Proof.
  intros Hk Hpos Ht Htok Hm inp after cipher. destruct (SetKey_ok k keylen Hk) as [Hl Hok].
  assert (inp = ChaChaSpec.at_pos (ChaCha20_new k keylen) pos) as Ei by (by apply Seek_spec).
  assert (state_ok inp ∧ ChaChaSpec.position inp = pos) as [Hs Hp].
  { rewrite Ei. destruct (at_pos_words (ChaCha20_new k keylen) pos Hl) as (L & E12 & E13). split.
    - split; [done|]. apply Forall_app_2; [by apply Forall_take|]. apply Forall_app_2; [|by apply Forall_drop].
      repeat constructor; apply Z.mod_pos_bound; lia.
    - unfold ChaChaSpec.position. rewrite E12, E13. unfold fits in Hpos. change (2 ^ 32) with 4294967296.
      change (2 ^ 64) with 18446744073709551616 in Hpos. divlia. }
  assert (length (ChaChaSpec.stream inp (length m)) = length m) as Hls by (apply length_stream, Hs).
  split_and!.
  - unfold ChaChaSpec.stream. by rewrite Hp.
  - rewrite Keystream_spec, Hp by done. done.
  - rewrite Crypt_spec, Hp, take_ge by (done || lia). done.
  - rewrite Crypt_spec, Hp; try done.
    + rewrite take_ge by (unfold cipher; rewrite length_zip_with; lia). unfold cipher. by rewrite zip_xor_twice by lia.
    + apply zip_xor_bytes; [apply stream_bytes|done].
    + unfold cipher. rewrite length_zip_with. lia.
Qed.

Lemma ChaCha20_stream_cipher_witness :
  let inp := Seek (ChaCha20_new (replicate 32 0) 32) (2 ^ 32 - 1) in
  let cipher := zip_with Z.lxor (ChaChaSpec.stream inp 100) (replicate 100 65) in
  fst <$> Crypt (replicate 64 7) inp cipher 100 = Some (replicate 100 65) ∧
  ((λ st, at_ st 13) ∘ snd) <$> Keystream inp 100 = Some 1.
Proof.
  destruct (ChaCha20_stream_cipher (replicate 32 0) 32 (2 ^ 32 - 1) (replicate 64 7) (replicate 100 65) 100) as (_ & H2 & _ & H4).
  - apply (bool_decide_unpack _). vm_compute. exact I.
  - apply (bool_decide_unpack _). vm_compute. exact I.
  - reflexivity.
  - apply (bool_decide_unpack _). vm_compute. exact I.
  - apply (bool_decide_unpack _). vm_compute. exact I.
  - change (length (replicate 100 65)) with 100%nat in H4. cbv zeta. rewrite H4, H2. split; [reflexivity|]. vm_compute. reflexivity.
Defined.
