(* ===== verification/Sha512.v ===== *)
(** * SHA-512 and HMAC-SHA-512: [sha512.cpp], [hmac_sha512.cpp], [Hash::BIP32Hash]

    [sha512::Transform] is unrolled like the SHA-256 one: 80 calls of [Round]
    whose argument lists rotate the registers, over sixteen schedule words; the
    words of the last two calls are computed and not stored.  [CSHA512] is a
    buffered block hash with 128-byte chunks and a 16-byte length, so [Write],
    [Finalize] and [Reset] are those of [MdHash].  It is proved to compute the
    SHA-512 of FIPS 180-4, and [CHMAC_SHA512] the HMAC of RFC 2104 over it. *)

From stdpp Require Import base list numbers decidable.
From S2P Require Import Prelude ArithUint256 Uint256 MdHash Sha256.

Open Scope Z_scope.

Module sha512.

(** ** Bit functions *)

(** [x >> n | x << m]. *)
Definition ror64 (x n m : Z) : Z := Z.lor (Z.shiftr x n) (shl64 x m).

Definition Ch (x y z : Z) : Z := Z.lxor z (Z.land x (Z.lxor y z)).
Definition Maj (x y z : Z) : Z := Z.lor (Z.land x y) (Z.land z (Z.lor x y)).
Definition Sigma0 (x : Z) : Z := Z.lxor (Z.lxor (ror64 x 28 36) (ror64 x 34 30)) (ror64 x 39 25).
Definition Sigma1 (x : Z) : Z := Z.lxor (Z.lxor (ror64 x 14 50) (ror64 x 18 46)) (ror64 x 41 23).
Definition sigma0 (x : Z) : Z := Z.lxor (Z.lxor (ror64 x 1 63) (ror64 x 8 56)) (Z.shiftr x 7).
Definition sigma1 (x : Z) : Z := Z.lxor (Z.lxor (ror64 x 19 45) (ror64 x 61 3)) (Z.shiftr x 6).

(** [Round(a, b, c, d, e, f, g, h, k, w)] returns the new [d] and [h]. *)
Definition Round (a b c d e f g h k w : Z) : Z * Z :=
  let t1 := add64 (add64 (add64 (add64 h (Sigma1 e)) (Ch e f g)) k) w in
  let t2 := add64 (Sigma0 a) (Maj a b c) in
  (add64 d t1, add64 t1 t2).

Definition Initialize : list Z :=
  [0x6a09e667f3bcc908; 0xbb67ae8584caa73b; 0x3c6ef372fe94f82b; 0xa54ff53a5f1d36f1;
   0x510e527fade682d1; 0x9b05688c2b3e6c1f; 0x1f83d9abfb41bd6b; 0x5be0cd19137e2179].

(** The constants of the 80 calls, in order. *)
Definition constants : list Z :=
  mjoin [[0x428a2f98d728ae22; 0x7137449123ef65cd; 0xb5c0fbcfec4d3b2f];
         [0xe9b5dba58189dbbc; 0x3956c25bf348b538; 0x59f111f1b605d019];
         [0x923f82a4af194f9b; 0xab1c5ed5da6d8118; 0xd807aa98a3030242];
         [0x12835b0145706fbe; 0x243185be4ee4b28c; 0x550c7dc3d5ffb4e2];
         [0x72be5d74f27b896f; 0x80deb1fe3b1696b1; 0x9bdc06a725c71235];
         [0xc19bf174cf692694; 0xe49b69c19ef14ad2; 0xefbe4786384f25e3];
         [0x0fc19dc68b8cd5b5; 0x240ca1cc77ac9c65; 0x2de92c6f592b0275];
         [0x4a7484aa6ea6e483; 0x5cb0a9dcbd41fbd4; 0x76f988da831153b5];
         [0x983e5152ee66dfab; 0xa831c66d2db43210; 0xb00327c898fb213f];
         [0xbf597fc7beef0ee4; 0xc6e00bf33da88fc2; 0xd5a79147930aa725];
         [0x06ca6351e003826f; 0x142929670a0e6e70; 0x27b70a8546d22ffc];
         [0x2e1b21385c26c926; 0x4d2c6dfc5ac42aed; 0x53380d139d95b3df];
         [0x650a73548baf63de; 0x766a0abb3c77b2a8; 0x81c2c92e47edaee6];
         [0x92722c851482353b; 0xa2bfe8a14cf10364; 0xa81a664bbc423001];
         [0xc24b8b70d0f89791; 0xc76c51a30654be30; 0xd192e819d6ef5218];
         [0xd69906245565a910; 0xf40e35855771202a; 0x106aa07032bbd1b8];
         [0x19a4c116b8d2d0c8; 0x1e376c085141ab53; 0x2748774cdf8eeb99];
         [0x34b0bcb5e19b48a8; 0x391c0cb3c5c95a63; 0x4ed8aa4ae3418acb];
         [0x5b9cca4f7763e373; 0x682e6ff3d6b2b8a3; 0x748f82ee5defb2fc];
         [0x78a5636f43172f60; 0x84c87814a1f0ab72; 0x8cc702081a6439ec];
         [0x90befffa23631e28; 0xa4506cebde82bde9; 0xbef9a3f7b2c67915];
         [0xc67178f2e372532b; 0xca273eceea26619c; 0xd186b8c721c0c207];
         [0xeada7dd6cde0eb1e; 0xf57d4f7fee6ed178; 0x06f067aa72176fba];
         [0x0a637dc5a2c898a6; 0x113f9804bef90dae; 0x1b710b35131c471b];
         [0x28db77f523047d84; 0x32caab7b40c72493; 0x3c9ebe0a15c9bebc];
         [0x431d67c49c100d4c; 0x4cc5d4becb3e42b6; 0x597f299cfc657e2a];
         [0x5fcb6fab3ad6faec; 0x6c44198c4a475817]].

(** ** [Transform] *)

Definition ReadBE64 (bs : list Z) (off : nat) : Z := be_value (take 8 (drop off bs)).

(** The schedule word of call [i]: read from the chunk, or
    [w_i + sigma1(w_(i+14)) + w_(i+9) + sigma0(w_(i+1))], indices modulo 16. *)
Definition word (chunk : list Z) (i : nat) (w : list Z) : Z :=
  if (i <? 16)%nat then ReadBE64 chunk (8 * i)
  else
    let x := λ j, at_ w ((i + j) mod 16)%nat in
    add64 (x 0%nat) (add64 (add64 (sigma1 (x 14%nat)) (x 9%nat)) (sigma0 (x 1%nat))).

(** Call [i] stores the word it used, the last two calls do not. *)
Definition store_word (i : nat) (v : Z) (w : list Z) : list Z :=
  if (i <? 78)%nat then <[(i mod 16)%nat := v]> w else w.

Definition round_call (i : nat) (k v : Z) (r : list Z) : list Z :=
  let x := λ j, at_ r (reg_of i j) in
  let '(d, h) := Round (x 0%nat) (x 1%nat) (x 2%nat) (x 3%nat) (x 4%nat) (x 5%nat) (x 6%nat) (x 7%nat) k v in
  <[reg_of i 7 := h]> (<[reg_of i 3 := d]> r).

Definition transform_step (chunk : list Z) (i : nat) (rw : list Z * list Z) : list Z * list Z :=
  let '(r, w) := rw in
  let v := word chunk i w in
  (round_call i (at_ constants i) v r, store_word i v w).

Definition Transform (s chunk : list Z) : list Z :=
  let '(r, _) := for_range 0 80 (transform_step chunk) (s, replicate 16 0) in
  zip_with add64 s r.

(** What sets [CSHA512] apart from the other buffered hashes; [sizedesc] is
    sixteen bytes, the upper eight of them zero. *)
Definition params : md_params :=
  mk_md_params Initialize Transform (λ bits, replicate 8 0 ++ be_bytes 8 bits) (λ s, s ≫= be_bytes 8) 128 16.
End sha512.
#[export] Instance sha512_sizes : MdSizes sha512.params := or_intror (conj eq_refl eq_refl).

Definition CSHA512 : list Z → md_state := md_new sha512.params.
Definition CSHA512_Write : md_state → list Z → md_state := md_Write sha512.params.
Definition CSHA512_Finalize : md_state → list Z * md_state := md_Finalize sha512.params.
Definition CSHA512_Reset : md_state → md_state := md_Reset sha512.params.

(** ** [CHMAC_SHA512] *)

Record CHMAC_SHA512 := mk_CHMAC_SHA512 { outer : md_state; inner : md_state }.

(** The 128 bytes of [rkey]: the key padded with zeros, or its hash when it is
    longer than a chunk.  [mem] is what the buffers of the hash objects hold. *)
Definition hmac_rkey (mem : list Z) (key : list Z) : list Z :=
  if Z.of_nat (length key) <=? 128 then key ++ replicate (128 - length key) 0
  else (CSHA512_Finalize (CSHA512_Write (CSHA512 mem) key)).1 ++ replicate 64 0.

Definition CHMAC_SHA512_new (mem : list Z) (key : list Z) : CHMAC_SHA512 :=
  let rkey := hmac_rkey mem key in
  let rkey := (λ b, Z.lxor b 0x5c) <$> rkey in
  let outer := CSHA512_Write (CSHA512 mem) rkey in
  let rkey := (λ b, Z.lxor b (Z.lxor 0x5c 0x36)) <$> rkey in
  let inner := CSHA512_Write (CSHA512 mem) rkey in
  mk_CHMAC_SHA512 outer inner.

Definition CHMAC_SHA512_Write (h : CHMAC_SHA512) (data : list Z) : CHMAC_SHA512 :=
  mk_CHMAC_SHA512 (outer h) (CSHA512_Write (inner h) data).

Definition CHMAC_SHA512_Finalize (h : CHMAC_SHA512) : list Z * CHMAC_SHA512 :=
  let '(temp, inner) := CSHA512_Finalize (inner h) in
  let '(hash, outer) := CSHA512_Finalize (CSHA512_Write (outer h) temp) in
  (hash, mk_CHMAC_SHA512 outer inner).

(** [Hash::BIP32Hash]: the child number is written big-endian. *)
Definition BIP32Hash (mem chainCode : list Z) (nChild header : Z) (data : list Z) : list Z :=
  let num := [Z.land (Z.shiftr nChild 24) 0xFF; Z.land (Z.shiftr nChild 16) 0xFF;
              Z.land (Z.shiftr nChild 8) 0xFF; Z.land (Z.shiftr nChild 0) 0xFF] in
  let h := CHMAC_SHA512_new mem chainCode in
  let h := CHMAC_SHA512_Write h [header] in
  let h := CHMAC_SHA512_Write h (take 32 data) in
  let h := CHMAC_SHA512_Write h num in
  (CHMAC_SHA512_Finalize h).1.

(** ** The standards *)

Module FIPS512.
Definition ROTR (n x : Z) : Z := Z.lor (Z.shiftr x n) (wrap64 (Z.shiftl x (64 - n))).
Definition Ch (x y z : Z) : Z := Z.lxor (Z.land x y) (Z.land (Z.lxor x (2 ^ 64 - 1)) z).
Definition Maj (x y z : Z) : Z := Z.lxor (Z.lxor (Z.land x y) (Z.land x z)) (Z.land y z).
Definition SIGMA0 (x : Z) : Z := Z.lxor (Z.lxor (ROTR 28 x) (ROTR 34 x)) (ROTR 39 x).
Definition SIGMA1 (x : Z) : Z := Z.lxor (Z.lxor (ROTR 14 x) (ROTR 18 x)) (ROTR 41 x).
Definition s0 (x : Z) : Z := Z.lxor (Z.lxor (ROTR 1 x) (ROTR 8 x)) (Z.shiftr x 7).
Definition s1 (x : Z) : Z := Z.lxor (Z.lxor (ROTR 19 x) (ROTR 61 x)) (Z.shiftr x 6).

Fixpoint schedule (block : list Z) (n : nat) : list Z :=
  match n with
  | O => []
  | S t =>
      let W := schedule block t in
      W ++ [if (t <? 16)%nat then be_value (take 8 (drop (8 * t) block))
            else wrap64 (s1 (at_ W (t - 2)) + at_ W (t - 7) + s0 (at_ W (t - 15)) + at_ W (t - 16))]
  end.

Definition round (W : list Z) (t : nat) (st : list Z) : list Z :=
  match st with
  | [a; b; c; d; e; f; g; h] =>
      let T1 := h + SIGMA1 e + Ch e f g + at_ sha512.constants t + at_ W t in
      let T2 := SIGMA0 a + Maj a b c in
      [wrap64 (T1 + T2); a; b; c; wrap64 (d + T1); e; f; g]
  | _ => st
  end.

Definition compress (st block : list Z) : list Z :=
  zip_with add64 st (for_range 0 80 (round (schedule block 80)) st).

Definition SHA512 : list Z → list Z :=
  md_hash (mk_md_params sha512.Initialize compress (λ bits, be_bytes 16 bits) (λ s, s ≫= be_bytes 8) 128 16).

(** RFC 2104: [H(K xor opad, H(K xor ipad, text))], [K] one block long. *)
Definition hmac_key (key : list Z) : list Z :=
  let k := if (length key <=? 128)%nat then key else SHA512 key in
  k ++ replicate (128 - length k) 0.
Definition HMAC (key text : list Z) : list Z :=
  let K := hmac_key key in
  SHA512 (zip_with Z.lxor K (replicate 128 0x5c) ++ SHA512 (zip_with Z.lxor K (replicate 128 0x36) ++ text)).
End FIPS512.

(** ** The compression function *)

Lemma Maj512 x y z : sha512.Maj x y z = FIPS512.Maj x y z.
Proof. apply Maj_fips. Qed.

Lemma Ch512 x y z : u64_ok y → u64_ok z → sha512.Ch x y z = FIPS512.Ch x y z.
Proof.
  intros Hy Hz. apply Z.bits_inj'. intros n Hn. unfold sha512.Ch, FIPS512.Ch.
  rewrite !Z.lxor_spec, !Z.land_spec, !Z.lxor_spec. change (2 ^ 64 - 1) with (Z.ones 64).
  destruct (Z.lt_ge_cases n 64).
  - rewrite Z.ones_spec_low by lia. by destruct (Z.testbit x n), (Z.testbit y n), (Z.testbit z n).
  - rewrite (testbit_fits 64 y n), (testbit_fits 64 z n) by done. by rewrite !andb_false_r.
Qed.

Lemma Round512 W t a b c d e f g h :
  u64_ok f → u64_ok g →
  let dh := sha512.Round a b c d e f g h (at_ sha512.constants t) (at_ W t) in
  FIPS512.round W t [a; b; c; d; e; f; g; h] = [dh.2; a; b; c; dh.1; e; f; g].
Proof.
  intros Hf Hg. unfold FIPS512.round, sha512.Round. cbn [fst snd]. rewrite Maj512, Ch512 by done.
  change (FIPS512.SIGMA1 e) with (sha512.Sigma1 e). change (FIPS512.SIGMA0 a) with (sha512.Sigma0 a).
  generalize (at_ sha512.constants t). intros k. f_equal; [|do 4 f_equal]; wrapped_sum.
Qed.

Lemma round_call512 W i r st :
  regs_rel u64_ok i r st →
  regs_rel u64_ok (S i) (sha512.round_call i (at_ sha512.constants i) (at_ W i) r) (FIPS512.round W i st).
Proof.
  intros Hrel. pose proof Hrel as (_ & Hst & Hok & _).
  destruct (list8 _ Hst) as (a & b & c & d & e & f & g & h & ->).
  do 8 apply Forall_cons_1 in Hok as [? Hok]. rewrite Round512 by done. unfold sha512.round_call.
  generalize (at_ sha512.constants i), (at_ W i). intros k v.
  apply (regs_rel_args u64_ok i r a b c d e f g h (λ a' b' c' d' e' f' g' h',
    regs_rel u64_ok (S i) (let '(d1, h1) := sha512.Round a' b' c' d' e' f' g' h' k v in _) _) Hrel).
  apply rotate_rel with d h; [done|apply wrap_fits; lia..].
Qed.

Lemma length_schedule512 chunk n : length (FIPS512.schedule chunk n) = n.
Proof. induction n; [done|]. cbn [FIPS512.schedule]. rewrite length_app, IHn. cbn. lia. Qed.

Lemma grows_schedule512 chunk : grows (FIPS512.schedule chunk).
Proof. intros n. split; [apply length_schedule512|]. cbn [FIPS512.schedule]. by eexists. Qed.

(** The word that call [i] computes from the ring is [W_i]. *)
Lemma word512 chunk i w m :
  (i < 80)%nat → m = Nat.min i 78 → ring_rel m w (FIPS512.schedule chunk m) →
  sha512.word chunk i w = at_ (FIPS512.schedule chunk (S i)) i.
Proof.
  intros Hi Hm (_ & _ & Hring). cbn [FIPS512.schedule]. rewrite (at_snoc _ _ i) by apply length_schedule512.
  unfold sha512.word, sha512.ReadBE64. destruct (Nat.ltb_spec i 16); [done|].
  assert (∀ k, (k = 0 ∨ k = 1 ∨ k = 9 ∨ k = 14)%nat →
    at_ w ((i + k) mod 16)%nat = at_ (FIPS512.schedule chunk i) (i + k - 16)) as Hat.
  { intros k Hk. rewrite (at_grows _ _ m) by (apply grows_schedule512 || lia). rewrite <- Hring by lia. f_equal. divlia. }
  rewrite !Hat by lia. replace (i + 14 - 16)%nat with (i - 2)%nat by lia.
  replace (i + 9 - 16)%nat with (i - 7)%nat by lia. replace (i + 1 - 16)%nat with (i - 15)%nat by lia.
  replace (i + 0 - 16)%nat with (i - 16)%nat by lia.
  change FIPS512.s1 with sha512.sigma1. change FIPS512.s0 with sha512.sigma0. wrapped_sum.
Qed.

Lemma store_word512 chunk i w :
  (i < 80)%nat → ring_rel (Nat.min i 78) w (FIPS512.schedule chunk (Nat.min i 78)) →
  ring_rel (Nat.min (S i) 78) (sha512.store_word i (at_ (FIPS512.schedule chunk (S i)) i) w)
    (FIPS512.schedule chunk (Nat.min (S i) 78)).
Proof.
  intros Hi Hring. unfold sha512.store_word. destruct (Nat.ltb_spec i 78).
  - rewrite (Nat.min_l i) in Hring by lia. rewrite (Nat.min_l (S i)) by lia. apply ring_rel_push with (v := at_ (FIPS512.schedule chunk (S i)) i) in Hring.
    cbn [FIPS512.schedule] in *. rewrite (at_snoc _ _ i) in Hring |- * by apply length_schedule512. exact Hring.
  - rewrite (Nat.min_r i) in Hring by lia. by rewrite (Nat.min_r (S i)) by lia.
Qed.

(** The unrolled loop computes the compression function. *)
Lemma transform_loop512 n s chunk :
  (n <= 80)%nat → length s = 8%nat → Forall u64_ok s →
  let W := FIPS512.schedule chunk 80 in
  let rw := for_range 0 n (sha512.transform_step chunk) (s, replicate 16 0) in
  regs_rel u64_ok n rw.1 (for_range 0 n (FIPS512.round W) s) ∧
  ring_rel (Nat.min n 78) rw.2 (FIPS512.schedule chunk (Nat.min n 78)).
Proof.
  intros Hn Hs Hok W. apply (for_range_ind (λ i rw, regs_rel u64_ok i rw.1 (for_range 0 i (FIPS512.round W) s) ∧
     ring_rel (Nat.min i 78) rw.2 (FIPS512.schedule chunk (Nat.min i 78))) 0 n).
  - split; [|split_and!; [done|done|cbn; intros; lia]].
    split_and!; [done..|]. intros j Hj. unfold reg_of. by rewrite Nat.mul_0_r, Nat.add_0_r, Nat.mod_small.
  - intros i [r w] Hi [HR HW]. cbn [sha512.transform_step fst snd] in *.
    rewrite (word512 chunk i w (Nat.min i 78)) by (done || lia).
    split; [|apply store_word512; [lia|done]]. rewrite for_range_S.
    rewrite <- (at_grows _ i (S i) 80) by (apply grows_schedule512 || lia). by apply round_call512.
Qed.

Definition words64 (s : list Z) : Prop := length s = 8%nat ∧ Forall u64_ok s.

Lemma Transform512 s chunk : words64 s → sha512.Transform s chunk = FIPS512.compress s chunk ∧ words64 (sha512.Transform s chunk).
Proof.
  intros [Hs Hok]. unfold sha512.Transform, FIPS512.compress. destruct (transform_loop512 80 s chunk (le_n _) Hs Hok) as [HR _].
  destruct (for_range 0 80 (sha512.transform_step chunk) (s, replicate 16 0)) as [r w].
  cbn [fst] in HR. pose proof HR as (Hr & _). rewrite <- (regs_rel_done u64_ok 10 r _ HR). split; [done|]. split.
  - by rewrite length_zip_with, Hs, Hr.
  - clear. revert r. induction s as [|x s IH]; intros [|y l]; simpl; constructor; [apply wrap_fits; lia|apply IH].
Qed.

Lemma Initialize512_ok : words64 sha512.Initialize.
Proof. split; [done|]. repeat (apply Forall_cons_2; [done|]). done. Qed.

(** ** The streaming interface *)

Lemma SHA512_md msg :
  Z.of_nat (length msg) < 2 ^ 61 → md_hash sha512.params msg = FIPS512.SHA512 msg.
Proof.
  intros Hlen. apply (md_hash_ext _ _ _ words64); [done| |done|done|done|apply Initialize512_ok|].
  - cbn [md_sizedesc sha512.params]. symmetry. apply (be_bytes_wide 8 8). unfold fits. change (8 * Z.of_nat 8) with 64. lia.
  - intros s b Hs. destruct (Transform512 s b Hs) as [E Hw]. split; [exact Hw|exact E].
Qed.

Lemma length_SHA512 msg : Z.of_nat (length msg) < 2 ^ 61 → length (FIPS512.SHA512 msg) = 64%nat.
Proof.
  intros Hlen. rewrite <- SHA512_md by done. unfold md_hash. cbn [md_output sha512.params md_init md_block].
  assert (∀ n s l, words64 s → length (md_blocks sha512.params s l n) = 8%nat) as H.
  { induction n as [|n IH]; intros s l Hs; [apply Hs|]. cbn [md_blocks]. apply IH. by apply Transform512. }
  destruct (list8 _ (H (length (md_padded sha512.params msg) / 128)%nat sha512.Initialize
    (md_padded sha512.params msg) Initialize512_ok)) as (a & b & c & d & e & f & g & h & ->). reflexivity.
Qed.

Abbreviation absorbed512 st := (md_absorbed sha512.params (md_s st) (md_buf st) (md_bytes st)).

Lemma CSHA512_Finalize_absorbed st msg :
  absorbed512 st msg → Z.of_nat (length msg) < 2 ^ 61 → (CSHA512_Finalize st).1 = FIPS512.SHA512 msg.
Proof.
  intros Habs Hlen. rewrite <- SHA512_md by done. apply (md_Finalize_absorbed sha512.params); [|done..].
  intros n. cbn [md_sizedesc sha512.params]. by rewrite length_app, length_be_bytes.
Qed.

Lemma CSHA512_first_write mem data :
  length mem = 128%nat → Z.of_nat (length data) < 2 ^ 64 → absorbed512 (CSHA512_Write (CSHA512 mem) data) data.
Proof. intros. apply (md_Write_absorbed sha512.params _ []); [by apply (md_absorbed_new sha512.params)|done]. Qed.

(** ** HMAC *)

Lemma hmac_rkey_spec mem key :
  length mem = 128%nat → Z.of_nat (length key) < 2 ^ 61 →
  hmac_rkey mem key = FIPS512.hmac_key key ∧ length (FIPS512.hmac_key key) = 128%nat.
Proof.
  intros Hmem Hlen. unfold hmac_rkey, FIPS512.hmac_key.
  destruct (Nat.leb_spec (length key) 128); destruct (Z.leb_spec (Z.of_nat (length key)) 128); [|lia|lia|].
  - split; [done|]. rewrite length_app, length_replicate. lia.
  - rewrite (CSHA512_Finalize_absorbed _ key); [|apply CSHA512_first_write; lia|done].
    by rewrite length_SHA512, length_app, length_SHA512, length_replicate by done.
Qed.

Lemma zip_lxor_replicate n l c : length l = n → zip_with Z.lxor l (replicate n c) = (λ b, Z.lxor b c) <$> l.
Proof. intros <-. rewrite zip_with_replicate_r_eq by done. done. Qed.

(** The inner object has absorbed the inner pad and the text, the outer one its pad. *)
Definition hmac_absorbed (h : CHMAC_SHA512) (key text : list Z) : Prop :=
  absorbed512 (outer h) (zip_with Z.lxor (FIPS512.hmac_key key) (replicate 128 0x5c)) ∧
  absorbed512 (inner h) (zip_with Z.lxor (FIPS512.hmac_key key) (replicate 128 0x36) ++ text).

Lemma CHMAC_new_absorbed mem key :
  length mem = 128%nat → Z.of_nat (length key) < 2 ^ 61 → hmac_absorbed (CHMAC_SHA512_new mem key) key [].
Proof.
  intros Hmem Hlen. destruct (hmac_rkey_spec mem key Hmem Hlen) as [Ek Hk]. unfold hmac_absorbed, CHMAC_SHA512_new.
  cbn [outer inner]. rewrite Ek, app_nil_r, !zip_lxor_replicate by done. split.
  - apply CSHA512_first_write; [done|]. rewrite length_fmap, Hk. lia.
  - rewrite <- list_fmap_compose. assert ((λ b, Z.lxor b 0x36) <$> FIPS512.hmac_key key =
      ((λ b, Z.lxor b (Z.lxor 0x5c 0x36)) ∘ λ b, Z.lxor b 0x5c) <$> FIPS512.hmac_key key) as ->.
    { apply list_fmap_ext. intros _ b _. cbn. rewrite Z.lxor_assoc. done. }
    apply CSHA512_first_write; [done|]. rewrite length_fmap, Hk. lia.
Qed.

Lemma CHMAC_Write_absorbed h key text data :
  hmac_absorbed h key text → Z.of_nat (length (text ++ data)) < 2 ^ 63 → (length (FIPS512.hmac_key key) = 128)%nat →
  hmac_absorbed (CHMAC_SHA512_Write h data) key (text ++ data).
Proof.
  intros [Ho Hi] Hlen Hk. split; [done|]. cbn [inner CHMAC_SHA512_Write]. rewrite app_assoc.
  apply (md_Write_absorbed sha512.params); [done|]. rewrite <- app_assoc, length_app, length_zip_with, length_replicate, Hk.
  rewrite length_app in *. lia.
Qed.

Lemma CHMAC_Finalize_absorbed h key text :
  hmac_absorbed h key text → Z.of_nat (length text) < 2 ^ 60 → (length (FIPS512.hmac_key key) = 128)%nat →
  (CHMAC_SHA512_Finalize h).1 = FIPS512.HMAC key text.
Proof.
  intros [Ho Hi] Hlen Hk. unfold CHMAC_SHA512_Finalize, FIPS512.HMAC. set (ipad := zip_with _ _ (replicate 128 0x36)) in *.
  assert (length ipad = 128%nat) as Hip by (unfold ipad; rewrite length_zip_with, length_replicate, Hk; done).
  apply CSHA512_Finalize_absorbed in Hi; [|rewrite length_app; lia].
  destruct (CSHA512_Finalize (inner h)) as [temp i']. cbn [fst] in Hi. subst temp.
  set (temp := FIPS512.SHA512 (ipad ++ text)).
  assert (length temp = 64%nat) as Ht by (apply length_SHA512; rewrite length_app; lia).
  apply (md_Write_absorbed sha512.params _ _ temp) in Ho;
    [|rewrite length_app, length_zip_with, length_replicate, Hk, Ht; lia].
  apply CSHA512_Finalize_absorbed in Ho; [|rewrite length_app, length_zip_with, length_replicate, Hk, Ht; lia].
  change (md_Write sha512.params) with CSHA512_Write in Ho. by destruct (CSHA512_Finalize _).
Qed.

Lemma CHMAC_Write_all_absorbed pieces h key text :
  hmac_absorbed h key text → Z.of_nat (length (text ++ concat pieces)) < 2 ^ 63 →
  (length (FIPS512.hmac_key key) = 128)%nat →
  hmac_absorbed (foldl CHMAC_SHA512_Write h pieces) key (text ++ concat pieces).
Proof.
  revert h text. induction pieces as [|b ps IH]; intros h text Habs Hlen Hk; cbn [foldl concat] in *.
  - by rewrite app_nil_r.
  - rewrite app_assoc in *. apply IH; [|done..]. apply CHMAC_Write_absorbed; [done| |done].
    rewrite length_app in Hlen. lia.
Qed.

Lemma BIP32_num nChild : fits 32 nChild →
  [Z.land (Z.shiftr nChild 24) 0xFF; Z.land (Z.shiftr nChild 16) 0xFF;
   Z.land (Z.shiftr nChild 8) 0xFF; Z.land (Z.shiftr nChild 0) 0xFF] = be_bytes 4 nChild.
Proof.
  intros _. change 0xFF with (Z.ones 8). rewrite !Z.land_ones, !Z.shiftr_div_pow2 by lia.
  change (be_bytes 4 nChild) with [nChild / 256 / 256 / 256 mod 256; nChild / 256 / 256 mod 256; nChild / 256 mod 256; nChild mod 256].
  rewrite !Z.div_div by lia. by rewrite Z.div_1_r.
Qed.

(** ** Properties *)

(** however the text is cut into [Write] calls and whatever the buffers of
    the objects hold at first, [CHMAC_SHA512] returns the HMAC of RFC 2104 over
    the SHA-512 of FIPS 180-4 (long keys hashed first), and [CSHA512] the
    SHA-512 of the concatenation; [BIP32Hash] is the HMAC, under the chain
    code, of the header byte, the 32 data bytes and the child number in
    big-endian order. *)
Theorem HMAC_SHA512_streaming (mem key : list Z) (pieces : list (list Z)) (nChild header : Z) (data : list Z) :
  length mem = 128%nat → Z.of_nat (length key) < 2 ^ 61 → Z.of_nat (length (concat pieces)) < 2 ^ 60 →
  fits 32 nChild →
  (CHMAC_SHA512_Finalize (foldl CHMAC_SHA512_Write (CHMAC_SHA512_new mem key) pieces)).1 = FIPS512.HMAC key (concat pieces) ∧
  (CSHA512_Finalize (foldl CSHA512_Write (CSHA512 mem) pieces)).1 = FIPS512.SHA512 (concat pieces) ∧
  BIP32Hash mem key nChild header data = FIPS512.HMAC key (header :: take 32 data ++ be_bytes 4 nChild).
Proof.
  intros Hmem Hkey Hlen Hn. destruct (hmac_rkey_spec mem key Hmem Hkey) as [_ Hk].
  pose proof (CHMAC_new_absorbed mem key Hmem Hkey) as Hnew. split_and!.
  - apply CHMAC_Finalize_absorbed; [|done..]. apply (CHMAC_Write_all_absorbed pieces _ _ []); [done| |done]. cbn [app]. lia.
  - apply CSHA512_Finalize_absorbed; [|lia]. apply (md_Write_all_absorbed sha512.params pieces (CSHA512 mem) []);
      [by apply (md_absorbed_new sha512.params)|]. cbn [app]. lia.
  - unfold BIP32Hash. cbv zeta. rewrite (BIP32_num nChild Hn).
    apply CHMAC_Finalize_absorbed; [|cbn [length]; rewrite length_app, length_be_bytes, length_take; lia|done].
    apply (CHMAC_Write_all_absorbed [[header]; take 32 data; be_bytes 4 nChild] _ _ []) in Hnew;
      [|cbn [concat app length]; rewrite app_nil_r, !length_app, length_be_bytes, length_take; lia|done].
    cbn [concat app foldl] in Hnew. by rewrite app_nil_r in Hnew.
Qed.

Lemma HMAC_SHA512_streaming_witness :
  (CHMAC_SHA512_Finalize (foldl CHMAC_SHA512_Write (CHMAC_SHA512_new (replicate 128 0) [74; 101; 102; 101])
     [[119; 104; 97; 116; 32; 100; 111; 32; 121; 97; 32; 119; 97; 110; 116; 32]; [102; 111; 114; 32; 110; 111; 116; 104; 105; 110; 103; 63]])).1 =
  be_bytes 64 0x164b7a7bfcf819e2e395fbe73b56e0a387bd64222e831fd610270cd7ea2505549758bf75c05a994a6d034f65f8f0e6fdcaeab1a34d4a6b4b636e070a38bce737.
Proof.
  destruct (HMAC_SHA512_streaming (replicate 128 0) [74; 101; 102; 101]
    [[119; 104; 97; 116; 32; 100; 111; 32; 121; 97; 32; 119; 97; 110; 116; 32]; [102; 111; 114; 32; 110; 111; 116; 104; 105; 110; 103; 63]]
    0 0 []) as [H _].
  - reflexivity.
  - reflexivity.
  - reflexivity.
  - apply (bool_decide_unpack _). vm_compute. exact I.
  - rewrite H. vm_compute. reflexivity.
Defined.
