(* ===== verification/Rng.v ===== *)
(** * The process-wide random number generator: [random.cpp]

    One [RNGState] serves the process: 32 bytes and a counter.  Every request feeds
    a SHA-512 object with fresh entropy, then with the state and the counter; half
    of the digest is the output, the other half the next state.  What the machine
    answers (time stamps, [rdrand], [/dev/urandom], OpenSSL, the stack) is the class
    [Host], indexed by how many answers were given before; a failing source ends the
    process.  The build is the one of the repository on a 64-bit x86 other than
    Windows: none of the [HAVE_...] macros is defined, so [GetOSRand] reads
    [/dev/urandom].  Proved: over any sequence of requests the state is a hash chain
    whose links are never handed out twice, nothing is handed out before operating
    system entropy went in, and every request returns if the host does. *)

From Stdlib Require Import ZifyNat.
From stdpp Require Import base list numbers decidable option.
From S2P Require Import Prelude ArithUint256 Uint256 MdHash Sha512.

Open Scope Z_scope.

(** ** The machine *)

(** The answers at tick [t]: the time stamp counter, the clock in microseconds, the
    address of a local buffer, the two random instructions with their carry flag,
    [open] and [read] of [/dev/urandom] (the return value, and what was stored),
    [RAND_bytes], and what a new object finds in its memory. *)
Class Host := {
  perf : nat → Z;
  micros : nat → Z;
  stack : nat → Z;
  cpuid : Z → Z → Z * Z * Z * Z;
  rdrand : nat → Z * bool;
  rdseed : nat → Z * bool;
  urandom_open : nat → Z;
  urandom_read : nat → nat → Z * list Z;
  RAND_bytes : nat → list Z;
  memory : nat → list Z;
}.

(** The static variables of random.cpp, the members of [RNGState], what was given to
    [RAND_add], and the number of answers so far. *)
Record World := mk_World {
  ticks : nat;
  g_rdrand_supported : bool;
  g_rdseed_supported : bool;
  constructed : bool;
  m_state : list Z;
  m_counter : Z;
  m_strongly_seeded : bool;
  last_strengthen : Z;
  added : list (list Z * Z);
}.

Definition World_new : World := mk_World 0 false false false (replicate 32 0) 0 false 0 [].

Definition next_tick (w : World) : World :=
  mk_World (S (ticks w)) (g_rdrand_supported w) (g_rdseed_supported w) (constructed w) (m_state w) (m_counter w)
    (m_strongly_seeded w) (last_strengthen w) (added w).
Definition set_hardware (rand seed : bool) (w : World) : World :=
  mk_World (ticks w) rand seed true (m_state w) (m_counter w) (m_strongly_seeded w) (last_strengthen w) (added w).
Definition set_rng (s : list Z) (c : Z) (b : bool) (w : World) : World :=
  mk_World (ticks w) (g_rdrand_supported w) (g_rdseed_supported w) (constructed w) s c b (last_strengthen w) (added w).
Definition set_strengthen (t : Z) (w : World) : World :=
  mk_World (ticks w) (g_rdrand_supported w) (g_rdseed_supported w) (constructed w) (m_state w) (m_counter w)
    (m_strongly_seeded w) t (added w).
Definition RAND_add (buf : list Z) (num : Z) (w : World) : World :=
  mk_World (ticks w) (g_rdrand_supported w) (g_rdseed_supported w) (constructed w) (m_state w) (m_counter w)
    (m_strongly_seeded w) (last_strengthen w) (added w ++ [(buf, num)]).

(** A computation returns, ends the process ([std::abort] or a failed assertion), or
    has not come to an end within its fuel. *)
Inductive outcome (A : Type) := Returned (a : A) (w : World) | Aborted | Unfinished.
Arguments Returned {A} a w.
Arguments Aborted {A}.
Arguments Unfinished {A}.

Definition R (A : Type) : Type := World → outcome A.

#[global] Instance R_ret : MRet R := λ A a w, Returned a w.
#[global] Instance R_bind : MBind R := λ A B f m w,
  match m w with Returned a w' => f a w' | Aborted => Aborted | Unfinished => Unfinished end.

Definition gets {A} (f : World → A) : R A := λ w, Returned (f w) w.
Definition modify (f : World → World) : R unit := λ w, Returned tt (f w).
Definition RandFailure {A} : R A := λ _, Aborted.
Definition assertion (b : bool) : R unit := λ w, if b then Returned tt w else Aborted.

Definition NUM_OS_RANDOM_BYTES : Z := 32.
Definition CPUID_F1_ECX_RDRAND : Z := 0x40000000.
Definition CPUID_F7_EBX_RDSEED : Z := 0x00040000.

(** [enum class RNGLevel]. *)
Inductive RNGLevel := FAST | SLOW | SLEEP.

Section rng.
Context `{H : Host}.
(** How often the loops that wait for the machine are run at most. *)
Context (fuel : nat).

Definition answer {A} (f : nat → A) : R A := λ w, Returned (f (ticks w)) (next_tick w).

(** ** Hardware *)

Definition GetPerformanceCounter : R Z := answer perf.

Definition GetTimeMicros : R Z :=
  now ← answer micros;
  assertion (0 <? now);;
  mret now.

Definition InitHardwareRand : R unit :=
  let '(_, _, ecx, _) := cpuid 1 0 in
  let '(_, ebx, _, _) := cpuid 7 0 in
  modify (λ w, set_hardware
    (if Z.land ecx CPUID_F1_ECX_RDRAND =? 0 then g_rdrand_supported w else true)
    (if Z.land ebx CPUID_F7_EBX_RDSEED =? 0 then g_rdseed_supported w else true) w).

(** [for (int i = 0; i < 10; ++i)]; [n] rounds are left. *)
Fixpoint rdrand_loop (n : nat) (r1 : Z) : R Z :=
  match n with
  | O => mret r1
  | S n => '(r1, ok) ← answer rdrand; if (ok : bool) then mret r1 else rdrand_loop n r1
  end.
Definition GetRdRand : R Z := rdrand_loop 10 0.

Fixpoint rdseed_loop (n : nat) : R Z :=
  match n with
  | O => λ _, Unfinished
  | S n => '(r1, ok) ← answer rdseed; if (ok : bool) then mret r1 else rdseed_loop n
  end.
Definition GetRdSeed : R Z := rdseed_loop fuel.

(** [hasher.Write((const unsigned char* )&out, sizeof(out))] of a 64-bit number. *)
Definition Write64 (hasher : md_state) (out : Z) : md_state := CSHA512_Write hasher (le_bytes 8 (wrap64 out)).

Definition SeedHardwareFast (hasher : md_state) : R md_state :=
  supported ← gets g_rdrand_supported;
  if (supported : bool) then out ← GetRdRand; mret (Write64 hasher out) else mret hasher.

(** [for (int j = 0; j < 1024; ++j) out ^= GetRdRand();]. *)
Fixpoint xor_rdrand (n : nat) (out : Z) : R Z :=
  match n with O => mret out | S n => r ← GetRdRand; xor_rdrand n (Z.lxor out r) end.

(** [for (int i = 0; i < 4; ++i)] over a source of 64-bit numbers. *)
Fixpoint seed_words (n : nat) (source : R Z) (hasher : md_state) : R md_state :=
  match n with O => mret hasher | S n => out ← source; seed_words n source (Write64 hasher out) end.

Definition SeedHardwareSlow (hasher : md_state) : R md_state :=
  seed ← gets g_rdseed_supported;
  rand ← gets g_rdrand_supported;
  if (seed : bool) then seed_words 4 GetRdSeed hasher
  else if (rand : bool) then seed_words 4 (xor_rdrand 1024 0) hasher
  else mret hasher.

(** ** Repeated hashing *)

(** One round of [for (int i = 0; i < 1000; ++i)]. *)
Definition rehash (inner : md_state) : md_state :=
  let '(buffer, inner) := CSHA512_Finalize inner in CSHA512_Write (CSHA512_Reset inner) buffer.

(** [do ... while (GetTimeMicros() < stop)]. *)
Fixpoint strengthen_loop (n : nat) (stop : Z) (inner hasher : md_state) : R (md_state * md_state) :=
  match n with
  | O => λ _, Unfinished
  | S n =>
      let inner := Nat.iter 1000 rehash inner in
      c ← GetPerformanceCounter;
      let hasher := Write64 hasher c in
      now ← GetTimeMicros;
      if now <? stop then strengthen_loop n stop inner hasher else mret (inner, hasher)
  end.

Definition CSHA512_local : R md_state := mem ← answer memory; mret (CSHA512 mem).

Definition Strengthen (seed : list Z) (microseconds : Z) (hasher : md_state) : R md_state :=
  inner ← CSHA512_local;
  let inner := CSHA512_Write inner seed in
  now ← GetTimeMicros;
  '(inner, hasher) ← strengthen_loop fuel (now + microseconds) inner hasher;
  mret (CSHA512_Write hasher (CSHA512_Finalize inner).1).

(** ** The operating system *)

(** [do ... while (have < NUM_OS_RANDOM_BYTES)]; every round adds a byte or aborts. *)
Fixpoint urandom_loop (n : nat) (have : Z) (ent32 : list Z) : R (list Z) :=
  match n with
  | O => λ _, Unfinished
  | S n =>
      '(r, stored) ← answer (λ t, urandom_read t (Z.to_nat (NUM_OS_RANDOM_BYTES - have)));
      if (r <=? 0) || (NUM_OS_RANDOM_BYTES <? r + have) then RandFailure
      else
        let ent32 := splice ent32 (Z.to_nat have) stored in
        if have + r <? NUM_OS_RANDOM_BYTES then urandom_loop n (have + r) ent32 else mret ent32
  end.

Definition GetDevURandom (ent32 : list Z) : R (list Z) :=
  f ← answer urandom_open;
  if f =? -1 then RandFailure else urandom_loop 32 0 ent32.

Definition GetOSRand (ent32 : list Z) : R (list Z) := GetDevURandom ent32.

(** ** [RNGState] *)

(** The function-local static of [GetRNGState] is constructed on the first call. *)
Definition GetRNGState : R unit :=
  made ← gets constructed; if (made : bool) then mret tt else InitHardwareRand.

(** [out] is null only where [num] is 0. *)
Definition MixExtract (num : Z) (hasher : md_state) (strong_seed : bool) : R (bool * list Z) :=
  assertion (num <=? 32);;
  seeded ← gets m_strongly_seeded;
  state ← gets m_state;
  counter ← gets m_counter;
  let ret := seeded || strong_seed in
  let hasher := CSHA512_Write hasher state in
  let hasher := Write64 hasher counter in
  let buf := (CSHA512_Finalize hasher).1 in
  modify (set_rng (take 32 (drop 32 buf)) (add64 counter 1) ret);;
  mret (ret, take (Z.to_nat num) buf).

(** ** Seeding *)

Definition SeedTimestamp (hasher : md_state) : R md_state :=
  perfcounter ← GetPerformanceCounter; mret (Write64 hasher perfcounter).

Definition SeedFast (hasher : md_state) : R md_state :=
  ptr ← answer stack;
  let hasher := Write64 hasher ptr in
  hasher ← SeedHardwareFast hasher;
  SeedTimestamp hasher.

(** [RAND_bytes] writes over the buffer that held the operating system's bytes; its
    return value is not looked at. *)
Definition SeedSlow (hasher : md_state) : R md_state :=
  hasher ← SeedFast hasher;
  buffer ← GetOSRand (replicate 32 0);
  let hasher := CSHA512_Write hasher buffer in
  buffer ← answer RAND_bytes;
  let hasher := CSHA512_Write hasher buffer in
  SeedTimestamp hasher.

Definition SeedStrengthen (hasher : md_state) : R md_state :=
  last_time ← gets last_strengthen;
  current_time ← GetTimeMicros;
  if last_time + 60000000 <? current_time then
    '(_, strengthen_seed) ← MixExtract 32 hasher false;
    hasher ← Strengthen strengthen_seed (if last_time =? 0 then 100000 else 10000) hasher;
    modify (set_strengthen current_time);;
    mret hasher
  else mret hasher.

(** [RandAddSeedPerfmon] has an empty body outside Windows. *)
Definition SeedSleep (hasher : md_state) : R md_state :=
  hasher ← SeedFast hasher;
  hasher ← SeedTimestamp hasher;
  hasher ← SeedTimestamp hasher;
  SeedStrengthen hasher.

Definition SeedStartup (hasher : md_state) : R md_state :=
  hasher ← SeedHardwareSlow hasher;
  hasher ← SeedSlow hasher;
  SeedStrengthen hasher.

(** ** Requests *)

Definition seed_level (level : RNGLevel) (hasher : md_state) : R md_state :=
  match level with FAST => SeedFast hasher | SLOW => SeedSlow hasher | SLEEP => SeedSleep hasher end.

(** [num] is an [int]; [MixExtract] takes it as a [size_t]. *)
Definition ProcRand (num : Z) (level : RNGLevel) : R (list Z) :=
  GetRNGState;;
  assertion (num <=? 32);;
  hasher ← CSHA512_local;
  hasher ← seed_level level hasher;
  '(ret, out) ← MixExtract (wrap64 num) hasher false;
  out ← (if (ret : bool) then mret out
         else startup_hasher ← CSHA512_local;
              startup_hasher ← SeedStartup startup_hasher;
              '(_, out) ← MixExtract (wrap64 num) startup_hasher true;
              mret out);
  match level with
  | FAST => mret out
  | _ =>
      hasher ← CSHA512_local;
      modify (RAND_add (CSHA512_Finalize (CSHA512_Write hasher out)).1 num);;
      mret out
  end.

Definition GetRandBytes (num : Z) : R (list Z) := ProcRand num FAST.
Definition GetStrongRandBytes (num : Z) : R (list Z) := ProcRand num SLOW.
Definition RandAddSeedSleep : R (list Z) := ProcRand 0 SLEEP.
Definition RandomInit : R (list Z) := ProcRand 0 FAST.
Definition GetRandHash : R (list Z) := GetRandBytes 32.

(** ** [Random_SanityCheck] *)

Definition MAX_TRIES : nat := 1024.

Definition mark (overwritten : list bool) (data : list Z) : list bool :=
  zip_with (λ o d, o || negb (d =? 0)) overwritten data.
Definition count_marked (overwritten : list bool) : Z := Z.of_nat (length (filter (λ o, o = true) overwritten)).

(** [do ... while (num_overwritten < NUM_OS_RANDOM_BYTES && tries < MAX_TRIES)], with
    [n] tries left. *)
Fixpoint sanity_loop (n : nat) (overwritten : list bool) : R (list bool) :=
  match n with
  | O => mret overwritten
  | S n =>
      data ← GetOSRand (replicate 32 0);
      let overwritten := mark overwritten data in
      if count_marked overwritten <? NUM_OS_RANDOM_BYTES then sanity_loop n overwritten else mret overwritten
  end.

Definition Random_SanityCheck : R bool :=
  start ← GetPerformanceCounter;
  overwritten ← sanity_loop MAX_TRIES (replicate 32 false);
  if negb (count_marked overwritten =? NUM_OS_RANDOM_BYTES) then mret false else
  stop ← GetPerformanceCounter;
  if stop =? start then mret false else
  to_add ← CSHA512_local;
  let to_add := Write64 (Write64 to_add start) stop in
  GetRNGState;;
  '(_, _) ← MixExtract 0 to_add false;
  mret true.

(** The requests of the rest of the program, one after the other; a sanity check has
    no output. *)
Inductive request := Bytes (num : Z) (level : RNGLevel) | Sanity.

Definition serve (q : request) : R (list Z) :=
  match q with
  | Bytes num level => ProcRand num level
  | Sanity => Random_SanityCheck;; mret []
  end.

Fixpoint serve_all (qs : list request) : R (list (list Z)) :=
  match qs with [] => mret [] | q :: qs => out ← serve q; outs ← serve_all qs; mret (out :: outs) end.
End rng.

(** ** Specification: a hash chain *)

(** The digest of a link, from the entropy [e] and the state and counter before it,
    and the state and counter after a list of links. *)
Definition link (s : list Z * Z) (e : list Z) : list Z := FIPS512.SHA512 (e ++ s.1 ++ le_bytes 8 s.2).
Definition after_link (s : list Z * Z) (e : list Z) : list Z * Z := (drop 32 (link s e), wrap64 (s.2 + 1)).
Definition hash_chain (s : list Z * Z) (es : list (list Z)) : list Z * Z := foldl after_link s es.

(** What the host owes the code: [read] stores as many bytes as it says,
    [RAND_bytes] fills its buffer, objects are as large as their type. *)
Class HostLaws (H : Host) : Prop := {
  read_stores t n r stored : urandom_read t n = (r, stored) → 0 < r → Z.of_nat (length stored) = r;
  RAND_bytes_fills t : length (RAND_bytes t) = 32%nat;
  memory_size t : length (memory t) = 128%nat;
}.

(** A host on which every source works: [rdseed] succeeds and the clock passes a
    tenth of a second within [fuel] tries. *)
Class HostAnswers (H : Host) (fuel : nat) : Prop := {
  opens t : urandom_open t ≠ -1;
  reads t n : (0 < n)%nat → 0 < (urandom_read t n).1 <= Z.of_nat n;
  clock_runs t : 0 < micros t;
  rdseed_succeeds t : ∃ k, (k < fuel)%nat ∧ (rdseed (t + k)).2 = true;
  clock_advances t d : d <= 100000 → ∃ k, (k < fuel)%nat ∧ ∀ m, (k <= m)%nat → micros t + d <= micros (t + m);
}.

Section spec.
Context `{H : Host}.

(** [e] contains 32 bytes of the operating system that were read between two ticks. *)
Definition os_entropy (t t' : nat) (e : list Z) : Prop :=
  ∃ a os b w1 w2, e = a ++ os ++ b ∧ length os = 32%nat ∧ GetOSRand (replicate 32 0) w1 = Returned os w2 ∧
    (t <= ticks w1 ∧ ticks w2 <= t')%nat.

(** What a sequence of requests may return: [seeded] says whether an earlier request
    was served, [s] is the state of the chain, [es] are the links made.  The output
    of a request is the front of a link of its own, its last; that link takes in
    bytes read from the operating system during the request if it is the first
    request or a slow one. *)
Inductive explained : bool → nat → list Z * Z → list request → list (list Z) → list (list Z) → Prop :=
  | explained_nil seeded t s : explained seeded t s [] [] []
  | explained_bytes seeded t t' s num level pre e qs outs es :
      0 <= num <= 32 → (length pre <= 3)%nat →
      (seeded = false ∨ level = SLOW → os_entropy t t' e) →
      explained true t' (hash_chain s (pre ++ [e])) qs outs es →
      explained seeded t s (Bytes num level :: qs) (take (Z.to_nat num) (link (hash_chain s pre) e) :: outs) ((pre ++ [e]) ++ es)
  | explained_sanity seeded t t' s pre qs outs es :
      (length pre <= 1)%nat → explained seeded t' (hash_chain s pre) qs outs es →
      explained seeded t s (Sanity :: qs) ([] :: outs) (pre ++ es).
End spec.


(** ** Reasoning about runs *)

(** If [m] returns, [Q] holds of the result; for [total] it does return. *)
Definition wp {A} (total : bool) (m : R A) (w : World) (Q : A → World → Prop) : Prop :=
  match m w with Returned a w' => Q a w' | _ => total = false end.

Lemma wp_bind {A B} total (m : R A) (f : A → R B) w Q :
  wp total m w (λ a w', wp total (f a) w' Q) → wp total (m ≫= f) w Q.
Proof. unfold wp, mbind, R_bind. by destruct (m w). Qed.

Lemma wp_ret {A} total (a : A) w (Q : A → World → Prop) : Q a w → wp total (mret a) w Q.
Proof. done. Qed.

Lemma wp_mono {A} total (m : R A) w (P Q : A → World → Prop) :
  wp total m w P → (∀ a w', P a w' → Q a w') → wp total m w Q.
Proof. unfold wp. destruct (m w); auto. Qed.

(** A run of [m] known to satisfy [P], followed by the rest. *)
Lemma wp_step {A B} total (m : R A) (f : A → R B) w P Q :
  wp total m w P → (∀ a w', P a w' → wp total (f a) w' Q) → wp total (m ≫= f) w Q.
Proof. intros Hm Hf. by apply wp_bind, (wp_mono _ _ _ P). Qed.

(** The links [es] were made, [seeded] is the flag afterwards, time went on. *)
Definition rng_of (w : World) : list Z * Z := (m_state w, m_counter w).
Definition state_size (w : World) : Prop := length (m_state w) = 32%nat.

Record moved (es : list (list Z)) (seeded : bool) (w w' : World) : Prop := mk_moved {
  moved_ticks : (ticks w <= ticks w')%nat;
  moved_seeded : m_strongly_seeded w' = seeded;
  moved_size : state_size w';
  moved_rng : rng_of w' = hash_chain (rng_of w) es;
}.

(** No link was made. *)
Abbreviation quiet w w' := (moved [] (m_strongly_seeded w) w w').

Lemma quiet_refl w : state_size w → quiet w w.
Proof. by split. Qed.

Lemma moved_trans es1 es2 b1 b2 w w1 w2 : moved es1 b1 w w1 → moved es2 b2 w1 w2 → moved (es1 ++ es2) b2 w w2.
Proof.
  intros [T1 S1 Z1 E1] [T2 S2 Z2 E2]. split; [lia|done|done|]. unfold hash_chain in *. by rewrite foldl_app, <- E1.
Qed.

Lemma quiet_trans w w1 w2 : quiet w w1 → quiet w1 w2 → quiet w w2.
Proof. intros Q1 Q2. rewrite (moved_seeded _ _ _ _ Q1) in Q2. exact (moved_trans _ _ _ _ _ _ _ Q1 Q2). Qed.

Create HintDb rng.
#[export] Hint Resolve quiet_refl quiet_trans moved_size : rng.

Lemma quiet_tick w : state_size w → quiet w (next_tick w).
Proof. intros. split; [cbn; lia|done..]. Qed.
#[export] Hint Resolve quiet_tick : rng.

Lemma wp_answer {A} `{Host} total (f : nat → A) w : state_size w → wp total (answer f) w (λ a w', a = f (ticks w) ∧ w' = next_tick w ∧ quiet w w').
Proof. intros. unfold wp, answer. split_and!; auto with rng. Qed.

(** ** Hash objects *)

Lemma absorbed512_Write st msg data :
  absorbed512 st msg → Z.of_nat (length (msg ++ data)) < 2 ^ 64 → absorbed512 (CSHA512_Write st data) (msg ++ data).
Proof. apply (md_Write_absorbed sha512.params). Qed.

Lemma absorbed512_Write64 st msg x :
  absorbed512 st msg → Z.of_nat (length msg) < 2 ^ 61 → absorbed512 (Write64 st x) (msg ++ le_bytes 8 (wrap64 x)).
Proof. intros. apply absorbed512_Write; [done|]. rewrite length_app, length_le_bytes. lia. Qed.

Lemma absorbed512_buf st msg : absorbed512 st msg → length (md_buf st) = 128%nat.
Proof. by intros (_ & _ & Hb & _). Qed.

(** A hash object after [Finalize] and [Reset] is as good as new. *)
Lemma Finalize_Reset_absorbed st msg :
  absorbed512 st msg → Z.of_nat (length msg) < 2 ^ 61 → absorbed512 (CSHA512_Reset (CSHA512_Finalize st).2) [].
Proof.
  intros Habs Hlen. apply (md_absorbed_new sha512.params). unfold CSHA512_Finalize, md_Finalize. cbn [snd].
  unfold CSHA512_Reset, md_Reset. cbn [md_buf].
  match goal with |- length (md_buf (md_Write _ (md_Write _ _ ?d) ?d2)) = _ =>
    apply (absorbed512_buf _ ((msg ++ d) ++ d2)); assert (length d <= 128)%nat by
      (rewrite length_take; apply (Nat.le_min_r _ 128)); generalize dependent d; intros dd ? end.
  apply absorbed512_Write; [apply absorbed512_Write; [done|]|]; rewrite ?length_app; [lia|].
  cbn [md_sizedesc sha512.params]. rewrite length_app, length_be_bytes, length_replicate. lia.
Qed.

Lemma rehash_absorbed st msg :
  absorbed512 st msg → Z.of_nat (length msg) < 2 ^ 61 → absorbed512 (rehash st) (FIPS512.SHA512 msg).
Proof.
  intros Habs Hlen. pose proof (Finalize_Reset_absorbed st msg Habs Hlen) as H0.
  pose proof (CSHA512_Finalize_absorbed st msg Habs Hlen) as E. unfold rehash.
  destruct (CSHA512_Finalize st) as [buffer inner]. cbn [fst snd] in *. subst buffer.
  apply (absorbed512_Write _ []); [done|]. cbn [app]. rewrite length_SHA512 by done. lia.
Qed.

Lemma rehash_iter n st msg :
  absorbed512 st msg → Z.of_nat (length msg) < 2 ^ 61 →
  ∃ msg', absorbed512 (Nat.iter n rehash st) msg' ∧ Z.of_nat (length msg') < 2 ^ 61.
Proof.
  intros Habs Hlen. induction n as [|n (msg' & IH & Hl)]; [eauto|]. exists (FIPS512.SHA512 msg').
  cbn [Nat.iter]. split; [by apply rehash_absorbed|]. rewrite length_SHA512 by done. lia.
Qed.

#[local] Opaque Nat.iter FIPS512.SHA512 CSHA512_Write CSHA512_Finalize le_bytes.

Lemma le_bytes_wrap64 x : le_bytes 8 (wrap64 x) = le_bytes 8 x.
Proof.
  apply le_value_inj; [apply le_bytes_ok..|by rewrite !length_le_bytes|]. rewrite !le_value_le_bytes.
  change (256 ^ Z.of_nat 8) with (2 ^ 64). apply Z.mod_mod. lia.
Qed.

Section seeders.
Context `{HL : HostLaws}.
Context (fuel : nat) (Hfuel : Z.of_nat fuel < 2 ^ 50) (total : bool) (Htotal : total = true → HostAnswers _ fuel).

(** A seeder adds at most [size] bytes to a hash object that has room for them and
    makes no link. *)
Definition seeds_as (size : nat) (seeder : md_state → R md_state) (P : World → World → list Z → Prop) : Prop :=
  ∀ hasher msg w, state_size w → absorbed512 hasher msg → Z.of_nat (length msg + size) <= 2 ^ 60 →
  wp total (seeder hasher) w (λ hasher' w', ∃ e, absorbed512 hasher' (msg ++ e) ∧ (length e <= size)%nat ∧ quiet w w' ∧ P w w' e).

Abbreviation anything := (λ (_ _ : World) (_ : list Z), True).

(** Runs that only ask the host. *)
Definition asks {A} (m : R A) : Prop := ∀ w, state_size w → wp total m w (λ _ w', quiet w w').

Lemma asks_answer {A} (f : nat → A) : asks (answer f).
Proof using Type*. intros w Hw. eapply wp_mono; [by apply wp_answer|]. by intros a w' (_ & _ & ?). Qed.

Lemma asks_bind {A B} (m : R A) (f : A → R B) : asks m → (∀ a, asks (f a)) → asks (m ≫= f).
Proof using Type*.
  intros Hm Hf w Hw. apply (wp_step _ _ _ _ (λ _ w', quiet w w')); [by apply Hm|]. intros a w1 Q1.
  eapply wp_mono; [apply Hf; eauto with rng|]. eauto with rng.
Qed.

Lemma asks_ret {A} (a : A) : asks (mret a).
Proof using Type*. intros w Hw. apply wp_ret. auto with rng. Qed.

Lemma asks_gets {A} (f : World → A) : asks (gets f).
Proof using Type*. intros w Hw. unfold wp, gets. auto with rng. Qed.

Lemma GetTimeMicros_spec w : state_size w →
  wp total GetTimeMicros w (λ now w', now = micros (ticks w) ∧ w' = next_tick w ∧ quiet w w').
Proof using Type*.
  intros Hw. eapply wp_step; [by apply wp_answer|]. intros now w1 (-> & -> & Hq). apply wp_bind. unfold wp, assertion.
  destruct (Z.ltb_spec 0 (micros (ticks w))) as [|Hle]; [by cbn|]. destruct total; [|done].
  pose proof (@clock_runs _ _ (Htotal eq_refl) (ticks w)). lia.
Qed.

Lemma asks_rdrand n r : asks (rdrand_loop n r).
Proof using Type*.
  revert r. induction n as [|n IH]; intros r; [apply asks_ret|]. cbn [rdrand_loop]. apply asks_bind; [apply asks_answer|].
  intros [r1 []]; [apply asks_ret|apply IH].
Qed.

Lemma asks_rdseed : asks (GetRdSeed fuel).
Proof using Type*.
  assert (∀ n w, state_size w → (total = true → ∃ k, (k < n)%nat ∧ (rdseed (ticks w + k)).2 = true) →
    wp total (rdseed_loop n) w (λ _ w', quiet w w')) as Hloop.
  { induction n as [|n IH]; intros w Hw Hk; cbn [rdseed_loop].
    { unfold wp. destruct total; [|done]. destruct (Hk eq_refl) as (k & ? & _). lia. }
    eapply wp_step; [by apply wp_answer|]. intros [r1 ok] w1 (E & -> & Hq). destruct ok; [by apply wp_ret|].
    eapply wp_mono; [apply IH; [exact Hw|]|eauto with rng]. intros Ht. destruct (Hk Ht) as (k & Hlt & Hok).
    destruct k as [|k]; [rewrite Nat.add_0_r, <- E in Hok; done|]. exists k. split; [lia|].
    cbn [ticks next_tick]. by rewrite Nat.add_succ_l, <- Nat.add_succ_r. }
  intros w Hw. apply Hloop; [done|]. intros Ht. apply (@rdseed_succeeds _ _ (Htotal Ht)).
Qed.

Lemma asks_xor n out : asks (xor_rdrand n out).
Proof using Type*.
  revert out. induction n as [|n IH]; intros out; [apply asks_ret|]. cbn [xor_rdrand].
  apply asks_bind; [apply asks_rdrand|auto].
Qed.

(** A seeder that writes the answer of a run. *)
Lemma seeds_word (m : R Z) : asks m → seeds_as 8 (λ hasher, r ← m; mret (Write64 hasher r)) anything.
Proof using Type*.
  intros Hm hasher msg w Hw Habs Hlen. eapply wp_step; [by apply Hm|]. intros r w1 Hq. apply wp_ret.
  eexists. split_and!; [apply absorbed512_Write64; [done|lia]|by rewrite length_le_bytes|done..].
Qed.

Lemma seeds_nothing : seeds_as 0 mret anything.
Proof using Type*.
  intros hasher msg w Hw Habs Hlen. apply wp_ret. exists []. rewrite app_nil_r. split_and!; auto with rng.
Qed.

Lemma seeds_weaken size size' f P Q :
  seeds_as size f P → (size <= size')%nat → (∀ w w' e, P w w' e → Q w w' e) → seeds_as size' f Q.
Proof using Type*.
  intros Hf Hle HPQ hasher msg w Hw Habs Hlen. eapply wp_mono; [apply Hf; [done..|lia]|]. intros h' w' (e & ? & ? & ? & ?).
  exists e. split_and!; auto; lia.
Qed.

Lemma seeds_seq s1 s2 f g P1 P2 :
  seeds_as s1 f P1 → seeds_as s2 g P2 →
  seeds_as (s1 + s2) (λ hasher, h ← f hasher; g h)
    (λ w w' e, ∃ w1 e1 e2, e = e1 ++ e2 ∧ quiet w w1 ∧ quiet w1 w' ∧ P1 w w1 e1 ∧ P2 w1 w' e2).
Proof using Type*.
  intros Hf Hg hasher msg w Hw Habs Hlen. eapply wp_step; [apply Hf; [done..|lia]|]. intros h1 w1 (e1 & Habs1 & Hl1 & Q1 & HP1).
  eapply wp_mono; [apply Hg; [eauto with rng|exact Habs1|rewrite length_app; lia]|].
  intros h2 w2 (e2 & Habs2 & Hl2 & Q2 & HP2). exists (e1 ++ e2). rewrite <- app_assoc in Habs2.
  split_and!; [done|rewrite length_app; lia|by eapply quiet_trans|]. by exists w1, e1, e2.
Qed.

Lemma seeds_Write size (data : list Z) : length data = size → seeds_as size (λ hasher, mret (CSHA512_Write hasher data)) (λ _ _ e, e = data).
Proof using Type*.
  intros <- hasher msg w Hw Habs Hlen. apply wp_ret. exists data.
  split_and!; [|done|auto with rng|done]. apply absorbed512_Write; [done|]. rewrite length_app. lia.
Qed.

Lemma seeds_hardware_fast : seeds_as 8 SeedHardwareFast anything.
Proof using Type*.
  intros hasher msg w Hw Habs Hlen. apply wp_bind. unfold gets at 1, wp at 1. destruct (g_rdrand_supported w).
  - by apply (seeds_word GetRdRand (asks_rdrand _ _)).
  - by apply (seeds_weaken 0 8 _ _ anything seeds_nothing); [lia|..].
Qed.

Lemma seeds_words n source : asks source → seeds_as (n * 8) (seed_words n source) anything.
Proof using Type*.
  intros Hs. induction n as [|n IH]; [apply seeds_nothing|]. intros hasher msg w Hw Habs Hlen. cbn [seed_words].
  eapply wp_step; [by apply Hs|]. intros r w1 Q1. eapply wp_mono.
  - apply IH; [eauto with rng|apply absorbed512_Write64; [done|lia]|rewrite length_app, length_le_bytes; lia].
  - intros h' w' (e & Habs' & Hl & Q & _). rewrite <- app_assoc in Habs'.
    eexists. split_and!; [exact Habs'|rewrite length_app, length_le_bytes; lia|exact (quiet_trans _ _ _ Q1 Q)|done].
Qed.

Lemma seeds_hardware_slow : seeds_as 32 (SeedHardwareSlow fuel) anything.
Proof using Type*.
  intros hasher msg w Hw Habs Hlen. apply wp_bind. unfold gets at 1, wp at 1. apply wp_bind. unfold gets at 1, wp at 1.
  destruct (g_rdseed_supported w); [|destruct (g_rdrand_supported w)].
  - by apply (seeds_words 4 _ asks_rdseed).
  - by apply (seeds_words 4 _ (asks_xor _ _)).
  - by apply (seeds_weaken 0 32 _ _ anything seeds_nothing); [lia|..].
Qed.

Lemma seeds_timestamp : seeds_as 8 SeedTimestamp anything.
Proof using Type*. apply (seeds_word GetPerformanceCounter), asks_answer. Qed.

Lemma seeds_fast : seeds_as 24 SeedFast anything.
Proof using Type*.
  intros hasher msg w Hw Habs Hlen. apply (seeds_weaken _ _ (λ hasher, h ← (ptr ← answer stack; mret (Write64 hasher ptr));
    (h ← SeedHardwareFast h; SeedTimestamp h)) _ anything (seeds_seq 8 16 _ _ _ _
    (seeds_word _ (asks_answer _)) (seeds_seq 8 8 _ _ _ _ seeds_hardware_fast seeds_timestamp))); done.
Qed.

(** ** Bytes of the operating system *)

Lemma urandom_loop_spec n have ent w :
  state_size w → 0 <= have < 32 → length ent = 32%nat → 32 - have <= Z.of_nat n →
  wp total (urandom_loop n have ent) w (λ os w', length os = 32%nat ∧ quiet w w').
Proof using Type*.
  revert have ent w. induction n as [|n IH]; intros have ent w Hw Hh He Hn; [lia|]. cbn [urandom_loop].
  unfold NUM_OS_RANDOM_BYTES. eapply wp_step; [by apply wp_answer|]. intros [r stored] w1 (E & -> & Hq). cbn beta iota.
  assert (total = true → 0 < r <= 32 - have) as Hr.
  { intros Ht. pose proof (@reads _ _ (Htotal Ht) (ticks w) (Z.to_nat (32 - have)) ltac:(lia)) as Hr. rewrite <- E in Hr.
    cbn [fst] in Hr. lia. }
  destruct ((r <=? 0) || (32 <? r + have)) eqn:Ec.
  { unfold wp, RandFailure. destruct total; [|done]. specialize (Hr eq_refl). lia. }
  apply orb_false_iff in Ec as [H1%Z.leb_gt H2%Z.ltb_ge]. symmetry in E. pose proof (read_stores _ _ _ _ E H1) as Hs.
  assert (length (splice ent (Z.to_nat have) stored) = 32%nat) as Hl by (rewrite length_splice; lia).
  destruct (Z.ltb_spec (have + r) 32); [|by apply wp_ret].
  eapply wp_mono; [apply IH; [exact Hw|lia|done|lia]|]. intros os w2 [? Q2]. split; [done|]. exact (quiet_trans _ _ _ Hq Q2).
Qed.

Lemma GetOSRand_spec w : state_size w →
  wp total (GetOSRand (replicate 32 0)) w (λ os w', length os = 32%nat ∧ quiet w w').
Proof using Type*.
  intros Hw. eapply wp_step; [by apply wp_answer|]. intros f w1 (-> & -> & Hq). destruct (Z.eqb_spec (urandom_open (ticks w)) (-1)) as [E|].
  { unfold wp, RandFailure. destruct total; [|done]. by destruct (@opens _ _ (Htotal eq_refl) (ticks w)). }
  eapply wp_mono; [apply urandom_loop_spec; [exact Hw|lia|by rewrite length_replicate|lia]|].
  intros os w2 [? Q2]. split; [done|]. exact (quiet_trans _ _ _ Hq Q2).
Qed.

Lemma wp_run {A} (m : R A) w Q : wp total m w Q → wp total m w (λ a w', Q a w' ∧ m w = Returned a w').
Proof using Type*. unfold wp. by destruct (m w). Qed.

Lemma seeds_os :
  seeds_as 32 (λ hasher, buffer ← GetOSRand (replicate 32 0); mret (CSHA512_Write hasher buffer))
    (λ w w' e, os_entropy (ticks w) (ticks w') e).
Proof using Type*.
  intros hasher msg w Hw Habs Hlen. eapply wp_step; [by apply wp_run, GetOSRand_spec|]. intros os w1 [[Hl Hq] E].
  eapply wp_mono; [apply (seeds_Write 32 os Hl); [eauto with rng|done..]|]. intros h' w' (e & Habs' & Hle & Q & ->).
  exists os. split_and!; [done..|exact (quiet_trans _ _ _ Hq Q)|]. exists [], os, [], w, w1.
  rewrite app_nil_r. split_and!; [done..|]. apply (moved_ticks _ _ _ _ Q).
Qed.

Lemma os_entropy_widen t1 t2 t1' t2' e a b :
  os_entropy t1' t2' e → (t1 <= t1')%nat → (t2' <= t2)%nat → os_entropy t1 t2 (a ++ e ++ b).
Proof using Type*.
  intros (a' & os & b' & w1 & w2 & -> & Hl & E & Ht1 & Ht2) ? ?. exists (a ++ a'), os, (b' ++ b), w1, w2.
  rewrite <- !app_assoc. split_and!; [done..|lia|lia].
Qed.

Lemma os_entropy_window t1 t2 t1' t2' e : os_entropy t1' t2' e → (t1 <= t1')%nat → (t2' <= t2)%nat → os_entropy t1 t2 e.
Proof using Type*. intros He ? ?. rewrite <- (app_nil_r e). by apply (os_entropy_widen t1 t2 t1' t2' e [] []). Qed.

Lemma seeds_ssl : seeds_as 32 (λ hasher, buffer ← answer RAND_bytes; mret (CSHA512_Write hasher buffer)) anything.
Proof using Type*.
  intros hasher msg w Hw Habs Hlen. eapply wp_step; [by apply wp_answer|]. intros bs w1 (-> & -> & Hq).
  eapply wp_mono; [apply (seeds_Write 32 _ (RAND_bytes_fills (ticks w))); [exact Hw|done..]|].
  intros h' w' (e & Habs' & Hle & Q & _). exists e. split_and!; [done..|exact (quiet_trans _ _ _ Hq Q)|done].
Qed.

Lemma seeds_ext size f g P : (∀ hasher w, f hasher w = g hasher w) → seeds_as size g P → seeds_as size f P.
Proof using Type*. intros E Hg hasher msg w Hw Habs Hlen. unfold wp. rewrite E. by apply Hg. Qed.

Lemma seeds_slow : seeds_as 96 SeedSlow (λ w w' e, os_entropy (ticks w) (ticks w') e).
Proof using Type*.
  eapply (seeds_ext _ _ (λ hasher, h ← SeedFast hasher;
    (h ← (buffer ← GetOSRand (replicate 32 0); mret (CSHA512_Write h buffer));
     (h ← (buffer ← answer RAND_bytes; mret (CSHA512_Write h buffer)); SeedTimestamp h)))).
  { intros hasher w. unfold SeedSlow, mbind, R_bind. destruct (SeedFast hasher w) as [h w1| |]; [|done..].
    by destruct (GetOSRand (replicate 32 0) w1). }
  eapply (seeds_weaken 96 96); [exact (seeds_seq 24 72 _ _ _ _ seeds_fast (seeds_seq 32 40 _ _ _ _ seeds_os
    (seeds_seq 32 8 _ _ _ _ seeds_ssl seeds_timestamp)))|lia|].
  intros w0 w' e (w1 & e1 & e2 & -> & Q1 & Q2 & _ & w2 & e3 & e4 & -> & Q3 & Q4 & Hos & _).
  apply (os_entropy_widen _ _ _ _ _ e1 e4 Hos); [apply (moved_ticks _ _ _ _ Q1)|apply (moved_ticks _ _ _ _ Q4)].
Qed.

(** ** Strengthening *)

Lemma strengthen_loop_spec n stop inner m hasher msg w :
  state_size w → absorbed512 inner m → Z.of_nat (length m) < 2 ^ 61 →
  absorbed512 hasher msg → Z.of_nat (length msg + 8 * n) <= 2 ^ 60 →
  (total = true → ∃ k, (k < n)%nat ∧ ∀ i, (k <= i)%nat → stop <= micros (ticks w + i)) →
  wp total (strengthen_loop n stop inner hasher) w (λ r w', ∃ m' e, absorbed512 r.1 m' ∧ Z.of_nat (length m') < 2 ^ 61 ∧
    absorbed512 r.2 (msg ++ e) ∧ (length e <= 8 * n)%nat ∧ quiet w w').
Proof using Type*.
  revert inner m hasher msg w. induction n as [|n IH]; intros inner m hasher msg w Hw Hin Hm Habs Hlen Hk; cbn [strengthen_loop].
  { unfold wp. destruct total; [|done]. destruct (Hk eq_refl) as (k & ? & _). lia. }
  destruct (rehash_iter 1000 inner m Hin Hm) as (m1 & Hin1 & Hm1).
  eapply wp_step; [by apply wp_answer|]. intros c w1 (_ & -> & Q1). eapply wp_step; [by apply GetTimeMicros_spec|].
  intros now w2 (-> & -> & Q2). pose proof (absorbed512_Write64 hasher msg c Habs ltac:(lia)) as Habs1.
  destruct (Z.ltb_spec (micros (ticks (next_tick w))) stop) as [Hlt|Hge].
  - eapply wp_mono; [apply (IH _ m1 _ (msg ++ le_bytes 8 (wrap64 c)) (next_tick (next_tick w))); [done..|rewrite length_app, length_le_bytes; lia|]|].
    + intros Ht. destruct (Hk Ht) as (k & Hkn & Hs). destruct k as [|[|k]].
      * specialize (Hs 1%nat ltac:(lia)). cbn [ticks next_tick] in Hlt. rewrite Nat.add_1_r in Hs. lia.
      * specialize (Hs 1%nat ltac:(lia)). cbn [ticks next_tick] in Hlt. rewrite Nat.add_1_r in Hs. lia.
      * exists k. split; [lia|]. intros i Hi. cbn [ticks next_tick]. replace (S (S (ticks w)) + i)%nat with (ticks w + S (S i))%nat by lia.
        apply Hs. lia.
    + intros [i' h'] w' (m' & e & H1 & H2 & H3 & H4 & H5). rewrite <- app_assoc in H3. do 2 eexists.
      split_and!; [exact H1|exact H2|exact H3|rewrite length_app, length_le_bytes; lia|].
      exact (quiet_trans _ _ _ Q1 (quiet_trans _ _ _ Q2 H5)).
  - apply wp_ret. do 2 eexists. split_and!; [exact Hin1|done|exact Habs1|rewrite length_le_bytes; lia|].
    exact (quiet_trans _ _ _ Q1 Q2).
Qed.

Lemma CSHA512_local_spec w : state_size w →
  wp total CSHA512_local w (λ h w', absorbed512 h [] ∧ quiet w w').
Proof using Type*.
  intros Hw. eapply wp_step; [by apply wp_answer|]. intros mem w1 (-> & -> & Q1). apply wp_ret. split; [|done].
  apply (md_absorbed_new sha512.params), memory_size.
Qed.

Lemma seeds_strengthen seed us : length seed = 32%nat → us <= 100000 → seeds_as (8 * fuel + 64) (Strengthen fuel seed us) anything.
Proof using Type*.
  intros Hs Hus hasher msg w Hw Habs Hlen. eapply wp_step; [by apply CSHA512_local_spec|]. intros inner w1 [Hin Q1].
  assert (state_size w1) as Hw1 by eauto with rng. eapply wp_step; [by apply GetTimeMicros_spec|].
  intros now w2 (-> & -> & Q2). eapply wp_step.
  - apply (strengthen_loop_spec fuel _ _ seed); [eauto with rng|apply (absorbed512_Write _ []); [done|cbn [app]; lia]|lia|exact Habs|lia|].
    intros Ht. destruct (@clock_advances _ _ (Htotal Ht) (ticks w1) us Hus) as (k & Hk & Hc). exists k. split; [done|].
    intros i Hi. cbn [ticks next_tick]. rewrite Nat.add_succ_l, <- Nat.add_succ_r. apply Hc. lia.
  - intros [inner' h'] w' (m' & e & H1 & H2 & H3 & H4 & H5). cbn [fst snd] in *. apply wp_ret.
    exists (e ++ FIPS512.SHA512 m'). rewrite (CSHA512_Finalize_absorbed _ _ H1 H2), app_assoc.
    pose proof (length_SHA512 m' H2) as Hl. split_and!; [|rewrite length_app; lia| |done].
    + apply absorbed512_Write; [done|]. rewrite !length_app. lia.
    + exact (quiet_trans _ _ _ Q1 (quiet_trans _ _ _ Q2 H5)).
Qed.

(** ** Links *)

Lemma MixExtract_spec num hasher e strong w :
  state_size w → absorbed512 hasher e → Z.of_nat (length e) <= 2 ^ 60 → (total = true → num <= 32) →
  let b := m_strongly_seeded w || strong in
  wp total (MixExtract num hasher strong) w
    (λ r w', r = (b, take (Z.to_nat num) (link (rng_of w) e)) ∧ num <= 32 ∧ moved [e] b w w').
Proof using Type*.
  intros Hw Habs Hlen Hnum b. unfold MixExtract. apply wp_bind. unfold wp at 1, assertion.
  destruct (Z.leb_spec num 32) as [Hle|Hgt]; [|destruct total; [lia|done]].
  unfold wp, mbind, R_bind, gets, modify, mret, R_ret. cbn beta iota zeta. fold b.
  assert ((CSHA512_Finalize (Write64 (CSHA512_Write hasher (m_state w)) (m_counter w))).1 = link (rng_of w) e) as E.
  { unfold link, rng_of. cbn [fst snd]. rewrite app_assoc, <- (le_bytes_wrap64 (m_counter w)). unfold state_size in Hw.
    apply CSHA512_Finalize_absorbed; [|rewrite !length_app, length_le_bytes; lia].
    apply absorbed512_Write64; [apply absorbed512_Write; [done|]|]; rewrite length_app; lia. }
  rewrite E. assert (length (link (rng_of w) e) = 64%nat) as Hl.
  { apply length_SHA512. unfold rng_of, state_size in *. cbn [fst snd]. rewrite !length_app, length_le_bytes. lia. }
  assert (length (drop 32 (link (rng_of w) e)) = 32%nat) as Hd by (rewrite length_drop; lia).
  rewrite (take_ge (drop 32 _)) by lia. split_and!; [done..|]. by split.
Qed.

(** A seeder that makes at most [n] links on the way. *)
Definition links_as (n size : nat) (seeder : md_state → R md_state) (P : World → World → list Z → Prop) : Prop :=
  ∀ hasher msg w, state_size w → absorbed512 hasher msg → Z.of_nat (length msg + size) <= 2 ^ 60 →
  wp total (seeder hasher) w (λ hasher' w', ∃ es e, absorbed512 hasher' (msg ++ e) ∧ (length e <= size)%nat ∧
    (length es <= n)%nat ∧ moved es (m_strongly_seeded w) w w' ∧ P w w' e).

Lemma seeds_links size f P : seeds_as size f P → links_as 0 size f P.
Proof using Type*.
  intros Hf hasher msg w Hw Habs Hlen. eapply wp_mono; [by apply Hf|]. intros h w' (e & ? & ? & ? & ?). by exists [], e.
Qed.

Lemma links_weaken n n' size size' f P Q :
  links_as n size f P → (n <= n')%nat → (size <= size')%nat → (∀ w w' e, P w w' e → Q w w' e) → links_as n' size' f Q.
Proof using Type*.
  intros Hf Hn Hle HPQ hasher msg w Hw Habs Hlen. eapply wp_mono; [apply Hf; [done..|lia]|].
  intros h' w' (es & e & ? & ? & ? & ? & ?). exists es, e. split_and!; auto; lia.
Qed.

Lemma links_seq n1 n2 s1 s2 f g P1 P2 :
  links_as n1 s1 f P1 → links_as n2 s2 g P2 →
  links_as (n1 + n2) (s1 + s2) (λ hasher, h ← f hasher; g h)
    (λ w w' e, ∃ w1 e1 e2, e = e1 ++ e2 ∧ (ticks w <= ticks w1 <= ticks w')%nat ∧ P1 w w1 e1 ∧ P2 w1 w' e2).
Proof using Type*.
  intros Hf Hg hasher msg w Hw Habs Hlen. eapply wp_step; [apply Hf; [done..|lia]|].
  intros h1 w1 (es1 & e1 & Habs1 & Hl1 & Hn1 & M1 & HP1).
  eapply wp_mono; [apply Hg; [by eapply moved_size|exact Habs1|rewrite length_app; lia]|].
  intros h2 w2 (es2 & e2 & Habs2 & Hl2 & Hn2 & M2 & HP2). exists (es1 ++ es2), (e1 ++ e2). rewrite <- app_assoc in Habs2.
  rewrite (moved_seeded _ _ _ _ M1) in M2. split_and!; [done|rewrite length_app; lia..|by eapply moved_trans|].
  exists w1, e1, e2. destruct M1, M2. done.
Qed.

Lemma links_strengthen : links_as 1 (8 * fuel + 64) (SeedStrengthen fuel) anything.
Proof using Type*.
  intros hasher msg w Hw Habs Hlen. unfold SeedStrengthen. apply wp_bind. unfold gets at 1, wp at 1.
  eapply wp_step; [by apply GetTimeMicros_spec|]. intros now w1 (-> & -> & Q1).
  destruct (Z.ltb_spec (last_strengthen w + 60000000) (micros (ticks w))).
  - eapply wp_step; [apply (MixExtract_spec 32 _ msg); [exact Hw|done|lia|lia]|].
    intros [r seed] w2 (E & _ & M2). apply pair_eq in E as [_ ->]. rewrite orb_false_r in M2.
    pose proof (moved_trans _ _ _ _ _ _ _ Q1 M2) as M12. cbn [app] in M12. eapply wp_step.
    + apply seeds_strengthen; [|by case_match|by eapply moved_size|exact Habs|lia].
      unfold link. rewrite length_take, length_SHA512; [done|]. unfold rng_of, state_size in *. cbn [fst snd next_tick m_state].
      rewrite !length_app, length_le_bytes. lia.
    + intros h' w3 (e & Habs' & Hl & Q3 & _). rewrite (moved_seeded _ _ _ _ M2) in Q3.
      exists [msg], e. split_and!; [done|done|cbn; lia| |done].
      pose proof (moved_trans _ _ _ _ _ _ _ M12 Q3) as M. by destruct M.
  - apply wp_ret. exists [], []. rewrite app_nil_r. split_and!; [done|cbn; lia|cbn; lia|done..].
Qed.

Lemma links_sleep : links_as 1 (8 * fuel + 200) (SeedSleep fuel) anything.
Proof using Type*.
  eapply links_weaken; [exact (links_seq _ _ _ _ _ _ _ _ (seeds_links _ _ _ seeds_fast)
    (links_seq _ _ _ _ _ _ _ _ (seeds_links _ _ _ seeds_timestamp) (links_seq _ _ _ _ _ _ _ _
      (seeds_links _ _ _ seeds_timestamp) links_strengthen)))|lia|lia|done].
Qed.

Lemma links_startup : links_as 1 (8 * fuel + 200) (SeedStartup fuel) (λ w w' e, os_entropy (ticks w) (ticks w') e).
Proof using Type*.
  eapply links_weaken; [exact (links_seq _ _ _ _ _ _ _ _ (seeds_links _ _ _ seeds_hardware_slow)
    (links_seq _ _ _ _ _ _ _ _ (seeds_links _ _ _ seeds_slow) links_strengthen))|lia|lia|].
  intros w w' e (w1 & e1 & e2 & -> & T1 & _ & w2 & e3 & e4 & -> & T2 & Hos & _).
  apply (os_entropy_widen _ _ _ _ _ e1 e4 Hos); lia.
Qed.

Lemma links_level level :
  links_as 1 (8 * fuel + 200) (seed_level fuel level) (λ w w' e, level = SLOW → os_entropy (ticks w) (ticks w') e).
Proof using Type*.
  destruct level; cbn [seed_level].
  - eapply links_weaken; [exact (seeds_links _ _ _ seeds_fast)|lia|lia|done].
  - eapply links_weaken; [exact (seeds_links _ _ _ seeds_slow)|lia|lia|by intros].
  - eapply links_weaken; [exact links_sleep|lia|lia|done].
Qed.

(** ** Requests *)

Lemma GetRNGState_spec w : state_size w → wp total GetRNGState w (λ _ w', quiet w w').
Proof using Type*.
  intros Hw. unfold GetRNGState. apply wp_bind. unfold gets, wp at 1. destruct (constructed w).
  - apply wp_ret. auto with rng.
  - unfold InitHardwareRand, wp, modify. destruct (cpuid 1 0) as [[[? ?] ?] ?], (cpuid 7 0) as [[[? ?] ?] ?]. by split.
Qed.

(** What one request promises. *)
Definition request_post (num : Z) (level : RNGLevel) (w : World) (out : list Z) (w' : World) : Prop :=
  ∃ pre e, 0 <= num <= 32 ∧ (length pre <= 3)%nat ∧ out = take (Z.to_nat num) (link (hash_chain (rng_of w) pre) e) ∧
    moved (pre ++ [e]) true w w' ∧ (m_strongly_seeded w = false ∨ level = SLOW → os_entropy (ticks w) (ticks w') e).

(** The last link of a request, at the front of which its output is. *)
Lemma extract_spec num level hasher pre e strong w w1 :
  sfits 32 num → (total = true → 0 <= num <= 32) → num <= 32 →
  absorbed512 hasher e → Z.of_nat (length e) <= 2 ^ 60 → (length pre <= 3)%nat →
  moved pre (m_strongly_seeded w) w w1 →
  (m_strongly_seeded w = false ∨ level = SLOW → m_strongly_seeded w || strong = true → os_entropy (ticks w) (ticks w1) e) →
  wp total (MixExtract (wrap64 num) hasher strong) w1 (λ r w', r.1 = m_strongly_seeded w || strong ∧ 0 <= num <= 32 ∧
    moved (pre ++ [e]) (m_strongly_seeded w || strong) w w' ∧
    (m_strongly_seeded w || strong = true → request_post num level w r.2 w')).
Proof using Type*.
  intros Hnum Hok H32 Habs Hlen Hpre M1 Hos. pose proof (moved_seeded _ _ _ _ M1) as Eb.
  assert (wrap64 num <= 32 → 0 <= num <= 32 ∧ wrap64 num = num) as Hw.
  { unfold sfits in Hnum. intros Hle. destruct (Z.lt_ge_cases num 0).
    - exfalso. revert Hle. unfold wrap. rewrite <- (Z.mod_add num 1) by lia. rewrite Z.mod_small; lia.
    - split; [lia|]. apply wrap_id. unfold fits. lia. }
  eapply wp_mono.
  { apply (MixExtract_spec (wrap64 num) hasher e strong w1); [by eapply moved_size|done|lia|].
    intros Ht. specialize (Hok Ht). rewrite wrap_id by (unfold fits; lia). lia. }
  intros r w' (-> & Hle & M2). destruct (Hw Hle) as [Hn En]. rewrite En, Eb in *. cbn [fst snd].
  pose proof (moved_trans _ _ _ _ _ _ _ M1 M2) as M. split_and!; [done|lia..|exact M|]. intros Eseed. exists pre, e.
  rewrite <- (moved_rng _ _ _ _ M1). split_and!; [lia..|done|by rewrite Eseed in M|]. intros Hc.
  apply (os_entropy_window _ _ _ _ _ (Hos Hc Eseed)); [done|apply (moved_ticks _ _ _ _ M2)].
Qed.

Lemma feed_back_spec num level w out w1 :
  request_post num level w out w1 →
  wp total (match level with FAST => mret out | _ =>
      hasher ← CSHA512_local; modify (RAND_add (CSHA512_Finalize (CSHA512_Write hasher out)).1 num);; mret out end) w1
    (request_post num level w).
Proof using Type*.
  intros (pre & e & Hn & Hp & Eo & M & Hos).
  assert (∀ w2, quiet w1 w2 → request_post num level w out w2) as Hq.
  { intros w2 Q. exists pre, e. split_and!; [lia..|done| |].
    - rewrite <- (app_nil_r (pre ++ [e])). rewrite (moved_seeded _ _ _ _ M) in Q. exact (moved_trans _ _ _ _ _ _ _ M Q).
    - intros Hc. apply (os_entropy_window _ _ _ _ _ (Hos Hc)); [done|apply (moved_ticks _ _ _ _ Q)]. }
  assert (state_size w1) as Hw1 by (by eapply moved_size).
  assert (wp total (hasher ← CSHA512_local; modify (RAND_add (CSHA512_Finalize (CSHA512_Write hasher out)).1 num);; mret out) w1
    (request_post num level w)) as Hfeed.
  { eapply wp_step; [by apply CSHA512_local_spec|]. intros h w2 [_ Q]. apply wp_bind. unfold wp at 1, modify. apply wp_ret, Hq.
    by destruct Q. }
  destruct level; [apply wp_ret, Hq; auto with rng|exact Hfeed..].
Qed.

Lemma ProcRand_spec num level w :
  state_size w → sfits 32 num → (total = true → 0 <= num <= 32) →
  wp total (ProcRand fuel num level) w (request_post num level w).
Proof using Type*.
  intros Hw Hnum Hok. unfold ProcRand. eapply wp_step; [by apply GetRNGState_spec|]. intros [] w1 Q1. apply wp_bind.
  unfold wp at 1, assertion. destruct (Z.leb_spec num 32) as [H32|]; [|destruct total; [lia|done]].
  eapply wp_step; [apply CSHA512_local_spec; by eapply moved_size|]. intros h w2 [Habs Q2].
  pose proof (quiet_trans _ _ _ Q1 Q2) as Q12.
  eapply wp_step; [apply links_level; [by eapply moved_size|exact Habs|cbn [length]; lia]|].
  intros h3 w3 (es & e & Habs3 & Hl3 & Hn3 & M3 & Hos3). cbn [app] in Habs3. rewrite (moved_seeded _ _ _ _ Q12) in M3.
  pose proof (moved_trans _ _ _ _ _ _ _ Q12 M3) as M13. cbn [app] in M13.
  eapply wp_step; [apply (extract_spec num level h3 es e false w w3); try done; [lia|lia|]|].
  { intros [Hc|Hc] Ht; [by rewrite Hc in Ht|]. specialize (Hos3 Hc).
    apply (os_entropy_window _ _ _ _ _ Hos3); [apply (moved_ticks _ _ _ _ Q12)|done]. }
  intros [ret out] w4 (Er & Hrange & M4 & Hpost). cbn [fst snd] in Er, Hpost. rewrite orb_false_r in *. subst ret.
  destruct (m_strongly_seeded w) eqn:Es.
  - apply wp_bind, wp_ret, feed_back_spec, Hpost. done.
  - clear Hpost. eapply (wp_step _ _ _ _ (request_post num level w)); [|intros; by apply feed_back_spec].
    eapply wp_step; [apply CSHA512_local_spec; by eapply moved_size|]. intros h5 w5 [Habs5 Q5].
    eapply wp_step; [apply links_startup; [by eapply moved_size|exact Habs5|cbn [length]; lia]|].
    intros h6 w6 (es6 & e6 & Habs6 & Hl6 & Hn6 & M6 & Hos6). cbn [app] in Habs6.
    rewrite (moved_seeded _ _ _ _ Q5), (moved_seeded _ _ _ _ M4) in M6.
    rewrite (moved_seeded _ _ _ _ M4) in Q5.
    pose proof (moved_trans _ _ _ _ _ _ _ M4 (moved_trans _ _ _ _ _ _ _ Q5 M6)) as M16. cbn [app] in M16.
    eapply wp_step; [apply (extract_spec num level h6 ((es ++ [e]) ++ es6) e6 true w w6); rewrite ?Es; try done;
      [lia|rewrite !length_app; cbn; lia|]|].
    { intros _ _. pose proof (moved_ticks _ _ _ _ M4). pose proof (moved_ticks _ _ _ _ Q5).
      apply (os_entropy_window _ _ _ _ _ Hos6); [lia|done]. }
    intros [r' out'] w7 (_ & _ & _ & Hpost). apply wp_ret, Hpost. by rewrite Es.
Qed.

Lemma sanity_loop_spec n marks w : state_size w → wp total (sanity_loop n marks) w (λ _ w', quiet w w').
Proof using Type*.
  revert marks w. induction n as [|n IH]; intros marks w Hw; cbn [sanity_loop]; [apply wp_ret; auto with rng|].
  eapply wp_step; [by apply GetOSRand_spec|]. intros data w1 [_ Q1]. case_match; [|by apply wp_ret].
  eapply wp_mono; [apply IH; by eapply moved_size|]. intros a w2 Q2. exact (quiet_trans _ _ _ Q1 Q2).
Qed.

Lemma Random_SanityCheck_spec w : state_size w →
  wp total Random_SanityCheck w (λ _ w', ∃ pre, (length pre <= 1)%nat ∧ moved pre (m_strongly_seeded w) w w').
Proof using Type*.
  intros Hw. eapply wp_step; [by apply wp_answer|]. intros c w1 (_ & _ & Q1).
  eapply wp_step; [apply sanity_loop_spec; by eapply moved_size|]. intros marks w2 Q2. pose proof (quiet_trans _ _ _ Q1 Q2) as Q12.
  case_match; [apply wp_ret; exists []; split; [cbn; lia|done]|].
  eapply wp_step; [apply wp_answer; by eapply moved_size|]. intros c' w3 (_ & _ & Q3). pose proof (quiet_trans _ _ _ Q12 Q3) as Q13.
  case_match; [apply wp_ret; exists []; split; [cbn; lia|done]|].
  eapply wp_step; [apply CSHA512_local_spec; by eapply moved_size|]. intros h w4 [Habs Q4]. pose proof (quiet_trans _ _ _ Q13 Q4) as Q14.
  eapply wp_step; [apply GetRNGState_spec; by eapply moved_size|]. intros [] w5 Q5. pose proof (quiet_trans _ _ _ Q14 Q5) as Q15.
  eapply wp_step.
  - apply MixExtract_spec; [by eapply moved_size| | |lia].
    + apply absorbed512_Write64; [apply absorbed512_Write64; [exact Habs|cbn; lia]|]. cbn [app]. rewrite length_le_bytes. lia.
    + rewrite !length_app, !length_le_bytes. cbn. lia.
  - intros [r out] w6 (_ & _ & M). rewrite orb_false_r, (moved_seeded _ _ _ _ Q15) in M.
    apply wp_ret. eexists. split; [|exact (moved_trans _ _ _ _ _ _ _ Q15 M)]. cbn. lia.
Qed.

Definition request_int (q : request) : Prop := match q with Bytes num _ => sfits 32 num | Sanity => True end.
Definition request_fits (q : request) : Prop := match q with Bytes num _ => 0 <= num <= 32 | Sanity => True end.

Lemma serve_all_spec qs w :
  state_size w → Forall request_int qs → (total = true → Forall request_fits qs) →
  wp total (serve_all fuel qs) w (λ outs w', ∃ es b,
    explained (m_strongly_seeded w) (ticks w) (rng_of w) qs outs es ∧ moved es b w w').
Proof using Type*.
  revert w. induction qs as [|q qs IH]; intros w Hw Hint Hfit; cbn [serve_all].
  { apply wp_ret. exists [], (m_strongly_seeded w). split; [constructor|auto with rng]. }
  apply Forall_cons_1 in Hint as [Hq Hint].
  assert (total = true → Forall request_fits qs) as Hfit' by (intros Ht; by destruct (Forall_cons_1 _ _ _ (Hfit Ht))).
  destruct q as [num level|]; cbn [serve].
  - eapply wp_step; [apply ProcRand_spec; [done..|]|].
    { intros Ht. by destruct (Forall_cons_1 _ _ _ (Hfit Ht)). }
    intros out w1 (pre & e & Hn & Hp & -> & M1 & Hos). eapply wp_step; [apply IH; [by eapply moved_size|done..]|].
    intros outs w2 (es & b & Hex & M2). apply wp_ret. rewrite (moved_seeded _ _ _ _ M1), (moved_rng _ _ _ _ M1) in Hex.
    exists ((pre ++ [e]) ++ es), b. split; [|exact (moved_trans _ _ _ _ _ _ _ M1 M2)]. by econstructor.
  - eapply (wp_step _ _ _ _ (λ out w', out = [] ∧ ∃ pre, (length pre <= 1)%nat ∧ moved pre (m_strongly_seeded w) w w')).
    { eapply wp_step; [by apply Random_SanityCheck_spec|]. intros ? w1 Hpre. by apply wp_ret. }
    intros out w1 (-> & pre & Hp & M1). eapply wp_step; [apply IH; [by eapply moved_size|done..]|].
    intros outs w2 (es & b & Hex & M2). apply wp_ret. rewrite (moved_seeded _ _ _ _ M1), (moved_rng _ _ _ _ M1) in Hex.
    exists (pre ++ es), b. split; [|exact (moved_trans _ _ _ _ _ _ _ M1 M2)]. by econstructor.
Qed.
End seeders.

(** ** Properties *)

(** C22: whatever requests are made of the generator in the life of a process, what
    they return is explained by a SHA-512 hash chain over the entropy gathered: the
    output of a request is the front of the digest of a link of its own, the back of
    every digest is the state hashed into the next link together with a counter, so
    the two halves are never mixed up and no digest is handed out twice.  The link of the
    first request, before which nothing is handed out, and of every slow request takes
    in 32 bytes read from [/dev/urandom] during that request.  A request for fewer
    than 0 or more than 32 bytes does not return; and on a host whose sources answer
    and whose clock runs every other request does. *)
Theorem rng_is_a_hash_chain (H : Host) (fuel : nat) (qs : list request) :
  HostLaws H → Z.of_nat fuel < 2 ^ 50 → Forall request_int qs →
  (∀ outs w', serve_all fuel qs World_new = Returned outs w' →
    ∃ es, explained false 0 (replicate 32 0, 0) qs outs es ∧ (m_state w', m_counter w') = hash_chain (replicate 32 0, 0) es) ∧
  (HostAnswers H fuel → Forall request_fits qs → ∃ outs w', serve_all fuel qs World_new = Returned outs w').
Proof.
  intros HL Hf Hint. split.
  - intros outs w' E.
    pose proof (serve_all_spec fuel Hf false ltac:(done) qs World_new eq_refl Hint ltac:(done)) as Hspec.
    unfold wp in Hspec. rewrite E in Hspec. destruct Hspec as (es & b & Hex & M). exists es. split; [exact Hex|].
    exact (moved_rng _ _ _ _ M).
  - intros HA Hfit. pose proof (serve_all_spec fuel Hf true (λ _, HA) qs World_new eq_refl Hint (λ _, Hfit)) as Hspec.
    unfold wp in Hspec. destruct (serve_all fuel qs World_new) as [outs w'| |]; [by exists outs, w'|done..].
Qed.

(** A machine on which everything works at once, with [rdrand] but without
    [rdseed]; [read] returns one byte at a time. *)
Definition example_host : Host := {|
  perf t := Z.of_nat t; micros t := 10 ^ 8 * (1 + Z.of_nat t); stack _ := 0x7ffc00001000;
  cpuid leaf _ := (0, 0, if leaf =? 1 then 0x40000000 else 0, 0);
  rdrand t := (Z.of_nat t, true); rdseed t := (0, true); urandom_open _ := 3;
  urandom_read t n := (1, [Z.of_nat t mod 256]); RAND_bytes _ := replicate 32 9; memory _ := replicate 128 0xcc;
|}.

Lemma example_laws : HostLaws example_host.
Proof.
  split; [|intros t; reflexivity..]. intros t n r stored E _. cbn in E. by injection E as <- <-.
Qed.

Lemma example_answers : HostAnswers example_host 10.
Proof.
  split; cbn.
  - done.
  - intros t n Hn. cbn. lia.
  - intros t. lia.
  - intros t. exists 0%nat. split; [lia|done].
  - intros t d Hd. exists 1%nat. split; [lia|]. intros m Hm. lia.
Qed.

Lemma rng_is_a_hash_chain_witness :
  let qs := [Bytes 32 FAST; Sanity; Bytes 0 SLEEP; Bytes 16 SLOW] in
  ∃ outs w' es, @serve_all example_host 10 qs World_new = Returned outs w' ∧
    @explained example_host false 0 (replicate 32 0, 0) qs outs es.
Proof.
  intros qs. assert (Forall request_int qs) as Hint by (unfold qs; repeat constructor; unfold request_int, sfits; lia).
  destruct (rng_is_a_hash_chain example_host 10 qs example_laws ltac:(lia) Hint) as [Hchain Hreturn].
  destruct (Hreturn example_answers ltac:(unfold qs; repeat constructor; lia)) as (outs & w' & E).
  destruct (Hchain outs w' E) as (es & Hex & _). exists outs, w', es. split; [exact E|exact Hex].
Defined.
