(* ===== verification/Random.v ===== *)
(** * Fast random numbers and shuffling: [random.h]

    [FastRandomContext] cuts numbers out of a ChaCha20 stream through a 64-byte
    buffer and a 64-bit buffer; it takes its key from the process-wide generator of
    [Rng] when it is first used, unless it was given one.  It is proved to refine a
    reader of the stream that keeps the unread bytes and bits as lists, whatever its
    uninitialised buffers held.  [randrange] is rejection sampling over the fewest
    bits that can hold the range, and [Shuffle], which works with any generator that
    honours ranges, reaches every order of its elements by exactly one sequence of
    draws. *)

From Stdlib Require Import ZifyNat.
From stdpp Require Import base list numbers decidable option sorting.
From S2P Require Import Prelude ArithUint256 Uint256 MdHash Sha512 ChaCha20 Rng.

Open Scope Z_scope.

(** ** [class FastRandomContext] *)

Record FastRandomContext := mk_FastRandomContext {
  requires_seed : bool;
  rng : list Z;
  bytebuf : list Z;
  bytebuf_size : Z;
  bitbuf : Z;
  bitbuf_size : Z;
}.

Definition set_bytes (c : FastRandomContext) (buf : list Z) (size : Z) : FastRandomContext :=
  mk_FastRandomContext (requires_seed c) (rng c) buf size (bitbuf c) (bitbuf_size c).
Definition set_bits (c : FastRandomContext) (bits size : Z) : FastRandomContext :=
  mk_FastRandomContext (requires_seed c) (rng c) (bytebuf c) (bytebuf_size c) bits size.
Definition set_cipher (c : FastRandomContext) (r : list Z) : FastRandomContext :=
  mk_FastRandomContext (requires_seed c) r (bytebuf c) (bytebuf_size c) (bitbuf c) (bitbuf_size c).

(** The constructors; [buf] and [bits] are what the buffers hold in memory. *)
Definition FastRandomContext_seeded (buf : list Z) (bits : Z) (seed : list Z) : FastRandomContext :=
  mk_FastRandomContext false (SetKey seed 32) buf 0 bits 0.
Definition FastRandomContext_new (buf : list Z) (bits : Z) (fDeterministic : bool) : FastRandomContext :=
  mk_FastRandomContext (negb fDeterministic) (if fDeterministic then SetKey (replicate 32 0) 32 else ChaCha20_empty) buf 0 bits 0.

(** [operator=(FastRandomContext&& from)]: the new value of [*this] and of [from]. *)
Definition FastRandomContext_move (this from : FastRandomContext) : FastRandomContext * FastRandomContext :=
  (mk_FastRandomContext (requires_seed from) (rng from) (bytebuf from) (bytebuf_size from) (bitbuf from) (bitbuf_size from),
   mk_FastRandomContext true (rng from) (bytebuf from) 0 (bitbuf from) 0).

Section context.
Context `{H : Host}.
Context (fuel : nat).
Implicit Types c : FastRandomContext.

Definition RandomSeed c : R FastRandomContext :=
  seed ← GetRandHash fuel;
  mret (mk_FastRandomContext false (SetKey seed 32) (bytebuf c) (bytebuf_size c) (bitbuf c) (bitbuf_size c)).

(** [rng.Keystream(out, bytes)]. *)
Definition cipher_bytes c (bytes : nat) : R (list Z * FastRandomContext) := λ w,
  match Keystream (rng c) bytes with Some (out, r) => Returned (out, set_cipher c r) w | None => Unfinished end.

Definition seed_if_required c : R FastRandomContext := if requires_seed c then RandomSeed c else mret c.

Definition FillByteBuffer c : R FastRandomContext :=
  c ← seed_if_required c;
  '(buf, c) ← cipher_bytes c 64;
  mret (set_bytes c buf 64).

Definition rand64 c : R (Z * FastRandomContext) :=
  c ← (if bytebuf_size c <? 8 then FillByteBuffer c else mret c);
  mret (ReadLE64 (bytebuf c) (Z.to_nat (64 - bytebuf_size c)), set_bytes c (bytebuf c) (bytebuf_size c - 8)).

Definition FillBitBuffer c : R FastRandomContext :=
  '(r, c) ← rand64 c;
  mret (set_bits c r 64).

Definition randbits (bits : Z) c : R (Z * FastRandomContext) :=
  if bits =? 0 then mret (0, c)
  else if 32 <? bits then '(r, c) ← rand64 c; mret (Z.shiftr r (64 - bits), c)
  else
    c ← (if bitbuf_size c <? bits then FillBitBuffer c else mret c);
    mret (Z.land (bitbuf c) (Z.shiftr (2 ^ 64 - 1) (64 - bits)),
          set_bits c (Z.shiftr (bitbuf c) bits) (bitbuf_size c - bits)).

(** [while (true)], for at most [n] draws. *)
Fixpoint randrange_loop (n : nat) (range bits : Z) c : R (Z * FastRandomContext) :=
  match n with
  | O => λ _, Unfinished
  | S n => '(ret, c) ← randbits bits c; if ret <=? range then mret (ret, c) else randrange_loop n range bits c
  end.
Definition randrange (range : Z) c : R (Z * FastRandomContext) :=
  let range := wrap64 (range - 1) in randrange_loop fuel range (CountBits range) c.

Definition rand32 c : R (Z * FastRandomContext) := '(r, c) ← randbits 32 c; mret (wrap32 r, c).
Definition randbool c : R (bool * FastRandomContext) := '(r, c) ← randbits 1 c; mret (negb (r =? 0), c).

Definition rand256 c : R (list Z * FastRandomContext) :=
  c ← (if bytebuf_size c <? 32 then FillByteBuffer c else mret c);
  mret (take 32 (drop (Z.to_nat (64 - bytebuf_size c)) (bytebuf c)), set_bytes c (bytebuf c) (bytebuf_size c - 32)).

Definition randbytes (len : nat) c : R (list Z * FastRandomContext) :=
  c ← seed_if_required c;
  if (0 <? len)%nat then cipher_bytes c len else mret ([], c).

(** ** [GetRand], [GetRandMicros], [GetRandInt] *)

(** The context is a temporary; [g_mock_deterministic_tests] is false in the program. *)
Definition GetRand (mock : bool) (buf : list Z) (bits : Z) (nMax : Z) : R Z :=
  '(r, _) ← randrange nMax (FastRandomContext_new buf bits mock); mret r.
Definition GetRandMicros (mock : bool) (buf : list Z) (bits : Z) (duration_max : Z) : R Z :=
  r ← GetRand mock buf bits (wrap64 duration_max); mret (swrap64 r).
Definition GetRandInt (mock : bool) (buf : list Z) (bits : Z) (nMax : Z) : R Z :=
  r ← GetRand mock buf bits (wrap64 nMax); mret (swrap32 r).
End context.

(** ** [Shuffle] *)

(** What [Shuffle] asks of its generator: a draw below a bound, or no answer. *)
Class Randrange (G : Type) := draw : Z → G → option (Z * G).

Class RandrangeLaws (G : Type) `{Randrange G} (ok : G → Prop) : Prop := {
  draw_range n g j g' : ok g → 0 < n < 2 ^ 64 → draw n g = Some (j, g') → 0 <= j < n;
  draw_ok n g j g' : ok g → 0 < n < 2 ^ 64 → draw n g = Some (j, g') → ok g';
}.

(** A context and the process it runs in, as such a generator. *)
#[global] Instance FastRandomContext_randrange `{Host} (fuel : nat) : Randrange (FastRandomContext * World) :=
  λ range g, match randrange fuel range g.1 g.2 with Returned (j, c) w => Some (j, (c, w)) | _ => None end.

Section shuffle.
Context {A G : Type} `{Randrange G}.

(** [swap( *first, *(first + j))]; [None] where an iterator leaves the range. *)
Definition swap_at (l : list A) (i j : nat) : option (list A) :=
  x ← l !! i; y ← l !! j; Some (<[j := x]> (<[i := y]> l)).

(** [while (first != last)]; [k] is [last - first] and [i] the position of [first]. *)
Fixpoint shuffle_loop (k i : nat) (l : list A) (g : G) : option (list A * G) :=
  match k with
  | O => Some (l, g)
  | S k' =>
      '(j, g) ← draw (Z.of_nat k) g;
      l ← (if j =? 0 then Some l else swap_at l i (i + Z.to_nat j));
      shuffle_loop k' (S i) l g
  end.
Definition Shuffle (l : list A) (g : G) : option (list A * G) := shuffle_loop (length l) 0 l g.
End shuffle.

(** ** Specification: a reader of the key stream *)

Module Reader.
(** The block position of the stream of [key] up to which it was read, the bytes of
    the last block kept and not read yet, and the bits not read yet, lowest first. *)
Record reader := mk_reader { position : Z; unread : list Z; bits : list bool }.

Definition fresh : reader := mk_reader 0 [] [].

Fixpoint bits_of (n : nat) (x : Z) : list bool :=
  match n with O => [] | S n => Z.odd x :: bits_of n (Z.div2 x) end.
Fixpoint number (l : list bool) : Z :=
  match l with [] => 0 | b :: l => Z.b2z b + 2 * number l end.

Section reader.
Context (key : list Z).

(** [n] bytes; what is left of a block is skipped when it is too short. *)
Definition next_bytes (n : nat) (d : reader) : list Z * reader :=
  if (length (unread d) <? n)%nat then
    let b := ChaChaSpec.block key (position d) in (take n b, mk_reader (position d + 1) (drop n b) (bits d))
  else (take n (unread d), mk_reader (position d) (drop n (unread d)) (bits d)).

Definition next_word (d : reader) : Z * reader := let '(b, d) := next_bytes 8 d in (le_value b, d).

(** Up to 32 bits are taken from a word of which the rest is kept; more are the top
    of a word of their own. *)
Definition next_bits (n : nat) (d : reader) : Z * reader :=
  if (32 <? n)%nat then let '(x, d) := next_word d in (x / 2 ^ (64 - Z.of_nat n), d)
  else
    let '(l, d) := if (length (bits d) <? n)%nat then let '(x, d) := next_word d in (bits_of 64 x, d) else (bits d, d) in
    (number (take n l), mk_reader (position d) (unread d) (drop n l)).

Definition next_blocks (n : nat) (d : reader) : list Z * reader :=
  (take n (ChaChaSpec.blocks key (position d) (ChaChaSpec.needed n)),
   mk_reader (position d + Z.of_nat (ChaChaSpec.needed n)) (unread d) (bits d)).
End reader.
End Reader.

(** The operations and what they give: a number, or bytes. *)
Inductive operation := Rand64 | RandBits (n : nat) | Rand32 | RandBool | Rand256 | RandBytes (len : nat).

Definition operation_ok (o : operation) : Prop := match o with RandBits n => (n <= 64)%nat | _ => True end.

Definition perform `{Host} (fuel : nat) (o : operation) (c : FastRandomContext) : R ((Z + list Z) * FastRandomContext) :=
  match o with
  | Rand64 => '(x, c) ← rand64 fuel c; mret (inl x, c)
  | RandBits n => '(x, c) ← randbits fuel (Z.of_nat n) c; mret (inl x, c)
  | Rand32 => '(x, c) ← rand32 fuel c; mret (inl x, c)
  | RandBool => '(b, c) ← randbool fuel c; mret (inl (Z.b2z b), c)
  | Rand256 => '(l, c) ← rand256 fuel c; mret (inr l, c)
  | RandBytes len => '(l, c) ← randbytes fuel len c; mret (inr l, c)
  end.

Fixpoint perform_all `{Host} (fuel : nat) (os : list operation) (c : FastRandomContext) : R (list (Z + list Z) * FastRandomContext) :=
  match os with
  | [] => mret ([], c)
  | o :: os => '(x, c) ← perform fuel o c; '(xs, c) ← perform_all fuel os c; mret (x :: xs, c)
  end.

Definition reading (key : list Z) (o : operation) (d : Reader.reader) : (Z + list Z) * Reader.reader :=
  match o with
  | Rand64 => let '(x, d) := Reader.next_word key d in (inl x, d)
  | RandBits n => let '(x, d) := Reader.next_bits key n d in (inl x, d)
  | Rand32 => let '(x, d) := Reader.next_bits key 32 d in (inl x, d)
  | RandBool => let '(x, d) := Reader.next_bits key 1 d in (inl x, d)
  | Rand256 => let '(l, d) := Reader.next_bytes key 32 d in (inr l, d)
  | RandBytes n => let '(l, d) := Reader.next_blocks key n d in (inr l, d)
  end.

Fixpoint readings (key : list Z) (os : list operation) (d : Reader.reader) : list (Z + list Z) * Reader.reader :=
  match os with
  | [] => ([], d)
  | o :: os => let '(x, d) := reading key o d in let '(xs, d) := readings key os d in (x :: xs, d)
  end.

(** ** Refinement *)

(** A context that has its key, and the reader it implements. *)
Record reads_as (key : list Z) (c : FastRandomContext) (d : Reader.reader) : Prop := {
  ra_seeded : requires_seed c = false;
  ra_key : length key = 16%nat;
  ra_rng : rng c = ChaChaSpec.at_pos key (Reader.position d);
  ra_size : 0 <= bytebuf_size c <= 64;
  ra_bytes : drop (Z.to_nat (64 - bytebuf_size c)) (bytebuf c) = Reader.unread d;
  ra_length : Z.of_nat (length (Reader.unread d)) = bytebuf_size c;
  ra_ok : bytes_ok (Reader.unread d);
  ra_bitsize : 0 <= bitbuf_size c <= 64;
  ra_bits : Reader.bits d = Reader.bits_of (Z.to_nat (bitbuf_size c)) (bitbuf c);
}.

Lemma length_bits_of n x : length (Reader.bits_of n x) = n.
Proof. revert x. induction n as [|n IH]; intros x; [done|]. cbn. by rewrite IH. Qed.

Lemma take_bits_of k n x : (k <= n)%nat → take k (Reader.bits_of n x) = Reader.bits_of k x.
Proof.
  revert n x. induction k as [|k IH]; intros [|n] x Hk; [done|done|lia|]. cbn. f_equal. apply IH. lia.
Qed.

Lemma drop_bits_of k n x : (k <= n)%nat → drop k (Reader.bits_of n x) = Reader.bits_of (n - k) (Z.shiftr x (Z.of_nat k)).
Proof.
  revert n x. induction k as [|k IH]; intros n x Hk; [by rewrite Z.shiftr_0_r, Nat.sub_0_r|].
  destruct n as [|n]; [lia|]. cbn [Reader.bits_of drop Nat.sub]. rewrite IH by lia. f_equal.
  rewrite Z.div2_spec, Z.shiftr_shiftr by lia. f_equal. lia.
Qed.

Lemma number_bits_of n x : Reader.number (Reader.bits_of n x) = x mod 2 ^ Z.of_nat n.
Proof.
  revert x. induction n as [|n IH]; intros x; [by rewrite Z.mod_1_r|]. cbn [Reader.bits_of Reader.number]. rewrite IH.
  rewrite Nat2Z.inj_succ, Z.pow_succ_r, Z.rem_mul_r by lia.
  by rewrite Zmod_odd, Z.div2_div; destruct (Z.odd x).
Qed.

Lemma number_bound l : 0 <= Reader.number l < 2 ^ Z.of_nat (length l).
Proof.
  induction l as [|b l IH]; [done|]. cbn [Reader.number length]. rewrite Nat2Z.inj_succ, Z.pow_succ_r by lia.
  destruct b; cbn [Z.b2z]; lia.
Qed.

(** [~(uint64_t)0 >> (64 - bits)]. *)
Lemma mask_ones n : 0 <= n <= 64 → Z.shiftr (2 ^ 64 - 1) (64 - n) = Z.ones n.
Proof.
  intros Hn. change (2 ^ 64 - 1) with (Z.ones 64). rewrite Z.shiftr_div_pow2, Z.ones_div_pow2 by lia. f_equal. lia.
Qed.

Lemma at_pos_again key p q : length key = 16%nat → ChaChaSpec.at_pos (ChaChaSpec.at_pos key p) q = ChaChaSpec.at_pos key q.
Proof. by intros (a & b & c & d & e & f & g & h & i & j & k & m & n & o & r & s & ->)%list16. Qed.

Lemma blocks_again key p q n : length key = 16%nat →
  ChaChaSpec.blocks (ChaChaSpec.at_pos key p) q n = ChaChaSpec.blocks key q n.
Proof.
  intros Hl. revert q. induction n as [|n IH]; intros q; [done|]. cbn [ChaChaSpec.blocks]. rewrite IH. f_equal.
  unfold ChaChaSpec.block. by rewrite at_pos_again.
Qed.

(** [Keystream] from any position of the stream. *)
Lemma Keystream_at key pos n : length key = 16%nat →
  Keystream (ChaChaSpec.at_pos key pos) n =
    Some (take n (ChaChaSpec.blocks key pos (ChaChaSpec.needed n)), ChaChaSpec.at_pos key (pos + Z.of_nat (ChaChaSpec.needed n))).
Proof.
  intros Hl. unfold Keystream. destruct (Nat.eqb_spec n 0) as [->|Hn].
  - change (ChaChaSpec.needed 0) with 0%nat. by rewrite Z.add_0_r.
  - destruct (at_pos_words key pos Hl) as [Hl' _]. rewrite <- (at_pos_again key pos pos Hl) at 2.
    rewrite keystream_loop_spec by lia. by rewrite blocks_again, at_pos_again.
Qed.

Lemma block_bytes key pos : bytes_ok (ChaChaSpec.block key pos).
Proof.
  unfold ChaChaSpec.block. generalize (zip_with (λ x y, (x + y) mod 2 ^ 32) (ChaChaSpec.flat
    (Nat.iter 10 ChaChaSpec.double (ChaChaSpec.matrix (ChaChaSpec.at_pos key pos)))) (ChaChaSpec.at_pos key pos)).
  intros l. induction l as [|x l IHl]; [constructor|].
  change ((x :: l) ≫= le_bytes 4) with (le_bytes 4 x ++ l ≫= le_bytes 4). apply Forall_app_2; [apply le_bytes_ok|done].
Qed.

(** A key that was just set is at the start of its stream. *)
Lemma SetKey_start seed keylen : length (SetKey seed keylen) = 16%nat ∧ ChaChaSpec.at_pos (SetKey seed keylen) 0 = SetKey seed keylen.
Proof. unfold SetKey. by destruct (keylen =? 32). Qed.

#[local] Opaque ChaChaSpec.block ChaChaSpec.at_pos Keystream SetKey ChaCha20_empty.

Section refinement.
Context `{H : Host} (fuel : nat) (key : list Z).
Implicit Types (c : FastRandomContext) (d : Reader.reader).

(** The run returns what the reader reads, leaves the process alone and implements
    the reader again. *)
Definition implements {B} (m : R (B * FastRandomContext)) (r : B * Reader.reader) : Prop :=
  ∀ w, ∃ c', m w = Returned (r.1, c') w ∧ reads_as key c' r.2.

Lemma FillByteBuffer_spec c d w : reads_as key c d → ∃ c',
  FillByteBuffer fuel c w = Returned c' w ∧
  reads_as key c' (Reader.mk_reader (Reader.position d + 1) (ChaChaSpec.block key (Reader.position d)) (Reader.bits d)) ∧
  bytebuf_size c' = 64.
Proof using Type*.
  intros [S K E Sz B L O BS Bi]. unfold FillByteBuffer, seed_if_required, cipher_bytes, mbind, R_bind. rewrite S.
  cbn [mret R_ret]. unfold mret, R_ret. rewrite E, Keystream_at by done. eexists. split; [reflexivity|]. split; [|done].
  assert (take 64 (ChaChaSpec.blocks key (Reader.position d) (ChaChaSpec.needed 64)) = ChaChaSpec.block key (Reader.position d)) as Eb.
  { destruct (take_blocks_last key (Reader.position d) 64 K ltac:(lia)) as [-> _]. apply take_ge. by rewrite length_block. }
  cbn [set_bytes set_cipher]. rewrite Eb. split; cbn [requires_seed rng bytebuf bytebuf_size bitbuf bitbuf_size Reader.position Reader.unread Reader.bits].
  - exact S.
  - exact K.
  - reflexivity.
  - change (0 <= 64 <= 64); lia.
  - reflexivity.
  - by rewrite length_block.
  - apply block_bytes.
  - exact BS.
  - exact Bi.
Qed.

(** Reading [n] bytes through the buffer. *)
Lemma buffer_spec n c d : (0 < n <= 64)%nat → reads_as key c d →
  implements (c ← (if bytebuf_size c <? Z.of_nat n then FillByteBuffer fuel c else mret c);
    mret (take n (drop (Z.to_nat (64 - bytebuf_size c)) (bytebuf c)), set_bytes c (bytebuf c) (bytebuf_size c - Z.of_nat n)))
    (Reader.next_bytes key n d).
Proof using Type*.
  intros Hn R w.
  assert (∀ c1 d1, reads_as key c1 d1 → Z.of_nat n <= bytebuf_size c1 →
    take n (drop (Z.to_nat (64 - bytebuf_size c1)) (bytebuf c1)) = take n (Reader.unread d1) ∧
    reads_as key (set_bytes c1 (bytebuf c1) (bytebuf_size c1 - Z.of_nat n))
      (Reader.mk_reader (Reader.position d1) (drop n (Reader.unread d1)) (Reader.bits d1))) as Hread.
  { intros c1 d1 [S K E Sz B L O BS Bi] Hle. split; [by rewrite B|]. split.
    - exact S.
    - exact K.
    - exact E.
    - change (0 <= bytebuf_size c1 - Z.of_nat n <= 64). lia.
    - change (drop (Z.to_nat (64 - (bytebuf_size c1 - Z.of_nat n))) (bytebuf c1) = drop n (Reader.unread d1)).
      rewrite <- B, drop_drop. f_equal. lia.
    - change (Z.of_nat (length (drop n (Reader.unread d1))) = bytebuf_size c1 - Z.of_nat n). rewrite length_drop. lia.
    - by apply Forall_drop.
    - exact BS.
    - exact Bi. }
  unfold Reader.next_bytes, mbind, R_bind. pose proof (ra_length _ _ _ R) as Hlen.
  destruct (Z.ltb_spec (bytebuf_size c) (Z.of_nat n)); destruct (Nat.ltb_spec (length (Reader.unread d)) n); [|lia|lia|].
  - destruct (FillByteBuffer_spec c d w R) as (c1 & -> & R1 & Es). destruct (Hread _ _ R1 ltac:(lia)) as [E R2]. cbn in E, R2.
    eexists. split; [unfold mret, R_ret; by rewrite E|exact R2].
  - destruct (Hread _ _ R ltac:(lia)) as [E R2]. eexists. split; [unfold mret, R_ret; by rewrite E|exact R2].
Qed.

Lemma rand64_spec c d : reads_as key c d → implements (rand64 fuel c) (Reader.next_word key d).
Proof using Type*.
  intros R w. destruct (buffer_spec 8 c d ltac:(lia) R w) as (c' & E & R').
  unfold Reader.next_word. destruct (Reader.next_bytes key 8 d) as [b d'] eqn:Eb. cbn [fst snd] in *. exists c'. split; [|done].
  revert E. unfold rand64, mbind, R_bind, mret, R_ret. change (Z.of_nat 8) with 8.
  destruct (if bytebuf_size c <? 8 then FillByteBuffer fuel c else _) as [c1 w1| |]; [|done..].
  intros E. injection E as <- <- <-. done.
Qed.

Lemma next_word_bound d : Forall byte_ok (Reader.unread d) → fits 64 (Reader.next_word key d).1.
Proof using Type*.
  intros Hd. assert (∀ l, bytes_ok l → fits 64 (le_value (take 8 l))) as Hf.
  { intros l Hl. pose proof (le_value_bound (take 8 l) (Forall_take _ _ _ Hl)) as Hb. rewrite length_take in Hb.
    assert (256 ^ Z.of_nat (Nat.min 8 (length l)) <= 256 ^ 8) by (apply Z.pow_le_mono_r; lia). unfold fits.
    change (2 ^ 64) with (256 ^ 8). lia. }
  unfold Reader.next_word, Reader.next_bytes. destruct (length (Reader.unread d) <? 8)%nat; cbn [fst]; apply Hf; [apply block_bytes|done].
Qed.

(** The bits kept, with a new word when there are too few. *)
Lemma FillBitBuffer_spec n c d w : (n <= 32)%nat → reads_as key c d → ∃ c1 l d1,
  (if (length (Reader.bits d) <? n)%nat then let '(x, d) := Reader.next_word key d in (Reader.bits_of 64 x, d) else (Reader.bits d, d)) = (l, d1) ∧
  (if bitbuf_size c <? Z.of_nat n then FillBitBuffer fuel c else mret c) w = Returned c1 w ∧
  l = Reader.bits_of (Z.to_nat (bitbuf_size c1)) (bitbuf c1) ∧ Z.of_nat n <= bitbuf_size c1 <= 64 ∧
  ∃ b, reads_as key (set_bits c1 0 0) (Reader.mk_reader (Reader.position d1) (Reader.unread d1) b).
Proof using Type*.
  intros Hn R. pose proof (ra_bits _ _ _ R) as Eb. pose proof (ra_bitsize _ _ _ R) as Hs.
  assert (length (Reader.bits d) = Z.to_nat (bitbuf_size c)) as El by (by rewrite Eb, length_bits_of).
  assert (∀ c d, reads_as key c d → reads_as key (set_bits c 0 0) (Reader.mk_reader (Reader.position d) (Reader.unread d) [])) as Hforget.
  { intros c0 d0 []. split; [assumption..|cbn; lia|reflexivity]. }
  destruct (Nat.ltb_spec (length (Reader.bits d)) n); destruct (Z.ltb_spec (bitbuf_size c) (Z.of_nat n)); [|lia|lia|].
  - destruct (rand64_spec c d R w) as (c1 & E & R1). destruct (Reader.next_word key d) as [x d1]. cbn [fst snd] in *.
    exists (set_bits c1 x 64), (Reader.bits_of 64 x), d1. split_and!; [done| |done|cbn; lia..|].
    + unfold FillBitBuffer, mbind, R_bind. by rewrite E.
    + exists []. exact (Hforget _ _ R1).
  - exists c, (Reader.bits d), d. split_and!; [done..|lia|lia|]. exists []. by apply Hforget.
Qed.

Lemma randbits_spec n c d : (n <= 64)%nat → reads_as key c d →
  implements (randbits fuel (Z.of_nat n) c) (Reader.next_bits key n d).
Proof using Type*.
  intros Hn R w. unfold randbits, Reader.next_bits.
  destruct (Z.eqb_spec (Z.of_nat n) 0) as [E0|E0].
  { assert (n = 0%nat) as -> by lia. exists c. split; [reflexivity|]. by destruct d. }
  destruct (Z.ltb_spec 32 (Z.of_nat n)); destruct (Nat.ltb_spec 32 n); try lia.
  - destruct (rand64_spec c d R w) as (c1 & E & R1).
    destruct (Reader.next_word key d) as [x d1]. cbn [fst snd] in *. exists c1. unfold mbind, R_bind. rewrite E.
    split; [|exact R1]. unfold mret, R_ret. by rewrite Z.shiftr_div_pow2 by lia.
  - destruct (FillBitBuffer_spec n c d w ltac:(lia) R) as (c1 & l & d1 & -> & E & El & Hs & b & R1). cbn [fst snd].
    eexists. unfold mbind, R_bind. rewrite E. split.
    + rewrite El, take_bits_of by lia. by rewrite number_bits_of, mask_ones, Z.land_ones by lia.
    + destruct R1 as [R1 R2 R3 R4 R5 R6 R7 _ _]. split; [exact R1|exact R2|exact R3|exact R4|exact R5|exact R6|exact R7| |].
      * change (0 <= bitbuf_size c1 - Z.of_nat n <= 64). lia.
      * cbn [Reader.bits]. rewrite El, drop_bits_of by lia.
        change (bitbuf_size (set_bits c1 ?a ?b)) with b. change (bitbuf (set_bits c1 ?a ?b)) with a. f_equal. lia.
Qed.

Lemma rand256_spec c d : reads_as key c d → implements (rand256 fuel c) (Reader.next_bytes key 32 d).
Proof using Type*. intros R. exact (buffer_spec 32 c d ltac:(lia) R). Qed.

Lemma randbytes_spec n c d : reads_as key c d → implements (randbytes fuel n c) (Reader.next_blocks key n d).
Proof using Type*.
  intros [S K E Sz B L O BS Bi] w. unfold randbytes, seed_if_required, cipher_bytes, Reader.next_blocks, mbind, R_bind, mret, R_ret.
  rewrite S. destruct (Nat.ltb_spec 0 n).
  - rewrite E, Keystream_at by done. eexists. split; [reflexivity|].
    split; [exact S|exact K|reflexivity|exact Sz|exact B|exact L|exact O|exact BS|exact Bi].
  - assert (n = 0%nat) as -> by lia. change (ChaChaSpec.needed 0) with 0%nat. exists c. split; [reflexivity|].
    cbn [snd]. change (Z.of_nat 0) with 0. rewrite Z.add_0_r.
    split; [exact S|exact K|exact E|exact Sz|exact B|exact L|exact O|exact BS|exact Bi].
Qed.

Lemma next_bits_bound n d : (n <= 64)%nat → bytes_ok (Reader.unread d) → 0 <= (Reader.next_bits key n d).1 < 2 ^ Z.of_nat n.
Proof using Type*.
  intros Hn Hd. pose proof (next_word_bound d Hd) as [H0 H1]. unfold Reader.next_bits.
  destruct (Nat.ltb_spec 32 n).
  - destruct (Reader.next_word key d) as [x d1]. cbn [fst] in *. split; [apply Z.div_pos; lia|].
    apply Z.div_lt_upper_bound; [lia|]. rewrite <- Z.pow_add_r by lia. replace (64 - Z.of_nat n + Z.of_nat n) with 64 by lia. done.
  - match goal with |- context [let '(l, d) := ?e in _] => destruct e as [l d1] end. cbn [fst].
    pose proof (number_bound (take n l)) as [? Hb]. split; [done|]. eapply Z.lt_le_trans; [exact Hb|].
    apply Z.pow_le_mono_r; [lia|]. rewrite length_take. lia.
Qed.

Lemma implements_map {B C} (m : R (B * FastRandomContext)) (f : B → C) r :
  implements m r → implements (r ← m; mret (f r.1, r.2)) (f r.1, r.2).
Proof using Type*. intros Hm w. destruct (Hm w) as (c' & E & R). exists c'. unfold mbind, R_bind. by rewrite E. Qed.

(** [implements] sees only the results of a run. *)
Lemma implements_ext {B} (m m' : R (B * FastRandomContext)) r : (∀ w, m w = m' w) → implements m' r → implements m r.
Proof using Type*. intros E Hm w. rewrite E. apply Hm. Qed.

Lemma perform_spec o c d : operation_ok o → reads_as key c d → implements (perform fuel o c) (reading key o d).
Proof using Type*.
  intros Ho Hr.
  assert (∀ (B : Type) (m : R (B * FastRandomContext)) (f : B → Z + list Z) r, implements m r →
    implements ('(x, c) ← m; mret (f x, c)) (let '(x, d) := r in (f x, d))) as Hmap.
  { intros B m f r Hm. apply (implements_ext _ (r ← m; mret (f r.1, r.2))).
    - intros w. unfold mbind, R_bind. by destruct (m w) as [[] | |].
    - destruct r. exact (implements_map m f _ Hm). }
  destruct o as [|n| | | |n]; cbn [perform reading].
  - by apply (Hmap _ _ inl), rand64_spec.
  - by apply (Hmap _ _ inl), randbits_spec.
  - apply (Hmap _ _ inl). unfold rand32. pose proof (next_bits_bound 32 d ltac:(lia) (ra_ok _ _ _ Hr)) as Hb.
    intros w. destruct (randbits_spec 32 c d ltac:(lia) Hr w) as (c' & E & R'). change (Z.of_nat 32) with 32 in E.
    exists c'. unfold mbind, R_bind. rewrite E. split; [|exact R']. unfold mret, R_ret. by rewrite wrap_id.
  - pose proof (next_bits_bound 1 d ltac:(lia) (ra_ok _ _ _ Hr)) as Hb.
    intros w. destruct (randbits_spec 1 c d ltac:(lia) Hr w) as (c' & E & R'). change (Z.of_nat 1) with 1 in E.
    destruct (Reader.next_bits key 1 d) as [x d']. cbn [fst snd] in *. exists c'. unfold randbool, mbind, R_bind, mret, R_ret. rewrite E.
    split; [|exact R']. cbn beta iota. do 3 f_equal. destruct (Z.eqb_spec x 0); cbn; lia.
  - by apply (Hmap _ _ inr), rand256_spec.
  - by apply (Hmap _ _ inr), randbytes_spec.
Qed.

Lemma perform_all_spec os c d : Forall operation_ok os → reads_as key c d →
  implements (perform_all fuel os c) (readings key os d).
Proof using Type*.
  intros Hos. revert c d. induction Hos as [|o os Ho Hos IH]; intros c d R w; cbn [perform_all readings].
  { by exists c. }
  destruct (perform_spec o c d Ho R w) as (c1 & E1 & R1). destruct (reading key o d) as [x d1]. cbn [fst snd] in *.
  destruct (IH c1 d1 R1 w) as (c2 & E2 & R2). destruct (readings key os d1) as [xs d2]. cbn [fst snd] in *.
  exists c2. unfold mbind, R_bind. rewrite E1. rewrite E2. done.
Qed.

End refinement.

(** A context that was just given its key. *)
Lemma seeded_fresh buf bits seed : length buf = 64%nat →
  reads_as (SetKey seed 32) (FastRandomContext_seeded buf bits seed) Reader.fresh.
Proof.
  intros Hb. destruct (SetKey_start seed 32) as [Hl Hk]. split; cbn; [done..| |lia| |done|done|lia|done].
  - by rewrite Hk.
  - apply drop_ge. lia.
Qed.

(** A context that has to be given its key first: a new one, or one that was moved
    from. *)
Definition needs_seed (c : FastRandomContext) : Prop :=
  requires_seed c = true ∧ bytebuf_size c = 0 ∧ bitbuf_size c = 0.

Lemma perform_seeds `{Host} fuel o c w : needs_seed c → o ≠ RandBits 0 →
  perform fuel o c w =
    (seed ← GetRandHash fuel; perform fuel o (FastRandomContext_seeded (bytebuf c) (bitbuf c) seed)) w.
Proof.
  intros (Hr & Hs & Hb) Ho. destruct c as [rs rg buf size bits bsize]. cbn in *. subst.
  destruct o as [|n| | | |n]; cbn [perform].
  2: destruct n as [|n]; [done|]; unfold randbits; destruct (Z.eqb_spec (Z.of_nat (S n)) 0); [lia|];
     destruct (Z.ltb_spec 32 (Z.of_nat (S n))).
  all: unfold rand32, randbool, rand256, randbytes, randbits, FillBitBuffer, rand64, FillByteBuffer, seed_if_required, RandomSeed,
         mbind, R_bind, FastRandomContext_seeded.
  all: cbn [bitbuf_size bytebuf_size requires_seed].
  all: try change (0 <? 8) with true; try change (0 <? 32) with true; try change (0 <? 1) with true; try change (0 <? Z.of_nat (S n)) with true.
  all: try change (32 =? 0) with false; try change (32 <? 32) with false; try change (1 =? 0) with false; try change (32 <? 1) with false.
  all: cbv beta iota; destruct (GetRandHash fuel w); reflexivity.
Qed.

Lemma perform_all_seeds `{Host} fuel o os c w : needs_seed c → o ≠ RandBits 0 →
  perform_all fuel (o :: os) c w =
    (seed ← GetRandHash fuel; perform_all fuel (o :: os) (FastRandomContext_seeded (bytebuf c) (bitbuf c) seed)) w.
Proof.
  intros Hc Ho. cbn [perform_all]. unfold mbind, R_bind. rewrite (perform_seeds fuel o c w Hc Ho).
  unfold mbind, R_bind. by destruct (GetRandHash fuel w).
Qed.

(** ** Drawing below a bound *)

Lemma CountBits_loop_spec n x ret : 0 <= x < 2 ^ Z.of_nat n →
  CountBits_loop n x ret = ret + (if x =? 0 then 0 else Z.log2 x + 1).
Proof.
  revert x ret. induction n as [|n IH]; intros x ret Hx.
  { assert (x = 0) as -> by (cbn in Hx; lia). cbn. lia. }
  cbn [CountBits_loop]. destruct (Z.eqb_spec x 0); [lia|]. rewrite Nat2Z.inj_succ, Z.pow_succ_r in Hx by lia.
  rewrite IH by (rewrite <- Z.div2_spec, Z.div2_div; divlia). rewrite <- Z.div2_spec, Z.div2_div.
  destruct (Z.eqb_spec (x / 2) 0).
  - assert (x = 1) as -> by divlia. cbn. lia.
  - replace (Z.log2 x) with (Z.log2 (x / 2) + 1); [lia|]. rewrite <- Z.div2_div, Z.div2_spec.
    rewrite Z.log2_shiftr by lia. assert (Z.log2 2 <= Z.log2 x) as Hlog by (apply Z.log2_le_mono; divlia).
    change (Z.log2 2) with 1 in Hlog. lia.
Qed.

(** The smallest number of bits that holds [x]. *)
Lemma CountBits_spec x : u64_ok x →
  0 <= CountBits x <= 64 ∧ x < 2 ^ CountBits x ∧ (∀ n, 0 <= n → x < 2 ^ n → CountBits x <= n).
Proof.
  intros [H0 H1]. unfold CountBits. rewrite CountBits_loop_spec by done. destruct (Z.eqb_spec x 0) as [->|Hx]; [cbn; split_and!; try lia; intros; lia|].
  pose proof (Z.log2_spec x ltac:(lia)) as [_ Hlog]. assert (Z.log2 x < 64) by (apply Z.log2_lt_pow2; lia).
  pose proof (Z.log2_nonneg x). split; [lia|]. split; [by rewrite Z.add_0_l, Z.add_1_r|].
  intros n Hn Hlt. assert (Z.log2 x < n) by (apply Z.log2_lt_pow2; lia). lia.
Qed.

(** The successive values of [n] bits a reader gives, and the reader after each. *)
Fixpoint samples (key : list Z) (n k : nat) (d : Reader.reader) : list (Z * Reader.reader) :=
  match k with O => [] | S k => let r := Reader.next_bits key n d in r :: samples key n k r.2 end.

Definition accepted (top : Z) (r : Z * Reader.reader) : bool := r.1 <=? top.

Lemma randrange_loop_spec `{Host} fuel key n top c d w : ∀ k,
  reads_as key c d → (n <= 64)%nat →
  match list_find (λ r, accepted top r = true) (samples key n k d) with
  | Some (_, (v, d')) => ∃ c', randrange_loop fuel k top (Z.of_nat n) c w = Returned (v, c') w ∧ reads_as key c' d'
  | None => randrange_loop fuel k top (Z.of_nat n) c w = Unfinished
  end.
Proof.
  intros k. revert c d. induction k as [|k IH]; intros c d Hr Hn; [done|]. cbn [samples randrange_loop list_find].
  destruct (randbits_spec fuel key n c d Hn Hr w) as (c1 & E & R1). unfold mbind, R_bind. rewrite E.
  destruct (Reader.next_bits key n d) as [v d1]. cbn [fst snd] in *.
  case_decide as Ev; unfold accepted in Ev; cbn [fst] in Ev.
  - rewrite Ev. by exists c1.
  - apply not_true_is_false in Ev. rewrite Ev. specialize (IH c1 d1 R1 Hn).
    destruct (list_find _ (samples key n k d1)) as [[i [v' d']]|]; exact IH.
Qed.

Lemma next_bytes_ok key n d : bytes_ok (Reader.unread d) → bytes_ok (Reader.unread (Reader.next_bytes key n d).2).
Proof.
  intros Hd. unfold Reader.next_bytes. destruct (length (Reader.unread d) <? n)%nat; cbn; apply Forall_drop; [apply block_bytes|done].
Qed.

Lemma next_bits_ok key n d : bytes_ok (Reader.unread d) → bytes_ok (Reader.unread (Reader.next_bits key n d).2).
Proof.
  intros Hd. pose proof (next_bytes_ok key 8 d Hd) as Hb. unfold Reader.next_bits, Reader.next_word.
  destruct (Reader.next_bytes key 8 d) as [b d1]. cbn [snd] in Hb. destruct (32 <? n)%nat; [done|].
  by destruct (length (Reader.bits d) <? n)%nat.
Qed.

Lemma samples_bound key n k d : (n <= 64)%nat → bytes_ok (Reader.unread d) →
  Forall (λ r, 0 <= r.1 < 2 ^ Z.of_nat n) (samples key n k d).
Proof.
  intros Hn. revert d. induction k as [|k IH]; intros d Hd; [constructor|]. cbn [samples]. constructor.
  - by apply next_bits_bound.
  - apply IH. by apply next_bits_ok.
Qed.

(** ** Contexts honour ranges *)

Definition context_ok (g : FastRandomContext * World) : Prop :=
  (needs_seed g.1 ∧ length (bytebuf g.1) = 64%nat) ∨ ∃ key d, reads_as key g.1 d.

Lemma randbits_range `{Host} fuel n c w v c' w' : (n <= 64)%nat → context_ok (c, w) →
  randbits fuel (Z.of_nat n) c w = Returned (v, c') w' → 0 <= v < 2 ^ Z.of_nat n ∧ context_ok (c', w').
Proof.
  intros Hn Hc E. assert (∀ c w, (∃ key d, reads_as key c d) → randbits fuel (Z.of_nat n) c w = Returned (v, c') w' →
    0 <= v < 2 ^ Z.of_nat n ∧ context_ok (c', w')) as Hseeded.
  { intros c0 w0 (key & d & Hr) E0. destruct (randbits_spec fuel key n c0 d Hn Hr w0) as (c1 & E1 & R1).
    rewrite E1 in E0. injection E0 as <- <- <-. split; [apply next_bits_bound; [done|apply Hr]|]. right. by eexists _, _. }
  destruct Hc as [[Hneeds Hbuf]|Hr]; [|by apply (Hseeded c w)].
  destruct n as [|n]; [injection E as <- <- <-; split; [cbn; lia|by left]|].
  pose proof (perform_seeds fuel (RandBits (S n)) c w Hneeds ltac:(done)) as Ep. cbn [perform] in Ep.
  unfold mbind, R_bind in Ep. rewrite E in Ep. destruct (GetRandHash fuel w) as [seed w1| |]; [|done..].
  destruct (randbits fuel (Z.of_nat (S n)) (FastRandomContext_seeded (bytebuf c) (bitbuf c) seed) w1) as [[v1 c1] w2| |] eqn:E1; [|done..].
  injection Ep as <- <- <-. apply (Hseeded _ _ ltac:(eexists _, _; apply seeded_fresh, Hbuf) E1).
Qed.

Lemma randrange_range `{Host} fuel range c w v c' w' : context_ok (c, w) → 0 < range < 2 ^ 64 →
  randrange fuel range c w = Returned (v, c') w' → 0 <= v < range ∧ context_ok (c', w').
Proof.
  intros Hc Hrange. unfold randrange. rewrite wrap_id by (unfold fits; lia).
  destruct (CountBits_spec (range - 1) ltac:(unfold fits; lia)) as (Hb & _ & _). rewrite <- (Z2Nat.id (CountBits (range - 1))) by lia.
  assert (Z.to_nat (CountBits (range - 1)) <= 64)%nat as Hn by lia. clear Hb. revert Hn.
  generalize (Z.to_nat (CountBits (range - 1))). intros n Hn. generalize fuel at 2. intros k. revert c w Hc.
  induction k as [|k IH]; intros c w Hc; [done|]. cbn [randrange_loop]. unfold mbind, R_bind.
  destruct (randbits fuel (Z.of_nat n) c w) as [[v1 c1] w1| |] eqn:E1; [|done..].
  destruct (randbits_range _ _ _ _ _ _ _ Hn Hc E1) as [Hv Hc1]. destruct (Z.leb_spec v1 (range - 1)); [|by apply IH].
  intros E. injection E as <- <- <-. split; [lia|done].
Qed.

#[global] Instance FastRandomContext_laws `{Host} fuel :
  RandrangeLaws (FastRandomContext * World) (H := FastRandomContext_randrange fuel) context_ok.
Proof.
  split; intros n [c w] j [c' w'] Hok Hn; unfold draw, FastRandomContext_randrange; cbn [fst snd];
    destruct (randrange fuel n c w) as [[j1 c1] w1| |] eqn:E; intros Ed; try done; injection Ed as <- <- <-;
    by destruct (randrange_range _ _ _ _ _ _ _ Hok Hn E).
Qed.

(** ** Draws on a script *)

(** A generator that gives the numbers of a list, if they are below the bounds. *)
Definition script : Randrange (list Z) := λ n js,
  match js with j :: js => if (0 <=? j) && (j <? n) then Some (j, js) else None | [] => None end.

(** [Shuffle] in terms of the part of the range that is still to be shuffled. *)
Fixpoint arrange {A} (js : list Z) (l : list A) : option (list A) :=
  match js, l with
  | [], [] => Some []
  | j :: js, x :: xs =>
      if (0 <=? j) && (j <? Z.of_nat (length l)) then
        if j =? 0 then cons x <$> arrange js xs
        else y ← xs !! Z.to_nat (j - 1); cons y <$> arrange js (<[Z.to_nat (j - 1) := x]> xs)
      else None
  | _, _ => None
  end.

Lemma swap_at_app {A} (pre : list A) x xs y j : (0 < j)%nat → xs !! (j - 1)%nat = Some y →
  swap_at (pre ++ x :: xs) (length pre) (length pre + j) = Some (pre ++ y :: <[(j - 1)%nat := x]> xs).
Proof.
  intros Hj Hy. unfold swap_at. rewrite (list_lookup_middle pre xs x (length pre) eq_refl). cbn [mbind option_bind].
  rewrite (lookup_app_r pre (x :: xs) (length pre + j)) by lia. replace (length pre + j - length pre)%nat with (S (j - 1)) by lia.
  change ((x :: xs) !! S (j - 1)) with (xs !! (j - 1)%nat). rewrite Hy. cbn [mbind option_bind].
  rewrite insert_app_r_alt, Nat.sub_diag by lia. rewrite insert_app_r_alt by lia.
  by replace (length pre + j - length pre)%nat with (S (j - 1)) by lia.
Qed.

Section fair.
Context {A G : Type} `{Randrange G}.

(** The numbers drawn below [k], [k-1], ..., 1. *)
Fixpoint draws (k : nat) (g : G) : option (list Z * G) :=
  match k with
  | O => Some ([], g)
  | S k' => '(j, g) ← draw (Z.of_nat k) g; '(js, g) ← draws k' g; Some (j :: js, g)
  end.

Context (ok : G → Prop) `{!RandrangeLaws G ok}.

Lemma shuffle_loop_arrange (rest pre : list A) g : ok g → Z.of_nat (length rest) < 2 ^ 64 →
  shuffle_loop (length rest) (length pre) (pre ++ rest) g =
    ('(js, g') ← draws (length rest) g; l ← arrange js rest; Some (pre ++ l, g')).
Proof using Type*.
  remember (length rest) as k eqn:Ek. revert rest pre g Ek. induction k as [|k IH]; intros rest pre g Ek Hg Hlen.
  { destruct rest; [|done]. cbn. done. }
  destruct rest as [|x xs]; [done|]. injection Ek as Ek. cbn [shuffle_loop draws].
  destruct (draw (Z.of_nat (S k)) g) as [[j g1]|] eqn:Ed; [|done]. cbn [mbind option_bind].
  pose proof (draw_range (ok := ok) (Z.of_nat (S k)) _ _ _ Hg ltac:(lia) Ed) as Hj. pose proof (draw_ok (ok := ok) (Z.of_nat (S k)) _ _ _ Hg ltac:(lia) Ed) as Hg1.
  assert (∀ y ys, length ys = k → shuffle_loop k (S (length pre)) (pre ++ y :: ys) g1 =
    ('(js, g') ← draws k g1; l ← arrange js ys; Some (pre ++ y :: l, g'))) as Hrest.
  { intros y ys Hys. specialize (IH ys (pre ++ [y]) g1 (eq_sym Hys) Hg1 ltac:(lia)).
    rewrite length_app, Nat.add_1_r, <- app_assoc in IH. cbn [app] in IH. rewrite IH.
    destruct (draws k g1) as [[js g2]|]; [|done]. cbn. destruct (arrange js ys); [|done]. cbn. by rewrite <- app_assoc. }
  assert (∀ js, arrange (j :: js) (x :: xs) = if j =? 0 then cons x <$> arrange js xs
    else y ← xs !! Z.to_nat (j - 1); cons y <$> arrange js (<[Z.to_nat (j - 1) := x]> xs)) as Ea.
  { intros js. cbn [arrange]. destruct (Z.leb_spec 0 j); [|lia]. cbn [length]. by destruct (Z.ltb_spec j (Z.of_nat (S (length xs)))); [|lia]. }
  destruct (Z.eqb_spec j 0) as [->|Hj0].
  - cbn [mbind option_bind]. rewrite Hrest by done. destruct (draws k g1) as [[js g2]|]; [|done]. cbn [mbind option_bind].
    rewrite Ea. by destruct (arrange js xs).
  - destruct (lookup_lt_is_Some_2 xs (Z.to_nat (j - 1)) ltac:(lia)) as [y Hy].
    replace (Z.to_nat (j - 1)) with (Z.to_nat j - 1)%nat in * by lia. rewrite (swap_at_app _ _ _ y) by (done || lia).
    cbn [mbind option_bind]. rewrite Hrest by (by rewrite length_insert).
    destruct (draws k g1) as [[js g2]|]; [|done]. cbn [mbind option_bind]. rewrite Ea, Hy. cbn [mbind option_bind].
    by destruct (arrange js _).
Qed.
End fair.

#[local] Instance script_laws : RandrangeLaws (list Z) (H := script) (λ _, True).
Proof.
  split; [|done]. intros n [|j js] j' js' _ _; [done|]. unfold draw, script.
  destruct (Z.leb_spec 0 j); [|done]. destruct (Z.ltb_spec j n); [|done]. intros E. injection E as <- <-. lia.
Qed.

Lemma insert_perm {A} (xs : list A) i x y : xs !! i = Some y → y :: <[i := x]> xs ≡ₚ x :: xs.
Proof.
  intros Hy. rewrite insert_take_drop by (by eapply lookup_lt_Some). trans (x :: take i xs ++ y :: drop (S i) xs).
  - rewrite <- !Permutation_middle. apply Permutation_swap.
  - by rewrite take_drop_middle.
Qed.

(** One step of [arrange]: the element chosen, and the others. *)
Lemma arrange_cons {A} j js (x : A) xs l' : arrange (j :: js) (x :: xs) = Some l' ↔
  ∃ y ys r, l' = y :: r ∧ (x :: xs) !! Z.to_nat j = Some y ∧ 0 <= j ∧ y :: ys ≡ₚ x :: xs ∧ arrange js ys = Some r ∧
    ys = (if j =? 0 then xs else <[Z.to_nat (j - 1) := x]> xs).
Proof.
  cbn [arrange]. destruct (Z.leb_spec 0 j) as [Hj|Hj]; cbn [andb].
  2: { split; [done|]. intros (y & ys & r & _ & _ & ? & _). lia. }
  destruct (Z.ltb_spec j (Z.of_nat (length (x :: xs)))) as [Hl|Hl].
  2: { split; [done|]. intros (y & ys & r & _ & Hy%lookup_lt_Some & _). lia. }
  destruct (Z.eqb_spec j 0) as [->|Hj0].
  - split.
    + intros (r & Er & ->)%fmap_Some. by exists x, xs, r.
    + intros (y & ys & r & -> & Hy & _ & _ & Er & ->). injection Hy as <-. by rewrite Er.
  - replace (Z.to_nat j) with (S (Z.to_nat (j - 1))) by lia. cbn [lookup list_lookup].
    change (list_lookup (Z.to_nat (j - 1)) xs) with (xs !! Z.to_nat (j - 1)). split.
    + intros (y & Hy & (r & Er & ->)%fmap_Some)%bind_Some. exists y, (<[Z.to_nat (j - 1) := x]> xs), r. split_and!; try done.
      by apply insert_perm.
    + intros (y & ys & r & -> & Hy & _ & _ & Er & ->). apply bind_Some. exists y. split; [exact Hy|]. by rewrite Er.
Qed.

Lemma arrange_perm {A} js (l l' : list A) : arrange js l = Some l' → l' ≡ₚ l.
Proof.
  revert l l'. induction js as [|j js IH]; intros [|x xs] l' E; try done; [by injection E as <-|].
  apply arrange_cons in E as (y & ys & r & -> & _ & _ & Hp & Er & _). rewrite (IH _ _ Er). done.
Qed.

(** Every order is reached by the draws that pick its elements one after the other. *)
Lemma arrange_reaches {A} (l l' : list A) : l' ≡ₚ l → ∃ js, arrange js l = Some l'.
Proof.
  revert l. induction l' as [|y r IH]; intros l Hp.
  { apply Permutation_nil_l in Hp as <-. by exists []. }
  destruct l as [|x xs]; [by apply Permutation_nil_r in Hp|].
  assert (y ∈ x :: xs) as [i Hi]%list_elem_of_lookup by (rewrite <- Hp; constructor).
  set (ys := if Z.of_nat i =? 0 then xs else <[Z.to_nat (Z.of_nat i - 1) := x]> xs).
  assert (y :: ys ≡ₚ x :: xs) as Hys.
  { unfold ys. destruct i as [|i]; [by injection Hi as <-|]. cbn [lookup list_lookup] in Hi.
    change (xs !! i = Some y) in Hi. destruct (Z.eqb_spec (Z.of_nat (S i)) 0); [lia|].
    replace (Z.to_nat (Z.of_nat (S i) - 1)) with i by lia.
    by apply insert_perm. }
  destruct (IH ys) as [js Hjs].
  { apply (Permutation_cons_inv (a := y)). by rewrite Hp, Hys. }
  exists (Z.of_nat i :: js). apply arrange_cons. exists y, ys, r. split_and!; try done; [by rewrite Nat2Z.id|lia].
Qed.

Lemma arrange_unique {A} js ks (l l' : list A) : NoDup l → arrange js l = Some l' → arrange ks l = Some l' → js = ks.
Proof.
  revert ks l l'. induction js as [|j js IH]; intros [|k ks] [|x xs] l' Hd E1 E2; try done.
  apply arrange_cons in E1 as (y & ys & r & -> & Hy & Hj & Hp & Er & Eys).
  apply arrange_cons in E2 as (y' & ys' & r' & E & Hy' & Hk & Hp' & Er' & Eys'). injection E as <- <-.
  assert (j = k) as <- by (pose proof (NoDup_lookup _ _ _ _ Hd Hy Hy'); lia). f_equal.
  rewrite <- Eys in Eys'. subst ys'. apply (IH ks ys r); [|done..].
  rewrite <- Hp in Hd. by apply NoDup_cons in Hd as [_ ?].
Qed.

(** On a script [Shuffle] is [arrange]. *)
Lemma draws_script {A} js (l l' : list A) : arrange js l = Some l' → draws (H := script) (length l) js = Some (js, []).
Proof.
  revert l l'. induction js as [|j js IH]; intros [|x xs] l' E; try done.
  assert (∃ (ys r : list A), arrange js ys = Some r ∧ length ys = length xs) as (ys & r & Er & El).
  { apply arrange_cons in E as (y & ys & r & _ & _ & _ & Hp & Er & _). exists ys, r. split; [done|].
    apply Permutation_length in Hp. cbn in Hp. lia. }
  cbn [arrange] in E. destruct ((0 <=? j) && (j <? Z.of_nat (length (x :: xs)))) eqn:Eb; [|done]. cbn [draws length].
  assert (@draw _ script (Z.of_nat (S (length xs))) (j :: js) = Some (j, js)) as -> by (unfold draw, script; cbn [length] in Eb; by rewrite Eb).
  cbn [mbind option_bind]. rewrite <- El, (IH ys r Er). done.
Qed.

Lemma draws_script_inv k js js' : draws (H := script) k js = Some (js', []) → js' = js.
Proof.
  revert js js'. induction k as [|k IH]; intros js js' E; [by injection E as <- <-|]. cbn [draws] in E.
  destruct js as [|j js]; [done|]. change (@draw _ script ?n (j :: js)) with (if (0 <=? j) && (j <? n) then Some (j, js) else None) in E.
  destruct ((0 <=? j) && (j <? Z.of_nat (S k))); [|done]. cbn [mbind option_bind] in E. destruct (draws k js) as [[js1 g1]|] eqn:E1; [|done]. cbn in E. injection E as <- ->. f_equal. by apply IH.
Qed.

Lemma Shuffle_script {A} js (l l' : list A) : Z.of_nat (length l) < 2 ^ 64 →
  Shuffle (H := script) l js = Some (l', []) ↔ arrange js l = Some l'.
Proof.
  intros Hl. unfold Shuffle. pose proof (@shuffle_loop_arrange A (list Z) script (λ _, True) script_laws l [] js I Hl) as E. cbn [app length] in E. rewrite E.
  split.
  - intros ([js1 g1] & E1 & (r & Er & E2)%bind_Some)%bind_Some. injection E2 as -> ->.
    by apply draws_script_inv in E1 as ->.
  - intros Ea. rewrite (draws_script _ _ _ Ea). cbn [mbind option_bind]. by rewrite Ea.
Qed.

(** Draws that keep to the bounds arrange any list. *)
Lemma arrange_total {A G} `{Randrange G} (ok : G → Prop) `{!RandrangeLaws G ok} (l : list A) g js g' :
  ok g → Z.of_nat (length l) < 2 ^ 64 → draws (length l) g = Some (js, g') → is_Some (arrange js l).
Proof.
  remember (length l) as k eqn:Ek. revert l g js Ek. induction k as [|k IH]; intros [|x xs] g js Ek Hg Hlen E; try done.
  { by injection E as <- <-. }
  cbn [draws] in E. destruct (draw (Z.of_nat (S k)) g) as [[j g1]|] eqn:Ed; [|done]. cbn [mbind option_bind] in E.
  destruct (draws k g1) as [[js1 g2]|] eqn:E1; [|done]. cbn in E. injection E as <- <-.
  pose proof (draw_range (ok := ok) (Z.of_nat (S k)) _ _ _ Hg ltac:(lia) Ed) as Hj.
  pose proof (draw_ok (ok := ok) (Z.of_nat (S k)) _ _ _ Hg ltac:(lia) Ed) as Hg1. injection Ek as Ek.
  cbn [arrange length]. destruct (Z.leb_spec 0 j); [|lia]. destruct (Z.ltb_spec j (Z.of_nat (S (length xs)))); [|lia]. cbn [andb].
  destruct (Z.eqb_spec j 0).
  - apply fmap_is_Some, (IH xs g1); [done|done|lia|done].
  - destruct (lookup_lt_is_Some_2 xs (Z.to_nat (j - 1)) ltac:(lia)) as [y ->]. cbn [mbind option_bind].
    apply fmap_is_Some, (IH _ g1); [by rewrite length_insert|done|lia|done].
Qed.

(** ** Properties *)

(** C23: a [FastRandomContext] constructed with a seed returns, for every sequence of
    calls, exactly what a reader of the ChaCha20 stream of that seed reads: numbers
    and bytes are cut out of consecutive blocks, up to 32 bits at a time out of words
    whose remaining bits are kept, and no call depends on what the uninitialised
    buffers held.  A context without a seed first asks the process-wide generator for
    32 bytes and then behaves as if it had been constructed with them; moving a
    context hands its place in the stream to the target and makes the source ask for a
    new seed. *)
Theorem FastRandomContext_refines_reader (H : Host) (fuel : nat) (buf : list Z) (bits : Z) (seed : list Z)
    (o : operation) (os : list operation) (this : FastRandomContext) (w : World) :
  length buf = 64%nat → Forall operation_ok os → o ≠ RandBits 0 →
  let reseeded c := (seed ← GetRandHash fuel; perform_all fuel (o :: os) (FastRandomContext_seeded (bytebuf c) (bitbuf c) seed)) w in
  FastRandomContext_new buf bits true = FastRandomContext_seeded buf bits (replicate 32 0) ∧
  perform_all fuel (o :: os) (FastRandomContext_new buf bits false) w = reseeded (FastRandomContext_new buf bits false) ∧
  ∃ c, perform_all fuel os (FastRandomContext_seeded buf bits seed) w =
         Returned ((readings (SetKey seed 32) os Reader.fresh).1, c) w ∧
       (FastRandomContext_move this c).1 = c ∧
       perform_all fuel (o :: os) (FastRandomContext_move this c).2 w = reseeded c.
Proof.
  intros Hbuf Hos Ho reseeded. split; [done|]. split.
  - by apply perform_all_seeds.
  - destruct (perform_all_spec fuel (SetKey seed 32) os _ Reader.fresh Hos (seeded_fresh buf bits seed Hbuf) w) as (c & E & _).
    exists c. split; [exact E|]. split; [by destruct c|].
    apply (perform_all_seeds fuel o os (FastRandomContext_move this c).2 w); [|done]. by destruct c.
Qed.

Lemma FastRandomContext_refines_reader_witness :
  let os := [RandBool; RandBits 5; Rand64; Rand256; RandBits 30; RandBits 40; RandBytes 70; Rand32] in
  ∃ xs c, @perform_all example_host 10 os (FastRandomContext_new (replicate 64 0xaa) 77 true) World_new = Returned (xs, c) World_new ∧
    xs !! 1%nat = Some (inl 27) ∧ bitbuf_size c = 32.
Proof.
  intros os. assert (Forall operation_ok os) as Hos by (unfold os; repeat constructor; cbn; lia).
  destruct (FastRandomContext_refines_reader example_host 10 (replicate 64 0xaa) 77 (replicate 32 0) Rand64 os
    (FastRandomContext_new [] 0 true) World_new eq_refl Hos ltac:(done)) as (Enew & _ & c & E & _).
  eexists _, c. split; [rewrite Enew; exact E|]. split; [vm_compute; reflexivity|].
  revert E. unfold os. vm_compute. intros E. injection E as <-. reflexivity.
Defined.

(** C33: [randrange] draws numbers of the fewest bits that can hold the largest result
    and returns the first that is in the range, so what it returns is below the bound
    (any 64-bit number for the bound 0); the draws are the next such numbers of the
    stream, more than half of the values a draw can take are accepted, all of them if
    the bound is a power of two, and it fails to return only if that many draws in a
    row are rejected. *)
Theorem randrange_rejects (H : Host) (fuel : nat) (key : list Z) (c : FastRandomContext) (d : Reader.reader) (range : Z) (w : World) :
  reads_as key c d → u64_ok range →
  let top := if range =? 0 then 2 ^ 64 - 1 else range - 1 in
  let n := Z.to_nat (CountBits top) in
  let tried := samples key n fuel d in
  (2 ^ Z.of_nat n <= 2 * (top + 1) - 1 ∧ (∀ k, 0 <= k <= 64 → top + 1 = 2 ^ k → n = Z.to_nat k)) ∧
  Forall (λ r, 0 <= r.1 < 2 ^ Z.of_nat n) tried ∧
  match list_find (λ r, accepted top r = true) tried with
  | Some (_, (v, d')) => 0 <= v <= top ∧ ∃ c', randrange fuel range c w = Returned (v, c') w ∧ reads_as key c' d'
  | None => randrange fuel range c w = Unfinished
  end.
Proof.
  intros Hr Hrange top n tried. assert (u64_ok top) as Htop.
  { unfold top, fits in *. destruct (Z.eqb_spec range 0); lia. }
  assert (wrap64 (range - 1) = top) as Ew.
  { unfold top, fits in *. destruct (Z.eqb_spec range 0) as [->|]; [done|]. apply wrap_id. unfold fits. lia. }
  destruct (CountBits_spec top Htop) as (Hb & Hlt & Hmin).
  assert (Z.of_nat n = CountBits top) as En by (unfold n; lia).
  assert (Forall (λ r, 0 <= r.1 < 2 ^ Z.of_nat n) tried) as Hall by (apply samples_bound; [lia|apply Hr]).
  split; [split|split; [done|]].
  - rewrite En. destruct (Z.le_gt_cases (2 ^ CountBits top) (2 * (top + 1) - 1)) as [|Hgt]; [done|]. exfalso.
    assert (0 < CountBits top) as Hpos by (destruct (Z.eq_dec (CountBits top) 0) as [E0|]; [rewrite E0 in Hgt; cbn in Hgt; unfold fits in Htop; lia|lia]).
    specialize (Hmin (CountBits top - 1) ltac:(lia)).
    assert (2 ^ CountBits top = 2 * 2 ^ (CountBits top - 1)) as E2 by (rewrite <- Z.pow_succ_r by lia; f_equal; lia). lia.
  - intros k Hk E. assert (CountBits top = k); [|unfold n; lia]. assert (CountBits top <= k) by (apply Hmin; lia).
    destruct (Z.eq_dec (CountBits top) k); [done|]. assert (2 ^ CountBits top < 2 ^ k) by (apply Z.pow_lt_mono_r; lia). lia.
  - pose proof (randrange_loop_spec fuel key n top c d w fuel Hr ltac:(lia)) as Hloop. fold tried in Hloop.
    unfold randrange. rewrite Ew, <- En. destruct (list_find _ tried) as [[i [v d']]|] eqn:Ef; [|exact Hloop].
    split; [|exact Hloop]. apply list_find_Some in Ef as (Hi & Hacc & _). unfold accepted in Hacc. cbn in Hacc.
    pose proof (Forall_lookup_1 _ _ _ _ Hall Hi) as Hv. cbn in Hv. lia.
Qed.

(** C32: [Shuffle] with any generator that honours ranges permutes the elements: it
    returns whenever its draws below [n], [n-1], ..., 1 do, the result depends on the
    drawn numbers alone, is always a rearrangement, and every rearrangement of distinct
    elements comes from exactly one sequence of draws, so that all are equally likely if
    the draws are. *)
Theorem Shuffle_is_fair {A G : Type} (draw_ : Randrange G) (ok : G → Prop) (l : list A) (g : G) :
  RandrangeLaws G (H := draw_) ok → ok g → Z.of_nat (length l) < 2 ^ 64 →
  (∀ l' g', Shuffle l g = Some (l', g') ↔
    ∃ js, draws (length l) g = Some (js, g') ∧ Shuffle (H := script) l js = Some (l', [])) ∧
  (Shuffle l g = None → draws (length l) g = None) ∧
  (∀ js l', Shuffle (H := script) l js = Some (l', []) → l' ≡ₚ l) ∧
  (NoDup l → ∀ l', l' ≡ₚ l → exists! js, Shuffle (H := script) l js = Some (l', [])).
Proof.
  intros Hlaws Hg Hl. pose proof (shuffle_loop_arrange ok l [] g Hg Hl) as E. cbn [app length] in E.
  pose proof (λ js l', Shuffle_script js l l' Hl) as Hscript.
  assert (Shuffle l g = ('(js, g') ← draws (length l) g; l ← arrange js l; Some (l, g'))) as -> by exact E. clear E. split_and!.
  - intros l' g'. split.
    + intros ([js1 g1] & E1 & (r & Er & E2)%bind_Some)%bind_Some. injection E2 as -> ->. exists js1. split; [done|]. by apply Hscript.
    + intros (js & E1 & E2%Hscript). rewrite E1. cbn [mbind option_bind]. by rewrite E2.
  - intros En. destruct (draws (length l) g) as [[js g']|] eqn:E1; [|done]. cbn [mbind option_bind] in En.
    destruct (arrange_total ok l g js g' Hg Hl E1) as [r Er]. by rewrite Er in En.
  - intros js l' E%Hscript. by apply arrange_perm in E.
  - intros Hd l' Hp. destruct (arrange_reaches l l' Hp) as [js Hjs]. exists js. split; [by apply Hscript|].
    intros ks Hks%Hscript. by apply (arrange_unique js ks l l').
Qed.

Lemma randrange_rejects_witness :
  let c := FastRandomContext_seeded (replicate 64 0xaa) 77 (replicate 32 0) in
  ∃ c', @randrange example_host 10 1000 c World_new = Returned (118, c') World_new.
Proof.
  intros c. destruct (randrange_rejects example_host 10 (SetKey (replicate 32 0) 32) c Reader.fresh 1000 World_new
    (seeded_fresh (replicate 64 0xaa) 77 (replicate 32 0) eq_refl) ltac:(unfold fits; lia)) as (_ & _ & Hm).
  remember (list_find _ _) as r eqn:Er. vm_compute in Er. subst r. cbn beta iota in Hm.
  destruct Hm as (_ & c' & E & _). exists c'. exact E.
Defined.

Lemma Shuffle_is_fair_witness :
  let c := FastRandomContext_new (replicate 64 0xaa) 77 true in
  ∃ js, Shuffle (H := script) [1; 2; 3; 4; 5] js = Some ([2; 1; 4; 5; 3], []) ∧ [2; 1; 4; 5; 3] ≡ₚ [1; 2; 3; 4; 5].
Proof.
  intros c. destruct (@Shuffle_is_fair Z _ (@FastRandomContext_randrange example_host 10) context_ok [1; 2; 3; 4; 5] (c, World_new)
    (@FastRandomContext_laws example_host 10)) as (Hiff & _ & Hperm & _); [|cbn; lia|].
  - right. exists (SetKey (replicate 32 0) 32), Reader.fresh. exact (seeded_fresh (replicate 64 0xaa) 77 (replicate 32 0) eq_refl).
  - remember (@Shuffle Z _ (@FastRandomContext_randrange example_host 10) [1; 2; 3; 4; 5] (c, World_new)) as r eqn:Er.
    vm_compute in Er. destruct (proj1 (Hiff [2; 1; 4; 5; 3] _) Er) as (js & _ & E). exists js. split; [exact E|]. exact (Hperm js _ E).
Defined.
