(* ===== verification/Hash160.v ===== *)
(** * RIPEMD-160, SHA-1 and [Hash160]: [ripemd160.cpp], [sha1.cpp], [hash.h]

    The two compression functions are unrolled in the source: every call of a
    round function names its five registers, and the calls rotate those names
    instead of moving the values.  Here the registers are an array, call [i]
    reads and writes the positions its argument list names, and the operands
    that do not follow a pattern (message word and rotation of each of the 160
    RIPEMD-160 calls) are a table.  Both are proved equal to the published
    definitions, RIPEMD-160 (Dobbertin, Bosselaers, Preneel) with its message
    order computed from the permutations rho and pi, SHA-1 as in FIPS 180-4, and
    the hash objects to the hash of everything written to them. *)

From stdpp Require Import base list numbers decidable.
From S2P Require Import Prelude ArithUint256 Uint256 MdHash Sha256.

Open Scope Z_scope.

(** [(x << i) | (x >> (32 - i))]. *)
Definition rol (x i : Z) : Z := Z.lor (shl32 x i) (shr32 x (32 - i)).

Definition ReadLE32_at (chunk : list Z) (off : nat) : Z := le_value (take 4 (drop off chunk)).

(** Both hashes start from the same five words. *)
Definition Initialize5 : list Z := [0x67452301; 0xEFCDAB89; 0x98BADCFE; 0x10325476; 0xC3D2E1F0].

(** The register that argument [j] of call [i] names: [a,b,c,d,e], then
    [e,a,b,c,d], and so on. *)
Definition reg5 (i j : nat) : nat := ((j + 4 * (i mod 5)) mod 5)%nat.

(** ** RIPEMD-160 *)
Module ripemd160.

Definition f1 (x y z : Z) : Z := Z.lxor (Z.lxor x y) z.
Definition f2 (x y z : Z) : Z := Z.lor (Z.land x y) (Z.land (not32 x) z).
Definition f3 (x y z : Z) : Z := Z.lxor (Z.lor x (not32 y)) z.
Definition f4 (x y z : Z) : Z := Z.lor (Z.land x z) (Z.land y (not32 z)).
Definition f5 (x y z : Z) : Z := Z.lxor x (Z.lor y (not32 z)).

(** [Round]: the new values of the registers [a] and [c]. *)
Definition Round (a c e f x k r : Z) : Z * Z :=
  (add32 (rol (add32 (add32 (add32 a f) x) k) r) e, rol c 10).

(** The functions and constants of [R11 .. R51] and of [R12 .. R52]. *)
Definition R_left (n : nat) : (Z → Z → Z → Z) * Z :=
  match n with
  | 0%nat => (f1, 0) | 1%nat => (f2, 0x5A827999) | 2%nat => (f3, 0x6ED9EBA1)
  | 3%nat => (f4, 0x8F1BBCDC) | _ => (f5, 0xA953FD4E)
  end.
Definition R_right (n : nat) : (Z → Z → Z → Z) * Z :=
  match n with
  | 0%nat => (f5, 0x50A28BE6) | 1%nat => (f4, 0x5C4DD124) | 2%nat => (f3, 0x6D703EF3)
  | 3%nat => (f2, 0x7A6D76E9) | _ => (f1, 0)
  end.

(** The message word and the rotation of each call, in the order of the source:
    the calls of the first line, and of the second. *)
Definition calls_left : list (Z * Z) := [
   (0, 11); (1, 14); (2, 15); (3, 12); (4, 5); (5, 8); (6, 7); (7, 9); (8, 11); (9, 13); (10, 14); (11, 15); (12, 6); (13, 7); (14, 9); (15, 8);
   (7, 7); (4, 6); (13, 8); (1, 13); (10, 11); (6, 9); (15, 7); (3, 15); (12, 7); (0, 12); (9, 15); (5, 9); (2, 11); (14, 7); (11, 13); (8, 12);
   (3, 11); (10, 13); (14, 6); (4, 7); (9, 14); (15, 9); (8, 13); (1, 15); (2, 14); (7, 8); (0, 13); (6, 6); (13, 5); (11, 12); (5, 7); (12, 5);
   (1, 11); (9, 12); (11, 14); (10, 15); (0, 14); (8, 15); (12, 9); (4, 8); (13, 9); (3, 14); (7, 5); (15, 6); (14, 8); (5, 6); (6, 5); (2, 12);
   (4, 9); (0, 15); (5, 5); (9, 11); (7, 6); (12, 8); (2, 13); (10, 12); (14, 5); (1, 12); (3, 13); (8, 14); (11, 11); (6, 8); (15, 5); (13, 6)].
Definition calls_right : list (Z * Z) := [
   (5, 8); (14, 9); (7, 9); (0, 11); (9, 13); (2, 15); (11, 15); (4, 5); (13, 7); (6, 7); (15, 8); (8, 11); (1, 14); (10, 14); (3, 12); (12, 6);
   (6, 9); (11, 13); (3, 15); (7, 7); (0, 12); (13, 8); (5, 9); (10, 11); (14, 7); (15, 7); (8, 12); (12, 7); (4, 6); (9, 15); (1, 13); (2, 11);
   (15, 9); (5, 7); (1, 15); (3, 11); (7, 8); (14, 6); (6, 6); (9, 14); (11, 12); (8, 13); (12, 5); (2, 14); (10, 13); (0, 13); (4, 7); (13, 5);
   (8, 15); (6, 5); (4, 8); (1, 11); (3, 14); (11, 14); (15, 6); (0, 14); (5, 6); (12, 9); (2, 12); (13, 9); (9, 12); (7, 5); (10, 15); (14, 8);
   (12, 8); (15, 5); (10, 12); (4, 9); (1, 12); (5, 5); (8, 14); (7, 6); (6, 8); (2, 13); (13, 6); (14, 5); (0, 15); (3, 13); (9, 11); (11, 11)].

(** Call [i] of a line: [R(a, b, c, d, e, w, r)] with its rotated registers. *)
Definition call (R : nat → (Z → Z → Z → Z) * Z) (calls : list (Z * Z)) (chunk : list Z) (i : nat) (s : list Z) : list Z :=
  let '(f, k) := R (i / 16)%nat in
  let '(w, r) := default (0, 0) (calls !! i) in
  let x := ReadLE32_at chunk (4 * Z.to_nat w) in
  let reg j := at_ s (reg5 i j) in
  let '(a, c) := Round (reg 0%nat) (reg 2%nat) (reg 4%nat) (f (reg 1%nat) (reg 2%nat) (reg 3%nat)) x k r in
  <[reg5 i 2 := c]> (<[reg5 i 0 := a]> s).

(** The two lines do not read each other, so each is run on its own. *)
Definition Transform (s chunk : list Z) : list Z :=
  let l1 := for_range 0 80 (call R_left calls_left chunk) s in
  let l2 := for_range 0 80 (call R_right calls_right chunk) s in
  let s0 := at_ s in let v1 := at_ l1 in let v2 := at_ l2 in
  [add32 (add32 (s0 1%nat) (v1 2%nat)) (v2 3%nat);
   add32 (add32 (s0 2%nat) (v1 3%nat)) (v2 4%nat);
   add32 (add32 (s0 3%nat) (v1 4%nat)) (v2 0%nat);
   add32 (add32 (s0 4%nat) (v1 0%nat)) (v2 1%nat);
   add32 (add32 (s0 0%nat) (v1 1%nat)) (v2 2%nat)].

(** [WriteLE64(sizedesc, bytes << 3)] and [WriteLE32] of the five words. *)
Definition params : md_params :=
  mk_md_params Initialize5 Transform (le_bytes 8) (λ s, s ≫= le_bytes 4) 64 8.
End ripemd160.
#[export] Instance ripemd160_sizes : MdSizes ripemd160.params := or_introl (conj eq_refl eq_refl).

Definition CRIPEMD160 : list Z → md_state := md_new ripemd160.params.
Definition CRIPEMD160_Write : md_state → list Z → md_state := md_Write ripemd160.params.
Definition CRIPEMD160_Finalize : md_state → list Z * md_state := md_Finalize ripemd160.params.
Definition CRIPEMD160_Reset : md_state → md_state := md_Reset ripemd160.params.

(** ** SHA-1 *)
Module sha1.

Definition f1 (b c d : Z) : Z := Z.lxor d (Z.land b (Z.lxor c d)).
Definition f2 (b c d : Z) : Z := Z.lxor (Z.lxor b c) d.
Definition f3 (b c d : Z) : Z := Z.lor (Z.land b c) (Z.land d (Z.lor b c)).
Definition left (x : Z) : Z := Z.lor (shl32 x 1) (shr32 x 31).

(** [Round]: the new values of the registers [b] and [e]. *)
Definition Round (a b e f k w : Z) : Z * Z :=
  (Z.lor (shl32 b 30) (shr32 b 2),
   add32 e (add32 (add32 (add32 (Z.lor (shl32 a 5) (shr32 a 27)) f) k) w)).

(** The function and constant of call [i]. *)
Definition fk (i : nat) : (Z → Z → Z → Z) * Z :=
  match (i / 20)%nat with
  | 0%nat => (f1, 0x5A827999) | 1%nat => (f2, 0x6ED9EBA1) | 2%nat => (f3, 0x8F1BBCDC) | _ => (f2, 0xCA62C1D6)
  end.

(** The schedule word of call [i]: read from the chunk, or computed from the
    words in place; the last three are not stored. *)
Definition word (chunk : list Z) (i : nat) (w : list Z) : Z :=
  if (i <? 16)%nat then ReadBE32 chunk (4 * i)
  else left (Z.lxor (Z.lxor (Z.lxor (at_ w (i mod 16)%nat) (at_ w ((i + 13) mod 16)%nat))
                     (at_ w ((i + 8) mod 16)%nat)) (at_ w ((i + 2) mod 16)%nat)).

Definition call (chunk : list Z) (i : nat) (sw : list Z * list Z) : list Z * list Z :=
  let '(s, w) := sw in
  let '(f, k) := fk i in
  let x := word chunk i w in
  let reg j := at_ s (reg5 i j) in
  let '(b, e) := Round (reg 0%nat) (reg 1%nat) (reg 4%nat) (f (reg 1%nat) (reg 2%nat) (reg 3%nat)) k x in
  (<[reg5 i 1 := b]> (<[reg5 i 4 := e]> s), if (i <? 77)%nat then <[(i mod 16)%nat := x]> w else w).

(** The words [w0 .. w15] start uninitialised; each is written before it is read. *)
Definition Transform (s chunk : list Z) : list Z :=
  zip_with add32 s (for_range 0 80 (call chunk) (s, replicate 16 0)).1.

Definition params : md_params :=
  mk_md_params Initialize5 Transform (be_bytes 8) (λ s, s ≫= be_bytes 4) 64 8.
End sha1.
#[export] Instance sha1_sizes : MdSizes sha1.params := or_introl (conj eq_refl eq_refl).

Definition CSHA1 : list Z → md_state := md_new sha1.params.
Definition CSHA1_Write : md_state → list Z → md_state := md_Write sha1.params.
Definition CSHA1_Finalize : md_state → list Z * md_state := md_Finalize sha1.params.
Definition CSHA1_Reset : md_state → md_state := md_Reset sha1.params.

(** ** [Hash::CHash160] and [Hash::Hash160] *)

Definition CHash160_Finalize (sha : SHA256_CPU) : list Z * SHA256_CPU :=
  let '(buf, sha) := SHA256_CPU_Finalize sha in
  ((CRIPEMD160_Finalize (CRIPEMD160_Write (CRIPEMD160 (replicate 64 0)) buf)).1, sha).

Definition CHash160_Write : SHA256_CPU → list Z → SHA256_CPU := SHA256_CPU_Write.
Definition CHash160_Reset : SHA256_CPU → SHA256_CPU := SHA256_CPU_Reset.

Definition Hash160 (vch : list Z) : list Z :=
  (CHash160_Finalize (CHash160_Write (SHA256_CPU_new (replicate 64 0)) vch)).1.

(** One-shot forms, as the interpreter's hash opcodes use the objects. *)
Definition ripemd160_of (vch : list Z) : list Z :=
  (CRIPEMD160_Finalize (CRIPEMD160_Write (CRIPEMD160 (replicate 64 0)) vch)).1.
Definition sha1_of (vch : list Z) : list Z :=
  (CSHA1_Finalize (CSHA1_Write (CSHA1 (replicate 64 0)) vch)).1.

(** Test vectors of the standards: the hashes of [abc]. *)
Example ripemd160_abc : ripemd160_of [97; 98; 99] = be_bytes 20 0x8eb208f7e05d987a9b044a8e98c6b087f15a0bfc.
Proof. vm_compute. reflexivity. Qed.
Example sha1_abc : sha1_of [97; 98; 99] = be_bytes 20 0xa9993e364706816aba3e25717850c26c9cd0d89d.
Proof. vm_compute. reflexivity. Qed.

(** ** The published definitions *)

Module RMD.
(** The message words of a round: the identity on the left line and pi on the
    right one, then rho applied once more in every round. *)
Definition rho (i : nat) : nat := default 0%nat ([7; 4; 13; 1; 10; 6; 15; 3; 12; 0; 9; 5; 2; 14; 11; 8]%nat !! i).
Definition pi (i : nat) : nat := ((9 * i + 5) mod 16)%nat.
Definition word_left (j : nat) : nat := Nat.iter (j / 16)%nat rho (j mod 16)%nat.
Definition word_right (j : nat) : nat := Nat.iter (j / 16)%nat rho (pi (j mod 16)%nat).

(** The rotation belongs to the round and the message word, on both lines. *)
Definition shifts : list (list Z) :=
  [[11; 14; 15; 12; 5; 8; 7; 9; 11; 13; 14; 15; 6; 7; 9; 8];
   [12; 13; 11; 15; 6; 9; 9; 7; 12; 15; 11; 13; 7; 8; 7; 7];
   [13; 15; 14; 11; 7; 7; 6; 8; 13; 14; 13; 12; 5; 5; 6; 9];
   [14; 11; 12; 14; 8; 6; 5; 5; 15; 12; 15; 14; 9; 9; 8; 6];
   [15; 12; 13; 13; 9; 5; 8; 6; 14; 11; 12; 11; 8; 6; 5; 5]].
Definition shift (j word : nat) : Z := at_ (default [] (shifts !! (j / 16)%nat)) word.

(** The five functions; the right line takes them in reverse order. *)
Definition f (n : nat) (x y z : Z) : Z :=
  match n with
  | 0%nat => Z.lxor (Z.lxor x y) z
  | 1%nat => Z.lor (Z.land x y) (Z.land (not32 x) z)
  | 2%nat => Z.lxor (Z.lor x (not32 y)) z
  | 3%nat => Z.lor (Z.land x z) (Z.land y (not32 z))
  | _ => Z.lxor x (Z.lor y (not32 z))
  end.
Definition K_left (n : nat) : Z := at_ [0; 0x5A827999; 0x6ED9EBA1; 0x8F1BBCDC; 0xA953FD4E] n.
Definition K_right (n : nat) : Z := at_ [0x50A28BE6; 0x5C4DD124; 0x6D703EF3; 0x7A6D76E9; 0] n.

(** [T := rol_s(A + f(B,C,D) + X + K) + E; A := E; E := D; D := rol_10(C); C := B; B := T]. *)
Definition step (fn : Z → Z → Z → Z) (X K s : Z) (st : list Z) : list Z :=
  match st with
  | [A; B; C; D; E] => [E; wrap32 (rol (wrap32 (A + fn B C D + X + K)) s + E); B; rol C 10; D]
  | _ => st
  end.

Definition X (block : list Z) (i : nat) : Z := le_value (take 4 (drop (4 * i) block)).
Definition left (block : list Z) (j : nat) : list Z → list Z :=
  step (f (j / 16)%nat) (X block (word_left j)) (K_left (j / 16)%nat) (shift j (word_left j)).
Definition right (block : list Z) (j : nat) : list Z → list Z :=
  step (f (4 - j / 16)%nat) (X block (word_right j)) (K_right (j / 16)%nat) (shift j (word_right j)).

Definition compress (h block : list Z) : list Z :=
  match h, for_range 0 80 (left block) h, for_range 0 80 (right block) h with
  | [h0; h1; h2; h3; h4], [A; B; C; D; E], [A'; B'; C'; D'; E'] =>
      [wrap32 (h1 + C + D'); wrap32 (h2 + D + E'); wrap32 (h3 + E + A'); wrap32 (h4 + A + B'); wrap32 (h0 + B + C')]
  | _, _, _ => h
  end.

Definition RIPEMD160 : list Z → list Z :=
  md_hash (mk_md_params Initialize5 compress (le_bytes 8) (λ s, s ≫= le_bytes 4) 64 8).
End RMD.

Module FIPS_SHA1.
Definition ROTL (n x : Z) : Z := Z.lor (wrap32 (Z.shiftl x n)) (Z.shiftr x (32 - n)).

Definition f (t : nat) (x y z : Z) : Z :=
  if (t <? 20)%nat then FIPS.Ch x y z
  else if (t <? 40)%nat then Z.lxor (Z.lxor x y) z
  else if (t <? 60)%nat then FIPS.Maj x y z
  else Z.lxor (Z.lxor x y) z.
Definition K (t : nat) : Z :=
  if (t <? 20)%nat then 0x5a827999 else if (t <? 40)%nat then 0x6ed9eba1
  else if (t <? 60)%nat then 0x8f1bbcdc else 0xca62c1d6.

Fixpoint schedule (block : list Z) (n : nat) : list Z :=
  match n with
  | O => []
  | S t =>
      let W := schedule block t in
      W ++ [if (t <? 16)%nat then be_value (take 4 (drop (4 * t) block))
            else ROTL 1 (Z.lxor (Z.lxor (Z.lxor (at_ W (t - 3)) (at_ W (t - 8))) (at_ W (t - 14))) (at_ W (t - 16)))]
  end.

Definition step (W : list Z) (t : nat) (st : list Z) : list Z :=
  match st with
  | [a; b; c; d; e] => [wrap32 (ROTL 5 a + f t b c d + e + K t + at_ W t); a; ROTL 30 b; c; d]
  | _ => st
  end.

Definition compress (h block : list Z) : list Z :=
  zip_with (λ x y, wrap32 (x + y)) h (for_range 0 80 (step (schedule block 80)) h).

Definition SHA1 : list Z → list Z :=
  md_hash (mk_md_params Initialize5 compress (be_bytes 8) (λ s, s ≫= be_bytes 4) 64 8).
End FIPS_SHA1.

(** ** Rotating registers *)

(** The standard's five words, read off the registers before call [i]. *)
Definition rot5 (i : nat) (s : list Z) : list Z := (λ j, at_ s (reg5 i j)) <$> seq 0 5.

Lemma list5 (l : list Z) : length l = 5%nat → ∃ a b c d e, l = [a; b; c; d; e].
Proof. intros H. do 6 (destruct l as [|? l]; try done). by repeat eexists. Qed.

Lemma reg5_cases i :
  ∃ k, (k < 5)%nat ∧ (∀ j, reg5 i j = ((j + 4 * k) mod 5)%nat) ∧
       (∀ j, reg5 (S i) j = ((j + 4 * (if (k =? 4)%nat then 0 else S k)) mod 5)%nat).
Proof.
  exists (i mod 5)%nat. split; [apply Nat.mod_upper_bound; lia|]. split; [done|].
  intros j. unfold reg5. do 3 f_equal. destruct (Nat.eqb_spec (i mod 5) 4); divlia.
Qed.

(** A call that replaces two registers, seen from the shifted words. *)
Lemma rot5_insert i s p v q w :
  length s = 5%nat → (p < 5)%nat → (q < 5)%nat → p ≠ q →
  rot5 (S i) (<[reg5 i q := w]> (<[reg5 i p := v]> s)) =
    (λ j, if (j =? q)%nat then w else if (j =? p)%nat then v else at_ s (reg5 i j)) <$> [4; 0; 1; 2; 3]%nat.
Proof.
  intros Hs Hp Hq Hpq. destruct (list5 s Hs) as (a & b & c & d & e & ->).
  destruct (reg5_cases i) as (k & Hk & Ei & Es). unfold rot5. cbn [seq fmap list_fmap].
  rewrite !Ei, !Es.
  do 5 (destruct k as [|k]; [do 5 (destruct p as [|p]; [do 5 (destruct q as [|q]; [done || lia|]); lia|]); lia|]). lia.
Qed.

Lemma length_call R calls chunk i s :
  length (ripemd160.call R calls chunk i s) = length s.
Proof.
  unfold ripemd160.call. destruct (R _), (default _ _). unfold ripemd160.Round. by rewrite !length_insert.
Qed.

(** A call of the source is a step of the standard, when its function, constant,
    message word and rotation are the standard's. *)
Lemma rmd_call_step R calls chunk i s fn K w r :
  length s = 5%nat → R (i / 16)%nat = (fn, K) → calls !! i = Some (Z.of_nat w, r) →
  rot5 (S i) (ripemd160.call R calls chunk i s) = RMD.step fn (RMD.X chunk w) K r (rot5 i s).
Proof.
  intros Hs HR Hc. unfold ripemd160.call. rewrite HR, Hc. cbn [from_option id]. unfold ripemd160.Round.
  rewrite rot5_insert by (done || lia). rewrite Nat2Z.id.
  unfold rot5. cbn [fmap list_fmap seq Nat.eqb RMD.step]. do 2 f_equal.
  unfold add32. do 3 f_equal. wrapped_sum.
Qed.

(** The table of calls is the one the permutations and shifts give. *)
Lemma calls_left_spec i : (i < 80)%nat →
  ripemd160.calls_left !! i = Some (Z.of_nat (RMD.word_left i), RMD.shift i (RMD.word_left i)).
Proof.
  intros Hi. assert (ripemd160.calls_left =
    (λ j, (Z.of_nat (RMD.word_left j), RMD.shift j (RMD.word_left j))) <$> seq 0 80) as ->
    by (vm_compute; reflexivity).
  by rewrite list_lookup_fmap, lookup_seq_lt.
Qed.

Lemma calls_right_spec i : (i < 80)%nat →
  ripemd160.calls_right !! i = Some (Z.of_nat (RMD.word_right i), RMD.shift i (RMD.word_right i)).
Proof.
  intros Hi. assert (ripemd160.calls_right =
    (λ j, (Z.of_nat (RMD.word_right j), RMD.shift j (RMD.word_right j))) <$> seq 0 80) as ->
    by (vm_compute; reflexivity).
  by rewrite list_lookup_fmap, lookup_seq_lt.
Qed.

Lemma rmd_functions n : (n < 5)%nat →
  ripemd160.R_left n = (RMD.f n, RMD.K_left n) ∧ ripemd160.R_right n = (RMD.f (4 - n), RMD.K_right n).
Proof. intros. do 5 (destruct n as [|n]; [done|]). lia. Qed.

(** Eighty calls of a line against eighty steps. *)
Lemma rot5_loop (body step : nat → list Z → list Z) n s :
  length s = 5%nat →
  (∀ i s, (i < n)%nat → length s = 5%nat →
     length (body i s) = 5%nat ∧ rot5 (S i) (body i s) = step i (rot5 i s)) →
  length (for_range 0 n body s) = 5%nat ∧ rot5 n (for_range 0 n body s) = for_range 0 n step s.
Proof.
  intros Hs Hstep.
  apply (for_range_ind (λ i r, length r = 5%nat ∧ rot5 i r = for_range 0 i step s) 0 n).
  - split; [done|]. by destruct (list5 s Hs) as (a & b & c & d & e & ->).
  - intros i r Hi [Hr E]. destruct (Hstep i r) as [Hl E']; [lia|done|].
    split; [done|]. by rewrite for_range_S, E', E.
Qed.

Lemma rot5_80 s : length s = 5%nat → rot5 80 s = s.
Proof. intros Hs. by destruct (list5 s Hs) as (a & b & c & d & e & ->). Qed.

Lemma div16_lt i : (i < 80)%nat → (i / 16 < 5)%nat.
Proof. intros. divlia. Qed.

Lemma rmd_left_line chunk s :
  length s = 5%nat →
  for_range 0 80 (ripemd160.call ripemd160.R_left ripemd160.calls_left chunk) s = for_range 0 80 (RMD.left chunk) s.
Proof.
  intros Hs. edestruct (rot5_loop (ripemd160.call ripemd160.R_left ripemd160.calls_left chunk) (RMD.left chunk) 80)
    as [Hl <-]; [exact Hs| |by rewrite rot5_80].
  intros i r Hi Hr. split; [by rewrite length_call|].
  apply rmd_call_step; [done| |by apply calls_left_spec]. by apply rmd_functions, div16_lt.
Qed.

Lemma rmd_right_line chunk s :
  length s = 5%nat →
  for_range 0 80 (ripemd160.call ripemd160.R_right ripemd160.calls_right chunk) s = for_range 0 80 (RMD.right chunk) s.
Proof.
  intros Hs. edestruct (rot5_loop (ripemd160.call ripemd160.R_right ripemd160.calls_right chunk) (RMD.right chunk) 80)
    as [Hl <-]; [exact Hs| |by rewrite rot5_80].
  intros i r Hi Hr. split; [by rewrite length_call|].
  apply rmd_call_step; [done| |by apply calls_right_spec]. by apply rmd_functions, div16_lt.
Qed.

Lemma length_step fn X K r st : length st = 5%nat → length (RMD.step fn X K r st) = 5%nat.
Proof. intros Hs. by destruct (list5 st Hs) as (a & b & c & d & e & ->). Qed.

Lemma length_line n (step : nat → list Z → list Z) st :
  (∀ i s, length s = 5%nat → length (step i s) = 5%nat) →
  length st = 5%nat → length (for_range 0 n step st) = 5%nat.
Proof. intros Hstep Hs. apply (for_range_ind (λ _ r, length r = 5%nat) 0 n); auto. Qed.

Lemma add32_3 a b c : add32 (add32 a b) c = wrap32 (a + b + c).
Proof. wrapped_sum. Qed.

Lemma rmd_Transform_correct s chunk :
  length s = 5%nat → ripemd160.Transform s chunk = RMD.compress s chunk.
Proof.
  intros Hs. unfold ripemd160.Transform, RMD.compress. rewrite rmd_left_line, rmd_right_line by done.
  destruct (list5 s Hs) as (h0 & h1 & h2 & h3 & h4 & ->).
  set (s := [h0; h1; h2; h3; h4]).
  pose proof (length_line 80 (RMD.left chunk) s (λ i r, length_step _ _ _ _ r) Hs) as Hl.
  pose proof (length_line 80 (RMD.right chunk) s (λ i r, length_step _ _ _ _ r) Hs) as Hr.
  revert Hl Hr. generalize (for_range 0 80 (RMD.left chunk) s), (for_range 0 80 (RMD.right chunk) s).
  intros l r (A & B & C & D & E & ->)%list5 (A' & B' & C' & D' & E' & ->)%list5.
  cbv zeta. rewrite !add32_3. reflexivity.
Qed.

(** ** SHA-1 *)

Lemma rol_ok x n : 0 <= n <= 32 → u32_ok x → u32_ok (rol x n).
Proof. intros. unfold rol, shl32, shr32. apply lor_fits; [lia|apply wrap_fits; lia|apply shiftr_fits; lia || done]. Qed.

Definition words5 (s : list Z) : Prop := length s = 5%nat ∧ Forall u32_ok s.

Lemma at_words5 s j : words5 s → u32_ok (at_ s j).
Proof.
  intros [_ Hs]. unfold at_. destruct (s !! j) as [x|] eqn:E; [|done].
  by apply (Forall_lookup_1 _ _ _ _ Hs E).
Qed.

Lemma sha1_fk i : (i < 80)%nat →
  ∃ f, sha1.fk i = (f, FIPS_SHA1.K i) ∧
       (∀ x y z, u32_ok y → u32_ok z → f x y z = FIPS_SHA1.f i x y z).
Proof.
  intros Hi. unfold sha1.fk, FIPS_SHA1.K, FIPS_SHA1.f.
  assert ((i / 20 = 0 ∧ i < 20) ∨ (i / 20 = 1 ∧ 20 <= i < 40) ∨ (i / 20 = 2 ∧ 40 <= i < 60) ∨
          (i / 20 = 3 ∧ 60 <= i))%nat as H by divlia.
  destruct (Nat.ltb_spec i 20), (Nat.ltb_spec i 40), (Nat.ltb_spec i 60); try lia;
    destruct H as [[-> ?]|[[-> ?]|[[-> ?]|[-> ?]]]]; try lia; (eexists; split; [reflexivity|]); intros; [|done| |done].
  - by apply Ch_fips.
  - apply Maj_fips.
Qed.

Lemma lxor_rot a b c d : Z.lxor (Z.lxor (Z.lxor a b) c) d = Z.lxor (Z.lxor (Z.lxor b c) d) a.
Proof. by rewrite (Z.lxor_comm _ a), !Z.lxor_assoc. Qed.

(** The recurrence of the schedule, on the whole of it. *)
Lemma length_sha1_schedule chunk m : length (FIPS_SHA1.schedule chunk m) = m.
Proof. induction m as [|m IH]; [done|]. cbn [FIPS_SHA1.schedule]. rewrite length_app, IH. simpl. lia. Qed.

Lemma grows_sha1_schedule chunk : grows (FIPS_SHA1.schedule chunk).
Proof. intros n. split; [apply length_sha1_schedule|]. cbn [FIPS_SHA1.schedule]. by eexists. Qed.

Lemma at_sha1_schedule chunk i n m :
  (i < n)%nat → (n <= m)%nat → at_ (FIPS_SHA1.schedule chunk m) i = at_ (FIPS_SHA1.schedule chunk n) i.
Proof. apply at_grows, grows_sha1_schedule. Qed.

Lemma sha1_schedule_rec chunk i :
  (16 <= i < 80)%nat → let W := FIPS_SHA1.schedule chunk 80 in
  at_ W i = FIPS_SHA1.ROTL 1 (Z.lxor (Z.lxor (Z.lxor (at_ W (i - 3)) (at_ W (i - 8))) (at_ W (i - 14))) (at_ W (i - 16))).
Proof.
  intros Hi W. unfold W. rewrite (at_sha1_schedule chunk i (S i)), !(at_sha1_schedule chunk _ i 80) by lia.
  cbn [FIPS_SHA1.schedule]. rewrite (at_snoc _ _ i) by apply length_sha1_schedule.
  destruct (Nat.ltb_spec i 16); [lia|done].
Qed.

Lemma sha1_schedule_load chunk i :
  (i < 16)%nat → at_ (FIPS_SHA1.schedule chunk 80) i = ReadBE32 chunk (4 * i).
Proof.
  intros Hi. rewrite (at_sha1_schedule chunk i (S i)) by lia. cbn [FIPS_SHA1.schedule].
  rewrite (at_snoc _ _ i) by apply length_sha1_schedule. by destruct (Nat.ltb_spec i 16); [|lia].
Qed.

(** The ring holds the last sixteen words; those of the last three calls are not
    written back. *)
Definition sha1_ring (chunk : list Z) (i : nat) (w : list Z) : Prop :=
  length w = 16%nat ∧
  ∀ j, (j < i)%nat → (j < 77)%nat → (i <= j + 16)%nat → at_ w (j mod 16) = at_ (FIPS_SHA1.schedule chunk 80) j.

Lemma sha1_word_spec chunk i w :
  (i < 80)%nat → sha1_ring chunk i w → sha1.word chunk i w = at_ (FIPS_SHA1.schedule chunk 80) i.
Proof.
  intros Hi [_ Hring]. unfold sha1.word. destruct (Nat.ltb_spec i 16); [by rewrite sha1_schedule_load|].
  rewrite sha1_schedule_rec by lia. rewrite lxor_rot.
  rewrite <- (Hring (i - 16)%nat), <- (Hring (i - 3)%nat), <- (Hring (i - 8)%nat), <- (Hring (i - 14)%nat) by lia.
  replace ((i - 16) mod 16)%nat with (i mod 16)%nat by divlia.
  replace ((i - 3) mod 16)%nat with ((i + 13) mod 16)%nat by divlia.
  replace ((i - 8) mod 16)%nat with ((i + 8) mod 16)%nat by divlia.
  replace ((i - 14) mod 16)%nat with ((i + 2) mod 16)%nat by divlia. reflexivity.
Qed.

Lemma sha1_ring_step chunk i w :
  (i < 80)%nat → sha1_ring chunk i w →
  sha1_ring chunk (S i) (if (i <? 77)%nat then <[(i mod 16)%nat := sha1.word chunk i w]> w else w).
Proof.
  intros Hi Hr. pose proof (sha1_word_spec chunk i w Hi Hr) as Ew. destruct Hr as [Hw Hring].
  destruct (Nat.ltb_spec i 77).
  - split; [by rewrite length_insert|]. intros j Hj Hj' Hij. destruct (decide (j = i)) as [->|].
    + rewrite at_insert_eq; [done|]. rewrite Hw. apply Nat.mod_upper_bound. lia.
    + rewrite at_insert_ne by (apply not_eq_sym, mod16_inj; lia). apply Hring; lia.
  - split; [done|]. intros j ???. apply Hring; lia.
Qed.

Lemma add32_5 e r f k w : add32 e (add32 (add32 (add32 r f) k) w) = wrap32 (r + f + e + k + w).
Proof. wrapped_sum. Qed.

Lemma sha1_call_step chunk i s w :
  (i < 80)%nat → length s = 5%nat → words5 (rot5 i s) → sha1_ring chunk i w →
  let r := sha1.call chunk i (s, w) in
  length r.1 = 5%nat ∧ words5 (rot5 (S i) r.1) ∧ sha1_ring chunk (S i) r.2 ∧
  rot5 (S i) r.1 = FIPS_SHA1.step (FIPS_SHA1.schedule chunk 80) i (rot5 i s).
Proof.
  intros Hi Hs Hw Hring. destruct (sha1_fk i Hi) as (f & Ef & Hf).
  cbn [sha1.call]. rewrite Ef. unfold sha1.Round. cbn [fst snd].
  rewrite !length_insert. split; [done|]. rewrite (sha1_word_spec chunk i w Hi Hring) at 1 3.
  rewrite rot5_insert by (done || lia).
  assert (∀ j, (j < 5)%nat → u32_ok (at_ s (reg5 i j))) as Hreg.
  { intros j Hj. pose proof (at_words5 _ j Hw) as H. unfold rot5, at_ at 1 in H.
    rewrite list_lookup_fmap, lookup_seq_lt in H by done. exact H. }
  rewrite (Hf _ _ _ (Hreg 2%nat ltac:(lia)) (Hreg 3%nat ltac:(lia))).
  split; [|split; [by apply sha1_ring_step|]].
  - split; [done|]. cbn [fmap list_fmap Nat.eqb].
    repeat (apply Forall_cons_2; [first [apply wrap_fits; lia|apply Hreg; lia|idtac]|]); [|done].
    apply (rol_ok _ 30); [lia|apply Hreg; lia].
  - unfold rot5. cbn [fmap list_fmap seq Nat.eqb FIPS_SHA1.step]. rewrite add32_5. reflexivity.
Qed.

Lemma sha1_Transform_correct s chunk :
  words5 s → sha1.Transform s chunk = FIPS_SHA1.compress s chunk.
Proof.
  intros [Hs Hok]. unfold sha1.Transform, FIPS_SHA1.compress.
  change (λ x y, wrap32 (x + y)) with add32. f_equal.
  set (step := FIPS_SHA1.step (FIPS_SHA1.schedule chunk 80)).
  pose proof (for_range_ind (λ i sw, length sw.1 = 5%nat ∧ words5 (rot5 i sw.1) ∧ sha1_ring chunk i sw.2 ∧
     rot5 i sw.1 = for_range 0 i step s) 0 80 (sha1.call chunk) (s, replicate 16 0)) as H.
  destruct H as (Hl & _ & _ & E); [| |change (0 + 80)%nat with 80%nat in *; by rewrite <- E, rot5_80].
  - cbn [fst snd]. assert (rot5 0 s = s) as -> by (by destruct (list5 s Hs) as (a & b & c & d & e & ->)).
    split; [done|]. split; [by split|]. split; [|done]. split; [done|]. intros; lia.
  - intros i [r w] Hi (Hl & Hw & Hring & E).
    destruct (sha1_call_step chunk i r w) as (Hl' & Hw' & Hring' & E'); [lia|done..|].
    cbn [fst] in E. rewrite E in E'. by rewrite for_range_S.
Qed.

(** ** The objects compute the published hashes *)

Lemma RIPEMD160_md msg : md_hash ripemd160.params msg = RMD.RIPEMD160 msg.
Proof.
  apply (md_hash_ext _ _ _ (λ s, length s = 5%nat)); [done..|].
  intros s b Hs. split; [done|]. by apply rmd_Transform_correct.
Qed.

Lemma compress5_ok h l : words5 h → length l = 5%nat → words5 (zip_with add32 h l).
Proof.
  intros [Hh _] Hl. destruct (list5 h Hh) as (a & b & c & d & e & ->), (list5 l Hl) as (a' & b' & c' & d' & e' & ->).
  split; [done|]. repeat (apply Forall_cons_2; [apply wrap_fits; lia|]). done.
Qed.

Lemma Initialize5_ok : words5 Initialize5.
Proof. split; [done|]. repeat (apply Forall_cons_2; [done|]). done. Qed.

Lemma SHA1_md msg : md_hash sha1.params msg = FIPS_SHA1.SHA1 msg.
Proof.
  apply (md_hash_ext _ _ _ words5); [done..|apply Initialize5_ok|].
  intros s b Hs. split; [|by apply sha1_Transform_correct]. cbn [md_Transform sha1.params].
  rewrite sha1_Transform_correct by done. apply compress5_ok; [done|].
  apply length_line; [|apply Hs]. intros i r Hr. by destruct (list5 r Hr) as (x & y & z & u & v & ->).
Qed.

Lemma length_RIPEMD160 msg : length (RMD.RIPEMD160 msg) = 20%nat.
Proof.
  rewrite <- RIPEMD160_md. unfold md_hash. cbn [md_output ripemd160.params md_init md_block].
  assert (∀ n s l, length s = 5%nat → length (md_blocks ripemd160.params s l n) = 5%nat) as H.
  { induction n as [|n IH]; intros s l Hs; [done|]. by apply IH. }
  destruct (list5 _ (H (length (md_padded ripemd160.params msg) / 64)%nat Initialize5
    (md_padded ripemd160.params msg) eq_refl)) as (a & b & c & d & e & ->). reflexivity.
Qed.

Lemma ripemd160_of_correct vch : Z.of_nat (length vch) < 2 ^ 61 → ripemd160_of vch = RMD.RIPEMD160 vch.
Proof.
  intros Hlen. rewrite <- RIPEMD160_md. change (ripemd160_of vch) with
    (md_Finalize ripemd160.params (foldl (md_Write ripemd160.params) (md_new ripemd160.params (replicate 64 0)) [vch])).1.
  rewrite (md_streaming ripemd160.params); [|intros; apply length_le_bytes|done|]; cbn [concat]; rewrite ?app_nil_r; done.
Qed.

Lemma Hash160_spec vch : Z.of_nat (length vch) < 2 ^ 61 → Hash160 vch = RMD.RIPEMD160 (FIPS.SHA256 vch).
Proof.
  intros Hlen. unfold Hash160, CHash160_Finalize, CHash160_Write.
  assert (absorbed (SHA256_CPU_Write (SHA256_CPU_new (replicate 64 0)) vch) vch) as Habs.
  { apply (Write_absorbed _ []); [by apply absorbed_new|]. rewrite app_nil_l. lia. }
  destruct (Finalize_absorbed _ _ Habs Hlen) as (st & -> & _). cbn [fst].
  change (ripemd160_of (FIPS.SHA256 vch) = RMD.RIPEMD160 (FIPS.SHA256 vch)).
  apply ripemd160_of_correct. rewrite length_SHA256. lia.
Qed.

Lemma bind_bytes_ok (f : Z → list Z) l : (∀ x, bytes_ok (f x)) → bytes_ok (l ≫= f).
Proof.
  intros Hf. induction l as [|x l IH]; [constructor|].
  change ((x :: l) ≫= f) with (f x ++ l ≫= f). by apply Forall_app.
Qed.

Lemma RIPEMD160_bytes msg : bytes_ok (RMD.RIPEMD160 msg).
Proof. apply bind_bytes_ok. intros. apply le_bytes_ok. Qed.

Lemma SHA1_bytes msg : bytes_ok (FIPS_SHA1.SHA1 msg).
Proof. apply bind_bytes_ok. intros. apply be_bytes_ok. Qed.

Lemma length_SHA1 msg : length (FIPS_SHA1.SHA1 msg) = 20%nat.
Proof.
  rewrite <- SHA1_md. unfold md_hash. cbn [md_output sha1.params md_init md_block].
  assert (∀ n s l, words5 s → length (md_blocks sha1.params s l n) = 5%nat) as H.
  { induction n as [|n IH]; intros s l Hs; [apply Hs|]. cbn [md_blocks]. apply IH. cbn [md_Transform sha1.params].
    rewrite sha1_Transform_correct by done. apply compress5_ok; [done|].
    apply length_line; [|apply Hs]. intros i r Hr. by destruct (list5 r Hr) as (x & y & z & u & v & ->). }
  destruct (list5 _ (H (length (md_padded sha1.params msg) / 64)%nat Initialize5
    (md_padded sha1.params msg) Initialize5_ok)) as (a & b & c & d & e & ->). reflexivity.
Qed.

Lemma sha1_of_correct vch : Z.of_nat (length vch) < 2 ^ 61 → sha1_of vch = FIPS_SHA1.SHA1 vch.
Proof.
  intros Hlen. rewrite <- SHA1_md. change (sha1_of vch) with
    (md_Finalize sha1.params (foldl (md_Write sha1.params) (md_new sha1.params (replicate 64 0)) [vch])).1.
  rewrite (md_streaming sha1.params); [|intros; apply length_be_bytes|done|]; cbn [concat]; rewrite ?app_nil_r; done.
Qed.

(** ** Properties *)

(** [CRIPEMD160] is a streaming RIPEMD-160: however a message of less than
    2^61 bytes is cut into [Write] calls, [Finalize] returns the hash the
    designers define (message order from the permutations rho and pi), and
    [Hash160] of a byte string is the RIPEMD-160 of its FIPS 180-4 SHA-256. *)
Theorem RIPEMD160_streaming (buf : list Z) (pieces : list (list Z)) (vch : list Z) :
  length buf = 64%nat → Z.of_nat (length (concat pieces)) < 2 ^ 61 → Z.of_nat (length vch) < 2 ^ 61 →
  (CRIPEMD160_Finalize (foldl CRIPEMD160_Write (CRIPEMD160 buf) pieces)).1 = RMD.RIPEMD160 (concat pieces) ∧
  Hash160 vch = RMD.RIPEMD160 (FIPS.SHA256 vch).
Proof.
  intros Hbuf Hlen Hv. split; [|by apply Hash160_spec]. rewrite <- RIPEMD160_md.
  apply (md_streaming ripemd160.params); [|done|done]. intros n. apply length_le_bytes.
Qed.

Lemma RIPEMD160_streaming_witness :
  (CRIPEMD160_Finalize (foldl CRIPEMD160_Write (CRIPEMD160 (replicate 64 7)) [[97]; []; [98; 99]])).1 =
    be_bytes 20 0x8eb208f7e05d987a9b044a8e98c6b087f15a0bfc.
Proof.
  destruct (RIPEMD160_streaming (replicate 64 7) [[97]; []; [98; 99]] []) as [H _]; [done..|].
  rewrite H. vm_compute. reflexivity.
Defined.

(** [CSHA1] is a streaming SHA-1: however a message of less than 2^61 bytes
    is cut into [Write] calls, [Finalize] returns its FIPS 180-4 digest. *)
Theorem SHA1_streaming (buf : list Z) (pieces : list (list Z)) :
  length buf = 64%nat → Z.of_nat (length (concat pieces)) < 2 ^ 61 →
  (CSHA1_Finalize (foldl CSHA1_Write (CSHA1 buf) pieces)).1 = FIPS_SHA1.SHA1 (concat pieces).
Proof.
  intros Hbuf Hlen. rewrite <- SHA1_md.
  apply (md_streaming sha1.params); [|done|done]. intros n. apply length_be_bytes.
Qed.

Lemma SHA1_streaming_witness :
  (CSHA1_Finalize (foldl CSHA1_Write (CSHA1 (replicate 64 7)) [[97]; []; [98; 99]])).1 =
    be_bytes 20 0xa9993e364706816aba3e25717850c26c9cd0d89d.
Proof.
  rewrite (SHA1_streaming (replicate 64 7) [[97]; []; [98; 99]]) by done. vm_compute. reflexivity.
Defined.
