(* ===== verification/Sha256Gpu.v ===== *)
(** * The mining kernel: [btc_sha256_gpu.cl], and the padding and result check of
    [btc_sha256_gpu.cpp]

    The device and the host are little-endian machines, so that [memcpy] between
    an integer and a buffer moves its little-endian bytes.  A launch runs one
    [BtcDoubleSHA256] per work item on a shared output buffer, in any order.
    The bit functions, constants and initial words of the kernel have the same
    text as those of [sha256_cpu.cpp] and are shared with [Sha256]. *)

From stdpp Require Import base list numbers decidable sets.
From S2P Require Import Prelude ArithUint256 Uint256 MdHash Sha256.

Open Scope Z_scope.

(** ** Byte order macros *)

Definition ToBE32 (x : Z) : Z :=
  Z.lor (Z.lor (Z.lor (Z.shiftr (Z.land x 0xff000000) 24)
                      (Z.shiftr (Z.land x 0x00ff0000) 8))
               (shl32 (Z.land x 0x0000ff00) 8))
        (shl32 (Z.land x 0x000000ff) 24).

Definition shl64 (x n : Z) : Z := wrap64 (Z.shiftl x n).

Definition ToBE64 (x : Z) : Z :=
  Z.lor (Z.lor (Z.lor (Z.lor (Z.lor (Z.lor (Z.lor
    (Z.shiftr (Z.land x 0xff00000000000000) 56)
    (Z.shiftr (Z.land x 0x00ff000000000000) 40))
    (Z.shiftr (Z.land x 0x0000ff0000000000) 24))
    (Z.shiftr (Z.land x 0x000000ff00000000) 8))
    (shl64 (Z.land x 0x00000000ff000000) 8))
    (shl64 (Z.land x 0x0000000000ff0000) 24))
    (shl64 (Z.land x 0x000000000000ff00) 40))
    (shl64 (Z.land x 0x00000000000000ff) 56).

Definition WriteBE32_EX (buf : list Z) (off : nat) (x : Z) : list Z := splice buf off (le_bytes 4 (ToBE32 x)).
Definition WriteBE64_EX (buf : list Z) (off : nat) (x : Z) : list Z := splice buf off (le_bytes 8 (ToBE64 x)).
Definition ReadBE32_EX (buf : list Z) (off : nat) : Z := ToBE32 (ReadLE32 buf off).

(** ** The compression loop *)

(** [Round] of the kernel: the constant and the schedule word are separate
    arguments. *)
Definition KRound (a b c d e f g h k w : Z) : Z * Z :=
  let t1 := add32 (add32 (add32 (add32 h (Sigma1 e)) (Ch e f g)) k) w in
  let t2 := add32 (Sigma0 a) (Maj a b c) in
  (add32 d t1, add32 t1 t2).

Definition kround_call (i : nat) (k w : Z) (r : list Z) : list Z :=
  let v := λ j, at_ r (reg_of i j) in
  let '(d, h) := KRound (v 0%nat) (v 1%nat) (v 2%nat) (v 3%nat) (v 4%nat) (v 5%nat) (v 6%nat) (v 7%nat) k w in
  <[reg_of i 7 := h]> (<[reg_of i 3 := d]> r).

Definition kschedule_call (chunk : list Z) (i : nat) (w : list Z) : list Z :=
  if (i <? 16)%nat then <[i := ReadBE32_EX chunk (4 * i)]> w
  else
    let x := λ j, at_ w ((i + j) mod 16)%nat in
    <[(i mod 16)%nat := add32 (x 0%nat) (add32 (add32 (sigma1 (x 14%nat)) (x 9%nat)) (sigma0 (x 1%nat)))]> w.

Definition T_step (chunk : list Z) (i : nat) (rw : list Z * list Z) : list Z * list Z :=
  let '(r, w) := rw in
  let w := kschedule_call chunk i w in
  (kround_call i (at_ round_constants i) (at_ w (i mod 16)%nat) r, w).

Fixpoint T (s chunk : list Z) (blocks : nat) : list Z :=
  match blocks with
  | O => s
  | S n =>
      let '(r, _) := for_range 0 64 (T_step chunk) (s, replicate 16 0) in
      T (zip_with add32 s r) (drop 64 chunk) n
  end.

Definition KFinalize (s out : list Z) : list Z :=
  for_range 0 8 (λ i out, WriteBE32_EX out (4 * i) (at_ s i)) out.

(** [Reset], [T], [Finalize]; the output may be the input buffer. *)
Definition DoHash (data : list Z) (blocks : nat) (out : list Z) : list Z :=
  KFinalize (T sha_init data blocks) out.

(** ** The kernel *)

Definition IN_DATA_SIZE : nat := 128.
Definition OUT_DATA_SIZE : Z := 32.
Definition NONCE_OFFSET : nat := 76.

(** The work item [get_global_id(0)], on the output buffer as it finds it.  The
    number is taken as an [int], and the product that gives the output offset is
    an [int]. *)
Definition BtcDoubleSHA256 (pIn : list Z) (nonceOffset global_id : Z) (pOut : list Z) : list Z :=
  let puId := swrap32 global_id in
  let data := take IN_DATA_SIZE pIn in
  let nonce := wrap32 (puId + nonceOffset) in
  let data := splice data NONCE_OFFSET (le_bytes 4 nonce) in
  let hashResult := replicate 64 0 in
  let hashResult := DoHash data 2 hashResult in
  let hashResult := <[32%nat := 0x80]> hashResult in
  let rawDataSize := WriteBE64_EX (replicate 8 0) 0 (Z.shiftl 32 3) in
  let hashResult := splice hashResult 56 rawDataSize in
  let hashResult := DoHash hashResult 1 hashResult in
  let outDataOffset := wrap64 (swrap32 (puId * OUT_DATA_SIZE)) in
  splice pOut (Z.to_nat outDataOffset) (take 32 hashResult).

(** [clEnqueueNDRangeKernel]: the given work items, in the given order.  How many the
    host asks for is [global_work_size] of [GpuMiner]. *)
Definition launch (pIn : list Z) (nonceOffset : Z) (order : list nat) (pOut : list Z) : list Z :=
  foldl (λ out id, BtcDoubleSHA256 pIn nonceOffset (Z.of_nat id) out) pOut order.

(** The host reads the output buffer into a [vector<uint256>]. *)
Definition result_at (pOut : list Z) (i : nat) : blob := take 32 (drop (32 * i) pOut).

(** [TT::HashTest], the host copy of the kernel ([TT::t] is [T]). *)
Definition TT_HashTest (chunk outHash : list Z) : list Z :=
  let s := T sha_init chunk 2 in
  let tmpResult := KFinalize s (replicate 64 0) in
  let tmpResult := <[32%nat := 0x80]> tmpResult in
  let tmpResult := splice tmpResult 56 (WriteBE64 (replicate 8 0) 0 (Z.shiftl 32 3)) in
  KFinalize (T sha_init tmpResult 1) outHash.

(** ** Host side *)

Definition PADDED_BLOCKHEADER_SIZE : nat := 128.

Definition PadBlockHaderData (buf : list Z) : list Z :=
  let buf := splice buf 80 (replicate 48 0) in
  let buf := <[80%nat := 0x80]> buf in
  splice buf 120 (WriteBE64 (replicate 8 0) 0 (Z.shiftl 80 3)).

(** The scan of [CheckResults]: the nonce of the first hash that meets the
    target. *)
Fixpoint CheckResults_scan (i : Z) (nonceOffset : Z) (vResult : list blob) (bnTarget : limbs) : option Z :=
  match vResult with
  | [] => None
  | hash :: vResult' =>
      if bu_le (UintToArith256 hash) bnTarget then Some (wrap32 (nonceOffset + i))
      else CheckResults_scan (i + 1) nonceOffset vResult' bnTarget
  end.

(** ** Byte order *)

Lemma mask_byte x k : 0 <= k → Z.land x (Z.shiftl 255 k) = Z.shiftl ((x / 2 ^ k) mod 2 ^ 8) k.
Proof.
  intros Hk. apply Z.bits_inj'. intros n Hn. rewrite Z.land_spec, !Z.shiftl_spec by done.
  change 255 with (Z.ones 8). rewrite <- (Z.shiftr_div_pow2 x k) by done.
  destruct (Z.lt_ge_cases n k); [by rewrite !(Z.testbit_neg_r _ (n - k)), andb_false_r by lia|].
  destruct (Z.lt_ge_cases (n - k) 8).
  - rewrite Z.ones_spec_low, Z.mod_pow2_bits_low, Z.shiftr_spec, andb_true_r by lia. f_equal. lia.
  - by rewrite Z.ones_spec_high, Z.mod_pow2_bits_high, andb_false_r by lia.
Qed.

Lemma digest_byte_ok x k : fits 8 ((x / 2 ^ k) mod 2 ^ 8).
Proof. apply Z.mod_pos_bound. lia. Qed.

(** One term of the macros. *)
Lemma mask_shr x m k j n :
  m = Z.shiftl 255 k → 0 <= j → 0 <= n → k = j + n →
  Z.shiftr (Z.land x m) n = Z.shiftl ((x / 2 ^ k) mod 2 ^ 8) j.
Proof.
  intros -> Hj Hn Hk. rewrite mask_byte by lia. rewrite Z.shiftr_shiftl_l by lia. f_equal. lia.
Qed.

Lemma mask_shl w x m k j n :
  m = Z.shiftl 255 k → 0 <= k → 0 <= n → j = k + n → j + 8 <= w →
  wrap w (Z.shiftl (Z.land x m) n) = Z.shiftl ((x / 2 ^ k) mod 2 ^ 8) j.
Proof.
  intros -> Hk Hn -> Hw. rewrite mask_byte, Z.shiftl_shiftl by lia. apply wrap_id.
  rewrite Z.shiftl_mul_pow2 by lia. pose proof (digest_byte_ok x k) as [H0 H1].
  pose proof (pow2_pos (k + n) ltac:(lia)). split; [nia|].
  apply Z.lt_le_trans with (2 ^ 8 * 2 ^ (k + n)); [nia|].
  rewrite <- Z.pow_add_r by lia. apply Z.pow_le_mono_r; lia.
Qed.

Lemma lor_byte acc b w : 0 <= w → fits w acc → fits 8 b →
  Z.lor acc (Z.shiftl b w) = acc + b * 2 ^ w ∧ fits (w + 8) (acc + b * 2 ^ w).
Proof.
  intros Hw Ha Hb. split; [by apply lor_add_disjoint|]. unfold fits in *.
  rewrite Z.pow_add_r by lia. nia.
Qed.

Lemma div_256 x k : 0 <= k → x / 2 ^ k / 256 = x / 2 ^ (k + 8).
Proof. intros. rewrite Z.div_div, Z.pow_add_r by lia. done. Qed.

Lemma ToBE32_spec x : ToBE32 x = be_value (le_bytes 4 x).
Proof.
  unfold ToBE32, shl32. rewrite (mask_shr x _ 24 0 24), (mask_shr x _ 16 8 8) by done.
  rewrite (mask_shl 32 x _ 8 16 8), (mask_shl 32 x _ 0 24 24) by done. rewrite Z.shiftl_0_r.
  unfold be_value. cbn [le_bytes reverse].
  replace (x mod 256) with ((x / 2 ^ 0) mod 2 ^ 8) by (by rewrite Z.div_1_r).
  replace (x / 256) with (x / 2 ^ 8) by done. rewrite !div_256 by lia.
  pose proof (digest_byte_ok x 24) as H3. pose proof (digest_byte_ok x 16) as H2.
  pose proof (digest_byte_ok x 8) as H1. pose proof (digest_byte_ok x 0) as H0.
  destruct (lor_byte _ _ 8 ltac:(lia) H3 H2) as [-> Ha].
  destruct (lor_byte _ _ 16 ltac:(lia) Ha H1) as [-> Hb].
  destruct (lor_byte _ _ 24 ltac:(lia) Hb H0) as [-> _]. change 256 with (2 ^ 8).
  change (8 + 8 + 8) with 24. change (8 + 8) with 16. clear.
  generalize ((x / 2 ^ 0) mod 2 ^ 8), ((x / 2 ^ 8) mod 2 ^ 8), ((x / 2 ^ 16) mod 2 ^ 8), ((x / 2 ^ 24) mod 2 ^ 8).
  intros. unfold reverse. cbn [rev_append le_value]. lia.
Qed.

Lemma le_bytes_ToBE32 x : le_bytes 4 (ToBE32 x) = be_bytes 4 x.
Proof.
  rewrite ToBE32_spec. unfold be_value, be_bytes.
  pose proof (le_bytes_le_value (reverse (le_bytes 4 x))) as H.
  rewrite length_reverse, length_le_bytes in H. apply H, Forall_reverse, le_bytes_ok.
Qed.

Lemma ReadBE32_EX_spec buf off :
  bytes_ok buf → (off + 4 <= length buf)%nat → ReadBE32_EX buf off = ReadBE32 buf off.
Proof.
  intros Hb Hl. unfold ReadBE32_EX, ReadBE32, ReadLE32. rewrite ToBE32_spec. f_equal.
  assert (length (take 4 (drop off buf)) = 4%nat) as E by (rewrite length_take, length_drop; lia).
  rewrite <- E at 1. apply le_bytes_le_value. by apply Forall_take, Forall_drop.
Qed.

(** ** The kernel's compression is the CPU's *)

Lemma KRound_Round a b c d e f g h k w : KRound a b c d e f g h k w = Round a b c d e f g h (add32 k w).
Proof. unfold KRound, Round. f_equal; wrapped_sum. Qed.

Lemma T_step_eq chunk i rw :
  bytes_ok chunk → (64 <= length chunk)%nat → T_step chunk i rw = transform_step chunk i rw.
Proof.
  intros Hb Hl. destruct rw as [r w]. unfold T_step, transform_step.
  assert (kschedule_call chunk i w = schedule_call chunk i w) as ->.
  { unfold kschedule_call, schedule_call. destruct (Nat.ltb_spec i 16); [|done].
    by rewrite ReadBE32_EX_spec by (done || lia). }
  unfold kround_call, round_call. by rewrite KRound_Round.
Qed.

Lemma for_range_ext {A} lo n (f g : nat → A → A) s :
  (∀ i s, f i s = g i s) → for_range lo n f s = for_range lo n g s.
Proof.
  intros H. unfold for_range. revert s. induction (seq lo n) as [|i l IH]; intros s; [done|].
  cbn. by rewrite H.
Qed.

Lemma T_Transform s chunk n :
  bytes_ok chunk → (64 * n <= length chunk)%nat → T s chunk n = Transform s chunk n.
Proof.
  revert s chunk. induction n as [|n IH]; intros s chunk Hb Hl; [done|]. cbn [T Transform].
  unfold Transform_block.
  rewrite (for_range_ext _ _ (T_step chunk) (transform_step chunk)) by (intros; apply T_step_eq; (done || lia)).
  destruct (for_range 0 64 (transform_step chunk) (s, replicate 16 0)) as [r w].
  apply IH; [by apply Forall_drop|]. rewrite length_drop. lia.
Qed.

Lemma KFinalize_spec s out :
  length s = 8%nat → (32 <= length out)%nat → KFinalize s out = write_state s ++ drop 32 out.
Proof.
  intros Hs Ho. destruct (list8 s Hs) as (? & ? & ? & ? & ? & ? & ? & ? & ->).
  rewrite <- (take_drop 32 out) at 1.
  assert (length (take 32 out) = 32%nat) as Hl by (rewrite length_take_le; lia).
  generalize dependent (take 32 out). generalize (drop 32 out). clear Ho Hs out. intros tl hd Hl.
  unfold KFinalize, for_range, WriteBE32_EX. cbn [seq foldl].
  repeat change (at_ (?a :: ?l) 0) with a. rewrite !le_bytes_ToBE32.
  do 33 (destruct hd as [|? hd]; [try done|]); try done.
Qed.

(** [DoHash] of a padded message is its digest. *)
Lemma DoHash_pad msg out n :
  bytes_ok msg → (length (FIPS.pad msg) = 64 * n)%nat → (32 <= length out)%nat →
  DoHash (FIPS.pad msg) n out = FIPS.SHA256 msg ++ drop 32 out.
Proof.
  intros Hb Hn Ho. unfold DoHash.
  assert (bytes_ok (FIPS.pad msg)) as Hp.
  { unfold FIPS.pad. rewrite app_comm_cons. apply Forall_app. split; [done|].
    apply Forall_app. split; [|apply be_bytes_ok]. constructor; [done|]. by apply Forall_replicate. }
  rewrite T_Transform by (done || lia).
  rewrite KFinalize_spec; [|apply Transform_ok, sha_init_ok|done].
  unfold FIPS.SHA256, write_state. rewrite Hn, Nat.mul_comm, Nat.div_mul by lia.
  by rewrite Transform_fips by apply sha_init_ok.
Qed.

Lemma splice_app_r a b n k src : n = (length a + k)%nat → splice (a ++ b) n src = a ++ splice b k src.
Proof.
  intros ->. unfold splice. rewrite take_app_add, <- !app_assoc. do 3 f_equal.
  rewrite <- Nat.add_assoc. apply drop_app_add.
Qed.

Lemma splice_0 src dst tl : length dst = length src → splice (dst ++ tl) 0 src = src ++ tl.
Proof. intros H. unfold splice. cbn [take app]. by rewrite Nat.add_0_l, <- H, drop_app_length. Qed.

(** The bytes the padding adds to 80- and 32-byte messages. *)
Lemma pad_80 msg : length msg = 80%nat →
  FIPS.pad msg = msg ++ 0x80 :: replicate 39 0 ++ be_bytes 8 640.
Proof. intros H. unfold FIPS.pad. by rewrite H. Qed.

Lemma pad_32 msg : length msg = 32%nat →
  FIPS.pad msg = msg ++ 0x80 :: replicate 23 0 ++ be_bytes 8 256.
Proof. intros H. unfold FIPS.pad. by rewrite H. Qed.

Lemma PadBlockHaderData_pad header tl :
  length header = 80%nat → length tl = 48%nat →
  PadBlockHaderData (header ++ tl) = FIPS.pad header.
Proof.
  intros Hh Ht. rewrite pad_80 by done. unfold PadBlockHaderData.
  assert (splice (header ++ tl) 80 (replicate 48 0) = header ++ replicate 48 0) as ->.
  { rewrite (splice_app_r _ _ _ 0) by lia. f_equal.
    rewrite <- (app_nil_r tl), splice_0 by (by rewrite length_replicate). by rewrite app_nil_r. }
  rewrite insert_app_r_alt, Hh by lia.
  by rewrite (splice_app_r _ _ _ 40) by lia.
Qed.

(** The header the work item hashes. *)
Definition with_nonce (header : list Z) (nonce : Z) : list Z := take 76 header ++ le_bytes 4 nonce.

Lemma length_with_nonce header nonce : length header = 80%nat → length (with_nonce header nonce) = 80%nat.
Proof. intros. unfold with_nonce. rewrite length_app, length_take_le, length_le_bytes; lia. Qed.

Lemma with_nonce_ok header nonce : bytes_ok header → bytes_ok (with_nonce header nonce).
Proof. intros. apply Forall_app. split; [by apply Forall_take|apply le_bytes_ok]. Qed.

Lemma splice_nonce header nonce :
  length header = 80%nat →
  splice (take 128 (FIPS.pad header)) 76 (le_bytes 4 nonce) = FIPS.pad (with_nonce header nonce).
Proof.
  intros Hh. rewrite !pad_80 by (done || by apply length_with_nonce).
  rewrite take_ge by (rewrite length_app, Hh; cbn; lia).
  rewrite <- (take_drop 76 header) at 1. unfold with_nonce. rewrite <- !app_assoc.
  assert (length (take 76 header) = 76%nat) as Ht by (rewrite length_take_le; lia).
  rewrite (splice_app_r _ _ _ 0) by lia. f_equal. apply splice_0. rewrite length_drop, length_le_bytes. lia.
Qed.

Lemma DoHash_64 s k msg :
  msg = FIPS.pad s → bytes_ok s → length (FIPS.pad s) = (64 * k)%nat → 
  DoHash msg k (replicate 64 0) = FIPS.SHA256 s ++ replicate 32 0.
Proof. intros -> ? ?. rewrite DoHash_pad by (done || (rewrite length_replicate; lia)). done. Qed.

Lemma second_block (h : list Z) :
  length h = 32%nat →
  splice (<[32%nat := 0x80]> (h ++ replicate 32 0)) 56 (be_bytes 8 256) = FIPS.pad h.
Proof.
  intros Hh. rewrite pad_32 by done. rewrite insert_app_r_alt, Hh by lia.
  by rewrite (splice_app_r _ _ _ 24) by lia.
Qed.

(** What one work item writes, and where. *)
Lemma BtcDoubleSHA256_writes header nonceOffset id pOut :
  length header = 80%nat → bytes_ok header →
  BtcDoubleSHA256 (FIPS.pad header) nonceOffset id pOut =
    splice pOut (Z.to_nat (wrap64 (swrap32 (swrap32 id * 32))))
      (FIPS.SHA256 (FIPS.SHA256 (with_nonce header (wrap32 (swrap32 id + nonceOffset))))).
Proof.
  intros Hh Hb. unfold BtcDoubleSHA256, IN_DATA_SIZE, NONCE_OFFSET, OUT_DATA_SIZE.
  rewrite splice_nonce by done. set (m := with_nonce _ _).
  assert (length m = 80%nat) as Hm by by apply length_with_nonce.
  assert (bytes_ok m) as Hmb by by apply with_nonce_ok.
  rewrite (DoHash_64 m) by (done || (rewrite pad_80, length_app, Hm; [done|done])).
  change (WriteBE64_EX (replicate 8 0) 0 (Z.shiftl 32 3)) with (be_bytes 8 256).
  rewrite second_block by apply length_SHA256. set (d := FIPS.SHA256 m).
  assert (length d = 32%nat) as Hd by apply length_SHA256.
  rewrite DoHash_pad; [|apply SHA256_bytes|..]; [|rewrite pad_32, length_app, Hd by done; cbn; lia..].
  rewrite take_app_length' by (symmetry; apply length_SHA256). done.
Qed.

(** A number that the [int] holds with its offset. *)
Lemma BtcDoubleSHA256_spec header nonceOffset puId pOut :
  length header = 80%nat → bytes_ok header → 0 <= puId → puId * 32 < 2 ^ 31 →
  BtcDoubleSHA256 (FIPS.pad header) nonceOffset puId pOut =
    splice pOut (Z.to_nat (puId * 32))
      (FIPS.SHA256 (FIPS.SHA256 (with_nonce header (wrap32 (puId + nonceOffset))))).
Proof.
  intros Hh Hb H0 Hid. rewrite BtcDoubleSHA256_writes by done.
  rewrite (swrap_id 32 puId), (swrap_id 32 (puId * 32)), wrap_id by (unfold fits, sfits; lia). done.
Qed.

(** The offset wraps after [2^27] items: item [2^27 + j] writes to the place of item [j]. *)
Lemma BtcDoubleSHA256_wraps header nonceOffset (j : Z) pOut :
  length header = 80%nat → bytes_ok header → 0 <= j → j * 32 < 2 ^ 31 →
  BtcDoubleSHA256 (FIPS.pad header) nonceOffset (2 ^ 27 + j) pOut =
    splice pOut (Z.to_nat (j * 32))
      (FIPS.SHA256 (FIPS.SHA256 (with_nonce header (wrap32 (2 ^ 27 + j + nonceOffset))))).
Proof.
  intros Hh Hb H0 Hj. rewrite BtcDoubleSHA256_writes by done. rewrite (swrap_id 32 (2 ^ 27 + j)) by (unfold sfits; lia).
  replace (swrap32 ((2 ^ 27 + j) * 32)) with (j * 32); [by rewrite wrap_id by (unfold fits; lia)|].
  unfold swrap. replace ((2 ^ 27 + j) * 32 + 2 ^ (32 - 1)) with (j * 32 + 2 ^ 31 + 1 * 2 ^ 32) by lia.
  rewrite Z.mod_add, Z.mod_small by lia. lia.
Qed.

(** ** A launch *)

Lemma result_at_splice_eq out i h :
  length h = 32%nat → (32 * i + 32 <= length out)%nat → result_at (splice out (32 * i) h) i = h.
Proof.
  intros Hh Hl. unfold result_at, splice. rewrite drop_app_ge by (rewrite length_take; lia).
  rewrite length_take_le, Nat.sub_diag by lia. cbn [drop]. apply take_app_length'; lia.
Qed.

Lemma result_at_splice_ne out i j h :
  i ≠ j → length h = 32%nat → (32 * i + 32 <= length out)%nat →
  result_at (splice out (32 * i) h) j = result_at out j.
Proof.
  intros Hij Hh Hl. unfold result_at, splice. destruct (decide (j < i)%nat).
  - rewrite drop_app_le by (rewrite length_take; lia). rewrite take_app_le by (rewrite length_drop, length_take; lia).
    rewrite skipn_firstn_comm, take_take. f_equal. lia.
  - rewrite app_assoc, drop_app_ge by (rewrite length_app, length_take; lia).
    rewrite length_app, length_take_le, drop_drop, Hh by lia. do 2 f_equal. lia.
Qed.

Lemma launch_spec header nonceOffset n order pOut :
  length header = 80%nat → bytes_ok header → Z.of_nat n * 32 <= 2 ^ 31 →
  length pOut = (32 * n)%nat → NoDup order → Forall (λ i, (i < n)%nat) order →
  let out := launch (FIPS.pad header) nonceOffset order pOut in
  length out = (32 * n)%nat ∧
  ∀ i, (i < n)%nat →
    result_at out i =
      if decide (i ∈ order)
      then FIPS.SHA256 (FIPS.SHA256 (with_nonce header (wrap32 (Z.of_nat i + nonceOffset))))
      else result_at pOut i.
Proof.
  intros Hh Hb Hn. unfold launch. revert pOut. induction order as [|id order IH] using rev_ind; intros pOut Hl Hnd Hlt.
  { split; [done|]. intros. by destruct (decide (i ∈ [])) as [?%elem_of_nil|]. }
  apply list.NoDup_app in Hnd as (Hnd & Hdisj & _). apply Forall_app in Hlt as [Hlt Hid].
  apply Forall_cons_1 in Hid as [Hid _]. rewrite foldl_app. cbn [foldl].
  destruct (IH pOut Hl Hnd Hlt) as [Hl' Hr]. clear IH. set (out := foldl _ _ order) in *.
  rewrite BtcDoubleSHA256_spec by (done || lia).
  replace (Z.to_nat (Z.of_nat id * 32)) with (32 * id)%nat by lia.
  set (h := FIPS.SHA256 (FIPS.SHA256 _)). assert (length h = 32%nat) as Hlh by apply length_SHA256.
  split; [rewrite length_splice; lia|]. intros i Hi.
  destruct (decide (i = id)) as [->|Hne].
  - rewrite decide_True by set_solver. apply result_at_splice_eq; [done|lia].
  - rewrite result_at_splice_ne by (done || lia). rewrite Hr by done.
    destruct (decide (i ∈ order)), (decide (i ∈ order ++ [id])); set_solver.
Qed.

(** Every item once, in any order. *)
Lemma length_launch header nonceOffset n order pOut :
  length header = 80%nat → bytes_ok header → Z.of_nat n * 32 <= 2 ^ 31 →
  length pOut = (32 * n)%nat → order ≡ₚ seq 0 n →
  length (launch (FIPS.pad header) nonceOffset order pOut) = (32 * n)%nat.
Proof.
  intros Hh Hb Hn Hl Hperm. apply launch_spec; try done.
  - rewrite Hperm. apply NoDup_seq.
  - rewrite Hperm. apply list.Forall_forall. intros x Hx%elem_of_seq. lia.
Qed.

Lemma launch_result_at header nonceOffset n order pOut i :
  length header = 80%nat → bytes_ok header → Z.of_nat n * 32 <= 2 ^ 31 →
  length pOut = (32 * n)%nat → order ≡ₚ seq 0 n → (i < n)%nat →
  result_at (launch (FIPS.pad header) nonceOffset order pOut) i =
    Hash256 (with_nonce header (wrap32 (nonceOffset + Z.of_nat i))).
Proof.
  intros Hh Hb Hn Hl Hperm Hi.
  destruct (launch_spec header nonceOffset n order pOut) as [_ Hr]; try done.
  - rewrite Hperm. apply NoDup_seq.
  - rewrite Hperm. apply list.Forall_forall. intros x Hx%elem_of_seq. lia.
  - rewrite Hr, decide_True by (done || (rewrite Hperm; apply elem_of_seq; lia)).
    rewrite Z.add_comm. symmetry. apply Hash256_fips. rewrite length_with_nonce by done. lia.
Qed.

Lemma CheckResults_scan_spec vResult bnTarget nonceOffset i :
  limbs_wf bnTarget → Forall (blob_wf 32) vResult →
  match CheckResults_scan i nonceOffset vResult bnTarget with
  | Some nonce => ∃ (k : nat) (hash : blob), vResult !! k = Some hash ∧
      nonce = wrap32 (nonceOffset + (i + Z.of_nat k)) ∧ le_value hash <= value bnTarget ∧
      ∀ (j : nat) (h : blob), (j < k)%nat → vResult !! j = Some h → value bnTarget < le_value h
  | None => Forall (λ h, value bnTarget < le_value h) vResult
  end.
Proof.
  intros Ht. revert i. induction vResult as [|h l IH]; intros i Hwf; cbn [CheckResults_scan]; [constructor|].
  apply Forall_cons_1 in Hwf as [Hh Hl].
  rewrite bu_le_spec, value_UintToArith256 by (done || by apply UintToArith256_wf).
  destruct (Z.leb_spec (le_value h) (value bnTarget)) as [Hle|Hgt].
  { exists 0%nat, h. split_and!; [done| |done|intros; lia]. do 2 f_equal. lia. }
  specialize (IH (i + 1) Hl). destruct (CheckResults_scan _ _ l _).
  - destruct IH as (k & hash & Hk & -> & Hle & Hbefore). exists (S k), hash.
    split_and!; [done|do 2 f_equal; lia|done|]. intros [|j] h' Hj Hlk; [by simplify_eq/=|].
    apply (Hbefore j); [lia|done].
  - by constructor.
Qed.

(** ** Properties *)

(** C2: a launch of [n] work items over the padded header leaves in result [i],
    in whatever order the items ran, the double SHA-256 ([Hash::Hash256]) of the
    80-byte header whose nonce field is [(nonceOffset + i) mod 2^32]. *)
Theorem launch_hashes_nonces (header tl pOut : list Z) (nonceOffset : Z) (n : nat) (order : list nat) :
  length header = 80%nat → bytes_ok header → length tl = 48%nat →
  Z.of_nat n * 32 <= 2 ^ 31 → length pOut = (32 * n)%nat → order ≡ₚ seq 0 n →
  ∀ i, (i < n)%nat →
    result_at (launch (PadBlockHaderData (header ++ tl)) nonceOffset order pOut) i =
      Hash256 (with_nonce header (wrap32 (nonceOffset + Z.of_nat i))).
Proof.
  intros Hh Hb Ht Hn Hl Hperm i Hi. rewrite PadBlockHaderData_pad by done.
  by apply (launch_result_at header nonceOffset n).
Qed.

Lemma launch_hashes_nonces_witness :
  result_at (launch (PadBlockHaderData (replicate 80 1 ++ replicate 48 0)) 0xffffffff [1; 0]%nat (replicate 64 0)) 1 =
    Hash256 (with_nonce (replicate 80 1) 0).
Proof.
  refine (launch_hashes_nonces (replicate 80 1) (replicate 48 0) (replicate 64 0) 0xffffffff 2 [1; 0]%nat
    _ _ _ _ _ _ 1%nat _); [reflexivity| |reflexivity|discriminate|reflexivity| |lia].
  - by apply Forall_replicate.
  - apply perm_swap.
Defined.

(** [CheckResults] reports the first nonce of the batch whose hash, read as a
    little-endian number, is at most the target, and reports nothing exactly
    when no hash of the batch meets it. *)
Theorem CheckResults_first_solution (vResult : list blob) (bnTarget : limbs) (nonceOffset : Z) :
  limbs_wf bnTarget → Forall (blob_wf 32) vResult →
  match CheckResults_scan 0 nonceOffset vResult bnTarget with
  | Some nonce => ∃ (k : nat) (hash : blob), vResult !! k = Some hash ∧
      nonce = wrap32 (nonceOffset + Z.of_nat k) ∧ le_value hash <= value bnTarget ∧
      ∀ (j : nat) (h : blob), (j < k)%nat → vResult !! j = Some h → value bnTarget < le_value h
  | None => Forall (λ h, value bnTarget < le_value h) vResult
  end.
Proof. intros. by apply (CheckResults_scan_spec vResult bnTarget nonceOffset 0). Qed.

Lemma CheckResults_first_solution_witness :
  CheckResults_scan 0 5 [replicate 32 255; replicate 32 0; replicate 32 0] (bu_of_u64 7) = Some 6 ∧
  limbs_wf (bu_of_u64 7).
Proof.
  pose proof (CheckResults_first_solution [replicate 32 255; replicate 32 0; replicate 32 0] (bu_of_u64 7) 5) as H.
  assert (CheckResults_scan 0 5 [replicate 32 255; replicate 32 0; replicate 32 0] (bu_of_u64 7) = Some 6) as E
    by reflexivity.
  rewrite E in H. split; [done|]. destruct H as (k & hash & _).
  - apply bu_of_u64_wf.
  - assert (∀ b, byte_ok b → blob_wf 32 (replicate 32 b)) as Hr.
    { intros b Hb. split; [apply length_replicate|by apply Forall_replicate]. }
    repeat apply Forall_cons_2; try (by apply Hr). constructor.
  - apply bu_of_u64_wf.
Defined.
