(* ===== verification/Script.v ===== *)
(** * Scripts: [script/script.h], [script/script.cpp]

    A [CScript] is the list of its bytes.  An opcode is its byte; iterators into
    a script are the bytes from there to the end.  [CScriptNum] is its [int64_t]
    value; assertions and exceptions are [None] or values of [scriptnum_error]. *)

From stdpp Require Import base list numbers decidable.
From S2P Require Import Prelude Uint256 Serialize.

Open Scope Z_scope.

Definition MAX_SCRIPT_ELEMENT_SIZE : Z := 520.
Definition MAX_OPS_PER_SCRIPT : Z := 201.
Definition MAX_PUBKEYS_PER_MULTISIG : Z := 20.
Definition MAX_SCRIPT_SIZE : Z := 10000.
Definition MAX_STACK_SIZE : Z := 1000.
Definition LOCKTIME_THRESHOLD : Z := 500000000.

(** ** [enum opcodetype] *)

Definition OP_0 : Z := 0x00.
Definition OP_FALSE : Z := OP_0.
Definition OP_PUSHDATA1 : Z := 0x4c.
Definition OP_PUSHDATA2 : Z := 0x4d.
Definition OP_PUSHDATA4 : Z := 0x4e.
Definition OP_1NEGATE : Z := 0x4f.
Definition OP_RESERVED : Z := 0x50.
Definition OP_1 : Z := 0x51.
Definition OP_TRUE : Z := OP_1.
Definition OP_2 : Z := 0x52.
Definition OP_3 : Z := 0x53.
Definition OP_4 : Z := 0x54.
Definition OP_5 : Z := 0x55.
Definition OP_6 : Z := 0x56.
Definition OP_7 : Z := 0x57.
Definition OP_8 : Z := 0x58.
Definition OP_9 : Z := 0x59.
Definition OP_10 : Z := 0x5a.
Definition OP_11 : Z := 0x5b.
Definition OP_12 : Z := 0x5c.
Definition OP_13 : Z := 0x5d.
Definition OP_14 : Z := 0x5e.
Definition OP_15 : Z := 0x5f.
Definition OP_16 : Z := 0x60.
Definition OP_NOP : Z := 0x61.
Definition OP_VER : Z := 0x62.
Definition OP_IF : Z := 0x63.
Definition OP_NOTIF : Z := 0x64.
Definition OP_VERIF : Z := 0x65.
Definition OP_VERNOTIF : Z := 0x66.
Definition OP_ELSE : Z := 0x67.
Definition OP_ENDIF : Z := 0x68.
Definition OP_VERIFY : Z := 0x69.
Definition OP_RETURN : Z := 0x6a.
Definition OP_TOALTSTACK : Z := 0x6b.
Definition OP_FROMALTSTACK : Z := 0x6c.
Definition OP_2DROP : Z := 0x6d.
Definition OP_2DUP : Z := 0x6e.
Definition OP_3DUP : Z := 0x6f.
Definition OP_2OVER : Z := 0x70.
Definition OP_2ROT : Z := 0x71.
Definition OP_2SWAP : Z := 0x72.
Definition OP_IFDUP : Z := 0x73.
Definition OP_DEPTH : Z := 0x74.
Definition OP_DROP : Z := 0x75.
Definition OP_DUP : Z := 0x76.
Definition OP_NIP : Z := 0x77.
Definition OP_OVER : Z := 0x78.
Definition OP_PICK : Z := 0x79.
Definition OP_ROLL : Z := 0x7a.
Definition OP_ROT : Z := 0x7b.
Definition OP_SWAP : Z := 0x7c.
Definition OP_TUCK : Z := 0x7d.
Definition OP_CAT : Z := 0x7e.
Definition OP_SUBSTR : Z := 0x7f.
Definition OP_LEFT : Z := 0x80.
Definition OP_RIGHT : Z := 0x81.
Definition OP_SIZE : Z := 0x82.
Definition OP_INVERT : Z := 0x83.
Definition OP_AND : Z := 0x84.
Definition OP_OR : Z := 0x85.
Definition OP_XOR : Z := 0x86.
Definition OP_EQUAL : Z := 0x87.
Definition OP_EQUALVERIFY : Z := 0x88.
Definition OP_RESERVED1 : Z := 0x89.
Definition OP_RESERVED2 : Z := 0x8a.
Definition OP_1ADD : Z := 0x8b.
Definition OP_1SUB : Z := 0x8c.
Definition OP_2MUL : Z := 0x8d.
Definition OP_2DIV : Z := 0x8e.
Definition OP_NEGATE : Z := 0x8f.
Definition OP_ABS : Z := 0x90.
Definition OP_NOT : Z := 0x91.
Definition OP_0NOTEQUAL : Z := 0x92.
Definition OP_ADD : Z := 0x93.
Definition OP_SUB : Z := 0x94.
Definition OP_MUL : Z := 0x95.
Definition OP_DIV : Z := 0x96.
Definition OP_MOD : Z := 0x97.
Definition OP_LSHIFT : Z := 0x98.
Definition OP_RSHIFT : Z := 0x99.
Definition OP_BOOLAND : Z := 0x9a.
Definition OP_BOOLOR : Z := 0x9b.
Definition OP_NUMEQUAL : Z := 0x9c.
Definition OP_NUMEQUALVERIFY : Z := 0x9d.
Definition OP_NUMNOTEQUAL : Z := 0x9e.
Definition OP_LESSTHAN : Z := 0x9f.
Definition OP_GREATERTHAN : Z := 0xa0.
Definition OP_LESSTHANOREQUAL : Z := 0xa1.
Definition OP_GREATERTHANOREQUAL : Z := 0xa2.
Definition OP_MIN : Z := 0xa3.
Definition OP_MAX : Z := 0xa4.
Definition OP_WITHIN : Z := 0xa5.
Definition OP_RIPEMD160 : Z := 0xa6.
Definition OP_SHA1 : Z := 0xa7.
Definition OP_SHA256 : Z := 0xa8.
Definition OP_HASH160 : Z := 0xa9.
Definition OP_HASH256 : Z := 0xaa.
Definition OP_CODESEPARATOR : Z := 0xab.
Definition OP_CHECKSIG : Z := 0xac.
Definition OP_CHECKSIGVERIFY : Z := 0xad.
Definition OP_CHECKMULTISIG : Z := 0xae.
Definition OP_CHECKMULTISIGVERIFY : Z := 0xaf.
Definition OP_NOP1 : Z := 0xb0.
Definition OP_CHECKLOCKTIMEVERIFY : Z := 0xb1.
Definition OP_NOP2 : Z := OP_CHECKLOCKTIMEVERIFY.
Definition OP_CHECKSEQUENCEVERIFY : Z := 0xb2.
Definition OP_NOP3 : Z := OP_CHECKSEQUENCEVERIFY.
Definition OP_NOP4 : Z := 0xb3.
Definition OP_NOP5 : Z := 0xb4.
Definition OP_NOP6 : Z := 0xb5.
Definition OP_NOP7 : Z := 0xb6.
Definition OP_NOP8 : Z := 0xb7.
Definition OP_NOP9 : Z := 0xb8.
Definition OP_NOP10 : Z := 0xb9.
Definition OP_INVALIDOPCODE : Z := 0xff.

Definition MAX_OPCODE : Z := OP_NOP10.

Abbreviation CScript := (list Z).

(** ** [CScriptNum] *)

Definition nDefaultMaxNumSize : Z := 4.
Definition int64_min : Z := - 2 ^ 63.
Definition int64_max : Z := 2 ^ 63 - 1.
Definition int32_min : Z := - 2 ^ 31.
Definition int32_max : Z := 2 ^ 31 - 1.

(** [while (absvalue) { push_back(absvalue & 0xff); absvalue >>= 8; }]: eight
    iterations empty a [uint64_t]. *)
Fixpoint abs_bytes (fuel : nat) (absvalue : Z) : list Z :=
  match fuel with
  | O => []
  | S n => if absvalue =? 0 then [] else Z.land absvalue 0xff :: abs_bytes n (Z.shiftr absvalue 8)
  end.

Definition num_serialize (value : Z) : list Z :=
  if value =? 0 then []
  else
    let neg := value <? 0 in
    let absvalue := wrap64 (if neg then - value else value) in
    let result := abs_bytes 8 absvalue in
    match list.last result with
    | None => result
    | Some back =>
        if negb (Z.land back 0x80 =? 0) then result ++ [if neg then 0x80 else 0]
        else if neg then take (length result - 1) result ++ [Z.lor back 0x80]
        else result
    end.

Fixpoint set_vch_loop (i : Z) (result : Z) (vch : list Z) : Z :=
  match vch with
  | [] => result
  | b :: vch' => set_vch_loop (i + 1) (swrap64 (Z.lor result (Z.shiftl b (8 * i)))) vch'
  end.

(** [x & ~y] is [Z.ldiff x y]. *)
Definition set_vch (vch : list Z) : Z :=
  match list.last vch with
  | None => 0
  | Some back =>
      let result := set_vch_loop 0 0 vch in
      if negb (Z.land back 0x80 =? 0) then
        - swrap64 (Z.ldiff (wrap64 result) (Z.shiftl 0x80 (8 * (Z.of_nat (length vch) - 1))))
      else result
  end.

Inductive scriptnum_error := ScriptNumberOverflow | NonMinimalScriptNumber.

(** The minimal-encoding test of the constructor. *)
Definition num_minimal (vch : list Z) : bool :=
  match list.last vch with
  | None => true
  | Some back =>
      if Z.land back 0x7f =? 0 then
        negb ((Z.of_nat (length vch) <=? 1) ||
              (Z.land (default 0 (vch !! (length vch - 2)%nat)) 0x80 =? 0))
      else true
  end.

Definition CScriptNum (vch : list Z) (fRequireMinimal : bool) (nMaxNumSize : Z) : scriptnum_error + Z :=
  if Z.of_nat (length vch) >? nMaxNumSize then inl ScriptNumberOverflow
  else if fRequireMinimal && negb (num_minimal vch) then inl NonMinimalScriptNumber
  else inr (set_vch vch).

(** [operator+], [operator-] on [int64_t]; the compound forms and the unary
    minus assert that nothing overflows. *)
Definition num_add (a b : Z) : Z := swrap64 (a + b).
Definition num_sub (a b : Z) : Z := swrap64 (a - b).
Definition num_and (a b : Z) : Z := Z.land a b.
Definition num_neg (a : Z) : option Z := if a =? int64_min then None else Some (- a).

Definition num_add_assign (m_value rhs : Z) : option Z :=
  if (rhs =? 0) || ((rhs >? 0) && (m_value <=? int64_max - rhs)) || ((rhs <? 0) && (m_value >=? int64_min - rhs))
  then Some (m_value + rhs) else None.
Definition num_sub_assign (m_value rhs : Z) : option Z :=
  if (rhs =? 0) || ((rhs >? 0) && (m_value >=? int64_min + rhs)) || ((rhs <? 0) && (m_value <=? int64_max + rhs))
  then Some (m_value - rhs) else None.

Definition getint (m_value : Z) : Z :=
  if m_value >? int32_max then int32_max
  else if m_value <? int32_min then int32_min
  else m_value.

(** ** Building scripts *)

Definition push_data (b : list Z) (s : CScript) : CScript :=
  let n := Z.of_nat (length b) in
  s ++ (if n <? OP_PUSHDATA1 then [n]
        else if n <=? 0xff then [OP_PUSHDATA1; n]
        else if n <=? 0xffff then OP_PUSHDATA2 :: le_bytes 2 n
        else OP_PUSHDATA4 :: le_bytes 4 n) ++ b.

Definition push_opcode (opcode : Z) (s : CScript) : option CScript :=
  if (opcode <? 0) || (opcode >? 0xff) then None else Some (s ++ [opcode]).

Definition push_num (n : Z) (s : CScript) : CScript := push_data (num_serialize n) s.

Definition push_int64 (n : Z) (s : CScript) : CScript :=
  if (n =? -1) || ((n >=? 1) && (n <=? 16)) then s ++ [wrap8 (n + (OP_1 - 1))]
  else if n =? 0 then s ++ [OP_0]
  else push_data (num_serialize n) s.

Definition DecodeOP_N (opcode : Z) : option Z :=
  if opcode =? OP_0 then Some 0
  else if (opcode >=? OP_1) && (opcode <=? OP_16) then Some (opcode - (OP_1 - 1))
  else None.

Definition EncodeOP_N (n : Z) : option Z :=
  if (n >=? 0) && (n <=? 16) then Some (if n =? 0 then OP_0 else OP_1 + n - 1) else None.

(** ** Reading scripts *)

(** The size of the operand and where it starts; [None]: truncated. *)
Definition operand_size (opcode : Z) (pc : list Z) : option (Z * list Z) :=
  if opcode <? OP_PUSHDATA1 then Some (opcode, pc)
  else if opcode =? OP_PUSHDATA1 then
    if Z.of_nat (length pc) <? 1 then None else Some (default 0 (head pc), drop 1 pc)
  else if opcode =? OP_PUSHDATA2 then
    if Z.of_nat (length pc) <? 2 then None else Some (le_value (take 2 pc), drop 2 pc)
  else
    if Z.of_nat (length pc) <? 4 then None else Some (le_value (take 4 pc), drop 4 pc).

(** [GetScriptOp]: the opcode, the operand and the new [pc]; [None]: false. *)
Definition GetScriptOp (pc : list Z) : option (Z * list Z * list Z) :=
  match pc with
  | [] => None
  | opcode :: pc =>
      if opcode <=? OP_PUSHDATA4 then
        match operand_size opcode pc with
        | None => None
        | Some (nSize, pc) =>
            if Z.of_nat (length pc) <? nSize then None
            else Some (opcode, take (Z.to_nat nSize) pc, drop (Z.to_nat nSize) pc)
        end
      else Some (opcode, [], pc)
  end.

(** Every operation takes at least one byte, so the length of the script bounds
    the loops below ([GetScriptOp_shorter]). *)
Fixpoint sigops_loop (fuel : nat) (fAccurate : bool) (n lastOpcode : Z) (pc : list Z) : Z :=
  match fuel with
  | O => n
  | S fuel' =>
      match GetScriptOp pc with
      | None => n
      | Some (opcode, _, pc) =>
          let n :=
            if (opcode =? OP_CHECKSIG) || (opcode =? OP_CHECKSIGVERIFY) then wrap32 (n + 1)
            else if (opcode =? OP_CHECKMULTISIG) || (opcode =? OP_CHECKMULTISIGVERIFY) then
              if fAccurate && (lastOpcode >=? OP_1) && (lastOpcode <=? OP_16)
              then wrap32 (n + default 0 (DecodeOP_N lastOpcode))
              else wrap32 (n + MAX_PUBKEYS_PER_MULTISIG)
            else n in
          sigops_loop fuel' fAccurate n opcode pc
      end
  end.

Definition GetSigOpCount (s : CScript) (fAccurate : bool) : Z :=
  sigops_loop (length s) fAccurate 0 OP_INVALIDOPCODE s.

Definition byte_at (s : CScript) (i : nat) : Z := default 0 (s !! i).
Definition script_size (s : CScript) : Z := Z.of_nat (length s).

Definition IsPayToScriptHash (s : CScript) : bool :=
  (script_size s =? 23) && (byte_at s 0 =? OP_HASH160) && (byte_at s 1 =? 0x14) && (byte_at s 22 =? OP_EQUAL).

Definition IsPayToWitnessScriptHash (s : CScript) : bool :=
  (script_size s =? 34) && (byte_at s 0 =? OP_0) && (byte_at s 1 =? 0x20).

Definition IsWitnessProgram (s : CScript) : option (Z * list Z) :=
  if (script_size s <? 4) || (script_size s >? 42) then None
  else if negb (byte_at s 0 =? OP_0) && ((byte_at s 0 <? OP_1) || (byte_at s 0 >? OP_16)) then None
  else if byte_at s 1 + 2 =? script_size s then
    match DecodeOP_N (byte_at s 0) with
    | Some version => Some (version, drop 2 s)
    | None => None
    end
  else None.

Fixpoint IsPushOnly_loop (fuel : nat) (pc : list Z) : bool :=
  match fuel, pc with
  | S fuel', _ :: _ =>
      match GetScriptOp pc with
      | None => false
      | Some (opcode, _, pc) => if opcode >? OP_16 then false else IsPushOnly_loop fuel' pc
      end
  | _, _ => true
  end.
Definition IsPushOnly (s : CScript) : bool := IsPushOnly_loop (length s) s.

Fixpoint HasValidOps_loop (fuel : nat) (pc : list Z) : bool :=
  match fuel, pc with
  | S fuel', _ :: _ =>
      match GetScriptOp pc with
      | None => false
      | Some (opcode, item, pc) =>
          if (opcode >? MAX_OPCODE) || (Z.of_nat (length item) >? MAX_SCRIPT_ELEMENT_SIZE) then false
          else HasValidOps_loop fuel' pc
      end
  | _, _ => true
  end.
Definition HasValidOps (s : CScript) : bool := HasValidOps_loop (length s) s.

Definition IsUnspendable (s : CScript) : bool :=
  ((script_size s >? 0) && (byte_at s 0 =? OP_RETURN)) || (script_size s >? MAX_SCRIPT_SIZE).

(** The last item a push-only [scriptSig] leaves; [None]: return 0. *)
Fixpoint last_push (fuel : nat) (vData : list Z) (pc : list Z) : option (list Z) :=
  match fuel, pc with
  | S fuel', _ :: _ =>
      match GetScriptOp pc with
      | None => None
      | Some (opcode, vData, pc) => if opcode >? OP_16 then None else last_push fuel' vData pc
      end
  | _, _ => Some vData
  end.

(** [GetSigOpCount(scriptSig)]. *)
Definition GetSigOpCount_p2sh (s scriptSig : CScript) : Z :=
  if negb (IsPayToScriptHash s) then GetSigOpCount s true
  else match last_push (length scriptSig) [] scriptSig with
       | None => 0
       | Some vData => GetSigOpCount vData true
       end.

(** ** Script numbers *)

Lemma land_ff a : Z.land a 0xff = a mod 256.
Proof. change 0xff with (Z.ones 8). by rewrite Z.land_ones. Qed.

Lemma shiftr_8 a : Z.shiftr a 8 = a / 256.
Proof. by rewrite Z.shiftr_div_pow2. Qed.

Lemma land_80 b : byte_ok b → negb (Z.land b 0x80 =? 0) = (128 <=? b).
Proof. apply test80. Qed.

Lemma abs_bytes_value fuel a :
  0 <= a < 256 ^ Z.of_nat fuel →
  le_value (abs_bytes fuel a) = a ∧ bytes_ok (abs_bytes fuel a) ∧ (length (abs_bytes fuel a) <= fuel)%nat.
Proof.
  revert a. induction fuel as [|n IH]; intros a Ha.
  { cbn in *. split_and!; [lia|constructor|lia]. }
  cbn [abs_bytes]. destruct (Z.eqb_spec a 0) as [->|]; [split_and!; [done|constructor|simpl; lia]|].
  rewrite Nat2Z.inj_succ, Z.pow_succ_r in Ha by lia. rewrite land_ff, shiftr_8.
  destruct (IH (a / 256)) as (Hv & Hb & Hl).
  { split; [apply Z.div_pos; lia|apply Z.div_lt_upper_bound; lia]. }
  split_and!.
  - cbn [le_value]. rewrite Hv. pose proof (Z.div_mod a 256). lia.
  - constructor; [apply Z.mod_pos_bound; lia|done].
  - cbn [length]. lia.
Qed.

Lemma last_app_one {A} (l : list A) x : list.last (l ++ [x]) = Some x.
Proof. apply last_snoc. Qed.

Lemma last_split {A} (l : list A) x : list.last l = Some x → l = take (length l - 1) l ++ [x].
Proof.
  destruct l as [|y l _] using rev_ind; [done|]. rewrite last_snoc. intros [= ->].
  rewrite length_app. cbn [length]. by rewrite Nat.add_sub, take_app_length.
Qed.

(** A byte string whose last byte is not zero is the digits of its value. *)
Lemma abs_bytes_of_value fuel l t :
  bytes_ok l → list.last l = Some t → t ≠ 0 → (length l <= fuel)%nat →
  abs_bytes fuel (le_value l) = l ∧ 0 < le_value l.
Proof.
  intros Hb. revert fuel. induction Hb as [|b l Hb Hl IH]; intros fuel Ht Hnz Hf; [done|].
  destruct fuel as [|n]; [simpl in Hf; lia|]. unfold fits in Hb. change (2 ^ 8) with 256 in Hb.
  pose proof (le_value_bound l Hl). cbn [le_value abs_bytes].
  assert (l = [] ∧ b = t ∨ list.last l = Some t) as Hc.
  { destruct l; [left; by simplify_eq/=|right; by rewrite last_cons_cons in Ht]. }
  assert (abs_bytes n (le_value l) = l ∧ 0 < b + 256 * le_value l) as [E Hpos].
  { destruct Hc as [[-> ->]|Hc]; [split; [by destruct n|cbn; lia]|].
    destruct (IH n Hc Hnz) as [E Hp]; [simpl in Hf; lia|]. split; [done|lia]. }
  destruct (Z.eqb_spec (b + 256 * le_value l) 0); [lia|]. rewrite land_ff, shiftr_8.
  rewrite (Z.mul_comm 256), Z.mod_add, Z.div_add, Z.mod_small, Z.div_small, Z.add_0_l, E by lia.
  split; [done|lia].
Qed.

Lemma abs_bytes_last fuel a t : list.last (abs_bytes fuel a) = Some t → 0 <= a < 256 ^ Z.of_nat fuel → t ≠ 0.
Proof.
  revert a. induction fuel as [|n IH]; intros a; [done|]. cbn [abs_bytes].
  destruct (Z.eqb_spec a 0); [done|]. rewrite land_ff, shiftr_8. intros Hl Ha.
  rewrite Nat2Z.inj_succ, Z.pow_succ_r in Ha by lia.
  destruct (abs_bytes n (a / 256)) as [|y l] eqn:E.
  - injection Hl as <-. destruct n as [|n]; [simpl in Ha; rewrite Z.mod_small; lia|].
    cbn [abs_bytes] in E. destruct (Z.eqb_spec (a / 256) 0) as [E0|]; [|done].
    pose proof (Z.div_mod a 256). lia.
  - apply (IH (a / 256)); [by rewrite E, <- Hl|].
    split; [apply Z.div_pos; lia|apply Z.div_lt_upper_bound; lia].
Qed.

Lemma abs_bytes_nonempty fuel a : (0 < fuel)%nat → a ≠ 0 → ∃ t, list.last (abs_bytes fuel a) = Some t.
Proof.
  intros Hf Ha. destruct fuel; [lia|]. cbn [abs_bytes]. destruct (Z.eqb_spec a 0); [done|].
  destruct (list.last _) eqn:E; [eauto|]. by apply last_None in E.
Qed.

(** The loop of [set_vch] gathers the little-endian value, wrapped at the top. *)
Lemma set_vch_loop_spec vch i result :
  bytes_ok vch → 0 <= i → i + Z.of_nat (length vch) <= 8 → vch ≠ [] → fits (8 * i) result →
  set_vch_loop i result vch = swrap64 (result + 2 ^ (8 * i) * le_value vch).
Proof.
  intros Hb. revert i result. induction Hb as [|b l Hb Hl IH]; intros i result Hi Hlen Hne Hr; [done|].
  cbn [set_vch_loop le_value length] in *. rewrite lor_add_disjoint by (done || lia).
  pose proof (pow2_pos (8 * i) ltac:(lia)). destruct l as [|b' l].
  - cbn [set_vch_loop le_value]. f_equal. lia.
  - assert (2 ^ (8 * (i + 1)) = 256 * 2 ^ (8 * i)) as Ep.
    { replace (8 * (i + 1)) with (8 + 8 * i) by lia. rewrite Z.pow_add_r by lia. done. }
    assert (fits (8 * (i + 1)) (result + b * 2 ^ (8 * i))) as Hr'.
    { unfold fits in *. rewrite Ep. change (2 ^ 8) with 256 in Hb. nia. }
    rewrite (swrap_id 64); [|lia|].
    + rewrite IH; [|lia|cbn [length] in *; lia|done|done]. f_equal. rewrite Ep. ring.
    + assert (2 ^ (8 * (i + 1)) <= 2 ^ 56) by (apply Z.pow_le_mono_r; cbn [length] in *; lia).
      unfold fits, sfits in *. change (2 ^ (64 - 1)) with (2 ^ 63).
      assert (2 ^ 56 < 2 ^ 63) by done. lia.
Qed.

Lemma wrap_swrap x : wrap64 (swrap64 x) = wrap64 x.
Proof.
  unfold wrap, swrap. rewrite Zminus_mod_idemp_l. f_equal. lia.
Qed.

(** Clearing the top bit of the top byte. *)
Lemma ldiff_top L n :
  1 <= n → 2 ^ (8 * n - 1) <= L < 2 ^ (8 * n) →
  Z.ldiff L (Z.shiftl 0x80 (8 * (n - 1))) = L - 2 ^ (8 * n - 1).
Proof.
  intros Hn HL. change 0x80 with (2 ^ 7). rewrite Z.shiftl_mul_pow2, <- Z.pow_add_r by lia.
  replace (7 + 8 * (n - 1)) with (8 * n - 1) by lia. symmetry. apply Z.sub_nocarry_ldiff.
  apply Z.bits_inj'. intros m Hm. rewrite Z.ldiff_spec, Z.bits_0.
  destruct (decide (m = 8 * n - 1)) as [->|].
  - rewrite (testbit_top (8 * n - 1) L) by (lia || (unfold fits; split; [lia|replace (8 * n - 1 + 1) with (8 * n) by lia; lia])).
    rewrite (proj2 (Z.leb_le _ _)) by lia. by rewrite andb_false_r.
  - by rewrite Z.pow2_bits_false by lia.
Qed.

(** [set_vch] on a string that ends in [t], by the top bit of [t]. *)
Lemma set_vch_snoc l t :
  bytes_ok l → byte_ok t → (length l <= 7)%nat →
  set_vch (l ++ [t]) =
    if 128 <=? t then - (le_value l + 256 ^ Z.of_nat (length l) * (t - 128))
    else le_value l + 256 ^ Z.of_nat (length l) * t.
Proof.
  intros Hl Ht Hlen. unfold set_vch. rewrite last_app_one, land_80 by done.
  rewrite set_vch_loop_spec; [| |lia| |by destruct l|done].
  2: { by apply Forall_snoc. }
  2: { rewrite length_app. simpl. lia. }
  rewrite Z.mul_0_r, Z.pow_0_r, Z.mul_1_l, Z.add_0_l, le_value_app, length_app. cbn [le_value length].
  rewrite Z.mul_0_r, Z.add_0_r. pose proof (le_value_bound l Hl) as HL.
  unfold fits in Ht. change (2 ^ 8) with 256 in Ht. set (n := Z.of_nat (length l)) in *.
  assert (0 < 256 ^ n) by (apply Z.pow_pos_nonneg; lia).
  assert (256 ^ n <= 256 ^ 7) by (apply Z.pow_le_mono_r; lia).
  assert (256 ^ n = 2 ^ (8 * n)) as Ep by (change 256 with (2 ^ 8); rewrite <- Z.pow_mul_r; [done|lia..]).
  assert (256 ^ 7 * 256 = 2 ^ 64) as E64 by done. assert (2 ^ 63 = 256 ^ 7 * 128) as E63 by done.
  destruct (Z.leb_spec 128 t) as [Hbig|Hsmall].
  - rewrite wrap_swrap, wrap_id by (unfold fits; nia).
    replace (8 * (Z.of_nat (length l + 1) - 1)) with (8 * ((n + 1) - 1)) by (unfold n; lia).
    assert (2 ^ (8 * (n + 1) - 1) = 256 ^ n * 128) as E1.
    { rewrite Ep. replace (8 * (n + 1) - 1) with (8 * n + 7) by lia. rewrite Z.pow_add_r by lia. done. }
    assert (2 ^ (8 * (n + 1)) = 256 ^ n * 256) as E2.
    { rewrite Ep. replace (8 * (n + 1)) with (8 * n + 8) by lia. rewrite Z.pow_add_r by lia. done. }
    rewrite ldiff_top by nia. rewrite E1, swrap_id; [|lia|].
    + f_equal. nia.
    + unfold sfits. change (64 - 1) with 63. rewrite E63. nia.
  - apply swrap_id; [lia|]. unfold sfits. change (64 - 1) with 63. rewrite E63. nia.
Qed.

(** What [num_serialize] builds, by sign and top bit. *)
Lemma num_serialize_cases v l t :
  v ≠ 0 → abs_bytes 8 (Z.abs v) = l ++ [t] → byte_ok t → Z.abs v < 2 ^ 63 →
  num_serialize v =
    if 128 <=? t then l ++ [t] ++ [if v <? 0 then 0x80 else 0]
    else if v <? 0 then l ++ [t + 128] else l ++ [t].
Proof.
  intros Hv E Ht Hb. unfold num_serialize. destruct (Z.eqb_spec v 0); [done|].
  replace (wrap64 (if v <? 0 then - v else v)) with (Z.abs v).
  2: { destruct (Z.ltb_spec v 0); rewrite wrap_id; unfold fits; lia. }
  rewrite E, last_app_one, land_80 by done. destruct (Z.leb_spec 128 t); [by rewrite <- app_assoc|].
  rewrite length_app. cbn [length]. rewrite Nat.add_sub, take_app_length.
  rewrite lor80; [done|]. unfold fits in Ht. lia.
Qed.

Lemma abs_bytes_snoc a :
  0 < a < 2 ^ 63 → ∃ l t, abs_bytes 8 a = l ++ [t] ∧ bytes_ok l ∧ byte_ok t ∧ t ≠ 0 ∧ (length l <= 7)%nat ∧
    le_value l + 256 ^ Z.of_nat (length l) * t = a ∧ (length l = 7%nat → t < 128).
Proof.
  intros Ha. assert (2 ^ 63 < 256 ^ Z.of_nat 8) by done.
  destruct (abs_bytes_value 8 a) as (Hv & Hb & Hl); [lia|].
  destruct (abs_bytes_nonempty 8 a) as [t Ht]; [lia|lia|].
  pose proof (abs_bytes_last 8 a t Ht ltac:(lia)) as Hnz.
  rewrite (last_split _ _ Ht) in *. set (l := take _ _) in *. exists l, t.
  apply Forall_app in Hb as [Hbl Hbt]. apply Forall_cons_1 in Hbt as [Hbt _].
  rewrite length_app in Hl. cbn [length] in Hl. rewrite le_value_app in Hv. cbn [le_value] in Hv.
  rewrite Z.mul_0_r, Z.add_0_r in Hv. split_and!; [done|done|done|done|lia|done|].
  intros E7. rewrite E7 in Hv. pose proof (le_value_bound l Hbl).
  change (256 ^ Z.of_nat 7) with (2 ^ 56) in Hv. assert (2 ^ 63 = 2 ^ 56 * 128) by done. nia.
Qed.

Lemma set_vch_num_serialize v :
  Z.abs v < 2 ^ 63 →
  set_vch (num_serialize v) = v ∧ num_minimal (num_serialize v) = true ∧ (length (num_serialize v) <= 8)%nat.
Proof.
  intros Hb. destruct (Z.eq_dec v 0) as [->|Hv]; [by split_and!; [..|simpl; lia]|].
  destruct (abs_bytes_snoc (Z.abs v)) as (l & t & E & Hbl & Hbt & Hnz & Hl & Hval & H7); [lia|].
  rewrite (num_serialize_cases v l t) by done. unfold fits in Hbt. change (2 ^ 8) with 256 in Hbt.
  assert (byte_ok (if v <? 0 then 0x80 else 0)) by by destruct (v <? 0).
  destruct (Z.leb_spec 128 t) as [Hbig|Hsmall].
  - assert (length l ≠ 7)%nat by (intros ?; lia). rewrite app_assoc. split_and!.
    + rewrite set_vch_snoc; [|by apply Forall_snoc|done|rewrite length_app; simpl; lia].
      rewrite le_value_app. cbn [le_value]. rewrite Z.mul_0_r, Z.add_0_r, Hval.
      destruct (Z.ltb_spec v 0); [rewrite (proj2 (Z.leb_le 128 128))|rewrite (proj2 (Z.leb_gt 128 0))]; lia.
    + unfold num_minimal. rewrite last_app_one.
      replace (Z.land (if v <? 0 then 128 else 0) 127 =? 0) with true by by destruct (v <? 0).
      rewrite length_app, length_app. cbn [length].
      replace (length l + 1 + 1 - 2)%nat with (length l) by lia.
      rewrite lookup_app_l, lookup_app_r, Nat.sub_diag by (rewrite ?length_app; simpl; lia).
      change (default 0 ([t] !! 0%nat)) with t.
      rewrite negb_orb, land_80 by done.
      rewrite (proj2 (Z.leb_le 128 t)), (proj2 (Z.leb_gt _ 1)) by lia. done.
    + rewrite !length_app. simpl. lia.
  - assert (byte_ok (t + 128)) by (unfold fits; lia).
    assert (Z.land t 127 ≠ 0 ∧ Z.land (t + 128) 127 ≠ 0) as [Hm1 Hm2].
    { rewrite !land7f. rewrite (Z.mod_small t) by lia.
      replace (t + 128) with (t + 1 * 128) by lia. rewrite Z.mod_add, Z.mod_small by lia. lia. }
    destruct (Z.ltb_spec v 0); (split_and!; [|unfold num_minimal; rewrite last_app_one|rewrite length_app; simpl; lia]).
    + rewrite set_vch_snoc, (proj2 (Z.leb_le _ _)) by (done || lia). replace (t + 128 - 128) with t by lia. lia.
    + by rewrite (proj2 (Z.eqb_neq _ _) Hm2).
    + rewrite set_vch_snoc, (proj2 (Z.leb_gt _ _)) by (done || lia). lia.
    + by rewrite (proj2 (Z.eqb_neq _ _) Hm1).
Qed.

(** A minimal encoding is what its value serializes to. *)
Lemma num_serialize_set_vch vch :
  bytes_ok vch → (length vch <= 8)%nat → num_minimal vch = true →
  num_serialize (set_vch vch) = vch ∧ Z.abs (set_vch vch) < 2 ^ 63.
Proof.
  intros Hb Hlen Hmin. destruct vch as [|t l _] using rev_ind; [done|].
  apply Forall_app in Hb as [Hbl Hbt]. apply Forall_cons_1 in Hbt as [Hbt _].
  rewrite length_app in Hlen. cbn [length] in Hlen. rewrite set_vch_snoc by (done || lia).
  unfold num_minimal in Hmin. rewrite last_app_one, land7f in Hmin.
  unfold fits in Hbt. change (2 ^ 8) with 256 in Hbt.
  set (m := if 128 <=? t then t - 128 else t).
  assert (0 <= m < 128 ∧ t mod 128 = m) as [Hm Hmod].
  { unfold m. destruct (Z.leb_spec 128 t); [|rewrite Z.mod_small; lia]. split; [lia|].
    replace t with (t - 128 + 1 * 128) at 1 by lia. rewrite Z.mod_add, Z.mod_small; lia. }
  set (a := le_value l + 256 ^ Z.of_nat (length l) * m).
  assert ((if 128 <=? t then - (le_value l + 256 ^ Z.of_nat (length l) * (t - 128))
           else le_value l + 256 ^ Z.of_nat (length l) * t) = if 128 <=? t then - a else a) as ->.
  { unfold a, m. by destruct (128 <=? t). }
  assert (∃ l' t', abs_bytes 8 a = l' ++ [t'] ∧ byte_ok t' ∧ 0 < a < 2 ^ 63 ∧
     l ++ [t] = if 128 <=? t' then l' ++ [t'] ++ [if 128 <=? t then 0x80 else 0]
                else if 128 <=? t then l' ++ [t' + 128] else l' ++ [t'])
    as (l' & t' & E & Ht' & Ha & ->).
  { pose proof (le_value_bound l Hbl) as HL. assert (256 ^ Z.of_nat (length l) <= 256 ^ 7) by (apply Z.pow_le_mono_r; lia).
    assert (2 ^ 63 = 256 ^ 7 * 128) as E63 by done.
    destruct (decide (m = 0)) as [Hm0|Hm0].
    - rewrite Hmod, Hm0, Z.eqb_refl in Hmin. apply negb_true_iff, orb_false_iff in Hmin as [Hge Hback].
      rewrite length_app in Hge, Hback. cbn [length] in Hge, Hback. apply Z.leb_gt in Hge.
      destruct l as [|t' l' _] using rev_ind; [simpl in Hge; lia|]. rewrite length_app in Hback. cbn [length] in Hback.
      replace (length l' + 1 + 1 - 2)%nat with (length l') in Hback by lia.
      rewrite <- app_assoc, lookup_app_r, Nat.sub_diag in Hback by done. cbn [app lookup list_lookup default] in Hback.
      apply Forall_app in Hbl as [Hbl' Hbt']. apply Forall_cons_1 in Hbt' as [Hbt' _].
      assert (128 <= t').
      { pose proof (land_80 t' Hbt') as H80. change (Z.land t' 128) with (Z.land t' 0x80) in Hback. cbn in Hback.
        rewrite Hback in H80. cbn in H80. symmetry in H80. by apply Z.leb_le in H80. }
      destruct (abs_bytes_of_value 8 (l' ++ [t']) t') as [Eabs Hpos];
        [by apply Forall_snoc|apply last_app_one|lia|rewrite length_app in *; simpl in *; lia|].
      exists l', t'. unfold a. rewrite Hm0, Z.mul_0_r, Z.add_0_r. split_and!; [done|done|done|nia|].
      rewrite (proj2 (Z.leb_le _ _)) by done. rewrite <- app_assoc. unfold m in Hm0.
      by destruct (Z.leb_spec 128 t); [replace t with 128 by lia|replace t with 0 by lia].
    - assert (byte_ok m) by (unfold fits; lia).
      destruct (abs_bytes_of_value 8 (l ++ [m]) m) as [Eabs Hpos];
        [by apply Forall_snoc|apply last_app_one|done|rewrite length_app; simpl; lia|].
      rewrite le_value_app in Eabs, Hpos. cbn [le_value] in Eabs, Hpos. rewrite Z.mul_0_r, Z.add_0_r in Eabs, Hpos.
      exists l, m. split_and!; [done|done|done|unfold a; nia|]. rewrite (proj2 (Z.leb_gt _ _)) by lia.
      unfold m. destruct (Z.leb_spec 128 t); [|done]. do 2 f_equal. lia. }
  assert (((if 128 <=? t then - a else a) <? 0) = (128 <=? t)) as Hsign.
  { destruct (128 <=? t); [apply Z.ltb_lt; lia|apply Z.ltb_ge; lia]. }
  split; [|destruct (128 <=? t); lia].
  rewrite (num_serialize_cases _ l' t'), Hsign; [done|destruct (128 <=? t); lia| |done|destruct (128 <=? t); lia].
  rewrite <- E. f_equal. destruct (128 <=? t); lia.
Qed.

(** ** Reading what was pushed *)

Lemma GetScriptOp_shorter pc opcode data pc' :
  GetScriptOp pc = Some (opcode, data, pc') → (length pc' < length pc)%nat ∧ (length data <= length pc)%nat.
Proof.
  destruct pc as [|op pc]; [done|]. cbn [GetScriptOp].
  destruct (op <=? OP_PUSHDATA4); [|intros [= <- <- <-]; simpl; lia].
  destruct (operand_size op pc) as [[n pc1]|] eqn:E; [|done].
  assert (length pc1 <= length pc)%nat.
  { unfold operand_size in E. repeat case_match; simplify_eq; rewrite ?length_drop; lia. }
  destruct (_ <? _); [done|]. intros [= <- <- <-]. cbn [length]. rewrite length_drop, length_take. lia.
Qed.

(** The opcode byte that starts the push of [b]. *)
Definition push_opcode_of (b : list Z) : Z :=
  let n := Z.of_nat (length b) in
  if n <? OP_PUSHDATA1 then n
  else if n <=? 0xff then OP_PUSHDATA1 else if n <=? 0xffff then OP_PUSHDATA2 else OP_PUSHDATA4.

Lemma GetScriptOp_push b rest :
  Z.of_nat (length b) < 2 ^ 32 →
  GetScriptOp (push_data b [] ++ rest) = Some (push_opcode_of b, b, rest) ∧ push_opcode_of b <= OP_PUSHDATA4.
Proof.
  intros Hlen. unfold push_data, push_opcode_of. cbn [app].
  unfold OP_PUSHDATA1, OP_PUSHDATA2, OP_PUSHDATA4 in *.
  assert (∀ op pre, op <= 0x4e → operand_size op (pre ++ b ++ rest) = Some (Z.of_nat (length b), b ++ rest) →
    GetScriptOp ((op :: pre ++ b) ++ rest) = Some (op, b, rest)) as Hgo.
  { intros op pre Hop Hsz. cbn [app GetScriptOp]. unfold OP_PUSHDATA4. rewrite <- app_assoc, Hsz.
    rewrite (proj2 (Z.leb_le _ _)) by done. rewrite (proj2 (Z.ltb_ge _ _)) by (rewrite length_app; lia).
    by rewrite Nat2Z.id, take_app_length, drop_app_length. }
  unfold operand_size, OP_PUSHDATA1, OP_PUSHDATA2 in Hgo.
  destruct (Z.ltb_spec (Z.of_nat (length b)) 0x4c).
  { split; [|lia]. apply (Hgo _ []); [lia|]. by rewrite (proj2 (Z.ltb_lt _ _)). }
  destruct (Z.leb_spec (Z.of_nat (length b)) 0xff); [|destruct (Z.leb_spec (Z.of_nat (length b)) 0xffff)]; (split; [|done]).
  - apply (Hgo _ [_]); [done|]. rewrite (proj2 (Z.ltb_ge 76 76)) by done. cbn [app length].
    rewrite Z.eqb_refl, (proj2 (Z.ltb_ge _ _)) by lia. done.
  - apply (Hgo _ (le_bytes 2 _)); [done|]. rewrite (proj2 (Z.ltb_ge 77 76)) by done.
    rewrite (proj2 (Z.eqb_neq 77 76)), Z.eqb_refl by done.
    rewrite (proj2 (Z.ltb_ge _ 2)) by (rewrite length_app, length_le_bytes; lia).
    rewrite take_app_length', drop_app_length' by by rewrite length_le_bytes.
    rewrite le_value_le_bytes, Z.mod_small; [done|]. change (256 ^ Z.of_nat 2) with 65536. lia.
  - apply (Hgo _ (le_bytes 4 _)); [done|]. rewrite (proj2 (Z.ltb_ge 78 76)) by done.
    rewrite (proj2 (Z.eqb_neq 78 76)), (proj2 (Z.eqb_neq 78 77)) by done.
    rewrite (proj2 (Z.ltb_ge _ 4)) by (rewrite length_app, length_le_bytes; lia).
    rewrite take_app_length', drop_app_length' by by rewrite length_le_bytes.
    rewrite le_value_le_bytes, Z.mod_small; [done|]. change (256 ^ Z.of_nat 4) with (2 ^ 32). lia.
Qed.

(** Scripts as instructions. *)
Inductive instr :=
  | IPush (b : list Z)
  | IOp (opcode : Z).

Definition emit (i : instr) : CScript :=
  match i with
  | IPush b => push_data b []
  | IOp opcode => [opcode]
  end.

Definition instr_ok (i : instr) : Prop :=
  match i with
  | IPush b => Z.of_nat (length b) < 2 ^ 32
  | IOp opcode => OP_PUSHDATA4 < opcode <= 0xff
  end.

Definition opcode_of (i : instr) : Z :=
  match i with IPush b => push_opcode_of b | IOp opcode => opcode end.
Definition operand_of (i : instr) : list Z :=
  match i with IPush b => b | IOp _ => [] end.

Definition assemble (prog : list instr) : CScript := prog ≫= emit.

Lemma assemble_cons i prog : assemble (i :: prog) = emit i ++ assemble prog.
Proof. done. Qed.

Lemma GetScriptOp_emit i rest :
  instr_ok i → GetScriptOp (emit i ++ rest) = Some (opcode_of i, operand_of i, rest).
Proof.
  destruct i as [b|opcode]; cbn [instr_ok emit opcode_of operand_of]; intros H.
  - by apply GetScriptOp_push.
  - cbn [app GetScriptOp]. by rewrite (proj2 (Z.leb_gt _ _)) by lia.
Qed.

Lemma emit_nonempty i : (1 <= length (emit i))%nat.
Proof.
  destruct i; cbn; [|lia]. unfold push_data. cbn [app]. rewrite length_app.
  repeat case_match; cbn [length]; lia.
Qed.

Lemma length_assemble prog : (length prog <= length (assemble prog))%nat.
Proof.
  induction prog as [|i prog IH]; [done|]. rewrite assemble_cons, length_app. pose proof (emit_nonempty i).
  cbn [length]. lia.
Qed.

(** Signature operations of a sequence of instructions. *)
Definition sigops_of (fAccurate : bool) (lastOpcode opcode : Z) : Z :=
  if (opcode =? OP_CHECKSIG) || (opcode =? OP_CHECKSIGVERIFY) then 1
  else if (opcode =? OP_CHECKMULTISIG) || (opcode =? OP_CHECKMULTISIGVERIFY) then
    if fAccurate && (lastOpcode >=? OP_1) && (lastOpcode <=? OP_16) then lastOpcode - OP_1 + 1 else 20
  else 0.

Fixpoint sigops_spec (fAccurate : bool) (lastOpcode : Z) (prog : list instr) : Z :=
  match prog with
  | [] => 0
  | i :: prog' => sigops_of fAccurate lastOpcode (opcode_of i) + sigops_spec fAccurate (opcode_of i) prog'
  end.

Lemma sigops_of_bound acc l o : 0 <= sigops_of acc l o <= 20.
Proof.
  unfold sigops_of, OP_1, OP_16. repeat case_match; rewrite ?andb_true_iff, ?Z.geb_le, ?Z.leb_le in *; lia.
Qed.

Lemma sigops_spec_bound acc l prog : 0 <= sigops_spec acc l prog <= 20 * Z.of_nat (length prog).
Proof.
  revert l. induction prog as [|i prog IH]; intros l; cbn [sigops_spec length]; [lia|].
  pose proof (sigops_of_bound acc l (opcode_of i)). specialize (IH (opcode_of i)). lia.
Qed.

Lemma sigops_loop_step acc n l o :
  fits 32 n →
  (if (o =? OP_CHECKSIG) || (o =? OP_CHECKSIGVERIFY) then wrap32 (n + 1)
   else if (o =? OP_CHECKMULTISIG) || (o =? OP_CHECKMULTISIGVERIFY) then
     if acc && (l >=? OP_1) && (l <=? OP_16) then wrap32 (n + default 0 (DecodeOP_N l))
     else wrap32 (n + MAX_PUBKEYS_PER_MULTISIG)
   else n) = wrap32 (n + sigops_of acc l o).
Proof.
  intros Hn. unfold sigops_of. destruct (_ || _); [done|]. destruct (_ || _); [|by rewrite Z.add_0_r, wrap_id].
  destruct (acc && (l >=? OP_1) && (l <=? OP_16)) eqn:E; [|done].
  apply andb_prop in E as [[_ E1]%andb_prop E2]. unfold DecodeOP_N. rewrite E1, E2.
  unfold OP_0, OP_1, OP_16 in *. rewrite Z.geb_le in E1. rewrite (proj2 (Z.eqb_neq l 0)) by lia.
  cbn. do 2 f_equal. lia.
Qed.

Lemma sigops_loop_assemble prog fuel acc n l :
  Forall instr_ok prog → (length prog <= fuel)%nat → 0 <= n → n + 20 * Z.of_nat (length prog) < 2 ^ 32 →
  sigops_loop fuel acc n l (assemble prog) = n + sigops_spec acc l prog.
Proof.
  revert fuel n l. induction prog as [|i prog IH]; intros fuel n l Hok Hf Hn Hb.
  { cbn. destruct fuel; cbn; lia. }
  destruct fuel as [|fuel]; [simpl in Hf; lia|]. apply Forall_cons_1 in Hok as [Hi Hok].
  cbn [sigops_loop length sigops_spec] in *. rewrite assemble_cons, GetScriptOp_emit by done.
  pose proof (sigops_of_bound acc l (opcode_of i)).
  rewrite sigops_loop_step by (unfold fits; lia). rewrite wrap_id by (unfold fits; lia).
  rewrite IH; [lia|done|lia|lia|lia].
Qed.

(** ** Properties *)

(** [CScriptNum]: every value whose magnitude is below 2^63 is read back from
    what [serialize] writes, and that encoding passes the minimality test;
    conversely a byte string of at most eight bytes that passes the test is the
    encoding of the value it is read as.  So under [fRequireMinimal] script
    numbers and their encodings correspond one to one. *)
Theorem CScriptNum_roundtrip (v : Z) (vch : list Z) (nMaxNumSize : Z) :
  Z.abs v < 2 ^ 63 → bytes_ok vch → nMaxNumSize <= 8 →
  (Z.of_nat (length (num_serialize v)) <= nMaxNumSize → CScriptNum (num_serialize v) true nMaxNumSize = inr v) ∧
  (CScriptNum vch true nMaxNumSize = inr v → vch = num_serialize v).
Proof.
  intros Hv Hb Hmax. destruct (set_vch_num_serialize v Hv) as (Hs & Hm & _). unfold CScriptNum. split.
  - intros Hl. rewrite Z.gtb_ltb, (proj2 (Z.ltb_ge _ _)), Hm, Hs by done. done.
  - rewrite Z.gtb_ltb. destruct (Z.ltb_spec nMaxNumSize (Z.of_nat (length vch))); [done|].
    destruct (num_minimal vch) eqn:E; [|done]. cbn. intros [= <-].
    symmetry. apply num_serialize_set_vch; [done|lia|done].
Qed.

Lemma CScriptNum_roundtrip_witness :
  num_serialize (-255) = [0xff; 0x80] ∧ CScriptNum [0xff; 0x80] true 4 = inr (-255) ∧
  CScriptNum [0xff; 0x00; 0x00] true 4 = inl NonMinimalScriptNumber.
Proof.
  split; [reflexivity|]. split; [|reflexivity].
  refine (proj1 (CScriptNum_roundtrip (-255) [] 4 _ _ _) _); [reflexivity|constructor|discriminate|discriminate].
Defined.

(** a script assembled from data pushes and opcodes is read back by
    [GetScriptOp] as exactly those instructions: after any number of them the
    next call returns the next instruction's opcode and data and stands at the
    beginning of the one after it; and [GetSigOpCount] counts on it what the
    instructions require, without overflow. *)
Theorem script_assemble_reads_back (done todo : list instr) (fAccurate : bool) :
  Forall instr_ok (done ++ todo) → 20 * Z.of_nat (length (done ++ todo)) < 2 ^ 32 →
  GetScriptOp (drop (length (assemble done)) (assemble (done ++ todo))) =
    match todo with
    | [] => None
    | i :: todo' => Some (opcode_of i, operand_of i, assemble todo')
    end ∧
  GetSigOpCount (assemble (done ++ todo)) fAccurate =
    sigops_spec fAccurate OP_INVALIDOPCODE (done ++ todo).
Proof.
  intros Hok Hlen. split.
  - assert (assemble (done ++ todo) = assemble done ++ assemble todo) as -> by apply bind_app.
    rewrite drop_app_length. apply Forall_app in Hok as [_ Hok]. destruct todo as [|i todo]; [reflexivity|].
    apply Forall_cons_1 in Hok as [Hi _]. rewrite assemble_cons. by apply GetScriptOp_emit.
  - unfold GetSigOpCount. rewrite sigops_loop_assemble; [lia|done|apply length_assemble|lia|lia].
Qed.

Lemma script_assemble_reads_back_witness :
  GetSigOpCount (assemble [IOp OP_2; IPush (replicate 33 7); IOp OP_3; IOp OP_CHECKMULTISIG]) true = 3 ∧
  GetSigOpCount (assemble [IOp OP_2; IPush (replicate 33 7); IOp OP_3; IOp OP_CHECKMULTISIG]) false = 20.
Proof.
  pose proof (λ acc, script_assemble_reads_back [] [IOp OP_2; IPush (replicate 33 7); IOp OP_3; IOp OP_CHECKMULTISIG] acc) as H.
  split; (rewrite (proj2 (H _ ltac:(repeat (apply Forall_cons_2; [vm_compute; intuition congruence|]); constructor) eq_refl)); reflexivity).
Defined.

(** The integer pushed by [CScript << n] (the block height of a coinbase
    input) is what reading the script gives back: a small-integer opcode for 0 to
    16, and otherwise the minimal encoding of [n] as one data push. *)
Theorem push_int64_reads_back (n : Z) (rest : CScript) :
  0 <= n < 2 ^ 63 →
  ∃ opcode vch, GetScriptOp (push_int64 n [] ++ rest) = Some (opcode, vch, rest) ∧
    if n <=? 16 then DecodeOP_N opcode = Some n else CScriptNum vch true 8 = inr n.
Proof.
  intros Hn. unfold push_int64. destruct (Z.eqb_spec n (-1)); [lia|]. cbn [orb].
  destruct ((n >=? 1) && (n <=? 16)) eqn:E.
  - apply andb_prop in E as [E1%Z.geb_le E2%Z.leb_le]. rewrite wrap_id by (unfold fits, OP_1; lia).
    exists (n + (OP_1 - 1)), []. cbn [app GetScriptOp]. unfold OP_PUSHDATA4, OP_1 in *.
    rewrite (proj2 (Z.leb_gt _ _)) by lia. split; [done|]. rewrite (proj2 (Z.leb_le n 16)) by lia.
    unfold DecodeOP_N, OP_0, OP_1, OP_16. rewrite (proj2 (Z.eqb_neq _ _)), Z.geb_leb by lia.
    rewrite !(proj2 (Z.leb_le _ _)) by lia. cbn [andb]. f_equal. lia.
  - destruct (Z.eqb_spec n 0) as [->|].
    { exists OP_0, []. split; [|done]. change (GetScriptOp (([] ++ [OP_0]) ++ rest)) with
        (if Z.of_nat (length rest) <? 0 then None else Some (OP_0, take 0 rest, drop 0 rest)).
      by rewrite (proj2 (Z.ltb_ge _ _)) by lia. }
    assert (16 < n) by (apply andb_false_iff in E as [E|E%Z.leb_gt]; [rewrite Z.geb_leb, Z.leb_gt in E|]; lia).
    destruct (set_vch_num_serialize n) as (Hs & Hm & Hl); [lia|].
    destruct (GetScriptOp_push (num_serialize n) rest) as [-> _]; [lia|].
    eexists _, _. split; [done|]. rewrite (proj2 (Z.leb_gt n 16)) by lia.
    unfold CScriptNum. rewrite Z.gtb_ltb, (proj2 (Z.ltb_ge _ _)), Hm, Hs by lia. done.
Qed.

Lemma push_int64_reads_back_witness :
  ∃ opcode vch, GetScriptOp (push_int64 700000 [] ++ [OP_0]) = Some (opcode, vch, [OP_0]) ∧
    if 700000 <=? 16 then DecodeOP_N opcode = Some 700000 else CScriptNum vch true 8 = inr 700000.
Proof. apply (push_int64_reads_back 700000 [OP_0]). split; [discriminate|reflexivity]. Defined.
