(* ===== verification/PubKey.v ===== *)
(** * Public keys and signature encodings: [pubkey.h], [pubkey.cpp], the encoding checks of [interpreter.cpp]

    [CPubKey] keeps 65 bytes of which the first tells the length.  A signature is
    checked for a strict DER form by [IsValidSignatureEncoding] and read by the
    lax parser [ecdsa_signature_parse_der_lax] of pubkey.cpp.  The elliptic curve
    library behind them is the class [Secp256k1]: parsing of keys and of compact
    signatures, normalization, verification. *)

From Stdlib Require Import ZifyBool.
From stdpp Require Import base list numbers decidable.
From S2P Require Import Prelude ArithUint256 Uint256 MdHash Sha256 Hash160 Script.

Open Scope Z_scope.

(** ** [libsecp256k1] *)

(** The functions of the library that the node calls; the booleans are the
    return values, the second components what is written through the pointer. *)
Class Secp256k1 := {
  secp256k1_pubkey : Type;
  secp256k1_ecdsa_signature : Type;
  secp256k1_ec_pubkey_parse : list Z → option secp256k1_pubkey;
  secp256k1_ecdsa_signature_parse_compact : list Z → bool * secp256k1_ecdsa_signature;
  secp256k1_ecdsa_signature_normalize : secp256k1_ecdsa_signature → bool * secp256k1_ecdsa_signature;
  secp256k1_ecdsa_verify : secp256k1_ecdsa_signature → list Z → secp256k1_pubkey → bool;
}.

(** ** [CPubKey] *)

Definition PUBLIC_KEY_SIZE : Z := 65.
Definition COMPRESSED_PUBLIC_KEY_SIZE : Z := 33.

Definition GetLen (chHeader : Z) : Z :=
  if (chHeader =? 2) || (chHeader =? 3) then COMPRESSED_PUBLIC_KEY_SIZE
  else if (chHeader =? 4) || (chHeader =? 6) || (chHeader =? 7) then PUBLIC_KEY_SIZE
  else 0.

(** [unsigned char vch[65]]; [vch] is uninitialised but for its first byte after
    [Invalidate]. *)
Definition CPubKey_Invalidate (vch : list Z) : list Z := <[0%nat := 0xff]> vch.

(** [Set] writes over the key it is called on. *)
Definition CPubKey_Set (vch : list Z) (data : list Z) : list Z :=
  let len := match data with [] => 0 | b :: _ => GetLen b end in
  if negb (len =? 0) && (len =? Z.of_nat (length data)) then splice vch 0 data
  else CPubKey_Invalidate vch.

Definition CPubKey_new (data : list Z) : list Z := CPubKey_Set (replicate 65 0) data.
Definition CPubKey_size (vch : list Z) : Z := GetLen (byte_at vch 0).
Definition CPubKey_bytes (vch : list Z) : list Z := take (Z.to_nat (CPubKey_size vch)) vch.
Definition CPubKey_IsValid (vch : list Z) : bool := CPubKey_size vch >? 0.
Definition CPubKey_IsCompressed (vch : list Z) : bool := CPubKey_size vch =? COMPRESSED_PUBLIC_KEY_SIZE.
Definition CPubKey_GetID (vch : list Z) : list Z := Hash160 (CPubKey_bytes vch).
Definition CPubKey_GetHash (vch : list Z) : list Z := Hash1 (CPubKey_bytes vch).
Definition CPubKey_ValidSize (data : list Z) : bool :=
  match data with [] => false | b :: _ => GetLen b =? Z.of_nat (length data) end.

(** ** [ecdsa_signature_parse_der_lax] *)

(** The position is the rest of the input; [None] is [return 0]. *)
Definition der_tag (tag : Z) (input : list Z) : option (list Z) :=
  match input with
  | [] => None
  | b :: rest => if b =? tag then Some rest else None
  end.

(** [while (lenbyte > 0 && input[pos] == 0) { pos++; lenbyte--; }] *)
Fixpoint der_skip_zeros (lenbyte : nat) (input : list Z) : nat * list Z :=
  match lenbyte, input with
  | S n, b :: rest => if b =? 0 then der_skip_zeros n rest else (lenbyte, input)
  | _, _ => (lenbyte, input)
  end.

(** The length of an integer: short form, or long form of at most three
    significant bytes. *)
Definition der_length (input : list Z) : option (Z * list Z) :=
  match input with
  | [] => None
  | lenbyte :: rest =>
      if negb (Z.land lenbyte 0x80 =? 0) then
        let lenbyte := lenbyte - 0x80 in
        if lenbyte >? Z.of_nat (length rest) then None
        else
          let '(n, rest) := der_skip_zeros (Z.to_nat lenbyte) rest in
          if (4 <=? n)%nat then None
          else Some (be_value (take n rest), drop n rest)
      else Some (lenbyte, rest)
  end.

(** Tag, length and contents of an integer. *)
Definition der_integer (input : list Z) : option (list Z * list Z) :=
  match der_tag 0x02 input with
  | None => None
  | Some rest =>
      match der_length rest with
      | None => None
      | Some (len, rest) =>
          if len >? Z.of_nat (length rest) then None
          else Some (take (Z.to_nat len) rest, drop (Z.to_nat len) rest)
      end
  end.

(** The sequence length is skipped, its value ignored. *)
Definition der_sequence (input : list Z) : option (list Z) :=
  match der_tag 0x30 input with
  | None | Some [] => None
  | Some (lenbyte :: rest) =>
      if negb (Z.land lenbyte 0x80 =? 0) then
        let lenbyte := lenbyte - 0x80 in
        if lenbyte >? Z.of_nat (length rest) then None else Some (drop (Z.to_nat lenbyte) rest)
      else Some rest
  end.

(** The contents without leading zeros, right-aligned in 32 bytes; [None]:
    overflow. *)
Definition der_value (content : list Z) : option (list Z) :=
  let '(n, digits) := der_skip_zeros (length content) content in
  if (32 <? n)%nat then None else Some (replicate (32 - n) 0 ++ digits).

Section secp.
Context `{Secp256k1}.

Definition ecdsa_signature_parse_der_lax (input : list Z) : option secp256k1_ecdsa_signature :=
  match der_sequence input with
  | None => None
  | Some input =>
      match der_integer input with
      | None => None
      | Some (r, input) =>
          match der_integer input with
          | None => None
          | Some (s, _) =>
              let parsed :=
                match der_value r, der_value s with
                | Some tr, Some ts => secp256k1_ecdsa_signature_parse_compact (tr ++ ts)
                | _, _ => (false, (secp256k1_ecdsa_signature_parse_compact (replicate 64 0)).2)
                end in
              Some (if parsed.1 then parsed.2
                    else (secp256k1_ecdsa_signature_parse_compact (replicate 64 0)).2)
          end
      end
  end.

Definition CPubKey_Verify (vch : list Z) (hash vchSig : list Z) : bool :=
  if negb (CPubKey_IsValid vch) then false
  else
    match secp256k1_ec_pubkey_parse (CPubKey_bytes vch) with
    | None => false
    | Some pubkey =>
        match ecdsa_signature_parse_der_lax vchSig with
        | None => false
        | Some sig =>
            let sig := (secp256k1_ecdsa_signature_normalize sig).2 in
            secp256k1_ecdsa_verify sig hash pubkey
        end
    end.

Definition CPubKey_IsFullyValid (vch : list Z) : bool :=
  CPubKey_IsValid vch && match secp256k1_ec_pubkey_parse (CPubKey_bytes vch) with Some _ => true | None => false end.

Definition CheckLowS (vchSig : list Z) : bool :=
  match ecdsa_signature_parse_der_lax vchSig with
  | None => false
  | Some sig => negb (secp256k1_ecdsa_signature_normalize sig).1
  end.
End secp.

(** ** The encoding checks of the interpreter *)

Definition IsCompressedOrUncompressedPubKey (vchPubKey : list Z) : bool :=
  if Z.of_nat (length vchPubKey) <? COMPRESSED_PUBLIC_KEY_SIZE then false
  else if byte_at vchPubKey 0 =? 0x04 then Z.of_nat (length vchPubKey) =? PUBLIC_KEY_SIZE
  else if (byte_at vchPubKey 0 =? 0x02) || (byte_at vchPubKey 0 =? 0x03)
  then Z.of_nat (length vchPubKey) =? COMPRESSED_PUBLIC_KEY_SIZE
  else false.

Definition IsCompressedPubKey (vchPubKey : list Z) : bool :=
  if negb (Z.of_nat (length vchPubKey) =? COMPRESSED_PUBLIC_KEY_SIZE) then false
  else (byte_at vchPubKey 0 =? 0x02) || (byte_at vchPubKey 0 =? 0x03).

(** [sig] with the hash type at its end. *)
Definition IsValidSignatureEncoding (sig : list Z) : bool :=
  let size := Z.of_nat (length sig) in
  let at_sig i := byte_at sig (Z.to_nat i) in
  if size <? 9 then false
  else if size >? 73 then false
  else if negb (at_sig 0 =? 0x30) then false
  else if negb (at_sig 1 =? size - 3) then false
  else
    let lenR := at_sig 3 in
    if 5 + lenR >=? size then false
    else
      let lenS := at_sig (5 + lenR) in
      if negb (lenR + lenS + 7 =? size) then false
      else if negb (at_sig 2 =? 0x02) then false
      else if lenR =? 0 then false
      else if negb (Z.land (at_sig 4) 0x80 =? 0) then false
      else if (lenR >? 1) && (at_sig 4 =? 0) && (Z.land (at_sig 5) 0x80 =? 0) then false
      else if negb (at_sig (lenR + 4) =? 0x02) then false
      else if lenS =? 0 then false
      else if negb (Z.land (at_sig (lenR + 6)) 0x80 =? 0) then false
      else if (lenS >? 1) && (at_sig (lenR + 6) =? 0) && (Z.land (at_sig (lenR + 7)) 0x80 =? 0) then false
      else true.

Definition SIGHASH_ALL : Z := 1.
Definition SIGHASH_NONE : Z := 2.
Definition SIGHASH_SINGLE : Z := 3.
Definition SIGHASH_ANYONECANPAY : Z := 0x80.

(** The byte without the [SIGHASH_ANYONECANPAY] bit. *)
Definition IsDefinedHashtypeSignature (vchSig : list Z) : bool :=
  match list.last vchSig with
  | None => false
  | Some back =>
      let nHashType := Z.ldiff back SIGHASH_ANYONECANPAY in
      negb ((nHashType <? SIGHASH_ALL) || (nHashType >? SIGHASH_SINGLE))
  end.

(** ** Strict DER *)

(** An integer that is not negative, in its shortest big-endian form; zero is the single
    byte [00], which the test for null bytes at the start does not refuse. *)
Definition canonical_int (content : list Z) : bool :=
  (0 <? Z.of_nat (length content)) && (Z.land (byte_at content 0) 0x80 =? 0) &&
  negb ((Z.of_nat (length content) >? 1) && (byte_at content 0 =? 0) && (Z.land (byte_at content 1) 0x80 =? 0)).

(** [30 len 02 len(R) R 02 len(S) S]. *)
Definition der_encode (R S : list Z) : list Z :=
  [0x30; Z.of_nat (length R) + Z.of_nat (length S) + 4; 0x02; Z.of_nat (length R)] ++ R ++
  [0x02; Z.of_nat (length S)] ++ S.

Lemma byte_at_app_l l k i : (i < length l)%nat → byte_at (l ++ k) i = byte_at l i.
Proof. intros. unfold byte_at. by rewrite lookup_app_l. Qed.
Lemma byte_at_app_r l k i : byte_at (l ++ k) (length l + i) = byte_at k i.
Proof. unfold byte_at. rewrite lookup_app_r by lia. do 2 f_equal. lia. Qed.

Lemma if_false_else (b x : bool) : (if b then false else x) = negb b && x.
Proof. by destruct b. Qed.

(** The bytes that [IsValidSignatureEncoding] looks at, in a signature cut where
    its length bytes say. *)
Lemma valid_encoding_shape b0 b1 b2 R c0 c1 S t :
  let sig := [b0; b1; b2; Z.of_nat (length R)] ++ R ++ [c0; c1] ++ S ++ [t] in
  IsValidSignatureEncoding sig = true ↔
  b0 = 0x30 ∧ b1 = Z.of_nat (length R) + Z.of_nat (length S) + 4 ∧ b2 = 0x02 ∧ c0 = 0x02 ∧
  c1 = Z.of_nat (length S) ∧ canonical_int R = true ∧ canonical_int S = true ∧
  Z.of_nat (length sig) <= 73.
Proof.
  intros sig.
  assert (Z.of_nat (length sig) = Z.of_nat (length R) + Z.of_nat (length S) + 7) as EL
    by (unfold sig; rewrite !length_app; cbn; lia).
  assert (∀ i, (0 < length R)%nat → (i < length R)%nat → byte_at sig (4 + i) = byte_at R i) as HR.
  { intros i _ Hi. unfold sig. rewrite (byte_at_app_r [_; _; _; _]). by apply byte_at_app_l. }
  assert (∀ i, byte_at sig (4 + (length R + i)) = byte_at ([c0; c1] ++ S ++ [t]) i) as HT.
  { intros i. unfold sig. by rewrite (byte_at_app_r [_; _; _; _]), byte_at_app_r. }
  assert (∀ i, (i < length S)%nat → byte_at sig (4 + (length R + (2 + i))) = byte_at S i) as HS.
  { intros i Hi. rewrite HT, (byte_at_app_r [_; _]). by apply byte_at_app_l. }
  unfold IsValidSignatureEncoding, canonical_int. rewrite EL.
  change (byte_at sig (Z.to_nat 0)) with b0. change (byte_at sig (Z.to_nat 1)) with b1.
  change (byte_at sig (Z.to_nat 2)) with b2. change (byte_at sig (Z.to_nat 3)) with (Z.of_nat (length R)).
  replace (Z.to_nat 4) with (4 + 0)%nat by lia. replace (Z.to_nat 5) with (4 + 1)%nat by lia.
  replace (Z.to_nat (5 + Z.of_nat (length R))) with (4 + (length R + 1))%nat by lia.
  replace (Z.to_nat (Z.of_nat (length R) + 4)) with (4 + (length R + 0))%nat by lia.
  replace (Z.to_nat (Z.of_nat (length R) + 6)) with (4 + (length R + (2 + 0)))%nat by lia.
  replace (Z.to_nat (Z.of_nat (length R) + 7)) with (4 + (length R + (2 + 1)))%nat by lia.
  rewrite (HT 1%nat), (HT 0%nat). change (byte_at ([c0; c1] ++ S ++ [t]) 1) with c1.
  change (byte_at ([c0; c1] ++ S ++ [t]) 0) with c0.
  assert (length R ≠ 0%nat → byte_at sig (4 + 0) = byte_at R 0) as R0 by (intros; apply HR; lia).
  assert ((1 < length R)%nat → byte_at sig (4 + 1) = byte_at R 1) as R1 by (intros; apply HR; lia).
  assert (length S ≠ 0%nat → byte_at sig (4 + (length R + (2 + 0))) = byte_at S 0) as S0 by (intros; apply HS; lia).
  assert ((1 < length S)%nat → byte_at sig (4 + (length R + (2 + 1))) = byte_at S 1) as S1 by (intros; apply HS; lia).
  clear HR HT HS. rewrite !if_false_else.
  destruct (decide (length R = 0%nat)); [lia|]. destruct (decide (length S = 0%nat)); [lia|].
  rewrite R0, S0 by done.
  destruct (decide (1 < length R)%nat) as [H1|H1], (decide (1 < length S)%nat) as [H2|H2];
    rewrite ?(R1 H1), ?(S1 H2); lia.
Qed.

Lemma byte_at_ok l i : bytes_ok l → byte_ok (byte_at l i).
Proof.
  intros Hl. unfold byte_at. destruct (l !! i) as [b|] eqn:E; [|done]. by apply (Forall_lookup_1 _ _ _ _ Hl E).
Qed.

Lemma valid_encoding_cut sig :
  bytes_ok sig → IsValidSignatureEncoding sig = true →
  ∃ b0 b1 b2 R c0 c1 S t, sig = [b0; b1; b2; Z.of_nat (length R)] ++ R ++ [c0; c1] ++ S ++ [t].
Proof.
  intros Hok Hv. pose proof (byte_at_ok sig 3 Hok) as H3.
  pose proof (byte_at_ok sig (Z.to_nat (5 + byte_at sig 3)) Hok) as H5.
  assert (9 <= Z.of_nat (length sig) ∧ 5 + byte_at sig 3 < Z.of_nat (length sig) ∧
    byte_at sig 3 + byte_at sig (Z.to_nat (5 + byte_at sig 3)) + 7 = Z.of_nat (length sig)) as (H9 & Hr & Hs).
  { unfold IsValidSignatureEncoding in Hv. rewrite !if_false_else in Hv.
    change (Z.to_nat 3) with 3%nat in Hv. lia. }
  do 4 (destruct sig as [|? sig]; [simpl in H9; lia|]).
  change (byte_at _ 3) with z2 in *. cbn [length] in *. unfold fits in *. rename sig into rest.
  assert (length (take (Z.to_nat z2) rest) = Z.to_nat z2) as ER by (rewrite length_take_le; lia).
  destruct (drop (Z.to_nat z2) rest) as [|c0 [|c1 ST]] eqn:ED.
  1,2: apply (f_equal length) in ED; rewrite length_drop in ED; simpl in ED; lia.
  destruct (exists_last (l := ST)) as (S & t & ->).
  { intros ->. apply (f_equal length) in ED. rewrite length_drop in ED. simpl in ED. lia. }
  exists z, z0, z1, (take (Z.to_nat z2) rest), c0, c1, S, t.
  rewrite ER, Z2Nat.id by lia. cbn [app]. do 4 f_equal.
  rewrite <- (take_drop (Z.to_nat z2) rest) at 1. by rewrite ED.
Qed.

Lemma be_value_cons b l : be_value (b :: l) = b * 256 ^ Z.of_nat (length l) + be_value l.
Proof.
  unfold be_value. rewrite reverse_cons, le_value_app, length_reverse. cbn [le_value]. lia.
Qed.

Lemma be_value_zeros k l : be_value (replicate k 0 ++ l) = be_value l.
Proof. induction k as [|k IH]; [done|]. cbn [replicate app]. rewrite be_value_cons, IH. lia. Qed.

Lemma der_skip_zeros_spec c :
  ∃ k d, der_skip_zeros (length c) c = (length d, d) ∧ c = replicate k 0 ++ d ∧ hd_error d ≠ Some 0.
Proof.
  induction c as [|b c (k & d & E & -> & Hd)]; [by exists 0%nat, []|]. cbn [length der_skip_zeros].
  destruct (Z.eqb_spec b 0) as [->|Hb].
  - exists (S k), d. by rewrite E.
  - exists 0%nat, (b :: replicate k 0 ++ d). split; [done|]. split; [done|]. cbn. congruence.
Qed.

(** The integer is read as its value, or the overflow is noticed. *)
Lemma der_value_spec c :
  bytes_ok c → der_value c = if be_value c <? 2 ^ 256 then Some (be_bytes 32 (be_value c)) else None.
Proof.
  intros Hc. unfold der_value. destruct (der_skip_zeros_spec c) as (k & d & -> & E & Hd).
  rewrite E, be_value_zeros. rewrite E in Hc. apply Forall_app in Hc as [_ Hok].
  pose proof (be_value_bound d Hok) as Hb. change (2 ^ 256) with (256 ^ 32).
  destruct (Nat.ltb_spec 32 (length d)) as [Hl|Hl].
  - destruct (Z.ltb_spec (be_value d) (256 ^ 32)) as [Hlt|_]; [exfalso|done].
    destruct d as [|b d]; [simpl in Hl; lia|]. rewrite be_value_cons in Hlt.
    apply Forall_cons_1 in Hok as [Hb0 Hok]. pose proof (be_value_bound d Hok).
    unfold fits in Hb0. assert (1 <= b) by (cbn in Hd; destruct (decide (b = 0)); [congruence|lia]).
    cbn [length] in Hl. assert (256 ^ 32 <= 256 ^ Z.of_nat (length d)) by (apply Z.pow_le_mono_r; lia). nia.
  - assert (256 ^ Z.of_nat (length d) <= 256 ^ 32) by (apply Z.pow_le_mono_r; lia).
    destruct (Z.ltb_spec (be_value d) (256 ^ 32)); [|lia]. f_equal.
    assert (bytes_ok (replicate (32 - length d) 0 ++ d)) as Hp
      by (apply Forall_app; split; [by apply Forall_replicate|done]).
    apply be_bytes_be_value in Hp. rewrite length_app, length_replicate, be_value_zeros in Hp.
    by replace (32 - length d + length d)%nat with 32%nat in Hp by lia.
Qed.

Lemma short_length n : 0 <= n < 128 → Z.land n 0x80 = 0.
Proof.
  intros Hn. apply Z.bits_inj'. intros i Hi. rewrite Z.land_spec, Z.bits_0. change 0x80 with (2 ^ 7).
  rewrite Z.pow2_bits_eqb by lia. destruct (Z.eqb_spec 7 i) as [<-|]; [|by rewrite andb_false_r].
  by rewrite (testbit_fits 7) by (unfold fits; lia).
Qed.

Lemma der_integer_short c rest :
  (length c < 128)%nat → der_integer (0x02 :: Z.of_nat (length c) :: c ++ rest) = Some (c, rest).
Proof.
  intros Hc. unfold der_integer, der_tag, der_length. rewrite Z.eqb_refl, short_length by lia. cbn [negb Z.eqb].
  rewrite length_app. destruct (Z.gtb_spec (Z.of_nat (length c)) (Z.of_nat (length c + length rest))); [lia|].
  by rewrite Nat2Z.id, take_app_length, drop_app_length.
Qed.

(** What a signature with the integers [r] and [s] is taken for: an integer of
    more than 256 bits, or one that the library refuses, gives the invalid
    signature. *)
Definition signature_of `{Secp256k1} (r s : Z) : secp256k1_ecdsa_signature :=
  let parsed := secp256k1_ecdsa_signature_parse_compact (be_bytes 32 r ++ be_bytes 32 s) in
  if (r <? 2 ^ 256) && (s <? 2 ^ 256) && parsed.1 then parsed.2
  else (secp256k1_ecdsa_signature_parse_compact (replicate 64 0)).2.

Lemma parse_der_lax_strict `{Secp256k1} R S :
  bytes_ok R → bytes_ok S → (length R + length S < 124)%nat →
  ecdsa_signature_parse_der_lax (der_encode R S) = Some (signature_of (be_value R) (be_value S)).
Proof.
  intros HR HS Hl. unfold ecdsa_signature_parse_der_lax, der_encode, der_sequence, der_tag. cbn [app].
  rewrite Z.eqb_refl, short_length by lia. cbn [negb Z.eqb]. rewrite der_integer_short by lia.
  pose proof (der_integer_short S [] ltac:(lia)) as E. rewrite app_nil_r in E. rewrite E. clear E.
  rewrite !der_value_spec by done. unfold signature_of.
  destruct (be_value R <? 2 ^ 256), (be_value S <? 2 ^ 256); cbn [andb fst snd]; f_equal; by destruct (_.1).
Qed.

(** ** Properties *)

(** C25: [IsValidSignatureEncoding] accepts exactly the strict DER signatures: the
    encodings [30 len 02 len(R) R 02 len(S) S] of two integers that are not negative, in
    their shortest form, followed by a hash type byte and no longer than 73 bytes; the
    integers include zero, as the single byte [00], which the comments of the source
    exclude; and the lax parser that verification uses reads from such a signature,
    without its hash type, exactly those two integers. *)
Theorem strict_signature_encoding `{Secp256k1} (sig : list Z) :
  bytes_ok sig →
  (IsValidSignatureEncoding sig = true ↔
     ∃ R S t, sig = der_encode R S ++ [t] ∧ canonical_int R = true ∧ canonical_int S = true ∧
              (length sig <= 73)%nat) ∧
  (∀ R S t, sig = der_encode R S ++ [t] → (length sig <= 73)%nat →
     ecdsa_signature_parse_der_lax (take (length sig - 1) sig) = Some (signature_of (be_value R) (be_value S))).
Proof.
  intros Hok. split; [split|].
  - intros Hv. destruct (valid_encoding_cut sig Hok Hv) as (b0 & b1 & b2 & R & c0 & c1 & S & t & ->).
    apply valid_encoding_shape in Hv as (-> & -> & -> & -> & -> & ? & ? & ?).
    exists R, S, t. split_and!; [|done..|lia]. unfold der_encode. by rewrite <- !app_assoc.
  - intros (R & S & t & -> & ? & ? & Hl).
    replace (der_encode R S ++ [t]) with ([0x30; Z.of_nat (length R) + Z.of_nat (length S) + 4; 0x02; Z.of_nat (length R)]
      ++ R ++ [0x02; Z.of_nat (length S)] ++ S ++ [t]) in * by (unfold der_encode; by rewrite <- !app_assoc).
    apply valid_encoding_shape. split_and!; [done..|lia].
  - intros R S t -> Hl. rewrite length_app in *. cbn [length] in *.
    replace (length (der_encode R S) + 1 - 1)%nat with (length (der_encode R S)) by lia. rewrite take_app_length.
    apply Forall_app in Hok as [Hok _]. unfold der_encode in Hok, Hl.
    rewrite !Forall_app in Hok. destruct Hok as (_ & HR & _ & HS).
    rewrite !length_app in Hl. cbn [length] in Hl. apply parse_der_lax_strict; [done..|lia].
Qed.

(** An instance with the library's bookkeeping of scalars (range, low-S form) and
    a stand-in for the curve equation: the signature's [r] is the hash. *)
Definition secp256k1_order : Z := 0xfffffffffffffffffffffffffffffffebaaedce6af48a03bbfd25e8cd0364141.
Definition sample_secp : Secp256k1 := {|
  secp256k1_pubkey := list Z;
  secp256k1_ecdsa_signature := Z * Z;
  secp256k1_ec_pubkey_parse := λ vch, if CPubKey_ValidSize vch then Some vch else None;
  secp256k1_ecdsa_signature_parse_compact := λ b,
    let r := be_value (take 32 b) in let s := be_value (drop 32 b) in
    if (r <? secp256k1_order) && (s <? secp256k1_order) then (true, (r, s)) else (false, (0, 0));
  secp256k1_ecdsa_signature_normalize := λ '(r, s),
    if s >? secp256k1_order / 2 then (true, (r, secp256k1_order - s)) else (false, (r, s));
  secp256k1_ecdsa_verify := λ '(r, s) hash _, negb (s =? 0) && (r =? be_value hash mod secp256k1_order);
|}.

(** Zero for both integers, against the comments that ask for positive ones. *)
Example zero_is_accepted : IsValidSignatureEncoding (der_encode [0] [0] ++ [SIGHASH_ALL]) = true.
Proof. vm_compute. reflexivity. Qed.

Lemma strict_signature_encoding_witness :
  let sig := der_encode [1] [2] ++ [SIGHASH_ALL] in
  IsValidSignatureEncoding sig = true ∧
  @ecdsa_signature_parse_der_lax sample_secp (take (length sig - 1) sig) = Some (1, 2).
Proof.
  intros sig. destruct (@strict_signature_encoding sample_secp sig) as [Hiff Hparse].
  - repeat (apply Forall_cons_2; [done|]). done.
  - split; [apply Hiff; exists [1], [2], SIGHASH_ALL; split_and!; [done..|cbn; lia]|].
    exact (Hparse [1] [2] SIGHASH_ALL eq_refl ltac:(cbn; lia)).
Defined.
