(* ===== verification/Key.v ===== *)
(** * Private and extended keys: [key.h], [key.cpp], the rest of [pubkey.h] and [pubkey.cpp]

    [CKey] keeps 32 bytes with two flags; it makes public keys and signatures and
    derives child keys (BIP 32).  [CPubKey] derives the public children without
    the private key and recovers keys from compact signatures; [CExtKey] and
    [CExtPubKey] add depth, fingerprint, child number and chain code.  The elliptic
    curve library is the class [Secp256k1Keys], which extends [Secp256k1] with the
    calls made here, and [Secp256k1KeysLaws] states what its header documents about
    them.  Proved: deriving public children agrees with deriving private ones along
    any path, signatures verify and are strictly encoded, keys survive every form
    they are stored in, and what a failed [Load] leaves behind. *)

From Stdlib Require Import ZifyBool.
From stdpp Require Import base list numbers decidable option strings.
From S2P Require Import Prelude ArithUint256 Uint256 Serialize MdHash Sha256 Sha512 Hash160 Script PubKey.

Open Scope Z_scope.

(** ** [libsecp256k1] *)

(** The calls that key.cpp and pubkey.cpp make besides those of [Secp256k1];
    [None] is a return value of 0, a pair the return value with what is written in
    place. *)
Class Secp256k1Keys `{Secp256k1} := {
  secp256k1_ecdsa_recoverable_signature : Type;
  secp256k1_ec_seckey_verify : list Z → bool;
  secp256k1_ec_pubkey_create : list Z → option secp256k1_pubkey;
  secp256k1_ec_pubkey_serialize : secp256k1_pubkey → bool → list Z;
  secp256k1_ec_privkey_negate : list Z → bool * list Z;
  secp256k1_ec_privkey_tweak_add : list Z → list Z → bool * list Z;
  secp256k1_ec_pubkey_tweak_add : secp256k1_pubkey → list Z → option secp256k1_pubkey;
  secp256k1_ecdsa_sign : list Z → list Z → option (list Z) → option secp256k1_ecdsa_signature;
  secp256k1_ecdsa_signature_serialize_compact : secp256k1_ecdsa_signature → list Z;
  secp256k1_ecdsa_signature_serialize_der : secp256k1_ecdsa_signature → list Z;
  secp256k1_ecdsa_sign_recoverable : list Z → list Z → option secp256k1_ecdsa_recoverable_signature;
  secp256k1_ecdsa_recoverable_signature_serialize_compact :
    secp256k1_ecdsa_recoverable_signature → bool * list Z * Z;
  secp256k1_ecdsa_recoverable_signature_parse_compact :
    list Z → Z → option secp256k1_ecdsa_recoverable_signature;
  secp256k1_ecdsa_recover : secp256k1_ecdsa_recoverable_signature → list Z → option secp256k1_pubkey;
}.

(** The leading zeros of a non-negative integer that DER leaves out. *)
Fixpoint der_trim (l : list Z) : list Z :=
  match l with
  | 0 :: ((b :: _) as rest) => if b <? 0x80 then der_trim rest else l
  | _ => l
  end.

(** What the headers of the library document, for keys and signatures that it made
    from a valid secret: the serialized forms of a public key and of a signature
    and that they are read back, which secrets are valid, that adding a tweak to a
    secret and to its public key agree, that signing succeeds with a valid secret,
    is in lower-S form and verifies, and that a recoverable signature gives the
    key back. *)
Class Secp256k1KeysLaws `{Secp256k1Keys} := {
  create_valid k : is_Some (secp256k1_ec_pubkey_create k) ↔ secp256k1_ec_seckey_verify k = true;
  serialize_compressed k p : secp256k1_ec_pubkey_create k = Some p →
    ∃ b x, secp256k1_ec_pubkey_serialize p true = b :: x ∧ (b = 2 ∨ b = 3) ∧ length x = 32%nat;
  serialize_uncompressed k p : secp256k1_ec_pubkey_create k = Some p →
    ∃ x, secp256k1_ec_pubkey_serialize p false = 4 :: x ∧ length x = 64%nat;
  parse_serialize k p c : secp256k1_ec_pubkey_create k = Some p →
    secp256k1_ec_pubkey_parse (secp256k1_ec_pubkey_serialize p c) = Some p;
  negate_valid k : secp256k1_ec_seckey_verify k = true → length k = 32%nat →
    ∃ k', secp256k1_ec_privkey_negate k = (true, k') ∧ secp256k1_ec_seckey_verify k' = true ∧ length k' = 32%nat;
  tweak_add_agrees k p t : secp256k1_ec_pubkey_create k = Some p → length k = 32%nat →
    match secp256k1_ec_privkey_tweak_add k t with
    | (true, k') => ∃ p', secp256k1_ec_pubkey_create k' = Some p' ∧ length k' = 32%nat ∧
                          secp256k1_ec_pubkey_tweak_add p t = Some p'
    | (false, k') => secp256k1_ec_pubkey_tweak_add p t = None ∧ length k' = 32%nat
    end;
  sign_succeeds m k nd : secp256k1_ec_seckey_verify k = true → is_Some (secp256k1_ecdsa_sign m k nd);
  sign_verifies m k nd s p : secp256k1_ecdsa_sign m k nd = Some s → secp256k1_ec_pubkey_create k = Some p →
    secp256k1_ecdsa_signature_normalize s = (false, s) ∧ secp256k1_ecdsa_verify s m p = true;
  sign_compact m k nd s : secp256k1_ecdsa_sign m k nd = Some s →
    let c := secp256k1_ecdsa_signature_serialize_compact s in
    length c = 64%nat ∧ bytes_ok c ∧ secp256k1_ecdsa_signature_parse_compact c = (true, s) ∧
    be_value (drop 32 c) <= 0x7FFFFFFFFFFFFFFFFFFFFFFFFFFFFFFF5D576E7357A4501DDFE92F46681B20A0 ∧
    secp256k1_ecdsa_signature_serialize_der s =
      der_encode (der_trim (0 :: take 32 c)) (der_trim (0 :: drop 32 c));
  recoverable_succeeds m k : secp256k1_ec_seckey_verify k = true → is_Some (secp256k1_ecdsa_sign_recoverable m k);
  recoverable_compact m k s : secp256k1_ecdsa_sign_recoverable m k = Some s →
    ∃ c rec, secp256k1_ecdsa_recoverable_signature_serialize_compact s = (true, c, rec) ∧ length c = 64%nat ∧
             0 <= rec <= 3 ∧ secp256k1_ecdsa_recoverable_signature_parse_compact c rec = Some s;
  recover_signer m k s p : secp256k1_ecdsa_sign_recoverable m k = Some s → secp256k1_ec_pubkey_create k = Some p →
    secp256k1_ecdsa_recover s m = Some p;
}.

(** ** Outcomes *)

(** [Aborts]: a failed assertion; [Loops]: the loop is still running when the fuel
    or the random numbers given are used up. *)
Inductive run (A : Type) := Returns (a : A) | Aborts | Loops.
Arguments Returns {A} a.
Arguments Aborts {A}.
Arguments Loops {A}.
Definition run_bind {A B} (x : run A) (f : A → run B) : run B :=
  match x with Returns a => f a | Aborts => Aborts | Loops => Loops end.
Definition or_abort {A} (x : option A) : run A := match x with Some a => Returns a | None => Aborts end.
Definition asserts (b : bool) : run unit := if b then Returns tt else Aborts.

Declare Scope run_scope.
Delimit Scope run_scope with run.
Notation "'let%' x := e 'in' k" := (run_bind e (λ x, k))
  (at level 10, x name, e at level 100, k at level 200) : run_scope.
Notation "'let%' ' p := e 'in' k" := (run_bind e (λ p, k))
  (at level 10, p strict pattern, e at level 100, k at level 200) : run_scope.
Notation "'assert%' b ';;%' c" := (run_bind (asserts b) (λ _, c)) (at level 10, b at level 100, c at level 200) : run_scope.
Open Scope run_scope.

(** [std::vector::resize]. *)
Definition resize (n : nat) (l : list Z) : list Z := take n l ++ replicate (n - length l) 0.

(** ** [CKey] *)

Definition PRIVATE_KEY_SIZE : Z := 279.
Definition COMPRESSED_PRIVATE_KEY_SIZE : Z := 214.
Definition SIGNATURE_SIZE : nat := 72.
Definition COMPACT_SIGNATURE_SIZE : nat := 65.
Definition BIP32_EXTKEY_SIZE : Z := 74.

Record CKey := mk_CKey { fValid : bool; fCompressed : bool; keydata : list Z }.
Definition CKey_new : CKey := mk_CKey false false (replicate 32 0).
Definition CKey_invalid (k : CKey) : CKey := mk_CKey false (fCompressed k) (keydata k).
Definition CKey_size (k : CKey) : nat := if fValid k then length (keydata k) else 0%nat.

Definition CKey_eq (a b : CKey) : bool :=
  Bool.eqb (fCompressed a) (fCompressed b) && (CKey_size a =? CKey_size b)%nat &&
  bool_decide (take (CKey_size a) (keydata a) = take (CKey_size a) (keydata b)).

(** The constants of [ec_privkey_export_der]: the field prime, the coordinates of
    the generator and the group order stand inside [middle]. *)
Definition field_prime : Z := 0xfffffffffffffffffffffffffffffffffffffffffffffffffffffffefffffc2f.
Definition generator_x : Z := 0x79be667ef9dcbbac55a06295ce870b07029bfcdb2dce28d959f2815b16f81798.
Definition generator_y : Z := 0x483ada7726a3c4655da4fbfc0e1108a8fd17b448a68554199c47d08ffb10d4b8.
Definition der_begin (compressed : bool) : list Z :=
  if compressed then [0x30; 0x81; 0xD3; 0x02; 0x01; 0x01; 0x04; 0x20]
  else [0x30; 0x82; 0x01; 0x13; 0x02; 0x01; 0x01; 0x04; 0x20].
Definition der_middle (compressed : bool) : list Z :=
  (if compressed then [0xA0; 0x81; 0x85; 0x30; 0x81; 0x82] else [0xA0; 0x81; 0xA5; 0x30; 0x81; 0xA2]) ++
  [0x02; 0x01; 0x01; 0x30; 0x2C; 0x06; 0x07; 0x2A; 0x86; 0x48; 0xCE; 0x3D; 0x01; 0x01; 0x02; 0x21; 0x00] ++
  be_bytes 32 field_prime ++ [0x30; 0x06; 0x04; 0x01; 0x00; 0x04; 0x01; 0x07; 0x04] ++
  (if compressed then [0x21; 0x02] ++ be_bytes 32 generator_x
   else [0x41; 0x04] ++ be_bytes 32 generator_x ++ be_bytes 32 generator_y) ++
  [0x02; 0x21; 0x00] ++ be_bytes 32 secp256k1_order ++ [0x02; 0x01; 0x01] ++
  (if compressed then [0xA1; 0x24; 0x03; 0x22; 0x00] else [0xA1; 0x44; 0x03; 0x42; 0x00]).

Section keys.
Context `{Secp256k1Keys}.
(** What uninitialised memory holds: the bytes of a new [CPubKey] and the buffer
    of a hash object. *)
Context (mem65 mem64 mem128 : list Z).

(** [ec_privkey_import_der]: the return value and [out32].  The position is the rest
    of the input. *)
Definition import_octets (privkey : list Z) : option (list Z) :=
  match privkey with
  | tag :: oslen :: rest =>
      if negb (tag =? 0x04) then None
      else if (oslen >? 32) || (Z.of_nat (length rest) <? oslen) then None
      else Some (replicate (Z.to_nat (32 - oslen)) 0 ++ take (Z.to_nat oslen) rest)
  | _ => None
  end.

Definition import_body (privkey : list Z) : option (list Z) :=
  match privkey with
  | a :: b :: c :: rest =>
      if (a =? 0x02) && (b =? 0x01) && (c =? 0x01) then import_octets rest else None
  | _ => None
  end.

Definition import_sequence (privkey : list Z) : option (list Z) :=
  match privkey with
  | tag :: constructor :: rest =>
      if negb (tag =? 0x30) then None
      else if Z.land constructor 0x80 =? 0 then None
      else
        let lenb := Z.ldiff constructor 0x80 in
        if (lenb <? 1) || (lenb >? 2) then None
        else if Z.of_nat (length rest) <? lenb then None
        else
          let n := Z.to_nat lenb in
          let len := Z.lor (byte_at rest (n - 1)) (if lenb >? 1 then Z.shiftl (byte_at rest (n - 2)) 8 else 0) in
          let rest := drop n rest in
          if Z.of_nat (length rest) <? len then None else import_body rest
  | _ => None
  end.

Definition ec_privkey_import_der (privkey : list Z) : bool * list Z :=
  match import_sequence privkey with
  | Some out32 => if secp256k1_ec_seckey_verify out32 then (true, out32) else (false, replicate 32 0)
  | None => (false, replicate 32 0)
  end.

(** [None]: the return value 0. *)
Definition ec_privkey_export_der (key32 : list Z) (compressed : bool) : run (option (list Z)) :=
  match secp256k1_ec_pubkey_create key32 with
  | None => Returns None
  | Some pubkey =>
      let privkey := der_begin compressed ++ take 32 key32 ++ der_middle compressed ++
                     secp256k1_ec_pubkey_serialize pubkey compressed in
      assert% (Z.of_nat (length privkey) =? (if compressed then COMPRESSED_PRIVATE_KEY_SIZE else PRIVATE_KEY_SIZE)) ;;%
      Returns (Some privkey)
  end.

Definition CKey_Check (vch : list Z) : bool := secp256k1_ec_seckey_verify (take 32 vch).

Definition CKey_Set (k : CKey) (data : list Z) (fCompressedIn : bool) : CKey :=
  if negb (length data =? length (keydata k))%nat then CKey_invalid k
  else if CKey_Check data then mk_CKey true fCompressedIn data
  else CKey_invalid k.

(** The random bytes are an argument: one 32-byte string per round. *)
Fixpoint MakeNewKey (draws : list (list Z)) (fCompressedIn : bool) : run CKey :=
  match draws with
  | [] => Loops
  | bytes :: draws' => if CKey_Check bytes then Returns (mk_CKey true fCompressedIn bytes) else MakeNewKey draws' fCompressedIn
  end.

Definition CKey_Negate (k : CKey) : run (bool * CKey) :=
  assert% fValid k ;;%
  let '(ret, data) := secp256k1_ec_privkey_negate (keydata k) in
  Returns (ret, mk_CKey (fValid k) (fCompressed k) data).

Definition GetPrivKey (k : CKey) : run (list Z) :=
  assert% fValid k ;;%
  let% ret := ec_privkey_export_der (keydata k) (fCompressed k) in
  or_abort ret.

Definition GetPubKey (k : CKey) : run (list Z) :=
  assert% fValid k ;;%
  let% pubkey := or_abort (secp256k1_ec_pubkey_create (keydata k)) in
  let out := secp256k1_ec_pubkey_serialize pubkey (fCompressed k) in
  let result := splice (CPubKey_Invalidate mem65) 0 out in
  assert% (CPubKey_size result =? Z.of_nat (length out)) ;;%
  assert% (CPubKey_IsValid result) ;;%
  Returns result.

Definition SigHasLowR (sig : secp256k1_ecdsa_signature) : bool :=
  byte_at (secp256k1_ecdsa_signature_serialize_compact sig) 0 <? 0x80.

(** [while (ret && !SigHasLowR(&sig) && grind)]; [sig] is [None] when [ret] is 0. *)
Fixpoint grind_loop (fuel : nat) (hash key extra_entropy : list Z) (sig : option secp256k1_ecdsa_signature) (counter : Z)
    : run (option secp256k1_ecdsa_signature) :=
  match sig with
  | None => Returns None
  | Some s =>
      if SigHasLowR s then Returns sig
      else
        match fuel with
        | O => Loops
        | S fuel' =>
            let counter := wrap32 (counter + 1) in
            let extra_entropy := WriteLE32 extra_entropy 0 counter in
            grind_loop fuel' hash key extra_entropy (secp256k1_ecdsa_sign hash key (Some extra_entropy)) counter
        end
  end.

(** The value returned and [vchSig]. *)
Definition CKey_Sign (fuel : nat) (k : CKey) (hash vchSig : list Z) (grind : bool) (test_case : Z) : run (bool * list Z) :=
  if negb (fValid k) then Returns (false, vchSig)
  else
    let vchSig := resize SIGNATURE_SIZE vchSig in
    let extra_entropy := WriteLE32 (replicate 32 0) 0 test_case in
    let sig := secp256k1_ecdsa_sign hash (keydata k)
                 (if negb grind && negb (test_case =? 0) then Some extra_entropy else None) in
    let% ret := (if grind then grind_loop fuel hash (keydata k) extra_entropy sig 0 else Returns sig) in
    let% sig := or_abort ret in
    let out := secp256k1_ecdsa_signature_serialize_der sig in
    let vchSig := if (length out <=? SIGNATURE_SIZE)%nat then splice vchSig 0 out else vchSig in
    Returns (true, resize (length out) vchSig).

Definition verification_text : list Z := chars "Bitcoin key verification" ++ [10].

Definition CKey_VerifyPubKey (fuel : nat) (k : CKey) (rnd pubkey : list Z) : run bool :=
  if negb (Bool.eqb (CPubKey_IsCompressed pubkey) (fCompressed k)) then Returns false
  else
    let hash := (SHA256_CPU_Finalize (SHA256_CPU_Write (SHA256_CPU_Write (SHA256_CPU_new mem64) verification_text) rnd)).1 in
    let% '(_, vchSig) := CKey_Sign fuel k hash [] true 0 in
    Returns (CPubKey_Verify pubkey hash vchSig).

Definition SignCompact (k : CKey) (hash vchSig : list Z) : run (bool * list Z) :=
  if negb (fValid k) then Returns (false, vchSig)
  else
    let vchSig := resize COMPACT_SIGNATURE_SIZE vchSig in
    let% sig := or_abort (secp256k1_ecdsa_sign_recoverable hash (keydata k)) in
    let '(ret, out, rec) := secp256k1_ecdsa_recoverable_signature_serialize_compact sig in
    assert% ret ;;%
    assert% negb (rec =? -1) ;;%
    let vchSig := splice vchSig 1 out in
    Returns (true, <[0%nat := wrap8 (27 + rec + (if fCompressed k then 4 else 0))]> vchSig).

(** The imported bytes are written into the key in either case. *)
Definition CKey_Load (fuel : nat) (k : CKey) (privkey vchPubKey : list Z) (fSkipCheck : bool) (rnd : list Z) : run (bool * CKey) :=
  let '(ret, out32) := ec_privkey_import_der privkey in
  if negb ret then Returns (false, mk_CKey (fValid k) (fCompressed k) (splice (keydata k) 0 out32))
  else
    let k := mk_CKey true (CPubKey_IsCompressed vchPubKey) (splice (keydata k) 0 out32) in
    if fSkipCheck then Returns (true, k)
    else let% ok := CKey_VerifyPubKey fuel k rnd vchPubKey in Returns (ok, k).

(** [keyChild] and [ccChild] as they are left, with the value returned. *)
Definition CKey_Derive (k keyChild : CKey) (nChild : Z) (cc : list Z) : run (bool * CKey * list Z) :=
  assert% fValid k ;;%
  assert% fCompressed k ;;%
  let% vout :=
    (if Z.shiftr nChild 31 =? 0 then
       let% pubkey := GetPubKey k in
       assert% (CPubKey_size pubkey =? COMPRESSED_PUBLIC_KEY_SIZE) ;;%
       Returns (BIP32Hash mem128 cc nChild (byte_at pubkey 0) (drop 1 pubkey))
     else
       assert% (CKey_size k =? 32)%nat ;;%
       Returns (BIP32Hash mem128 cc nChild 0 (keydata k))) in
  let '(ret, data) := secp256k1_ec_privkey_tweak_add (splice (keydata keyChild) 0 (take 32 (keydata k))) (take 32 vout) in
  Returns (ret, mk_CKey ret true data, take 32 (drop 32 vout)).

(** ** [CPubKey]: the rest *)

Definition CPubKey_eq (a b : list Z) : bool :=
  (byte_at a 0 =? byte_at b 0) &&
  bool_decide (take (Z.to_nat (CPubKey_size a)) a = take (Z.to_nat (CPubKey_size a)) b).

Definition CPubKey_lt (a b : list Z) : bool :=
  (byte_at a 0 <? byte_at b 0) ||
  ((byte_at a 0 =? byte_at b 0) &&
   (memcmp (take (Z.to_nat (CPubKey_size a)) a) (take (Z.to_nat (CPubKey_size a)) b) <? 0)).

Definition CPubKey_Serialize (vch : list Z) : list Z := WriteCompactSize (CPubKey_size vch) ++ CPubKey_bytes vch.

(** [while (len--) s.read(&dummy, 1);] *)
Definition skip_bytes (len : Z) : rd unit := λ s,
  Done (tt, Nat.iter (Z.to_nat len) (λ s, (nd_read 1 s).2) s).

Definition CPubKey_Unserialize (vch : list Z) : rd (list Z) :=
  (let! len := ReadCompactSize in
   if len <=? PUBLIC_KEY_SIZE then
     let! b := rd_into (take (Z.to_nat len) vch) len in rd_ret (splice vch 0 b)
   else let! _ := skip_bytes len in rd_ret (CPubKey_Invalidate vch))%rd.

(** [vch] is the key the functions are called on and what it holds afterwards. *)
Definition RecoverCompact (vch hash vchSig : list Z) : bool * list Z :=
  if negb (length vchSig =? COMPACT_SIGNATURE_SIZE)%nat then (false, vch)
  else
    let recid := Z.land (byte_at vchSig 0 - 27) 3 in
    let fComp := negb (Z.land (byte_at vchSig 0 - 27) 4 =? 0) in
    match secp256k1_ecdsa_recoverable_signature_parse_compact (drop 1 vchSig) recid with
    | None => (false, vch)
    | Some sig =>
        match secp256k1_ecdsa_recover sig hash with
        | None => (false, vch)
        | Some pubkey => (true, CPubKey_Set vch (secp256k1_ec_pubkey_serialize pubkey fComp))
        end
    end.

Definition Decompress (vch : list Z) : bool * list Z :=
  if negb (CPubKey_IsValid vch) then (false, vch)
  else
    match secp256k1_ec_pubkey_parse (CPubKey_bytes vch) with
    | None => (false, vch)
    | Some pubkey => (true, CPubKey_Set vch (secp256k1_ec_pubkey_serialize pubkey false))
    end.

(** [pubkeyChild] and [ccChild] as they are left, with the value returned. *)
Definition CPubKey_Derive (vch pubkeyChild : list Z) (nChild : Z) (cc : list Z) : run (bool * list Z * list Z) :=
  assert% CPubKey_IsValid vch ;;%
  assert% (Z.shiftr nChild 31 =? 0) ;;%
  assert% (CPubKey_size vch =? COMPRESSED_PUBLIC_KEY_SIZE) ;;%
  let out := BIP32Hash mem128 cc nChild (byte_at vch 0) (drop 1 vch) in
  let ccChild := take 32 (drop 32 out) in
  match secp256k1_ec_pubkey_parse (CPubKey_bytes vch) with
  | None => Returns (false, pubkeyChild, ccChild)
  | Some pubkey =>
      match secp256k1_ec_pubkey_tweak_add pubkey (take 32 out) with
      | None => Returns (false, pubkeyChild, ccChild)
      | Some pubkey => Returns (true, CPubKey_Set pubkeyChild (secp256k1_ec_pubkey_serialize pubkey true), ccChild)
      end
  end.

(** ** Extended keys *)

Record CExtKey := mk_CExtKey {
  xk_nDepth : Z; xk_vchFingerprint : list Z; xk_nChild : Z; xk_chaincode : list Z; xk_key : CKey }.
Record CExtPubKey := mk_CExtPubKey {
  xp_nDepth : Z; xp_vchFingerprint : list Z; xp_nChild : Z; xp_chaincode : list Z; xp_pubkey : list Z }.

Definition CExtKey_eq (a b : CExtKey) : bool :=
  (xk_nDepth a =? xk_nDepth b) && bool_decide (take 4 (xk_vchFingerprint a) = take 4 (xk_vchFingerprint b)) &&
  (xk_nChild a =? xk_nChild b) && blob_eqb (xk_chaincode a) (xk_chaincode b) && CKey_eq (xk_key a) (xk_key b).
Definition CExtPubKey_eq (a b : CExtPubKey) : bool :=
  (xp_nDepth a =? xp_nDepth b) && bool_decide (take 4 (xp_vchFingerprint a) = take 4 (xp_vchFingerprint b)) &&
  (xp_nChild a =? xp_nChild b) && blob_eqb (xp_chaincode a) (xp_chaincode b) && CPubKey_eq (xp_pubkey a) (xp_pubkey b).

Definition CExtKey_Derive (x out : CExtKey) (nChild : Z) : run (bool * CExtKey) :=
  let% pubkey := GetPubKey (xk_key x) in
  let% '(ret, key, chaincode) := CKey_Derive (xk_key x) (xk_key out) nChild (xk_chaincode x) in
  Returns (ret, mk_CExtKey (wrap8 (xk_nDepth x + 1)) (take 4 (CPubKey_GetID pubkey)) nChild chaincode key).

Definition CExtPubKey_Derive (x out : CExtPubKey) (nChild : Z) : run (bool * CExtPubKey) :=
  let% '(ret, pubkey, chaincode) := CPubKey_Derive (xp_pubkey x) (xp_pubkey out) nChild (xp_chaincode x) in
  Returns (ret, mk_CExtPubKey (wrap8 (xp_nDepth x + 1)) (take 4 (CPubKey_GetID (xp_pubkey x))) nChild chaincode pubkey).

Definition SetSeed (x : CExtKey) (seed : list Z) : CExtKey :=
  let vout := (CHMAC_SHA512_Finalize (CHMAC_SHA512_Write (CHMAC_SHA512_new mem128 (chars "Bitcoin seed")) seed)).1 in
  mk_CExtKey 0 (replicate 4 0) 0 (take 32 (drop 32 vout)) (CKey_Set (xk_key x) (take 32 vout) true).

Definition Neuter (x : CExtKey) : run CExtPubKey :=
  let% pubkey := GetPubKey (xk_key x) in
  Returns (mk_CExtPubKey (xk_nDepth x) (take 4 (xk_vchFingerprint x)) (xk_nChild x) (xk_chaincode x) pubkey).

(** The nine bytes before the chain code. *)
Definition encode_head (nDepth : Z) (vchFingerprint : list Z) (nChild : Z) : list Z :=
  nDepth :: take 4 vchFingerprint ++
  [Z.land (Z.shiftr nChild 24) 0xFF; Z.land (Z.shiftr nChild 16) 0xFF;
   Z.land (Z.shiftr nChild 8) 0xFF; Z.land (Z.shiftr nChild 0) 0xFF].
Definition decode_child (code : list Z) : Z :=
  wrap32 (Z.lor (Z.lor (Z.lor (Z.shiftl (byte_at code 5) 24) (Z.shiftl (byte_at code 6) 16))
                 (Z.shiftl (byte_at code 7) 8)) (byte_at code 8)).

Definition CExtKey_Encode (x : CExtKey) : run (list Z) :=
  assert% (CKey_size (xk_key x) =? 32)%nat ;;%
  Returns (encode_head (xk_nDepth x) (xk_vchFingerprint x) (xk_nChild x) ++ take 32 (xk_chaincode x) ++
           [0] ++ take 32 (keydata (xk_key x))).
Definition CExtKey_Decode (x : CExtKey) (code : list Z) : CExtKey :=
  mk_CExtKey (byte_at code 0) (slice code 1 4) (decode_child code) (slice code 9 32)
             (CKey_Set (xk_key x) (slice code 42 32) true).

Definition CExtPubKey_Encode (x : CExtPubKey) : run (list Z) :=
  assert% (CPubKey_size (xp_pubkey x) =? COMPRESSED_PUBLIC_KEY_SIZE) ;;%
  Returns (encode_head (xp_nDepth x) (xp_vchFingerprint x) (xp_nChild x) ++ take 32 (xp_chaincode x) ++
           take (Z.to_nat COMPRESSED_PUBLIC_KEY_SIZE) (xp_pubkey x)).
Definition CExtPubKey_Decode (x : CExtPubKey) (code : list Z) : CExtPubKey :=
  mk_CExtPubKey (byte_at code 0) (slice code 1 4) (decode_child code) (slice code 9 32)
                (CPubKey_Set (xp_pubkey x) (slice code 41 33)).

Definition CExtKey_Serialize (x : CExtKey) : run (list Z) :=
  let% code := CExtKey_Encode x in Returns (WriteCompactSize BIP32_EXTKEY_SIZE ++ code).
Definition CExtPubKey_Serialize (x : CExtPubKey) : run (list Z) :=
  let% code := CExtPubKey_Encode x in Returns (WriteCompactSize BIP32_EXTKEY_SIZE ++ code).

Definition read_code : rd (list Z) :=
  (let! len := ReadCompactSize in
   if negb (len =? BIP32_EXTKEY_SIZE) then rd_throw InvalidExtendedKeySize else rd_uninit len)%rd.
Definition CExtKey_Unserialize (x : CExtKey) : rd CExtKey :=
  (let! code := read_code in rd_ret (CExtKey_Decode x code))%rd.
Definition CExtPubKey_Unserialize (x : CExtPubKey) : rd CExtPubKey :=
  (let! code := read_code in rd_ret (CExtPubKey_Decode x code))%rd.

(** [draws] and [rnd] are the random bytes. *)
Definition ECC_InitSanityCheck (fuel : nat) (draws : list (list Z)) (rnd : list Z) : run bool :=
  let% key := MakeNewKey draws true in
  let% pubkey := GetPubKey key in
  CKey_VerifyPubKey fuel key rnd pubkey.
End keys.

(** ** The contexts of the library *)

(** Whether [secp256k1_context_sign] and [secp256k1_context_verify] are set, and
    [ECCVerifyHandle::refcount]; [ok] is whether the library calls succeed. *)
Record ecc := mk_ecc { context_sign : bool; context_verify : bool; refcount : Z }.
Definition ECC_Start (ok : bool) (e : ecc) : run ecc :=
  assert% negb (context_sign e) ;;% assert% ok ;;% Returns (mk_ecc true (context_verify e) (refcount e)).
Definition ECC_Stop (e : ecc) : ecc := mk_ecc false (context_verify e) (refcount e).
Definition ECCVerifyHandle_new (ok : bool) (e : ecc) : run ecc :=
  let% v := (if refcount e =? 0 then assert% negb (context_verify e) ;;% assert% ok ;;% Returns true
             else Returns (context_verify e)) in
  Returns (mk_ecc (context_sign e) v (refcount e + 1)).
Definition ECCVerifyHandle_delete (e : ecc) : run ecc :=
  let refcount := refcount e - 1 in
  if refcount =? 0 then assert% context_verify e ;;% Returns (mk_ecc (context_sign e) false refcount)
  else Returns (mk_ecc (context_sign e) (context_verify e) refcount).

(** ** Public keys in memory *)

(** The 65 bytes [vch] hold the serialized key [out]. *)
Definition holds (vch out : list Z) : Prop :=
  length vch = 65%nat ∧ CPubKey_ValidSize out = true ∧ take (length out) vch = out.

Lemma valid_size_cases out :
  CPubKey_ValidSize out = true → ∃ b x, out = b :: x ∧ GetLen b = Z.of_nat (length out) ∧
    (length out = 33%nat ∨ length out = 65%nat).
Proof.
  destruct out as [|b x]; [done|]. unfold CPubKey_ValidSize. intros E%Z.eqb_eq. exists b, x. split; [done|].
  split; [done|]. revert E. unfold GetLen, COMPRESSED_PUBLIC_KEY_SIZE, PUBLIC_KEY_SIZE. cbn [length]. repeat case_match; lia.
Qed.

Section holds_lemmas.
Context (vch out : list Z) (Hh : holds vch out).

Lemma holds_header : byte_at vch 0 = byte_at out 0.
Proof using Hh.
  destruct Hh as (_ & Hv & E). destruct (valid_size_cases out Hv) as (b & x & -> & _).
  destruct vch as [|c v]; [done|]. cbn [length take] in E. by simplify_eq.
Qed.

Lemma holds_size : CPubKey_size vch = Z.of_nat (length out).
Proof using Hh.
  unfold CPubKey_size. rewrite holds_header. destruct Hh as (_ & Hv & _).
  by destruct (valid_size_cases out Hv) as (b & x & -> & E & _).
Qed.

Lemma holds_bytes : CPubKey_bytes vch = out.
Proof using Hh. unfold CPubKey_bytes. rewrite holds_size, Nat2Z.id. apply Hh. Qed.

Lemma holds_valid : CPubKey_IsValid vch = true.
Proof using Hh.
  unfold CPubKey_IsValid. rewrite holds_size. destruct Hh as (_ & Hv & _).
  destruct (valid_size_cases out Hv) as (b & x & -> & _). cbn [length]. lia.
Qed.

Lemma holds_data : take 32 (drop 1 vch) = take 32 (drop 1 out).
Proof using Hh.
  destruct Hh as (Hl & Hv & E). destruct (valid_size_cases out Hv) as (b & x & -> & _ & Hc).
  rewrite <- E at 1. rewrite !take_drop_commute, take_take. do 2 f_equal. lia.
Qed.
End holds_lemmas.

Lemma holds_splice m out : length m = 65%nat → CPubKey_ValidSize out = true → holds (splice m 0 out) out.
Proof.
  intros Hm Hv. destruct (valid_size_cases out Hv) as (b & x & E & _ & Hc). split_and!; [|done|].
  - rewrite length_splice; [done|lia].
  - apply (take_app_length out).
Qed.

Lemma holds_Set m out : length m = 65%nat → CPubKey_ValidSize out = true → holds (CPubKey_Set m out) out.
Proof.
  intros Hm Hv. unfold CPubKey_Set. destruct (valid_size_cases out Hv) as (b & x & -> & E & Hc).
  cbv beta iota zeta. rewrite E, Z.eqb_refl. destruct (Z.eqb_spec (Z.of_nat (length (b :: x))) 0); [lia|].
  by apply holds_splice.
Qed.

Lemma holds_eq a b out : holds a out → holds b out → CPubKey_eq a b = true.
Proof.
  intros Ha Hb. unfold CPubKey_eq. rewrite (holds_header a out Ha), (holds_header b out Hb), Z.eqb_refl.
  apply bool_decide_eq_true. rewrite (holds_size a out Ha), Nat2Z.id. destruct Ha as (_ & _ & ->), Hb as (_ & _ & ->). done.
Qed.

Lemma length_Invalidate m : length (CPubKey_Invalidate m) = length m.
Proof. apply length_insert. Qed.

(** ** DER integers *)

Lemma high_bit b : byte_ok b → (Z.land b 0x80 =? 0) = (b <? 0x80).
Proof.
  intros Hb. assert (In b (Z.of_nat <$> seq 0 256)) as Hin.
  { apply list_elem_of_In, list_elem_of_fmap. exists (Z.to_nat b). unfold fits in Hb. split; [lia|]. apply elem_of_seq. lia. }
  revert b Hb Hin. assert (Forall (λ b, (Z.land b 0x80 =? 0) = (b <? 0x80)) (Z.of_nat <$> seq 0 256)) as HF
    by (apply (bool_decide_unpack _); vm_compute; exact I).
  intros b _ Hin. rewrite list.Forall_forall in HF. by apply HF, list_elem_of_In.
Qed.

Lemma der_trim_spec l :
  bytes_ok l → l ≠ [] → byte_at l 0 < 0x80 →
  canonical_int (der_trim l) = true ∧ be_value (der_trim l) = be_value l ∧ bytes_ok (der_trim l) ∧
  (length (der_trim l) <= length l)%nat.
Proof.
  induction l as [|a l IH]; [done|]. intros [Ha Hok]%Forall_cons_1 _ H0. change (byte_at (a :: l) 0) with a in H0.
  assert (canonical_int (a :: l) = true → der_trim (a :: l) = a :: l →
    canonical_int (der_trim (a :: l)) = true ∧ be_value (der_trim (a :: l)) = be_value (a :: l) ∧
    bytes_ok (der_trim (a :: l)) ∧ (length (der_trim (a :: l)) <= length (a :: l))%nat) as Hstop.
  { intros ? ->. split_and!; [done|done|by apply Forall_cons_2|done]. }
  unfold canonical_int in Hstop at 1. change (byte_at (a :: l) 0) with a in Hstop.
  rewrite high_bit in Hstop by done. destruct (decide (a = 0)) as [->|Hne].
  - destruct l as [|b l]; [by apply Hstop|]. change (byte_at (0 :: b :: l) 1) with b in Hstop.
    pose proof (Forall_cons_1 _ _ _ Hok) as [Hb _]. rewrite high_bit in Hstop by done.
    change (der_trim (0 :: b :: l)) with (if b <? 0x80 then der_trim (b :: l) else 0 :: b :: l) in *.
    destruct (Z.ltb_spec b 0x80); [|apply Hstop; [cbn [length]; lia|done]].
    destruct (IH Hok ltac:(done) ltac:(done)) as (? & E & ? & ?). rewrite E, (be_value_cons 0), Z.mul_0_l, Z.add_0_l.
    cbn [length] in *. split_and!; [done..|lia].
  - apply Hstop; [cbn [length]; lia|]. destruct a; [lia|done|done].
Qed.

Lemma der_trim_low b l : b < 0x80 → der_trim (0 :: b :: l) = der_trim (b :: l).
Proof. intros. cbn [der_trim]. by rewrite (proj2 (Z.ltb_lt _ _)). Qed.

Lemma der_trim_half (c : list Z) :
  bytes_ok c → length c = 32%nat →
  canonical_int (der_trim (0 :: c)) = true ∧ be_value (der_trim (0 :: c)) = be_value c ∧ bytes_ok (der_trim (0 :: c)) ∧
  (length (der_trim (0%Z :: c)) <= (if (byte_at c 0 <? 0x80)%Z then 32 else 33))%nat.
Proof.
  intros Hok Hl. destruct (der_trim_spec (0 :: c)) as (? & E & ? & Hle); [by apply Forall_cons_2|done|done|].
  split; [done|]. split; [rewrite E, be_value_cons; lia|]. split; [done|]. cbn [length] in Hle.
  destruct (Z.ltb_spec (byte_at c 0) 0x80); [|lia]. destruct c as [|b c]; [done|]. rewrite der_trim_low by done.
  destruct (der_trim_spec (b :: c)) as (_ & _ & _ & ?); [done..|]. lia.
Qed.

(** ** Buffers *)

Lemma resize_splice m out : (length out <= length m)%nat → resize (length out) (splice m 0 out) = out.
Proof.
  intros Hl. unfold resize. rewrite length_splice by lia. replace (length out - length m)%nat with 0%nat by lia.
  cbn [replicate]. rewrite app_nil_r. apply (take_app_length out).
Qed.

Lemma length_resize n l : length (resize n l) = n.
Proof. unfold resize. rewrite length_app, length_take, length_replicate. lia. Qed.

Lemma entropy_rewrite x y : WriteLE32 (le_bytes 4 x ++ replicate 28 0) 0 y = le_bytes 4 y ++ replicate 28 0.
Proof. done. Qed.

Lemma recover_header rec (c : bool) :
  0 <= rec <= 3 → let b := wrap8 (27 + rec + (if c then 4 else 0)) - 27 in
  Z.land b 3 = rec ∧ negb (Z.land b 4 =? 0) = c.
Proof.
  intros Hr. assert (rec = 0 ∨ rec = 1 ∨ rec = 2 ∨ rec = 3) as [-> | [-> | [-> | ->]]] by lia; by destruct c.
Qed.

(** ** Storage *)

Lemma import_octets_32 key tail : length key = 32%nat → import_octets (0x04 :: 0x20 :: key ++ tail) = Some key.
Proof.
  intros Hk. unfold import_octets. assert ((Z.of_nat (length (key ++ tail)) <? 0x20) = false) as -> by (rewrite length_app; lia).
  change (Z.to_nat 0x20) with 32%nat. rewrite <- Hk, take_app_length. done.
Qed.

Lemma import_exported c key tail :
  length key = 32%nat → length tail = (if c : bool then 174%nat else 238%nat) →
  import_sequence (der_begin c ++ key ++ tail) = Some key.
Proof.
  intros Hk Ht. rewrite <- (import_octets_32 key tail Hk).
  assert (Z.of_nat (length (key ++ tail)) = if c then 206 else 270) as Hl
    by (rewrite length_app, Hk, Ht; by destruct c).
  unfold import_sequence, der_begin. destruct c; cbn [app].
  - change (byte_at _ _) with 0xD3. change (Z.to_nat (Z.ldiff 0x81 0x80)) with 1%nat. cbn [drop].
    cbn [length]. rewrite !Nat2Z.inj_succ, Hl. reflexivity.
  - change (byte_at _ (_ - 1)) with 0x13. change (byte_at _ (_ - 2)) with 0x01.
    change (Z.to_nat (Z.ldiff 0x82 0x80)) with 2%nat. cbn [drop]. cbn [length]. rewrite !Nat2Z.inj_succ, Hl. reflexivity.
Qed.

Lemma lor_be4 a b c d :
  byte_ok b → byte_ok c → byte_ok d →
  Z.lor (Z.lor (Z.lor (Z.shiftl a 24) (Z.shiftl b 16)) (Z.shiftl c 8)) d = be_value [a; b; c; d].
Proof.
  intros Hb Hc Hd. rewrite Z.lor_comm.
  replace (Z.lor (Z.lor (Z.shiftl a 24) (Z.shiftl b 16)) (Z.shiftl c 8))
    with (Z.shiftl (Z.lor c (Z.shiftl (Z.lor b (Z.shiftl a 8)) 8)) 8)
    by (rewrite !Z.shiftl_lor, !Z.shiftl_shiftl by lia; by rewrite (Z.lor_comm (Z.shiftl c 8)), (Z.lor_comm (Z.shiftl b (8 + 8)))).
  rewrite !lor_add_disjoint by (done || lia). rewrite !be_value_cons. cbn [length Z.of_nat]. change (be_value []) with 0.
  change (256 ^ Z.of_nat 3) with (2 ^ 24). change (256 ^ Z.of_nat 2) with (2 ^ 16). change (256 ^ Z.of_nat 1) with (2 ^ 8).
  lia.
Qed.

Lemma encode_head_eq depth fp n : fits 32 n → encode_head depth fp n = depth :: take 4 fp ++ be_bytes 4 n.
Proof. intros Hn. unfold encode_head. by rewrite BIP32_num. Qed.

(** The parts of a 74-byte code. *)
Lemma decode_parts depth fp n cc tail :
  length fp = 4%nat → fits 32 n → length cc = 32%nat →
  let code := encode_head depth fp n ++ cc ++ tail in
  byte_at code 0 = depth ∧ slice code 1 4 = fp ∧ decode_child code = n ∧ slice code 9 32 = cc ∧
  (∀ i k, slice code (41 + Z.of_nat i) (Z.of_nat k) = take k (drop i tail)).
Proof.
  intros Hfp Hn Hcc code. unfold code. rewrite encode_head_eq by done. rewrite (take_ge fp) by lia.
  destruct fp as [|f0 [|f1 [|f2 [|f3 [|]]]]]; [discriminate Hfp..| |discriminate Hfp].
  pose proof (length_be_bytes 4 n) as Hl. pose proof (be_bytes_ok 4 n) as Hok. pose proof (be_value_be_bytes 4 n) as Ev.
  destruct (be_bytes 4 n) as [|n0 [|n1 [|n2 [|n3 [|]]]]]; [discriminate Hl..| |discriminate Hl].
  assert (∀ i, drop (9 + i) ((depth :: [f0; f1; f2; f3] ++ [n0; n1; n2; n3]) ++ cc ++ tail) = drop i (cc ++ tail)) as Ed by done.
  split_and!; [done|done| | |].
  - unfold decode_child. change (byte_at _ 5) with n0. change (byte_at _ 6) with n1. change (byte_at _ 7) with n2.
    change (byte_at _ 8) with n3. rewrite !Forall_cons in Hok. destruct Hok as (_ & ? & ? & ? & _).
    rewrite lor_be4, Ev by done. change (256 ^ Z.of_nat 4) with (2 ^ 32). unfold wrap32, wrap, fits in *.
    rewrite Zmod_mod. apply Z.mod_small. lia.
  - unfold slice. change (Z.to_nat 9) with (9 + 0)%nat. rewrite Ed. change (Z.to_nat 32) with 32%nat.
    rewrite <- Hcc. cbn [drop]. apply take_app_length.
  - intros i k. unfold slice. rewrite Nat2Z.id. replace (Z.to_nat (41 + Z.of_nat i)) with (9 + (32 + i))%nat by lia.
    rewrite Ed, <- Hcc, <- drop_drop, drop_app_length. done.
Qed.

(** ** Keys *)

Section laws.
Context `{Secp256k1KeysLaws}.
Context (mem65 mem64 mem128 : list Z) (Hmem : length mem65 = 65%nat).

(** "fValid should always correspond to the actual state". *)
Definition key_wf (k : CKey) : Prop :=
  length (keydata k) = 32%nat ∧ (fValid k = true → secp256k1_ec_seckey_verify (keydata k) = true).

Lemma serialize_valid k p c :
  secp256k1_ec_pubkey_create k = Some p → CPubKey_ValidSize (secp256k1_ec_pubkey_serialize p c) = true.
Proof using Type*.
  intros Hp. destruct c.
  - destruct (serialize_compressed k p Hp) as (b & x & -> & [-> | ->] & Hl); cbn; by rewrite Hl.
  - destruct (serialize_uncompressed k p Hp) as (x & -> & Hl). cbn. by rewrite Hl.
Qed.

Lemma length_serialize k p c :
  secp256k1_ec_pubkey_create k = Some p → length (secp256k1_ec_pubkey_serialize p c) = if c then 33%nat else 65%nat.
Proof using Type*.
  intros Hp. destruct c.
  - destruct (serialize_compressed k p Hp) as (b & x & -> & _ & Hl). cbn. by rewrite Hl.
  - destruct (serialize_uncompressed k p Hp) as (x & -> & Hl). cbn. by rewrite Hl.
Qed.

Lemma wf_public k : key_wf k → fValid k = true → ∃ p, secp256k1_ec_pubkey_create (keydata k) = Some p.
Proof using Type*. intros [_ Hv] E. apply create_valid. auto. Qed.

Lemma GetPubKey_spec k p :
  secp256k1_ec_pubkey_create (keydata k) = Some p → fValid k = true →
  ∃ vch, GetPubKey mem65 k = Returns vch ∧ holds vch (secp256k1_ec_pubkey_serialize p (fCompressed k)).
Proof using Type*.
  intros Hp Hv. pose proof (serialize_valid _ _ (fCompressed k) Hp) as Hs.
  pose proof (holds_splice (CPubKey_Invalidate mem65) _ ltac:(by rewrite length_Invalidate) Hs) as Hh.
  unfold GetPubKey. rewrite Hv, Hp. cbn [run_bind asserts or_abort]. rewrite (holds_size _ _ Hh), Z.eqb_refl.
  cbn [run_bind asserts]. rewrite (holds_valid _ _ Hh). by eexists.
Qed.

(** ** Derivation *)

(** [CKey::Derive] and [CPubKey::Derive] of the key and its public key. *)
Lemma CKey_Derive_spec k child p n cc :
  key_wf k → fValid k = true → fCompressed k = true → secp256k1_ec_pubkey_create (keydata k) = Some p →
  length (keydata child) = 32%nat →
  ∃ vout, (∀ vch, Z.shiftr n 31 = 0 → holds vch (secp256k1_ec_pubkey_serialize p true) →
             vout = BIP32Hash mem128 cc n (byte_at vch 0) (drop 1 vch)) ∧
    CKey_Derive mem65 mem128 k child n cc =
      (let '(ret, data) := secp256k1_ec_privkey_tweak_add (keydata k) (take 32 vout) in
       Returns (ret, mk_CKey ret true data, take 32 (drop 32 vout))).
Proof using Type*.
  intros [Hl _] Hv Hc Hp Hchild.
  assert (splice (keydata child) 0 (take 32 (keydata k)) = keydata k) as Es.
  { unfold splice. rewrite (take_ge (keydata k)), drop_ge by lia. by rewrite app_nil_r. }
  unfold CKey_Derive. rewrite Hv, Hc, Es. cbn [run_bind asserts].
  destruct (GetPubKey_spec k p Hp Hv) as (vch & E & Hh). rewrite Hc in Hh. rewrite E. cbn [run_bind].
  rewrite (holds_size _ _ Hh), (length_serialize _ _ true Hp), Z.eqb_refl. cbn [run_bind asserts].
  unfold CKey_size. rewrite Hv, Hl, Nat.eqb_refl. cbn [run_bind asserts].
  destruct (Z.eqb_spec (Z.shiftr n 31) 0) as [H31|H31]; cbn [run_bind].
  - eexists. split; [|done]. intros vch' _ Hh'. unfold BIP32Hash.
    by rewrite (holds_header _ _ Hh), (holds_header _ _ Hh'), (holds_data _ _ Hh), (holds_data _ _ Hh').
  - eexists. split; [|done]. done.
Qed.

(** An extended private key that can be derived from, and the public key of it. *)
Definition xkey_ok (x : CExtKey) : Prop :=
  key_wf (xk_key x) ∧ fValid (xk_key x) = true ∧ fCompressed (xk_key x) = true.
Definition public_of (x : CExtKey) (q : CExtPubKey) : Prop :=
  xp_nDepth q = xk_nDepth x ∧ take 4 (xp_vchFingerprint q) = take 4 (xk_vchFingerprint x) ∧ xp_nChild q = xk_nChild x ∧
  xp_chaincode q = xk_chaincode x ∧
  ∃ p, secp256k1_ec_pubkey_create (keydata (xk_key x)) = Some p ∧ holds (xp_pubkey q) (secp256k1_ec_pubkey_serialize p true).

Lemma Neuter_spec x : xkey_ok x → ∃ q, Neuter mem65 x = Returns q ∧ public_of x q.
Proof using Type*.
  intros (Hwf & Hv & Hc). destruct (wf_public _ Hwf Hv) as (p & Hp). unfold Neuter.
  destruct (GetPubKey_spec _ _ Hp Hv) as (vch & -> & Hh). rewrite Hc in Hh. cbn [run_bind]. eexists. split; [done|].
  split_and!; cbn; [done|by rewrite take_take|done..|]. eauto.
Qed.

Lemma public_of_eq x q q' : public_of x q → public_of x q' → CExtPubKey_eq q q' = true.
Proof using Type*.
  intros (E1 & E2 & E3 & E4 & p & Hp & Hh) (F1 & F2 & F3 & F4 & p' & Hp' & Hh'). simplify_eq.
  unfold CExtPubKey_eq. rewrite E1, E2, E3, E4, F1, F2, F3, F4, !Z.eqb_refl, bool_decide_true by done.
  rewrite (holds_eq _ _ _ Hh Hh'). unfold blob_eqb, blob_Compare. by rewrite memcmp_refl.
Qed.

Lemma derive_agrees x q out outq n :
  xkey_ok x → public_of x q → length (keydata (xk_key out)) = 32%nat → length (xp_pubkey outq) = 65%nat →
  0 <= n < 2 ^ 31 →
  ∃ ret y z, CExtKey_Derive mem65 mem128 x out n = Returns (ret, y) ∧ CExtPubKey_Derive mem128 q outq n = Returns (ret, z) ∧
    (ret = true → xkey_ok y ∧ public_of y z).
Proof using Type*.
  intros (Hwf & Hv & Hc) (E1 & E2 & E3 & E4 & p & Hp & Hh) Hout Houtq Hn.
  assert (Z.shiftr n 31 = 0) as H31 by (rewrite Z.shiftr_div_pow2 by lia; apply Z.div_small; lia).
  destruct (CKey_Derive_spec _ (xk_key out) p n (xk_chaincode x) Hwf Hv Hc Hp Hout) as (vout & Evout & E).
  destruct (GetPubKey_spec _ _ Hp Hv) as (vch & Evch & Hvch). rewrite Hc in Hvch.
  unfold CExtKey_Derive, CExtPubKey_Derive. rewrite Evch. cbn [run_bind]. rewrite E.
  unfold CPubKey_Derive. rewrite (holds_valid _ _ Hh), H31, (holds_size _ _ Hh), (length_serialize _ _ true Hp).
  cbn [run_bind asserts Z.eqb]. change (Z.of_nat 33 =? COMPRESSED_PUBLIC_KEY_SIZE) with true. cbn [run_bind asserts].
  rewrite (holds_bytes _ _ Hh), (parse_serialize _ _ true Hp), E4, <- (Evout _ H31 Hh).
  pose proof (tweak_add_agrees (keydata (xk_key x)) p (take 32 vout) Hp (proj1 Hwf)) as Ht.
  destruct (secp256k1_ec_privkey_tweak_add _ _) as [[] data].
  - destruct Ht as (p' & Hp' & Hl & ->). cbn [run_bind]. do 3 eexists. split; [done|]. split; [done|]. intros _. split.
    + split_and!; cbn; [|done..]. split; [done|]. intros _. apply create_valid. eauto.
    + split_and!; cbn; [by rewrite E1| |done..|].
      * unfold CPubKey_GetID. by rewrite (holds_bytes _ _ Hvch), (holds_bytes _ _ Hh).
      * exists p'. split; [done|]. apply holds_Set; [done|]. by apply (serialize_valid data).
  - destruct Ht as [-> _]. cbn [run_bind]. do 3 eexists. split; [done|]. split; [done|]. done.
Qed.

Lemma derive_hardened x q out outq n :
  xkey_ok x → public_of x q → length (keydata (xk_key out)) = 32%nat → 2 ^ 31 <= n < 2 ^ 32 →
  (∃ r, CExtKey_Derive mem65 mem128 x out n = Returns r) ∧ CExtPubKey_Derive mem128 q outq n = Aborts.
Proof using Type*.
  intros (Hwf & Hv & Hc) (_ & _ & _ & _ & p & Hp & Hh) Hout Hn.
  assert (Z.shiftr n 31 = 1) as H31.
  { rewrite Z.shiftr_div_pow2 by lia. symmetry. apply (Z.div_unique _ _ _ (n - 2 ^ 31)); lia. }
  destruct (CKey_Derive_spec _ (xk_key out) p n (xk_chaincode x) Hwf Hv Hc Hp Hout) as (vout & _ & E).
  destruct (GetPubKey_spec _ _ Hp Hv) as (vch & Evch & _). unfold CExtKey_Derive, CExtPubKey_Derive. rewrite Evch. cbn [run_bind].
  rewrite E. unfold CPubKey_Derive. rewrite (holds_valid _ _ Hh), H31. cbn [run_bind asserts Z.eqb]. split; [|done].
  destruct (secp256k1_ec_privkey_tweak_add _ _). by eexists.
Qed.

(** Deriving along a path of child numbers into the objects [out] and [outq];
    [None]: a derivation returned false. *)
Fixpoint derive_path (out x : CExtKey) (path : list Z) : run (option CExtKey) :=
  match path with
  | [] => Returns (Some x)
  | n :: path' =>
      let% '(ret, y) := CExtKey_Derive mem65 mem128 x out n in
      if ret then derive_path out y path' else Returns None
  end.
Fixpoint derive_public_path (outq q : CExtPubKey) (path : list Z) : run (option CExtPubKey) :=
  match path with
  | [] => Returns (Some q)
  | n :: path' =>
      let% '(ret, z) := CExtPubKey_Derive mem128 q outq n in
      if ret then derive_public_path outq z path' else Returns None
  end.

Lemma derive_paths_agree path : ∀ x q out outq,
  xkey_ok x → public_of x q → length (keydata (xk_key out)) = 32%nat → length (xp_pubkey outq) = 65%nat →
  Forall (λ n, 0 <= n < 2 ^ 31) path →
  (derive_path out x path = Returns None ∧ derive_public_path outq q path = Returns None) ∨
  ∃ y z, derive_path out x path = Returns (Some y) ∧ derive_public_path outq q path = Returns (Some z) ∧
         xkey_ok y ∧ public_of y z.
Proof using Type*.
  induction path as [|n path IH]; intros x q out outq Hx Hq Hout Houtq Hp; [right; eauto 10|].
  apply Forall_cons_1 in Hp as [Hn Hp]. cbn [derive_path derive_public_path].
  destruct (derive_agrees x q out outq n) as (ret & y & z & -> & -> & Hyz); [done..|]. cbn [run_bind].
  destruct ret; [|by left]. destruct Hyz as [Hy Hz]; [done|]. by apply IH.
Qed.

(** ** Signatures *)

(** The DER form of a signature made with a valid key: strict, short, and read
    back by the lax parser. *)
Lemma signed_der m k nd s :
  secp256k1_ecdsa_sign m k nd = Some s →
  let out := secp256k1_ecdsa_signature_serialize_der s in
  ecdsa_signature_parse_der_lax out = Some s ∧ (∀ t, IsValidSignatureEncoding (out ++ [t]) = true) ∧
  (length out <= (if SigHasLowR s then 70 else 71))%nat.
Proof using Type*. clear Hmem.
  intros Hs out. destruct (sign_compact m k nd s Hs) as (Hl & Hok & Hparse & Hlow & Eder). unfold out. rewrite Eder.
  unfold SigHasLowR. set (c := secp256k1_ecdsa_signature_serialize_compact s) in *.
  pose proof (take_drop 32 c) as Ec. set (r := take 32 c) in *. set (t := drop 32 c) in *.
  assert (length r = 32%nat) as Hr by (unfold r; rewrite length_take; lia).
  assert (length t = 32%nat) as Ht by (unfold t; rewrite length_drop; lia).
  assert (bytes_ok r ∧ bytes_ok t) as [Hokr Hokt] by (apply Forall_app; by rewrite Ec).
  assert (byte_at c 0 = byte_at r 0) as -> by (rewrite <- Ec; apply byte_at_app_l; lia).
  assert (byte_at t 0 < 0x80) as Hlt.
  { destruct t as [|b t']; [done|]. change (byte_at (b :: t') 0) with b. rewrite be_value_cons in Hlow.
    apply Forall_cons_1 in Hokt as [_ Hokt]. pose proof (be_value_bound t' Hokt). cbn [length] in Ht.
    replace (Z.of_nat (length t')) with 31 in * by lia. lia. }
  destruct (der_trim_half r Hokr Hr) as (Cr & Vr & Br & Lr). destruct (der_trim_half t Hokt Ht) as (Ct & Vt & Bt & Lt).
  rewrite (proj2 (Z.ltb_lt _ _) Hlt) in Lt. set (R := der_trim (0 :: r)) in *. set (T := der_trim (0 :: t)) in *.
  assert (length R <= 33)%nat by (destruct (byte_at r 0 <? 128); lia).
  split_and!.
  - rewrite parse_der_lax_strict by (done || lia). rewrite Vr, Vt. f_equal. unfold signature_of.
    pose proof (be_bytes_be_value r Hokr) as E1. pose proof (be_bytes_be_value t Hokt) as E2. rewrite Hr in E1. rewrite Ht in E2.
    rewrite E1, E2, Ec, Hparse.
    pose proof (be_value_bound r Hokr) as B1. pose proof (be_value_bound t Hokt) as B2. rewrite Hr in B1. rewrite Ht in B2.
    change (2 ^ 256) with (256 ^ Z.of_nat 32). rewrite !(proj2 (Z.ltb_lt _ _)) by lia. done.
  - intros h. replace (der_encode R T ++ [h]) with ([0x30; Z.of_nat (length R) + Z.of_nat (length T) + 4; 0x02; Z.of_nat (length R)]
      ++ R ++ [0x02; Z.of_nat (length T)] ++ T ++ [h]) by (unfold der_encode; by rewrite <- !app_assoc).
    apply valid_encoding_shape. split_and!; [done..|]. rewrite !length_app. cbn [length]. lia.
  - unfold der_encode. rewrite !length_app. cbn [length]. destruct (byte_at r 0 <? 128); lia.
Qed.

(** The signatures that the loop of [Sign] tries, in order. *)
Definition candidate (hash key : list Z) (n : nat) : option secp256k1_ecdsa_signature :=
  secp256k1_ecdsa_sign hash key (match n with O => None | _ => Some (le_bytes 4 (Z.of_nat n) ++ replicate 28 0) end).

Lemma grind_loop_spec hash key : secp256k1_ec_seckey_verify key = true → ∀ fuel i x,
  Z.of_nat (i + fuel) < 2 ^ 32 →
  let result := grind_loop fuel hash key (le_bytes 4 x ++ replicate 28 0) (candidate hash key i) (Z.of_nat i) in
  (result = Loops ∧ ∀ j s, (i <= j <= i + fuel)%nat → candidate hash key j = Some s → SigHasLowR s = false) ∨
  ∃ j s, result = Returns (Some s) ∧ candidate hash key j = Some s ∧ SigHasLowR s = true.
Proof using Type*. clear Hmem.
  intros Hv. induction fuel as [|fuel IH]; intros i x Hlt; cbn [grind_loop];
    destruct (sign_succeeds hash key (match i with O => None | _ => Some (le_bytes 4 (Z.of_nat i) ++ replicate 28 0) end) Hv)
      as [s Es]; fold (candidate hash key i) in Es; rewrite Es; cbv beta iota zeta; destruct (SigHasLowR s) eqn:Er.
  1, 3: right; eauto.
  - left. split; [done|]. intros j s' Hj Ej. replace j with i in Ej by lia. congruence.
  - rewrite entropy_rewrite, (wrap_id 32) by (split; lia). replace (Z.of_nat i + 1) with (Z.of_nat (S i)) by lia.
    destruct (IH (S i) (Z.of_nat (S i)) ltac:(lia)) as [[E Hno]|Hr]; [|by right].
    left. split; [exact E|]. intros j s' Hj Ej. destruct (decide (j = i)) as [->|]; [congruence|]. apply (Hno j); [lia|done].
Qed.

(** [Sign] with a valid key: it only fails to return while it grinds, and what it
    returns is a signature made with the key. *)
Lemma CKey_Sign_spec fuel k hash vchSig grind test_case :
  key_wf k → fValid k = true → Z.of_nat fuel < 2 ^ 32 →
  (grind = true ∧ CKey_Sign fuel k hash vchSig grind test_case = Loops ∧
     ∀ j s, (j <= fuel)%nat → candidate hash (keydata k) j = Some s → SigHasLowR s = false) ∨
  ∃ nd s, secp256k1_ecdsa_sign hash (keydata k) nd = Some s ∧ (grind = true → SigHasLowR s = true) ∧
    CKey_Sign fuel k hash vchSig grind test_case = Returns (true, secp256k1_ecdsa_signature_serialize_der s).
Proof using Type*. clear Hmem.
  intros [_ Hwf] Hv Hf. specialize (Hwf Hv). unfold CKey_Sign. rewrite Hv. cbn [negb].
  assert (∀ nd s, secp256k1_ecdsa_sign hash (keydata k) nd = Some s →
    let out := secp256k1_ecdsa_signature_serialize_der s in
    resize (length out) (if (length out <=? SIGNATURE_SIZE)%nat then splice (resize SIGNATURE_SIZE vchSig) 0 out
                         else resize SIGNATURE_SIZE vchSig) = out) as Hout.
  { intros nd s Hs out. destruct (signed_der _ _ _ _ Hs) as (_ & _ & Hl). fold out in Hl.
    assert (length out <= SIGNATURE_SIZE)%nat by (unfold SIGNATURE_SIZE; destruct (SigHasLowR s); lia).
    rewrite (proj2 (Nat.leb_le _ _)) by done. apply resize_splice. by rewrite length_resize. }
  destruct grind; cbn [negb andb].
  - change (WriteLE32 (replicate 32 0) 0 test_case) with (le_bytes 4 test_case ++ replicate 28 0).
    change (secp256k1_ecdsa_sign hash (keydata k) None) with (candidate hash (keydata k) 0).
    destruct (grind_loop_spec hash (keydata k) Hwf fuel 0 test_case Hf) as [[E Hno]|(j & s & E & Ej & Hr)];
      change (Z.of_nat 0) with 0 in E; rewrite E; cbn [run_bind or_abort].
    + left. split; [done|]. split; [done|]. intros j s Hj. apply Hno. lia.
    + right. eexists _, s. split; [exact Ej|]. split; [done|]. by rewrite (Hout _ _ Ej).
  - right. destruct (sign_succeeds hash (keydata k) (if negb (test_case =? 0) then
      Some (WriteLE32 (replicate 32 0) 0 test_case) else None) Hwf) as [s Es].
    rewrite Es. cbn [run_bind or_abort]. eexists _, s. split; [exact Es|]. split; [done|]. by rewrite (Hout _ _ Es).
Qed.

Lemma Verify_signed k p vch hash nd s c :
  secp256k1_ec_pubkey_create k = Some p → holds vch (secp256k1_ec_pubkey_serialize p c) →
  secp256k1_ecdsa_sign hash k nd = Some s →
  CPubKey_Verify vch hash (secp256k1_ecdsa_signature_serialize_der s) = true ∧
  CheckLowS (secp256k1_ecdsa_signature_serialize_der s) = true.
Proof using Type*.
  intros Hp Hh Hs. destruct (signed_der _ _ _ _ Hs) as (Hparse & _ & _). unfold CPubKey_Verify, CheckLowS.
  destruct (sign_verifies _ _ _ _ _ Hs Hp) as [En Hv].
  by rewrite (holds_valid _ _ Hh), (holds_bytes _ _ Hh), (parse_serialize _ _ c Hp), Hparse, En.
Qed.

Lemma holds_compressed vch k p c :
  secp256k1_ec_pubkey_create k = Some p → holds vch (secp256k1_ec_pubkey_serialize p c) → CPubKey_IsCompressed vch = c.
Proof using Type*.
  intros Hp Hh. unfold CPubKey_IsCompressed. rewrite (holds_size _ _ Hh), (length_serialize _ _ c Hp). by destruct c.
Qed.

Lemma VerifyPubKey_spec fuel k p vch rnd :
  key_wf k → fValid k = true → secp256k1_ec_pubkey_create (keydata k) = Some p →
  holds vch (secp256k1_ec_pubkey_serialize p (fCompressed k)) → Z.of_nat fuel < 2 ^ 32 →
  CKey_VerifyPubKey mem64 fuel k rnd vch = Returns true ∨ CKey_VerifyPubKey mem64 fuel k rnd vch = Loops.
Proof using Type*.
  intros Hwf Hv Hp Hh Hf. unfold CKey_VerifyPubKey. rewrite (holds_compressed _ _ _ _ Hp Hh), eqb_reflx. cbn [negb].
  destruct (CKey_Sign_spec fuel k (SHA256_CPU_Finalize (SHA256_CPU_Write (SHA256_CPU_Write (SHA256_CPU_new mem64)
    verification_text) rnd)).1 [] true 0 Hwf Hv Hf) as [(_ & -> & _)|(nd & s & Es & _ & ->)]; cbn [run_bind]; [by right|].
  left. by rewrite (proj1 (Verify_signed _ _ _ _ _ _ _ Hp Hh Es)).
Qed.

Lemma SignCompact_spec k p hash vchSig vch0 :
  key_wf k → fValid k = true → secp256k1_ec_pubkey_create (keydata k) = Some p → length vch0 = 65%nat →
  ∃ sig vch, SignCompact k hash vchSig = Returns (true, sig) ∧ length sig = 65%nat ∧
    RecoverCompact vch0 hash sig = (true, vch) ∧ holds vch (secp256k1_ec_pubkey_serialize p (fCompressed k)).
Proof using Type*. clear Hmem.
  intros [_ Hwf] Hv Hp Hv0. unfold SignCompact. rewrite Hv. cbn [negb].
  destruct (recoverable_succeeds hash (keydata k) (Hwf Hv)) as [s Es]. rewrite Es. cbn [run_bind or_abort].
  destruct (recoverable_compact _ _ _ Es) as (c & rec & -> & Hl & Hrec & Hparse). cbn [run_bind asserts].
  destruct (Z.eqb_spec rec (-1)); [lia|]. cbn [run_bind asserts negb].
  set (h := wrap8 (27 + rec + (if fCompressed k then 4 else 0))).
  set (sig := <[0%nat := h]> (splice (resize COMPACT_SIGNATURE_SIZE vchSig) 1 c)).
  pose proof (length_resize COMPACT_SIGNATURE_SIZE vchSig) as Hlr.
  assert (length sig = 65%nat) as Hsig.
  { unfold sig. rewrite length_insert, length_splice; rewrite Hlr; unfold COMPACT_SIGNATURE_SIZE; lia. }
  assert (sig = h :: c) as Esig.
  { unfold sig. destruct (resize COMPACT_SIGNATURE_SIZE vchSig) as [|b l] eqn:E; [done|].
    unfold splice. rewrite (drop_ge (b :: l)) by (rewrite Hlr; unfold COMPACT_SIGNATURE_SIZE; lia). by rewrite app_nil_r. }
  destruct (recover_header rec (fCompressed k) Hrec) as [E1 E2]. fold h in E1, E2.
  exists sig, (CPubKey_Set vch0 (secp256k1_ec_pubkey_serialize p (fCompressed k))). split; [done|]. split; [done|]. split.
  - unfold RecoverCompact. rewrite Hsig, Nat.eqb_refl, Esig. cbn [negb]. change (byte_at (h :: c) 0) with h.
    change (drop 1 (h :: c)) with c. by rewrite E1, E2, Hparse, (recover_signer _ _ _ _ Es Hp).
  - apply holds_Set; [done|]. by apply (serialize_valid (keydata k)).
Qed.

(** ** Loading *)

Lemma GetPrivKey_spec k p :
  key_wf k → fValid k = true → secp256k1_ec_pubkey_create (keydata k) = Some p →
  ∃ der, GetPrivKey k = Returns der ∧ ec_privkey_import_der der = (true, keydata k).
Proof using Type*. clear Hmem.
  intros [Hl Hwf] Hv Hp. unfold GetPrivKey, ec_privkey_export_der. rewrite Hv, Hp. cbn [run_bind asserts].
  rewrite take_ge by lia. pose proof (length_serialize _ _ (fCompressed k) Hp) as Hs.
  assert (length (der_middle (fCompressed k)) = if fCompressed k then 141%nat else 173%nat) as Hm by (by destruct (fCompressed k)).
  set (tail := der_middle (fCompressed k) ++ secp256k1_ec_pubkey_serialize p (fCompressed k)).
  assert (length tail = if fCompressed k then 174%nat else 238%nat) as Ht
    by (unfold tail; rewrite length_app, Hm, Hs; by destruct (fCompressed k)).
  assert (Z.of_nat (length (der_begin (fCompressed k) ++ keydata k ++ tail)) =
    if fCompressed k then COMPRESSED_PRIVATE_KEY_SIZE else PRIVATE_KEY_SIZE) as E
    by (rewrite !length_app, Ht, Hl; by destruct (fCompressed k)).
  rewrite E, Z.eqb_refl. cbn [run_bind asserts or_abort]. eexists. split; [done|].
  unfold ec_privkey_import_der. by rewrite (import_exported _ _ _ Hl Ht), (Hwf Hv).
Qed.

Lemma CKey_Load_spec fuel k p k0 rnd vch der fSkipCheck :
  key_wf k → fValid k = true → secp256k1_ec_pubkey_create (keydata k) = Some p → length (keydata k0) = 32%nat →
  holds vch (secp256k1_ec_pubkey_serialize p (fCompressed k)) → ec_privkey_import_der der = (true, keydata k) →
  Z.of_nat fuel < 2 ^ 32 →
  CKey_Load mem64 fuel k0 der vch fSkipCheck rnd = Returns (true, k) ∨
  (fSkipCheck = false ∧ CKey_Load mem64 fuel k0 der vch fSkipCheck rnd = Loops).
Proof using Type*. clear Hmem.
  intros Hwf Hv Hp Hk0 Hh Hder Hf. pose proof (proj1 Hwf) as Hl. unfold CKey_Load. rewrite Hder. cbn [negb].
  assert (splice (keydata k0) 0 (keydata k) = keydata k) as ->.
  { unfold splice. rewrite drop_ge by lia. by rewrite app_nil_r. }
  rewrite (holds_compressed _ _ _ _ Hp Hh). replace (mk_CKey true (fCompressed k) (keydata k)) with k
    by (destruct k; cbn in *; by subst).
  destruct fSkipCheck; [by left|].
  destruct (VerifyPubKey_spec fuel k p vch rnd) as [-> | ->]; [done..|by left|by right].
Qed.

(** ** Extended keys as bytes *)

Definition xkey_fields_ok (depth : Z) (fp : list Z) (n : Z) (cc : list Z) : Prop :=
  byte_ok depth ∧ length fp = 4%nat ∧ fits 32 n ∧ length cc = 32%nat.

Lemma CExtKey_code x y :
  xkey_ok x → xkey_fields_ok (xk_nDepth x) (xk_vchFingerprint x) (xk_nChild x) (xk_chaincode x) →
  length (keydata (xk_key y)) = 32%nat →
  ∃ code, CExtKey_Encode x = Returns code ∧ Z.of_nat (length code) = BIP32_EXTKEY_SIZE ∧ CExtKey_Decode y code = x.
Proof using Type*. clear Hmem.
  intros ([Hl Hwf] & Hv & Hc) (Hd & Hfp & Hn & Hcc) Hy. unfold CExtKey_Encode, CKey_size. rewrite Hv, Hl, Nat.eqb_refl.
  cbn [run_bind asserts]. rewrite (take_ge (xk_chaincode x)), (take_ge (keydata (xk_key x))) by lia.
  destruct (decode_parts (xk_nDepth x) _ _ _ ([0] ++ keydata (xk_key x)) Hfp Hn Hcc) as (E1 & E2 & E3 & E4 & E5).
  eexists. split; [done|]. split.
  - rewrite encode_head_eq by done. rewrite (take_ge (xk_vchFingerprint x)) by lia.
    rewrite !length_app. cbn [length]. by rewrite !length_app, Hfp, length_be_bytes, Hcc, Hl.
  - unfold CExtKey_Decode. rewrite E1, E2, E3, E4. specialize (E5 1%nat 32%nat). change (41 + Z.of_nat 1) with 42 in E5.
    change (Z.of_nat 32) with 32 in E5. rewrite E5.
    change (drop 1 ([0] ++ keydata (xk_key x))) with (keydata (xk_key x)). rewrite (take_ge (keydata (xk_key x))) by lia.
    unfold CKey_Set, CKey_Check. rewrite Hl, Hy, Nat.eqb_refl, (take_ge (keydata (xk_key x))), (Hwf Hv) by lia. cbn [negb]. destruct x as [? ? ? ? []]. cbn in *. by subst.
Qed.

Lemma CExtPubKey_code x q y :
  xkey_ok x → public_of x q → xkey_fields_ok (xp_nDepth q) (xp_vchFingerprint q) (xp_nChild q) (xp_chaincode q) →
  length (xp_pubkey y) = 65%nat →
  ∃ code, CExtPubKey_Encode q = Returns code ∧ Z.of_nat (length code) = BIP32_EXTKEY_SIZE ∧
          public_of x (CExtPubKey_Decode y code).
Proof using Type*. clear Hmem.
  intros Hx (F1 & F2 & F3 & F4 & p & Hp & Hh) (Hd & Hfp & Hn & Hcc) Hy. pose proof (length_serialize _ _ true Hp) as Hs.
  cbv iota in Hs. unfold CExtPubKey_Encode. rewrite (holds_size _ _ Hh), Hs. change (Z.of_nat 33 =? COMPRESSED_PUBLIC_KEY_SIZE) with true.
  cbn [run_bind asserts]. change (Z.to_nat COMPRESSED_PUBLIC_KEY_SIZE) with 33%nat. rewrite (take_ge (xp_chaincode q)) by lia.
  assert (take 33 (xp_pubkey q) = secp256k1_ec_pubkey_serialize p true) as Et by (rewrite <- Hs; apply Hh). rewrite Et.
  destruct (decode_parts (xp_nDepth q) _ _ _ (secp256k1_ec_pubkey_serialize p true) Hfp Hn Hcc) as (E1 & E2 & E3 & E4 & E5).
  eexists. split; [done|]. split.
  - rewrite encode_head_eq by done. rewrite (take_ge (xp_vchFingerprint q)) by lia.
    rewrite !length_app. cbn [length]. by rewrite !length_app, Hfp, length_be_bytes, Hcc, Hs.
  - unfold CExtPubKey_Decode, public_of. cbn [xp_nDepth xp_vchFingerprint xp_nChild xp_chaincode xp_pubkey].
    specialize (E5 0%nat 33%nat). change (41 + Z.of_nat 0) with 41 in E5. change (Z.of_nat 33) with 33 in E5.
    rewrite E1, E2, E3, E4, E5.
    change (drop 0 (secp256k1_ec_pubkey_serialize p true)) with (secp256k1_ec_pubkey_serialize p true).
    rewrite (take_ge (secp256k1_ec_pubkey_serialize p true)) by lia. split_and!; [done..|].
    exists p. split; [done|]. apply holds_Set; [done|]. by apply (serialize_valid (keydata (xk_key x))).
Qed.

Lemma reads_code {A} v (f : list Z → A) code :
  Z.of_nat (length code) = BIP32_EXTKEY_SIZE →
  reads v (rd_bind read_code (λ c, rd_ret (f c))) (WriteCompactSize BIP32_EXTKEY_SIZE ++ code) (f code).
Proof using Type.
  clear Hmem. intros Hl. apply reads_bind_ret. unfold read_code. eapply reads_bind; [by apply reads_CompactSize|].
  cbv beta. rewrite Z.eqb_refl. cbn [negb]. rewrite <- Hl. apply reads_uninit. by intros ->.
Qed.

(** ** The flag [fValid] *)

(** The operations that keep it true to the key data. *)
Lemma key_wf_ops k data draws child n cc :
  key_wf k → length (keydata child) = 32%nat → Forall (λ d, length d = 32%nat) draws →
  (∀ c, key_wf (CKey_Set k data c)) ∧
  (∀ c k', MakeNewKey draws c = Returns k' → key_wf k' ∧ fValid k' = true) ∧
  (∀ r k', CKey_Negate k = Returns (r, k') → r = true ∧ key_wf k') ∧
  (∀ r k' cc', CKey_Derive mem65 mem128 k child n cc = Returns (r, k', cc') → key_wf k' ∧ fValid k' = r).
Proof using Type*.
  intros Hwf Hchild Hdraws. pose proof Hwf as [Hl Hvalid]. split_and!.
  - intros c. unfold CKey_Set, CKey_Check. rewrite Hl.
    destruct (Nat.eqb_spec (length data) 32); cbn [negb]; [|done].
    rewrite take_ge by lia. destruct (secp256k1_ec_seckey_verify data) eqn:E; done.
  - intros c k'. induction Hdraws as [|d draws Hd _ IH]; [done|]. cbn [MakeNewKey]. unfold CKey_Check.
    rewrite take_ge by lia. destruct (secp256k1_ec_seckey_verify d) eqn:E; [|done]. intros [= <-]. done.
  - intros r k'. unfold CKey_Negate. destruct (fValid k) eqn:Ev; [|done]. cbn [run_bind asserts].
    destruct (negate_valid _ (Hvalid eq_refl) Hl) as (d & -> & Hd & Hld). intros [= <- <-]. done.
  - intros r k' cc'. destruct (fValid k) eqn:Ev; [|unfold CKey_Derive; by rewrite Ev].
    destruct (fCompressed k) eqn:Ec; [|unfold CKey_Derive; by rewrite Ev, Ec].
    destruct (wf_public k Hwf Ev) as (p & Hp).
    destruct (CKey_Derive_spec k child p n cc Hwf Ev Ec Hp Hchild) as (vout & _ & ->).
    pose proof (tweak_add_agrees _ _ (take 32 vout) Hp Hl) as Ht. destruct (secp256k1_ec_privkey_tweak_add _ _) as [[] d].
    + destruct Ht as (p' & Hp' & Hd & _). intros [= <- <- _]. split; [|done]. split; [done|]. intros _. apply create_valid. eauto.
    + destruct Ht as [_ Hd]. by intros [= <- <- _].
Qed.
End laws.

(** ** Properties *)

(** C26: public and private derivation agree (BIP 32): along any path of child
    numbers without the hardened bit, deriving the extended public key of a valid
    extended key gives the extended public key of the derived key, whatever the
    output objects held, and the one derivation fails exactly when the other does;
    with the hardened bit the private derivation runs and the public one stops at
    its assertion. *)
Theorem public_derivation_agrees `{Secp256k1KeysLaws} (mem65 mem128 : list Z) (x out : CExtKey) (outq : CExtPubKey)
    (path : list Z) :
  length mem65 = 65%nat → xkey_ok x → length (keydata (xk_key out)) = 32%nat → length (xp_pubkey outq) = 65%nat →
  Forall (λ n, 0 <= n < 2 ^ 31) path →
  ∃ q, Neuter mem65 x = Returns q ∧
    match derive_path mem65 mem128 out x path, derive_public_path mem128 outq q path with
    | Returns (Some y), Returns (Some z) => ∃ z', Neuter mem65 y = Returns z' ∧ CExtPubKey_eq z z' = true
    | Returns None, Returns None => True
    | _, _ => False
    end ∧
    ∀ n, 2 ^ 31 <= n < 2 ^ 32 →
      (∃ r, CExtKey_Derive mem65 mem128 x out n = Returns r) ∧ CExtPubKey_Derive mem128 q outq n = Aborts.
Proof.
  intros Hmem Hx Hout Houtq Hpath. destruct (Neuter_spec mem65 Hmem x Hx) as (q & Eq & Hq). exists q. split; [done|]. split.
  - destruct (derive_paths_agree mem65 mem128 Hmem path x q out outq) as [[-> ->]|(y & z & -> & -> & Hy & Hz)]; [done..|].
    destruct (Neuter_spec mem65 Hmem y Hy) as (z' & Ez & Hz'). exists z'. split; [done|]. by apply (public_of_eq y).
  - intros n Hn. by apply derive_hardened.
Qed.

(** C27: what a valid key signs, verifies: [Sign] never aborts; it returns a
    signature that [Verify] of the public key accepts, in lower-S form and in the
    strict encoding under every hash type, of at most 71 bytes, at most 70 with
    grinding; it grinds on only as long as no nonce tried so far has given a low R.
    From the signature of [SignCompact], [RecoverCompact] finds the public key,
    compressed or not as the key says. *)
Theorem signatures_verify `{Secp256k1KeysLaws} (mem65 : list Z) (fuel : nat) (k : CKey) (hash vchSig vch0 : list Z)
    (grind : bool) (test_case : Z) :
  length mem65 = 65%nat → key_wf k → fValid k = true → Z.of_nat fuel < 2 ^ 32 → length vch0 = 65%nat →
  ∃ pub, GetPubKey mem65 k = Returns pub ∧
    match CKey_Sign fuel k hash vchSig grind test_case with
    | Returns (ok, sig) => ok = true ∧ CPubKey_Verify pub hash sig = true ∧ CheckLowS sig = true ∧
        (∀ t, IsValidSignatureEncoding (sig ++ [t]) = true) ∧ (length sig <= if grind then 70 else 71)%nat
    | Aborts => False
    | Loops => grind = true ∧ ∀ j s, (j <= fuel)%nat → candidate hash (keydata k) j = Some s → SigHasLowR s = false
    end ∧
    ∃ sig vch, SignCompact k hash vchSig = Returns (true, sig) ∧ RecoverCompact vch0 hash sig = (true, vch) ∧
      CPubKey_eq vch pub = true.
Proof.
  intros Hmem Hwf Hv Hf Hv0. destruct (wf_public k Hwf Hv) as (p & Hp).
  destruct (GetPubKey_spec mem65 Hmem k p Hp Hv) as (pub & Epub & Hh). exists pub. split; [done|]. split.
  - destruct (CKey_Sign_spec fuel k hash vchSig grind test_case Hwf Hv Hf)
      as [(-> & -> & Hno)|(nd & s & Es & Hlow & ->)]; [done|].
    destruct (Verify_signed _ _ _ _ _ _ _ Hp Hh Es) as [? ?].
    destruct (signed_der _ _ _ _ Es) as (_ & ? & Hl). split_and!; [done..|].
    destruct grind; [by rewrite Hlow in Hl|]. destruct (SigHasLowR s); lia.
  - destruct (SignCompact_spec k p hash vchSig vch0 Hwf Hv Hp Hv0) as (sig & vch & E1 & _ & E2 & Hh').
    exists sig, vch. split_and!; [done..|]. by apply (holds_eq _ _ _ Hh' Hh).
Qed.

(** a key survives the forms it is stored in: [Load] of the DER form that
    [GetPrivKey] gives, with its public key, restores the key, compressed or not,
    and its check of the pair succeeds; an extended private key is restored by
    [Decode] of its 74 bytes and from a stream, and an extended public key up to
    [operator==], which ignores the unused bytes of the key. *)
Theorem keys_survive_storage `{Secp256k1KeysLaws} (mem65 mem64 : list Z) (fuel : nat) (k k0 : CKey) (rnd : list Z)
    (x y : CExtKey) (yq : CExtPubKey) (v : Z) :
  length mem65 = 65%nat → key_wf k → fValid k = true → length (keydata k0) = 32%nat → Z.of_nat fuel < 2 ^ 32 →
  xkey_ok x → xkey_fields_ok (xk_nDepth x) (xk_vchFingerprint x) (xk_nChild x) (xk_chaincode x) →
  length (keydata (xk_key y)) = 32%nat → length (xp_pubkey yq) = 65%nat →
  (∃ der pub, GetPrivKey k = Returns der ∧ GetPubKey mem65 k = Returns pub ∧
     CKey_Load mem64 fuel k0 der pub true rnd = Returns (true, k) ∧
     (CKey_Load mem64 fuel k0 der pub false rnd = Returns (true, k) ∨ CKey_Load mem64 fuel k0 der pub false rnd = Loops)) ∧
  (∃ code, CExtKey_Encode x = Returns code ∧ CExtKey_Decode y code = x ∧
     ∃ bytes, CExtKey_Serialize x = Returns bytes ∧ reads v (CExtKey_Unserialize y) bytes x) ∧
  (∃ q bytes q', Neuter mem65 x = Returns q ∧ CExtPubKey_Serialize q = Returns bytes ∧
     reads v (CExtPubKey_Unserialize yq) bytes q' ∧ CExtPubKey_eq q q' = true).
Proof.
  intros Hmem Hwf Hv Hk0 Hf Hx Hfields Hy Hyq. split_and!.
  - destruct (wf_public k Hwf Hv) as (p & Hp). destruct (GetPubKey_spec mem65 Hmem k p Hp Hv) as (pub & Epub & Hh).
    destruct (GetPrivKey_spec k p Hwf Hv Hp) as (der & Eder & Himp). exists der, pub. split; [done|]. split; [done|].
    split.
    + destruct (CKey_Load_spec mem64 fuel k p k0 rnd pub der true) as [E|[E _]]; [done..].
    + destruct (CKey_Load_spec mem64 fuel k p k0 rnd pub der false) as [E|[_ E]]; [done..|by left|by right].
  - destruct (CExtKey_code x y Hx Hfields Hy) as (code & E & Hl & Ed). exists code. split; [done|]. split; [done|].
    unfold CExtKey_Serialize. rewrite E. cbn [run_bind]. eexists. split; [done|]. pose proof (reads_code v (CExtKey_Decode y) code Hl) as Hr.
    by rewrite Ed in Hr.
  - destruct (Neuter_spec mem65 Hmem x Hx) as (q & Eq & Hq).
    destruct (CExtPubKey_code x q yq Hx Hq) as (code & E & Hl & Hd); [|done|].
    { destruct Hfields as (? & ? & ? & ?). revert Eq. unfold Neuter. destruct (GetPubKey mem65 (xk_key x)); [|done..].
      intros [= <-]. split_and!; cbn; [done|rewrite length_take; lia|done..]. }
    exists q. unfold CExtPubKey_Serialize. rewrite E. cbn [run_bind]. eexists _, _. split; [done|]. split; [done|]. split.
    + by apply (reads_code v (CExtPubKey_Decode yq)).
    + by apply (public_of_eq x).
Qed.

(** A [Load] that fails wipes the key data and leaves [fValid] as it was: a valid
    key it is called on stays marked valid without being so, and the next use of it
    stops at an assertion.  (All zeros are no secret key.) *)
Theorem failed_load_breaks_key `{Secp256k1KeysLaws} (mem65 mem64 : list Z) (fuel : nat) (k : CKey)
    (der pub rnd : list Z) (fSkipCheck : bool) :
  key_wf k → fValid k = true → secp256k1_ec_seckey_verify (replicate 32 0) = false → (ec_privkey_import_der der).1 = false →
  ∃ k', CKey_Load mem64 fuel k der pub fSkipCheck rnd = Returns (false, k') ∧ fValid k' = true ∧ ¬ key_wf k' ∧
        GetPubKey mem65 k' = Aborts.
Proof.
  intros [Hl _] Hv Hz Hder. unfold CKey_Load. destruct (ec_privkey_import_der der) as [ret out] eqn:E. cbn in Hder. subst ret.
  assert (out = replicate 32 0) as ->.
  { revert E. unfold ec_privkey_import_der. repeat case_match; congruence. }
  assert (splice (keydata k) 0 (replicate 32 0) = replicate 32 0) as ->.
  { unfold splice. rewrite drop_ge by (rewrite length_replicate; lia). by rewrite app_nil_r. }
  cbn [negb]. eexists. split; [done|]. split; [done|]. split.
  - intros [_ Hw]. cbn [fValid keydata] in Hw. rewrite Hw in Hz; done.
  - unfold GetPubKey. cbn [fValid keydata]. rewrite Hv. cbn [run_bind asserts].
    destruct (secp256k1_ec_pubkey_create (replicate 32 0)) eqn:Ec; [|done].
    assert (secp256k1_ec_seckey_verify (replicate 32 0) = true) by (apply create_valid; eauto). congruence.
Qed.

(** ** An instance *)

(** The group of the order of the curve, written additively with generator 1, in
    the place of the curve: a public key is its own logarithm, and the signature
    equation is linear.  Ranges, tweaks, the lower-S form and the encodings are
    those of the library. *)
Definition toy_range (v : Z) : bool := (0 <? v) && (v <? secp256k1_order).
Definition toy_low (s : Z) : Z := if s >? secp256k1_order / 2 then secp256k1_order - s else s.
Definition toy_secret (k : list Z) : option Z :=
  if (length k =? 32)%nat && toy_range (be_value k) then Some (be_value k) else None.
Definition toy_tweak (v : Z) (t : list Z) : option Z :=
  let s := (v + be_value t) mod secp256k1_order in if s =? 0 then None else Some s.
Definition toy_s (r : Z) (m : list Z) (p : Z) : Z := (r + be_value m + p) mod secp256k1_order.
Definition toy_r (nd : option (list Z)) : Z := match nd with None => 2 ^ 255 | Some _ => 1 end.

Definition toy_secp : Secp256k1 := {|
  secp256k1_pubkey := Z;
  secp256k1_ecdsa_signature := Z * Z;
  secp256k1_ec_pubkey_parse := λ vch,
    let p := be_value (take 32 (drop 1 vch)) in
    if CPubKey_ValidSize vch && toy_range p then Some p else None;
  secp256k1_ecdsa_signature_parse_compact := λ b,
    let r := be_value (take 32 b) in let s := be_value (drop 32 b) in
    if (r <? secp256k1_order) && (s <? secp256k1_order) then (true, (r, s)) else (false, (0, 0));
  secp256k1_ecdsa_signature_normalize := λ '(r, s), (s >? secp256k1_order / 2, (r, toy_low s));
  secp256k1_ecdsa_verify := λ '(r, s) m p, s =? toy_low (toy_s r m p);
|}.

Definition toy_keys : @Secp256k1Keys toy_secp := @Build_Secp256k1Keys toy_secp
  (Z * Z * Z)
  (λ k, bool_decide (is_Some (toy_secret k)))
  toy_secret
  (λ p c, if c then 2 :: be_bytes 32 p else 4 :: be_bytes 32 p ++ be_bytes 32 p)
  (λ k, (true, be_bytes 32 (secp256k1_order - be_value k)))
  (λ k t, match toy_tweak (be_value k) t with Some v => (true, be_bytes 32 v) | None => (false, replicate 32 0) end)
  toy_tweak
  (λ m k nd, v ← toy_secret k; Some (toy_r nd, toy_low (toy_s (toy_r nd) m v)))
  (λ '(r, s), be_bytes 32 r ++ be_bytes 32 s)
  (λ '(r, s), der_encode (der_trim (0 :: be_bytes 32 r)) (der_trim (0 :: be_bytes 32 s)))
  (λ m k, v ← toy_secret k; let s := toy_s 1 m v in Some (1, toy_low s, if s >? secp256k1_order / 2 then 1 else 0))
  (λ '(r, s, rec), (true, be_bytes 32 r ++ be_bytes 32 s, rec))
  (λ b rec, Some (be_value (take 32 b), be_value (drop 32 b), rec))
  (λ '(r, s, rec) m,
     let p := ((if rec =? 1 then secp256k1_order - s else s) - r - be_value m) mod secp256k1_order in
     if toy_range p then Some p else None).

Lemma toy_range_spec v : toy_range v = true ↔ 0 < v < secp256k1_order.
Proof. unfold toy_range. rewrite andb_true_iff, !Z.ltb_lt. done. Qed.

Lemma be_value_32 v : 0 <= v < secp256k1_order → be_value (be_bytes 32 v) = v.
Proof. intros. rewrite be_value_be_bytes. apply Z.mod_small. unfold secp256k1_order in *. lia. Qed.

Lemma toy_secret_bytes v : toy_range v = true → toy_secret (be_bytes 32 v) = Some v.
Proof.
  intros Hv. unfold toy_secret. rewrite length_be_bytes, be_value_32, Hv; [done|]. apply toy_range_spec in Hv. lia.
Qed.

Lemma toy_secret_Some k v : toy_secret k = Some v → length k = 32%nat ∧ v = be_value k ∧ toy_range v = true.
Proof. unfold toy_secret. destruct (Nat.eqb_spec (length k) 32); [|done]. cbn [andb]. case_match; naive_solver. Qed.

Lemma toy_low_bound s : 0 <= s < secp256k1_order → 0 <= toy_low s <= secp256k1_order / 2.
Proof. unfold toy_low, secp256k1_order. intros. destruct (Z.gtb_spec s (0xfffffffffffffffffffffffffffffffebaaedce6af48a03bbfd25e8cd0364141 / 2)); lia. Qed.

Lemma toy_s_bound r m p : 0 <= toy_s r m p < secp256k1_order.
Proof. apply Z.mod_pos_bound. done. Qed.

Lemma toy_r_bound nd : 0 <= toy_r nd < secp256k1_order.
Proof. by destruct nd. Qed.

Lemma toy_halves r s : take 32 (be_bytes 32 r ++ be_bytes 32 s) = be_bytes 32 r ∧ drop 32 (be_bytes 32 r ++ be_bytes 32 s) = be_bytes 32 s.
Proof.
  pose proof (length_be_bytes 32 r) as Hl. split; [rewrite <- Hl at 1; apply take_app_length|rewrite <- Hl at 1; apply drop_app_length].
Qed.

Lemma toy_recover m v :
  toy_range v = true → let s := toy_s 1 m v in
  ((if (if s >? secp256k1_order / 2 then 1 else 0) =? 1 then secp256k1_order - toy_low s else toy_low s) - 1 - be_value m)
    mod secp256k1_order = v.
Proof.
  intros Hv%toy_range_spec s. assert (∀ b : bool, (if (if b then 1 else 0) =? 1 then secp256k1_order - (if b then secp256k1_order - s else s)
    else (if b then secp256k1_order - s else s)) = s) as E by (intros []; cbv iota; [change (1 =? 1) with true|change (0 =? 1) with false]; cbv iota; lia).
  unfold toy_low. rewrite E. unfold s, toy_s. rewrite <- Zminus_mod_idemp_l, <- (Zminus_mod_idemp_l _ 1).
  rewrite Zmod_mod. rewrite (Zminus_mod_idemp_l _ 1), Zminus_mod_idemp_l.
  replace (1 + be_value m + v - 1 - be_value m) with v by lia. apply Z.mod_small. lia.
Qed.

Lemma toy_laws : @Secp256k1KeysLaws toy_secp toy_keys.
Proof.
  split; cbv beta iota delta [toy_keys toy_secp secp256k1_pubkey secp256k1_ecdsa_signature secp256k1_ec_pubkey_parse
     secp256k1_ecdsa_signature_parse_compact secp256k1_ecdsa_signature_normalize secp256k1_ecdsa_verify
     secp256k1_ecdsa_recoverable_signature secp256k1_ec_seckey_verify secp256k1_ec_pubkey_create
     secp256k1_ec_pubkey_serialize secp256k1_ec_privkey_negate secp256k1_ec_privkey_tweak_add
     secp256k1_ec_pubkey_tweak_add secp256k1_ecdsa_sign secp256k1_ecdsa_signature_serialize_compact
     secp256k1_ecdsa_signature_serialize_der secp256k1_ecdsa_sign_recoverable
     secp256k1_ecdsa_recoverable_signature_serialize_compact secp256k1_ecdsa_recoverable_signature_parse_compact
     secp256k1_ecdsa_recover].
  - intros k. by rewrite bool_decide_eq_true.
  - intros k p _. exists 2, (be_bytes 32 p). split; [done|]. by rewrite length_be_bytes; auto.
  - intros k p _. exists (be_bytes 32 p ++ be_bytes 32 p). by rewrite length_app, !length_be_bytes.
  - intros k p c (Hl & -> & Hr)%toy_secret_Some. pose proof Hr as Hb%toy_range_spec. destruct c.
    + cbv zeta. change (drop 1 (2 :: ?l)) with l. rewrite take_ge by (by rewrite length_be_bytes). rewrite be_value_32, Hr by lia. unfold CPubKey_ValidSize. cbn [length]. by rewrite length_be_bytes.
    + cbv zeta. change (drop 1 (4 :: ?l)) with l. rewrite (proj1 (toy_halves _ _)), be_value_32, Hr by lia. unfold CPubKey_ValidSize. cbn [length]. by rewrite length_app, !length_be_bytes.
  - intros k Hk%bool_decide_eq_true Hl. destruct Hk as [v Hv]. apply toy_secret_Some in Hv as (_ & -> & Hr%toy_range_spec).
    eexists. split; [done|]. rewrite length_be_bytes, toy_secret_bytes by (apply toy_range_spec; lia). by rewrite bool_decide_true by eauto.
  - intros k p t (_ & -> & Hr)%toy_secret_Some _. destruct (toy_tweak (be_value k) t) as [v|] eqn:E; [|done].
    exists v. rewrite length_be_bytes. split; [|done]. apply toy_secret_bytes, toy_range_spec.
    revert E. unfold toy_tweak. pose proof (Z.mod_pos_bound (be_value k + be_value t) secp256k1_order ltac:(done)).
    destruct (Z.eqb_spec ((be_value k + be_value t) mod secp256k1_order) 0); [done|]. intros [= <-]. lia.
  - intros m k nd Hk%bool_decide_eq_true. destruct Hk as [v ->]. cbn [mbind option_bind]. eexists. reflexivity.
  - intros m k nd s p Hs Hp. rewrite Hp in Hs. cbn [mbind option_bind] in Hs. apply Some_inj in Hs as <-. cbv beta iota zeta.
    pose proof (toy_low_bound _ (toy_s_bound (toy_r nd) m p)) as Hb. split.
    + set (l := toy_low (toy_s (toy_r nd) m p)) in *. unfold toy_low. by destruct (Z.gtb_spec l (secp256k1_order / 2)); [lia|].
    + apply Z.eqb_refl.
  - intros m k nd s Hs. destruct (toy_secret k) as [v|]; [|done].
    cbn [mbind option_bind] in Hs. apply Some_inj in Hs as <-. cbv beta iota zeta.
    pose proof (toy_low_bound _ (toy_s_bound (toy_r nd) m v)) as Hb. pose proof (toy_r_bound nd) as Hr.
    set (l := toy_low (toy_s (toy_r nd) m v)) in *. destruct (toy_halves (toy_r nd) l) as [-> ->].
    assert (l < secp256k1_order) by (unfold secp256k1_order in *; lia).
    rewrite !be_value_32 by lia. rewrite !(proj2 (Z.ltb_lt _ _)) by lia.
    split_and!; [by rewrite length_app, !length_be_bytes|apply Forall_app; split; apply be_bytes_ok|done|unfold secp256k1_order in *; lia|done].
  - intros m k Hk%bool_decide_eq_true. destruct Hk as [v ->]. cbn [mbind option_bind]. eexists. reflexivity.
  - intros m k s Hs. destruct (toy_secret k) as [v|]; [|done].
    cbn [mbind option_bind] in Hs. apply Some_inj in Hs as <-. cbv beta iota zeta.
    pose proof (toy_low_bound _ (toy_s_bound 1 m v)) as Hb. set (l := toy_low (toy_s 1 m v)) in *.
    eexists _, _. split; [done|]. destruct (toy_halves 1 l) as [-> ->]. rewrite !be_value_32 by (unfold secp256k1_order in *; lia).
    split_and!; [by rewrite length_app, !length_be_bytes|destruct (_ >? _); lia|destruct (_ >? _); lia|done].
  - intros m k s p Hs Hp. rewrite Hp in Hs. cbn [mbind option_bind] in Hs. apply Some_inj in Hs as <-. cbv beta iota zeta. apply toy_secret_Some in Hp as (_ & _ & Hr).
    pose proof (toy_recover m p Hr) as E. cbv zeta in E. by rewrite E, Hr.
Qed.

Definition sample_key : CKey := mk_CKey true true (be_bytes 32 5).
Definition sample_xkey : CExtKey := mk_CExtKey 0 [0; 0; 0; 0] 0 (be_bytes 32 7) sample_key.
Definition empty_xkey : CExtKey := mk_CExtKey 0 [] 0 [] CKey_new.
Definition empty_xpub : CExtPubKey := mk_CExtPubKey 0 [] 0 [] (replicate 65 0).

Lemma sample_key_wf : @key_wf toy_secp toy_keys sample_key.
Proof. split; [done|]. intros _. by vm_compute. Qed.

Lemma public_derivation_agrees_witness :
  ∃ q, @Neuter toy_secp toy_keys (replicate 65 0) sample_xkey = Returns q ∧
    match @derive_path toy_secp toy_keys (replicate 65 0) (replicate 128 0) empty_xkey sample_xkey [0; 3],
          @derive_public_path toy_secp toy_keys (replicate 128 0) empty_xpub q [0; 3] with
    | Returns (Some y), Returns (Some z) => ∃ z', @Neuter toy_secp toy_keys (replicate 65 0) y = Returns z' ∧ CExtPubKey_eq z z' = true
    | Returns None, Returns None => True
    | _, _ => False
    end.
Proof.
  destruct (@public_derivation_agrees toy_secp toy_keys toy_laws (replicate 65 0) (replicate 128 0) sample_xkey empty_xkey empty_xpub
    [0; 3]) as (q & E & Hq & _); [done|split; [exact sample_key_wf|done]|done|done|repeat constructor; lia|].
  exists q. split; [exact E|exact Hq].
Defined.

Lemma signatures_verify_witness :
  ∃ pub sig, @GetPubKey toy_secp toy_keys (replicate 65 0) sample_key = Returns pub ∧
    @CKey_Sign toy_secp toy_keys 1 sample_key (replicate 32 9) [] true 0 = Returns (true, sig) ∧
    @CPubKey_Verify toy_secp pub (replicate 32 9) sig = true ∧ (length sig <= 70)%nat.
Proof.
  destruct (@signatures_verify toy_secp toy_keys toy_laws (replicate 65 0) 1 sample_key (replicate 32 9) [] (replicate 65 0) true 0)
    as (pub & E & Hs & _); [done|exact sample_key_wf|done|done|done|].
  destruct (@CKey_Sign toy_secp toy_keys 1 sample_key (replicate 32 9) [] true 0) as [[ok sig]| |] eqn:Es.
  - destruct Hs as (-> & Hv & _ & _ & Hl). exists pub, sig. split; [exact E|]. split; [reflexivity|]. split; [exact Hv|exact Hl].
  - destruct Hs.
  - exfalso. revert Es. vm_compute. discriminate.
Defined.

Lemma keys_survive_storage_witness :
  ∃ der pub, @GetPrivKey toy_secp toy_keys sample_key = Returns der ∧
    @GetPubKey toy_secp toy_keys (replicate 65 0) sample_key = Returns pub ∧
    @CKey_Load toy_secp toy_keys (replicate 64 0) 1 CKey_new der pub true [] = Returns (true, sample_key).
Proof.
  destruct (@keys_survive_storage toy_secp toy_keys toy_laws (replicate 65 0) (replicate 64 0) 1 sample_key CKey_new [] sample_xkey
    empty_xkey empty_xpub 0) as [(der & pub & E1 & E2 & E3 & _) _];
    [done|exact sample_key_wf|done|done|done|split; [exact sample_key_wf|done]| |done|done|exists der, pub; split; [exact E1|split; [exact E2|exact E3]]].
  split_and!; [done|done|done|done].
Defined.

Lemma failed_load_breaks_key_witness :
  ∃ k', @CKey_Load toy_secp toy_keys (replicate 64 0) 0 sample_key [] [] true [] = Returns (false, k') ∧ fValid k' = true ∧
        @GetPubKey toy_secp toy_keys (replicate 65 0) k' = Aborts.
Proof.
  destruct (@failed_load_breaks_key toy_secp toy_keys toy_laws (replicate 65 0) (replicate 64 0) 0 sample_key [] [] [] true)
    as (k' & E & Ev & _ & Ea); [exact sample_key_wf|done|by vm_compute|done|]. exists k'. split; [exact E|]. split; [exact Ev|exact Ea].
Defined.
