(* ===== verification/Tx.v ===== *)
(** * Transactions: [tx.h], [tx.cpp], [amount.h]

    [OutPoint], [TxIn], [TxOut] and [NetMessageTransaction] with the serialization
    overloads the [READWRITE] methods expand to, driven by the flags in the
    stream's version, and the predicates on transactions.  [_hash] and
    [_witnessHash] are caches the const accessors write to, so [GetHash] and
    [GetWitnessHash] return the new object too. *)

From stdpp Require Import base list numbers decidable.
From S2P Require Import Prelude Uint256 Serialize Sha256 Script.

Open Scope Z_scope.
Open Scope rd_scope.

(** ** Constants *)

Definition SERIALIZE_BLOCK_HASH : Z := 0x20000000.
Definition SERIALIZE_TXOUT_ISSPENT : Z := 0x10000000.
Definition SERIALIZE_TRANSACTION_NO_WITNESS : Z := 0x40000000.
Definition WITNESS_SCALE_FACTOR : Z := 4.
Definition SEQUENCE_FINAL : Z := 0xffffffff.
Definition NULL_INDEX : Z := 0xffffffff.
Definition COIN : Z := 100000000.
Definition MAX_MONEY : Z := 21000000 * COIN.
Definition MoneyRange (nValue : Z) : bool := (nValue >=? 0) && (nValue <=? MAX_MONEY).

(** [version & flag]. *)
Definition has_flag (v flag : Z) : bool := negb (Z.land v flag =? 0).

(** ** Data *)

Record OutPoint := mk_OutPoint {
  op_isUsed : bool;
  op_hashBlock : blob;
  op_height : Z;
  op_hashTransaction : blob;
  op_outPutIdx : Z;
}.

Definition OutPoint_null : OutPoint := mk_OutPoint false (blob_null 32) (-1) (blob_null 32) NULL_INDEX.

Definition OutPoint_IsNull (o : OutPoint) : bool :=
  blob_IsNull (op_hashTransaction o) && (op_outPutIdx o =? NULL_INDEX).

Definition OutPoint_ltb (a b : OutPoint) : bool :=
  let cmp := blob_Compare (op_hashTransaction a) (op_hashTransaction b) in
  (cmp <? 0) || ((cmp =? 0) && (op_outPutIdx a <? op_outPutIdx b)).

Definition OutPoint_eqb (a b : OutPoint) : bool :=
  blob_eqb (op_hashTransaction a) (op_hashTransaction b) && (op_outPutIdx a =? op_outPutIdx b).

(** [CScriptWitness::stack]. *)
Abbreviation witness_stack := (list (list Z)).

Record TxIn := mk_TxIn {
  in_previousOutput : OutPoint;
  in_scriptSig : CScript;
  in_sequence : Z;
  in_scriptWitness : witness_stack;
}.

Definition TxIn_default : TxIn := mk_TxIn OutPoint_null [] SEQUENCE_FINAL [].

Definition TxIn_eqb (a b : TxIn) : bool :=
  OutPoint_eqb (in_previousOutput a) (in_previousOutput b) &&
  bool_decide (in_scriptSig a = in_scriptSig b) && (in_sequence a =? in_sequence b).

Record TxOut := mk_TxOut {
  out_nValue : Z;
  out_scriptPubKey : CScript;
  out_isSpent : bool;
}.

Definition TxOut_null : TxOut := mk_TxOut (-1) [] false.
Definition TxOut_IsNull (o : TxOut) : bool := out_nValue o =? -1.
Definition TxOut_eqb (a b : TxOut) : bool :=
  (out_nValue a =? out_nValue b) && bool_decide (out_scriptPubKey a = out_scriptPubKey b).

Record NetMessageTransaction := mk_tx {
  tx_hash : blob;          (* memory only *)
  tx_witnessHash : blob;   (* memory only *)
  tx_vin : list TxIn;
  tx_vout : list TxOut;
  tx_nVersion : Z;
  tx_nLockTime : Z;
}.

Definition CURRENT_VERSION : Z := 2.

Definition tx_default : NetMessageTransaction :=
  mk_tx (blob_null 32) (blob_null 32) [] [] CURRENT_VERSION 0.

Definition tx_IsNull (t : NetMessageTransaction) : bool :=
  bool_decide (tx_vin t = []) && bool_decide (tx_vout t = []).

(** ** Serialization *)

Definition ser_OutPoint (v : Z) (o : OutPoint) : list Z :=
  (if has_flag v SERIALIZE_BLOCK_HASH
   then op_hashBlock o ++ ser_int 8 (op_height o) ++ ser_bool (op_isUsed o) else []) ++
  op_hashTransaction o ++ ser_int 4 (op_outPutIdx o).

Definition rd_version : rd Z := λ s, Done (nd_nVersion s, s).

Definition unser_OutPoint (old : OutPoint) : rd OutPoint :=
  let! v := rd_version in
  let! o :=
    (if has_flag v SERIALIZE_BLOCK_HASH then
       let! hashBlock := rd_into (op_hashBlock old) 32 in
       let! height := unser_int 8 in
       let! isUsed := unser_bool in
       rd_ret (mk_OutPoint isUsed hashBlock height (op_hashTransaction old) (op_outPutIdx old))
     else rd_ret old) in
  let! hashTransaction := rd_into (op_hashTransaction old) 32 in
  let! outPutIdx := unser_uint 4 in
  rd_ret (mk_OutPoint (op_isUsed o) (op_hashBlock o) (op_height o) hashTransaction outPutIdx).

Definition ser_TxIn (v : Z) (i : TxIn) : list Z :=
  ser_OutPoint v (in_previousOutput i) ++ serialize_bytes (in_scriptSig i) ++ ser_int 4 (in_sequence i).

Definition unser_TxIn (old : TxIn) : rd TxIn :=
  let! previousOutput := unser_OutPoint (in_previousOutput old) in
  let! scriptSig := unserialize_bytes in
  let! sequence := unser_uint 4 in
  rd_ret (mk_TxIn previousOutput scriptSig sequence (in_scriptWitness old)).

Definition ser_TxOut (v : Z) (o : TxOut) : list Z :=
  ser_int 8 (out_nValue o) ++ serialize_bytes (out_scriptPubKey o) ++
  (if has_flag v SERIALIZE_TXOUT_ISSPENT then ser_bool (out_isSpent o) else []).

Definition unser_TxOut (old : TxOut) : rd TxOut :=
  let! nValue := unser_int 8 in
  let! scriptPubKey := unserialize_bytes in
  let! v := rd_version in
  let! isSpent := (if has_flag v SERIALIZE_TXOUT_ISSPENT then unser_bool else rd_ret (out_isSpent old)) in
  rd_ret (mk_TxOut nValue scriptPubKey isSpent).

(** What a stream of a given version can carry; the other members keep the value
    of the default constructor. *)
Definition OutPoint_ok (v : Z) (o : OutPoint) : Prop :=
  blob_wf 32 (op_hashTransaction o) ∧ fits 32 (op_outPutIdx o) ∧
  if has_flag v SERIALIZE_BLOCK_HASH
  then blob_wf 32 (op_hashBlock o) ∧ sfits 64 (op_height o)
  else op_hashBlock o = blob_null 32 ∧ op_height o = -1 ∧ op_isUsed o = false.

Definition TxIn_ok (v : Z) (i : TxIn) : Prop :=
  OutPoint_ok v (in_previousOutput i) ∧ Z.of_nat (length (in_scriptSig i)) <= MAX_SIZE ∧
  fits 32 (in_sequence i) ∧ in_scriptWitness i = [].

Definition TxOut_ok (v : Z) (o : TxOut) : Prop :=
  sfits 64 (out_nValue o) ∧ Z.of_nat (length (out_scriptPubKey o)) <= MAX_SIZE ∧
  (has_flag v SERIALIZE_TXOUT_ISSPENT = false → out_isSpent o = false).

Lemma reads_rd_version v : reads v rd_version [] v.
Proof. intros s rest Hv _. unfold rd_version. by rewrite Hv, nd_advance_0. Qed.

Lemma reads_blob v old b : blob_wf 32 b → reads v (rd_into old 32) b b.
Proof. intros [Hl _]. apply (reads_array v 32); [lia|done]. Qed.

(** One step of a struct reader: read a field, go on. *)
Ltac read_field lem := eapply reads_bind; [eapply lem; (lia || eauto)|cbv beta].

Lemma reads_OutPoint v o : OutPoint_ok v o → reads v (unser_OutPoint OutPoint_null) (ser_OutPoint v o) o.
Proof.
  intros (Hh & Hi & Hrest). unfold unser_OutPoint, ser_OutPoint.
  eapply reads_bind_pure; [apply reads_rd_version|]. cbv beta.
  destruct (has_flag v SERIALIZE_BLOCK_HASH).
  - destruct Hrest as [Hb Hheight]. eapply reads_bind.
    { read_field reads_blob. read_field reads_int. eapply reads_bind_ret, reads_bool. }
    cbv beta. read_field reads_blob. eapply reads_eq; [eapply reads_bind_ret, reads_uint|reflexivity|]; [lia|done|].
    by destruct o.
  - destruct Hrest as (Hb & Hh' & Hu). rewrite app_nil_l. eapply reads_bind_pure; [apply reads_ret|]. cbv beta.
    read_field reads_blob. eapply reads_eq; [eapply reads_bind_ret, reads_uint|reflexivity|]; [lia|done|].
    destruct o. cbn in *. by subst.
Qed.

Lemma reads_TxIn v i : TxIn_ok v i → reads v (unser_TxIn TxIn_default) (ser_TxIn v i) i.
Proof.
  intros (Ho & Hs & Hseq & Hw). unfold unser_TxIn, ser_TxIn.
  eapply reads_bind; [by apply reads_OutPoint|]. cbv beta. read_field reads_bytes.
  eapply reads_eq; [eapply reads_bind_ret, reads_uint|reflexivity|]; [lia|done|].
  destruct i. cbn in *. by subst.
Qed.

Lemma reads_TxOut v o : TxOut_ok v o → reads v (unser_TxOut TxOut_null) (ser_TxOut v o) o.
Proof.
  intros (Hv & Hs & Hsp). unfold unser_TxOut, ser_TxOut.
  read_field reads_int. read_field reads_bytes.
  eapply reads_bind_pure; [apply reads_rd_version|]. cbv beta.
  destruct (has_flag v SERIALIZE_TXOUT_ISSPENT).
  - eapply reads_eq; [eapply reads_bind_ret, reads_bool|reflexivity|]. by destruct o.
  - eapply reads_eq; [eapply reads_bind_ret, reads_ret|reflexivity|]. destruct o. cbn in *. by rewrite Hsp.
Qed.

#[global] Instance TxIn_Serializable : Serializable TxIn := {
  ser_def := TxIn_default; serialize := ser_TxIn; unserialize := unser_TxIn;
  ser_ok := TxIn_ok; ser_law := reads_TxIn }.
#[global] Instance TxOut_Serializable : Serializable TxOut := {
  ser_def := TxOut_null; serialize := ser_TxOut; unserialize := unser_TxOut;
  ser_ok := TxOut_ok; ser_law := reads_TxOut }.

Lemma reads_item v (b : list Z) :
  Z.of_nat (length b) <= MAX_SIZE → reads v unserialize_bytes (serialize_bytes b) b.
Proof. apply reads_bytes. Qed.

(** [std::vector<unsigned char>], the items of a witness stack. *)
#[global] Instance bytes_Serializable : Serializable (list Z) := {
  ser_def := []; serialize := λ _, serialize_bytes; unserialize := λ _, unserialize_bytes;
  ser_ok := λ _ b, Z.of_nat (length b) <= MAX_SIZE; ser_law := reads_item }.

(** ** [NetMessageTransaction::SerializationOp] *)

(** The sizes of the element types on a 64-bit machine, which set the chunks that a vector
    is read in: [TxIn] is an [OutPoint] of 88 bytes, a packed script of 32, the sequence
    number and the vector of the witness. *)
Definition sizeof_TxIn : Z := 152.
Definition sizeof_TxOut : Z := 48.
Definition sizeof_vector : Z := 24.

Definition HasWitness (t : NetMessageTransaction) : bool :=
  existsb (λ i, negb (bool_decide (in_scriptWitness i = []))) (tx_vin t).

Definition ser_tx (v : Z) (t : NetMessageTransaction) : list Z :=
  let bFallowWitness := negb (has_flag v SERIALIZE_TRANSACTION_NO_WITNESS) in
  let flags := if HasWitness t && bFallowWitness then 1 else 0 in
  ser_int 4 (tx_nVersion t) ++
  (if HasWitness t && bFallowWitness then ser_writedata8 0 ++ ser_writedata8 flags else []) ++
  ser_vec v (tx_vin t) ++ ser_vec v (tx_vout t) ++
  (if Z.land flags 1 =? 0 then [] else tx_vin t ≫= λ i, ser_vec v (in_scriptWitness i)) ++
  ser_int 4 (tx_nLockTime t).

(** [for (auto &vin : _vin) s >> vin._scriptWitness.stack;] *)
Fixpoint unser_witnesses (vin : list TxIn) : rd (list TxIn) :=
  match vin with
  | [] => rd_ret []
  | i :: vin' =>
      let! stack := unser_vec sizeof_vector in
      let! l := unser_witnesses vin' in
      rd_ret (mk_TxIn (in_previousOutput i) (in_scriptSig i) (in_sequence i) stack :: l)
  end.

(** The object read into keeps its caches, and its outputs when none are read. *)
Definition unser_tx (old : NetMessageTransaction) : rd NetMessageTransaction :=
  let! v := rd_version in
  let bFallowWitness := negb (has_flag v SERIALIZE_TRANSACTION_NO_WITNESS) in
  let! nVersion := unser_int 4 in
  let! vin := unser_vec sizeof_TxIn in
  let! r :=
    (if bool_decide (vin = []) && bFallowWitness then
       let! flags := ser_readdata8 in
       if negb (flags =? 0) then
         let! vin := unser_vec sizeof_TxIn in
         let! vout := unser_vec sizeof_TxOut in
         rd_ret (flags, vin, vout)
       else rd_ret (flags, vin, tx_vout old)
     else
       let! vout := unser_vec sizeof_TxOut in
       rd_ret (0, vin, vout)) in
  let '(flags, vin, vout) := r in
  let! r :=
    (if negb (Z.land flags 1 =? 0) && bFallowWitness then
       let! vin := unser_witnesses vin in
       rd_ret (Z.lxor flags 1, vin)
     else rd_ret (flags, vin)) in
  let '(flags, vin) := r in
  let '(vin, vout) := if negb (flags =? 0) then ([], []) else (vin, vout) in
  let! nLockTime := unser_uint 4 in
  rd_ret (mk_tx (tx_hash old) (tx_witnessHash old) vin vout nVersion nLockTime).

(** ** Accessors *)

(** Summing stops with -1 at the first value, or partial sum, out of range. *)
Fixpoint GetValueOut_loop (nValueOut : Z) (vout : list TxOut) : Z :=
  match vout with
  | [] => nValueOut
  | o :: vout' =>
      let nValueOut := swrap64 (nValueOut + out_nValue o) in
      if negb (MoneyRange (out_nValue o)) || negb (MoneyRange nValueOut) then -1
      else GetValueOut_loop nValueOut vout'
  end.
Definition GetValueOut (t : NetMessageTransaction) : Z := GetValueOut_loop 0 (tx_vout t).

(** [Hash::SerializeHash]: the pieces written to the [CHashWriter] are the bytes of
    the serialization. *)
Definition SerializeHash_bytes (bs : list Z) : blob := Hash256 bs.

Definition tx_GetHash (t : NetMessageTransaction) : blob * NetMessageTransaction :=
  if negb (blob_IsNull (tx_hash t)) then (tx_hash t, t)
  else
    let h := SerializeHash_bytes (ser_tx SERIALIZE_TRANSACTION_NO_WITNESS t) in
    (h, mk_tx h (tx_witnessHash t) (tx_vin t) (tx_vout t) (tx_nVersion t) (tx_nLockTime t)).

Definition tx_GetWitnessHash (t : NetMessageTransaction) : blob * NetMessageTransaction :=
  if negb (blob_IsNull (tx_witnessHash t)) then (tx_witnessHash t, t)
  else
    let h := if negb (HasWitness t) then tx_hash t else SerializeHash_bytes (ser_tx 0 t) in
    (h, mk_tx (tx_hash t) h (tx_vin t) (tx_vout t) (tx_nVersion t) (tx_nLockTime t)).

(** [::GetSerializeSize(x, flags)] passes its argument as the stream's type; the
    version is the default 0. *)
Definition tx_GetSerializeSize (t : NetMessageTransaction) (nType : Z) : Z := Z.of_nat (length (ser_tx 0 t)).
Definition PROTOCOL_VERSION : Z := 70015.
Definition tx_GetTotalSize (t : NetMessageTransaction) : Z := tx_GetSerializeSize t PROTOCOL_VERSION.
Definition tx_GetWeight (t : NetMessageTransaction) : Z :=
  tx_GetSerializeSize t (Z.lor PROTOCOL_VERSION SERIALIZE_TRANSACTION_NO_WITNESS) * (WITNESS_SCALE_FACTOR - 1) +
  tx_GetSerializeSize t PROTOCOL_VERSION.

Definition IsCoinBase (t : NetMessageTransaction) : bool :=
  match tx_vin t with
  | [i] => OutPoint_IsNull (in_previousOutput i)
  | _ => false
  end.

Definition IsFinalTx (t : NetMessageTransaction) (nBlockHeight nBlockTime : Z) : bool :=
  if tx_nLockTime t =? 0 then true
  else if tx_nLockTime t <? (if tx_nLockTime t <? LOCKTIME_THRESHOLD then nBlockHeight else nBlockTime) then true
  else forallb (λ i, in_sequence i =? SEQUENCE_FINAL) (tx_vin t).

Definition GetLegacySigOpCount (t : NetMessageTransaction) : Z :=
  let n := foldl (λ n i, wrap32 (n + GetSigOpCount (in_scriptSig i) false)) 0 (tx_vin t) in
  foldl (λ n o, wrap32 (n + GetSigOpCount (out_scriptPubKey o) false)) n (tx_vout t).

(** ** Lemmas *)

Definition strip_witness (i : TxIn) : TxIn :=
  mk_TxIn (in_previousOutput i) (in_scriptSig i) (in_sequence i) [].

(** The transaction a reader of version [v] sees in what was written. *)
Definition tx_view (v : Z) (t : NetMessageTransaction) : NetMessageTransaction :=
  mk_tx (blob_null 32) (blob_null 32)
    (if has_flag v SERIALIZE_TRANSACTION_NO_WITNESS then strip_witness <$> tx_vin t else tx_vin t)
    (tx_vout t) (tx_nVersion t) (tx_nLockTime t).

Definition witness_ok (v : Z) (i : TxIn) : Prop := vec_ok v (in_scriptWitness i).

Definition tx_ok (v : Z) (t : NetMessageTransaction) : Prop :=
  tx_vin t ≠ [] ∧ vec_ok v (strip_witness <$> tx_vin t) ∧ vec_ok v (tx_vout t) ∧
  Forall (witness_ok v) (tx_vin t) ∧ sfits 32 (tx_nVersion t) ∧ fits 32 (tx_nLockTime t).

Lemma ser_TxIn_strip v i : ser_TxIn v (strip_witness i) = ser_TxIn v i.
Proof. by destruct i. Qed.

Lemma ser_vec_strip v l : ser_vec v (strip_witness <$> l) = ser_vec v l.
Proof.
  unfold ser_vec, serialize_vector. rewrite length_fmap. f_equal.
  induction l as [|i l IH]; [done|]. cbn [fmap list_fmap].
  change ((strip_witness i :: (strip_witness <$> l)) ≫= ser_TxIn v = (i :: l) ≫= ser_TxIn v).
  change (ser_TxIn v (strip_witness i) ++ ((strip_witness <$> l) ≫= ser_TxIn v) = ser_TxIn v i ++ (l ≫= ser_TxIn v)).
  rewrite ser_TxIn_strip. f_equal. apply IH.
Qed.

Lemma strip_no_witness l :
  existsb (λ i, negb (bool_decide (in_scriptWitness i = []))) l = false → strip_witness <$> l = l.
Proof.
  induction l as [|i l IH]; [done|]. cbn. intros [H1 H2]%orb_false_iff. f_equal; [|by apply IH].
  apply negb_false_iff, bool_decide_eq_true in H1. destruct i. cbn in *. by subst.
Qed.

Lemma reads_witnesses v l :
  Forall (witness_ok v) l →
  reads v (unser_witnesses (strip_witness <$> l)) (l ≫= λ i, ser_vec v (in_scriptWitness i)) l.
Proof.
  induction 1 as [|i l Hi _ IH]; [apply reads_ret|]. cbn [fmap list_fmap unser_witnesses].
  change ((i :: l) ≫= ?f) with (f i ++ (l ≫= f)).
  eapply reads_bind; [by apply reads_vec|]. cbv beta.
  eapply reads_eq; [eapply reads_bind_ret, IH|reflexivity|]. by destruct i.
Qed.

(** A vector of no elements is the byte 0. *)
Lemma ser_vec_nil v : ser_vec v ([] : list TxIn) = ser_writedata8 0.
Proof. done. Qed.

Lemma reads_vin v l :
  vec_ok v (strip_witness <$> l) → reads v (unser_vec sizeof_TxIn) (ser_vec v l) (strip_witness <$> l).
Proof. intros H. rewrite <- ser_vec_strip. by apply reads_vec. Qed.

Lemma reads_tx_witness v t :
  tx_ok v t → has_flag v SERIALIZE_TRANSACTION_NO_WITNESS = false → HasWitness t = true →
  reads v (unser_tx tx_default) (ser_tx v t) (tx_view v t).
Proof.
  intros (Hne & Hvin & Hvout & Hwit & Hver & Hlock) Hnw Hhw. unfold unser_tx, ser_tx, tx_view.
  rewrite Hnw, Hhw. cbn [negb andb].
  eapply reads_bind_pure; [apply reads_rd_version|]. cbv beta. rewrite Hnw. cbn [negb].
  read_field reads_int. rewrite <- app_assoc, <- (ser_vec_nil v).
  eapply reads_bind; [apply reads_vec; [done|split; [done|constructor]]|]. cbv beta.
  rewrite bool_decide_true by done. cbn [andb]. rewrite app_assoc, app_assoc. eapply reads_bind.
  { rewrite <- app_assoc. eapply reads_bind; [by apply reads_8|]. cbv beta. cbn [Z.eqb negb].
    eapply reads_bind; [by apply reads_vin|]. cbv beta. eapply reads_bind_ret. by apply reads_vec. }
  cbv beta iota. change (negb (Z.land 1 1 =? 0) && true) with true. cbv iota.
  eapply reads_bind; [eapply reads_bind_ret; by apply reads_witnesses|]. cbv beta iota.
  change (negb (Z.lxor 1 1 =? 0)) with false. cbv iota. eapply reads_bind_ret. by apply reads_uint; [lia|].
Qed.

Lemma fmap_strip_ne l : l ≠ [] → bool_decide ((strip_witness <$> l) = []) = false.
Proof. intros H. apply bool_decide_false. by destruct l. Qed.

Lemma reads_tx_plain v t :
  tx_ok v t → HasWitness t && negb (has_flag v SERIALIZE_TRANSACTION_NO_WITNESS) = false →
  reads v (unser_tx tx_default) (ser_tx v t) (tx_view v t).
Proof.
  intros (Hne & Hvin & Hvout & Hwit & Hver & Hlock) Hp. unfold unser_tx, ser_tx, tx_view. rewrite Hp. cbn [Z.land Z.eqb].
  replace (if has_flag v SERIALIZE_TRANSACTION_NO_WITNESS then strip_witness <$> tx_vin t else tx_vin t)
    with (strip_witness <$> tx_vin t).
  2: { destruct (has_flag v _); [done|]. rewrite andb_true_r in Hp. by apply strip_no_witness. }
  eapply reads_bind_pure; [apply reads_rd_version|]. cbv beta.
  read_field reads_int. cbn [app]. eapply reads_bind; [by apply reads_vin|]. cbv beta.
  rewrite fmap_strip_ne by done. cbn [andb].
  eapply reads_bind; [eapply reads_bind_ret; by apply reads_vec|]. cbv beta iota.
  change (negb (Z.land 0 1 =? 0) && _) with false. cbv iota.
  eapply reads_bind_pure; [apply reads_ret|]. cbv beta iota. change (negb (0 =? 0)) with false. cbv iota.
  eapply reads_bind_ret. by apply reads_uint; [lia|].
Qed.

Lemma reads_tx v t : tx_ok v t → reads v (unser_tx tx_default) (ser_tx v t) (tx_view v t).
Proof.
  intros Hok. destruct (HasWitness t && negb (has_flag v SERIALIZE_TRANSACTION_NO_WITNESS)) eqn:E.
  - apply andb_prop in E as [E1 E2%negb_true_iff]. by apply reads_tx_witness.
  - by apply reads_tx_plain.
Qed.

(** ** Values *)

Lemma MoneyRange_spec x : MoneyRange x = true ↔ 0 <= x <= MAX_MONEY.
Proof. unfold MoneyRange. rewrite andb_true_iff, Z.geb_le, Z.leb_le. done. Qed.

Definition total_out (vout : list TxOut) : Z := foldr (λ o n, out_nValue o + n) 0 vout.

Lemma total_out_nonneg vout : Forall (λ o, MoneyRange (out_nValue o) = true) vout → 0 <= total_out vout.
Proof.
  induction 1 as [|o l Ho _ IH]; [done|]. apply MoneyRange_spec in Ho.
  change (total_out (o :: l)) with (out_nValue o + total_out l). lia.
Qed.

Lemma GetValueOut_loop_spec vout acc :
  MoneyRange acc = true →
  GetValueOut_loop acc vout =
    if decide (Forall (λ o, MoneyRange (out_nValue o) = true) vout ∧ acc + total_out vout <= MAX_MONEY)
    then acc + total_out vout else -1.
Proof.
  revert acc. induction vout as [|o l IH]; intros acc Hacc; cbn [GetValueOut_loop].
  { apply MoneyRange_spec in Hacc. rewrite decide_True by (split; [constructor|cbn; lia]). cbn. lia. }
  destruct (MoneyRange (out_nValue o)) eqn:Ho; cbn [negb orb].
  2: { rewrite decide_False; [done|]. intros [H _]. apply Forall_cons_1 in H as [H _]. congruence. }
  pose proof Hacc as Ha%MoneyRange_spec. pose proof Ho as Hv%MoneyRange_spec.
  assert (sfits 64 (acc + out_nValue o)).
  { unfold sfits. change (2 ^ (64 - 1)) with 9223372036854775808. unfold MAX_MONEY, COIN in *. lia. }
  rewrite swrap_id by (done || lia).
  destruct (MoneyRange (acc + out_nValue o)) eqn:Hs; cbn [negb].
  - rewrite IH by done. change (total_out (o :: l)) with (out_nValue o + total_out l). rewrite Z.add_assoc.
    apply decide_ext. split; intros [H1 H2]; (split; [|done]); [by apply Forall_cons_2|by apply Forall_cons_1 in H1 as [_ ?]].
  - rewrite decide_False; [done|]. intros [H1 H2]. apply Forall_cons_1 in H1 as [_ H1].
    apply total_out_nonneg in H1. change (total_out (o :: l)) with (out_nValue o + total_out l) in H2.
    assert (MoneyRange (acc + out_nValue o) = true) by (apply MoneyRange_spec; lia). congruence.
Qed.

Definition tx_strip (t : NetMessageTransaction) : NetMessageTransaction :=
  mk_tx (tx_hash t) (tx_witnessHash t) (strip_witness <$> tx_vin t) (tx_vout t) (tx_nVersion t) (tx_nLockTime t).

Lemma ser_tx_no_witness t :
  ser_tx SERIALIZE_TRANSACTION_NO_WITNESS t =
    ser_int 4 (tx_nVersion t) ++ ser_vec SERIALIZE_TRANSACTION_NO_WITNESS (tx_vin t) ++
    ser_vec SERIALIZE_TRANSACTION_NO_WITNESS (tx_vout t) ++ ser_int 4 (tx_nLockTime t).
Proof.
  unfold ser_tx. change (negb (has_flag _ _)) with false. rewrite andb_false_r. done.
Qed.

(** ** Properties *)

(** C37: reading back what was written gives the transaction the stream's flags
    let through: with [SERIALIZE_TRANSACTION_NO_WITNESS] everything but the
    witnesses, otherwise everything, whether the basic or the extended format was
    used; exactly the written bytes are consumed. *)
Theorem tx_roundtrip (v : Z) (t : NetMessageTransaction) (s : NetMessageData) (rest : list Z) :
  tx_ok v t → nd_nVersion s = v → avail s (ser_tx v t ++ rest) →
  unser_tx tx_default s = Done (tx_view v t, nd_advance (length (ser_tx v t)) s).
Proof. intros Hok Hv Ha. by eapply reads_tx. Qed.

Definition sample_tx : NetMessageTransaction :=
  mk_tx (blob_null 32) (blob_null 32)
    [mk_TxIn (mk_OutPoint false (blob_null 32) (-1) (replicate 32 5) 1) [OP_1] SEQUENCE_FINAL [[7; 7]; []]]
    [mk_TxOut (50 * COIN) [OP_1; OP_2] false; mk_TxOut 7 [] false] 1 3.

Lemma sample_tx_ok : tx_ok 0 sample_tx.
Proof.
  assert (blob_wf 32 (replicate 32 5)) by (split; [done|by apply Forall_replicate]).
  assert (∀ l : list Z, (length l <= 9)%nat → Z.of_nat (length l) <= MAX_SIZE) as Hl
    by (intros; unfold MAX_SIZE; lia).
  split_and!; [done| | | |done|done].
  - split; [done|]. apply Forall_cons_2; [|constructor]. split_and!; [|apply Hl; simpl; lia|done|done]. by split_and!.
  - split; [done|]. repeat apply Forall_cons_2; [| |constructor]; (split_and!; [done|apply Hl; simpl; lia|done]).
  - apply Forall_cons_2; [|constructor]. split; [done|].
    repeat apply Forall_cons_2; [apply Hl; simpl; lia|apply Hl; simpl; lia|constructor].
Qed.

Lemma tx_roundtrip_witness :
  unser_tx tx_default (nd_of_buffer (ser_tx 0 sample_tx) 0) =
    Done (tx_view 0 sample_tx, nd_advance (length (ser_tx 0 sample_tx)) (nd_of_buffer (ser_tx 0 sample_tx) 0)) ∧
  tx_view 0 sample_tx = sample_tx.
Proof.
  split; [|reflexivity]. apply (tx_roundtrip 0 sample_tx _ []); [apply sample_tx_ok|reflexivity|].
  unfold avail. split_and!; vm_compute; congruence.
Defined.

(** The transaction hash commits to everything but the witnesses: two
    transactions that differ in witnesses only have the same [GetHash]; and once
    computed it is what every later call returns. *)
Theorem tx_GetHash_ignores_witness (t : NetMessageTransaction) :
  blob_IsNull (tx_hash t) = true →
  (tx_GetHash t).1 = (tx_GetHash (tx_strip t)).1 ∧
  (tx_GetHash (tx_GetHash t).2).1 = (tx_GetHash t).1.
Proof.
  intros Hn. unfold tx_GetHash. rewrite Hn. change (blob_IsNull (tx_hash (tx_strip t))) with (blob_IsNull (tx_hash t)).
  rewrite Hn. cbn [negb fst snd tx_hash]. split.
  - rewrite !ser_tx_no_witness. cbn [tx_strip tx_vin tx_vout tx_nVersion tx_nLockTime]. by rewrite ser_vec_strip.
  - destruct (blob_IsNull (SerializeHash_bytes _)); [|done]. cbn [negb fst]. by rewrite !ser_tx_no_witness.
Qed.

Lemma tx_GetHash_ignores_witness_witness : (tx_GetHash sample_tx).1 = (tx_GetHash (tx_strip sample_tx)).1.
Proof. exact (proj1 (tx_GetHash_ignores_witness sample_tx eq_refl)). Defined.

(** [GetValueOut] is the sum of the outputs exactly when each output and the
    sum are in [0, MAX_MONEY], and -1 otherwise; no partial sum overflows. *)
Theorem GetValueOut_correct (t : NetMessageTransaction) :
  GetValueOut t =
    if decide (Forall (λ o, MoneyRange (out_nValue o) = true) (tx_vout t) ∧ total_out (tx_vout t) <= MAX_MONEY)
    then total_out (tx_vout t) else -1.
Proof. unfold GetValueOut. by rewrite GetValueOut_loop_spec. Qed.

(** [GetWeight] passes its format flags as the stream type, so the stripped
    size is never computed: the weight is four times the full size, and for a
    transaction with witnesses it exceeds [3 * stripped size + full size]. *)
Theorem tx_GetWeight_counts_witness (t : NetMessageTransaction) :
  tx_GetWeight t = 4 * Z.of_nat (length (ser_tx 0 t)) ∧
  (HasWitness t = true →
   3 * Z.of_nat (length (ser_tx SERIALIZE_TRANSACTION_NO_WITNESS t)) + Z.of_nat (length (ser_tx 0 t)) < tx_GetWeight t).
Proof.
  assert (tx_GetWeight t = 4 * Z.of_nat (length (ser_tx 0 t))) as E
    by (unfold tx_GetWeight, tx_GetSerializeSize, WITNESS_SCALE_FACTOR; lia).
  split; [done|]. intros Hw. rewrite E.
  assert (length (ser_tx SERIALIZE_TRANSACTION_NO_WITNESS t) < length (ser_tx 0 t))%nat; [|lia].
  rewrite ser_tx_no_witness. unfold ser_tx. rewrite Hw. cbn [andb has_flag Z.land Z.eqb negb].
  change (ser_vec SERIALIZE_TRANSACTION_NO_WITNESS (tx_vin t)) with (ser_vec 0 (tx_vin t)).
  change (ser_vec SERIALIZE_TRANSACTION_NO_WITNESS (tx_vout t)) with (ser_vec 0 (tx_vout t)).
  change (negb (has_flag 0 SERIALIZE_TRANSACTION_NO_WITNESS)) with true. cbv iota.
  rewrite !length_app. cbn [length ser_writedata8 le_bytes]. lia.
Qed.

Lemma tx_GetWeight_counts_witness_witness :
  3 * Z.of_nat (length (ser_tx SERIALIZE_TRANSACTION_NO_WITNESS sample_tx)) + Z.of_nat (length (ser_tx 0 sample_tx))
    < tx_GetWeight sample_tx.
Proof. exact (proj2 (tx_GetWeight_counts_witness sample_tx) eq_refl). Defined.
