(* ===== verification/Interpreter.v ===== *)
(** * The script interpreter: [EvalScript] and [VerifyScript] of [script/interpreter.cpp]

    A stack machine over byte vectors.  A stack is the list of its elements, the
    top first, so [stacktop(-i)] is element [i - 1] and [push_back] is a cons.
    The script is read from a position [pc], the rest of the script.  What the
    C++ code does with [return set_error(..)], exceptions and assertions is the
    result type [ev]; [EvalScript] turns every exception into
    [SCRIPT_ERR_UNKNOWN_ERROR], as its [catch (...)] does.

    The [switch] is the table [switch_cases]: the case labels with the body
    behind them.  Signature checks go through [BaseSignatureChecker], a record of
    its three virtual functions. *)

From stdpp Require Import base list numbers decidable.
From S2P Require Import Prelude ArithUint256 Uint256 MdHash Sha256 Hash160 Script PubKey Tx.

Open Scope Z_scope.

Abbreviation valtype := (list Z).

(** ** Errors, flags, versions *)

Inductive ScriptError :=
  | SCRIPT_ERR_OK | SCRIPT_ERR_UNKNOWN_ERROR | SCRIPT_ERR_EVAL_FALSE | SCRIPT_ERR_OP_RETURN
  | SCRIPT_ERR_SCRIPT_SIZE | SCRIPT_ERR_PUSH_SIZE | SCRIPT_ERR_OP_COUNT | SCRIPT_ERR_STACK_SIZE
  | SCRIPT_ERR_SIG_COUNT | SCRIPT_ERR_PUBKEY_COUNT
  | SCRIPT_ERR_VERIFY | SCRIPT_ERR_EQUALVERIFY | SCRIPT_ERR_CHECKMULTISIGVERIFY
  | SCRIPT_ERR_CHECKSIGVERIFY | SCRIPT_ERR_NUMEQUALVERIFY
  | SCRIPT_ERR_BAD_OPCODE | SCRIPT_ERR_DISABLED_OPCODE | SCRIPT_ERR_INVALID_STACK_OPERATION
  | SCRIPT_ERR_INVALID_ALTSTACK_OPERATION | SCRIPT_ERR_UNBALANCED_CONDITIONAL
  | SCRIPT_ERR_NEGATIVE_LOCKTIME | SCRIPT_ERR_UNSATISFIED_LOCKTIME
  | SCRIPT_ERR_SIG_HASHTYPE | SCRIPT_ERR_SIG_DER | SCRIPT_ERR_MINIMALDATA | SCRIPT_ERR_SIG_PUSHONLY
  | SCRIPT_ERR_SIG_HIGH_S | SCRIPT_ERR_SIG_NULLDUMMY | SCRIPT_ERR_PUBKEYTYPE | SCRIPT_ERR_CLEANSTACK
  | SCRIPT_ERR_MINIMALIF | SCRIPT_ERR_SIG_NULLFAIL
  | SCRIPT_ERR_DISCOURAGE_UPGRADABLE_NOPS | SCRIPT_ERR_DISCOURAGE_UPGRADABLE_WITNESS_PROGRAM
  | SCRIPT_ERR_WITNESS_PROGRAM_WRONG_LENGTH | SCRIPT_ERR_WITNESS_PROGRAM_WITNESS_EMPTY
  | SCRIPT_ERR_WITNESS_PROGRAM_MISMATCH | SCRIPT_ERR_WITNESS_MALLEATED | SCRIPT_ERR_WITNESS_MALLEATED_P2SH
  | SCRIPT_ERR_WITNESS_UNEXPECTED | SCRIPT_ERR_WITNESS_PUBKEYTYPE
  | SCRIPT_ERR_OP_CODESEPARATOR | SCRIPT_ERR_SIG_FINDANDDELETE.

#[global] Instance ScriptError_eq_dec : EqDecision ScriptError.
Proof. solve_decision. Defined.

Definition SCRIPT_VERIFY_NONE : Z := 0.
Definition SCRIPT_VERIFY_P2SH : Z := Z.shiftl 1 0.
Definition SCRIPT_VERIFY_STRICTENC : Z := Z.shiftl 1 1.
Definition SCRIPT_VERIFY_DERSIG : Z := Z.shiftl 1 2.
Definition SCRIPT_VERIFY_LOW_S : Z := Z.shiftl 1 3.
Definition SCRIPT_VERIFY_NULLDUMMY : Z := Z.shiftl 1 4.
Definition SCRIPT_VERIFY_SIGPUSHONLY : Z := Z.shiftl 1 5.
Definition SCRIPT_VERIFY_MINIMALDATA : Z := Z.shiftl 1 6.
Definition SCRIPT_VERIFY_DISCOURAGE_UPGRADABLE_NOPS : Z := Z.shiftl 1 7.
Definition SCRIPT_VERIFY_CLEANSTACK : Z := Z.shiftl 1 8.
Definition SCRIPT_VERIFY_CHECKLOCKTIMEVERIFY : Z := Z.shiftl 1 9.
Definition SCRIPT_VERIFY_CHECKSEQUENCEVERIFY : Z := Z.shiftl 1 10.
Definition SCRIPT_VERIFY_WITNESS : Z := Z.shiftl 1 11.
Definition SCRIPT_VERIFY_DISCOURAGE_UPGRADABLE_WITNESS_PROGRAM : Z := Z.shiftl 1 12.
Definition SCRIPT_VERIFY_MINIMALIF : Z := Z.shiftl 1 13.
Definition SCRIPT_VERIFY_NULLFAIL : Z := Z.shiftl 1 14.
Definition SCRIPT_VERIFY_WITNESS_PUBKEYTYPE : Z := Z.shiftl 1 15.
Definition SCRIPT_VERIFY_CONST_SCRIPTCODE : Z := Z.shiftl 1 16.

Inductive SigVersion := BASE | WITNESS_V0.
Definition SigVersion_eqb (a b : SigVersion) : bool :=
  match a, b with BASE, BASE | WITNESS_V0, WITNESS_V0 => true | _, _ => false end.

Definition WITNESS_V0_SCRIPTHASH_SIZE : Z := 32.
Definition WITNESS_V0_KEYHASH_SIZE : Z := 20.

(** ** Outcomes *)

(** The exceptions inside [EvalScript]; [Diverges] stands for a loop that has
    used up the bound of the model. *)
Inductive exn := PopEmpty | OutOfRange | NumError (e : scriptnum_error) | Diverges.

Inductive ev (A : Type) :=
  | Ret (a : A)               (* goes on *)
  | Fail (e : ScriptError)    (* return set_error(serror, e) *)
  | Throw (x : exn)
  | AssertFails.
Arguments Ret {A} a.
Arguments Fail {A} e.
Arguments Throw {A} x.
Arguments AssertFails {A}.

Definition ev_bind {A B} (x : ev A) (f : A → ev B) : ev B :=
  match x with
  | Ret a => f a
  | Fail e => Fail e
  | Throw x => Throw x
  | AssertFails => AssertFails
  end.

Declare Scope ev_scope.
Delimit Scope ev_scope with ev.
Notation "'let%' x := e 'in' k" := (ev_bind e (λ x, k))
  (at level 200, x name, e at level 100, k at level 200, right associativity) : ev_scope.
Notation "'let%' ' p := e 'in' k" := (ev_bind e (λ p, k))
  (at level 200, p strict pattern, e at level 100, k at level 200, right associativity) : ev_scope.
Notation "e ;;% k" := (ev_bind e (λ _ : unit, k)) (at level 100, k at level 200, right associativity) : ev_scope.
Open Scope ev_scope.

(** [if (!c) return set_error(serror, e);] *)
Definition require (c : bool) (e : ScriptError) : ev unit := if c then Ret tt else Fail e.
Definition assert_ev (c : bool) : ev unit := if c then Ret tt else AssertFails.
Definition of_assert {A} (x : option A) : ev A := match x with Some a => Ret a | None => AssertFails end.

(** [BaseSignatureChecker]. *)
Record BaseSignatureChecker := mk_checker {
  CheckSig : valtype → valtype → CScript → SigVersion → ev bool;
  CheckLockTime : Z → ev bool;
  CheckSequence : Z → ev bool;
}.

(** The class itself answers no. *)
Definition base_checker : BaseSignatureChecker :=
  mk_checker (λ _ _ _ _, Ret false) (λ _, Ret false) (λ _, Ret false).

(** ** Values and stacks *)

(** A nonzero byte makes it true, unless that is the sign of a negative zero. *)
Fixpoint CastToBool (vch : valtype) : bool :=
  match vch with
  | [] => false
  | b :: vch' =>
      if negb (b =? 0) then
        match vch' with [] => negb (b =? 0x80) | _ => true end
      else CastToBool vch'
  end.

Definition vchFalse : valtype := [].
Definition vchTrue : valtype := [1].
Definition of_bool (b : bool) : valtype := if b then vchTrue else vchFalse.

Definition size {A} (l : list A) : Z := Z.of_nat (length l).

(** [stack.at(stack.size() + (-i))]. *)
Definition stacktop {A} (i : Z) (stack : list A) : ev A :=
  if i <? 1 then Throw OutOfRange
  else match stack !! Z.to_nat (i - 1) with Some v => Ret v | None => Throw OutOfRange end.

Definition popstack {A} (stack : list A) : ev (list A) :=
  match stack with [] => Throw PopEmpty | _ :: s => Ret s end.

(** [swap(stacktop(-i), stacktop(-j))]. *)
Definition stackswap (i j : Z) (stack : list valtype) : ev (list valtype) :=
  let% x := stacktop i stack in
  let% y := stacktop j stack in
  Ret (<[Z.to_nat (j - 1) := x]> (<[Z.to_nat (i - 1) := y]> stack)).

(** [CScriptNum(vch, fRequireMinimal, nMaxNumSize)] throws [scriptnum_error]. *)
Definition script_num (vch : valtype) (fRequireMinimal : bool) (nMaxNumSize : Z) : ev Z :=
  match CScriptNum vch fRequireMinimal nMaxNumSize with
  | inl e => Throw (NumError e)
  | inr n => Ret n
  end.

(** ** Encoding checks *)

Section eval.
Context `{Secp256k1}.

Definition IsLowDERSignature (vchSig : valtype) : ev unit :=
  require (IsValidSignatureEncoding vchSig) SCRIPT_ERR_SIG_DER ;;%
  require (CheckLowS (take (length vchSig - 1) vchSig)) SCRIPT_ERR_SIG_HIGH_S.

Definition CheckSignatureEncoding (vchSig : valtype) (flags : Z) : ev unit :=
  if size vchSig =? 0 then Ret tt
  else if has_flag flags (Z.lor (Z.lor SCRIPT_VERIFY_DERSIG SCRIPT_VERIFY_LOW_S) SCRIPT_VERIFY_STRICTENC) &&
          negb (IsValidSignatureEncoding vchSig) then Fail SCRIPT_ERR_SIG_DER
  else
    (if has_flag flags SCRIPT_VERIFY_LOW_S then IsLowDERSignature vchSig else Ret tt) ;;%
    (if has_flag flags SCRIPT_VERIFY_STRICTENC
     then require (IsDefinedHashtypeSignature vchSig) SCRIPT_ERR_SIG_HASHTYPE else Ret tt).

Definition CheckPubKeyEncoding (vchPubKey : valtype) (flags : Z) (sigversion : SigVersion) : ev unit :=
  (if has_flag flags SCRIPT_VERIFY_STRICTENC
   then require (IsCompressedOrUncompressedPubKey vchPubKey) SCRIPT_ERR_PUBKEYTYPE else Ret tt) ;;%
  (if has_flag flags SCRIPT_VERIFY_WITNESS_PUBKEYTYPE && SigVersion_eqb sigversion WITNESS_V0
   then require (IsCompressedPubKey vchPubKey) SCRIPT_ERR_WITNESS_PUBKEYTYPE else Ret tt).

Definition CheckMinimalPush (data : valtype) (opcode : Z) : ev bool :=
  assert_ev ((0 <=? opcode) && (opcode <=? OP_PUSHDATA4)) ;;%
  Ret (if size data =? 0 then opcode =? OP_0
       else if (size data =? 1) && (byte_at data 0 >=? 1) && (byte_at data 0 <=? 16) then false
       else if (size data =? 1) && (byte_at data 0 =? 0x81) then false
       else if size data <=? 75 then opcode =? size data
       else if size data <=? 255 then opcode =? OP_PUSHDATA1
       else if size data <=? 65535 then opcode =? OP_PUSHDATA2
       else true).

(** ** [FindAndDelete] *)

(** [end - pc >= b.size() && std::equal(b.begin(), b.end(), pc)], for [b] not
    empty: each round takes at least a byte off [pc]. *)
Fixpoint skip_matches (fuel : nat) (b pc : CScript) (nFound : Z) : CScript * Z :=
  match fuel with
  | O => (pc, nFound)
  | S n => if bool_decide (take (length b) pc = b) then skip_matches n b (drop (length b) pc) (nFound + 1)
           else (pc, nFound)
  end.

(** The [do .. while] loop; [pc2] is where the copied part ends. *)
Fixpoint FindAndDelete_loop (fuel : nat) (b pc pc2 result : CScript) (nFound : Z) : CScript * CScript * Z :=
  match fuel with
  | O => (result, pc2, nFound)
  | S n =>
      let result := result ++ take (length pc2 - length pc) pc2 in
      let '(pc, nFound) := skip_matches (length pc) b pc nFound in
      let pc2 := pc in
      match GetScriptOp pc with
      | Some (_, _, pc) => FindAndDelete_loop n b pc pc2 result nFound
      | None => (result, pc2, nFound)
      end
  end.

Definition FindAndDelete (script b : CScript) : Z * CScript :=
  match b with
  | [] => (0, script)
  | _ =>
      let '(result, pc2, nFound) := FindAndDelete_loop (S (length script)) b script script [] 0 in
      if nFound >? 0 then (nFound, result ++ pc2) else (nFound, script)
  end.

(** ** The machine *)

(** What an [EvalScript] call is given and does not change. *)
Record eval_ctx := mk_ctx {
  c_flags : Z;
  c_checker : BaseSignatureChecker;
  c_sigversion : SigVersion;
}.

(** The locals of [EvalScript]. *)
Record machine := mk_machine {
  stack : list valtype;
  altstack : list valtype;
  vfExec : list bool;           (* the back first *)
  pbegincodehash : CScript;
  nOpCount : Z;
}.

Definition with_stack (s : list valtype) (m : machine) : machine :=
  mk_machine s (altstack m) (vfExec m) (pbegincodehash m) (nOpCount m).
Definition with_altstack (a : list valtype) (m : machine) : machine :=
  mk_machine (stack m) a (vfExec m) (pbegincodehash m) (nOpCount m).
Definition with_vfExec (v : list bool) (m : machine) : machine :=
  mk_machine (stack m) (altstack m) v (pbegincodehash m) (nOpCount m).
Definition with_pbegincodehash (p : CScript) (m : machine) : machine :=
  mk_machine (stack m) (altstack m) (vfExec m) p (nOpCount m).
Definition with_nOpCount (n : Z) (m : machine) : machine :=
  mk_machine (stack m) (altstack m) (vfExec m) (pbegincodehash m) n.

Definition push (v : valtype) (m : machine) : machine := with_stack (v :: stack m) m.
Definition pop (m : machine) : ev machine := let% s := popstack (stack m) in Ret (with_stack s m).

(** [if (stack.size() < n) return set_error(serror, SCRIPT_ERR_INVALID_STACK_OPERATION);] *)
Definition need (n : Z) (m : machine) : ev unit :=
  require (n <=? size (stack m)) SCRIPT_ERR_INVALID_STACK_OPERATION.

Definition fRequireMinimal (c : eval_ctx) : bool := has_flag (c_flags c) SCRIPT_VERIFY_MINIMALDATA.
Definition num_at (c : eval_ctx) (i : Z) (m : machine) : ev Z :=
  let% v := stacktop i (stack m) in script_num v (fRequireMinimal c) nDefaultMaxNumSize.

(** The body of a case: the opcode that selected it, [fExec], the rest of the
    script after the operation, the machine. *)
Definition handler : Type := eval_ctx → Z → bool → CScript → machine → ev machine.

(** *** Push value, control *)

Definition op_number : handler := λ c opcode fExec pc m,
  Ret (push (num_serialize (opcode - (OP_1 - 1))) m).

Definition op_nop : handler := λ c opcode fExec pc m, Ret m.

Definition op_checklocktimeverify : handler := λ c opcode fExec pc m,
  if negb (has_flag (c_flags c) SCRIPT_VERIFY_CHECKLOCKTIMEVERIFY) then Ret m
  else
    need 1 m ;;%
    let% v := stacktop 1 (stack m) in
    let% nLockTime := script_num v (fRequireMinimal c) 5 in
    require (negb (nLockTime <? 0)) SCRIPT_ERR_NEGATIVE_LOCKTIME ;;%
    let% ok := CheckLockTime (c_checker c) nLockTime in
    require ok SCRIPT_ERR_UNSATISFIED_LOCKTIME ;;%
    Ret m.

Definition SEQUENCE_LOCKTIME_DISABLE_FLAG : Z := Z.shiftl 1 31.
Definition SEQUENCE_LOCKTIME_TYPE_FLAG : Z := Z.shiftl 1 22.
Definition SEQUENCE_LOCKTIME_MASK : Z := 0x0000ffff.

Definition op_checksequenceverify : handler := λ c opcode fExec pc m,
  if negb (has_flag (c_flags c) SCRIPT_VERIFY_CHECKSEQUENCEVERIFY) then Ret m
  else
    need 1 m ;;%
    let% v := stacktop 1 (stack m) in
    let% nSequence := script_num v (fRequireMinimal c) 5 in
    require (negb (nSequence <? 0)) SCRIPT_ERR_NEGATIVE_LOCKTIME ;;%
    if negb (num_and nSequence SEQUENCE_LOCKTIME_DISABLE_FLAG =? 0) then Ret m
    else
      let% ok := CheckSequence (c_checker c) nSequence in
      require ok SCRIPT_ERR_UNSATISFIED_LOCKTIME ;;%
      Ret m.

Definition op_upgradable_nop : handler := λ c opcode fExec pc m,
  require (negb (has_flag (c_flags c) SCRIPT_VERIFY_DISCOURAGE_UPGRADABLE_NOPS)) SCRIPT_ERR_DISCOURAGE_UPGRADABLE_NOPS ;;%
  Ret m.

Definition op_if : handler := λ c opcode fExec pc m,
  let% '(fValue, m) :=
    (if fExec then
       require (1 <=? size (stack m)) SCRIPT_ERR_UNBALANCED_CONDITIONAL ;;%
       let% vch := stacktop 1 (stack m) in
       (if SigVersion_eqb (c_sigversion c) WITNESS_V0 && has_flag (c_flags c) SCRIPT_VERIFY_MINIMALIF then
          require (negb (size vch >? 1)) SCRIPT_ERR_MINIMALIF ;;%
          require (negb ((size vch =? 1) && negb (byte_at vch 0 =? 1))) SCRIPT_ERR_MINIMALIF
        else Ret tt) ;;%
       let fValue := CastToBool vch in
       let fValue := if opcode =? OP_NOTIF then negb fValue else fValue in
       let% m := pop m in
       Ret (fValue, m)
     else Ret (false, m)) in
  Ret (with_vfExec (fValue :: vfExec m) m).

Definition op_else : handler := λ c opcode fExec pc m,
  match vfExec m with
  | [] => Fail SCRIPT_ERR_UNBALANCED_CONDITIONAL
  | back :: v => Ret (with_vfExec (negb back :: v) m)
  end.

Definition op_endif : handler := λ c opcode fExec pc m,
  match vfExec m with
  | [] => Fail SCRIPT_ERR_UNBALANCED_CONDITIONAL
  | _ :: v => Ret (with_vfExec v m)
  end.

Definition op_verify : handler := λ c opcode fExec pc m,
  need 1 m ;;%
  let% v := stacktop 1 (stack m) in
  if CastToBool v then pop m else Fail SCRIPT_ERR_VERIFY.

Definition op_return : handler := λ c opcode fExec pc m, Fail SCRIPT_ERR_OP_RETURN.

(** *** Stack operations *)

Definition op_toaltstack : handler := λ c opcode fExec pc m,
  need 1 m ;;%
  let% v := stacktop 1 (stack m) in
  pop (with_altstack (v :: altstack m) m).

Definition op_fromaltstack : handler := λ c opcode fExec pc m,
  require (1 <=? size (altstack m)) SCRIPT_ERR_INVALID_ALTSTACK_OPERATION ;;%
  let% v := stacktop 1 (altstack m) in
  let m := push v m in
  let% a := popstack (altstack m) in
  Ret (with_altstack a m).

Definition op_2drop : handler := λ c opcode fExec pc m,
  need 2 m ;;% let% m := pop m in pop m.

Definition op_2dup : handler := λ c opcode fExec pc m,
  need 2 m ;;%
  let% vch1 := stacktop 2 (stack m) in
  let% vch2 := stacktop 1 (stack m) in
  Ret (push vch2 (push vch1 m)).

Definition op_3dup : handler := λ c opcode fExec pc m,
  need 3 m ;;%
  let% vch1 := stacktop 3 (stack m) in
  let% vch2 := stacktop 2 (stack m) in
  let% vch3 := stacktop 1 (stack m) in
  Ret (push vch3 (push vch2 (push vch1 m))).

Definition op_2over : handler := λ c opcode fExec pc m,
  need 4 m ;;%
  let% vch1 := stacktop 4 (stack m) in
  let% vch2 := stacktop 3 (stack m) in
  Ret (push vch2 (push vch1 m)).

(** [stack.erase(stack.end() - 6, stack.end() - 4)]. *)
Definition op_2rot : handler := λ c opcode fExec pc m,
  need 6 m ;;%
  let% vch1 := stacktop 6 (stack m) in
  let% vch2 := stacktop 5 (stack m) in
  let m := with_stack (take 4 (stack m) ++ drop 6 (stack m)) m in
  Ret (push vch2 (push vch1 m)).

Definition op_2swap : handler := λ c opcode fExec pc m,
  need 4 m ;;%
  let% s := stackswap 4 2 (stack m) in
  let% s := stackswap 3 1 s in
  Ret (with_stack s m).

Definition op_ifdup : handler := λ c opcode fExec pc m,
  need 1 m ;;%
  let% vch := stacktop 1 (stack m) in
  Ret (if CastToBool vch then push vch m else m).

Definition op_depth : handler := λ c opcode fExec pc m,
  Ret (push (num_serialize (size (stack m))) m).

Definition op_drop : handler := λ c opcode fExec pc m, need 1 m ;;% pop m.

Definition op_dup : handler := λ c opcode fExec pc m,
  need 1 m ;;% let% vch := stacktop 1 (stack m) in Ret (push vch m).

(** [stack.erase(stack.end() - 2)]. *)
Definition op_nip : handler := λ c opcode fExec pc m,
  need 2 m ;;% Ret (with_stack (delete 1%nat (stack m)) m).

Definition op_over : handler := λ c opcode fExec pc m,
  need 2 m ;;% let% vch := stacktop 2 (stack m) in Ret (push vch m).

Definition op_pick_roll : handler := λ c opcode fExec pc m,
  need 2 m ;;%
  let% n := num_at c 1 m in
  let n := getint n in
  let% m := pop m in
  require (negb ((n <? 0) || (n >=? size (stack m)))) SCRIPT_ERR_INVALID_STACK_OPERATION ;;%
  let% vch := stacktop (n + 1) (stack m) in
  let m := if opcode =? OP_ROLL then with_stack (delete (Z.to_nat n) (stack m)) m else m in
  Ret (push vch m).

Definition op_rot : handler := λ c opcode fExec pc m,
  need 3 m ;;%
  let% s := stackswap 3 2 (stack m) in
  let% s := stackswap 2 1 s in
  Ret (with_stack s m).

Definition op_swap : handler := λ c opcode fExec pc m,
  need 2 m ;;% let% s := stackswap 2 1 (stack m) in Ret (with_stack s m).

(** [stack.insert(stack.end() - 2, vch)]. *)
Definition op_tuck : handler := λ c opcode fExec pc m,
  need 2 m ;;%
  let% vch := stacktop 1 (stack m) in
  Ret (with_stack (take 2 (stack m) ++ vch :: drop 2 (stack m)) m).

Definition op_size : handler := λ c opcode fExec pc m,
  need 1 m ;;%
  let% vch := stacktop 1 (stack m) in
  Ret (push (num_serialize (size vch)) m).

(** *** Comparison and arithmetic *)

Definition op_equal : handler := λ c opcode fExec pc m,
  need 2 m ;;%
  let% vch1 := stacktop 2 (stack m) in
  let% vch2 := stacktop 1 (stack m) in
  let fEqual := bool_decide (vch1 = vch2) in
  let% m := pop m in
  let% m := pop m in
  let m := push (of_bool fEqual) m in
  if opcode =? OP_EQUALVERIFY then
    if fEqual then pop m else Fail SCRIPT_ERR_EQUALVERIFY
  else Ret m.

Definition bn_of_bool (b : bool) : Z := if b then 1 else 0.

(** The inner [switch] of the unary operations. *)
Definition unary_op (opcode bn : Z) : ev Z :=
  if opcode =? OP_1ADD then of_assert (num_add_assign bn 1)
  else if opcode =? OP_1SUB then of_assert (num_sub_assign bn 1)
  else if opcode =? OP_NEGATE then of_assert (num_neg bn)
  else if opcode =? OP_ABS then (if bn <? 0 then of_assert (num_neg bn) else Ret bn)
  else if opcode =? OP_NOT then Ret (bn_of_bool (bn =? 0))
  else if opcode =? OP_0NOTEQUAL then Ret (bn_of_bool (negb (bn =? 0)))
  else AssertFails.

Definition op_unary : handler := λ c opcode fExec pc m,
  need 1 m ;;%
  let% bn := num_at c 1 m in
  let% bn := unary_op opcode bn in
  let% m := pop m in
  Ret (push (num_serialize bn) m).

Definition binary_op (opcode bn1 bn2 : Z) : ev Z :=
  if opcode =? OP_ADD then Ret (num_add bn1 bn2)
  else if opcode =? OP_SUB then Ret (num_sub bn1 bn2)
  else if opcode =? OP_BOOLAND then Ret (bn_of_bool (negb (bn1 =? 0) && negb (bn2 =? 0)))
  else if opcode =? OP_BOOLOR then Ret (bn_of_bool (negb (bn1 =? 0) || negb (bn2 =? 0)))
  else if opcode =? OP_NUMEQUAL then Ret (bn_of_bool (bn1 =? bn2))
  else if opcode =? OP_NUMEQUALVERIFY then Ret (bn_of_bool (bn1 =? bn2))
  else if opcode =? OP_NUMNOTEQUAL then Ret (bn_of_bool (negb (bn1 =? bn2)))
  else if opcode =? OP_LESSTHAN then Ret (bn_of_bool (bn1 <? bn2))
  else if opcode =? OP_GREATERTHAN then Ret (bn_of_bool (bn1 >? bn2))
  else if opcode =? OP_LESSTHANOREQUAL then Ret (bn_of_bool (bn1 <=? bn2))
  else if opcode =? OP_GREATERTHANOREQUAL then Ret (bn_of_bool (bn1 >=? bn2))
  else if opcode =? OP_MIN then Ret (if bn1 <? bn2 then bn1 else bn2)
  else if opcode =? OP_MAX then Ret (if bn1 >? bn2 then bn1 else bn2)
  else AssertFails.

Definition op_binary : handler := λ c opcode fExec pc m,
  need 2 m ;;%
  let% bn1 := num_at c 2 m in
  let% bn2 := num_at c 1 m in
  let% bn := binary_op opcode bn1 bn2 in
  let% m := pop m in
  let% m := pop m in
  let m := push (num_serialize bn) m in
  if opcode =? OP_NUMEQUALVERIFY then
    let% v := stacktop 1 (stack m) in
    if CastToBool v then pop m else Fail SCRIPT_ERR_NUMEQUALVERIFY
  else Ret m.

Definition op_within : handler := λ c opcode fExec pc m,
  need 3 m ;;%
  let% bn1 := num_at c 3 m in
  let% bn2 := num_at c 2 m in
  let% bn3 := num_at c 1 m in
  let fValue := (bn2 <=? bn1) && (bn1 <? bn3) in
  let% m := pop m in
  let% m := pop m in
  let% m := pop m in
  Ret (push (of_bool fValue) m).

(** *** Crypto *)

Definition hash_op (opcode : Z) (vch : valtype) : valtype :=
  if opcode =? OP_RIPEMD160 then ripemd160_of vch
  else if opcode =? OP_SHA1 then sha1_of vch
  else if opcode =? OP_SHA256 then Hash1 vch
  else if opcode =? OP_HASH160 then Hash160 vch
  else if opcode =? OP_HASH256 then Hash256 vch
  else replicate 32 0.

Definition op_hash : handler := λ c opcode fExec pc m,
  need 1 m ;;%
  let% vch := stacktop 1 (stack m) in
  let% m := pop m in
  Ret (push (hash_op opcode vch) m).

Definition op_codeseparator : handler := λ c opcode fExec pc m, Ret (with_pbegincodehash pc m).

(** [FindAndDelete(scriptCode, CScript() << vchSig)] before segwit. *)
Definition drop_signature (c : eval_ctx) (vchSig : valtype) (scriptCode : CScript) : ev CScript :=
  match c_sigversion c with
  | WITNESS_V0 => Ret scriptCode
  | BASE =>
      let '(found, scriptCode) := FindAndDelete scriptCode (push_data vchSig []) in
      if (found >? 0) && has_flag (c_flags c) SCRIPT_VERIFY_CONST_SCRIPTCODE
      then Fail SCRIPT_ERR_SIG_FINDANDDELETE else Ret scriptCode
  end.

Definition op_checksig : handler := λ c opcode fExec pc m,
  need 2 m ;;%
  let% vchSig := stacktop 2 (stack m) in
  let% vchPubKey := stacktop 1 (stack m) in
  let% scriptCode := drop_signature c vchSig (pbegincodehash m) in
  CheckSignatureEncoding vchSig (c_flags c) ;;%
  CheckPubKeyEncoding vchPubKey (c_flags c) (c_sigversion c) ;;%
  let% fSuccess := CheckSig (c_checker c) vchSig vchPubKey scriptCode (c_sigversion c) in
  require (negb (negb fSuccess && has_flag (c_flags c) SCRIPT_VERIFY_NULLFAIL && negb (size vchSig =? 0))) SCRIPT_ERR_SIG_NULLFAIL ;;%
  let% m := pop m in
  let% m := pop m in
  let m := push (of_bool fSuccess) m in
  if opcode =? OP_CHECKSIGVERIFY then
    if fSuccess then pop m else Fail SCRIPT_ERR_CHECKSIGVERIFY
  else Ret m.

(** [for (int k = 0; k < nSigsCount; k++)] over [stacktop(-isig - k)]. *)
Fixpoint drop_signatures (c : eval_ctx) (n : nat) (isig : Z) (stk : list valtype) (scriptCode : CScript) : ev CScript :=
  match n with
  | O => Ret scriptCode
  | S n' =>
      let% vchSig := stacktop isig stk in
      let% scriptCode := drop_signature c vchSig scriptCode in
      drop_signatures c n' (isig + 1) stk scriptCode
  end.

(** [while (fSuccess && nSigsCount > 0)]; every round uses up a key, so
    [nKeysCount + 1] rounds are enough. *)
Fixpoint multisig_loop (fuel : nat) (c : eval_ctx) (stk : list valtype) (scriptCode : CScript)
    (isig nSigsCount ikey nKeysCount : Z) : ev bool :=
  match fuel with
  | O => Throw Diverges
  | S n =>
      if nSigsCount >? 0 then
        let% vchSig := stacktop isig stk in
        let% vchPubKey := stacktop ikey stk in
        CheckSignatureEncoding vchSig (c_flags c) ;;%
        CheckPubKeyEncoding vchPubKey (c_flags c) (c_sigversion c) ;;%
        let% fOk := CheckSig (c_checker c) vchSig vchPubKey scriptCode (c_sigversion c) in
        let '(isig, nSigsCount) := if fOk then (isig + 1, nSigsCount - 1) else (isig, nSigsCount) in
        let ikey := ikey + 1 in
        let nKeysCount := nKeysCount - 1 in
        if nSigsCount >? nKeysCount then Ret false
        else multisig_loop n c stk scriptCode isig nSigsCount ikey nKeysCount
      else Ret true
  end.

(** [while (i-- > 1)]: [i - 1] arguments are popped. *)
Fixpoint multisig_cleanup (n : nat) (c : eval_ctx) (fSuccess : bool) (ikey2 : Z) (m : machine) : ev machine :=
  match n with
  | O => Ret m
  | S n' =>
      (if negb fSuccess && has_flag (c_flags c) SCRIPT_VERIFY_NULLFAIL && (ikey2 =? 0) then
         let% v := stacktop 1 (stack m) in require (size v =? 0) SCRIPT_ERR_SIG_NULLFAIL
       else Ret tt) ;;%
      let ikey2 := if ikey2 >? 0 then ikey2 - 1 else ikey2 in
      let% m := pop m in
      multisig_cleanup n' c fSuccess ikey2 m
  end.

Definition op_checkmultisig : handler := λ c opcode fExec pc m,
  let i := 1 in
  need i m ;;%
  let% n := num_at c i m in
  let nKeysCount := getint n in
  require (negb ((nKeysCount <? 0) || (nKeysCount >? MAX_PUBKEYS_PER_MULTISIG))) SCRIPT_ERR_PUBKEY_COUNT ;;%
  let m := with_nOpCount (nOpCount m + nKeysCount) m in
  require (negb (nOpCount m >? MAX_OPS_PER_SCRIPT)) SCRIPT_ERR_OP_COUNT ;;%
  let i := i + 1 in
  let ikey := i in
  let ikey2 := nKeysCount + 2 in
  let i := i + nKeysCount in
  need i m ;;%
  let% n := num_at c i m in
  let nSigsCount := getint n in
  require (negb ((nSigsCount <? 0) || (nSigsCount >? nKeysCount))) SCRIPT_ERR_SIG_COUNT ;;%
  let i := i + 1 in
  let isig := i in
  let i := i + nSigsCount in
  need i m ;;%
  let% scriptCode := drop_signatures c (Z.to_nat nSigsCount) isig (stack m) (pbegincodehash m) in
  let% fSuccess := multisig_loop (S (Z.to_nat nKeysCount)) c (stack m) scriptCode isig nSigsCount ikey nKeysCount in
  let% m := multisig_cleanup (Z.to_nat (i - 1)) c fSuccess ikey2 m in
  need 1 m ;;%
  let% dummy := stacktop 1 (stack m) in
  require (negb (has_flag (c_flags c) SCRIPT_VERIFY_NULLDUMMY && negb (size dummy =? 0))) SCRIPT_ERR_SIG_NULLDUMMY ;;%
  let% m := pop m in
  let m := push (of_bool fSuccess) m in
  if opcode =? OP_CHECKMULTISIGVERIFY then
    if fSuccess then pop m else Fail SCRIPT_ERR_CHECKMULTISIGVERIFY
  else Ret m.

(** *** The switch *)

Definition op_bad : handler := λ c opcode fExec pc m, Fail SCRIPT_ERR_BAD_OPCODE.

Definition switch_cases : list (list Z * handler) := [
  ([OP_1NEGATE; OP_1; OP_2; OP_3; OP_4; OP_5; OP_6; OP_7; OP_8; OP_9; OP_10; OP_11; OP_12; OP_13; OP_14; OP_15; OP_16], op_number);
  ([OP_NOP], op_nop);
  ([OP_CHECKLOCKTIMEVERIFY], op_checklocktimeverify);
  ([OP_CHECKSEQUENCEVERIFY], op_checksequenceverify);
  ([OP_NOP1; OP_NOP4; OP_NOP5; OP_NOP6; OP_NOP7; OP_NOP8; OP_NOP9; OP_NOP10], op_upgradable_nop);
  ([OP_IF; OP_NOTIF], op_if);
  ([OP_ELSE], op_else);
  ([OP_ENDIF], op_endif);
  ([OP_VERIFY], op_verify);
  ([OP_RETURN], op_return);
  ([OP_TOALTSTACK], op_toaltstack);
  ([OP_FROMALTSTACK], op_fromaltstack);
  ([OP_2DROP], op_2drop);
  ([OP_2DUP], op_2dup);
  ([OP_3DUP], op_3dup);
  ([OP_2OVER], op_2over);
  ([OP_2ROT], op_2rot);
  ([OP_2SWAP], op_2swap);
  ([OP_IFDUP], op_ifdup);
  ([OP_DEPTH], op_depth);
  ([OP_DROP], op_drop);
  ([OP_DUP], op_dup);
  ([OP_NIP], op_nip);
  ([OP_OVER], op_over);
  ([OP_PICK; OP_ROLL], op_pick_roll);
  ([OP_ROT], op_rot);
  ([OP_SWAP], op_swap);
  ([OP_TUCK], op_tuck);
  ([OP_SIZE], op_size);
  ([OP_EQUAL; OP_EQUALVERIFY], op_equal);
  ([OP_1ADD; OP_1SUB; OP_NEGATE; OP_ABS; OP_NOT; OP_0NOTEQUAL], op_unary);
  ([OP_ADD; OP_SUB; OP_BOOLAND; OP_BOOLOR; OP_NUMEQUAL; OP_NUMEQUALVERIFY; OP_NUMNOTEQUAL; OP_LESSTHAN;
    OP_GREATERTHAN; OP_LESSTHANOREQUAL; OP_GREATERTHANOREQUAL; OP_MIN; OP_MAX], op_binary);
  ([OP_WITHIN], op_within);
  ([OP_RIPEMD160; OP_SHA1; OP_SHA256; OP_HASH160; OP_HASH256], op_hash);
  ([OP_CODESEPARATOR], op_codeseparator);
  ([OP_CHECKSIG; OP_CHECKSIGVERIFY], op_checksig);
  ([OP_CHECKMULTISIG; OP_CHECKMULTISIGVERIFY], op_checkmultisig)].

Definition switch (opcode : Z) : handler :=
  match List.find (λ e, existsb (Z.eqb opcode) e.1) switch_cases with
  | Some e => e.2
  | None => op_bad
  end.

(** ** [EvalScript] *)

Definition disabled_opcodes : list Z :=
  [OP_CAT; OP_SUBSTR; OP_LEFT; OP_RIGHT; OP_INVERT; OP_AND; OP_OR; OP_XOR; OP_2MUL; OP_2DIV; OP_MUL; OP_DIV;
   OP_MOD; OP_LSHIFT; OP_RSHIFT].

(** One round of [while (pc < pend)]: the machine and the position after it. *)
Definition eval_round (c : eval_ctx) (pc : CScript) (m : machine) : ev (machine * CScript) :=
  let fExec := forallb id (vfExec m) in
  match GetScriptOp pc with
  | None => Fail SCRIPT_ERR_BAD_OPCODE
  | Some (opcode, vchPushValue, pc) =>
      require (negb (size vchPushValue >? MAX_SCRIPT_ELEMENT_SIZE)) SCRIPT_ERR_PUSH_SIZE ;;%
      let m := if opcode >? OP_16 then with_nOpCount (nOpCount m + 1) m else m in
      require (negb ((opcode >? OP_16) && (nOpCount m >? MAX_OPS_PER_SCRIPT))) SCRIPT_ERR_OP_COUNT ;;%
      require (negb (existsb (Z.eqb opcode) disabled_opcodes)) SCRIPT_ERR_DISABLED_OPCODE ;;%
      require (negb ((opcode =? OP_CODESEPARATOR) && SigVersion_eqb (c_sigversion c) BASE &&
                     has_flag (c_flags c) SCRIPT_VERIFY_CONST_SCRIPTCODE)) SCRIPT_ERR_OP_CODESEPARATOR ;;%
      let% m :=
        (if fExec && (0 <=? opcode) && (opcode <=? OP_PUSHDATA4) then
           (if fRequireMinimal c then
              let% ok := CheckMinimalPush vchPushValue opcode in require ok SCRIPT_ERR_MINIMALDATA
            else Ret tt) ;;%
           Ret (push vchPushValue m)
         else if fExec || ((OP_IF <=? opcode) && (opcode <=? OP_ENDIF)) then switch opcode c opcode fExec pc m
         else Ret m) in
      require (negb (size (stack m) + size (altstack m) >? MAX_STACK_SIZE)) SCRIPT_ERR_STACK_SIZE ;;%
      Ret (m, pc)
  end.

(** Every round reads at least a byte, so the length of the script bounds the
    loop. *)
Fixpoint eval_loop (fuel : nat) (c : eval_ctx) (pc : CScript) (m : machine) : ev machine :=
  match pc, fuel with
  | [], _ => Ret m
  | _, O => Throw Diverges
  | _, S n => let% '(m, pc) := eval_round c pc m in eval_loop n c pc m
  end.

(** What a call returns: the final stack, or [false] with [serror]; an assertion
    ends the program. *)
Inductive eval_result := EvalOk (s : list valtype) | EvalErr (e : ScriptError) | EvalAbort.

(** [try { .. } catch (...) { return set_error(serror, SCRIPT_ERR_UNKNOWN_ERROR); }]. *)
Definition catch_all (r : ev (list valtype)) : eval_result :=
  match r with
  | Ret s => EvalOk s
  | Fail e => EvalErr e
  | Throw _ => EvalErr SCRIPT_ERR_UNKNOWN_ERROR
  | AssertFails => EvalAbort
  end.

Definition eval_body (c : eval_ctx) (stk : list valtype) (script : CScript) : ev (list valtype) :=
  require (negb (size script >? MAX_SCRIPT_SIZE)) SCRIPT_ERR_SCRIPT_SIZE ;;%
  let% m := eval_loop (length script) c script (mk_machine stk [] [] script 0) in
  require (bool_decide (vfExec m = [])) SCRIPT_ERR_UNBALANCED_CONDITIONAL ;;%
  Ret (stack m).

Definition EvalScript (stk : list valtype) (script : CScript) (flags : Z) (checker : BaseSignatureChecker)
    (sigversion : SigVersion) : eval_result :=
  catch_all (eval_body (mk_ctx flags checker sigversion) stk script).

(** ** [VerifyWitnessProgram], [VerifyScript] *)

(** The result of a function that returns [bool] and sets [serror]: [Ret tt] is
    [true]. *)
Definition run_EvalScript (stk : list valtype) (script : CScript) (flags : Z) (checker : BaseSignatureChecker)
    (sigversion : SigVersion) : ev (list valtype) :=
  match EvalScript stk script flags checker sigversion with
  | EvalOk s => Ret s
  | EvalErr e => Fail e
  | EvalAbort => AssertFails
  end.

(** [stack.back()] interpreted as a boolean; [None]: the stack is empty. *)
Definition back_true (stk : list valtype) : bool :=
  match stk with [] => false | v :: _ => CastToBool v end.

(** [stack.resize(1)] keeps the bottom element. *)
Definition resize1 (stk : list valtype) : list valtype :=
  match list.last stk with Some v => [v] | None => [[]] end.

Definition p2pkh_script (keyhash : list Z) : CScript :=
  push_data keyhash [OP_DUP; OP_HASH160] ++ [OP_EQUALVERIFY; OP_CHECKSIG].

(** The witness keeps its elements bottom first.  The script and the stack that a
    program of version 0 is evaluated with. *)
Definition witness_v0_setup (witness : list valtype) (program : list Z) : ev (CScript * list valtype) :=
  if size program =? WITNESS_V0_SCRIPTHASH_SIZE then
    match list.last witness with
    | None => Fail SCRIPT_ERR_WITNESS_PROGRAM_WITNESS_EMPTY
    | Some script =>
        require (bool_decide (Hash1 script = program)) SCRIPT_ERR_WITNESS_PROGRAM_MISMATCH ;;%
        Ret (script, reverse (take (length witness - 1) witness))
    end
  else if size program =? WITNESS_V0_KEYHASH_SIZE then
    require (size witness =? 2) SCRIPT_ERR_WITNESS_PROGRAM_MISMATCH ;;%
    Ret (p2pkh_script program, reverse witness)
  else Fail SCRIPT_ERR_WITNESS_PROGRAM_WRONG_LENGTH.

Definition VerifyWitnessProgram (witness : list valtype) (witversion : Z) (program : list Z) (flags : Z)
    (checker : BaseSignatureChecker) : ev unit :=
  if witversion =? 0 then
    let% '(scriptPubKey, stk) := witness_v0_setup witness program in
    require (forallb (λ v, negb (size v >? MAX_SCRIPT_ELEMENT_SIZE)) stk) SCRIPT_ERR_PUSH_SIZE ;;%
    let% stk := run_EvalScript stk scriptPubKey flags checker WITNESS_V0 in
    require (size stk =? 1) SCRIPT_ERR_CLEANSTACK ;;%
    require (back_true stk) SCRIPT_ERR_EVAL_FALSE
  else if has_flag flags SCRIPT_VERIFY_DISCOURAGE_UPGRADABLE_WITNESS_PROGRAM
  then Fail SCRIPT_ERR_DISCOURAGE_UPGRADABLE_WITNESS_PROGRAM
  else Ret tt.

(** The witness program in a script, when witness verification is on: the
    condition on the scriptSig, the program itself, and the resized stack. *)
Definition verify_witness (script : CScript) (scriptSig expected : CScript) (err : ScriptError)
    (witness : list valtype) (flags : Z) (checker : BaseSignatureChecker) (stk : list valtype) (hadWitness : bool)
    : ev (bool * list valtype) :=
  if has_flag flags SCRIPT_VERIFY_WITNESS then
    match IsWitnessProgram script with
    | Some (witnessversion, witnessprogram) =>
        require (bool_decide (scriptSig = expected)) err ;;%
        VerifyWitnessProgram witness witnessversion witnessprogram flags checker ;;%
        Ret (true, resize1 stk)
    | None => Ret (hadWitness, stk)
    end
  else Ret (hadWitness, stk).

(** The part for pay-to-script-hash outputs: the serialized script on top of the
    stack that the scriptSig left is run on the rest. *)
Definition verify_p2sh (scriptSig : CScript) (witness : list valtype) (flags : Z) (checker : BaseSignatureChecker)
    (stackCopy : list valtype) (hadWitness : bool) : ev (bool * list valtype) :=
  require (IsPushOnly scriptSig) SCRIPT_ERR_SIG_PUSHONLY ;;%
  match stackCopy with
  | [] => AssertFails
  | pubKey2 :: stk =>
      let% stk := run_EvalScript stk pubKey2 flags checker BASE in
      require (back_true stk) SCRIPT_ERR_EVAL_FALSE ;;%
      verify_witness pubKey2 scriptSig (push_data pubKey2 []) SCRIPT_ERR_WITNESS_MALLEATED_P2SH
        witness flags checker stk hadWitness
  end.

(** [witness] is empty when the pointer is null. *)
Definition VerifyScript (scriptSig scriptPubKey : CScript) (witness : list valtype) (flags : Z)
    (checker : BaseSignatureChecker) : ev unit :=
  require (negb (has_flag flags SCRIPT_VERIFY_SIGPUSHONLY && negb (IsPushOnly scriptSig))) SCRIPT_ERR_SIG_PUSHONLY ;;%
  let% stk := run_EvalScript [] scriptSig flags checker BASE in
  let stackCopy := if has_flag flags SCRIPT_VERIFY_P2SH then stk else [] in
  let% stk := run_EvalScript stk scriptPubKey flags checker BASE in
  require (back_true stk) SCRIPT_ERR_EVAL_FALSE ;;%
  let% '(hadWitness, stk) :=
    verify_witness scriptPubKey scriptSig [] SCRIPT_ERR_WITNESS_MALLEATED witness flags checker stk false in
  let% '(hadWitness, stk) :=
    (if has_flag flags SCRIPT_VERIFY_P2SH && IsPayToScriptHash scriptPubKey
     then verify_p2sh scriptSig witness flags checker stackCopy hadWitness
     else Ret (hadWitness, stk)) in
  (if has_flag flags SCRIPT_VERIFY_CLEANSTACK then
     assert_ev (has_flag flags SCRIPT_VERIFY_P2SH) ;;%
     assert_ev (has_flag flags SCRIPT_VERIFY_WITNESS) ;;%
     require (size stk =? 1) SCRIPT_ERR_CLEANSTACK
   else Ret tt) ;;%
  (if has_flag flags SCRIPT_VERIFY_WITNESS then
     assert_ev (has_flag flags SCRIPT_VERIFY_P2SH) ;;%
     require (negb (negb hadWitness && negb (bool_decide (witness = [])))) SCRIPT_ERR_WITNESS_UNEXPECTED
   else Ret tt).

(** ** Counting signature operations of witnesses *)

Definition WitnessSigOps (witversion : Z) (witprogram : list Z) (witness : list valtype) : Z :=
  if witversion =? 0 then
    if size witprogram =? WITNESS_V0_KEYHASH_SIZE then 1
    else if (size witprogram =? WITNESS_V0_SCRIPTHASH_SIZE) && (size witness >? 0) then
      match list.last witness with
      | Some subscript => GetSigOpCount subscript true
      | None => 0
      end
    else 0
  else 0.

(** The last value that a push-only script pushes. *)
Definition last_pushed (scriptSig : CScript) : list Z :=
  default [] (last_push (length scriptSig) [] scriptSig).

Definition CountWitnessSigOps (scriptSig scriptPubKey : CScript) (witness : list valtype) (flags : Z) : ev Z :=
  if negb (has_flag flags SCRIPT_VERIFY_WITNESS) then Ret 0
  else
    assert_ev (has_flag flags SCRIPT_VERIFY_P2SH) ;;%
    Ret (match IsWitnessProgram scriptPubKey with
         | Some (witnessversion, witnessprogram) => WitnessSigOps witnessversion witnessprogram witness
         | None =>
             if IsPayToScriptHash scriptPubKey && IsPushOnly scriptSig then
               match IsWitnessProgram (last_pushed scriptSig) with
               | Some (witnessversion, witnessprogram) => WitnessSigOps witnessversion witnessprogram witness
               | None => 0
               end
             else 0
         end).

(** ** Reasoning about the switch *)

(** A property of every case body, under its labels, and of the default. *)
Lemma switch_ind (P : Z → handler → Prop) opcode :
  Forall (λ e, opcode ∈ e.1 → P opcode e.2) switch_cases → P opcode op_bad → P opcode (switch opcode).
Proof.
  intros Hall Hbad. unfold switch. destruct (List.find _ _) as [e|] eqn:E; [|done].
  apply find_some in E as [E Hl]. rewrite List.Forall_forall in Hall. apply (Hall e E).
  apply existsb_exists in Hl as (x & Hx & ->%Z.eqb_eq). by apply list_elem_of_In.
Qed.
End eval.

(** The cases of a property of the switch, one per body. *)
Ltac switch_cases_tac := unfold switch_cases; repeat (apply Forall_cons_2; [cbn [fst snd]; intros ?|]); [..|apply Forall_nil_2].
