(* ===== verification/SigHash.v ===== *)
(** * Signature hashes and the transaction signature checker: [script/interpreter.cpp], [script/sigcache.cpp]

    [SignatureHash] is the hash that a signature commits to: for the original
    format the modified copy of the transaction that
    [CTransactionSignatureSerializer] writes, for witness version 0 the digest of
    BIP 143.  [transaction_checker] is [GenericTransactionSignatureChecker], which
    the interpreter asks for signatures and lock times; the caching variant that
    [CheckTransaction] uses has its cache commented out and adds nothing. *)

From stdpp Require Import base list numbers decidable.
From S2P Require Import Prelude ArithUint256 Uint256 Serialize MdHash Sha256 Hash160 Script PubKey Tx Interpreter.

Open Scope Z_scope.
Open Scope ev_scope.

(** ** The original signature hash *)

(** Where [GetScriptOp] leaves [pc] when it returns [false]: behind the opcode and
    the length bytes that it could read. *)
Definition GetScriptOp_stop (pc : CScript) : CScript :=
  match pc with
  | [] => []
  | opcode :: pc =>
      if opcode <=? OP_PUSHDATA4 then
        match operand_size opcode pc with
        | None => pc
        | Some (_, pc) => pc
        end
      else pc
  end.

(** The loops over [scriptCode]: the number of separators, and the pieces between
    them; [itBegin] is the start of the current piece. *)
Fixpoint count_separators (fuel : nat) (it : CScript) (n : Z) : Z :=
  match fuel with
  | O => n
  | S fuel' =>
      match GetScriptOp it with
      | None => n
      | Some (opcode, _, it) => count_separators fuel' it (if opcode =? OP_CODESEPARATOR then n + 1 else n)
      end
  end.

(** [s.write(&itBegin[0], it - itBegin - 1)] leaves the separator out. *)
Fixpoint write_pieces (fuel : nat) (itBegin it : CScript) : list Z :=
  match fuel with
  | O => []
  | S fuel' =>
      match GetScriptOp it with
      | None =>
          match itBegin with
          | [] => []
          | _ => take (length itBegin - length (GetScriptOp_stop it)) itBegin
          end
      | Some (opcode, _, it) =>
          if opcode =? OP_CODESEPARATOR
          then take (length itBegin - length it - 1) itBegin ++ write_pieces fuel' it it
          else write_pieces fuel' itBegin it
      end
  end.

Definition SerializeScriptCode (scriptCode : CScript) : list Z :=
  let nCodeSeparators := count_separators (S (length scriptCode)) scriptCode 0 in
  WriteCompactSize (wrap64 (size scriptCode - wrap32 nCodeSeparators)) ++
  write_pieces (S (length scriptCode)) scriptCode scriptCode.

Section serializer.
Context (txTo : NetMessageTransaction) (scriptCode : CScript) (nIn : nat) (nHashType : Z).

Definition fAnyoneCanPay : bool := has_flag nHashType SIGHASH_ANYONECANPAY.
Definition fHashSingle : bool := Z.land nHashType 0x1f =? SIGHASH_SINGLE.
Definition fHashNone : bool := Z.land nHashType 0x1f =? SIGHASH_NONE.

Definition txin (n : nat) : TxIn := default TxIn_default (tx_vin txTo !! n).
Definition txout (n : nat) : TxOut := default TxOut_null (tx_vout txTo !! n).

Definition SerializeInput (nInput : nat) : list Z :=
  let nInput := if fAnyoneCanPay then nIn else nInput in
  ser_OutPoint 0 (in_previousOutput (txin nInput)) ++
  (if negb (nInput =? nIn)%nat then serialize_bytes [] else SerializeScriptCode scriptCode) ++
  (if negb (nInput =? nIn)%nat && (fHashSingle || fHashNone) then ser_int 4 0
   else ser_int 4 (in_sequence (txin nInput))).

Definition SerializeOutput (nOutput : nat) : list Z :=
  if fHashSingle && negb (nOutput =? nIn)%nat then ser_TxOut 0 TxOut_null
  else ser_TxOut 0 (txout nOutput).

Definition sighash_Serialize : list Z :=
  let nInputs := if fAnyoneCanPay then 1%nat else length (tx_vin txTo) in
  let nOutputs := if fHashNone then 0%nat else if fHashSingle then (nIn + 1)%nat else length (tx_vout txTo) in
  ser_int 4 (tx_nVersion txTo) ++
  WriteCompactSize (Z.of_nat nInputs) ++ (seq 0 nInputs ≫= SerializeInput) ++
  WriteCompactSize (Z.of_nat nOutputs) ++ (seq 0 nOutputs ≫= SerializeOutput) ++
  ser_int 4 (tx_nLockTime txTo).
End serializer.

(** ** [PrecomputedTransactionData] *)

Definition GetPrevoutHash (txTo : NetMessageTransaction) : blob :=
  Hash256 (tx_vin txTo ≫= λ i, ser_OutPoint 0 (in_previousOutput i)).
Definition GetSequenceHash (txTo : NetMessageTransaction) : blob :=
  Hash256 (tx_vin txTo ≫= λ i, ser_int 4 (in_sequence i)).
Definition GetOutputsHash (txTo : NetMessageTransaction) : blob :=
  Hash256 (tx_vout txTo ≫= ser_TxOut 0).

Record PrecomputedTransactionData := mk_txdata {
  td_hashPrevouts : blob;
  td_hashSequence : blob;
  td_hashOutputs : blob;
  td_ready : bool;
}.

Definition precompute (txTo : NetMessageTransaction) : PrecomputedTransactionData :=
  if HasWitness txTo
  then mk_txdata (GetPrevoutHash txTo) (GetSequenceHash txTo) (GetOutputsHash txTo) true
  else mk_txdata (blob_null 32) (blob_null 32) (blob_null 32) false.

(** ** [SignatureHash] *)

Definition uint256_one : blob := 1 :: replicate 31 0.

(** The bytes that the witness digest hashes. *)
Definition sighash_witness_v0 (scriptCode : CScript) (txTo : NetMessageTransaction) (nIn : nat) (nHashType amount : Z)
    (cache : option PrecomputedTransactionData) : list Z :=
  let cached (get : PrecomputedTransactionData → blob) (compute : blob) :=
    match cache with
    | Some td => if td_ready td then get td else compute
    | None => compute
    end in
  let anyone := has_flag nHashType SIGHASH_ANYONECANPAY in
  let single := Z.land nHashType 0x1f =? SIGHASH_SINGLE in
  let none := Z.land nHashType 0x1f =? SIGHASH_NONE in
  let hashPrevouts := if negb anyone then cached td_hashPrevouts (GetPrevoutHash txTo) else blob_null 32 in
  let hashSequence :=
    if negb anyone && negb single && negb none then cached td_hashSequence (GetSequenceHash txTo) else blob_null 32 in
  let hashOutputs :=
    if negb single && negb none then cached td_hashOutputs (GetOutputsHash txTo)
    else if single && (nIn <? length (tx_vout txTo))%nat then Hash256 (ser_TxOut 0 (txout txTo nIn))
    else blob_null 32 in
  ser_int 4 (tx_nVersion txTo) ++ hashPrevouts ++ hashSequence ++
  ser_OutPoint 0 (in_previousOutput (txin txTo nIn)) ++ serialize_bytes scriptCode ++ ser_int 8 amount ++
  ser_int 4 (in_sequence (txin txTo nIn)) ++ hashOutputs ++ ser_int 4 (tx_nLockTime txTo) ++ ser_int 4 nHashType.

Definition SignatureHash (scriptCode : CScript) (txTo : NetMessageTransaction) (nIn : nat) (nHashType amount : Z)
    (sigversion : SigVersion) (cache : option PrecomputedTransactionData) : ev blob :=
  assert_ev (nIn <? length (tx_vin txTo))%nat ;;%
  Ret (match sigversion with
       | WITNESS_V0 => Hash256 (sighash_witness_v0 scriptCode txTo nIn nHashType amount cache)
       | BASE =>
           if (Z.land nHashType 0x1f =? SIGHASH_SINGLE) && (length (tx_vout txTo) <=? nIn)%nat then uint256_one
           else Hash256 (sighash_Serialize txTo scriptCode nIn nHashType ++ ser_int 4 nHashType)
       end).

(** ** [GenericTransactionSignatureChecker] *)

Section checker.
Context `{Secp256k1} (txTo : NetMessageTransaction) (nIn : nat) (amount : Z) (txdata : option PrecomputedTransactionData).

Definition VerifySignature (vchSig pubkey : list Z) (sighash : blob) : bool := CPubKey_Verify pubkey sighash vchSig.

Definition tx_CheckSig (vchSigIn vchPubKey : list Z) (scriptCode : CScript) (sigversion : SigVersion) : ev bool :=
  let pubkey := CPubKey_new vchPubKey in
  if negb (CPubKey_IsValid pubkey) then Ret false
  else
    match list.last vchSigIn with
    | None => Ret false
    | Some nHashType =>
        let vchSig := take (length vchSigIn - 1) vchSigIn in
        let% sighash := SignatureHash scriptCode txTo nIn nHashType amount sigversion txdata in
        Ret (VerifySignature vchSig pubkey sighash)
    end.

(** The comparisons take the unsigned [_nLockTime] as an [int64_t]. *)
Definition tx_CheckLockTime (nLockTime : Z) : ev bool :=
  if negb (((tx_nLockTime txTo <? LOCKTIME_THRESHOLD) && (nLockTime <? LOCKTIME_THRESHOLD)) ||
           ((tx_nLockTime txTo >=? LOCKTIME_THRESHOLD) && (nLockTime >=? LOCKTIME_THRESHOLD))) then Ret false
  else if nLockTime >? tx_nLockTime txTo then Ret false
  else
    match tx_vin txTo !! nIn with
    | None => Throw OutOfRange
    | Some i => Ret (negb (SEQUENCE_FINAL =? in_sequence i))
    end.

Definition tx_CheckSequence (nSequence : Z) : ev bool :=
  match tx_vin txTo !! nIn with
  | None => Throw OutOfRange
  | Some i =>
      let txToSequence := in_sequence i in
      if wrap32 (tx_nVersion txTo) <? 2 then Ret false
      else if has_flag txToSequence SEQUENCE_LOCKTIME_DISABLE_FLAG then Ret false
      else
        let nLockTimeMask := Z.lor SEQUENCE_LOCKTIME_TYPE_FLAG SEQUENCE_LOCKTIME_MASK in
        let txToSequenceMasked := Z.land txToSequence nLockTimeMask in
        let nSequenceMasked := num_and nSequence nLockTimeMask in
        if negb (((txToSequenceMasked <? SEQUENCE_LOCKTIME_TYPE_FLAG) && (nSequenceMasked <? SEQUENCE_LOCKTIME_TYPE_FLAG)) ||
                 ((txToSequenceMasked >=? SEQUENCE_LOCKTIME_TYPE_FLAG) && (nSequenceMasked >=? SEQUENCE_LOCKTIME_TYPE_FLAG)))
        then Ret false
        else Ret (negb (nSequenceMasked >? txToSequenceMasked))
  end.

Definition transaction_checker : BaseSignatureChecker := mk_checker tx_CheckSig tx_CheckLockTime tx_CheckSequence.
End checker.

(** [VerifyScript(scriptSig, scriptPubKey, witness, flags, CachingTransactionSignatureChecker(&tx, txInI, nValue, false,
    txData), &error)], as [CheckTransaction] calls it. *)
Definition verify_input `{Secp256k1} (scriptSig scriptPubKey : CScript) (witness : list (list Z)) (flags : Z)
    (tx : NetMessageTransaction) (txInI : nat) (nValue : Z) : bool :=
  match VerifyScript scriptSig scriptPubKey witness flags
          (transaction_checker tx txInI nValue (Some (precompute tx))) with
  | Ret _ => true
  | _ => false
  end.

(** ** The original hash, as the hash of a modified transaction

    Before [CTransactionSignatureSerializer] the hash was computed from a copy of
    the transaction: the scripts of the other inputs emptied, the script code
    without its separators in place of the signed input's, outputs and sequence
    numbers blanked as the hash type says.  The serializer writes that copy
    without making it. *)

(** The operations of a script, the separators left out; what cannot be read as an
    operation is kept. *)
Fixpoint without_separators (fuel : nat) (s : CScript) : CScript :=
  match fuel with
  | O => []
  | S n =>
      match GetScriptOp s with
      | None => s
      | Some (opcode, _, rest) =>
          (if opcode =? OP_CODESEPARATOR then [] else take (length s - length rest) s) ++ without_separators n rest
      end
  end.
Definition remove_separators (s : CScript) : CScript := without_separators (S (length s)) s.

(** Every operation of the script can be read. *)
Fixpoint parses_n (fuel : nat) (s : CScript) : bool :=
  match fuel with
  | O => bool_decide (s = [])
  | S n => match GetScriptOp s with None => bool_decide (s = []) | Some (_, _, rest) => parses_n n rest end
  end.
Definition script_parses (s : CScript) : bool := parses_n (S (length s)) s.

(** What is left of the script where the reading of its operations stops. *)
Fixpoint unread_n (fuel : nat) (s : CScript) : CScript :=
  match fuel with
  | O => []
  | S n => match GetScriptOp s with None => GetScriptOp_stop s | Some (_, _, rest) => unread_n n rest end
  end.
Definition unread (s : CScript) : CScript := unread_n (S (length s)) s.

Lemma GetScriptOp_split s opcode v rest :
  GetScriptOp s = Some (opcode, v, rest) → ∃ pre, s = pre ++ rest ∧ (opcode = OP_CODESEPARATOR → pre = [OP_CODESEPARATOR]).
Proof.
  destruct s as [|op s]; [done|]. cbn [GetScriptOp]. destruct (Z.leb_spec op OP_PUSHDATA4) as [Hle|_].
  - destruct (operand_size op s) as [[n s1]|] eqn:E; [|done]. destruct (_ <? _); [done|]. intros [= <- <- <-].
    assert (∃ k, s1 = drop k s) as [k ->].
    { unfold operand_size in E. repeat case_match; simplify_eq; by (exists 0%nat + exists 1%nat + exists 2%nat + exists 4%nat). }
    exists (op :: take (k + Z.to_nat n) s). rewrite drop_drop. cbn [app]. rewrite take_drop. split; [done|].
    intros ->. unfold OP_CODESEPARATOR, OP_PUSHDATA4 in Hle. lia.
  - intros [= <- <- <-]. exists [op]. split; [done|]. by intros ->.
Qed.

Lemma take_app_sub {A} (l k : list A) : take (length (l ++ k) - length k) (l ++ k) = l.
Proof. rewrite length_app. replace (length l + length k - length k)%nat with (length l) by lia. apply take_app_length. Qed.

Lemma GetScriptOp_stop_suffix s : ∃ pre, s = pre ++ GetScriptOp_stop s.
Proof.
  destruct s as [|op s]; [by exists []|]. cbn [GetScriptOp_stop]. destruct (op <=? OP_PUSHDATA4); [|by exists [op]].
  destruct (operand_size op s) as [[n s1]|] eqn:E; [|by exists [op]].
  assert (∃ k, s1 = drop k s) as [k ->].
  { unfold operand_size in E. repeat case_match; simplify_eq; by (exists 0%nat + exists 1%nat + exists 2%nat + exists 4%nat). }
  exists (op :: take k s). cbn [app]. by rewrite take_drop.
Qed.

(** Whatever the script, the bytes written and the bytes not read are the script without
    its separators. *)
Lemma write_pieces_spec n pre it :
  (length it < n)%nat → write_pieces n (pre ++ it) it ++ unread_n n it = pre ++ without_separators n it.
Proof.
  revert pre it. induction n as [|n IH]; intros pre it Hn; [lia|].
  cbn [write_pieces without_separators unread_n].
  destruct (GetScriptOp it) as [[[opcode v] rest]|] eqn:E.
  - destruct (GetScriptOp_shorter _ _ _ _ E) as [Hl _]. destruct (GetScriptOp_split _ _ _ _ E) as (chunk & -> & Hsep).
    rewrite take_app_sub. rewrite length_app in Hn, Hl. destruct (Z.eqb_spec opcode OP_CODESEPARATOR) as [->|].
    + rewrite (Hsep eq_refl) in *. pose proof (IH [] rest ltac:(lia)) as HI. cbn [app] in HI. rewrite <- app_assoc, HI. cbn [app]. f_equal.
      replace (length (pre ++ OP_CODESEPARATOR :: rest) - length rest - 1)%nat with (length pre)
        by (rewrite length_app; cbn [length]; lia).
      by rewrite take_app_length.
    + rewrite app_assoc, IH by lia. by rewrite <- app_assoc.
  - destruct (GetScriptOp_stop_suffix it) as [k Hk]. destruct (pre ++ it) as [|x l] eqn:El.
    { apply app_eq_nil in El as [-> ->]. done. }
    rewrite <- El. clear El E. generalize dependent (GetScriptOp_stop it). intros st ->.
    rewrite app_assoc, take_app_sub. by rewrite <- app_assoc.
Qed.

Lemma count_separators_spec n it k :
  (length it < n)%nat →
  count_separators n it k = k + Z.of_nat (length it) - Z.of_nat (length (without_separators n it)).
Proof.
  revert it k. induction n as [|n IH]; intros it k Hn; [lia|].
  cbn [count_separators without_separators].
  destruct (GetScriptOp it) as [[[opcode v] rest]|] eqn:E; [|lia].
  destruct (GetScriptOp_shorter _ _ _ _ E) as [Hl _]. destruct (GetScriptOp_split _ _ _ _ E) as (chunk & -> & Hsep).
  rewrite take_app_sub, IH by (rewrite ?length_app in *; lia || done). rewrite !length_app. destruct (Z.eqb_spec opcode OP_CODESEPARATOR) as [->|].
  - rewrite (Hsep eq_refl) in *. cbn [app length]. lia.
  - lia.
Qed.

Lemma length_without_separators n it : (length (without_separators n it) <= length it)%nat.
Proof.
  revert it. induction n as [|n IH]; intros it; cbn [without_separators length]; [lia|].
  destruct (GetScriptOp it) as [[[opcode v] rest]|] eqn:E; [|lia].
  destruct (GetScriptOp_shorter _ _ _ _ E) as [Hl _]. rewrite length_app.
  specialize (IH rest). destruct (_ =? _); [cbn; lia|]. rewrite length_take. lia.
Qed.

Lemma unread_nil n it : (length it < n)%nat → parses_n n it = true → unread_n n it = [].
Proof.
  revert it. induction n as [|n IH]; intros it Hn; cbn [parses_n unread_n]; [lia|].
  destruct (GetScriptOp it) as [[[opcode v] rest]|] eqn:E.
  - destruct (GetScriptOp_shorter _ _ _ _ E) as [Hl _]. apply IH. lia.
  - by intros ->%bool_decide_eq_true.
Qed.

(** Whatever the script code, its compact size counts all of it but the separators,
    while the bytes written stop where its operations can no longer be read. *)
Theorem SerializeScriptCode_cut code : Z.of_nat (length code) < 2 ^ 32 →
  SerializeScriptCode code ++ unread code = serialize_bytes (remove_separators code).
Proof.
  intros Hl. unfold SerializeScriptCode, serialize_bytes, remove_separators, unread.
  rewrite count_separators_spec by lia.
  pose proof (write_pieces_spec (S (length code)) [] code ltac:(lia)) as Hw. cbn [app] in Hw. rewrite <- app_assoc, Hw. f_equal. f_equal.
  pose proof (length_without_separators (S (length code)) code) as Hle. unfold size.
  rewrite (wrap_id 32) by (unfold fits; lia). rewrite wrap_id by (unfold fits; lia). lia.
Qed.

(** A push of five bytes with one byte left: three bytes are announced, two are written. *)
Example truncated_script_code :
  SerializeScriptCode [OP_CHECKSIG; 5; 1] = [3; OP_CHECKSIG; 5] ∧ unread [OP_CHECKSIG; 5; 1] = [1].
Proof. vm_compute. split; reflexivity. Qed.

(** A script code that can be read is written without its separators. *)
Lemma SerializeScriptCode_spec code :
  script_parses code = true → Z.of_nat (length code) < 2 ^ 32 →
  SerializeScriptCode code = serialize_bytes (remove_separators code).
Proof.
  intros Hp Hl. rewrite <- SerializeScriptCode_cut by done. unfold unread.
  rewrite (unread_nil (S (length code)) code ltac:(lia) Hp). by rewrite app_nil_r.
Qed.

(** The modified copy. *)
Definition sighash_input (txTo : NetMessageTransaction) (code : CScript) (nIn : nat) (nHashType : Z) (n : nat) (i : TxIn) : TxIn :=
  mk_TxIn (in_previousOutput i)
    (if (n =? nIn)%nat then remove_separators code else [])
    (if negb (n =? nIn)%nat && (fHashSingle nHashType || fHashNone nHashType) then 0 else in_sequence i)
    [].

Definition sighash_tx (txTo : NetMessageTransaction) (code : CScript) (nIn : nat) (nHashType : Z) : NetMessageTransaction :=
  let vin := imap (sighash_input txTo code nIn nHashType) (tx_vin txTo) in
  mk_tx (tx_hash txTo) (tx_witnessHash txTo)
    (if fAnyoneCanPay nHashType then take 1 (drop nIn vin) else vin)
    (if fHashNone nHashType then []
     else if fHashSingle nHashType then replicate nIn TxOut_null ++ take 1 (drop nIn (tx_vout txTo))
     else tx_vout txTo)
    (tx_nVersion txTo) (tx_nLockTime txTo).

(** A loop over positions against the list that it stands for. *)
Lemma seq_bind_lookup {A B} (f : nat → list B) (g : A → list B) (l : list A) k :
  (∀ i x, l !! i = Some x → f (k + i)%nat = g x) → seq k (length l) ≫= f = l ≫= g.
Proof.
  revert k. induction l as [|x l IH]; intros k Hf; [done|]. cbn [length seq].
  change ((x :: l) ≫= g) with (g x ++ l ≫= g). change ((k :: seq (S k) (length l)) ≫= f) with (f k ++ seq (S k) (length l) ≫= f).
  f_equal; [by rewrite <- (Hf 0%nat x eq_refl), Nat.add_0_r|].
  apply IH. intros i y Hi. rewrite <- (Hf (S i) y Hi). f_equal. lia.
Qed.

Lemma take_drop_lookup {A} (l : list A) n x : l !! n = Some x → take 1 (drop n l) = [x].
Proof. intros Hx. rewrite (drop_S _ _ _ Hx). cbn [take]. by rewrite take_0. Qed.

Lemma seq_bind_ext {B} (f g : nat → list B) k n :
  (∀ i, (k <= i < k + n)%nat → f i = g i) → seq k n ≫= f = seq k n ≫= g.
Proof.
  revert k. induction n as [|n IH]; intros k Hf; [done|]. cbn [seq].
  change (f k ++ seq (S k) n ≫= f = g k ++ seq (S k) n ≫= g). rewrite Hf by lia. f_equal. apply IH. intros. apply Hf. lia.
Qed.

Lemma replicate_bind {A B} (g : A → list B) x n : replicate n x ≫= g = seq 0 n ≫= λ _, g x.
Proof.
  generalize 0%nat. induction n as [|n IH]; intros k; [done|]. cbn [replicate seq].
  change (g x ++ replicate n x ≫= g = g x ++ seq (S k) n ≫= λ _, g x). f_equal. apply IH.
Qed.

Section modified_copy.
Context (txTo : NetMessageTransaction) (code : CScript) (nIn : nat) (nHashType : Z).
Hypothesis Hparses : script_parses code = true.
Hypothesis Hlen : Z.of_nat (length code) < 2 ^ 32.

Lemma SerializeInput_spec n i :
  tx_vin txTo !! (if fAnyoneCanPay nHashType then nIn else n) = Some i →
  SerializeInput txTo code nIn nHashType n =
  ser_TxIn 0 (sighash_input txTo code nIn nHashType (if fAnyoneCanPay nHashType then nIn else n) i).
Proof.
  intros Hi. unfold SerializeInput, txin. rewrite Hi. cbn [default]. unfold ser_TxIn, sighash_input.
  cbn [in_previousOutput in_scriptSig in_sequence]. f_equal. f_equal.
  - destruct (_ =? nIn)%nat; [by apply SerializeScriptCode_spec|done].
  - by destruct (negb _ && _).
Qed.

Lemma sighash_inputs :
  (nIn < length (tx_vin txTo))%nat →
  let nInputs := if fAnyoneCanPay nHashType then 1%nat else length (tx_vin txTo) in
  length (tx_vin (sighash_tx txTo code nIn nHashType)) = nInputs ∧
  seq 0 nInputs ≫= SerializeInput txTo code nIn nHashType =
  tx_vin (sighash_tx txTo code nIn nHashType) ≫= ser_TxIn 0.
Proof.
  intros [i Hi]%lookup_lt_is_Some. cbn zeta. unfold sighash_tx. cbn [tx_vin].
  pose proof SerializeInput_spec as Hspec. destruct (fAnyoneCanPay nHashType).
  - rewrite (take_drop_lookup _ _ (sighash_input txTo code nIn nHashType nIn i)) by (by rewrite list_lookup_imap, Hi).
    split; [done|]. cbn [seq]. change (SerializeInput txTo code nIn nHashType 0 ++ [] =
      ser_TxIn 0 (sighash_input txTo code nIn nHashType nIn i) ++ []). by rewrite (Hspec 0%nat i Hi).
  - rewrite length_imap. split; [done|]. rewrite <- (length_imap (sighash_input txTo code nIn nHashType) (tx_vin txTo)).
    apply seq_bind_lookup. intros n x Hx. rewrite list_lookup_imap in Hx.
    apply fmap_Some in Hx as (j & Hj & ->). by apply Hspec.
Qed.

Lemma sighash_outputs :
  (fHashSingle nHashType = true → (nIn < length (tx_vout txTo))%nat) →
  let nOutputs := if fHashNone nHashType then 0%nat else if fHashSingle nHashType then (nIn + 1)%nat else length (tx_vout txTo) in
  length (tx_vout (sighash_tx txTo code nIn nHashType)) = nOutputs ∧
  seq 0 nOutputs ≫= SerializeOutput txTo nIn nHashType =
  tx_vout (sighash_tx txTo code nIn nHashType) ≫= ser_TxOut 0.
Proof.
  intros Hs. cbn zeta. unfold sighash_tx, SerializeOutput. cbn [tx_vout].
  destruct (fHashNone nHashType); [done|]. destruct (fHashSingle nHashType).
  - destruct (lookup_lt_is_Some_2 _ _ (Hs eq_refl)) as [o Ho]. rewrite (take_drop_lookup _ _ o Ho).
    rewrite length_app, length_replicate. split; [done|].
    rewrite seq_app, !bind_app, replicate_bind. f_equal.
    + apply seq_bind_ext. intros i Hi. by rewrite (proj2 (Nat.eqb_neq i nIn)) by lia.
    + cbn [seq Nat.add]. unfold mbind, list_bind. rewrite Nat.eqb_refl. cbn [negb andb]. unfold txout. by rewrite Ho.
  - split; [done|]. cbn [andb]. apply seq_bind_lookup. intros i o Ho. unfold txout. cbn [Nat.add]. by rewrite Ho.
Qed.

Lemma sighash_no_witness : HasWitness (sighash_tx txTo code nIn nHashType) = false.
Proof.
  unfold HasWitness. apply not_true_iff_false. intros (x & Hx%list_elem_of_In & Hw)%existsb_exists.
  assert (x ∈ imap (sighash_input txTo code nIn nHashType) (tx_vin txTo)) as Hin.
  { unfold sighash_tx in Hx. cbn [tx_vin] in Hx. destruct (fAnyoneCanPay nHashType); [|done].
    eapply sublist_subseteq; [|exact Hx]. etrans; [apply sublist_take|apply sublist_drop]. }
  apply elem_of_lookup_imap in Hin as (n & i & -> & _). done.
Qed.

Lemma sighash_of_copy amount cache :
  (nIn < length (tx_vin txTo))%nat →
  SignatureHash code txTo nIn nHashType amount BASE cache =
  Ret (if fHashSingle nHashType && (length (tx_vout txTo) <=? nIn)%nat then uint256_one
       else Hash256 (ser_tx 0 (sighash_tx txTo code nIn nHashType) ++ ser_int 4 nHashType)).
Proof.
  intros Hin. unfold SignatureHash. rewrite (proj2 (Nat.ltb_lt _ _) Hin). cbn [assert_ev ev_bind].
  fold (fHashSingle nHashType). destruct (fHashSingle nHashType && _) eqn:Es; [done|]. do 3 f_equal.
  unfold sighash_Serialize, ser_tx. rewrite sighash_no_witness. cbn [andb Z.land Z.eqb app].
  destruct (sighash_inputs Hin) as [Hli Hi]. rewrite Hi.
  destruct sighash_outputs as [Hlo Ho].
  { intros Hs. rewrite Hs in Es. cbn [andb] in Es. by apply Nat.leb_gt in Es. }
  rewrite Ho. unfold ser_vec, serialize_vector. rewrite Hli, Hlo. by rewrite <- ?app_assoc.
Qed.
End modified_copy.

(** C10. For a script code every operation of which can be read, shorter than 2^32 bytes, the hash of the original
    format is the double hash of the modified copy of the transaction followed by the hash type, for every hash type and
    every position of the signed input; [SIGHASH_SINGLE] without an output of the same position gives the constant one,
    and the cached hashes have no part in it.  (A script code that ends in a truncated push, which an earlier
    OP_CHECKSIG can hash, is written with the size of the whole but cut where it can no longer be read:
    [SerializeScriptCode_cut].) *)
Theorem sighash_is_modified_copy (txTo : NetMessageTransaction) (code : CScript) (nIn : nat) (nHashType amount : Z)
    (cache : option PrecomputedTransactionData) :
  script_parses code = true → Z.of_nat (length code) < 2 ^ 32 → (nIn < length (tx_vin txTo))%nat →
  SignatureHash code txTo nIn nHashType amount BASE cache =
  Ret (if fHashSingle nHashType && (length (tx_vout txTo) <=? nIn)%nat then uint256_one
       else Hash256 (ser_tx 0 (sighash_tx txTo code nIn nHashType) ++ ser_int 4 nHashType)).
Proof. intros. by apply sighash_of_copy. Qed.

(** Two inputs and two outputs, a script code with a separator. *)
Definition sample_signed : NetMessageTransaction :=
  mk_tx (blob_null 32) (blob_null 32)
    [TxIn_default; mk_TxIn (in_previousOutput TxIn_default) [OP_1] 5 []]
    [mk_TxOut 7 [OP_1] false; mk_TxOut 8 [OP_DUP] false] 1 0.
Definition sample_code : CScript := [OP_DUP; OP_CODESEPARATOR; 2; 171; 171; OP_CHECKSIG].

Lemma sighash_is_modified_copy_witness :
  remove_separators sample_code = [OP_DUP; 2; 171; 171; OP_CHECKSIG] ∧
  SignatureHash sample_code sample_signed 1 SIGHASH_SINGLE 0 BASE None =
  Ret (if fHashSingle SIGHASH_SINGLE && (length (tx_vout sample_signed) <=? 1)%nat then uint256_one
       else Hash256 (ser_tx 0 (sighash_tx sample_signed sample_code 1 SIGHASH_SINGLE) ++ ser_int 4 SIGHASH_SINGLE)).
Proof.
  split; [reflexivity|].
  exact (sighash_is_modified_copy sample_signed sample_code 1 SIGHASH_SINGLE 0 None eq_refl eq_refl ltac:(cbn; lia)).
Defined.
