(* ===== verification/SoftFork.v ===== *)
(** * Flags only restrict: the soft-fork property of the interpreter

    [interpreter.h] promises of the verification flags that "the set of
    acceptable scripts under flags (A | B) is a subset of the acceptable scripts
    under flag (A)".  [ev_le] orders outcomes by success; the interpreter under
    more flags is below the interpreter under fewer. *)

From stdpp Require Import base list numbers decidable.
From S2P Require Import Prelude ArithUint256 Uint256 MdHash Sha256 Hash160 Script PubKey Tx Interpreter.

Open Scope Z_scope.
Open Scope ev_scope.

(** [x] succeeds only where [y] does, with the same result. *)
Definition ev_le {A} (x y : ev A) : Prop := ∀ a, x = Ret a → y = Ret a.

#[global] Instance ev_le_preorder A : PreOrder (@ev_le A).
Proof. split; [by intros x a|]. intros x y z Hxy Hyz a Hx. by apply Hyz, Hxy. Qed.

#[global] Instance ev_bind_proper A B :
  Proper (ev_le ==> pointwise_relation A ev_le ==> @ev_le B) ev_bind.
Proof.
  intros x y Hxy f g Hfg b. destruct x as [a| | |]; cbn; [|done..]. rewrite (Hxy a eq_refl). apply Hfg.
Qed.

Lemma ev_le_bind {A B} (x y : ev A) (f g : A → ev B) :
  ev_le x y → (∀ a, ev_le (f a) (g a)) → ev_le (ev_bind x f) (ev_bind y g).
Proof. intros Hxy Hfg. by apply ev_bind_proper. Qed.

Lemma ev_le_require c d e : (c = true → d = true) → ev_le (require c e) (require d e).
Proof. intros Hcd a. unfold require. destruct c; [|done]. by rewrite Hcd. Qed.

Lemma ev_le_assert c d : (c = true → d = true) → ev_le (assert_ev c) (assert_ev d).
Proof. intros Hcd a. unfold assert_ev. destruct c; [|done]. by rewrite Hcd. Qed.

(** A check that is made under a flag: fewer flags, fewer checks. *)
Lemma ev_le_flag (p q : bool) x y :
  (q = true → p = true) → ev_le x y → ev_le (if p then x else Ret tt) (if q then y else Ret tt).
Proof.
  intros Hqp Hxy a. destruct q; [rewrite Hqp by done; apply Hxy|]. intros _. by destruct a.
Qed.

(** A check that guards an early return. *)
Lemma ev_le_fail {A} (p q : bool) e (x y : ev A) :
  (q = true → p = true) → ev_le x y → ev_le (if p then Fail e else x) (if q then Fail e else y).
Proof. intros Hqp Hxy a. destruct p; [done|]. destruct q; [by specialize (Hqp eq_refl)|apply Hxy]. Qed.

(** Every success of [x] gives [a]. *)
Definition ev_only {A} (x : ev A) (a : A) : Prop := ∀ b, x = Ret b → b = a.

Lemma ev_only_bind {A B} (x : ev A) (f : A → ev B) b : (∀ a, ev_only (f a) b) → ev_only (ev_bind x f) b.
Proof. intros Hf b'. destruct x as [a| | |]; cbn; [apply Hf|done..]. Qed.

(** An operation that is a no-op without its flag. *)
Lemma ev_le_nop {A} (p q : bool) x y (m : A) :
  (q = true → p = true) → ev_le x y → ev_only x m →
  ev_le (if negb p then Ret m else x) (if negb q then Ret m else y).
Proof.
  intros Hqp Hxy Hm a. destruct q; [rewrite Hqp by done; apply Hxy|]. destruct p; [|done].
  cbn. intros Ha. by rewrite (Hm a Ha).
Qed.

Lemma ev_bind_Ret {A B} (x : ev A) (f : A → ev B) b :
  ev_bind x f = Ret b → ∃ a, x = Ret a ∧ f a = Ret b.
Proof. destruct x as [a| | |]; cbn; [by eexists|done..]. Qed.

Lemma has_flag_sub f g fl : Z.land f g = f → has_flag f fl = true → has_flag g fl = true.
Proof.
  unfold has_flag. intros Hsub Hf. apply negb_true_iff, Z.eqb_neq. apply negb_true_iff, Z.eqb_neq in Hf.
  intros Hg. apply Hf. rewrite <- Hsub, <- Z.land_assoc, Hg. apply Z.land_0_r.
Qed.

Ltac ev_mono :=
  repeat first
    [ reflexivity
    | match goal with |- ev_le (ev_bind _ _) (ev_bind _ _) => apply ev_le_bind; [|intros ?] end
    | match goal with |- ev_le (match ?x with _ => _ end) (match ?x with _ => _ end) => destruct x end
    | match goal with |- ev_le (let '(_, _) := ?x in _) _ => destruct x end ].

Section flags.
Context `{Secp256k1} (f g : Z) (Hsub : Z.land f g = f).

Lemma flag_mono fl : has_flag f fl = true → has_flag g fl = true.
Proof. by apply has_flag_sub. Qed.

Lemma flag_anti fl : negb (has_flag g fl) = true → negb (has_flag f fl) = true.
Proof. intros Hg. apply negb_true_iff. apply negb_true_iff in Hg. destruct (has_flag f fl) eqn:E; [|done].
  apply flag_mono in E. congruence. Qed.

Lemma flag_mono_and fl b : has_flag f fl && b = true → has_flag g fl && b = true.
Proof. intros [Hf ->]%andb_prop. by rewrite flag_mono. Qed.

Lemma and_flag_mono fl b : b && has_flag f fl = true → b && has_flag g fl = true.
Proof. intros [-> Hf]%andb_prop. by rewrite flag_mono. Qed.

Lemma negb_mono (p q : bool) : (q = true → p = true) → negb p = true → negb q = true.
Proof. destruct p, q; naive_solver. Qed.

Lemma CheckSignatureEncoding_le vchSig :
  ev_le (CheckSignatureEncoding vchSig g) (CheckSignatureEncoding vchSig f).
Proof.
  unfold CheckSignatureEncoding. destruct (_ =? 0); [reflexivity|].
  apply ev_le_fail; [apply flag_mono_and|].
  apply ev_le_bind; [|intros _]; (apply ev_le_flag; [apply flag_mono|reflexivity]).
Qed.

Lemma CheckPubKeyEncoding_le vchPubKey sv :
  ev_le (CheckPubKeyEncoding vchPubKey g sv) (CheckPubKeyEncoding vchPubKey f sv).
Proof.
  apply ev_le_bind; [|intros _]; (apply ev_le_flag; [|reflexivity]); [apply flag_mono|apply flag_mono_and].
Qed.

Context (ck : BaseSignatureChecker) (sv : SigVersion).
Let cg := mk_ctx g ck sv.
Let cf := mk_ctx f ck sv.

Lemma script_num_le vch n : ev_le (script_num vch (fRequireMinimal cg) n) (script_num vch (fRequireMinimal cf) n).
Proof.
  unfold script_num, CScriptNum. destruct (_ >? _); [done|]. intros a.
  destruct (fRequireMinimal cf) eqn:E.
  - apply flag_mono in E. change (fRequireMinimal cg = true) in E. by rewrite E.
  - cbn [andb]. by destruct (_ && _).
Qed.

Lemma num_at_le i m : ev_le (num_at cg i m) (num_at cf i m).
Proof. unfold num_at. ev_mono. apply script_num_le. Qed.

Lemma drop_signature_le s code : ev_le (drop_signature cg s code) (drop_signature cf s code).
Proof.
  unfold drop_signature. cbn [c_sigversion c_flags cg cf]. destruct sv; [|reflexivity].
  destruct (FindAndDelete _ _). apply ev_le_fail; [apply and_flag_mono|reflexivity].
Qed.

Lemma drop_signatures_le n isig stk code : ev_le (drop_signatures cg n isig stk code) (drop_signatures cf n isig stk code).
Proof.
  revert isig code. induction n as [|n IH]; intros isig code; cbn [drop_signatures]; [reflexivity|].
  ev_mono; [apply drop_signature_le|apply IH].
Qed.

Lemma multisig_loop_le n stk code isig ns ikey nk :
  ev_le (multisig_loop n cg stk code isig ns ikey nk) (multisig_loop n cf stk code isig ns ikey nk).
Proof.
  revert isig ns ikey nk. induction n as [|n IH]; intros isig ns ikey nk; cbn [multisig_loop]; [reflexivity|].
  destruct (ns >? 0); [|reflexivity]. ev_mono; auto using CheckSignatureEncoding_le, CheckPubKeyEncoding_le.
Qed.

Lemma multisig_cleanup_le n ok ikey2 m : ev_le (multisig_cleanup n cg ok ikey2 m) (multisig_cleanup n cf ok ikey2 m).
Proof.
  revert ikey2 m. induction n as [|n IH]; intros ikey2 m; cbn [multisig_cleanup]; [reflexivity|].
  apply ev_le_bind; [|intros _; ev_mono; apply IH].
  apply ev_le_flag; [|reflexivity]. cbn [c_flags cg cf].
  intros [Hf ->]%andb_prop. by rewrite and_flag_mono.
Qed.

(** ** Handlers *)

Definition handler_le (h : handler) : Prop := ∀ opcode fExec pc m, ev_le (h cg opcode fExec pc m) (h cf opcode fExec pc m).

Lemma op_checklocktimeverify_le : handler_le op_checklocktimeverify.
Proof.
  intros opcode fExec pc m. apply ev_le_nop; [apply flag_mono| |].
  - ev_mono. apply script_num_le.
  - repeat (apply ev_only_bind; intros ?). by intros ? [=].
Qed.

Lemma op_checksequenceverify_le : handler_le op_checksequenceverify.
Proof.
  intros opcode fExec pc m. apply ev_le_nop; [apply flag_mono| |].
  - ev_mono. apply script_num_le.
  - repeat (apply ev_only_bind; intros ?). destruct (negb _); [by intros ? [=]|].
    repeat (apply ev_only_bind; intros ?). by intros ? [=].
Qed.

Lemma op_upgradable_nop_le : handler_le op_upgradable_nop.
Proof. intros opcode fExec pc m. unfold op_upgradable_nop. ev_mono. apply ev_le_require, flag_anti. Qed.

Lemma op_if_le : handler_le op_if.
Proof.
  intros opcode fExec pc m. unfold op_if. apply ev_le_bind; [|intros ?; reflexivity].
  destruct fExec; [|reflexivity]. ev_mono. apply ev_le_flag; [apply and_flag_mono|reflexivity].
Qed.

Lemma op_checksig_le : handler_le op_checksig.
Proof.
  intros opcode fExec pc m. unfold op_checksig.
  ev_mono; auto using drop_signature_le, CheckSignatureEncoding_le, CheckPubKeyEncoding_le.
  apply ev_le_require, negb_mono. intros [Hf ->]%andb_prop. by rewrite and_flag_mono.
Qed.

Lemma op_checkmultisig_le : handler_le op_checkmultisig.
Proof.
  intros opcode fExec pc m. unfold op_checkmultisig. cbv zeta.
  ev_mono; auto using num_at_le, drop_signatures_le, multisig_loop_le, multisig_cleanup_le.
  apply ev_le_require, negb_mono, flag_mono_and.
Qed.

Lemma switch_le opcode : handler_le (switch opcode).
Proof.
  apply (switch_ind (λ _, handler_le)); [|by intros ?????].
  switch_cases_tac.
  all: auto using op_checklocktimeverify_le, op_checksequenceverify_le, op_upgradable_nop_le, op_if_le,
      op_checksig_le, op_checkmultisig_le.
  all: intros opc fe pc m;
      unfold op_number, op_nop, op_else, op_endif, op_verify, op_return, op_toaltstack, op_fromaltstack,
        op_2drop, op_2dup, op_3dup, op_2over, op_2rot, op_2swap, op_ifdup, op_depth, op_drop, op_dup, op_nip, op_over,
        op_rot, op_swap, op_tuck, op_size, op_equal, op_hash, op_codeseparator, op_pick_roll, op_unary, op_binary, op_within;
      ev_mono; apply num_at_le.
Qed.

(** ** [EvalScript] *)

Lemma eval_round_le pc m : ev_le (eval_round cg pc m) (eval_round cf pc m).
Proof.
  unfold eval_round. destruct (GetScriptOp pc) as [[[opcode v] pc']|]; [|reflexivity]. ev_mono.
  - apply ev_le_require, negb_mono, and_flag_mono.
  - apply ev_le_flag; [apply flag_mono|reflexivity].
  - apply switch_le.
Qed.

Lemma eval_loop_le n pc m : ev_le (eval_loop n cg pc m) (eval_loop n cf pc m).
Proof.
  revert pc m. induction n as [|n IH]; intros pc m; destruct pc; [reflexivity..|].
  cbn [eval_loop]. apply ev_le_bind; [apply eval_round_le|]. intros [m' pc']. apply IH.
Qed.

Lemma eval_body_le stk script : ev_le (eval_body cg stk script) (eval_body cf stk script).
Proof. unfold eval_body. ev_mono. apply eval_loop_le. Qed.
End flags.

(** ** [VerifyScript] *)

(** The combinations of flags that do not run into an assertion. *)
Definition flags_consistent (flags : Z) : Prop :=
  (has_flag flags SCRIPT_VERIFY_CLEANSTACK = true → has_flag flags SCRIPT_VERIFY_WITNESS = true) ∧
  (has_flag flags SCRIPT_VERIFY_WITNESS = true → has_flag flags SCRIPT_VERIFY_P2SH = true).

Section verify.
Context `{Secp256k1} (f g : Z) (Hsub : Z.land f g = f) (ck : BaseSignatureChecker).

Lemma run_EvalScript_le stk script sv :
  ev_le (run_EvalScript stk script g ck sv) (run_EvalScript stk script f ck sv).
Proof.
  intros s. unfold run_EvalScript, EvalScript. pose proof (eval_body_le f g Hsub ck sv stk script) as Hle.
  destruct (eval_body (mk_ctx g ck sv) stk script) as [s'| | |]; cbn [catch_all]; [|done..].
  by rewrite (Hle s' eq_refl).
Qed.

Lemma VerifyWitnessProgram_le witness version program :
  ev_le (VerifyWitnessProgram witness version program g ck) (VerifyWitnessProgram witness version program f ck).
Proof.
  unfold VerifyWitnessProgram. destruct (version =? 0).
  - apply ev_le_bind; [reflexivity|]. intros [script stk]. ev_mono. apply run_EvalScript_le.
  - apply ev_le_fail; [by apply flag_mono|reflexivity].
Qed.

(** What is left of the witness step when only the verdict matters. *)
Lemma verify_witness_le script scriptSig expected err witness stk h a :
  verify_witness script scriptSig expected err witness g ck stk h = Ret a →
  ∃ b, verify_witness script scriptSig expected err witness f ck stk h = Ret b ∧
       (has_flag f SCRIPT_VERIFY_WITNESS = true → b = a).
Proof.
  unfold verify_witness. destruct (has_flag f SCRIPT_VERIFY_WITNESS) eqn:Ef; [|by eexists].
  rewrite (flag_mono f g Hsub _ Ef). intros Ha. exists a. split; [|done]. revert a Ha.
  match goal with |- ∀ a, ?x = Ret a → ?y = Ret a => change (ev_le x y) end.
  destruct (IsWitnessProgram script) as [[v p]|]; [|reflexivity].
  ev_mono. apply VerifyWitnessProgram_le.
Qed.

Lemma verify_p2sh_le scriptSig witness stk h a :
  verify_p2sh scriptSig witness g ck stk h = Ret a →
  ∃ b, verify_p2sh scriptSig witness f ck stk h = Ret b ∧
       (has_flag f SCRIPT_VERIFY_WITNESS = true → b = a).
Proof.
  unfold verify_p2sh. intros ([] & -> & Hg)%ev_bind_Ret. cbn [ev_bind].
  destruct stk as [|pubKey2 stk]; [done|].
  apply ev_bind_Ret in Hg as (s & Hs & Hg). rewrite (run_EvalScript_le _ _ _ _ Hs). cbn [ev_bind].
  apply ev_bind_Ret in Hg as ([] & -> & Hg). cbn [ev_bind]. by apply verify_witness_le.
Qed.

(** The last checks, on the state that the flags of [g] leave. *)
Lemma VerifyScript_le scriptSig scriptPubKey witness :
  flags_consistent f →
  ev_le (VerifyScript scriptSig scriptPubKey witness g ck) (VerifyScript scriptSig scriptPubKey witness f ck).
Proof.
  intros [Hclean Hwit] []. unfold VerifyScript.
  intros ([] & Hpush & Hg)%ev_bind_Ret.
  rewrite (ev_le_require _ _ _ (negb_mono _ _ (flag_mono_and f g Hsub _ _)) _ Hpush). cbn [ev_bind].
  apply ev_bind_Ret in Hg as (s1 & Hs1 & Hg). rewrite (run_EvalScript_le _ _ _ _ Hs1). cbn [ev_bind].
  apply ev_bind_Ret in Hg as (s2 & Hs2 & Hg). rewrite (run_EvalScript_le _ _ _ _ Hs2). cbn [ev_bind].
  apply ev_bind_Ret in Hg as ([] & -> & Hg). cbn [ev_bind].
  apply ev_bind_Ret in Hg as ([h3 s3] & Hw & Hg).
  apply verify_witness_le in Hw as ([h3' s3'] & -> & E3). cbn [ev_bind].
  apply ev_bind_Ret in Hg as ([h4 s4] & Hp & Hg).
  destruct (has_flag f SCRIPT_VERIFY_WITNESS) eqn:Ew.
  - specialize (Hwit eq_refl). specialize (E3 eq_refl). injection E3 as -> ->.
    rewrite Hwit. rewrite (flag_mono f g Hsub _ Hwit), (flag_mono f g Hsub _ Ew) in *.
    cbn [andb] in *. destruct (IsPayToScriptHash scriptPubKey).
    + apply verify_p2sh_le in Hp as (b & -> & Eb). rewrite (Eb Ew). cbn [ev_bind] in *. revert Hg.
      apply ev_le_bind; [apply ev_le_flag; [by apply flag_mono|reflexivity]|reflexivity].
    + injection Hp as -> ->. cbn [ev_bind] in *. revert Hg.
      apply ev_le_bind; [apply ev_le_flag; [by apply flag_mono|reflexivity]|reflexivity].
  - assert (has_flag f SCRIPT_VERIFY_CLEANSTACK = false) as ->
      by (destruct (has_flag f SCRIPT_VERIFY_CLEANSTACK); [by specialize (Hclean eq_refl)|done]).
    destruct (has_flag f SCRIPT_VERIFY_P2SH) eqn:Ep; [|done].
    rewrite (flag_mono f g Hsub _ Ep) in Hp. cbn [andb] in *.
    destruct (IsPayToScriptHash scriptPubKey); [|done].
    assert (∀ h, ∃ b, verify_p2sh scriptSig witness f ck s1 h = Ret b) as Hany; [|by destruct (Hany h3') as [[] ->]].
    intros h. apply verify_p2sh_le in Hp as (b & Hb & _). revert Hb. unfold verify_p2sh.
    intros ([] & -> & Hb)%ev_bind_Ret. cbn [ev_bind]. destruct s1; [done|].
    apply ev_bind_Ret in Hb as (s & -> & Hb). cbn [ev_bind].
    apply ev_bind_Ret in Hb as ([] & -> & Hb). cbn [ev_bind]. revert Hb. unfold verify_witness. rewrite Ew.
    by eexists.
Qed.
End verify.

Lemma land_lor_self a b : Z.land a (Z.lor a b) = a.
Proof.
  apply Z.bits_inj'. intros n _. rewrite Z.land_spec, Z.lor_spec. by destruct (Z.testbit a n).
Qed.

(** ** Property *)

(** C7: verification flags are soft forks, as interpreter.h says of all of them:
    for every signature checker, every pair of scripts and every witness, what
    [VerifyScript] accepts under the flags [A | B] it accepts under [A], when
    [A] is a combination that the code's assertions allow ([CLEANSTACK] only
    with [WITNESS], [WITNESS] only with [P2SH]). *)
Theorem flags_are_soft_forks `{Secp256k1} (A B : Z) (ck : BaseSignatureChecker)
    (scriptSig scriptPubKey : CScript) (witness : list valtype) :
  flags_consistent A →
  VerifyScript scriptSig scriptPubKey witness (Z.lor A B) ck = Ret tt →
  VerifyScript scriptSig scriptPubKey witness A ck = Ret tt.
Proof. intros HA. apply VerifyScript_le; [apply land_lor_self|done]. Qed.

Lemma flags_are_soft_forks_witness :
  let spk := [OP_2; OP_3; OP_ADD; OP_5; OP_NUMEQUAL] in
  let A := SCRIPT_VERIFY_P2SH in
  let B := Z.lor SCRIPT_VERIFY_WITNESS (Z.lor SCRIPT_VERIFY_CLEANSTACK SCRIPT_VERIFY_MINIMALDATA) in
  flags_consistent A ∧ @VerifyScript sample_secp [] spk [] (Z.lor A B) base_checker = Ret tt ∧
  @VerifyScript sample_secp [] spk [] A base_checker = Ret tt.
Proof.
  intros spk A B. assert (flags_consistent A) as HA by (split; vm_compute; done).
  assert (@VerifyScript sample_secp [] spk [] (Z.lor A B) base_checker = Ret tt) as HV by (vm_compute; reflexivity).
  split; [exact HA|]. split; [exact HV|].
  exact (@flags_are_soft_forks sample_secp A B base_checker [] spk [] HA HV).
Defined.
