(* ===== verification/EvalSafety.v ===== *)
(** * Safety of [EvalScript]: bounds of the machine, no stack access out of range

    Every [stacktop] and [popstack] of the interpreter is behind a test of the
    stack size, and every assertion behind a bound on its operands.  [ev_sat x Q]
    says that [x] can only end in success with [Q], in [set_error] or in a
    [scriptnum_error]; the machine invariant [machine_ok] bounds the elements of
    both stacks. *)

From stdpp Require Import base list numbers decidable.
From S2P Require Import Prelude ArithUint256 Uint256 MdHash Sha256 Hash160 Script PubKey Tx Interpreter.

Open Scope Z_scope.
Open Scope ev_scope.

Definition ev_sat {A} (x : ev A) (Q : A → Prop) : Prop :=
  match x with
  | Ret a => Q a
  | Fail _ | Throw (NumError _) => True
  | _ => False
  end.

Lemma ev_sat_bind {A B} (x : ev A) (f : A → ev B) (P : A → Prop) (Q : B → Prop) :
  ev_sat x P → (∀ a, P a → ev_sat (f a) Q) → ev_sat (ev_bind x f) Q.
Proof. intros Hx Hf. destruct x as [a| |[]|]; cbn in *; [by apply Hf|done..]. Qed.

Lemma ev_sat_mono {A} (x : ev A) (P Q : A → Prop) : ev_sat x P → (∀ a, P a → Q a) → ev_sat x Q.
Proof. intros Hx HPQ. destruct x as [a| |[]|]; cbn in *; auto. Qed.

Lemma ev_sat_require c e : ev_sat (require c e) (λ _, c = true).
Proof. by destruct c. Qed.

(** ** Elements *)

Definition elt_ok (v : valtype) : Prop := bytes_ok v ∧ size v <= MAX_SCRIPT_ELEMENT_SIZE.

Lemma small_elt v : bytes_ok v → (length v <= 520)%nat → elt_ok v.
Proof. intros. split; [done|]. unfold size, MAX_SCRIPT_ELEMENT_SIZE. lia. Qed.

Lemma num_serialize_ok v : bytes_ok (num_serialize v) ∧ (length (num_serialize v) <= 9)%nat.
Proof.
  unfold num_serialize. destruct (v =? 0); [split; [constructor|simpl; lia]|].
  pose proof (wrap_fits 64 (if v <? 0 then - v else v) ltac:(lia)) as Hf. unfold fits in Hf.
  change (2 ^ 64) with (256 ^ Z.of_nat 8) in Hf. destruct (abs_bytes_value 8 _ Hf) as (_ & Hb & Hl). clear Hf.
  cbv zeta. revert Hb Hl. generalize (abs_bytes 8 (wrap64 (if v <? 0 then - v else v))) as l. intros l Hb Hl.
  destruct (list.last _) as [t|] eqn:E; [|split; [done|lia]].
  pose proof (last_split _ _ E) as Es. rewrite Es in Hb. apply Forall_app in Hb as [Hb Ht].
  apply Forall_cons_1 in Ht as [Ht _]. destruct (negb _); [|destruct (v <? 0)].
  - split; [|rewrite length_app; cbn; lia]. rewrite Es. apply Forall_snoc; [by apply Forall_snoc|].
    by destruct (v <? 0).
  - split; [|rewrite length_app, length_take; simpl; lia].
    apply Forall_snoc; [done|]. apply lor_fits; [lia|done|done].
  - split; [|lia]. rewrite Es. by apply Forall_snoc.
Qed.

Lemma num_elt v : elt_ok (num_serialize v).
Proof. destruct (num_serialize_ok v). apply small_elt; [done|lia]. Qed.

Lemma of_bool_elt b : elt_ok (of_bool b).
Proof. apply small_elt; destruct b; cbn; [by constructor|constructor|lia..]. Qed.

(** A number of at most four bytes. *)
Lemma set_vch_bound vch : bytes_ok vch → (length vch <= 4)%nat → - 2 ^ 31 < set_vch vch < 2 ^ 31.
Proof.
  intros Hb Hl. destruct vch as [|t l _] using rev_ind; [done|].
  apply Forall_app in Hb as [Hb Ht]. apply Forall_cons_1 in Ht as [Ht _]. rewrite length_app in Hl. cbn in Hl.
  rewrite set_vch_snoc by (done || lia). pose proof (le_value_bound l Hb) as HL.
  unfold fits in Ht. change (2 ^ 8) with 256 in Ht.
  assert (256 ^ Z.of_nat (length l) <= 256 ^ 3) by (apply Z.pow_le_mono_r; lia).
  change (256 ^ 3) with (2 ^ 24) in *. change (2 ^ 31) with (2 ^ 24 * 128).
  assert (0 < 256 ^ Z.of_nat (length l)) by (apply Z.pow_pos_nonneg; lia).
  destruct (Z.leb_spec 128 t); nia.
Qed.

Definition num_ok (n : Z) : Prop := - 2 ^ 31 < n < 2 ^ 31.

Lemma script_num_sat v b : elt_ok v → ev_sat (script_num v b nDefaultMaxNumSize) num_ok.
Proof.
  intros [Hb _]. unfold script_num, CScriptNum, nDefaultMaxNumSize.
  destruct (Z.gtb_spec (Z.of_nat (length v)) 4); [done|]. destruct (_ && _); [done|].
  apply set_vch_bound; [done|lia].
Qed.

Lemma script_num_any v b n : ev_sat (script_num v b n) (λ _, True).
Proof. unfold script_num. by destruct (CScriptNum _ _ _). Qed.

Lemma unary_op_sat opcode n :
  opcode ∈ [OP_1ADD; OP_1SUB; OP_NEGATE; OP_ABS; OP_NOT; OP_0NOTEQUAL] → num_ok n → ev_sat (unary_op opcode n) (λ _, True).
Proof.
  intros Hop Hn. unfold num_ok in Hn. unfold unary_op.
  assert (num_add_assign n 1 = Some (n + 1)) as -> by
    (unfold num_add_assign; cbn; unfold int64_max; destruct (Z.leb_spec n (2 ^ 63 - 1 - 1)); [done|lia]).
  assert (num_sub_assign n 1 = Some (n - 1)) as -> by
    (unfold num_sub_assign; cbn; unfold int64_min; destruct (Z.geb_spec n (- 2 ^ 63 + 1)); [done|lia]).
  assert (num_neg n = Some (- n)) as -> by
    (unfold num_neg, int64_min; destruct (Z.eqb_spec n (- 2 ^ 63)); [lia|done]).
  rewrite !elem_of_cons, elem_of_nil in Hop.
  destruct Hop as [->|[->|[->|[->|[->|[->|[]]]]]]]; cbn; try done. by destruct (n <? 0).
Qed.

Lemma binary_op_sat opcode a b :
  opcode ∈ [OP_ADD; OP_SUB; OP_BOOLAND; OP_BOOLOR; OP_NUMEQUAL; OP_NUMEQUALVERIFY; OP_NUMNOTEQUAL; OP_LESSTHAN;
    OP_GREATERTHAN; OP_LESSTHANOREQUAL; OP_GREATERTHANOREQUAL; OP_MIN; OP_MAX] → ev_sat (binary_op opcode a b) (λ _, True).
Proof.
  intros Hop. rewrite !elem_of_cons, elem_of_nil in Hop.
  destruct_or! Hop; try done; subst; exact I.
Qed.

(** ** Stacks *)

Lemma stacktop_sat {A} i (l : list A) : 1 <= i <= size l → ev_sat (stacktop i l) (λ v, l !! Z.to_nat (i - 1) = Some v).
Proof.
  intros Hi. unfold stacktop, size in *. destruct (Z.ltb_spec i 1); [lia|].
  destruct (lookup_lt_is_Some_2 l (Z.to_nat (i - 1))) as [v Hv]; [lia|]. by rewrite Hv.
Qed.

Lemma Forall_at {A} (P : A → Prop) l i v : Forall P l → l !! i = Some v → P v.
Proof. apply Forall_lookup_1. Qed.

Lemma hash_op_elt opcode v :
  opcode ∈ [OP_RIPEMD160; OP_SHA1; OP_SHA256; OP_HASH160; OP_HASH256] → elt_ok v → elt_ok (hash_op opcode v).
Proof.
  intros Hop [Hb Hs]. unfold size, MAX_SCRIPT_ELEMENT_SIZE in Hs.
  assert (Z.of_nat (length v) < 2 ^ 61) as Hl by lia.
  rewrite !elem_of_cons, elem_of_nil in Hop. destruct_or! Hop; try done; subst; apply small_elt.
  all: change (hash_op OP_RIPEMD160 v) with (ripemd160_of v) || change (hash_op OP_SHA1 v) with (sha1_of v)
    || change (hash_op OP_SHA256 v) with (Hash1 v) || change (hash_op OP_HASH160 v) with (Hash160 v)
    || change (hash_op OP_HASH256 v) with (Hash256 v).
  all: rewrite ?ripemd160_of_correct, ?sha1_of_correct, ?Hash1_fips, ?Hash160_spec, ?Hash256_fips by done.
  all: rewrite ?length_RIPEMD160, ?length_SHA1, ?length_SHA256; try lia.
  all: first [apply RIPEMD160_bytes|apply SHA1_bytes|apply SHA256_bytes].
Qed.

(** ** The machine *)

(** A checker that answers every question. *)
Definition checker_total (ck : BaseSignatureChecker) : Prop :=
  (∀ s k code v, ∃ b, CheckSig ck s k code v = Ret b) ∧
  (∀ n, ∃ b, CheckLockTime ck n = Ret b) ∧ (∀ n, ∃ b, CheckSequence ck n = Ret b).

Definition machine_ok (m : machine) : Prop :=
  Forall elt_ok (stack m) ∧ Forall elt_ok (altstack m) ∧ 0 <= nOpCount m <= MAX_OPS_PER_SCRIPT.

Definition handler_ok (opcode : Z) (h : handler) : Prop :=
  ∀ c fExec pc m, checker_total (c_checker c) → machine_ok m → ev_sat (h c opcode fExec pc m) machine_ok.

Lemma need_true n m : n <= size (stack m) → need n m = Ret tt.
Proof. intros. unfold need, require. by rewrite (proj2 (Z.leb_le _ _)). Qed.
Lemma need_false n m : size (stack m) < n → need n m = Fail SCRIPT_ERR_INVALID_STACK_OPERATION.
Proof. intros. unfold need, require. by rewrite (proj2 (Z.leb_gt _ _)). Qed.

Lemma machine_ok_intro stk alt ve pb n :
  Forall elt_ok stk → Forall elt_ok alt → 0 <= n <= MAX_OPS_PER_SCRIPT → machine_ok (mk_machine stk alt ve pb n).
Proof. by split. Qed.

Create HintDb elt.
#[local] Hint Resolve num_elt of_bool_elt Forall_nil_2 Forall_cons_2 machine_ok_intro : elt.

(** The closed positions of [stacktop]. *)
Ltac eval_positions :=
  unfold stackswap, stacktop;
  repeat match goal with
    |- context [Z.to_nat (Zpos ?a - Zpos ?b)] =>
      let y := eval vm_compute in (Z.to_nat (Zpos a - Zpos b)) in change (Z.to_nat (Zpos a - Zpos b)) with y
    end.

Ltac machine_done :=
  cbn; unfold push, with_stack, with_altstack, with_vfExec in *; cbn; rewrite ?drop_0; auto 12 with elt.

(** A handler that only looks at the top six elements: the stack is taken apart
    and the guard decided in each case. *)
Ltac stack_handler h :=
  intros c fe pc [stk alt ve pb n] Hc (Hs & Ha & Hn); cbn [stack altstack nOpCount] in *;
  unfold h; do 6 (try (destruct stk as [|? stk]));
  try first [rewrite need_true by (unfold size; cbn; lia) | rewrite need_false by (unfold size; cbn; lia); exact I];
  repeat (apply Forall_cons_1 in Hs as [? Hs]);
  eval_positions; machine_done.

Lemma op_number_ok opcode : handler_ok opcode op_number.
Proof. stack_handler op_number. Qed.
Lemma op_verify_ok opcode : handler_ok opcode op_verify.
Proof. stack_handler op_verify; destruct (CastToBool _); machine_done. Qed.
Lemma op_toaltstack_ok opcode : handler_ok opcode op_toaltstack.
Proof. stack_handler op_toaltstack. Qed.
Lemma op_2drop_ok opcode : handler_ok opcode op_2drop.
Proof. stack_handler op_2drop. Qed.
Lemma op_2dup_ok opcode : handler_ok opcode op_2dup.
Proof. stack_handler op_2dup. Qed.
Lemma op_3dup_ok opcode : handler_ok opcode op_3dup.
Proof. stack_handler op_3dup. Qed.
Lemma op_2over_ok opcode : handler_ok opcode op_2over.
Proof. stack_handler op_2over. Qed.
Lemma op_2rot_ok opcode : handler_ok opcode op_2rot.
Proof. stack_handler op_2rot. Qed.
Lemma op_2swap_ok opcode : handler_ok opcode op_2swap.
Proof. stack_handler op_2swap. Qed.
Lemma op_ifdup_ok opcode : handler_ok opcode op_ifdup.
Proof. stack_handler op_ifdup; destruct (CastToBool _); machine_done. Qed.
Lemma op_depth_ok opcode : handler_ok opcode op_depth.
Proof. stack_handler op_depth. Qed.
Lemma op_drop_ok opcode : handler_ok opcode op_drop.
Proof. stack_handler op_drop. Qed.
Lemma op_dup_ok opcode : handler_ok opcode op_dup.
Proof. stack_handler op_dup. Qed.
Lemma op_nip_ok opcode : handler_ok opcode op_nip.
Proof. stack_handler op_nip. Qed.
Lemma op_over_ok opcode : handler_ok opcode op_over.
Proof. stack_handler op_over. Qed.
Lemma op_rot_ok opcode : handler_ok opcode op_rot.
Proof. stack_handler op_rot. Qed.
Lemma op_swap_ok opcode : handler_ok opcode op_swap.
Proof. stack_handler op_swap. Qed.
Lemma op_tuck_ok opcode : handler_ok opcode op_tuck.
Proof. stack_handler op_tuck. Qed.
Lemma op_size_ok opcode : handler_ok opcode op_size.
Proof. stack_handler op_size. Qed.

(** ** Handlers that compute *)

Lemma need_sat n m : ev_sat (need n m) (λ _, n <= size (stack m)).
Proof. unfold need, require. destruct (Z.leb_spec n (size (stack m))); [done|exact I]. Qed.

Lemma top_sat i m : machine_ok m → 1 <= i <= size (stack m) → ev_sat (stacktop i (stack m)) elt_ok.
Proof.
  intros (Hs & _) Hi. eapply ev_sat_mono; [by apply stacktop_sat|]. intros v Hv. by apply (Forall_at _ _ _ _ Hs Hv).
Qed.

Lemma num_at_sat c i m : machine_ok m → 1 <= i <= size (stack m) → ev_sat (num_at c i m) num_ok.
Proof.
  intros Hm Hi. apply (ev_sat_bind _ _ elt_ok); [by apply top_sat|]. intros v Hv. by apply script_num_sat.
Qed.

(** [pop] takes one element. *)
Definition popped (m m' : machine) : Prop :=
  machine_ok m' ∧ size (stack m') = size (stack m) - 1.

Lemma pop_sat m : machine_ok m → 1 <= size (stack m) → ev_sat (pop m) (popped m).
Proof.
  destruct m as [[|x stk] alt ve pb n]; cbn; [done|]. intros (Hs & Ha & Hn) _. cbn in *.
  apply Forall_cons_1 in Hs as [_ Hs]. split; [by split|]. unfold size. cbn. lia.
Qed.

Lemma push_ok v m : elt_ok v → machine_ok m → machine_ok (push v m).
Proof. intros Hv (Hs & Ha & Hn). by apply machine_ok_intro; [apply Forall_cons_2| |]. Qed.

#[local] Hint Resolve push_ok : elt.

Lemma stack_ok_upd stk m : Forall elt_ok stk → machine_ok m → machine_ok (with_stack stk m).
Proof. intros ? (_ & ? & ?). by apply machine_ok_intro. Qed.

Lemma op_pick_roll_ok opcode : handler_ok opcode op_pick_roll.
Proof.
  intros c fe pc m Hc Hm. unfold op_pick_roll.
  eapply ev_sat_bind; [apply need_sat|]. intros ? Hsz. cbn beta in Hsz.
  eapply ev_sat_bind; [apply num_at_sat; [done|lia]|]. intros n Hn.
  eapply ev_sat_bind; [apply pop_sat; [done|lia]|]. intros m' (Hm' & Hsz').
  eapply ev_sat_bind; [apply ev_sat_require|]. intros ? Hr. cbn beta in Hr.
  apply negb_true_iff, orb_false_iff in Hr as [Hr1%Z.ltb_ge Hr2]. rewrite Z.geb_leb in Hr2. apply Z.leb_gt in Hr2.
  eapply ev_sat_bind; [apply top_sat; [done|lia]|]. intros v Hv.
  apply push_ok; [done|]. destruct (opcode =? OP_ROLL); [|done].
  apply stack_ok_upd; [|done]. apply Forall_delete. apply Hm'.
Qed.

Lemma pop2_sat {B} m (k : machine → ev B) Q :
  machine_ok m → 2 <= size (stack m) → (∀ m', machine_ok m' → ev_sat (k m') Q) →
  ev_sat (let% m := pop m in let% m := pop m in k m) Q.
Proof.
  intros Hm Hsz Hk. eapply ev_sat_bind; [apply pop_sat; [done|lia]|]. intros m1 (Hm1 & Hsz1).
  eapply ev_sat_bind; [apply pop_sat; [done|lia]|]. intros m2 (Hm2 & _). by apply Hk.
Qed.

Lemma pop_pushed v m : machine_ok m → ev_sat (pop (push v m)) machine_ok.
Proof. intros Hm. destruct m as [stk alt ve pb n]. exact Hm. Qed.

Lemma op_equal_ok opcode : handler_ok opcode op_equal.
Proof.
  intros c fe pc m Hc Hm. unfold op_equal.
  eapply ev_sat_bind; [apply need_sat|]. intros ? Hsz. cbn beta in Hsz.
  eapply ev_sat_bind; [apply top_sat; [done|lia]|]. intros v1 Hv1.
  eapply ev_sat_bind; [apply top_sat; [done|lia]|]. intros v2 Hv2.
  apply pop2_sat; [done..|]. intros m' Hm'. destruct (opcode =? _); [|by apply push_ok; [apply of_bool_elt|]].
  destruct (bool_decide _); [by apply pop_pushed|exact I].
Qed.

Lemma op_unary_ok opcode :
  opcode ∈ [OP_1ADD; OP_1SUB; OP_NEGATE; OP_ABS; OP_NOT; OP_0NOTEQUAL] → handler_ok opcode op_unary.
Proof.
  intros Hop c fe pc m Hc Hm. unfold op_unary.
  eapply ev_sat_bind; [apply need_sat|]. intros ? Hsz. cbn beta in Hsz.
  eapply ev_sat_bind; [apply num_at_sat; [done|lia]|]. intros n Hn.
  eapply ev_sat_bind; [by apply unary_op_sat|]. intros n' _.
  eapply ev_sat_bind; [apply pop_sat; [done|lia]|]. intros m' (Hm' & _). by apply push_ok; [apply num_elt|].
Qed.

Lemma op_binary_ok opcode :
  opcode ∈ [OP_ADD; OP_SUB; OP_BOOLAND; OP_BOOLOR; OP_NUMEQUAL; OP_NUMEQUALVERIFY; OP_NUMNOTEQUAL; OP_LESSTHAN;
    OP_GREATERTHAN; OP_LESSTHANOREQUAL; OP_GREATERTHANOREQUAL; OP_MIN; OP_MAX] → handler_ok opcode op_binary.
Proof.
  intros Hop c fe pc m Hc Hm. unfold op_binary.
  eapply ev_sat_bind; [apply need_sat|]. intros ? Hsz. cbn beta in Hsz.
  eapply ev_sat_bind; [apply num_at_sat; [done|lia]|]. intros n1 _.
  eapply ev_sat_bind; [apply num_at_sat; [done|lia]|]. intros n2 _.
  eapply ev_sat_bind; [by apply binary_op_sat|]. intros n' _.
  apply pop2_sat; [done..|]. intros m' Hm'. destruct (opcode =? _); [|by apply push_ok; [apply num_elt|]].
  change (stacktop 1 (stack (push (num_serialize n') m'))) with (@Ret valtype (num_serialize n')). cbn [ev_bind].
  destruct (CastToBool _); [by apply pop_pushed|exact I].
Qed.

Lemma op_within_ok opcode : handler_ok opcode op_within.
Proof.
  intros c fe pc m Hc Hm. unfold op_within.
  eapply ev_sat_bind; [apply need_sat|]. intros ? Hsz. cbn beta in Hsz.
  do 3 (eapply ev_sat_bind; [apply num_at_sat; [done|lia]|]; intros ? _).
  eapply ev_sat_bind; [apply pop_sat; [done|lia]|]. intros m1 (Hm1 & Hsz1).
  apply pop2_sat; [done|lia|]. intros m' Hm'. by apply push_ok; [apply of_bool_elt|].
Qed.

Lemma op_hash_ok opcode :
  opcode ∈ [OP_RIPEMD160; OP_SHA1; OP_SHA256; OP_HASH160; OP_HASH256] → handler_ok opcode op_hash.
Proof.
  intros Hop c fe pc m Hc Hm. unfold op_hash.
  eapply ev_sat_bind; [apply need_sat|]. intros ? Hsz. cbn beta in Hsz.
  eapply ev_sat_bind; [apply top_sat; [done|lia]|]. intros v Hv.
  eapply ev_sat_bind; [apply pop_sat; [done|lia]|]. intros m' (Hm' & _). by apply push_ok; [apply hash_op_elt|].
Qed.

(** ** Control and lock times *)

Lemma require_sat c e Q : (c = true → Q tt) → ev_sat (require c e) Q.
Proof. intros HQ. destruct c; [by apply HQ|exact I]. Qed.

Lemma op_checklocktimeverify_ok opcode : handler_ok opcode op_checklocktimeverify.
Proof.
  intros c fe pc m (_ & Hl & _) Hm. unfold op_checklocktimeverify. destruct (negb _); [done|].
  eapply ev_sat_bind; [apply need_sat|]. intros ? Hsz. cbn beta in Hsz.
  eapply ev_sat_bind; [apply top_sat; [done|lia]|]. intros v _.
  eapply ev_sat_bind; [apply script_num_any|]. intros n _.
  eapply ev_sat_bind; [apply ev_sat_require|]. intros _ _.
  destruct (Hl n) as [b ->]. by destruct b.
Qed.

Lemma op_checksequenceverify_ok opcode : handler_ok opcode op_checksequenceverify.
Proof.
  intros c fe pc m (_ & _ & Hq) Hm. unfold op_checksequenceverify. destruct (negb _); [done|].
  eapply ev_sat_bind; [apply need_sat|]. intros ? Hsz. cbn beta in Hsz.
  eapply ev_sat_bind; [apply top_sat; [done|lia]|]. intros v _.
  eapply ev_sat_bind; [apply script_num_any|]. intros n _.
  eapply ev_sat_bind; [apply ev_sat_require|]. intros _ _. destruct (negb _); [done|].
  destruct (Hq n) as [b ->]. by destruct b.
Qed.

Lemma op_if_ok opcode : handler_ok opcode op_if.
Proof.
  intros c fe pc m _ Hm. unfold op_if.
  apply (ev_sat_bind _ _ (λ p : bool * machine, machine_ok p.2)).
  - destruct fe; [|done]. eapply ev_sat_bind; [apply ev_sat_require|]. intros ? Hsz%Z.leb_le.
    eapply ev_sat_bind; [apply top_sat; [done|lia]|]. intros v _.
    apply (ev_sat_bind _ _ (λ _ : unit, True)).
    { destruct (_ && _); [|done]. eapply ev_sat_bind; [apply ev_sat_require|]. intros _ _. by apply require_sat. }
    intros _ _. eapply ev_sat_bind; [apply pop_sat; [done|lia]|]. by intros m' [Hm' _].
  - intros [b m'] Hm'. exact Hm'.
Qed.

Lemma op_control_ok opcode :
  handler_ok opcode op_nop ∧ handler_ok opcode op_upgradable_nop ∧ handler_ok opcode op_else ∧
  handler_ok opcode op_endif ∧ handler_ok opcode op_return ∧ handler_ok opcode op_codeseparator.
Proof.
  split_and!; intros c fe pc m _ Hm.
  - done.
  - unfold op_upgradable_nop. eapply ev_sat_bind; [apply ev_sat_require|]. by intros _ _.
  - unfold op_else. by destruct (vfExec m).
  - unfold op_endif. by destruct (vfExec m).
  - exact I.
  - done.
Qed.

Lemma op_fromaltstack_ok opcode : handler_ok opcode op_fromaltstack.
Proof.
  intros c fe pc [stk [|a alt] ve pb n] _ (Hs & Ha & Hn); [exact I|]. cbn [altstack] in *.
  apply Forall_cons_1 in Ha as [Ha Hrest]. unfold op_fromaltstack. cbn [altstack].
  rewrite (proj2 (Z.leb_le 1 _)) by (unfold size; cbn; lia). cbn [require ev_bind]. change (stacktop 1 (a :: alt)) with (@Ret valtype a).
  cbn. by apply machine_ok_intro; [apply Forall_cons_2| |].
Qed.

(** ** Signatures *)

Section sigs.
Context `{Secp256k1}.

Lemma CheckSignatureEncoding_sat v flags : ev_sat (CheckSignatureEncoding v flags) (λ _, True).
Proof.
  unfold CheckSignatureEncoding, IsLowDERSignature. destruct (_ =? 0); [done|]. destruct (_ && _); [exact I|].
  apply (ev_sat_bind _ _ (λ _ : unit, True)).
  - destruct (has_flag _ _); [|done]. eapply ev_sat_bind; [apply ev_sat_require|]. intros _ _. by apply require_sat.
  - intros _ _. destruct (has_flag _ _); [|done]. by apply require_sat.
Qed.

Lemma CheckPubKeyEncoding_sat v flags sv : ev_sat (CheckPubKeyEncoding v flags sv) (λ _, True).
Proof.
  unfold CheckPubKeyEncoding. apply (ev_sat_bind _ _ (λ _ : unit, True)).
  - destruct (has_flag _ _); [|done]. by apply require_sat.
  - intros _ _. destruct (_ && _); [|done]. by apply require_sat.
Qed.

Lemma drop_signature_sat c v code : ev_sat (drop_signature c v code) (λ _, True).
Proof.
  unfold drop_signature. destruct (c_sigversion c); [|done]. destruct (FindAndDelete _ _). by destruct (_ && _).
Qed.

Lemma op_checksig_ok opcode : handler_ok opcode op_checksig.
Proof.
  intros c fe pc m (Hck & _) Hm. unfold op_checksig.
  eapply ev_sat_bind; [apply need_sat|]. intros ? Hsz. cbn beta in Hsz.
  eapply ev_sat_bind; [apply top_sat; [done|lia]|]. intros vs _.
  eapply ev_sat_bind; [apply top_sat; [done|lia]|]. intros vk _.
  eapply ev_sat_bind; [apply drop_signature_sat|]. intros code _.
  eapply ev_sat_bind; [apply CheckSignatureEncoding_sat|]. intros _ _.
  eapply ev_sat_bind; [apply CheckPubKeyEncoding_sat|]. intros _ _.
  destruct (Hck vs vk code (c_sigversion c)) as [b ->]. cbn [ev_bind].
  eapply ev_sat_bind; [apply ev_sat_require|]. intros _ _.
  apply pop2_sat; [done..|]. intros m' Hm'. destruct (opcode =? _); [|by apply push_ok; [apply of_bool_elt|]].
  destruct b; [by apply pop_pushed|exact I].
Qed.

Lemma drop_signatures_sat c n isig stk code :
  1 <= isig → isig + Z.of_nat n - 1 <= size stk → ev_sat (drop_signatures c n isig stk code) (λ _, True).
Proof.
  revert isig code. induction n as [|n IH]; intros isig code H1 H2; cbn [drop_signatures]; [done|].
  eapply ev_sat_bind; [apply stacktop_sat; lia|]. intros v _.
  eapply ev_sat_bind; [apply drop_signature_sat|]. intros code' _. apply IH; lia.
Qed.

(** The loop ends before its bound: every round uses up a key, and it stops when
    fewer keys than signatures are left. *)
Lemma multisig_loop_sat n c stk code isig ns ikey nk :
  checker_total (c_checker c) → 1 <= isig → 1 <= ikey → 0 <= ns <= nk → nk < Z.of_nat n →
  isig + ns - 1 <= size stk → ikey + nk - 1 <= size stk →
  ev_sat (multisig_loop n c stk code isig ns ikey nk) (λ _, True).
Proof.
  intros (Hck & _). revert isig ns ikey nk. induction n as [|n IH]; intros isig ns ikey nk H1 H2 H3 H4 H5 H6; [lia|].
  cbn [multisig_loop]. rewrite Z.gtb_ltb. destruct (Z.ltb_spec 0 ns); [|done].
  eapply ev_sat_bind; [apply stacktop_sat; lia|]. intros vs _.
  eapply ev_sat_bind; [apply stacktop_sat; lia|]. intros vk _.
  eapply ev_sat_bind; [apply CheckSignatureEncoding_sat|]. intros _ _.
  eapply ev_sat_bind; [apply CheckPubKeyEncoding_sat|]. intros _ _.
  destruct (Hck vs vk code (c_sigversion c)) as [b ->]. cbn [ev_bind].
  destruct b; rewrite Z.gtb_ltb.
  - destruct (Z.ltb_spec (nk - 1) (ns - 1)); [done|]. apply IH; lia.
  - destruct (Z.ltb_spec (nk - 1) ns); [done|]. apply IH; lia.
Qed.

Lemma multisig_cleanup_sat n c ok ikey2 m :
  machine_ok m → Z.of_nat n <= size (stack m) →
  ev_sat (multisig_cleanup n c ok ikey2 m) (λ m', machine_ok m' ∧ size (stack m') = size (stack m) - Z.of_nat n).
Proof.
  revert ikey2 m. induction n as [|n IH]; intros ikey2 m Hm Hsz; cbn [multisig_cleanup]; [split; [done|lia]|].
  apply (ev_sat_bind _ _ (λ _ : unit, True)).
  { destruct (_ && _ && _); [|done]. eapply ev_sat_bind; [apply top_sat; [done|lia]|]. intros v _. by apply require_sat. }
  intros _ _. eapply ev_sat_bind; [apply pop_sat; [done|lia]|]. intros m' (Hm' & Hsz').
  eapply ev_sat_mono; [apply IH; [done|lia]|]. intros m2 [Hm2 Hsz2]. split; [done|lia].
Qed.

Lemma getint_num n : num_ok n → getint n = n.
Proof.
  unfold num_ok, getint, int32_max, int32_min. intros ?.
  destruct (Z.gtb_spec n (2 ^ 31 - 1)); [lia|]. destruct (Z.ltb_spec n (- 2 ^ 31)); [lia|done].
Qed.

Lemma not_outside n lo hi : negb ((n <? lo) || (n >? hi)) = true → lo <= n <= hi.
Proof. rewrite negb_true_iff, orb_false_iff, Z.ltb_ge, Z.gtb_ltb, Z.ltb_ge. lia. Qed.

Lemma op_checkmultisig_ok opcode : handler_ok opcode op_checkmultisig.
Proof.
  intros c fe pc m Hc Hm. unfold op_checkmultisig. cbv zeta.
  eapply ev_sat_bind; [apply need_sat|]. intros ? Hsz. cbn beta in Hsz.
  eapply ev_sat_bind; [apply num_at_sat; [done|lia]|]. intros nk Hnk. rewrite !(getint_num nk Hnk).
  eapply ev_sat_bind; [apply ev_sat_require|]. intros ? Hr1%not_outside.
  eapply ev_sat_bind; [apply ev_sat_require|]. intros ? Hr%negb_true_iff. rewrite Z.gtb_ltb in Hr. apply Z.ltb_ge in Hr.
  assert (machine_ok (with_nOpCount (nOpCount m + nk) m)) as Hm1
    by (destruct Hm as (? & ? & ?); apply machine_ok_intro; [done..|cbn in Hr; lia]).
  generalize dependent (with_nOpCount (nOpCount m + nk) m). clear dependent m. intros m _ Hm.
  eapply ev_sat_bind; [apply need_sat|]. intros ? Hsz2. cbn beta in Hsz2.
  eapply ev_sat_bind; [apply num_at_sat; [done|lia]|]. intros ns Hns. rewrite !(getint_num ns Hns).
  eapply ev_sat_bind; [apply ev_sat_require|]. intros ? Hr2%not_outside.
  eapply ev_sat_bind; [apply need_sat|]. intros ? Hsz3. cbn beta in Hsz3.
  eapply ev_sat_bind; [apply drop_signatures_sat; lia|]. intros code _.
  eapply ev_sat_bind; [apply multisig_loop_sat; [done|lia..]|]. intros ok _.
  eapply ev_sat_bind; [apply multisig_cleanup_sat; [done|lia]|]. intros m' [Hm' Hsz'].
  eapply ev_sat_bind; [apply need_sat|]. intros ? Hsz4. cbn beta in Hsz4.
  eapply ev_sat_bind; [apply top_sat; [done|lia]|]. intros dummy _.
  eapply ev_sat_bind; [apply ev_sat_require|]. intros _ _.
  eapply ev_sat_bind; [apply pop_sat; [done|lia]|]. intros m2 [Hm2 _].
  destruct (opcode =? _); [|by apply push_ok; [apply of_bool_elt|]].
  destruct ok; [by apply pop_pushed|exact I].
Qed.
End sigs.

(** ** [EvalScript] *)

Section eval_safe.
Context `{Secp256k1}.

Lemma switch_ok opcode : handler_ok opcode (switch opcode).
Proof.
  apply (switch_ind handler_ok); [|by intros c fe pc m _ _].
  destruct (op_control_ok opcode) as (? & ? & ? & ? & ? & ?). switch_cases_tac.
  all: auto using op_number_ok, op_checklocktimeverify_ok, op_checksequenceverify_ok, op_if_ok, op_verify_ok,
    op_toaltstack_ok, op_fromaltstack_ok, op_2drop_ok, op_2dup_ok, op_3dup_ok, op_2over_ok, op_2rot_ok, op_2swap_ok,
    op_ifdup_ok, op_depth_ok, op_drop_ok, op_dup_ok, op_nip_ok, op_over_ok.
  all: auto using op_pick_roll_ok, op_rot_ok, op_swap_ok, op_tuck_ok, op_size_ok, op_equal_ok, op_unary_ok,
    op_binary_ok, op_within_ok, op_hash_ok, op_checksig_ok, op_checkmultisig_ok.
Qed.

Lemma GetScriptOp_bytes pc opcode v pc' :
  bytes_ok pc → GetScriptOp pc = Some (opcode, v, pc') → bytes_ok v ∧ bytes_ok pc' ∧ byte_ok opcode.
Proof.
  destruct pc as [|op pc]; [done|]. cbn [GetScriptOp]. intros [Hop Hpc]%Forall_cons_1.
  destruct (op <=? OP_PUSHDATA4); [|intros [= <- <- <-]; by split_and!].
  destruct (operand_size op pc) as [[n pc1]|] eqn:E; [|done].
  assert (bytes_ok pc1) as H1 by (unfold operand_size in E; repeat case_match; simplify_eq; auto using Forall_drop).
  destruct (_ <? _); [done|]. intros [= <- <- <-]. split_and!; [by apply Forall_take|by apply Forall_drop|done].
Qed.

(** What holds after every round. *)
Definition round_ok (m : machine) : Prop :=
  machine_ok m ∧ size (stack m) + size (altstack m) <= MAX_STACK_SIZE.

Lemma CheckMinimalPush_sat v opcode : 0 <= opcode <= OP_PUSHDATA4 → ev_sat (CheckMinimalPush v opcode) (λ _, True).
Proof.
  intros [H1 H2]. unfold CheckMinimalPush. rewrite (proj2 (Z.leb_le _ _) H1), (proj2 (Z.leb_le _ _) H2). done.
Qed.

Lemma eval_round_sat c pc m :
  checker_total (c_checker c) → bytes_ok pc → machine_ok m →
  ev_sat (eval_round c pc m) (λ r, round_ok r.1 ∧ bytes_ok r.2 ∧ (length r.2 < length pc)%nat).
Proof.
  intros Hc Hpc Hm. unfold eval_round. destruct (GetScriptOp pc) as [[[opcode v] pc']|] eqn:E; [|exact I].
  destruct (GetScriptOp_bytes _ _ _ _ Hpc E) as (Hv & Hpc' & Hop). destruct (GetScriptOp_shorter _ _ _ _ E) as [Hlen _].
  eapply ev_sat_bind; [apply ev_sat_require|]. intros ? Hsz%negb_true_iff. rewrite Z.gtb_ltb in Hsz. apply Z.ltb_ge in Hsz.
  cbv zeta. eapply ev_sat_bind; [apply ev_sat_require|]. intros ? Hcnt%negb_true_iff.
  set (m1 := if opcode >? OP_16 then with_nOpCount (nOpCount m + 1) m else m) in *.
  assert (machine_ok m1) as Hm1.
  { unfold m1 in *. destruct (opcode >? OP_16); [|done]. cbn [andb] in Hcnt. rewrite Z.gtb_ltb in Hcnt.
    apply Z.ltb_ge in Hcnt. destruct Hm as (? & ? & ?). apply machine_ok_intro; [done..|cbn in Hcnt; lia]. }
  do 2 (eapply ev_sat_bind; [apply ev_sat_require|]; intros _ _).
  apply (ev_sat_bind _ _ machine_ok).
  - destruct (_ && _ && _) eqn:Epush.
    + apply andb_prop in Epush as [[_ ?%Z.leb_le]%andb_prop ?%Z.leb_le].
      apply (ev_sat_bind _ _ (λ _ : unit, True)).
      { destruct (fRequireMinimal c); [|done]. eapply ev_sat_bind; [by apply CheckMinimalPush_sat|].
        intros ok _. by apply require_sat. }
      intros _ _. apply push_ok; [by split|done].
    + destruct (_ || _); [by apply switch_ok|done].
  - intros m2 Hm2. eapply ev_sat_bind; [apply ev_sat_require|]. intros ? Hst%negb_true_iff.
    rewrite Z.gtb_ltb in Hst. apply Z.ltb_ge in Hst. split; [by split|]. by split.
Qed.

Lemma eval_loop_sat n c pc m :
  checker_total (c_checker c) → bytes_ok pc → machine_ok m → (length pc <= n)%nat →
  ev_sat (eval_loop n c pc m) (λ m', machine_ok m' ∧ (m' = m ∨ round_ok m')).
Proof.
  intros Hc. revert pc m. induction n as [|n IH]; intros pc m Hpc Hm Hn; (destruct pc as [|b pc]; [cbn; auto|]).
  { simpl in Hn. lia. }
  cbn [eval_loop]. eapply ev_sat_bind; [by apply eval_round_sat|]. intros [m' pc'] (Hr & Hb & Hl). cbn [fst snd] in *.
  eapply ev_sat_mono; [apply IH; [done|apply Hr|simpl in *; lia]|].
  intros m2 [Hm2 Hcase]. split; [done|]. right. by destruct Hcase as [->|].
Qed.

Lemma eval_body_sat c stk script :
  checker_total (c_checker c) → bytes_ok script → Forall elt_ok stk → size stk <= MAX_STACK_SIZE →
  ev_sat (eval_body c stk script) (λ s, Forall elt_ok s ∧ size s <= MAX_STACK_SIZE).
Proof.
  intros Hc Hs Hstk Hsz. unfold eval_body.
  eapply ev_sat_bind; [apply ev_sat_require|]. intros _ _.
  eapply ev_sat_bind; [apply eval_loop_sat; [done|done|by apply machine_ok_intro|done]|]. intros m (Hm & Hcase).
  eapply ev_sat_bind; [apply ev_sat_require|]. intros _ _. split; [apply Hm|].
  destruct Hcase as [->|[_ Hr]]; [done|]. unfold size in *. lia.
Qed.
End eval_safe.

(** ** Property *)

(** C6: evaluating a script is safe and bounded.  For every script, flag set and
    signature checker that answers, and every stack of at most 1000 elements of
    at most 520 bytes, [EvalScript] terminates within the bound of its loop,
    fails no assertion, and the only exception that its [catch (...)] can meet is
    the [scriptnum_error] of a bad number: no [stacktop] is out of range and no
    [popstack] finds an empty stack.  A stack that it returns has again at most
    1000 elements of at most 520 bytes. *)
Theorem EvalScript_is_safe `{Secp256k1} (c : eval_ctx) (stk : list valtype) (script : CScript) :
  checker_total (c_checker c) → bytes_ok script → Forall elt_ok stk → size stk <= MAX_STACK_SIZE →
  match eval_body c stk script with
  | Ret s => Forall elt_ok s ∧ size s <= MAX_STACK_SIZE ∧
             EvalScript stk script (c_flags c) (c_checker c) (c_sigversion c) = EvalOk s
  | Fail e => EvalScript stk script (c_flags c) (c_checker c) (c_sigversion c) = EvalErr e
  | Throw (NumError _) =>
      EvalScript stk script (c_flags c) (c_checker c) (c_sigversion c) = EvalErr SCRIPT_ERR_UNKNOWN_ERROR
  | _ => False
  end.
Proof.
  intros Hc Hs Hstk Hsz. pose proof (eval_body_sat c stk script Hc Hs Hstk Hsz) as Hsat.
  unfold EvalScript. destruct c as [fl ck sv]; cbn [c_flags c_checker c_sigversion] in *.
  destruct (eval_body _ stk script) as [s| |[]|]; cbn in Hsat |- *; try done.
  by destruct Hsat.
Qed.

Lemma base_checker_total : checker_total base_checker.
Proof. split_and!; intros; by eexists. Qed.

(** [1 2 OP_ADD 3 OP_EQUAL OP_IF OP_DUP OP_ENDIF] on a stack with one element. *)
Lemma EvalScript_is_safe_witness :
  let script := [OP_1; OP_2; OP_ADD; OP_3; OP_EQUAL; OP_IF; OP_DUP; OP_ENDIF] in
  @EvalScript sample_secp [[7]] script SCRIPT_VERIFY_P2SH base_checker BASE = EvalOk [[7]; [7]].
Proof.
  intros script.
  pose proof (@EvalScript_is_safe sample_secp (mk_ctx SCRIPT_VERIFY_P2SH base_checker BASE) [[7]] script
    base_checker_total) as Hsafe.
  assert (@eval_body sample_secp (mk_ctx SCRIPT_VERIFY_P2SH base_checker BASE) [[7]] script = Ret [[7]; [7]]) as E
    by (vm_compute; reflexivity).
  rewrite E in Hsafe. apply Hsafe.
  - by apply (bool_decide_unpack _); vm_compute.
  - apply Forall_cons_2; [|apply Forall_nil_2]. apply small_elt; [|cbn; lia].
    apply Forall_cons_2; [split; lia|apply Forall_nil_2].
  - unfold size, MAX_STACK_SIZE. cbn. lia.
Defined.
