(* ===== verification/ScriptSpecs.v ===== *)
(** * What the standard scripts mean

    [OP_CHECKMULTISIG] succeeds exactly when the signatures match some of the keys
    in order; an output that pays to the hash of a public key, in the original
    form or as a witness program, is spent exactly by a signature that the
    checker accepts under a key with that hash. *)

From stdpp Require Import base list numbers decidable.
From S2P Require Import Prelude ArithUint256 Uint256 MdHash Sha256 Hash160 Script PubKey Tx Interpreter SoftFork EvalSafety.

Open Scope Z_scope.
Open Scope ev_scope.

(** ** Multisignatures *)

(** The signatures are good under some of the keys, taken in order. *)
Definition matched (ok : valtype → valtype → bool) (sigs keys : list valtype) : Prop :=
  ∃ ks, ks `sublist_of` keys ∧ Forall2 (λ s k, ok s k = true) sigs ks.


Lemma matched_cons ok s sigs keys : matched ok (s :: sigs) keys → matched ok sigs keys.
Proof.
  intros (ks & Hsub & Hall). apply Forall2_cons_inv_l in Hall as (k & ks' & _ & Hall & ->).
  exists ks'. split; [|done]. etrans; [|exact Hsub]. by apply sublist_cons.
Qed.





Section multisig.
Context `{Secp256k1} (c : eval_ctx) (stk : list valtype) (code : CScript) (ok : valtype → valtype → bool).
Context (Hok : ∀ s k, CheckSig (c_checker c) s k code (c_sigversion c) = Ret (ok s k)).

End multisig.

(** The script code that the signatures are checked against: before segwit the
    pushes of the signatures are cut out of it. *)
Definition strip_signatures (sv : SigVersion) (sigs : list valtype) (code : CScript) : CScript :=
  match sv with
  | WITNESS_V0 => code
  | BASE => foldl (λ code s, (FindAndDelete code (push_data s [])).2) code sigs
  end.

Section multisig_op.
Context `{Secp256k1} (c : eval_ctx).

Lemma drop_signature_strip s code :
  has_flag (c_flags c) SCRIPT_VERIFY_CONST_SCRIPTCODE = false →
  drop_signature c s code = Ret (strip_signatures (c_sigversion c) [s] code).
Proof.
  intros Hf. unfold drop_signature, strip_signatures. rewrite Hf. destruct (c_sigversion c); [|done].
  cbn [foldl]. destruct (FindAndDelete code (push_data s [])) as [n r]. by rewrite andb_false_r.
Qed.







End multisig_op.

(** ** Running a script *)

Section rounds.
Context `{Secp256k1} (c : eval_ctx) (Hmin : has_flag (c_flags c) SCRIPT_VERIFY_MINIMALDATA = false).

Lemma eval_round_push b rest m :
  vfExec m = [] → (length b <= 520)%nat → 1 + size (stack m) + size (altstack m) <= MAX_STACK_SIZE →
  eval_round c (push_data b [] ++ rest) m = Ret (push b m, rest).
Proof.
  intros Hv Hb Hsz. destruct (GetScriptOp_push b rest) as [E Hop]; [lia|]. unfold eval_round. rewrite E, Hv.
  assert (0 <= push_opcode_of b) by (unfold push_opcode_of; repeat case_match; unfold OP_PUSHDATA1, OP_PUSHDATA2, OP_PUSHDATA4; lia).
  assert (negb (size b >? MAX_SCRIPT_ELEMENT_SIZE) = true) as -> by
    (rewrite negb_true_iff, Z.gtb_ltb, Z.ltb_ge; unfold size, MAX_SCRIPT_ELEMENT_SIZE; lia).
  cbn [require ev_bind forallb]. assert ((push_opcode_of b >? OP_16) = false) as ->
    by (rewrite Z.gtb_ltb, Z.ltb_ge; unfold OP_PUSHDATA4, OP_16 in *; lia).
  cbn [andb negb require ev_bind].
  assert (existsb (Z.eqb (push_opcode_of b)) disabled_opcodes = false) as ->.
  { apply not_true_iff_false. intros (x & Hx & <-%Z.eqb_eq)%existsb_exists. revert Hx. unfold OP_PUSHDATA4 in Hop.
    unfold disabled_opcodes. cbn [In]. unfold OP_CAT, OP_SUBSTR, OP_LEFT, OP_RIGHT, OP_INVERT, OP_AND, OP_OR, OP_XOR,
      OP_2MUL, OP_2DIV, OP_MUL, OP_DIV, OP_MOD, OP_LSHIFT, OP_RSHIFT. lia. }
  assert ((push_opcode_of b =? OP_CODESEPARATOR) = false) as -> by (apply Z.eqb_neq; unfold OP_PUSHDATA4, OP_CODESEPARATOR in *; lia).
  cbn [andb negb require ev_bind]. unfold fRequireMinimal. rewrite Hmin.
  rewrite (proj2 (Z.leb_le 0 _)), (proj2 (Z.leb_le _ _) Hop) by done. cbn [andb ev_bind push with_stack stack altstack].
  assert (negb (size (b :: stack m) + size (altstack m) >? MAX_STACK_SIZE) = true) as ->; [|done].
  rewrite negb_true_iff, Z.gtb_ltb, Z.ltb_ge. unfold size in *. cbn [length]. lia.
Qed.

(** An operation that is executed and not limited by the count. *)
Lemma eval_round_op opcode rest m :
  vfExec m = [] → OP_16 < opcode → nOpCount m + 1 <= MAX_OPS_PER_SCRIPT →
  existsb (Z.eqb opcode) disabled_opcodes = false → opcode ≠ OP_CODESEPARATOR →
  eval_round c (opcode :: rest) m =
    let% m' := switch opcode c opcode true rest (with_nOpCount (nOpCount m + 1) m) in
    require (negb (size (stack m') + size (altstack m') >? MAX_STACK_SIZE)) SCRIPT_ERR_STACK_SIZE ;;%
    Ret (m', rest).
Proof.
  intros Hv Hop Hn Hd Hcs. unfold eval_round. cbn [GetScriptOp].
  assert ((opcode <=? OP_PUSHDATA4) = false) as -> by (apply Z.leb_gt; unfold OP_16, OP_PUSHDATA4 in *; lia).
  change (size [] >? MAX_SCRIPT_ELEMENT_SIZE) with false. cbn [negb require ev_bind].
  rewrite (proj2 (Z.gtb_lt opcode OP_16)) by lia. cbn [nOpCount with_nOpCount andb].
  assert ((nOpCount m + 1 >? MAX_OPS_PER_SCRIPT) = false) as -> by (rewrite Z.gtb_ltb, Z.ltb_ge; lia).
  rewrite Hd, (proj2 (Z.eqb_neq _ _) Hcs), Hv. cbn [negb require ev_bind andb forallb].
  assert ((opcode <=? OP_PUSHDATA4) = false) as -> by (apply Z.leb_gt; unfold OP_16, OP_PUSHDATA4 in *; lia).
  by rewrite andb_false_r.
Qed.
End rounds.

Lemma op_equalverify_top c fe pc a b stk alt ve pb n :
  op_equal c OP_EQUALVERIFY fe pc (mk_machine (a :: b :: stk) alt ve pb n) =
  if bool_decide (b = a) then Ret (mk_machine stk alt ve pb n) else Fail SCRIPT_ERR_EQUALVERIFY.
Proof.
  unfold op_equal. rewrite need_true by (unfold size; cbn; lia). cbn [ev_bind stack].
  change (stacktop 2 (a :: b :: stk)) with (@Ret valtype b). change (stacktop 1 (a :: b :: stk)) with (@Ret valtype a).
  cbn [ev_bind]. by destruct (bool_decide (b = a)).
Qed.

Lemma op_checksig_top `{Secp256k1} c fe pc key sig stk alt ve pb n :
  has_flag (c_flags c) SCRIPT_VERIFY_CONST_SCRIPTCODE = false →
  op_checksig c OP_CHECKSIG fe pc (mk_machine (key :: sig :: stk) alt ve pb n) =
  (CheckSignatureEncoding sig (c_flags c) ;;%
   CheckPubKeyEncoding key (c_flags c) (c_sigversion c) ;;%
   let% ok := CheckSig (c_checker c) sig key (strip_signatures (c_sigversion c) [sig] pb) (c_sigversion c) in
   require (negb (negb ok && has_flag (c_flags c) SCRIPT_VERIFY_NULLFAIL && negb (size sig =? 0))) SCRIPT_ERR_SIG_NULLFAIL ;;%
   Ret (mk_machine (of_bool ok :: stk) alt ve pb n)).
Proof.
  intros Hf. unfold op_checksig. rewrite need_true by (unfold size; cbn; lia). cbn [ev_bind stack].
  change (stacktop 2 (key :: sig :: stk)) with (@Ret valtype sig). change (stacktop 1 (key :: sig :: stk)) with (@Ret valtype key).
  cbn [ev_bind pbegincodehash]. by rewrite drop_signature_strip.
Qed.

(** ** Pay to public key hash *)

Section p2pkh.
Context `{Secp256k1} (c : eval_ctx) (Hmin : has_flag (c_flags c) SCRIPT_VERIFY_MINIMALDATA = false).
Context (sig key h : list Z) (Hsig : (length sig <= 520)%nat) (Hkey : (length key <= 520)%nat) (Hh : length h = 20%nat).

(** The last operation, on the signature and the key. *)
Definition p2pkh_check : ev machine :=
  op_checksig c OP_CHECKSIG true [] (mk_machine [key; sig] [] [] (p2pkh_script h) 4).

Lemma p2pkh_script_eq : p2pkh_script h = OP_DUP :: OP_HASH160 :: push_data h [] ++ [OP_EQUALVERIFY; OP_CHECKSIG].
Proof. unfold p2pkh_script, push_data. by rewrite <- !app_assoc. Qed.

Lemma eval_loop_op n opcode rest m m' :
  vfExec m = [] → OP_16 < opcode → nOpCount m + 1 <= MAX_OPS_PER_SCRIPT →
  existsb (Z.eqb opcode) disabled_opcodes = false → opcode ≠ OP_CODESEPARATOR →
  switch opcode c opcode true rest (with_nOpCount (nOpCount m + 1) m) = Ret m' →
  size (stack m') + size (altstack m') <= MAX_STACK_SIZE →
  eval_loop (S n) c (opcode :: rest) m = eval_loop n c rest m'.
Proof.
  intros Hv Ho Hn Hd Hcs Hsw Hsz. cbn [eval_loop]. rewrite eval_round_op by done. rewrite Hsw. cbn [ev_bind].
  assert (negb (size (stack m') + size (altstack m') >? MAX_STACK_SIZE) = true) as -> ; [|done].
  rewrite negb_true_iff, Z.gtb_ltb, Z.ltb_ge. done.
Qed.

Lemma eval_loop_push n b rest m :
  vfExec m = [] → (length b <= 520)%nat → 1 + size (stack m) + size (altstack m) <= MAX_STACK_SIZE →
  eval_loop (S n) c (push_data b [] ++ rest) m = eval_loop n c rest (push b m).
Proof.
  intros Hv Hb Hsz. assert (∃ x l, push_data b [] ++ rest = x :: l) as (x & l & E).
  { unfold push_data. cbn [app]. repeat case_match; by eexists _, _. }
  rewrite E. cbn [eval_loop]. rewrite <- E. by rewrite eval_round_push.
Qed.

Ltac op_step m' :=
  rewrite (eval_loop_op _ _ _ _ m') by (reflexivity || done || (unfold size, MAX_STACK_SIZE, MAX_OPS_PER_SCRIPT; cbn; lia)).

Lemma eval_p2pkh_loop n :
  eval_loop (S (S (S (S (S n))))) c (p2pkh_script h) (mk_machine [key; sig] [] [] (p2pkh_script h) 0) =
  if bool_decide (Hash160 key = h) then
    let% m' := p2pkh_check in
    require (negb (size (stack m') + size (altstack m') >? MAX_STACK_SIZE)) SCRIPT_ERR_STACK_SIZE ;;%
    Ret m'
  else Fail SCRIPT_ERR_EQUALVERIFY.
Proof.
  rewrite p2pkh_script_eq at 1.
  op_step (mk_machine [key; key; sig] [] [] (p2pkh_script h) 1).
  op_step (mk_machine [Hash160 key; key; sig] [] [] (p2pkh_script h) 2).
  rewrite eval_loop_push by (done || lia || (unfold size, MAX_STACK_SIZE; cbn; lia)).
  unfold push, with_stack. cbn [stack altstack vfExec pbegincodehash nOpCount].
  generalize (Hash160 key) as hk. intros hk. cbn [eval_loop].
  rewrite eval_round_op by (reflexivity || done || (unfold MAX_OPS_PER_SCRIPT; cbn; lia)).
  change (switch OP_EQUALVERIFY) with op_equal.
  change (with_nOpCount _ _) with (mk_machine [h; hk; key; sig] [] [] (p2pkh_script h) 3).
  rewrite op_equalverify_top. destruct (bool_decide (hk = h)); [|done]. cbn [ev_bind].
  cbn [stack altstack]. change (negb (size [key; sig] + size [] >? MAX_STACK_SIZE)) with true. cbn [require ev_bind].
  rewrite eval_round_op by (reflexivity || done || (unfold MAX_OPS_PER_SCRIPT; cbn; lia)).
  change (switch OP_CHECKSIG) with op_checksig. unfold p2pkh_check.
  change (with_nOpCount _ _) with (mk_machine [key; sig] [] [] (p2pkh_script h) 4).
  destruct (op_checksig _ _ _ _ _) as [m'| | |]; cbn [ev_bind]; [|done..].
  destruct (require _ _); cbn [ev_bind]; [|done..]. by destruct n.
Qed.

(** The key has the hash, and the checker accepts the signature under it. *)
Definition key_spends : Prop :=
  Hash160 key = h ∧ CheckSignatureEncoding sig (c_flags c) = Ret tt ∧
  CheckPubKeyEncoding key (c_flags c) (c_sigversion c) = Ret tt ∧
  CheckSig (c_checker c) sig key (strip_signatures (c_sigversion c) [sig] (p2pkh_script h)) (c_sigversion c) = Ret true.

Lemma length_p2pkh : length (p2pkh_script h) = 25%nat.
Proof. rewrite p2pkh_script_eq. cbn [length]. rewrite length_app. unfold push_data. rewrite !length_app, Hh. reflexivity. Qed.

Lemma eval_p2pkh :
  has_flag (c_flags c) SCRIPT_VERIFY_CONST_SCRIPTCODE = false →
  (key_spends → eval_body c [key; sig] (p2pkh_script h) = Ret [vchTrue]) ∧
  (∀ s, eval_body c [key; sig] (p2pkh_script h) = Ret s → back_true s = true → key_spends).
Proof.
  intros Hconst. unfold eval_body. rewrite length_p2pkh.
  assert (negb (size (p2pkh_script h) >? MAX_SCRIPT_SIZE) = true) as -> by (unfold size; by rewrite length_p2pkh).
  cbn [require ev_bind]. rewrite (eval_p2pkh_loop 20). unfold p2pkh_check. rewrite op_checksig_top by done.
  unfold key_spends. split.
  - intros (E1 & -> & -> & ->). rewrite bool_decide_eq_true_2 by done. reflexivity.
  - intros s. destruct (bool_decide (Hash160 key = h)) eqn:E1; [|cbn [ev_bind]; intros [=]]. apply bool_decide_eq_true in E1.
    destruct (CheckSignatureEncoding _ _) as [[]| | |]; cbn [ev_bind]; [|intros [=]..].
    destruct (CheckPubKeyEncoding _ _ _) as [[]| | |]; cbn [ev_bind]; [|intros [=]..].
    destruct (CheckSig _ _ _ _ _) as [[]| | |]; cbn [ev_bind]; [done| |intros [=]..].
    destruct (require _ SCRIPT_ERR_SIG_NULLFAIL) as [[]| | |]; cbn [ev_bind]; [|intros [=]..].
    intros Hs Hb. change (@Ret (list valtype) [vchFalse] = Ret s) in Hs. injection Hs as <-. discriminate Hb.
Qed.
End p2pkh.

(** The scriptSig that pushes a signature and a key. *)
Definition p2pkh_scriptSig (sig key : list Z) : CScript := push_data key (push_data sig []).

Section pushes.
Context `{Secp256k1}.

Lemma p2pkh_scriptSig_eq sig key : p2pkh_scriptSig sig key = push_data sig [] ++ push_data key [].
Proof. reflexivity. Qed.

Lemma length_push b : (length b <= 520)%nat → (1 + length b <= length (push_data b []) <= 3 + length b)%nat.
Proof.
  intros Hb. unfold push_data. cbn [app]. rewrite length_app. repeat case_match; cbn [length]; rewrite ?length_le_bytes; lia.
Qed.

Lemma eval_pushes c sig key :
  has_flag (c_flags c) SCRIPT_VERIFY_MINIMALDATA = false → (length sig <= 520)%nat → (length key <= 520)%nat →
  eval_body c [] (p2pkh_scriptSig sig key) = Ret [key; sig].
Proof.
  intros Hmin Hs Hk. unfold eval_body. rewrite p2pkh_scriptSig_eq.
  pose proof (length_push sig Hs) as [L1 U1]. pose proof (length_push key Hk) as [L2 U2].
  assert (negb (size (push_data sig [] ++ push_data key []) >? MAX_SCRIPT_SIZE) = true) as ->
    by (rewrite negb_true_iff, Z.gtb_ltb, Z.ltb_ge; unfold size, MAX_SCRIPT_SIZE; rewrite length_app; lia).
  cbn [require ev_bind]. rewrite length_app.
  destruct (length (push_data sig []) + length (push_data key []))%nat as [|[|n]] eqn:E; [lia..|].
  rewrite eval_loop_push by (done || lia || (unfold size, MAX_STACK_SIZE; cbn; lia)).
  rewrite <- (app_nil_r (push_data key [])) at 1.
  rewrite eval_loop_push by (done || lia || (unfold size, MAX_STACK_SIZE; cbn; lia)).
  by destruct n.
Qed.

Lemma IsPushOnly_push fuel b rest :
  (length b <= 520)%nat → IsPushOnly_loop (S fuel) (push_data b [] ++ rest) = IsPushOnly_loop fuel rest.
Proof.
  intros Hb. destruct (GetScriptOp_push b rest) as [E Hop]; [lia|].
  assert (∃ x l, push_data b [] ++ rest = x :: l) as (x & l & Ex).
  { unfold push_data. cbn [app]. repeat case_match; by eexists _, _. }
  rewrite Ex in *. cbn [IsPushOnly_loop]. rewrite E, Z.gtb_ltb, (proj2 (Z.ltb_ge _ _)); [done|].
  unfold OP_PUSHDATA4, OP_16 in *. lia.
Qed.

Lemma IsPushOnly_p2pkh sig key :
  (length sig <= 520)%nat → (length key <= 520)%nat → IsPushOnly (p2pkh_scriptSig sig key) = true.
Proof.
  intros Hs Hk. unfold IsPushOnly. rewrite p2pkh_scriptSig_eq, length_app.
  pose proof (length_push sig Hs) as [L1 U1]. pose proof (length_push key Hk) as [L2 U2].
  destruct (length (push_data sig []) + length (push_data key []))%nat as [|[|n]] eqn:E; [lia..|].
  rewrite IsPushOnly_push by done. rewrite <- (app_nil_r (push_data key [])). rewrite IsPushOnly_push by done.
  by destruct n.
Qed.

(** A pay-to-key-hash script is neither a witness program nor a script hash. *)
Lemma p2pkh_kind h : length h = 20%nat → IsWitnessProgram (p2pkh_script h) = None ∧ IsPayToScriptHash (p2pkh_script h) = false.
Proof.
  intros Hh. pose proof (length_p2pkh h Hh) as Hl. unfold IsWitnessProgram, IsPayToScriptHash, script_size. rewrite Hl.
  rewrite p2pkh_script_eq. done.
Qed.
End pushes.

(** ** [VerifyScript] on these scripts *)

Section spend.
Context `{Secp256k1} (flags : Z) (ck : BaseSignatureChecker).
Context (Hmin : has_flag flags SCRIPT_VERIFY_MINIMALDATA = false)
        (Hconst : has_flag flags SCRIPT_VERIFY_CONST_SCRIPTCODE = false) (Hcons : flags_consistent flags).
Context (sig key h : list Z) (Hsig : (length sig <= 520)%nat) (Hkey : (length key <= 520)%nat) (Hh : length h = 20%nat).

Lemma run_EvalScript_body stk script sv s :
  run_EvalScript stk script flags ck sv = Ret s ↔ eval_body (mk_ctx flags ck sv) stk script = Ret s.
Proof.
  unfold run_EvalScript, EvalScript. destruct (eval_body _ stk script) as [s'| |x|]; cbn [catch_all]; done.
Qed.

(** The last two checks of [VerifyScript] on a clean stack. *)
Lemma final_checks b (s w : list valtype) :
  size s = 1 → (b = false → w = []) →
  ((if has_flag flags SCRIPT_VERIFY_CLEANSTACK then
      assert_ev (has_flag flags SCRIPT_VERIFY_P2SH) ;;%
      assert_ev (has_flag flags SCRIPT_VERIFY_WITNESS) ;;%
      require (size s =? 1) SCRIPT_ERR_CLEANSTACK
    else Ret tt) ;;%
   (if has_flag flags SCRIPT_VERIFY_WITNESS then
      assert_ev (has_flag flags SCRIPT_VERIFY_P2SH) ;;%
      require (negb (negb b && negb (bool_decide (w = [])))) SCRIPT_ERR_WITNESS_UNEXPECTED
    else Ret tt)) = Ret tt.
Proof.
  intros -> Hw. destruct Hcons as [Hc1 Hc2].
  assert (negb (negb b && negb (bool_decide (w = []))) = true) as ->.
  { destruct b; [done|]. by rewrite (Hw eq_refl), bool_decide_eq_true_2. }
  destruct (has_flag flags SCRIPT_VERIFY_CLEANSTACK).
  - specialize (Hc1 eq_refl). rewrite Hc1 in *. by rewrite Hc2.
  - destruct (has_flag flags SCRIPT_VERIFY_WITNESS); [by rewrite Hc2|done].
Qed.

Lemma if_same {A} (b : bool) (x : A) : (if b then x else x) = x.
Proof. by destruct b. Qed.

Lemma VerifyScript_p2pkh :
  VerifyScript (p2pkh_scriptSig sig key) (p2pkh_script h) [] flags ck = Ret tt ↔
  key_spends (mk_ctx flags ck BASE) sig key h.
Proof.
  unfold VerifyScript. rewrite IsPushOnly_p2pkh, andb_false_r by done. cbn [negb require ev_bind].
  destruct (p2pkh_kind h Hh) as [Hw Hp].
  rewrite (proj2 (run_EvalScript_body _ _ _ _) (eval_pushes (mk_ctx flags ck BASE) sig key Hmin Hsig Hkey)).
  cbn [ev_bind]. destruct (eval_p2pkh (mk_ctx flags ck BASE) Hmin sig key h Hsig Hkey Hh Hconst) as [Hgood Hback].
  unfold verify_witness. rewrite Hw, Hp, andb_false_r. split.
  - intros (s & Hs & Hv)%ev_bind_Ret. apply run_EvalScript_body in Hs.
    apply ev_bind_Ret in Hv as ([] & Hb & _). apply (Hback s Hs). by destruct (back_true s).
  - intros Hk. rewrite (proj2 (run_EvalScript_body _ _ _ _) (Hgood Hk)). cbn [ev_bind].
    change (back_true [vchTrue]) with true. cbn [require ev_bind].
    rewrite if_same. cbn [ev_bind]. by apply final_checks.
Qed.

(** [OP_0 <h>]. *)
Definition p2wpkh_script : CScript := OP_0 :: push_data h [].

Lemma p2wpkh_eq : p2wpkh_script = 0 :: 20 :: h.
Proof. unfold p2wpkh_script, push_data. by rewrite Hh. Qed.

Lemma eval_p2wpkh : eval_body (mk_ctx flags ck BASE) [] p2wpkh_script = Ret [h; []].
Proof.
  unfold eval_body. assert (negb (size p2wpkh_script >? MAX_SCRIPT_SIZE) = true) as ->
    by (rewrite p2wpkh_eq; unfold size; cbn [length]; by rewrite Hh).
  cbn [require ev_bind]. change p2wpkh_script with (push_data [] [] ++ push_data h []) at 2.
  assert (length p2wpkh_script = S (S (length h))) as -> by (by rewrite p2wpkh_eq).
  rewrite eval_loop_push by (done || (cbn; lia) || (unfold size, MAX_STACK_SIZE; cbn; lia)).
  rewrite <- (app_nil_r (push_data h [])).
  rewrite eval_loop_push by (done || lia || (unfold size, MAX_STACK_SIZE; cbn; lia)).
  by destruct (length h).
Qed.

Lemma p2wpkh_kind : IsWitnessProgram p2wpkh_script = Some (0, h) ∧ IsPayToScriptHash p2wpkh_script = false.
Proof.
  rewrite p2wpkh_eq. unfold IsWitnessProgram, IsPayToScriptHash, script_size. cbn [length]. rewrite Hh. done.
Qed.

Lemma VerifyWitnessProgram_p2wpkh :
  VerifyWitnessProgram [sig; key] 0 h flags ck = Ret tt ↔ key_spends (mk_ctx flags ck WITNESS_V0) sig key h.
Proof.
  unfold VerifyWitnessProgram, witness_v0_setup, size at 1 2. rewrite Hh. cbn [Z.eqb].
  change (Z.of_nat 20 =? WITNESS_V0_SCRIPTHASH_SIZE) with false. change (Z.of_nat 20 =? WITNESS_V0_KEYHASH_SIZE) with true.
  change (size [sig; key] =? 2) with true. cbn [require ev_bind]. change (reverse [sig; key]) with [key; sig].
  assert (forallb (λ v, negb (size v >? MAX_SCRIPT_ELEMENT_SIZE)) [key; sig] = true) as ->.
  { cbn [forallb]. rewrite !andb_true_iff, !negb_true_iff, !Z.gtb_ltb, !Z.ltb_ge. unfold size, MAX_SCRIPT_ELEMENT_SIZE. lia. }
  cbn [require ev_bind].
  destruct (eval_p2pkh (mk_ctx flags ck WITNESS_V0) Hmin sig key h Hsig Hkey Hh Hconst) as [Hgood Hback]. split.
  - intros (s & Hs & Hv)%ev_bind_Ret. apply run_EvalScript_body in Hs.
    apply ev_bind_Ret in Hv as ([] & _ & Hb). apply (Hback s Hs). by destruct (back_true s).
  - intros Hk. by rewrite (proj2 (run_EvalScript_body _ _ _ _) (Hgood Hk)).
Qed.

Lemma VerifyScript_p2wpkh :
  has_flag flags SCRIPT_VERIFY_WITNESS = true →
  VerifyScript [] p2wpkh_script [sig; key] flags ck = Ret tt ↔
  CastToBool h = true ∧ key_spends (mk_ctx flags ck WITNESS_V0) sig key h.
Proof.
  intros Hwit. unfold VerifyScript. change (IsPushOnly []) with true. rewrite andb_false_r. cbn [negb require ev_bind].
  change (run_EvalScript [] [] flags ck BASE) with (@Ret (list valtype) []). cbn [ev_bind].
  rewrite (proj2 (run_EvalScript_body _ _ _ _) eval_p2wpkh). cbn [ev_bind back_true].
  destruct p2wpkh_kind as [Hw Hp]. rewrite Hp, andb_false_r.
  assert (verify_witness p2wpkh_script [] [] SCRIPT_ERR_WITNESS_MALLEATED [sig; key] flags ck [h; []] false =
    (VerifyWitnessProgram [sig; key] 0 h flags ck ;;% Ret (true, [[]]))) as ->
    by (unfold verify_witness; rewrite Hwit, Hw; by rewrite bool_decide_eq_true_2).
  rewrite <- VerifyWitnessProgram_p2wpkh. split.
  - intros ([] & Hc & Hv)%ev_bind_Ret. apply ev_bind_Ret in Hv as (r & Hv & _). apply ev_bind_Ret in Hv as ([] & -> & _).
    by destruct (CastToBool h).
  - intros [-> ->]. cbn [require ev_bind]. by apply final_checks.
Qed.
End spend.

(** ** Properties *)


(** A checker that accepts a signature under the key it starts with. *)
Definition toy_checker : BaseSignatureChecker :=
  mk_checker (λ s k _ _, Ret (bool_decide (head s = head k))) (λ _, Ret true) (λ _, Ret true).


(** C24: an output that pays to a public key hash is spent exactly by its key.
    With the signature and the key in the scriptSig (pay to public key hash) or,
    under the witness flag, in the witness (version 0 key hash program, whose
    hash must not read as false), [VerifyScript] accepts if and only if the key
    has the hash, both pass the encoding checks of the flags, and the signature
    checker accepts the signature under that key for the script code. *)
Theorem key_hash_outputs_need_the_key `{Secp256k1} (flags : Z) (ck : BaseSignatureChecker) (sig key h : list Z) :
  has_flag flags SCRIPT_VERIFY_MINIMALDATA = false → has_flag flags SCRIPT_VERIFY_CONST_SCRIPTCODE = false →
  flags_consistent flags → (length sig <= 520)%nat → (length key <= 520)%nat → length h = 20%nat →
  (VerifyScript (p2pkh_scriptSig sig key) (p2pkh_script h) [] flags ck = Ret tt ↔
     key_spends (mk_ctx flags ck BASE) sig key h) ∧
  (has_flag flags SCRIPT_VERIFY_WITNESS = true →
     VerifyScript [] (p2wpkh_script h) [sig; key] flags ck = Ret tt ↔
     CastToBool h = true ∧ key_spends (mk_ctx flags ck WITNESS_V0) sig key h).
Proof. intros. split; [by apply VerifyScript_p2pkh|by apply VerifyScript_p2wpkh]. Qed.

Definition sample_key : list Z := 2 :: replicate 32 7.
Definition sample_keyhash : list Z := Eval vm_compute in Hash160 sample_key.

Lemma sample_key_spends sv :
  @key_spends sample_secp (mk_ctx (Z.lor SCRIPT_VERIFY_P2SH SCRIPT_VERIFY_WITNESS) toy_checker sv) [2; 1] sample_key sample_keyhash.
Proof. split; [vm_compute; reflexivity|]. split_and!; by destruct sv. Qed.

Lemma key_hash_outputs_need_the_key_witness :
  let flags := Z.lor SCRIPT_VERIFY_P2SH SCRIPT_VERIFY_WITNESS in
  @VerifyScript sample_secp (p2pkh_scriptSig [2; 1] sample_key) (p2pkh_script sample_keyhash) [] flags toy_checker = Ret tt ∧
  @VerifyScript sample_secp [] (p2wpkh_script sample_keyhash) [[2; 1]; sample_key] flags toy_checker = Ret tt.
Proof.
  intros flags.
  destruct (@key_hash_outputs_need_the_key sample_secp flags toy_checker [2; 1] sample_key sample_keyhash) as [H1 H2].
  - reflexivity.
  - reflexivity.
  - split; reflexivity.
  - cbn. lia.
  - cbn. lia.
  - reflexivity.
  - split.
    + apply H1. apply sample_key_spends.
    + apply H2; [reflexivity|]. split; [reflexivity|apply sample_key_spends].
Defined.
