(* ===== verification/ScriptNames.v ===== *)
(** * Names of opcodes and errors: [GetOpName] of script.cpp, [ScriptErrorString] of script_error.cpp

    Two tables for logs and error reports.  Shown: an opcode that is known can be told
    from its name, the unknown ones are exactly the direct pushes and the unassigned
    codes, and every error but the unknown one has a text of its own. *)

From stdpp Require Import base list numbers strings.
From S2P Require Import Prelude Script Interpreter.

Open Scope Z_scope.

(** ** [GetOpName] *)

(** The cases of the switch. *)
Definition op_names : list (Z * string) :=
  [ (OP_0, "0"); (OP_PUSHDATA1, "OP_PUSHDATA1"); (OP_PUSHDATA2, "OP_PUSHDATA2"); (OP_PUSHDATA4, "OP_PUSHDATA4");
    (OP_1NEGATE, "-1"); (OP_RESERVED, "OP_RESERVED"); (OP_1, "1"); (OP_2, "2"); (OP_3, "3"); (OP_4, "4");
    (OP_5, "5"); (OP_6, "6"); (OP_7, "7"); (OP_8, "8"); (OP_9, "9"); (OP_10, "10"); (OP_11, "11"); (OP_12, "12");
    (OP_13, "13"); (OP_14, "14"); (OP_15, "15"); (OP_16, "16"); (OP_NOP, "OP_NOP"); (OP_VER, "OP_VER");
    (OP_IF, "OP_IF"); (OP_NOTIF, "OP_NOTIF"); (OP_VERIF, "OP_VERIF"); (OP_VERNOTIF, "OP_VERNOTIF");
    (OP_ELSE, "OP_ELSE"); (OP_ENDIF, "OP_ENDIF"); (OP_VERIFY, "OP_VERIFY"); (OP_RETURN, "OP_RETURN");
    (OP_TOALTSTACK, "OP_TOALTSTACK"); (OP_FROMALTSTACK, "OP_FROMALTSTACK"); (OP_2DROP, "OP_2DROP");
    (OP_2DUP, "OP_2DUP"); (OP_3DUP, "OP_3DUP"); (OP_2OVER, "OP_2OVER"); (OP_2ROT, "OP_2ROT"); (OP_2SWAP, "OP_2SWAP");
    (OP_IFDUP, "OP_IFDUP"); (OP_DEPTH, "OP_DEPTH"); (OP_DROP, "OP_DROP"); (OP_DUP, "OP_DUP"); (OP_NIP, "OP_NIP");
    (OP_OVER, "OP_OVER"); (OP_PICK, "OP_PICK"); (OP_ROLL, "OP_ROLL"); (OP_ROT, "OP_ROT"); (OP_SWAP, "OP_SWAP");
    (OP_TUCK, "OP_TUCK"); (OP_CAT, "OP_CAT"); (OP_SUBSTR, "OP_SUBSTR"); (OP_LEFT, "OP_LEFT"); (OP_RIGHT, "OP_RIGHT");
    (OP_SIZE, "OP_SIZE"); (OP_INVERT, "OP_INVERT"); (OP_AND, "OP_AND"); (OP_OR, "OP_OR"); (OP_XOR, "OP_XOR");
    (OP_EQUAL, "OP_EQUAL"); (OP_EQUALVERIFY, "OP_EQUALVERIFY"); (OP_RESERVED1, "OP_RESERVED1");
    (OP_RESERVED2, "OP_RESERVED2"); (OP_1ADD, "OP_1ADD"); (OP_1SUB, "OP_1SUB"); (OP_2MUL, "OP_2MUL");
    (OP_2DIV, "OP_2DIV"); (OP_NEGATE, "OP_NEGATE"); (OP_ABS, "OP_ABS"); (OP_NOT, "OP_NOT");
    (OP_0NOTEQUAL, "OP_0NOTEQUAL"); (OP_ADD, "OP_ADD"); (OP_SUB, "OP_SUB"); (OP_MUL, "OP_MUL"); (OP_DIV, "OP_DIV");
    (OP_MOD, "OP_MOD"); (OP_LSHIFT, "OP_LSHIFT"); (OP_RSHIFT, "OP_RSHIFT"); (OP_BOOLAND, "OP_BOOLAND");
    (OP_BOOLOR, "OP_BOOLOR"); (OP_NUMEQUAL, "OP_NUMEQUAL"); (OP_NUMEQUALVERIFY, "OP_NUMEQUALVERIFY");
    (OP_NUMNOTEQUAL, "OP_NUMNOTEQUAL"); (OP_LESSTHAN, "OP_LESSTHAN"); (OP_GREATERTHAN, "OP_GREATERTHAN");
    (OP_LESSTHANOREQUAL, "OP_LESSTHANOREQUAL"); (OP_GREATERTHANOREQUAL, "OP_GREATERTHANOREQUAL"); (OP_MIN, "OP_MIN");
    (OP_MAX, "OP_MAX"); (OP_WITHIN, "OP_WITHIN"); (OP_RIPEMD160, "OP_RIPEMD160"); (OP_SHA1, "OP_SHA1");
    (OP_SHA256, "OP_SHA256"); (OP_HASH160, "OP_HASH160"); (OP_HASH256, "OP_HASH256");
    (OP_CODESEPARATOR, "OP_CODESEPARATOR"); (OP_CHECKSIG, "OP_CHECKSIG"); (OP_CHECKSIGVERIFY, "OP_CHECKSIGVERIFY");
    (OP_CHECKMULTISIG, "OP_CHECKMULTISIG"); (OP_CHECKMULTISIGVERIFY, "OP_CHECKMULTISIGVERIFY"); (OP_NOP1, "OP_NOP1");
    (OP_CHECKLOCKTIMEVERIFY, "OP_CHECKLOCKTIMEVERIFY"); (OP_CHECKSEQUENCEVERIFY, "OP_CHECKSEQUENCEVERIFY");
    (OP_NOP4, "OP_NOP4"); (OP_NOP5, "OP_NOP5"); (OP_NOP6, "OP_NOP6"); (OP_NOP7, "OP_NOP7"); (OP_NOP8, "OP_NOP8");
    (OP_NOP9, "OP_NOP9"); (OP_NOP10, "OP_NOP10"); (OP_INVALIDOPCODE, "OP_INVALIDOPCODE") ].

Fixpoint find_case (opcode : Z) (cases : list (Z * string)) : option string :=
  match cases with
  | [] => None
  | (c, name) :: cases => if opcode =? c then Some name else find_case opcode cases
  end.

Definition GetOpName (opcode : Z) : string := default "OP_UNKNOWN"%string (find_case opcode op_names).

(** ** [ScriptErrorString] *)

Definition ScriptErrorString (serror : ScriptError) : string :=
  match serror with
  | SCRIPT_ERR_OK => "No error"
  | SCRIPT_ERR_EVAL_FALSE => "Script evaluated without error but finished with a false/empty top stack element"
  | SCRIPT_ERR_VERIFY => "Script failed an OP_VERIFY operation"
  | SCRIPT_ERR_EQUALVERIFY => "Script failed an OP_EQUALVERIFY operation"
  | SCRIPT_ERR_CHECKMULTISIGVERIFY => "Script failed an OP_CHECKMULTISIGVERIFY operation"
  | SCRIPT_ERR_CHECKSIGVERIFY => "Script failed an OP_CHECKSIGVERIFY operation"
  | SCRIPT_ERR_NUMEQUALVERIFY => "Script failed an OP_NUMEQUALVERIFY operation"
  | SCRIPT_ERR_SCRIPT_SIZE => "Script is too big"
  | SCRIPT_ERR_PUSH_SIZE => "Push value size limit exceeded"
  | SCRIPT_ERR_OP_COUNT => "Operation limit exceeded"
  | SCRIPT_ERR_STACK_SIZE => "Stack size limit exceeded"
  | SCRIPT_ERR_SIG_COUNT => "Signature count negative or greater than pubkey count"
  | SCRIPT_ERR_PUBKEY_COUNT => "Pubkey count negative or limit exceeded"
  | SCRIPT_ERR_BAD_OPCODE => "Opcode missing or not understood"
  | SCRIPT_ERR_DISABLED_OPCODE => "Attempted to use a disabled opcode"
  | SCRIPT_ERR_INVALID_STACK_OPERATION => "Operation not valid with the current stack size"
  | SCRIPT_ERR_INVALID_ALTSTACK_OPERATION => "Operation not valid with the current altstack size"
  | SCRIPT_ERR_OP_RETURN => "OP_RETURN was encountered"
  | SCRIPT_ERR_UNBALANCED_CONDITIONAL => "Invalid OP_IF construction"
  | SCRIPT_ERR_NEGATIVE_LOCKTIME => "Negative locktime"
  | SCRIPT_ERR_UNSATISFIED_LOCKTIME => "Locktime requirement not satisfied"
  | SCRIPT_ERR_SIG_HASHTYPE => "Signature hash type missing or not understood"
  | SCRIPT_ERR_SIG_DER => "Non-canonical DER signature"
  | SCRIPT_ERR_MINIMALDATA => "Data push larger than necessary"
  | SCRIPT_ERR_SIG_PUSHONLY => "Only non-push operators allowed in signatures"
  | SCRIPT_ERR_SIG_HIGH_S => "Non-canonical signature: S value is unnecessarily high"
  | SCRIPT_ERR_SIG_NULLDUMMY => "Dummy CHECKMULTISIG argument must be zero"
  | SCRIPT_ERR_MINIMALIF => "OP_IF/NOTIF argument must be minimal"
  | SCRIPT_ERR_SIG_NULLFAIL => "Signature must be zero for failed CHECK(MULTI)SIG operation"
  | SCRIPT_ERR_DISCOURAGE_UPGRADABLE_NOPS => "NOPx reserved for soft-fork upgrades"
  | SCRIPT_ERR_DISCOURAGE_UPGRADABLE_WITNESS_PROGRAM => "Witness version reserved for soft-fork upgrades"
  | SCRIPT_ERR_PUBKEYTYPE => "Public key is neither compressed or uncompressed"
  | SCRIPT_ERR_CLEANSTACK => "Extra items left on stack after execution"
  | SCRIPT_ERR_WITNESS_PROGRAM_WRONG_LENGTH => "Witness program has incorrect length"
  | SCRIPT_ERR_WITNESS_PROGRAM_WITNESS_EMPTY => "Witness program was passed an empty witness"
  | SCRIPT_ERR_WITNESS_PROGRAM_MISMATCH => "Witness program hash mismatch"
  | SCRIPT_ERR_WITNESS_MALLEATED => "Witness requires empty scriptSig"
  | SCRIPT_ERR_WITNESS_MALLEATED_P2SH => "Witness requires only-redeemscript scriptSig"
  | SCRIPT_ERR_WITNESS_UNEXPECTED => "Witness provided for non-witness script"
  | SCRIPT_ERR_WITNESS_PUBKEYTYPE => "Using non-compressed keys in segwit"
  | SCRIPT_ERR_OP_CODESEPARATOR => "Using OP_CODESEPARATOR in non-witness script"
  | SCRIPT_ERR_SIG_FINDANDDELETE => "Signature is found in scriptCode"
  | SCRIPT_ERR_UNKNOWN_ERROR => "unknown error"
  end.

(** ** Properties *)

Lemma switch_Some opcode cases name : find_case opcode cases = Some name → (opcode, name) ∈ cases.
Proof.
  induction cases as [|[c n] cases IH]; [done|]. cbn [find_case]. destruct (Z.eqb_spec opcode c) as [->|].
  - intros E. injection E as <-. apply list_elem_of_here.
  - intros E. by apply list_elem_of_further, IH.
Qed.

Lemma switch_None opcode cases : find_case opcode cases = None → opcode ∉ cases.*1.
Proof.
  induction cases as [|[c n] cases IH]; [intros _ He; inversion He|]. cbn [find_case fmap list_fmap fst].
  destruct (Z.eqb_spec opcode c); [done|]. intros E He. apply elem_of_cons in He as [?|He]; [done|]. by apply IH.
Qed.

(** The names of the table are different from each other and from the default. *)
Lemma op_names_distinct : NoDup (op_names.*2) ∧ "OP_UNKNOWN"%string ∉ op_names.*2.
Proof. split; apply (bool_decide_unpack _); vm_compute; exact I. Qed.

(** A name other than the default belongs to one opcode, and the opcodes without a name
    are the direct pushes of 1 to 75 bytes and those from 0xba to 0xfe. *)
Theorem GetOpName_tells_opcodes (a b : Z) :
  0 <= a <= 255 → (GetOpName a = GetOpName b → GetOpName a ≠ "OP_UNKNOWN"%string → a = b) ∧
  (GetOpName a = "OP_UNKNOWN"%string ↔ 1 <= a <= 75 ∨ 0xba <= a <= 0xfe).
Proof.
  intros Ha. destruct op_names_distinct as [Hd Hu]. unfold GetOpName. split.
  - destruct (find_case a op_names) as [n|] eqn:Ea; [|done]. destruct (find_case b op_names) as [m|] eqn:Eb; cbn; [|done].
    intros <- _. apply switch_Some, list_elem_of_lookup in Ea as [i Hi]. apply switch_Some, list_elem_of_lookup in Eb as [j Hj].
    assert (i = j) as ->; [|congruence]. apply (NoDup_lookup op_names.*2 i j n Hd); rewrite list_lookup_fmap; [by rewrite Hi|by rewrite Hj].
  - assert (Forall (λ x, GetOpName x = "OP_UNKNOWN"%string ↔ 1 <= x <= 75 ∨ 0xba <= x <= 0xfe) (Z.of_nat <$> seq 0 256)) as Hall.
    { apply (bool_decide_unpack _). vm_compute. exact I. }
    rewrite list.Forall_forall in Hall. apply (Hall a). apply list_elem_of_fmap. exists (Z.to_nat a). split; [lia|]. apply elem_of_seq. lia.
Qed.

(** Different errors have different texts. *)
Theorem ScriptErrorString_injective (a b : ScriptError) : ScriptErrorString a = ScriptErrorString b → a = b.
Proof. destruct a; (destruct b; intros E; first [reflexivity|discriminate E]). Qed.
