(* ===== verification/Block.v ===== *)
(** * Blocks: [block.h], [block.cpp]

    Headers and blocks with their serialization, the in-place computation of
    the Merkle root, and the genesis block.  [BlockHeader::SerializationOp] asks
    the virtual [IsHeader], so the serializer takes the dynamic answer. *)

From Stdlib Require Import String.
From stdpp Require Import base list numbers decidable.
From Equations Require Import Equations.
From S2P Require Import Prelude Uint256 Serialize Sha256 Script Tx.

Open Scope Z_scope.
Open Scope rd_scope.

Definition SER_GETHASH : Z := 4.

(** ** Data *)

Record BlockHeader := mk_BlockHeader {
  hd_nVersion : Z;
  hd_hashPrevBlock : blob;
  hd_hashMerkleRoot : blob;
  hd_nTime : Z;
  hd_nBits : Z;
  hd_nNonce : Z;
  hd_nTxCount : Z;       (* only memory *)
}.

Definition BlockHeader_null : BlockHeader := mk_BlockHeader 0 (blob_null 32) (blob_null 32) 0 0 0 0.
Definition BlockHeader_IsNull (h : BlockHeader) : bool := hd_nBits h =? 0.
Definition GetBlockTime (h : BlockHeader) : Z := hd_nTime h.

Record Block := mk_Block {
  blk_hd : BlockHeader;
  blk_vtx : list NetMessageTransaction;
}.

Definition Block_null : Block := mk_Block BlockHeader_null [].

(** [Block::GetBlockHeader] leaves the transaction count at its default. *)
Definition GetBlockHeader (b : Block) : BlockHeader :=
  let h := blk_hd b in
  mk_BlockHeader (hd_nVersion h) (hd_hashPrevBlock h) (hd_hashMerkleRoot h) (hd_nTime h) (hd_nBits h) (hd_nNonce h) 0.

(** ** Serialization *)

Definition ser_header (isHeader : bool) (v : Z) (h : BlockHeader) : list Z :=
  ser_int 4 (hd_nVersion h) ++ hd_hashPrevBlock h ++ hd_hashMerkleRoot h ++
  ser_int 4 (hd_nTime h) ++ ser_int 4 (hd_nBits h) ++ ser_int 4 (hd_nNonce h) ++
  (if isHeader && negb (has_flag v SER_GETHASH) then WriteCompactSize (hd_nTxCount h) else []).

Definition unser_header (isHeader : bool) (old : BlockHeader) : rd BlockHeader :=
  let! nVersion := unser_int 4 in
  let! hashPrevBlock := rd_into (hd_hashPrevBlock old) 32 in
  let! hashMerkleRoot := rd_into (hd_hashMerkleRoot old) 32 in
  let! nTime := unser_uint 4 in
  let! nBits := unser_uint 4 in
  let! nNonce := unser_uint 4 in
  let! v := rd_version in
  let! nTxCount := (if isHeader && negb (has_flag v SER_GETHASH) then ReadCompactSize else rd_ret (hd_nTxCount old)) in
  rd_ret (mk_BlockHeader nVersion hashPrevBlock hashMerkleRoot nTime nBits nNonce nTxCount).

Definition header_ok (isHeader : bool) (v : Z) (h : BlockHeader) : Prop :=
  sfits 32 (hd_nVersion h) ∧ blob_wf 32 (hd_hashPrevBlock h) ∧ blob_wf 32 (hd_hashMerkleRoot h) ∧
  fits 32 (hd_nTime h) ∧ fits 32 (hd_nBits h) ∧ fits 32 (hd_nNonce h) ∧
  if isHeader && negb (has_flag v SER_GETHASH) then 0 <= hd_nTxCount h <= MAX_SIZE else hd_nTxCount h = 0.

Lemma reads_header isHeader v h :
  header_ok isHeader v h → reads v (unser_header isHeader BlockHeader_null) (ser_header isHeader v h) h.
Proof.
  intros (Hv & Hp & Hm & Ht & Hb & Hn & Hc). unfold unser_header, ser_header.
  read_field reads_int. read_field reads_blob. read_field reads_blob.
  read_field reads_uint. read_field reads_uint. read_field reads_uint.
  eapply reads_bind_pure; [apply reads_rd_version|]. cbv beta.
  destruct (isHeader && _).
  - eapply reads_eq; [eapply reads_bind_ret; by apply reads_CompactSize|reflexivity|]. by destruct h.
  - eapply reads_eq; [eapply reads_bind_ret, reads_ret|reflexivity|]. destruct h. cbn in *. by subst.
Qed.

(** A transaction that survives the trip through a stream of version [v]. *)
Definition tx_carried (v : Z) (t : NetMessageTransaction) : Prop := tx_ok v t ∧ tx_view v t = t.

Lemma reads_tx_carried v t : tx_carried v t → reads v (unser_tx tx_default) (ser_tx v t) t.
Proof. intros [Hok Hv]. rewrite <- Hv at 2. by apply reads_tx. Qed.

#[global] Instance tx_Serializable : Serializable NetMessageTransaction := {
  ser_def := tx_default; serialize := ser_tx; unserialize := unser_tx;
  ser_ok := tx_carried; ser_law := reads_tx_carried }.

(** On a 64-bit machine with the string of libstdc++, the two hashes in the padding of the
    base class. *)
Definition sizeof_tx : Z := 168.

Definition ser_block (v : Z) (b : Block) : list Z := ser_header false v (blk_hd b) ++ ser_vec v (blk_vtx b).

Definition unser_block (old : Block) : rd Block :=
  let! hd := unser_header false (blk_hd old) in
  let! vtx := unser_vec sizeof_tx in
  rd_ret (mk_Block hd vtx).

Definition block_ok (v : Z) (b : Block) : Prop := header_ok false v (blk_hd b) ∧ vec_ok v (blk_vtx b).

Lemma reads_block v b : block_ok v b → reads v (unser_block Block_null) (ser_block v b) b.
Proof.
  intros [Hh Hv]. unfold unser_block, ser_block. eapply reads_bind; [by apply reads_header|]. cbv beta.
  eapply reads_eq; [eapply reads_bind_ret; by apply reads_vec|reflexivity|]. by destruct b.
Qed.

(** ** Hashes *)

(** [BlockHeader::GetHash]: [SerializeHash] with the default version
    [PROTOCOL_VERSION], on the object itself. *)
Definition header_GetHash (isHeader : bool) (h : BlockHeader) : blob :=
  SerializeHash_bytes (ser_header isHeader PROTOCOL_VERSION h).
Definition block_GetHash (b : Block) : blob := header_GetHash false (blk_hd b).

(** The 80 bytes the mining code serializes with [NetMessageData s(SER_GETHASH)]. *)
Definition mining_bytes (h : BlockHeader) : list Z := ser_header true SER_GETHASH h.

(** ** [ComputeMerkleRoot] *)

Definition hash_at (hashes : list blob) (i : nat) : blob := default [] (hashes !! i).

(** One iteration of [while (blocks > 0)]: 64 bytes from [pIn], 32 to [pOut], in
    the same array. *)
Definition merkle_step (i : nat) (st : SHA256_CPU * list blob) : SHA256_CPU * list blob :=
  let '(ctx, hashes) := st in
  let ctx := SHA256_CPU_Write ctx (hash_at hashes (2 * i) ++ hash_at hashes (2 * i + 1)) in
  let '(out, ctx) := DoubleHash256_Finalize ctx in
  (SHA256_CPU_Reset ctx, <[i := out]> hashes).

(** The comparison of neighbours, under its guard. *)
Fixpoint adjacent_equal (hashes : list blob) : bool :=
  match hashes with
  | a :: b :: hashes' => blob_eqb a b || adjacent_equal hashes'
  | _ => false
  end.

Fixpoint merkle_loop (fuel : nat) (ctx : SHA256_CPU) (hashes : list blob) (mutated : bool) : list blob * bool :=
  match fuel with
  | O => (hashes, mutated)
  | S fuel' =>
      if (length hashes <=? 1)%nat then (hashes, mutated)
      else
        let mutated := if mutated then mutated || adjacent_equal hashes else mutated in
        let hashes := if Nat.odd (length hashes) then hashes ++ [hash_at hashes (length hashes - 1)] else hashes in
        let nextLevelHashCount := (length hashes / 2)%nat in
        let '(ctx, hashes) := for_range 0 nextLevelHashCount merkle_step (ctx, hashes) in
        merkle_loop fuel' ctx (take nextLevelHashCount hashes) mutated
  end.

(** The number of hashes at least halves, so their count bounds the loop. *)
Definition ComputeMerkleRoot (txHashes : list blob) : blob * bool :=
  let '(hashes, mutated) := merkle_loop (length txHashes) (SHA256_CPU_new (replicate 64 0)) txHashes false in
  match hashes with
  | [] => (blob_null 32, mutated)
  | h :: _ => (h, mutated)
  end.

Definition MakeMerkleRoot (b : Block) : blob * bool :=
  ComputeMerkleRoot ((λ t, (tx_GetHash t).1) <$> blk_vtx b).

(** Defined for a block with at least one transaction. *)
Definition MakeWitnessMerkleRoot (b : Block) : option (blob * bool) :=
  match blk_vtx b with
  | [] => None
  | _ :: vtx => Some (ComputeMerkleRoot (blob_null 32 :: ((λ t, (tx_GetWitnessHash t).1) <$> vtx)))
  end.

(** ** The genesis block *)

(** [ParseHex] on a C string. *)
Fixpoint ParseHex_loop (fuel : nat) (psz : list Z) : list Z :=
  match fuel with
  | O => []
  | S fuel' =>
      match skip_spaces psz with
      | c0 :: c1 :: psz' =>
          if (HexDigit c0 =? -1) || (HexDigit c1 =? -1) then []
          else Z.lor (wrap8 (Z.shiftl (HexDigit c0) 4)) (HexDigit c1) :: ParseHex_loop fuel' psz'
      | _ => []
      end
  end.
Definition ParseHex (psz : list Z) : list Z := ParseHex_loop (length psz) psz.

Definition CreateGenesisBlock_script (pszTimestamp : list Z) (genesisOutputScript : CScript)
    (nTime nNonce nBits nVersion genesisReward : Z) : Block :=
  let scriptSig := push_data pszTimestamp (push_num 4 (push_int64 486604799 [])) in
  let txNew := mk_tx (blob_null 32) (blob_null 32)
    [mk_TxIn OutPoint_null scriptSig SEQUENCE_FINAL []]
    [mk_TxOut genesisReward genesisOutputScript false] 1 0 in
  let genesis := mk_Block (mk_BlockHeader nVersion (blob_null 32) (blob_null 32) nTime nBits nNonce 0) [txNew] in
  mk_Block (mk_BlockHeader nVersion (blob_null 32) (MakeMerkleRoot genesis).1 nTime nBits nNonce 0) [txNew].

Definition genesis_timestamp : list Z :=
  chars "The Times 03/Jan/2009 Chancellor on brink of second bailout for banks".
Definition genesis_pubkey : list Z := ParseHex (chars
  "04678afdb0fe5548271967f1a67130b7105cd6a828e03909a67962e0ea1f61deb649f6bc3f4cef38c4f35504e51ec112de5c384df7ba0b8d578a4c702b6bf11d5f").

Definition CreateGenesisBlock (nTime nNonce nBits nVersion genesisReward : Z) : Block :=
  CreateGenesisBlock_script genesis_timestamp (push_data genesis_pubkey [] ++ [OP_CHECKSIG])
    nTime nNonce nBits nVersion genesisReward.

Definition GetGenesisBlock : Block := CreateGenesisBlock 1296688602 2 0x207fffff 1 (50 * COIN).

(** ** Block indexes *)

Definition INVALID_BLOCK_HEIGHT : Z := -1.

Record BlockIndex := mk_BlockIndex {
  bi_height : Z;
  bi_hash : blob;
  bi_hashPrevBlock : blob;
  bi_hashNextBlock : blob;
  bi_block : Block;              (* only memory *)
  bi_blockHeader : BlockHeader;  (* only memory *)
}.

Definition BlockIndex_null : BlockIndex :=
  mk_BlockIndex INVALID_BLOCK_HEIGHT (blob_null 32) (blob_null 32) (blob_null 32) Block_null BlockHeader_null.

(** [BlockIndex(height, hash, prevBlock)] and [BlockIndex(block, height)]. *)
Definition new_BlockIndex (height : Z) (hash prevBlock : blob) : BlockIndex :=
  mk_BlockIndex height hash prevBlock (blob_null 32) Block_null BlockHeader_null.
Definition BlockIndex_of_block (block : Block) (height : Z) : BlockIndex :=
  new_BlockIndex height (block_GetHash block) (hd_hashPrevBlock (blk_hd block)).

Definition BlockIndex_eqb (a b : BlockIndex) : bool := blob_eqb (bi_hash b) (bi_hash a).
Definition BlockIndex_IsNull (i : BlockIndex) : bool := blob_IsNull (bi_hash i).

Definition ser_BlockIndex (v : Z) (i : BlockIndex) : list Z :=
  ser_int 8 (bi_height i) ++ bi_hash i ++ bi_hashPrevBlock i ++ bi_hashNextBlock i.

Definition unser_BlockIndex (old : BlockIndex) : rd BlockIndex :=
  let! height := unser_int 8 in
  let! hash := rd_into (bi_hash old) 32 in
  let! hashPrevBlock := rd_into (bi_hashPrevBlock old) 32 in
  let! hashNextBlock := rd_into (bi_hashNextBlock old) 32 in
  rd_ret (mk_BlockIndex height hash hashPrevBlock hashNextBlock (bi_block old) (bi_blockHeader old)).

(** What the stored form keeps of an index. *)
Definition index_stored (i : BlockIndex) : BlockIndex :=
  mk_BlockIndex (bi_height i) (bi_hash i) (bi_hashPrevBlock i) (bi_hashNextBlock i) Block_null BlockHeader_null.

Definition BlockIndex_ok (i : BlockIndex) : Prop :=
  sfits 64 (bi_height i) ∧ blob_wf 32 (bi_hash i) ∧ blob_wf 32 (bi_hashPrevBlock i) ∧ blob_wf 32 (bi_hashNextBlock i).

Lemma reads_BlockIndex v i :
  BlockIndex_ok i → reads v (unser_BlockIndex BlockIndex_null) (ser_BlockIndex v i) (index_stored i).
Proof.
  intros (Hh & H1 & H2 & H3). unfold unser_BlockIndex, ser_BlockIndex.
  read_field reads_int. read_field reads_blob. read_field reads_blob.
  eapply reads_eq; [eapply reads_bind_ret, reads_blob|reflexivity|]; done.
Qed.

(** ** The Merkle tree *)

(** One level: neighbours hashed together, a lone last hash with itself. *)
Fixpoint pair_hashes (l : list blob) : list blob :=
  match l with
  | a :: b :: l' => Hash256 (a ++ b) :: pair_hashes l'
  | [a] => [Hash256 (a ++ a)]
  | [] => []
  end.

Lemma length_pair_hashes l : length (pair_hashes l) = ((length l + 1) / 2)%nat.
Proof.
  assert (∀ n l, (length l <= n)%nat → length (pair_hashes l) = ((length l + 1) / 2)%nat) as H; [|by eapply H].
  induction n as [|n IH]; intros [|a [|b l']] Hl; simpl in Hl; try done; try lia.
  cbn [pair_hashes length]. rewrite IH by lia. divlia.
Qed.

(** The root, level by level. *)
Equations? merkle_root (l : list blob) : blob by wf (length l) lt :=
  merkle_root [] := blob_null 32;
  merkle_root [a] := a;
  merkle_root (a :: b :: l) := merkle_root (Hash256 (a ++ b) :: pair_hashes l).
Proof. rewrite length_pair_hashes. divlia. Qed.

Lemma merkle_root_pair l : (1 < length l)%nat → merkle_root l = merkle_root (pair_hashes l).
Proof. destruct l as [|a [|b l]]; simpl; try lia. intros _. by simp merkle_root. Qed.

(** ** The in-place loop computes one level *)

Definition dup_last (l : list blob) : list blob :=
  if Nat.odd (length l) then l ++ [hash_at l (length l - 1)] else l.

Lemma pair_hashes_dup l : pair_hashes (dup_last l) = pair_hashes l.
Proof.
  unfold dup_last. assert (∀ n l, (length l <= n)%nat →
    Nat.odd (length l) = true → pair_hashes (l ++ [hash_at l (length l - 1)]) = pair_hashes l) as H.
  { clear l. induction n as [|n IH]; intros [|a [|b l]] Hl Ho; simpl in Hl; try done; try lia.
    cbn [length] in Ho. rewrite Nat.odd_succ_succ in Ho.
    assert (length l ≠ 0)%nat by (intros E; by rewrite E in Ho).
    cbn [app pair_hashes]. rewrite <- (IH l) by (done || lia). do 4 f_equal.
    cbn [length]. replace (S (S (length l)) - 1)%nat with (S (S (length l - 1))) by lia. done. }
  destruct (Nat.odd (length l)) eqn:E; [by eapply H|done].
Qed.

Lemma length_dup_last l : l ≠ [] → length (dup_last l) = (2 * ((length l + 1) / 2))%nat.
Proof.
  intros Hne. unfold dup_last. destruct (Nat.odd (length l)) eqn:E.
  - apply Nat.odd_spec in E as [k E]. rewrite length_app, E. cbn [length]. divlia.
  - assert (Nat.even (length l) = true) as [k Ek]%Nat.even_spec by (rewrite <- Nat.negb_odd, E; done).
    rewrite Ek. divlia.
Qed.

Lemma pair_hashes_at l i :
  Nat.even (length l) = true → (2 * i + 1 < length l)%nat →
  pair_hashes l !! i = Some (Hash256 (hash_at l (2 * i) ++ hash_at l (2 * i + 1))).
Proof.
  revert i. assert (∀ n l i, (length l <= n)%nat → Nat.even (length l) = true → (2 * i + 1 < length l)%nat →
    pair_hashes l !! i = Some (Hash256 (hash_at l (2 * i) ++ hash_at l (2 * i + 1)))) as H; [|by intros; eapply H].
  clear l. induction n as [|n IH]; intros [|a [|b l]] i Hl He Hi; simpl in Hl; try (simpl in Hi; lia).
  destruct i as [|i]; [done|]. cbn [pair_hashes lookup list_lookup length] in *.
  rewrite Nat.even_succ_succ in He. rewrite IH by (done || lia).
  unfold hash_at. do 3 f_equal; replace (2 * S i)%nat with (S (S (2 * i))) by lia; done.
Qed.

Lemma Finalize_then_Reset ctx data :
  absorbed ctx [] → Z.of_nat (length data) < 2 ^ 61 →
  ∃ ctx', DoubleHash256_Finalize (SHA256_CPU_Write ctx data) = (Hash256 data, ctx') ∧
          absorbed (SHA256_CPU_Reset ctx') [].
Proof.
  intros Hctx Hlen. assert (absorbed (SHA256_CPU_Write ctx data) data) as Habs.
  { apply (Write_absorbed _ []); [done|]. rewrite app_nil_l. lia. }
  pose proof (DoubleHash256_Finalize_absorbed _ _ Habs Hlen) as E. rewrite <- Hash256_fips in E by done.
  unfold DoubleHash256_Finalize in *.
  destruct (Finalize_absorbed _ _ Habs Hlen) as (st' & E' & Habs'). rewrite E' in *.
  apply absorbed_Reset, Write_absorbed with (data := FIPS.SHA256 data) in Habs';
    [|rewrite app_nil_l, length_SHA256; lia].
  destruct (Finalize_absorbed _ _ Habs') as (st'' & E'' & Habs''); [rewrite app_nil_l, length_SHA256; lia|].
  rewrite E'' in *. cbn [fst] in E. exists st''. split; [by rewrite E|]. by eapply absorbed_Reset.
Qed.

Definition hashes_ok (l : list blob) : Prop := Forall (λ h, length h = 32%nat) l.

Lemma hash_at_ok l i : hashes_ok l → (length (hash_at l i) <= 32)%nat.
Proof.
  intros H. unfold hash_at. destruct (l !! i) eqn:E; [|simpl; lia].
  eapply Forall_lookup_1 in H; [|done]. simpl in *. lia.
Qed.

(** Before iteration [i] the first [i] entries are the next level and the rest of
    the array is untouched: no hash is overwritten before it is read. *)
Lemma merkle_level l n ctx :
  hashes_ok l → length l = (2 * n)%nat → absorbed ctx [] →
  let st := for_range 0 n merkle_step (ctx, l) in
  absorbed st.1 [] ∧ take n st.2 = pair_hashes l.
Proof.
  intros Hok Hl Hctx.
  assert (absorbed (for_range 0 n merkle_step (ctx, l)).1 [] ∧
          (for_range 0 n merkle_step (ctx, l)).2 = take n (pair_hashes l) ++ drop n l) as [H1 H2].
  { apply (for_range_ind (λ i st, absorbed st.1 [] ∧ st.2 = take i (pair_hashes l) ++ drop i l) 0 n); [done|].
    intros i [c hs] Hi [Hc Hs]. cbn [fst snd] in *. subst hs. cbn [merkle_step].
    assert (length (pair_hashes l) = n) as Hp by (rewrite length_pair_hashes, Hl; divlia).
    assert (length (take i (pair_hashes l)) = i) as Ht by (rewrite length_take_le; lia).
    assert (∀ k, (i <= k)%nat → hash_at (take i (pair_hashes l) ++ drop i l) k = hash_at l k) as Hsame.
    { intros k Hk. unfold hash_at. rewrite lookup_app_r by lia. rewrite Ht, lookup_drop. do 2 f_equal. lia. }
    rewrite !Hsame by lia.
    assert (Nat.even (length l) = true) as He by (rewrite Hl, Nat.even_mul; done).
    pose proof (pair_hashes_at l i He ltac:(lia)) as Hpi.
    pose proof (hash_at_ok l (2 * i) Hok). pose proof (hash_at_ok l (2 * i + 1) Hok).
    destruct (Finalize_then_Reset c (hash_at l (2 * i) ++ hash_at l (2 * i + 1)) Hc) as (c' & -> & Hc').
    { rewrite length_app. lia. }
    split; [done|]. cbn [snd]. rewrite (take_S_r _ _ _ Hpi).
    destruct (lookup_lt_is_Some_2 l i) as [x Hx]; [lia|].
    rewrite (drop_S _ _ _ Hx). rewrite <- Ht at 1. rewrite insert_app_r_alt by lia.
    rewrite Nat.sub_diag. cbn. by rewrite <- app_assoc. }
  assert (length (pair_hashes l) = n) as Hp by (rewrite length_pair_hashes, Hl; divlia).
  split; [done|]. rewrite H2, take_app_le by (rewrite length_take; lia).
  rewrite take_take, Nat.min_id. apply take_ge. lia.
Qed.

Lemma pair_hashes_ok l : hashes_ok l → hashes_ok (pair_hashes l).
Proof.
  assert (∀ n l, (length l <= n)%nat → hashes_ok l → hashes_ok (pair_hashes l)) as H; [|by eapply H].
  clear l. unfold hashes_ok. induction n as [|n IH]; intros [|a [|b l]] Hl Hok; simpl in Hl; try lia; try constructor.
  all: apply Forall_cons_1 in Hok as [Ha Hok].
  - apply length_Hash256. rewrite length_app. lia.
  - constructor.
  - apply Forall_cons_1 in Hok as [Hb Hok]. apply length_Hash256. rewrite length_app. lia.
  - apply Forall_cons_1 in Hok as [Hb Hok]. apply IH; [lia|done].
Qed.

Lemma dup_last_ok l : l ≠ [] → hashes_ok l → hashes_ok (dup_last l).
Proof.
  intros Hne H. unfold dup_last. destruct (Nat.odd _); [|done]. apply Forall_snoc; [done|].
  unfold hash_at. destruct (lookup_lt_is_Some_2 l (length l - 1)) as [x Hx]; [destruct l; simpl; [done|lia]|].
  rewrite Hx. by eapply Forall_lookup_1 in H.
Qed.

Lemma merkle_loop_spec fuel ctx l :
  hashes_ok l → l ≠ [] → absorbed ctx [] → (length l <= fuel)%nat →
  merkle_loop fuel ctx l false = ([merkle_root l], false).
Proof.
  revert ctx l. induction fuel as [|fuel IH]; intros ctx l Hok Hne Hctx Hf; [by destruct l; [|simpl in Hf; lia]|].
  cbn [merkle_loop]. destruct (Nat.leb_spec (length l) 1).
  { destruct l as [|a [|b l]]; [done|by simp merkle_root|simpl in *; lia]. }
  cbv zeta. fold (dup_last l). pose proof (length_dup_last l Hne) as Hd.
  rewrite Hd, Nat.mul_comm, Nat.div_mul by lia.
  pose proof (merkle_level (dup_last l) ((length l + 1) / 2) ctx (dup_last_ok l Hne Hok) Hd Hctx) as [H1 H2].
  destruct (for_range _ _ _ _) as [c hs]. cbn [fst snd] in *. rewrite H2, pair_hashes_dup.
  rewrite (merkle_root_pair l) by done. apply IH; [by apply pair_hashes_ok| |done|].
  - intros E. apply (f_equal length) in E. rewrite length_pair_hashes in E. cbn [length] in E. divlia.
  - rewrite length_pair_hashes. divlia.
Qed.

Lemma ComputeMerkleRoot_root l : hashes_ok l → ComputeMerkleRoot l = (merkle_root l, false).
Proof.
  intros Hok. unfold ComputeMerkleRoot. destruct l as [|a l]; [by simp merkle_root|].
  rewrite merkle_loop_spec; [done|done|done|by apply absorbed_new|done].
Qed.

(** ** Header bytes *)

Lemma length_ser_int n x : length (ser_int n x) = n.
Proof. apply length_le_bytes. Qed.

Definition header_wf (h : BlockHeader) : Prop :=
  blob_wf 32 (hd_hashPrevBlock h) ∧ blob_wf 32 (hd_hashMerkleRoot h).

Lemma mining_bytes_eq isHeader h : ser_header isHeader PROTOCOL_VERSION h = mining_bytes h.
Proof. unfold mining_bytes, ser_header. by destruct isHeader. Qed.

Lemma length_mining_bytes h : header_wf h → length (mining_bytes h) = 80%nat.
Proof.
  intros [[Hp _] [Hm _]]. unfold mining_bytes, ser_header. change (true && _) with false. cbv iota.
  by rewrite !length_app, !length_ser_int, Hp, Hm.
Qed.

Lemma bytes_mining_bytes h : header_wf h → bytes_ok (mining_bytes h).
Proof.
  intros [[_ Hp] [_ Hm]]. unfold mining_bytes, ser_header, ser_int. change (true && _) with false. cbv iota.
  repeat (apply Forall_app; split); try apply le_bytes_ok; try done.
Qed.

Definition set_nonce (nonce : Z) (h : BlockHeader) : BlockHeader :=
  mk_BlockHeader (hd_nVersion h) (hd_hashPrevBlock h) (hd_hashMerkleRoot h) (hd_nTime h) (hd_nBits h) nonce (hd_nTxCount h).

Definition set_block_nonce (nonce : Z) (b : Block) : Block := mk_Block (set_nonce nonce (blk_hd b)) (blk_vtx b).

(** The nonce is the last four bytes. *)
Lemma take_mining_bytes h nonce :
  header_wf h → fits 32 nonce →
  take 76 (mining_bytes h) ++ le_bytes 4 nonce = mining_bytes (set_nonce nonce h).
Proof.
  intros [[Hp _] [Hm _]] Hn. unfold mining_bytes, ser_header. change (true && _) with false. cbv iota.
  cbn [set_nonce hd_nVersion hd_hashPrevBlock hd_hashMerkleRoot hd_nTime hd_nBits hd_nNonce].
  rewrite !app_nil_r. rewrite !app_assoc. f_equal.
  - rewrite take_app_length'; [done|]. by rewrite !length_app, !length_ser_int, Hp, Hm.
  - unfold ser_int. by rewrite (wrap_id _ nonce).
Qed.

Lemma Hash256_wf data : Z.of_nat (length data) < 2 ^ 61 → blob_wf 32 (Hash256 data).
Proof. intros. rewrite Hash256_fips by done. split; [apply length_SHA256|apply SHA256_bytes]. Qed.

Lemma block_hash_wf b : header_wf (blk_hd b) → blob_wf 32 (block_GetHash b).
Proof.
  intros Hwf. unfold block_GetHash, header_GetHash, SerializeHash_bytes. rewrite mining_bytes_eq.
  apply Hash256_wf. rewrite length_mining_bytes by done. lia.
Qed.

(** ** Properties *)

(** A block whose fields fit the format is read back from its serialization:
    header, transactions and (where the stream allows them) witnesses. *)
Theorem block_roundtrip (v : Z) (b : Block) (s : NetMessageData) (rest : list Z) :
  block_ok v b → nd_nVersion s = v → avail s (ser_block v b ++ rest) →
  unser_block Block_null s = Done (b, nd_advance (length (ser_block v b)) s).
Proof. intros Hok Hv Ha. by eapply reads_block. Qed.

Definition sample_block : Block :=
  mk_Block (mk_BlockHeader 1 (replicate 32 9) (replicate 32 8) 1296688602 0x207fffff 2 0) [sample_tx].

Lemma block_roundtrip_witness :
  unser_block Block_null (nd_of_buffer (ser_block 0 sample_block) 0) =
    Done (sample_block, nd_advance (length (ser_block 0 sample_block)) (nd_of_buffer (ser_block 0 sample_block) 0)).
Proof.
  apply (block_roundtrip 0 sample_block _ []); [|reflexivity|unfold avail; split_and!; vm_compute; congruence].
  split.
  - split_and!; try done; (split; [done|by apply Forall_replicate]).
  - split; [done|]. apply Forall_cons_2; [|constructor]. split; [apply sample_tx_ok|reflexivity].
Defined.

(** C31: [ComputeMerkleRoot], which overwrites the array of hashes level by level
    with one reused hashing context, terminates and returns the root of the
    Merkle tree over the given hashes. *)
Theorem ComputeMerkleRoot_correct (txHashes : list blob) :
  Forall (λ h, length h = 32%nat) txHashes → (ComputeMerkleRoot txHashes).1 = merkle_root txHashes.
Proof. intros H. by rewrite ComputeMerkleRoot_root. Qed.

Lemma ComputeMerkleRoot_correct_witness :
  (ComputeMerkleRoot [replicate 32 1; replicate 32 2; replicate 32 3]).1 =
    merkle_root [replicate 32 1; replicate 32 2; replicate 32 3].
Proof. apply ComputeMerkleRoot_correct. repeat (apply Forall_cons_2; [reflexivity|]). constructor. Defined.

(** The mutation flag is never raised, because the check of neighbouring
    hashes runs only when the flag is already set: a block whose last
    transaction hashes are repeated (CVE-2012-2459) has the root of the original
    and is reported as unmutated. *)
Theorem ComputeMerkleRoot_misses_duplicates (a b c : blob) :
  length a = 32%nat → length b = 32%nat → length c = 32%nat →
  ComputeMerkleRoot [a; b; c; c] = ComputeMerkleRoot [a; b; c] ∧ (ComputeMerkleRoot [a; b; c; c]).2 = false.
Proof.
  intros Ha Hb Hc. assert (hashes_ok [a; b; c] ∧ hashes_ok [a; b; c; c]) as [H3 H4]
    by (split; repeat (apply Forall_cons_2; [done|]); constructor).
  rewrite (ComputeMerkleRoot_root [a; b; c; c] H4), (ComputeMerkleRoot_root [a; b; c] H3).
  rewrite (merkle_root_pair [a; b; c; c]), (merkle_root_pair [a; b; c]) by (cbn [length]; lia).
  cbn [pair_hashes]. split; reflexivity.
Qed.

Lemma ComputeMerkleRoot_misses_duplicates_witness :
  (ComputeMerkleRoot [replicate 32 1; replicate 32 2; replicate 32 3; replicate 32 3]).2 = false.
Proof.
  refine (proj2 (ComputeMerkleRoot_misses_duplicates (replicate 32 1) (replicate 32 2) (replicate 32 3) _ _ _)); reflexivity.
Defined.

(** The regression-test genesis block has the hash and the Merkle root that
    [TestBlock] compares it with. *)
Theorem genesis_block_hash :
  block_GetHash GetGenesisBlock =
    uint256S (chars "0x0f9188f13cb7b2c71f2a335e3a4fc328bf5beb436012afca590b1a11466e2206") ∧
  hd_hashMerkleRoot (blk_hd GetGenesisBlock) =
    uint256S (chars "0x4a5e1e4baab89f3a32518a88c31bc87f618f76673e2cc77ab2127b7afdeda33b").
Proof. split; vm_compute; reflexivity. Qed.
