(* ===== verification/GpuMiner.v ===== *)
(** * The mining loop: [BTC_SHA256_GPU::SyncStart], [CheckResults], [Reset], [Stop]
      of [btc_sha256_gpu.cpp], with the callbacks of [Miner::StartGPU]

    Two threads share the run state and the current block.  The mining thread
    asks for a block, pads its header, launches batches of work items and posts
    each batch of results to a worker; the worker scans the results, writes the
    nonce it finds into the block (a shared pointer) and raises [RESTERT].  The
    blocks live in a heap, [std::shared_ptr<Block>] is an index into it.  Posted
    jobs run in order.  A step of a thread holds one access to the run state or to
    a block and what the thread does by itself next to it; a new block is known to
    no other thread until its first results are posted, the results of a job are
    not written after the post, and taking a job, which only the worker does, is
    one step with the nonce it writes.

    The size of a launch is read as a [size_t] from the address of a [uint32_t].
    The four bytes behind that variable are an argument of the launch step, and
    what the theorems assume of them is part of their statement. *)

From stdpp Require Import base list numbers decidable.
From S2P Require Import Prelude ArithUint256 Uint256 Serialize Sha256 Sha256Gpu Script Tx Block.

Open Scope Z_scope.

Inductive run_state := RUNING | RESTERT | STOP.

#[global] Instance run_state_eq_dec : EqDecision run_state.
Proof. solve_decision. Defined.

(** Where the mining thread stands: before the [switch]; in the [RESTERT] case before
    [_runState] is set, before the report of the last block, before the request for
    the next one; before a launch; returned. *)
Inductive miner_pc := PSwitch | PRestart | PReport | PNewBlock | PBatch | PDone.

(** The closure posted by [CheckResults]. *)
Record check_job := mk_job {
  job_vResult : list blob;
  job_nonceOffset : Z;
  job_block : nat;
  job_bnTarget : limbs;
}.

Record miner := mk_miner {
  m_pc : miner_pc;
  m_runState : run_state;       (* _runState *)
  m_heap : list Block;          (* the blocks behind the shared pointers *)
  m_block : option nat;         (* block *)
  m_input : list Z;             (* inputBuffer of the device *)
  m_output : list Z;            (* outputBuffer of the device *)
  m_nonceOffset : Z;            (* nonceOffset *)
  m_bnTarget : limbs;           (* bnTarget *)
  m_jobs : list check_job;      (* posted to _checkResultWorker *)
  m_resetting : bool;           (* the worker wrote a nonce and is about to call Reset *)
  m_found : list Block;         (* what _fondNewBlockCallback was called with *)
}.

(** [funcBuildTarget]; its result is ignored by the caller. *)
Definition build_target (nBits : Z) : limbs := (SetCompact nBits).1.1.

(** The range check after a launch: all of it is [uint32_t]. *)
Definition nonce_out_of_range (nonceOffset threadCount : Z) : bool :=
  wrap32 (nonceOffset + threadCount) >? 2 ^ 32 - 1.

(** [(size_t * )&workerCount]: eight bytes are read from a four-byte variable; [above] is
    what the four bytes behind it hold. *)
Definition global_work_size (workerCount : Z) (above : list Z) : Z := le_value (le_bytes 4 workerCount ++ above).

(** [TBlockHeaderBytes headerBytes(128)], the serialized header, the padding. *)
Definition padded_header (b : Block) : list Z :=
  PadBlockHaderData (splice (replicate PADDED_BLOCKHEADER_SIZE 0) 0 (mining_bytes (GetBlockHeader b))).

Section machine.
Context (threadCount : nat) (neighbour : list Z → Prop).

Definition miner_init (output : list Z) : miner :=
  mk_miner PSwitch RESTERT [] None [] output 0 bu_zero [] false [].

Definition set_pc (pc : miner_pc) (s : miner) : miner :=
  mk_miner pc (m_runState s) (m_heap s) (m_block s) (m_input s) (m_output s) (m_nonceOffset s) (m_bnTarget s)
    (m_jobs s) (m_resetting s) (m_found s).

(** [_runState = r], by [Reset], [Stop] and the mining thread. *)
Definition set_run_state (r : run_state) (s : miner) : miner :=
  mk_miner (m_pc s) r (m_heap s) (m_block s) (m_input s) (m_output s) (m_nonceOffset s) (m_bnTarget s)
    (m_jobs s) (m_resetting s) (m_found s).

(** [switch (_runState)]: the run state is read. *)
Definition do_switch (s : miner) : miner :=
  match m_runState s with
  | RESTERT => set_pc PRestart s
  | STOP => set_pc PDone s
  | RUNING => set_pc PBatch s
  end.

(** The [RESTERT] case: the run state is written, whatever it is by now. *)
Definition do_restart (s : miner) : miner := set_run_state RUNING (set_pc PReport s).

(** [_fondNewBlockCallback], with the block as it is now. *)
Definition do_report (s : miner) : miner :=
  let found := match m_block s with
               | Some r => match m_heap s !! r with Some b => [b] | None => [] end
               | None => []
               end in
  mk_miner PNewBlock (m_runState s) (m_heap s) (m_block s) (m_input s) (m_output s) (m_nonceOffset s) (m_bnTarget s)
    (m_jobs s) (m_resetting s) (m_found s ++ found).

(** The rest of the [RESTERT] case, with the block the callback provides. *)
Definition do_new_block (b : Block) (s : miner) : miner :=
  mk_miner PBatch (m_runState s) (m_heap s ++ [b]) (Some (length (m_heap s))) (padded_header b) (m_output s)
    0 (build_target (hd_nBits (blk_hd b))) (m_jobs s) (m_resetting s) (m_found s).

(** A launch, the read of its results, the post to the worker, the range check. *)
Definition do_batch (order : list nat) (s : miner) : miner :=
  match m_block s with
  | None => s
  | Some r =>
      let output := launch (m_input s) (m_nonceOffset s) order (m_output s) in
      let vResult := result_at output <$> seq 0 threadCount in
      let job := mk_job vResult (m_nonceOffset s) r (m_bnTarget s) in
      if nonce_out_of_range (m_nonceOffset s) (Z.of_nat threadCount)
      then mk_miner PDone (m_runState s) (m_heap s) (m_block s) (m_input s) output (m_nonceOffset s)
             (m_bnTarget s) (m_jobs s ++ [job]) (m_resetting s) (m_found s)
      else mk_miner PSwitch (m_runState s) (m_heap s) (m_block s) (m_input s) output
             (wrap32 (m_nonceOffset s + Z.of_nat threadCount)) (m_bnTarget s) (m_jobs s ++ [job]) (m_resetting s) (m_found s)
  end.

(** The worker takes the oldest job and, when it finds a solution, writes the nonce. *)
Definition do_check (s : miner) : miner :=
  match m_jobs s with
  | [] => s
  | j :: jobs =>
      match CheckResults_scan 0 (job_nonceOffset j) (job_vResult j) (job_bnTarget j) with
      | None => mk_miner (m_pc s) (m_runState s) (m_heap s) (m_block s) (m_input s) (m_output s) (m_nonceOffset s)
                  (m_bnTarget s) jobs (m_resetting s) (m_found s)
      | Some nonce =>
          mk_miner (m_pc s) (m_runState s) (alter (set_block_nonce nonce) (job_block j) (m_heap s)) (m_block s) (m_input s)
            (m_output s) (m_nonceOffset s) (m_bnTarget s) jobs true (m_found s)
      end
  end.

(** The worker's [Reset()], after the nonce is written. *)
Definition do_worker_reset (s : miner) : miner :=
  mk_miner (m_pc s) RESTERT (m_heap s) (m_block s) (m_input s) (m_output s) (m_nonceOffset s) (m_bnTarget s)
    (m_jobs s) false (m_found s).

(** A launch runs every item of the size it was given once, in any order; [Reset] and
    [Stop] come from other threads at any time. *)
Inductive miner_step : miner → miner → Prop :=
  | step_switch s : m_pc s = PSwitch → miner_step s (do_switch s)
  | step_restart s : m_pc s = PRestart → miner_step s (do_restart s)
  | step_report s : m_pc s = PReport → miner_step s (do_report s)
  | step_new_block s b : m_pc s = PNewBlock → header_wf (blk_hd b) → miner_step s (do_new_block b s)
  | step_batch s above order : m_pc s = PBatch → neighbour above →
      order ≡ₚ seq 0 (Z.to_nat (global_work_size (Z.of_nat threadCount) above)) → miner_step s (do_batch order s)
  | step_check s : m_resetting s = false → miner_step s (do_check s)
  | step_worker_reset s : m_resetting s = true → miner_step s (do_worker_reset s)
  | step_Reset s : miner_step s (set_run_state RESTERT s)
  | step_Stop s : miner_step s (set_run_state STOP s).

(** Reachable from a start with any contents of the output buffer. *)
Inductive miner_reachable : miner → Prop :=
  | reach_init output : length output = (32 * threadCount)%nat → miner_reachable (miner_init output)
  | reach_step s s' : miner_reachable s → miner_step s s' → miner_reachable s'.

(** ** Invariant *)

Hypothesis count_ok : Z.of_nat threadCount * 32 <= 2 ^ 31.
Hypothesis neighbour_zero : ∀ above, neighbour above → above = replicate 4 0.

(** The results of a job are the hashes of its block under consecutive nonces,
    whatever nonce the block itself carries by now. *)
Definition job_ok (heap : list Block) (j : check_job) : Prop :=
  ∃ b, heap !! job_block j = Some b ∧
    job_bnTarget j = build_target (hd_nBits (blk_hd b)) ∧
    length (job_vResult j) = threadCount ∧
    ∀ i, (i < threadCount)%nat →
      job_vResult j !! i = Some (block_GetHash (set_block_nonce (wrap32 (job_nonceOffset j + Z.of_nat i)) b)).

(** The device input is the padded header of the current block, up to the nonce. *)
Definition current_ok (s : miner) : Prop :=
  ∃ r b header, m_block s = Some r ∧ m_heap s !! r = Some b ∧
    m_bnTarget s = build_target (hd_nBits (blk_hd b)) ∧
    m_input s = FIPS.pad header ∧ length header = 80%nat ∧ bytes_ok header ∧
    take 76 header = take 76 (mining_bytes (blk_hd b)).

Definition miner_inv (s : miner) : Prop :=
  length (m_output s) = (32 * threadCount)%nat ∧
  Forall (λ b, header_wf (blk_hd b)) (m_heap s) ∧
  Forall (job_ok (m_heap s)) (m_jobs s) ∧
  (m_block s = None ∨ current_ok s) ∧
  (m_pc s = PBatch → current_ok s) ∧
  (m_block s = None → m_pc s = PSwitch → m_runState s ≠ RUNING).

Lemma header_wf_set_nonce nonce b : header_wf (blk_hd (set_block_nonce nonce b)) ↔ header_wf (blk_hd b).
Proof. done. Qed.

Lemma block_hash_with_nonce header b nonce :
  header_wf (blk_hd b) → fits 32 nonce → take 76 header = take 76 (mining_bytes (blk_hd b)) →
  Hash256 (with_nonce header nonce) = block_GetHash (set_block_nonce nonce b).
Proof.
  intros Hwf Hn Ht. unfold with_nonce, block_GetHash, header_GetHash, SerializeHash_bytes.
  rewrite Ht, take_mining_bytes, mining_bytes_eq by done. done.
Qed.

Lemma take_mining_set_nonce nonce h :
  header_wf h → take 76 (mining_bytes (set_nonce nonce h)) = take 76 (mining_bytes h).
Proof.
  intros Hwf.
  assert (∀ h', header_wf h' → take 76 (mining_bytes h') =
    ser_int 4 (hd_nVersion h') ++ hd_hashPrevBlock h' ++ hd_hashMerkleRoot h' ++
    ser_int 4 (hd_nTime h') ++ ser_int 4 (hd_nBits h')) as H; [|by rewrite !H].
  clear. intros h [[Hp _] [Hm _]]. unfold mining_bytes, ser_header. change (true && _) with false. cbv iota.
  rewrite app_nil_r, !app_assoc. apply take_app_length'. by rewrite !length_app, !length_ser_int, Hp, Hm.
Qed.

Lemma job_ok_app heap b j : job_ok heap j → job_ok (heap ++ [b]) j.
Proof. intros (b' & Hb & ?). exists b'. split; [by apply lookup_app_l_Some|done]. Qed.

Lemma job_ok_set_nonce heap r nonce j :
  job_ok heap j → job_ok (alter (set_block_nonce nonce) r heap) j.
Proof.
  intros (b & Hb & Ht & Hl & Hr). destruct (decide (r = job_block j)) as [->|Hne].
  - exists (set_block_nonce nonce b). rewrite list_lookup_alter_eq, Hb. by split_and!.
  - exists b. by rewrite list_lookup_alter_ne.
Qed.

Lemma current_ok_set_nonce s r nonce jobs :
  Forall (λ b, header_wf (blk_hd b)) (m_heap s) → current_ok s →
  current_ok (mk_miner (m_pc s) (m_runState s) (alter (set_block_nonce nonce) r (m_heap s)) (m_block s) (m_input s)
    (m_output s) (m_nonceOffset s) (m_bnTarget s) jobs true (m_found s)).
Proof.
  intros Hwf (r' & b & header & Hr & Hb & Ht & Hin & Hl & Hok & Htake).
  destruct (decide (r = r')) as [->|Hne].
  - exists r', (set_block_nonce nonce b), header. cbn. rewrite list_lookup_alter_eq, Hb. split_and!; try done.
    rewrite Htake. symmetry. apply take_mining_set_nonce. by eapply Forall_lookup_1 in Hwf.
  - exists r', b, header. cbn. by rewrite list_lookup_alter_ne.
Qed.

Lemma current_ok_ext s s' :
  m_block s' = m_block s → m_heap s' = m_heap s → m_bnTarget s' = m_bnTarget s → m_input s' = m_input s →
  current_ok s → current_ok s'.
Proof. unfold current_ok. by intros -> -> -> ->. Qed.

(** The padded header of a new block. *)
Lemma padded_header_spec b :
  header_wf (blk_hd b) → padded_header b = FIPS.pad (mining_bytes (blk_hd b)).
Proof.
  intros Hwf. unfold padded_header.
  change (mining_bytes (GetBlockHeader b)) with (mining_bytes (blk_hd b)).
  pose proof (length_mining_bytes _ Hwf) as Hl. unfold PADDED_BLOCKHEADER_SIZE.
  rewrite <- (take_drop 80 (replicate 128 0)), splice_0 by (by rewrite Hl).
  by apply PadBlockHaderData_pad.
Qed.

Lemma results_lookup output i :
  (i < threadCount)%nat → (result_at output <$> seq 0 threadCount) !! i = Some (result_at output i).
Proof. intros Hi. by rewrite list_lookup_fmap, lookup_seq_lt. Qed.

Lemma launch_block_hashes header b nonceOffset order pOut i :
  length header = 80%nat → bytes_ok header → header_wf (blk_hd b) →
  take 76 header = take 76 (mining_bytes (blk_hd b)) →
  length pOut = (32 * threadCount)%nat → order ≡ₚ seq 0 threadCount → (i < threadCount)%nat →
  result_at (launch (FIPS.pad header) nonceOffset order pOut) i =
    block_GetHash (set_block_nonce (wrap32 (nonceOffset + Z.of_nat i)) b).
Proof.
  intros Hl Hok Hwf Htake Hout Hperm Hi. rewrite (launch_result_at header nonceOffset threadCount) by done.
  apply block_hash_with_nonce; [done|apply wrap_fits; lia|done].
Qed.

Lemma batch_job_ok s order r output :
  miner_inv s → current_ok s → m_block s = Some r → order ≡ₚ seq 0 threadCount →
  output = launch (m_input s) (m_nonceOffset s) order (m_output s) →
  length output = (32 * threadCount)%nat ∧
  job_ok (m_heap s) (mk_job (result_at output <$> seq 0 threadCount) (m_nonceOffset s) r (m_bnTarget s)).
Proof.
  intros (Hout & Hwf & _) (r' & b & header & Hr & Hb & Ht & Hin & Hl & Hok & Htake) Hrr Hperm Eo.
  rewrite Hr in Hrr. injection Hrr as <-. rewrite Hin in Eo.
  split; [rewrite Eo; by apply (length_launch header _ threadCount)|].
  exists b. cbn [job_block job_bnTarget job_vResult job_nonceOffset].
  split_and!; [done|done|by rewrite length_fmap, length_seq|].
  intros i Hi. rewrite results_lookup by done. f_equal. rewrite Eo.
  apply launch_block_hashes; try done. by eapply Forall_lookup_1 in Hwf.
Qed.

Lemma global_work_size_zero above : neighbour above → Z.to_nat (global_work_size (Z.of_nat threadCount) above) = threadCount.
Proof using count_ok neighbour_zero.
  intros ->%neighbour_zero. unfold global_work_size. rewrite le_value_app, le_value_le_bytes.
  rewrite Z.mod_small by lia. change (le_value (replicate 4 0)) with 0. lia.
Qed.

Lemma miner_inv_step s s' : miner_inv s → miner_step s s' → miner_inv s'.
Proof.
  intros Hinv Hstep. pose proof Hinv as (Hout & Hwf & Hjobs & Hcur & Hbatch & Hnone).
  destruct Hstep as [s Hpc|s Hpc|s Hpc|s b Hpc Hb|s above order Hpc Hz Hperm|s Hw|s Hw|s|s].
  - unfold do_switch. destruct (m_runState s) eqn:Ers; unfold miner_inv; cbn; split_and!; try done; try tauto.
  - unfold miner_inv. cbn. by split_and!.
  - unfold miner_inv. cbn. by split_and!.
  - unfold miner_inv, do_new_block. cbn.
    assert (current_ok (do_new_block b s)) as Hc.
    { exists (length (m_heap s)), b, (mining_bytes (blk_hd b)). cbn. rewrite lookup_app_r, Nat.sub_diag by done.
      split_and!; try done; [by apply padded_header_spec|by apply length_mining_bytes|by apply bytes_mining_bytes]. }
    split_and!; try done; [by apply Forall_snoc| |by right].
    eapply Forall_impl; [|exact Hjobs]. intros. by apply job_ok_app.
  - rewrite global_work_size_zero in Hperm by done. specialize (Hbatch Hpc). unfold do_batch. destruct (m_block s) as [r|] eqn:Er; [|done].
    destruct (batch_job_ok s order r _ Hinv Hbatch Er Hperm eq_refl) as [Hl Hj].
    destruct (nonce_out_of_range _ _); unfold miner_inv; cbn;
      (split_and!; try done; [by apply Forall_snoc|right; by apply (current_ok_ext s)]).
  - unfold do_check. destruct (m_jobs s) as [|j jobs] eqn:Ej; [done|].
    apply Forall_cons_1 in Hjobs as [Hj Hjobs].
    destruct (CheckResults_scan _ _ _ _) as [nonce|]; unfold miner_inv; cbn; [|by split_and!].
    split_and!; [done| | | | |done].
    + apply Forall_alter; [done|]. intros x _ Hx. exact Hx.
    + eapply Forall_impl; [|exact Hjobs]. intros. by apply job_ok_set_nonce.
    + destruct Hcur as [?|?]; [by left|right; by apply current_ok_set_nonce].
    + intros Hpc. apply current_ok_set_nonce; auto.
  - unfold miner_inv. cbn. by split_and!.
  - unfold miner_inv. cbn. by split_and!.
  - unfold miner_inv. cbn. by split_and!.
Qed.

Lemma miner_inv_reachable s : miner_reachable s → miner_inv s.
Proof.
  induction 1 as [output Hl|s s' _ IH Hstep]; [|by eapply miner_inv_step].
  unfold miner_inv. cbn. split_and!; try done. by left.
Qed.

Lemma job_results_wf heap j :
  Forall (λ b, header_wf (blk_hd b)) heap → job_ok heap j → Forall (blob_wf 32) (job_vResult j).
Proof.
  intros Hwf (b & Hb & _ & Hl & Hr). apply Forall_lookup_2. intros i h Hi.
  pose proof (lookup_lt_Some _ _ _ Hi). rewrite Hr in Hi by lia. injection Hi as <-.
  apply block_hash_wf, header_wf_set_nonce. by eapply Forall_lookup_1 in Hwf.
Qed.

(** Only the worker changes a block that exists, and only to a nonce that solves it. *)
Lemma check_meets_target s r b b' :
  miner_inv s → m_heap s !! r = Some b → m_heap (do_check s) !! r = Some b' → b' ≠ b →
  le_value (block_GetHash b') <= value (build_target (hd_nBits (blk_hd b'))).
Proof.
  intros (_ & Hwf & Hjobs & _) Hb Hb' Hne.
  unfold do_check in Hb'. destruct (m_jobs s) as [|j jobs]; [congruence|].
  apply Forall_cons_1 in Hjobs as [Hj _]. pose proof (job_results_wf _ j Hwf Hj) as Hrw.
  destruct Hj as (bj & Hbj & Ht & Hl & Hr).
  pose proof (CheckResults_scan_spec (job_vResult j) (job_bnTarget j) (job_nonceOffset j) 0) as Hscan.
  rewrite Ht in Hscan at 1. specialize (Hscan (SetCompact_wf _) Hrw).
  destruct (CheckResults_scan _ _ _ _) as [nonce|]; cbn [m_heap] in Hb'; [|congruence].
  destruct Hscan as (k & hash & Hk & -> & Hle & _).
  destruct (decide (job_block j = r)) as [<-|Hdiff]; [|rewrite list_lookup_alter_ne in Hb' by done; congruence].
  rewrite list_lookup_alter_eq, Hbj in Hb'. injection Hb' as <-. rewrite Hbj in Hb. injection Hb as <-.
  pose proof (lookup_lt_Some _ _ _ Hk). rewrite Hr in Hk by lia. injection Hk as <-.
  rewrite Ht in Hle. exact Hle.
Qed.

Lemma step_changes_by_check s s' r b b' :
  miner_step s s' → m_heap s !! r = Some b → m_heap s' !! r = Some b' → b' ≠ b → s' = do_check s.
Proof.
  intros Hstep Hb Hb' Hne. destruct Hstep as [s _|s _|s _|s b0 _ _|s above order _ _ _|s _|s _|s|s]; try done.
  - revert Hb'. unfold do_switch. case_match; cbn; congruence.
  - cbn in Hb'. congruence.
  - cbn in Hb'. congruence.
  - cbn in Hb'. rewrite lookup_app_l in Hb' by (by eapply lookup_lt_Some). congruence.
  - revert Hb'. unfold do_batch. repeat case_match; cbn; congruence.
  - cbn in Hb'. congruence.
  - cbn in Hb'. congruence.
  - cbn in Hb'. congruence.
Qed.
End machine.

(** The four bytes behind [workerCount] are zero. *)
Definition zero_above (above : list Z) : Prop := above = replicate 4 0.

(** ** Properties *)

(** C3: mining soundness.  Let at most [2^26] work items be launched at a time, so that
    their output offsets fit an [int], and let the four bytes that lie behind the
    [uint32_t] work size, which the launch reads as part of a [size_t], be zero at every
    launch.  Then, in every interleaving of the mining thread, the worker and outside
    resets and stops, whatever order the device runs its work items in: when a step of
    any thread changes a block that exists, the block's hash is at most the target its
    own [nBits] encodes. *)
Theorem mined_block_meets_target (threadCount : nat) (s s' : miner) (r : nat) (b b' : Block) :
  Z.of_nat threadCount * 32 <= 2 ^ 31 → miner_reachable threadCount zero_above s →
  miner_step threadCount zero_above s s' →
  m_heap s !! r = Some b → m_heap s' !! r = Some b' → b' ≠ b →
  le_value (block_GetHash b') <= value (build_target (hd_nBits (blk_hd b'))).
Proof.
  intros Hn Hreach Hstep Hb Hb' Hne. apply miner_inv_reachable in Hreach; [|done|done].
  pose proof (step_changes_by_check _ _ _ _ _ _ _ Hstep Hb Hb' Hne) as ->. by eapply check_meets_target.
Qed.

(** What the read of a [size_t] from a [uint32_t] does when the bytes behind it are not
    zero: item [2^27 + j] is launched too and writes over the result of item [j], with
    the hash of another nonce, so that the nonce the worker takes for result [j] need
    not be the one that was hashed. *)
Theorem wide_launch_overwrites (threadCount : nat) (above header pOut : list Z) (nonceOffset : Z) (j : nat) :
  Z.of_nat threadCount * 32 <= 2 ^ 31 → length above = 4%nat → bytes_ok above → above ≠ replicate 4 0 →
  length header = 80%nat → bytes_ok header → (j < threadCount)%nat → length pOut = (32 * threadCount)%nat →
  2 ^ 27 + Z.of_nat j < global_work_size (Z.of_nat threadCount) above ∧
  result_at (BtcDoubleSHA256 (FIPS.pad header) nonceOffset (2 ^ 27 + Z.of_nat j) pOut) j =
    FIPS.SHA256 (FIPS.SHA256 (with_nonce header (wrap32 (2 ^ 27 + Z.of_nat j + nonceOffset)))).
Proof.
  intros Hn Hl Hok Hnz Hh Hhb Hj Ho. split.
  - unfold global_work_size. rewrite le_value_app, le_value_le_bytes, length_le_bytes, Z.mod_small by lia.
    assert (le_value above ≠ 0) as Hv.
    { intros E. apply Hnz. rewrite <- (le_bytes_le_value above), E, Hl by done. reflexivity. }
    pose proof (le_value_bound above Hok). change (256 ^ Z.of_nat 4) with (2 ^ 32). nia.
  - rewrite BtcDoubleSHA256_wraps by (done || lia). replace (Z.to_nat (Z.of_nat j * 32)) with (32 * j)%nat by lia.
    apply result_at_splice_eq; [apply length_SHA256|lia].
Qed.

(** The check that the nonce range is exhausted can never fire, because the
    sum it compares is itself reduced to 32 bits: the offset silently wraps and
    after [2^32] nonces the same ones are tried again. *)
Theorem nonce_range_check_dead (threadCount : nat) (order : list nat) (s : miner) (r : nat) :
  m_block s = Some r →
  nonce_out_of_range (m_nonceOffset s) (Z.of_nat threadCount) = false ∧
  m_pc (do_batch threadCount order s) = PSwitch ∧
  m_nonceOffset (do_batch threadCount order s) = (m_nonceOffset s + Z.of_nat threadCount) mod 2 ^ 32.
Proof.
  intros Hb. assert (∀ x n, nonce_out_of_range x n = false) as Hdead.
  { intros x n. unfold nonce_out_of_range. rewrite Z.gtb_ltb. apply Z.ltb_ge.
    pose proof (wrap_fits 32 (x + n)) as H. unfold fits in H. lia. }
  unfold do_batch. rewrite Hb, Hdead. done.
Qed.

(** A run on the regression-test difficulty with one work item: two batches are
    launched before the worker runs, and both hold a solution. *)
Definition template (nTime : Z) : Block :=
  mk_Block (mk_BlockHeader 0x20000000 (blob_null 32) (blob_null 32) nTime 0x207fffff 0 0) [].

(** Schedules as data, with an executable test that each step is enabled. *)
Inductive label := LSwitch | LRestart | LReport | LNewBlock (b : Block) | LBatch | LCheck | LWorkerReset | LStop.

#[global] Instance miner_pc_eq_dec : EqDecision miner_pc.
Proof. solve_decision. Defined.

#[global] Instance header_wf_dec h : Decision (header_wf h).
Proof. unfold header_wf. apply _. Defined.

Definition do_label (n : nat) (l : label) (s : miner) : miner :=
  match l with
  | LSwitch => do_switch s
  | LRestart => do_restart s
  | LReport => do_report s
  | LNewBlock b => do_new_block b s
  | LBatch => do_batch n (seq 0 n) s
  | LCheck => do_check s
  | LWorkerReset => do_worker_reset s
  | LStop => set_run_state STOP s
  end.

Definition enabled (n : nat) (l : label) (s : miner) : bool :=
  match l with
  | LSwitch => bool_decide (m_pc s = PSwitch)
  | LRestart => bool_decide (m_pc s = PRestart)
  | LReport => bool_decide (m_pc s = PReport)
  | LNewBlock b => bool_decide (m_pc s = PNewBlock ∧ header_wf (blk_hd b))
  | LBatch => bool_decide (m_pc s = PBatch ∧ Z.to_nat (global_work_size (Z.of_nat n) (replicate 4 0)) = n)
  | LCheck => negb (m_resetting s)
  | LWorkerReset => m_resetting s
  | LStop => true
  end.

Fixpoint run (n : nat) (ls : list label) (s : miner) : option miner :=
  match ls with
  | [] => Some s
  | l :: ls' => if enabled n l s then run n ls' (do_label n l s) else None
  end.

Lemma enabled_step n l s : enabled n l s = true → miner_step n zero_above s (do_label n l s).
Proof.
  destruct l; cbn [enabled do_label]; rewrite ?bool_decide_eq_true, ?negb_true_iff; intros H.
  - by apply step_switch.
  - by apply step_restart.
  - by apply step_report.
  - by apply step_new_block; destruct H.
  - destruct H as [Hpc En]. apply (step_batch n zero_above s (replicate 4 0)); [done|done|by rewrite En].
  - by apply step_check.
  - by apply step_worker_reset.
  - apply step_Stop.
Qed.

Lemma run_reachable n ls s s' :
  miner_reachable n zero_above s → run n ls s = Some s' → miner_reachable n zero_above s'.
Proof.
  revert s. induction ls as [|l ls IH]; intros s Hs; cbn [run]; [by intros [= <-]|].
  destruct (enabled n l s) eqn:E; [|done]. intros Hr. eapply IH; [|exact Hr].
  eapply reach_step; [done|]. by apply enabled_step.
Qed.

(** A [Stop] that comes between the read of the run state and the store of [RUNING] is
    overwritten, and the next launch is not stopped. *)
Example stop_is_overwritten :
  m_runState <$> run 1 [LSwitch; LStop; LRestart] (miner_init (replicate 32 0)) = Some RUNING.
Proof. vm_compute. reflexivity. Qed.

Definition stale_prefix : list label :=
  [LSwitch; LRestart; LReport; LNewBlock (template 4); LBatch; LSwitch; LBatch; LCheck; LWorkerReset;
   LSwitch; LRestart; LReport; LNewBlock (template 2)].
Definition stale_suffix : list label := [LCheck; LWorkerReset; LBatch; LSwitch; LRestart; LReport].

Definition stale_start : miner := miner_init (replicate 32 0).
Definition stale_mid : miner := default stale_start (run 1 stale_prefix stale_start).
Definition stale_end : miner := default stale_start (run 1 stale_suffix stale_mid).

Lemma stale_runs :
  bool_decide (is_Some (run 1 stale_prefix stale_start)) && bool_decide (is_Some (run 1 stale_suffix stale_mid)) = true.
Proof. vm_compute. reflexivity. Qed.

Lemma stale_mid_reachable : miner_reachable 1 zero_above stale_mid.
Proof.
  apply (run_reachable 1 stale_prefix stale_start); [by apply (reach_init 1 zero_above (replicate 32 0))|].
  pose proof stale_runs as [[x Hx]%bool_decide_eq_true _]%andb_prop. unfold stale_mid. by rewrite Hx.
Qed.

Lemma stale_end_reachable : miner_reachable 1 zero_above stale_end.
Proof.
  apply (run_reachable 1 stale_suffix stale_mid); [apply stale_mid_reachable|].
  pose proof stale_runs as [_ [x Hx]%bool_decide_eq_true]%andb_prop. unfold stale_end. by rewrite Hx.
Qed.

(** A block can be reported as found without meeting its target.  A batch
    that was posted for the previous block still holds a solution when the next
    block has been fetched; its job raises [RESTERT] again, and the callback is
    called with the new block, whose hash exceeds the target. *)
Theorem stale_job_reports_unmined_block :
  ∃ s b, miner_reachable 1 zero_above s ∧ b ∈ m_found s ∧
    value (build_target (hd_nBits (blk_hd b))) < le_value (block_GetHash b).
Proof.
  exists stale_end, (template 2). split_and!.
  - apply stale_end_reachable.
  - assert (m_found stale_end = [template 4; template 2]) as -> by (vm_compute; reflexivity).
    apply list_elem_of_further, list_elem_of_here.
  - vm_compute. reflexivity.
Qed.

Lemma mined_block_meets_target_witness :
  ∃ b b', m_heap stale_mid !! 0%nat = Some b ∧ m_heap (do_check stale_mid) !! 0%nat = Some b' ∧ b' ≠ b ∧
    le_value (block_GetHash b') <= value (build_target (hd_nBits (blk_hd b'))).
Proof.
  assert (m_heap stale_mid !! 0%nat = Some (template 4)) as Hb by (vm_compute; reflexivity).
  assert (m_heap (do_check stale_mid) !! 0%nat = Some (set_block_nonce 1 (template 4))) as Hb'
    by (vm_compute; reflexivity).
  assert (set_block_nonce 1 (template 4) ≠ template 4) as Hne by (intros E; discriminate E).
  exists (template 4), (set_block_nonce 1 (template 4)). split; [exact Hb|]. split; [exact Hb'|]. split; [exact Hne|].
  refine (mined_block_meets_target 1 stale_mid (do_check stale_mid) 0 _ _ _ _ _ Hb Hb' Hne); [discriminate| |].
  - apply stale_mid_reachable.
  - apply step_check. vm_compute. reflexivity.
Defined.

Lemma nonce_range_check_dead_witness :
  m_nonceOffset (do_batch 1 [] (mk_miner PBatch RUNING [] (Some 0%nat) [] [] 0xffffffff bu_zero [] false [])) = 0.
Proof.
  exact (proj2 (proj2 (nonce_range_check_dead 1 [] (mk_miner PBatch RUNING [] (Some 0%nat) [] [] 0xffffffff bu_zero [] false []) 0 eq_refl))).
Defined.
