(* ===== verification/Pow.v ===== *)
(** * Consensus parameters and proof of work: [params.h], static functions of [blockchain.h]

    The parameters of the regression-test chain, the proof-of-work check, the
    retargeting rule and the block subsidy.  The compile-time constants
    [s_PowNoRetargeting] and [s_PowAllowMinDifficultyBlocks] guard branches that
    are modelled too, with the constant as an argument. *)

From stdpp Require Import base list numbers decidable strings.
From S2P Require Import Prelude ArithUint256 Uint256 Serialize Sha256 Script Tx Block.

Open Scope Z_scope.

(** ** Parameters *)

Record BIP9Deployment := mk_BIP9Deployment {
  dep_bit : Z;
  dep_nStartTime : Z;
  dep_nTimeout : Z;
}.
Definition NO_TIMEOUT : Z := 2 ^ 63 - 1.

Record GenesisBlockParams := mk_GenesisBlockParams {
  gp_nTime : Z;
  gp_nNonce : Z;
  gp_nBits : Z;
  gp_nVersion : Z;
}.

Record ParamsBase := mk_ParamsBase {
  p_port : Z;
  p_pchMessageStart : list Z;
  p_genesisBlockParams : GenesisBlockParams;
  p_hashGenesisBlock : blob;
  p_hashGenesisMerkleRoot : blob;
  p_nSubsidyHalvingInterval : Z;
  p_BIP16Exception : blob;
  p_BIP34Height : Z;
  p_BIP34Hash : blob;
  p_BIP65Height : Z;
  p_BIP66Height : Z;
  p_CSVHeight : Z;
  p_SegwitHeight : Z;
  p_MinBIP9WarningHeight : Z;
  p_nRuleChangeActivationThreshold : Z;
  p_nMinerConfirmationWindow : Z;
  p_vDeployments : list BIP9Deployment;
  p_powLimit : blob;
  p_fPowAllowMinDifficultyBlocks : bool;
  p_fPowNoRetargeting : bool;
  p_nPowTargetSpacing : Z;
  p_nPowTargetTimespan : Z;
  p_nMinimumChainWork : blob;
  p_defaultAssumeValid : blob;
  p_bech32_hrp : list Z;
}.

Definition RegTestParams : ParamsBase := {|
  p_port := 18444;
  p_nSubsidyHalvingInterval := 150;
  p_BIP16Exception := blob_null 32;
  p_BIP34Height := 500;
  p_BIP34Hash := blob_null 32;
  p_BIP65Height := 1351;
  p_BIP66Height := 1251;
  p_CSVHeight := 432;
  p_SegwitHeight := 0;
  p_MinBIP9WarningHeight := 0;
  p_powLimit := uint256S (chars "7fffffffffffffffffffffffffffffffffffffffffffffffffffffffffffffff");
  p_nPowTargetTimespan := 14 * 24 * 60 * 60;
  p_nPowTargetSpacing := 10 * 60;
  p_fPowAllowMinDifficultyBlocks := true;
  p_fPowNoRetargeting := true;
  p_nRuleChangeActivationThreshold := 108;
  p_nMinerConfirmationWindow := 144;
  p_vDeployments := [mk_BIP9Deployment 28 0 NO_TIMEOUT];
  p_nMinimumChainWork := uint256S (chars "0x00");
  p_defaultAssumeValid := uint256S (chars "0x00");
  p_pchMessageStart := [0xfa; 0xbf; 0xb5; 0xda];
  p_genesisBlockParams := mk_GenesisBlockParams 1296688602 2 0x207fffff 1;
  p_hashGenesisBlock := uint256S (chars "0x0f9188f13cb7b2c71f2a335e3a4fc328bf5beb436012afca590b1a11466e2206");
  p_hashGenesisMerkleRoot := uint256S (chars "0x4a5e1e4baab89f3a32518a88c31bc87f618f76673e2cc77ab2127b7afdeda33b");
  p_bech32_hrp := chars "bcrt";
|}.

(** ** Proof of work *)

Definition s_PowTargetTimespan : Z := 14 * 24 * 60 * 60.
Definition s_PowTargetSpacing : Z := 10 * 60.
Definition s_PowAllowMinDifficultyBlocks : bool := true.
Definition s_PowNoRetargeting : bool := true.

Definition DifficultyAdjustmentInterval : Z := s_PowTargetTimespan / s_PowTargetSpacing.

Definition CheckProofOfWork (p : ParamsBase) (hash : blob) (nBits : Z) : bool :=
  let '(bnTarget, fNegative, fOverflow) := SetCompact nBits in
  if fNegative || bu_EqualTo bnTarget 0 || fOverflow || bu_gt bnTarget (UintToArith256 (p_powLimit p)) then false
  else if bu_gt (UintToArith256 hash) bnTarget then false
  else true.

(** [nActualTimespan] is [int64_t], [s_PowTargetTimespan] is [uint64_t]: both
    comparisons are made on the unsigned values. *)
Definition limit_timespan (nActualTimespan : Z) : Z :=
  let nActualTimespan :=
    if wrap64 nActualTimespan <? s_PowTargetTimespan / 4 then s_PowTargetTimespan / 4 else nActualTimespan in
  if wrap64 nActualTimespan >? s_PowTargetTimespan * 4 then s_PowTargetTimespan * 4 else nActualTimespan.

(** [bnNew *= nActualTimespan] selects the overload for [uint32_t].  [None] is an
    exception of the division or a failed assertion of [GetCompact]. *)
Definition CalculateNextWorkRequired (p : ParamsBase) (noRetargeting : bool)
    (lastBlock : BlockHeader) (nFirstBlockTime : Z) : option Z :=
  if noRetargeting then Some (hd_nBits lastBlock)
  else
    let nActualTimespan := limit_timespan (swrap64 (hd_nTime lastBlock - nFirstBlockTime)) in
    let bnPowLimit := UintToArith256 (p_powLimit p) in
    let bnNew := (SetCompact (hd_nBits lastBlock)).1.1 in
    let bnNew := bu_mul32 bnNew (wrap32 nActualTimespan) in
    match bu_div bnNew (bu_of_u64 s_PowTargetTimespan) with
    | None => None
    | Some bnNew => GetCompact (if bu_gt bnNew bnPowLimit then bnPowLimit else bnNew) false
    end.

Definition GetBlockSubsidy (p : ParamsBase) (nHeight : Z) : Z :=
  let halvings := Z.quot nHeight (p_nSubsidyHalvingInterval p) in
  if halvings >=? 64 then 0 else Z.shiftr (50 * COIN) halvings.

(** ** Lemmas *)

(** The compact encoding of the proof-of-work limit, [nProofOfWorkLimit]. *)
Definition nProofOfWorkLimit (p : ParamsBase) : option Z := GetCompact (UintToArith256 (p_powLimit p)) false.

Lemma regtest_limit_bits : nProofOfWorkLimit RegTestParams = Some 0x207fffff.
Proof. vm_compute. reflexivity. Qed.

Lemma powLimit_wf : blob_wf 32 (p_powLimit RegTestParams).
Proof. by apply (bool_decide_unpack _); vm_compute. Qed.

Lemma powLimit_value : le_value (p_powLimit RegTestParams) = 2 ^ 255 - 1.
Proof. vm_compute. reflexivity. Qed.

Lemma limit_timespan_spec d : sfits 64 d →
  limit_timespan d =
    if d <? 0 then s_PowTargetTimespan * 4
    else Z.max (s_PowTargetTimespan / 4) (Z.min (s_PowTargetTimespan * 4) d).
Proof.
  intros Hd. unfold limit_timespan, sfits in *.
  change (2 ^ (64 - 1)) with 9223372036854775808 in Hd. change (s_PowTargetTimespan / 4) with 302400.
  change (s_PowTargetTimespan * 4) with 4838400.
  destruct (Z.ltb_spec d 0).
  - assert (wrap64 d = d + 2 ^ 64) as E.
    { unfold wrap. rewrite <- (Z.mod_small (d + 2 ^ 64) (2 ^ 64)) by lia.
      rewrite <- Z.add_mod_idemp_r, Z.mod_same, Z.add_0_r by lia. done. }
    rewrite E. destruct (Z.ltb_spec (d + 2 ^ 64) 302400); [lia|]. rewrite E.
    destruct (Z.gtb_spec (d + 2 ^ 64) 4838400); lia.
  - rewrite (wrap_id 64 d) by (split; lia). destruct (Z.ltb_spec d 302400).
    + change (wrap64 302400) with 302400. destruct (Z.gtb_spec 302400 4838400); lia.
    + rewrite (wrap_id 64 d) by (split; lia). destruct (Z.gtb_spec d 4838400); lia.
Qed.

Lemma limit_timespan_bound d : sfits 64 d → 302400 <= limit_timespan d <= 4838400.
Proof.
  intros Hd. rewrite limit_timespan_spec by done. change (s_PowTargetTimespan / 4) with 302400.
  change (s_PowTargetTimespan * 4) with 4838400. destruct (d <? 0); lia.
Qed.

Definition subsidy_sum (p : ParamsBase) (n : nat) : Z :=
  foldr Z.add 0 ((λ h, GetBlockSubsidy p (Z.of_nat h)) <$> seq 0 n).

Lemma subsidy_sum_S p n : subsidy_sum p (S n) = subsidy_sum p n + GetBlockSubsidy p (Z.of_nat n).
Proof.
  unfold subsidy_sum. rewrite seq_S, fmap_app, foldr_app. cbn [fmap list_fmap foldr]. rewrite Nat.add_0_l.
  generalize ((λ h, GetBlockSubsidy p (Z.of_nat h)) <$> seq 0 n). intros l.
  induction l as [|x l IH]; cbn [foldr]; lia.
Qed.

Lemma GetBlockSubsidy_eq p h : 0 <= h → 0 < p_nSubsidyHalvingInterval p →
  GetBlockSubsidy p h = 50 * COIN / 2 ^ (h / p_nSubsidyHalvingInterval p).
Proof.
  intros Hh Hp. unfold GetBlockSubsidy. rewrite Z.quot_div_nonneg by lia.
  pose proof (Z.div_pos h (p_nSubsidyHalvingInterval p) Hh Hp).
  destruct (Z.geb_spec (h / p_nSubsidyHalvingInterval p) 64) as [H64|H64].
  - symmetry. apply Z.div_small. split; [unfold COIN; lia|].
    eapply Z.lt_le_trans; [|apply (Z.pow_le_mono_r 2 64); lia]. unfold COIN. lia.
  - by rewrite Z.shiftr_div_pow2 by lia.
Qed.

(** After [k] full intervals and [r] blocks of the next one. *)
Lemma subsidy_sum_bound p n : 0 < p_nSubsidyHalvingInterval p →
  let I := p_nSubsidyHalvingInterval p in
  let k := Z.of_nat n / I in
  2 ^ k * subsidy_sum p n <= 2 * I * (50 * COIN) * (2 ^ k - 1) + Z.of_nat n mod I * (50 * COIN).
Proof.
  intros HI I k. subst k. fold I in HI.
  induction n as [|n IH]; [unfold subsidy_sum; simpl; rewrite Zmod_0_l, Zdiv_0_l; simpl; lia|].
  rewrite subsidy_sum_S, GetBlockSubsidy_eq by lia. fold I.
  pose proof (Z.div_pos (Z.of_nat n) I ltac:(lia) HI) as Hk.
  pose proof (Z.pow_pos_nonneg 2 (Z.of_nat n / I) ltac:(lia) Hk) as Hp.
  pose proof (Z.mul_div_le (50 * COIN) (2 ^ (Z.of_nat n / I)) ltac:(lia)) as Hs.
  pose proof (Z.div_mod (Z.of_nat n) I ltac:(lia)) as Hdm. pose proof (Z.mod_pos_bound (Z.of_nat n) I HI) as Hr.
  set (q := Z.of_nat n / I) in *. set (r := Z.of_nat n mod I) in *.
  set (s := 50 * COIN) in *. set (t := s / 2 ^ q) in *.
  destruct (Z.eq_dec (r + 1) I) as [E|E].
  - assert (Z.of_nat (S n) / I = q + 1) as -> by (symmetry; apply Z.div_unique with 0; lia).
    assert (Z.of_nat (S n) mod I = 0) as -> by (symmetry; apply Z.mod_unique with (q + 1); lia).
    rewrite Z.pow_add_r by lia. nia.
  - assert (Z.of_nat (S n) / I = q) as -> by (symmetry; apply Z.div_unique with (r + 1); lia).
    assert (Z.of_nat (S n) mod I = r + 1) as -> by (symmetry; apply Z.mod_unique with q; lia).
    nia.
Qed.

(** ** Properties *)

(** C34 A hash passes [CheckProofOfWork] exactly when its number is at most the
    target that [nBits] encodes, and that target is positive, at most the
    proof-of-work limit and encoded without sign and without overflow. *)
Theorem CheckProofOfWork_correct (p : ParamsBase) (hash : blob) (nBits : Z) :
  blob_wf 32 (p_powLimit p) → blob_wf 32 hash → u32_ok nBits →
  CheckProofOfWork p hash nBits = true ↔
    (compact_value nBits = 0 ∨ Z.testbit nBits 23 = false) ∧
    0 < compact_value nBits <= le_value (p_powLimit p) ∧ le_value hash <= compact_value nBits.
Proof.
  intros Hp Hh Hb. unfold CheckProofOfWork.
  pose proof (SetCompact_wf nBits) as Hwf. pose proof (value_SetCompact nBits Hb) as Hv.
  pose proof (SetCompact_negative_spec nBits Hb) as Hn. pose proof (SetCompact_overflow_spec nBits Hb) as Ho.
  destruct (SetCompact nBits) as [[t n] o]. cbn [fst snd] in *.
  rewrite bu_EqualTo_spec, !bu_gt_spec, !value_UintToArith256, Hv, Hn, Ho by (done || by apply UintToArith256_wf).
  pose proof (limbs_wf_bound _ (UintToArith256_wf _ Hp)) as Hpl. rewrite value_UintToArith256 in Hpl by done.
  pose proof (compact_value_nonneg nBits).
  destruct (Z.leb_spec (2 ^ 256) (compact_value nBits)) as [Hov|Hov].
  { rewrite !orb_true_r. cbn. split; [done|lia]. }
  rewrite Z.mod_small by lia.
  destruct (Z.eqb_spec (compact_value nBits) 0), (Z.testbit nBits 23),
    (Z.gtb_spec (compact_value nBits) (le_value (p_powLimit p))),
    (Z.gtb_spec (le_value hash) (compact_value nBits)); cbn; split; intros; (done || lia || naive_solver lia).
Qed.

Lemma CheckProofOfWork_correct_witness :
  CheckProofOfWork RegTestParams (p_hashGenesisBlock RegTestParams) 0x207fffff = true ∧
  CheckProofOfWork RegTestParams (p_hashGenesisBlock RegTestParams) 0x20800001 = false.
Proof.
  split.
  - apply (CheckProofOfWork_correct RegTestParams (p_hashGenesisBlock RegTestParams) 0x207fffff).
    + apply powLimit_wf.
    + by apply (bool_decide_unpack _); vm_compute.
    + split; lia.
    + split_and!; vm_compute; first [by right | done].
  - vm_compute. reflexivity.
Defined.

(** With retargeting, the next target is the last one scaled by the time
    the interval took over two weeks, with that time limited to a factor of
    four either way, capped at the limit and rounded by the compact encoding.
    A negative time is limited to four intervals, not to a quarter: the
    comparisons are unsigned. *)
Theorem CalculateNextWorkRequired_correct (p : ParamsBase) (lastBlock : BlockHeader) (nFirstBlockTime : Z) :
  blob_wf 32 (p_powLimit p) → u32_ok (hd_nBits lastBlock) → fits 32 (hd_nTime lastBlock) →
  fits 32 nFirstBlockTime → compact_value (hd_nBits lastBlock) * 4838400 < 2 ^ 256 →
  let T := s_PowTargetTimespan in
  let d := hd_nTime lastBlock - nFirstBlockTime in
  let span := if d <? 0 then T * 4 else Z.max (T / 4) (Z.min (T * 4) d) in
  let target := Z.min (le_value (p_powLimit p)) (compact_value (hd_nBits lastBlock) * span / T) in
  ∃ c, CalculateNextWorkRequired p false lastBlock nFirstBlockTime = Some c ∧ u32_ok c ∧
       let k := Z.max 0 (compact_exp c - 3) in
       compact_value c = target / 256 ^ k * 256 ^ k.
Proof.
  intros Hp Hb Ht Hf Hno T d span target. unfold CalculateNextWorkRequired.
  assert (sfits 64 d) as Hd by (unfold fits, sfits in *; subst d; change (2 ^ (64 - 1)) with 9223372036854775808; lia).
  fold d. rewrite (swrap_id 64 d) by (done || lia).
  pose proof (limit_timespan_spec d Hd) as Hspan. fold T span in Hspan.
  pose proof (limit_timespan_bound d Hd) as Hsb. rewrite Hspan in *.
  rewrite (wrap_id 32 span) by (split; lia).
  pose proof (SetCompact_wf (hd_nBits lastBlock)) as Hwf. pose proof (value_SetCompact _ Hb) as Hv.
  pose proof (compact_value_nonneg (hd_nBits lastBlock)) as Hcv.
  rewrite Z.mod_small in Hv by lia.
  assert (u32_ok span) as Hsu by (split; lia).
  pose proof (bu_mul32_wf _ span Hwf) as Hmw.
  pose proof (value_bu_mul32 _ span Hwf Hsu) as Hmv. rewrite limbs_mod_eq, Hv, Z.mod_small in Hmv by nia.
  change s_PowTargetTimespan with T. assert (fits 64 T) by done. destruct (bu_div_spec _ (bu_of_u64 T) Hmw (bu_of_u64_wf T)) as (q & -> & Hq & Hqv).
  { rewrite value_bu_of_u64 by done. done. }
  rewrite Hmv, value_bu_of_u64 in Hqv by done.
  pose proof (UintToArith256_wf _ Hp) as Hlw. pose proof (value_UintToArith256 _ Hp) as Hlv.
  rewrite bu_gt_spec by done. rewrite Hqv, Hlv.
  set (x := if _ >? _ then _ else q).
  assert (limbs_wf x ∧ value x = target) as [Hxw Hxv].
  { subst x target. destruct (Z.gtb_spec (compact_value (hd_nBits lastBlock) * span / T) (le_value (p_powLimit p)));
      split; (done || lia). }
  rewrite <- Hxv. destruct (GetCompact_floor x Hxw) as (c & ? & ? & _ & _ & ?). by exists c.
Qed.

Lemma CalculateNextWorkRequired_correct_witness :
  CalculateNextWorkRequired RegTestParams false (mk_BlockHeader 1 [] [] 1262152739 0x1d00ffff 0 0) 1261130161
    = Some 0x1d00d86a.
Proof.
  destruct (CalculateNextWorkRequired_correct RegTestParams (mk_BlockHeader 1 [] [] 1262152739 0x1d00ffff 0 0)
    1261130161) as (c & E & _ & _).
  - apply powLimit_wf.
  - split; cbn; lia.
  - split; cbn; lia.
  - split; cbn; lia.
  - vm_compute. reflexivity.
  - vm_compute. reflexivity.
Defined.

(** The subsidy is halved every interval and all subsidies together, over
    any number of blocks, stay under twice the first interval's sum, which the
    regression-test chain keeps below the money limit. *)
Theorem subsidy_halves_and_is_bounded (p : ParamsBase) (h : Z) (n : nat) :
  0 < p_nSubsidyHalvingInterval p → 0 <= h →
  GetBlockSubsidy p (h + p_nSubsidyHalvingInterval p) = GetBlockSubsidy p h / 2 ∧
  subsidy_sum p n <= 2 * p_nSubsidyHalvingInterval p * (50 * COIN) ∧
  subsidy_sum RegTestParams n <= MAX_MONEY.
Proof.
  intros HI Hh.
  assert (∀ p, 0 < p_nSubsidyHalvingInterval p → subsidy_sum p n <= 2 * p_nSubsidyHalvingInterval p * (50 * COIN)) as H.
  { clear. intros p HI. pose proof (subsidy_sum_bound p n HI) as H. cbv zeta in H.
    pose proof (Z.pow_pos_nonneg 2 (Z.of_nat n / p_nSubsidyHalvingInterval p) ltac:(lia)
      (Z.div_pos _ _ (Nat2Z.is_nonneg n) HI)).
    pose proof (Z.mod_pos_bound (Z.of_nat n) _ HI). unfold COIN in *. nia. }
  split_and!.
  - rewrite !GetBlockSubsidy_eq by lia.
    rewrite <- Z.div_mul_cancel_r with (a := h + _) (c := 1) at 1 by lia. rewrite !Z.mul_1_r.
    replace (h + p_nSubsidyHalvingInterval p) with (h + 1 * p_nSubsidyHalvingInterval p) by lia.
    rewrite Z.div_add by lia. pose proof (Z.div_pos h _ Hh HI).
    rewrite Z.pow_add_r, Z.div_div by (try apply Z.pow_pos_nonneg; lia). done.
  - by apply H.
  - etrans; [by apply H|]. vm_compute. done.
Qed.

Lemma subsidy_halves_and_is_bounded_witness : GetBlockSubsidy RegTestParams 150 = 25 * COIN.
Proof.
  destruct (subsidy_halves_and_is_bounded RegTestParams 0 0) as (E & _ & _); [reflexivity|done|].
  change (0 + p_nSubsidyHalvingInterval RegTestParams) with 150 in E. rewrite E. vm_compute. reflexivity.
Defined.
