(* ===== verification/Standard.v ===== *)
(** * Destinations and their scripts: [script/standard.h], [script/standard.cpp], [Keyio] of [keyio.cpp]

    [Solver] recognises the standard forms of an output script, [ExtractDestination]
    names who such an output pays, [GetScriptForDestination] goes the other way,
    and [DecodeDestination] reads a destination from an address.  [boost::variant]
    is the inductive type [CTxDestination]; a failed assertion is [None].  The miner
    pays itself to the script of one address. *)

From stdpp Require Import base list numbers decidable strings.
From S2P Require Import Prelude Bech32 ArithUint256 Uint256 Hash160 Script PubKey Interpreter Pow.

Open Scope Z_scope.

Inductive TxoutType :=
  | NONSTANDARD | PUBKEY | PUBKEYHASH | SCRIPTHASH | MULTISIG | NULL_DATA
  | WITNESS_V0_SCRIPTHASH | WITNESS_V0_KEYHASH | WITNESS_UNKNOWN.

Inductive CTxDestination :=
  | CNoDestination
  | PKHash (h : list Z)
  | ScriptHash (h : list Z)
  | WitnessV0ScriptHash (h : list Z)
  | WitnessV0KeyHash (h : list Z)
  | WitnessUnknown (version : Z) (program : list Z).

(** The default constructor, and whether a destination is set. *)
Definition IsValidDestination (dest : CTxDestination) : bool :=
  match dest with CNoDestination => false | _ => true end.

(** ** Matching *)

Definition script_back (script : CScript) : Z := default 0 (list.last script).

Definition MatchPayToPubkey (script : CScript) : option (list Z) :=
  if (script_size script =? PUBLIC_KEY_SIZE + 2) && (byte_at script 0 =? PUBLIC_KEY_SIZE) && (script_back script =? OP_CHECKSIG) then
    let pubkey := take (Z.to_nat PUBLIC_KEY_SIZE) (drop 1 script) in
    if CPubKey_ValidSize pubkey then Some pubkey else None
  else if (script_size script =? COMPRESSED_PUBLIC_KEY_SIZE + 2) && (byte_at script 0 =? COMPRESSED_PUBLIC_KEY_SIZE) &&
          (script_back script =? OP_CHECKSIG) then
    let pubkey := take (Z.to_nat COMPRESSED_PUBLIC_KEY_SIZE) (drop 1 script) in
    if CPubKey_ValidSize pubkey then Some pubkey else None
  else None.

Definition MatchPayToPubkeyHash (script : CScript) : option (list Z) :=
  if (script_size script =? 25) && (byte_at script 0 =? OP_DUP) && (byte_at script 1 =? OP_HASH160) && (byte_at script 2 =? 20) &&
     (byte_at script 23 =? OP_EQUALVERIFY) && (byte_at script 24 =? OP_CHECKSIG)
  then Some (take 20 (drop 3 script)) else None.

Definition IsSmallInteger (opcode : Z) : bool := (opcode >=? OP_1) && (opcode <=? OP_16).

(** [while (script.GetOp(it, opcode, data) && CPubKey::ValidSize(data))]: the keys, the opcode that ended the loop and
    what is left of the script.  A failed [GetOp] leaves [OP_INVALIDOPCODE]. *)
Fixpoint multisig_keys (fuel : nat) (pubkeys : list (list Z)) (it : CScript) : list (list Z) * Z * CScript :=
  match fuel with
  | O => (pubkeys, OP_INVALIDOPCODE, it)
  | S n =>
      match GetScriptOp it with
      | None => (pubkeys, OP_INVALIDOPCODE, it)
      | Some (opcode, data, it) =>
          if CPubKey_ValidSize data then multisig_keys n (pubkeys ++ [data]) it else (pubkeys, opcode, it)
      end
  end.

Definition MatchMultisig (script : CScript) : option (Z * list (list Z)) :=
  if (script_size script <? 1) || negb (script_back script =? OP_CHECKMULTISIG) then None
  else
    match GetScriptOp script with
    | None => None
    | Some (opcode, _, it) =>
        if negb (IsSmallInteger opcode) then None
        else
          required ← DecodeOP_N opcode;
          let '(pubkeys, opcode, it) := multisig_keys (S (length it)) [] it in
          if negb (IsSmallInteger opcode) then None
          else
            keys ← DecodeOP_N opcode;
            if negb (Z.of_nat (length pubkeys) =? keys) || (keys <? required) then None
            else if (length it =? 1)%nat then Some (required, pubkeys) else None
    end.

Definition Solver (scriptPubKey : CScript) : TxoutType * list (list Z) :=
  if IsPayToScriptHash scriptPubKey then (SCRIPTHASH, [take 20 (drop 2 scriptPubKey)])
  else
    match IsWitnessProgram scriptPubKey with
    | Some (witnessversion, witnessprogram) =>
        if (witnessversion =? 0) && (Z.of_nat (length witnessprogram) =? WITNESS_V0_KEYHASH_SIZE) then
          (WITNESS_V0_KEYHASH, [witnessprogram])
        else if (witnessversion =? 0) && (Z.of_nat (length witnessprogram) =? WITNESS_V0_SCRIPTHASH_SIZE) then
          (WITNESS_V0_SCRIPTHASH, [witnessprogram])
        else if negb (witnessversion =? 0) then (WITNESS_UNKNOWN, [[wrap8 witnessversion]; witnessprogram])
        else (NONSTANDARD, [])
    | None =>
        if (script_size scriptPubKey >=? 1) && (byte_at scriptPubKey 0 =? OP_RETURN) && IsPushOnly (drop 1 scriptPubKey) then
          (NULL_DATA, [])
        else
          match MatchPayToPubkey scriptPubKey with
          | Some data => (PUBKEY, [data])
          | None =>
              match MatchPayToPubkeyHash scriptPubKey with
              | Some data => (PUBKEYHASH, [data])
              | None =>
                  match MatchMultisig scriptPubKey with
                  | Some (required, keys) =>
                      (MULTISIG, [wrap8 required] :: keys ++ [[wrap8 (Z.of_nat (length keys))]])
                  | None => (NONSTANDARD, [])
                  end
              end
          end
    end.

(** ** Destinations of a script *)

Definition ExtractDestination (scriptPubKey : CScript) : option CTxDestination :=
  match Solver scriptPubKey with
  | (PUBKEY, key :: _) =>
      let pubKey := CPubKey_new key in
      if negb (CPubKey_IsValid pubKey) then None else Some (PKHash (CPubKey_GetID pubKey))
  | (PUBKEYHASH, h :: _) => Some (PKHash h)
  | (SCRIPTHASH, h :: _) => Some (ScriptHash h)
  | (WITNESS_V0_KEYHASH, h :: _) => Some (WitnessV0KeyHash h)
  | (WITNESS_V0_SCRIPTHASH, h :: _) => Some (WitnessV0ScriptHash h)
  | (WITNESS_UNKNOWN, v :: program :: _) => Some (WitnessUnknown (byte_at v 0) program)
  | _ => None
  end.

(** The type, the addresses and how many of them must sign. *)
Definition ExtractDestinations (scriptPubKey : CScript) : TxoutType * option (list CTxDestination * Z) :=
  let '(typeRet, vSolutions) := Solver scriptPubKey in
  match typeRet with
  | NONSTANDARD | NULL_DATA => (typeRet, None)
  | MULTISIG =>
      let nRequiredRet := byte_at (default [] (head vSolutions)) 0 in
      let addressRet := omap (λ key, let pubKey := CPubKey_new key in
                                     if negb (CPubKey_IsValid pubKey) then None else Some (PKHash (CPubKey_GetID pubKey)))
                             (take (length vSolutions - 2) (drop 1 vSolutions)) in
      (typeRet, match addressRet with [] => None | _ => Some (addressRet, nRequiredRet) end)
  | _ => (typeRet, match ExtractDestination scriptPubKey with None => None | Some address => Some ([address], 1) end)
  end.

(** ** Scripts of a destination *)

Definition GetScriptForDestination (dest : CTxDestination) : option CScript :=
  match dest with
  | CNoDestination => Some []
  | PKHash h => Some (push_data h [OP_DUP; OP_HASH160] ++ [OP_EQUALVERIFY; OP_CHECKSIG])
  | ScriptHash h => Some (push_data h [OP_HASH160] ++ [OP_EQUAL])
  | WitnessV0KeyHash h | WitnessV0ScriptHash h => Some (push_data h [OP_0])
  | WitnessUnknown version program => op ← EncodeOP_N version; Some (push_data program [op])
  end.

Definition GetScriptForRawPubKey (pubKey : list Z) : CScript := push_data (CPubKey_bytes pubKey) [] ++ [OP_CHECKSIG].

Definition GetScriptForMultisig (nRequired : Z) (keys : list (list Z)) : option CScript :=
  m ← EncodeOP_N nRequired;
  let script := foldl (λ script key, push_data (CPubKey_bytes key) script) [m] keys in
  n ← EncodeOP_N (Z.of_nat (length keys));
  Some (script ++ [n; OP_CHECKMULTISIG]).

(** ** Addresses *)

Definition DecodeDestination (params : ParamsBase) (str : list Z) : CTxDestination :=
  let bech := Decode str in
  match bech.2 with
  | version :: rest =>
      if bool_decide (bech.1 = p_bech32_hrp params) then
        match ConvertBits 5 8 false rest with
        | (true, data) =>
            if version =? 0 then
              if Z.of_nat (length data) =? 20 then WitnessV0KeyHash data
              else if Z.of_nat (length data) =? 32 then WitnessV0ScriptHash data
              else CNoDestination
            else if (version >? 16) || (Z.of_nat (length data) <? 2) || (Z.of_nat (length data) >? 40) then CNoDestination
            else WitnessUnknown version data
        | (false, _) => CNoDestination
        end
      else CNoDestination
  | [] => CNoDestination
  end.

(** The constructor of [Miner]: the script that the coinbase pays. *)
Definition miner_addr : list Z := chars "bcrt1qwgnsjmzlrtmf27z2f20shhlr70vgfzuq554ssd".
Definition minerAddress (params : ParamsBase) : option CScript := GetScriptForDestination (DecodeDestination params miner_addr).

(** ** Reading a destination back from its address *)

(** The destination of a witness program. *)
Definition witness_destination (version : Z) (program : list Z) : CTxDestination :=
  if version =? 0 then
    if Z.of_nat (length program) =? 20 then WitnessV0KeyHash program
    else if Z.of_nat (length program) =? 32 then WitnessV0ScriptHash program else CNoDestination
  else if (version >? 16) || (Z.of_nat (length program) <? 2) || (Z.of_nat (length program) >? 40) then CNoDestination
  else WitnessUnknown version program.

(** ** Shapes of scripts *)

Lemma push_short (b s : list Z) : Z.of_nat (length b) < 76 → push_data b s = s ++ [Z.of_nat (length b)] ++ b.
Proof. intros. unfold push_data. by rewrite (proj2 (Z.ltb_lt _ _)). Qed.

Lemma list_of_length {A} (l : list A) n : length l = S n → ∃ x l', l = x :: l' ∧ length l' = n.
Proof. destruct l as [|x l]; [done|]. intros [= <-]. by exists x, l. Qed.

Definition dest_ok (d : CTxDestination) : Prop :=
  match d with
  | CNoDestination => False
  | PKHash h | ScriptHash h | WitnessV0KeyHash h => length h = 20%nat
  | WitnessV0ScriptHash h => length h = 32%nat
  | WitnessUnknown version program => 1 <= version <= 16 ∧ (2 <= length program <= 40)%nat
  end.

Lemma witness_script_solved version program :
  0 <= version <= 16 → (2 <= length program <= 40)%nat →
  ∃ op, EncodeOP_N version = Some op ∧ IsPayToScriptHash (push_data program [op]) = false ∧
    IsWitnessProgram (push_data program [op]) = Some (version, program).
Proof.
  intros Hv Hl. unfold EncodeOP_N. rewrite (proj2 (Z.geb_le version 0)), (proj2 (Z.leb_le version 16)) by lia. cbn [andb].
  eexists. split; [done|]. rewrite push_short by lia. set (op := if _ =? 0 then _ else _). assert (DecodeOP_N op = Some version ∧ op ≠ OP_HASH160 ∧
    (op = OP_0 ∨ OP_1 <= op <= OP_16)) as (Hd & Hne & Hop).
  { subst op. unfold DecodeOP_N, OP_0, OP_1, OP_16, OP_HASH160. destruct (Z.eqb_spec version 0) as [->|]; [split_and!; [done|done|by left]|].
    destruct (Z.eqb_spec (81 + version - 1) 0); [lia|]. rewrite (proj2 (Z.geb_le _ _)), (proj2 (Z.leb_le _ _)) by lia. cbn. split; [f_equal; lia|lia]. }
  split.
  - unfold IsPayToScriptHash. change (byte_at _ 0) with op. rewrite (proj2 (Z.eqb_neq op OP_HASH160)) by done. by rewrite andb_false_r.
  - unfold IsWitnessProgram, script_size. cbn [app length]. rewrite (proj2 (Z.ltb_ge _ _)) by lia.
    destruct (Z.gtb_spec (Z.of_nat (S (S (length program)))) 42); [lia|]. cbn [orb].
    change (byte_at _ 0) with op. change (byte_at _ 1) with (Z.of_nat (length program)). rewrite Hd.
    destruct (Z.eqb_spec op OP_0); cbn [negb andb].
    + by rewrite (proj2 (Z.eqb_eq _ _)) by lia.
    + destruct (Z.ltb_spec op OP_1); [lia|]. destruct (Z.gtb_spec op OP_16); [lia|]. cbn [orb]. by rewrite (proj2 (Z.eqb_eq _ _)) by lia.
Qed.

Lemma script_hash_solved h : length h = 20%nat →
  Solver (push_data h [OP_HASH160] ++ [OP_EQUAL]) = (SCRIPTHASH, [h]).
Proof.
  intros Hl. rewrite push_short, Hl by lia. unfold Solver, IsPayToScriptHash, script_size. rewrite !length_app, Hl.
  replace (byte_at _ 22) with OP_EQUAL.
  - cbn -[take]. rewrite drop_0, take_app_length' by done. done.
  - rewrite <- app_assoc. cbn [app]. replace 22%nat with (length (OP_HASH160 :: Z.of_nat 20 :: h) + 0)%nat by (cbn; lia).
    change (OP_HASH160 :: Z.of_nat 20 :: h ++ [OP_EQUAL]) with ((OP_HASH160 :: Z.of_nat 20 :: h) ++ [OP_EQUAL]). by rewrite byte_at_app_r.
Qed.

Lemma key_hash_solved h : length h = 20%nat →
  Solver (push_data h [OP_DUP; OP_HASH160] ++ [OP_EQUALVERIFY; OP_CHECKSIG]) = (PUBKEYHASH, [h]).
Proof.
  intros Hl. rewrite push_short, Hl by lia. set (s := _ ++ [OP_EQUALVERIFY; OP_CHECKSIG]).
  assert (length s = 25%nat) as Hs by (subst s; rewrite !length_app, Hl; done).
  assert (∀ i, byte_at s (23 + i) = byte_at [OP_EQUALVERIFY; OP_CHECKSIG] i) as Hb.
  { intros i. subst s. replace (23 + i)%nat with (length ([OP_DUP; OP_HASH160] ++ [Z.of_nat 20] ++ h) + i)%nat
      by (rewrite !length_app, Hl; done). apply byte_at_app_r. }
  pose proof (Hb 0%nat) as H23. pose proof (Hb 1%nat) as H24. cbn [Nat.add] in H23, H24.
  assert (byte_at s 0 = OP_DUP ∧ byte_at s 1 = OP_HASH160 ∧ byte_at s 2 = 20) as (H0 & H1 & H2) by done.
  unfold Solver, IsPayToScriptHash, IsWitnessProgram, MatchPayToPubkey, MatchPayToPubkeyHash, script_size.
  rewrite Hs, H0, H1, H2, H23, H24. cbn -[take drop s]. subst s. rewrite <- !app_assoc. cbn [app drop].
  rewrite ?drop_0, take_app_length' by done. done.
Qed.

(** A standard destination is read back from its script. *)
Lemma ExtractDestination_script d : dest_ok d → ∃ s, GetScriptForDestination d = Some s ∧ ExtractDestination s = Some d.
Proof.
  destruct d as [|h|h|h|h|version program]; cbn [dest_ok GetScriptForDestination]; [done|..]; intros Hd.
  - eexists. split; [done|]. unfold ExtractDestination. by rewrite key_hash_solved.
  - eexists. split; [done|]. unfold ExtractDestination. by rewrite script_hash_solved.
  - destruct (witness_script_solved 0 h) as (op & [= <-] & Hp & Hw); [lia|lia|]. eexists. split; [done|].
    unfold ExtractDestination, Solver. rewrite Hp, Hw, Hd. done.
  - destruct (witness_script_solved 0 h) as (op & [= <-] & Hp & Hw); [lia|lia|]. eexists. split; [done|].
    unfold ExtractDestination, Solver. rewrite Hp, Hw, Hd. done.
  - destruct Hd as [Hv Hl]. destruct (witness_script_solved version program) as (op & -> & Hp & Hw); [lia|lia|]. eexists. split; [done|].
    unfold ExtractDestination, Solver. rewrite Hp, Hw. rewrite (proj2 (Z.eqb_neq version 0)) by lia. cbn [andb negb].
    change (byte_at [?x] 0) with x. by rewrite wrap_id by (unfold fits; lia).
Qed.

(** ** Keys *)

Lemma ValidSize_cases key : CPubKey_ValidSize key = true →
  (length key = 33%nat ∨ length key = 65%nat) ∧ ∃ b rest, key = b :: rest ∧ GetLen b = Z.of_nat (length key).
Proof.
  destruct key as [|b rest]; [done|]. cbn [CPubKey_ValidSize]. intros E%Z.eqb_eq. split; [|by exists b, rest].
  unfold GetLen, COMPRESSED_PUBLIC_KEY_SIZE, PUBLIC_KEY_SIZE in E. cbn [length] in *.
  destruct ((b =? 2) || (b =? 3)); [left; lia|]. destruct (_ || _); [right; lia|lia].
Qed.

Lemma CPubKey_new_valid key : CPubKey_ValidSize key = true →
  CPubKey_bytes (CPubKey_new key) = key ∧ CPubKey_IsValid (CPubKey_new key) = true.
Proof.
  intros (Hlen & b & rest & Ek & Hb)%ValidSize_cases.
  assert (CPubKey_new key = key ++ drop (length key) (replicate 65 0)) as E.
  { unfold CPubKey_new, CPubKey_Set. assert (match key with [] => 0 | b :: _ => GetLen b end = Z.of_nat (length key)) as -> by (by rewrite Ek, <- Ek).
    rewrite (proj2 (Z.eqb_neq _ 0)), Z.eqb_refl by lia. done. }
  assert (CPubKey_size (CPubKey_new key) = Z.of_nat (length key)) as Hs.
  { unfold CPubKey_size. rewrite E, Ek. cbn [app]. change (byte_at (b :: _) 0) with b. by rewrite <- Ek. }
  unfold CPubKey_bytes, CPubKey_IsValid. rewrite Hs, Nat2Z.id, E, take_app_length. split; [done|].
  destruct (Z.gtb_spec (Z.of_nat (length key)) 0); [done|lia].
Qed.

Lemma raw_key_solved key : CPubKey_ValidSize key = true → Solver (push_data key [] ++ [OP_CHECKSIG]) = (PUBKEY, [key]).
Proof.
  intros Hk. destruct (ValidSize_cases key Hk) as (Hlen & b & rest & Ek & Hb). rewrite push_short by lia. cbn [app].
  set (s := _ :: key ++ [OP_CHECKSIG]). assert (script_size s = Z.of_nat (length key) + 2) as Hs
    by (subst s; unfold script_size; cbn [length]; rewrite length_app; cbn [length]; lia).
  assert (byte_at s 0 = Z.of_nat (length key)) as H0 by done. assert (script_back s = OP_CHECKSIG) as Hb'.
  { unfold script_back. subst s. change (_ :: key ++ [OP_CHECKSIG]) with ((Z.of_nat (length key) :: key) ++ [OP_CHECKSIG]). by rewrite last_app_one. }
  assert (take (length key) (drop 1 s) = key) as Ht by (subst s; cbn [drop]; by rewrite drop_0, take_app_length).
  unfold Solver, IsPayToScriptHash, IsWitnessProgram, MatchPayToPubkey. rewrite Hs, H0, Hb'.
  change (Z.to_nat COMPRESSED_PUBLIC_KEY_SIZE) with 33%nat. change (Z.to_nat PUBLIC_KEY_SIZE) with 65%nat.
  destruct Hlen as [Hl|Hl]; rewrite Hl in *; [change (Z.of_nat 33) with 33|change (Z.of_nat 65) with 65];
    cbn -[take drop s CPubKey_ValidSize]; rewrite Ht, Hk; done.
Qed.

(** ** Recovering the script *)

Lemma drop_one (s : CScript) n : length s = S n → drop n s = [byte_at s n].
Proof.
  intros Hl. destruct (lookup_lt_is_Some_2 s n) as [x Hx]; [lia|]. unfold byte_at. rewrite Hx, (drop_S _ _ _ Hx).
  by rewrite drop_ge by lia.
Qed.

Lemma script_hash_shape s : IsPayToScriptHash s = true →
  s = push_data (take 20 (drop 2 s)) [OP_HASH160] ++ [OP_EQUAL] ∧ length (take 20 (drop 2 s)) = 20%nat.
Proof.
  unfold IsPayToScriptHash, script_size. rewrite !andb_true_iff, !Z.eqb_eq. intros (((Hl & H0) & H1) & H22).
  assert (length (take 20 (drop 2 s)) = 20%nat) as Ht by (rewrite length_take, length_drop; lia). split; [|done].
  rewrite push_short, Ht by (rewrite Ht; lia). pose proof (drop_one s 22 ltac:(lia)) as Hd. rewrite H22 in Hd. rewrite <- Hd.
  replace 22%nat with (2 + 20)%nat by done. rewrite <- drop_drop, <- !app_assoc, take_drop.
  destruct s as [|x0 [|x1 s]]; try done. unfold byte_at in H0, H1. cbn in H0, H1. subst. cbn [app drop]. by rewrite drop_0.
Qed.

Lemma key_hash_shape s h : MatchPayToPubkeyHash s = Some h →
  s = push_data h [OP_DUP; OP_HASH160] ++ [OP_EQUALVERIFY; OP_CHECKSIG] ∧ length h = 20%nat.
Proof.
  unfold MatchPayToPubkeyHash, script_size. destruct (_ && _) eqn:E; [|done]. rewrite !andb_true_iff, !Z.eqb_eq in E.
  destruct E as (((((Hl & H0) & H1) & H2) & H23) & H24). intros [= <-].
  assert (length (take 20 (drop 3 s)) = 20%nat) as Ht by (rewrite length_take, length_drop; lia). split; [|done].
  rewrite push_short, Ht by (rewrite Ht; lia). assert (drop 23 s = [OP_EQUALVERIFY; OP_CHECKSIG]) as Hd.
  { destruct (lookup_lt_is_Some_2 s 23) as [x Hx]; [lia|]. rewrite (drop_S _ _ _ Hx), (drop_one s 24) by lia.
    unfold byte_at in H23. rewrite Hx in H23. cbn in H23. by rewrite H23, H24. }
  rewrite <- Hd. replace 23%nat with (3 + 20)%nat by done. rewrite <- drop_drop, <- !app_assoc, take_drop.
  destruct s as [|x0 [|x1 [|x2 s]]]; try done. unfold byte_at in H0, H1, H2. cbn in H0, H1, H2. subst. cbn [app drop]. by rewrite drop_0.
Qed.

Lemma raw_key_shape s key : MatchPayToPubkey s = Some key → CPubKey_ValidSize key = true ∧ s = push_data key [] ++ [OP_CHECKSIG].
Proof.
  assert (∀ n : nat, (n < 76)%nat → length s = (n + 2)%nat → byte_at s 0 = Z.of_nat n → script_back s = OP_CHECKSIG →
    s = push_data (take n (drop 1 s)) [] ++ [OP_CHECKSIG]) as Hshape.
  { intros n Hn Hl H0 Hb. destruct s as [|x s]; [cbn in Hl; lia|]. unfold byte_at in H0. cbn in H0. subst x. cbn [drop]. rewrite drop_0.
    destruct s as [|y s _] using rev_ind; [cbn in Hl; lia|]. cbn [length] in Hl. rewrite length_app in Hl. cbn [length] in Hl.
    unfold script_back in Hb. change (Z.of_nat n :: s ++ [y]) with ((Z.of_nat n :: s) ++ [y]) in Hb. rewrite last_app_one in Hb. cbn in Hb. subst y.
    rewrite take_app_length' by lia. rewrite push_short by lia. cbn [app]. by replace n with (length s) by lia. }
  unfold MatchPayToPubkey, script_size. destruct (_ && _ && _) eqn:E; [|clear E; destruct (_ && _ && _) eqn:E; [|intros [=]]];
    rewrite !andb_true_iff, !Z.eqb_eq in E; destruct E as ((Hl & H0) & Hb); destruct (CPubKey_ValidSize _) eqn:Hv; intros [= <-]; (split; [done|]).
  - change (Z.to_nat PUBLIC_KEY_SIZE) with 65%nat. apply Hshape; [lia|unfold PUBLIC_KEY_SIZE in Hl; lia|done|done].
  - change (Z.to_nat COMPRESSED_PUBLIC_KEY_SIZE) with 33%nat. apply Hshape; [lia|unfold COMPRESSED_PUBLIC_KEY_SIZE in Hl; lia|done|done].
Qed.

Lemma witness_shape s version program : IsWitnessProgram s = Some (version, program) →
  0 <= version <= 16 ∧ (2 <= length program <= 40)%nat ∧ ∃ op, EncodeOP_N version = Some op ∧ s = push_data program [op].
Proof.
  unfold IsWitnessProgram, script_size. destruct ((_ <? 4) || _) eqn:El; [done|]. destruct (negb _ && _) eqn:Eo; [done|].
  destruct (Z.eqb_spec (byte_at s 1 + 2) (Z.of_nat (length s))) as [E1|]; [|done].
  destruct (DecodeOP_N (byte_at s 0)) as [v|] eqn:Ed; [|done]. intros [= <- <-].
  destruct s as [|op [|n s]]; [done|cbn in El; lia|]. unfold byte_at in *. cbn -[Z.add] in E1, Ed, Eo, El. cbn [drop]. rewrite drop_0.
  assert (∀ op', op' :: n :: s = push_data s [op']) as Hps by (intros op'; rewrite push_short by lia; cbn [app]; do 2 f_equal; lia).
  rewrite (Hps op). unfold DecodeOP_N, EncodeOP_N in *. unfold OP_0, OP_1, OP_16 in *.
  destruct (Z.eqb_spec op 0) as [->|Hne].
  - injection Ed as <-. split; [lia|]. split; [lia|]. by exists 0.
  - destruct (_ && _) eqn:Er in Ed; [|done]. injection Ed as <-. split; [lia|]. split; [lia|]. exists op.
    rewrite (proj2 (Z.geb_le _ _)), (proj2 (Z.leb_le _ _)), (proj2 (Z.eqb_neq _ _)) by lia. cbn [andb]. split; [f_equal; lia|done].
Qed.

(** ** Multisig scripts *)

Lemma multisig_keys_read keys m rest acc fuel :
  Forall (λ k, CPubKey_ValidSize k = true) keys → (length keys < fuel)%nat → OP_PUSHDATA4 < m →
  multisig_keys fuel acc ((keys ≫= λ k, push_data k []) ++ [m] ++ rest) = (acc ++ keys, m, rest).
Proof.
  intros Hk. revert acc fuel. induction Hk as [|k keys Hv _ IH]; intros acc [|fuel] Hf Hm; [cbn in Hf; lia| |cbn in Hf; lia|].
  - cbn [list_bind mbind app multisig_keys GetScriptOp]. rewrite (proj2 (Z.leb_gt _ _)) by done. cbn. by rewrite app_nil_r.
  - change ((k :: keys) ≫= λ k, push_data k []) with (push_data k [] ++ (keys ≫= λ k, push_data k [])). rewrite <- app_assoc.
    cbn [multisig_keys]. destruct (ValidSize_cases k Hv) as [Hlen _]. rewrite (proj1 (GetScriptOp_push k _ ltac:(lia))), Hv.
    cbn [length] in Hf. rewrite IH by (done || lia). by rewrite <- app_assoc.
Qed.

Lemma foldl_push keys s :
  foldl (λ script key, push_data (CPubKey_bytes key) script) s (CPubKey_new <$> keys) =
  s ++ (keys ≫= λ k, push_data (CPubKey_bytes (CPubKey_new k)) []).
Proof.
  revert s. induction keys as [|k keys IH]; intros s; cbn [fmap list_fmap foldl]; [by rewrite app_nil_r|].
  rewrite IH. change ((k :: keys) ≫= ?f) with (f k ++ (keys ≫= f)). by rewrite app_assoc.
Qed.

Lemma EncodeOP_N_small n : 1 <= n <= 16 →
  EncodeOP_N n = Some (OP_1 + n - 1) ∧ DecodeOP_N (OP_1 + n - 1) = Some n ∧ IsSmallInteger (OP_1 + n - 1) = true.
Proof.
  intros Hn. unfold EncodeOP_N, DecodeOP_N, IsSmallInteger, OP_0, OP_1, OP_16.
  rewrite (proj2 (Z.geb_le n 0)), (proj2 (Z.leb_le n 16)), (proj2 (Z.eqb_neq n 0)), (proj2 (Z.eqb_neq (81 + n - 1) 0)) by lia.
  rewrite (proj2 (Z.geb_le (81 + n - 1) 81)), (proj2 (Z.leb_le (81 + n - 1) 96)) by lia. cbn. split_and!; [done|f_equal; lia|done].
Qed.

(** ** Properties *)

(** A program of version 1 has a destination. *)
Example unknown_witness_has_destination :
  ExtractDestination (OP_1 :: 2 :: [7; 8]) = Some (WitnessUnknown 1 [7; 8]).
Proof. vm_compute. reflexivity. Qed.

(** C28 [ExtractDestination] names whom a script pays, and nothing else: it answers exactly for the script that
    [GetScriptForDestination] makes of a standard destination, with that destination, and for a bare public key followed
    by OP_CHECKSIG, with the hash of the key.  Among the destinations are the witness programs of versions 1 to 16
    ([WitnessUnknown]), which the comment in standard.h leaves out of what the function works for. *)
Theorem standard_scripts_name_destinations (s : CScript) (d : CTxDestination) :
  ExtractDestination s = Some d ↔
  (dest_ok d ∧ GetScriptForDestination d = Some s) ∨
  (∃ key, CPubKey_ValidSize key = true ∧ s = push_data key [] ++ [OP_CHECKSIG] ∧ d = PKHash (Hash160 key)).
Proof.
  split.
  - unfold ExtractDestination, Solver. destruct (IsPayToScriptHash s) eqn:Ep.
    { destruct (script_hash_shape s Ep) as [Es Hl]. intros [= <-]. left. split; [done|]. cbn [GetScriptForDestination]. by rewrite <- Es. }
    destruct (IsWitnessProgram s) as [[version program]|] eqn:Ew.
    { destruct (witness_shape _ _ _ Ew) as (Hv & Hl & op & Hop & ->). unfold WITNESS_V0_KEYHASH_SIZE, WITNESS_V0_SCRIPTHASH_SIZE.
      destruct (Z.eqb_spec version 0) as [->|Hne]; cbn [andb negb].
      - injection Hop as <-. destruct (Z.eqb_spec (Z.of_nat (length program)) 20); [intros [= <-]; left; split; [cbn; lia|done]|].
        destruct (Z.eqb_spec (Z.of_nat (length program)) 32); [intros [= <-]; left; split; [cbn; lia|done]|intros [=]].
      - intros [= <-]. left. change (byte_at [?x] 0) with x. rewrite wrap_id by (unfold fits; lia). cbn [dest_ok GetScriptForDestination].
        rewrite Hop. split; [lia|done]. }
    destruct (_ && IsPushOnly _); [intros [=]|]. destruct (MatchPayToPubkey s) as [key|] eqn:Ek.
    { destruct (raw_key_shape _ _ Ek) as [Hv ->]. destruct (CPubKey_new_valid _ Hv) as [Hb ->]. cbn [negb]. intros [= <-]. right.
      exists key. unfold CPubKey_GetID. by rewrite Hb. }
    destruct (MatchPayToPubkeyHash s) as [h|] eqn:Eh.
    { destruct (key_hash_shape _ _ Eh) as [-> Hl]. intros [= <-]. by left. }
    destruct (MatchMultisig s) as [[]|]; intros [=].
  - intros [[Hd Hs]|(key & Hv & -> & ->)].
    + destruct (ExtractDestination_script d Hd) as (s' & Hs' & He). congruence.
    + unfold ExtractDestination. rewrite raw_key_solved by done. destruct (CPubKey_new_valid _ Hv) as [Hb ->]. cbn [negb].
      unfold CPubKey_GetID. by rewrite Hb.
Qed.

(** C29 An address gives its destination back: a witness program of any version, written as an address with the prefix of
    the network, is decoded to the destination that pays to it, and version 0 programs of other sizes to none. *)
Theorem address_roundtrip (params : ParamsBase) (version : Z) (program : list Z) :
  hrp_ok (p_bech32_hrp params) → (length (p_bech32_hrp params) <= 17)%nat → bytes_ok program → (length program <= 40)%nat →
  0 <= version <= 16 →
  ∃ q str, ConvertBits 8 5 true program = (true, q) ∧ Encode (p_bech32_hrp params) (version :: q) = Some str ∧
    DecodeDestination params str = witness_destination version program.
Proof.
  intros Hh Hhl Hp Hpl Hv. destruct (ConvertBits_back 8 5 program ltac:(lia) Hp) as (q & Hq & Hback & Hqs & Hql).
  destruct (Decode_Encode (p_bech32_hrp params) (version :: q)) as (str & He & Hd); [done| |cbn [length]; lia|].
  { constructor; [unfold fits; lia|done]. }
  exists q, str. split; [done|]. split; [done|]. unfold DecodeDestination. rewrite Hd. cbn [fst snd].
  rewrite bool_decide_eq_true_2, Hback by done. done.
Qed.

Lemma address_roundtrip_witness :
  ∃ q str, ConvertBits 8 5 true (replicate 20 7) = (true, q) ∧ Encode (chars "bcrt") (0 :: q) = Some str ∧
    DecodeDestination RegTestParams str = WitnessV0KeyHash (replicate 20 7).
Proof.
  apply (address_roundtrip RegTestParams 0 (replicate 20 7)).
  - split; [discriminate|]. apply (bool_decide_unpack _). vm_compute. exact I.
  - cbn. lia.
  - apply (bool_decide_unpack _). vm_compute. exact I.
  - cbn. lia.
  - lia.
Defined.

Lemma length_pushes (keys : list (list Z)) : (length keys <= length (keys ≫= λ k, push_data k []))%nat.
Proof.
  induction keys as [|k keys IH]; [done|]. change ((k :: keys) ≫= ?f) with (f k ++ (keys ≫= f)). rewrite length_app.
  assert (1 <= length (push_data k []))%nat; [|cbn [length]; lia].
  unfold push_data. repeat case_match; cbn [app length]; rewrite ?length_app; cbn; lia.
Qed.

(** A multisig script made of valid keys is recognised, with its keys and the number of signatures. *)
Theorem multisig_scripts_are_solved (required : Z) (keys : list (list Z)) :
  Forall (λ k, CPubKey_ValidSize k = true) keys → 1 <= required <= Z.of_nat (length keys) → Z.of_nat (length keys) <= 16 →
  ∃ s, GetScriptForMultisig required (CPubKey_new <$> keys) = Some s ∧ MatchMultisig s = Some (required, keys).
Proof.
  intros Hk Hr Hn. destruct (EncodeOP_N_small required ltac:(lia)) as (Em & Dm & Sm).
  destruct (EncodeOP_N_small (Z.of_nat (length keys)) ltac:(lia)) as (En & Dn & Sn). unfold GetScriptForMultisig. rewrite Em. cbn.
  rewrite length_fmap, En. cbn. eexists. split; [done|]. rewrite foldl_push.
  assert ((keys ≫= λ k, push_data (CPubKey_bytes (CPubKey_new k)) []) = (keys ≫= λ k, push_data k [])) as ->.
  { clear -Hk. induction Hk as [|k keys Hv _ IH]; [done|].
    change ((k :: keys) ≫= ?f) with (f k ++ (keys ≫= f)). cbv beta. by rewrite IH, (proj1 (CPubKey_new_valid _ Hv)). }
  rewrite <- app_assoc. cbn [app]. set (body := keys ≫= _). set (m := OP_1 + required - 1) in *. set (n := OP_1 + Z.of_nat (length keys) - 1) in *.
  assert (OP_PUSHDATA4 < m ∧ OP_PUSHDATA4 < n) as [Hm Hn'] by (subst m n; unfold OP_PUSHDATA4, OP_1; lia).
  unfold MatchMultisig, script_size.
  assert (script_back (m :: body ++ [n; OP_CHECKMULTISIG]) = OP_CHECKMULTISIG) as ->.
  { unfold script_back. change (m :: body ++ [n; OP_CHECKMULTISIG]) with ([m] ++ body ++ [n; OP_CHECKMULTISIG]). change [n; OP_CHECKMULTISIG] with ([n] ++ [OP_CHECKMULTISIG]). by rewrite !app_assoc, last_app_one. }
  rewrite (proj2 (Z.ltb_ge _ _)) by (cbn; lia). cbn [orb negb Z.eqb app GetScriptOp]. rewrite Z.eqb_refl. cbn [negb].
  rewrite (proj2 (Z.leb_gt _ _)) by done. rewrite Sm. cbn [negb]. rewrite Dm. cbn [mbind option_bind].
  pose proof (multisig_keys_read keys n [OP_CHECKMULTISIG] [] (S (length (body ++ [n; OP_CHECKMULTISIG]))) Hk) as Hread.
  cbn [app] in Hread. fold body in Hread. rewrite Hread; [|pose proof (length_pushes keys); fold body in H; rewrite length_app; lia|done]. cbn [app].
  rewrite Sn, Dn. cbn [negb mbind option_bind]. rewrite Z.eqb_refl, (proj2 (Z.ltb_ge _ _)) by lia. done.
Qed.
