(* ===== verification/Store.v ===== *)
(** * Storage: the database wrappers, the transaction index and the UTXO set of [blockchain.h]

    LevelDB is not part of the sources: it is the class [LevelDB], three
    operations that report their status, with the class [LevelDBLaws] for what
    its documentation promises when no operation fails.  Everything above it,
    from [DBWrapper] to [UTXOManager], is a function on the database, and the
    theorems hold for every implementation of the classes; [gmap_db] is one.

    [std::map<uint256, T>] is an association list kept in key order, because
    iteration follows that order.  A failed assertion, a null dereference, an
    exception of the deserializer and the use of an uninitialised variable are
    the faults of [res]. *)

From Stdlib Require Import Sorted.
From stdpp Require Import base gmap list numbers decidable strings.
From S2P Require Import Prelude ArithUint256 Uint256 Serialize Sha256 Script Tx Block.

Open Scope Z_scope.

(** ** Faults *)

Inductive fault := NullDeref | AssertFail | Exn (e : ser_exn) | Uninit | Hang.

Inductive res (A : Type) :=
  | Ok (a : A)
  | Fault (f : fault).
Arguments Ok {A} a.
Arguments Fault {A} f.

Definition res_bind {A B} (x : res A) (f : A → res B) : res B :=
  match x with
  | Ok a => f a
  | Fault e => Fault e
  end.

Declare Scope res_scope.
Delimit Scope res_scope with res.
Notation "'let?' x ':=' c1 'in' c2" := (res_bind c1 (λ x, c2))
  (at level 10, x name, c1 at level 100, c2 at level 200) : res_scope.
Open Scope res_scope.

(** [NetMessageData s(buf, version); s >> value;] *)
Definition decode {A} (r : rd A) (version : Z) (buf : list Z) : res A :=
  match r (nd_of_buffer buf version) with
  | Done (a, _) => Ok a
  | Thrown e => Fault (Exn e)
  | Indeterminate => Fault Uninit
  end.

Lemma decode_reads {A} version (r : rd A) bs a :
  Z.of_nat (length bs) < 2 ^ 32 → reads version r bs a → decode r version bs = Ok a.
Proof.
  intros Hl H. unfold decode. rewrite (H (nd_of_buffer bs version) []); [done|done|].
  rewrite app_nil_r. by split_and!.
Qed.

(** ** [std::map<uint256, T>] *)

Abbreviation bmap A := (list (blob * A)).

Section bmap.
Context {A : Type}.

Fixpoint bm_find (k : blob) (m : bmap A) : option A :=
  match m with
  | [] => None
  | (k', a) :: m' => if bool_decide (k = k') then Some a else bm_find k m'
  end.

(** [m[k] = a]. *)
Fixpoint bm_set (k : blob) (a : A) (m : bmap A) : bmap A :=
  match m with
  | [] => [(k, a)]
  | (k', a') :: m' =>
      if bool_decide (k = k') then (k, a) :: m'
      else if blob_ltb k k' then (k, a) :: (k', a') :: m' else (k', a') :: bm_set k a m'
  end.

Definition bm_erase (k : blob) (m : bmap A) : bmap A := filter (λ e, e.1 ≠ k) m.

(** [m.insert], which keeps an entry that is already there. *)
Definition bm_emplace (k : blob) (a : A) (m : bmap A) : bmap A :=
  match bm_find k m with
  | Some _ => m
  | None => bm_set k a m
  end.

Definition bm_mem (k : blob) (m : bmap A) : bool := bool_decide (is_Some (bm_find k m)).

Lemma bm_find_set_eq k a m : bm_find k (bm_set k a m) = Some a.
Proof.
  induction m as [|[k' a'] m IH]; cbn; [by rewrite bool_decide_true|].
  case_bool_decide; [cbn; by rewrite bool_decide_true|].
  destruct (blob_ltb k k'); cbn; [by rewrite bool_decide_true|]. by rewrite bool_decide_false.
Qed.

Lemma bm_find_set_ne k j a m : j ≠ k → bm_find j (bm_set k a m) = bm_find j m.
Proof.
  intros Hne. induction m as [|[k' a'] m IH]; cbn; [by rewrite bool_decide_false|].
  case_bool_decide; subst; cbn; [by rewrite (bool_decide_false (j = k'))|].
  destruct (blob_ltb k k'); cbn; [by rewrite (bool_decide_false (j = k))|]. by rewrite IH.
Qed.

Lemma bm_find_set k j a m : bm_find j (bm_set k a m) = if bool_decide (j = k) then Some a else bm_find j m.
Proof. case_bool_decide; subst; auto using bm_find_set_eq, bm_find_set_ne. Qed.

Lemma bm_find_erase k j m : bm_find j (bm_erase k m) = if bool_decide (j = k) then None else bm_find j m.
Proof.
  unfold bm_erase. induction m as [|[k' a'] m IH]; [by case_bool_decide|].
  rewrite filter_cons. cbn [fst]. destruct (decide (k' ≠ k)) as [Hne|Heq]; cbn [bm_find].
  - rewrite IH. destruct (bool_decide (j = k')) eqn:E; [|done].
    apply bool_decide_eq_true in E as ->. by rewrite bool_decide_false.
  - apply dec_stable in Heq as ->. rewrite IH. by case_bool_decide.
Qed.

Lemma bm_find_elem k a m : bm_find k m = Some a → (k, a) ∈ m.
Proof.
  induction m as [|[k' a'] m IH]; [done|]. cbn. case_bool_decide; intros E; simplify_eq; set_solver.
Qed.

Lemma elem_bm_find k a m : (k, a) ∈ m → is_Some (bm_find k m).
Proof.
  induction m as [|[k' a'] m IH]; [by intros ?%not_elem_of_nil|]. cbn. case_bool_decide; [done|].
  intros [?|?]%elem_of_cons; [by simplify_eq|auto].
Qed.

(** Keys in order. *)
Definition bm_sorted (m : bmap A) : Prop := StronglySorted (λ x y, blob_ltb x y = true) m.*1.
Definition keys_ok (m : bmap A) : Prop := Forall (blob_wf 32) m.*1.

Lemma bm_set_keys k a m j : j ∈ (bm_set k a m).*1 ↔ j = k ∨ j ∈ m.*1.
Proof.
  induction m as [|[k' a'] m IH]; cbn [bm_set fmap list_fmap fst]; [rewrite elem_of_cons, !elem_of_nil; tauto|].
  case_bool_decide; subst; cbn [fmap list_fmap fst]; [rewrite !elem_of_cons; tauto|].
  destruct (blob_ltb k k'); cbn [fmap list_fmap fst]; rewrite !elem_of_cons, ?IH; tauto.
Qed.

Lemma bm_set_keys_ok k a m : blob_wf 32 k → keys_ok m → keys_ok (bm_set k a m).
Proof.
  intros Hk. unfold keys_ok. rewrite !list.Forall_forall. intros Hm j [->|Hj]%bm_set_keys; auto.
Qed.

Lemma bm_set_sorted k a m : blob_wf 32 k → keys_ok m → bm_sorted m → bm_sorted (bm_set k a m).
Proof.
  unfold keys_ok, bm_sorted. intros Hk. induction m as [|[k' a'] m IH]; cbn.
  { intros _ _. repeat constructor. }
  intros [Hk' Hok]%Forall_cons_1 [Hs Hlt]%StronglySorted_inv.
  case_bool_decide; subst; [by constructor|]. destruct (blob_ltb k k') eqn:E; cbn.
  - constructor; [by constructor|]. constructor; [done|].
    rewrite list.Forall_forall in *. intros j Hj. eapply blob_ltb_trans; [| |done|by apply Hlt].
    + by rewrite (proj1 Hk), (proj1 Hk').
    + by rewrite (proj1 Hk'), (proj1 (Hok j Hj)).
  - constructor; [auto|]. rewrite list.Forall_forall in *. intros j [->|Hj]%bm_set_keys; [|auto].
    destruct (blob_ltb_total k k') as [?|[?|?]]; [by rewrite (proj1 Hk), (proj1 Hk')|congruence..|done].
Qed.

End bmap.

(** Reading a [std::map] whose values are shared pointers to block indexes: the
    pointers are written through, and read back as fresh objects. *)
Definition ser_index_map (v : Z) (m : bmap BlockIndex) : list Z :=
  WriteCompactSize (Z.of_nat (length m)) ++ (m ≫= λ e, e.1 ++ ser_BlockIndex v e.2).

Fixpoint unser_index_entries (n : nat) (m : bmap BlockIndex) : rd (bmap BlockIndex) :=
  match n with
  | O => rd_ret m
  | S n' =>
      let! k := rd_into (blob_null 32) 32 in
      let! i := unser_BlockIndex BlockIndex_null in
      unser_index_entries n' (bm_emplace k i m)
  end.
Definition unser_index_map : rd (bmap BlockIndex) :=
  let! nSize := ReadCompactSize in unser_index_entries (Z.to_nat nSize) [].

(** ** LevelDB *)

(** The first component of the result of [Put] and [Delete] is [Status::ok()],
    [None] from [Get] is any other status. *)
Class LevelDB (db : Type) := {
  ldb_Get : db → list Z → option (list Z);
  ldb_Put : db → list Z → list Z → bool * db;
  ldb_Delete : db → list Z → bool * db;
}.

(** The documented behaviour of a database whose operations return OK. *)
Class LevelDBLaws (db : Type) `{LevelDB db} := {
  contents : db → gmap (list Z) (list Z);
  Get_contents d k : ldb_Get d k = contents d !! k;
  Put_ok d k v : (ldb_Put d k v).1 = true;
  Put_contents d k v : contents (ldb_Put d k v).2 = <[k := v]> (contents d);
  Delete_ok d k : (ldb_Delete d k).1 = true;
  Delete_contents d k : contents (ldb_Delete d k).2 = delete k (contents d);
}.

Definition gmap_db := gmap (list Z) (list Z).
#[global] Instance gmap_LevelDB : LevelDB gmap_db := {
  ldb_Get d k := d !! k;
  ldb_Put d k v := (true, <[k := v]> d);
  ldb_Delete d k := (true, delete k d);
}.
#[global] Instance gmap_LevelDBLaws : LevelDBLaws gmap_db.
Proof. by refine {| contents := λ d, d |}. Defined.

(** ** [DBWrapper] *)

Section wrappers.
Context {db : Type} `{LevelDB db}.

Definition GetInt64 (d : db) (key : list Z) : res (option Z) :=
  match ldb_Get d key with
  | None => Ok None
  | Some buf =>
      if bool_decide (length buf = 8%nat) then Ok (Some (swrap64 (le_value buf))) else Fault AssertFail
  end.
Definition SetInt64 (d : db) (key : list Z) (value : Z) : bool * db := ldb_Put d key (le_bytes 8 (wrap64 value)).

Definition PutData (d : db) (key data : list Z) : bool * db := ldb_Put d key data.
Definition GetData (d : db) (key : list Z) : option (list Z) := ldb_Get d key.
Definition DeleteData (d : db) (key : list Z) : bool * db := ldb_Delete d key.

Definition PutHash256 (d : db) (key : list Z) (value : blob) : bool * db := ldb_Put d key value.
Definition GetHash256 (d : db) (key : list Z) : res (option blob) :=
  match ldb_Get d key with
  | None => Ok None
  | Some buf => if bool_decide (length buf = 32%nat) then Ok (Some buf) else Fault AssertFail
  end.

(** [s >> value] on what the database holds under a key. *)
Definition GetObject {A} (r : rd A) (version : Z) (d : db) (key : list Z) : res (option A) :=
  match GetData d key with
  | None => Ok None
  | Some buf => let? a := decode r version buf in Ok (Some a)
  end.

(** ** [DBBlockWrapper] *)

Record TipBlockInfo := mk_TipBlockInfo {
  tbi_hash : blob;
  tbi_height : Z;
  tbi_txCount : Z;
  tbi_hashPrevBlock : blob;
}.

Definition ser_TipBlockInfo (v : Z) (t : TipBlockInfo) : list Z :=
  tbi_hash t ++ ser_int 8 (tbi_height t) ++ ser_int 4 (tbi_txCount t) ++ tbi_hashPrevBlock t.
Definition unser_TipBlockInfo (old : TipBlockInfo) : rd TipBlockInfo :=
  let! hash := rd_into (tbi_hash old) 32 in
  let! height := unser_uint 8 in
  let! txCount := unser_uint 4 in
  let! hashPrevBlock := rd_into (tbi_hashPrevBlock old) 32 in
  rd_ret (mk_TipBlockInfo hash height txCount hashPrevBlock).

Definition TIP_BLOCK_INFO_KEY : list Z := chars "_TIP_BLOCK_INFO_KEY".

Definition db_GetBlock (d : db) (hash : blob) (value : Block) : res (option Block) :=
  GetObject (unser_block value) 0 d hash.
Definition db_PutBlock (d : db) (hash : blob) (value : Block) : bool * db :=
  PutData d hash (ser_block 0 value).
Definition GetTipBlockInfo (d : db) (value : TipBlockInfo) : res (option TipBlockInfo) :=
  GetObject (unser_TipBlockInfo value) 0 d TIP_BLOCK_INFO_KEY.
Definition PutTipBlockInfo (d : db) (value : TipBlockInfo) : bool * db :=
  PutData d TIP_BLOCK_INFO_KEY (ser_TipBlockInfo 0 value).

(** ** [DBBlockIndexWrapper] *)

Definition index_IsExist (d : db) (hash : blob) : bool := bool_decide (is_Some (GetData d hash)).
(** [Get(hash, value)] reads into an object, [Get(hash)] and [CGet(hash)] make one. *)
Definition index_GetInto (d : db) (hash : blob) (value : BlockIndex) : res (option BlockIndex) :=
  GetObject (unser_BlockIndex value) 0 d hash.
Definition index_CGet (d : db) (hash : blob) : res (option BlockIndex) :=
  GetObject (unser_BlockIndex BlockIndex_null) 0 d hash.
Definition index_Get (d : db) (hash : blob) : res (option BlockIndex) :=
  GetObject (unser_BlockIndex BlockIndex_null) 0 d hash.
Definition index_Put (d : db) (index : BlockIndex) : bool * db :=
  PutData d (bi_hash index) (ser_BlockIndex 0 index).

(** ** [DBTransactionIndexWrapper] *)

Record TxIdx := mk_TxIdx {
  ti_hashBlock : blob;
  ti_height : Z;
  ti_tx : NetMessageTransaction;
}.
Definition TxIdx_default : TxIdx := mk_TxIdx (blob_null 32) 0 tx_default.
Definition TxIdx_IsNull (t : TxIdx) : bool := tx_IsNull (ti_tx t).

Definition ser_TxIdx (v : Z) (t : TxIdx) : list Z :=
  ti_hashBlock t ++ ser_int 8 (ti_height t) ++ ser_tx v (ti_tx t).
Definition unser_TxIdx (old : TxIdx) : rd TxIdx :=
  let! hashBlock := rd_into (ti_hashBlock old) 32 in
  let! height := unser_int 8 in
  let! tx := unser_tx (ti_tx old) in
  rd_ret (mk_TxIdx hashBlock height tx).

Definition txidx_Put (d : db) (t : TxIdx) : bool * db :=
  PutData d (tx_GetHash (ti_tx t)).1 (ser_TxIdx 0 t).
Definition txidx_Get (d : db) (txHash : blob) (v : TxIdx) : res (option TxIdx) :=
  GetObject (unser_TxIdx v) 0 d txHash.
Definition txidx_IsExist (d : db) (txHash : blob) : bool := bool_decide (is_Some (GetData d txHash)).

(** ** [TransactionIndexManager] *)

(** [IndexEntity] has the members and the serialization of [TxIdx]. *)
Definition tim_Put (d : db) (entity : TxIdx) : bool * db :=
  PutData d (tx_GetHash (ti_tx entity)).1 (ser_TxIdx SERIALIZE_TXOUT_ISSPENT entity).
Definition tim_Get (d : db) (hash : blob) : res (option TxIdx) :=
  GetObject (unser_TxIdx TxIdx_default) SERIALIZE_TXOUT_ISSPENT d hash.
Definition tim_Remove (d : db) (hash : blob) : bool * db := DeleteData d hash.

Definition set_isSpent (spent : bool) (o : TxOut) : TxOut := mk_TxOut (out_nValue o) (out_scriptPubKey o) spent.
Definition set_vout (vout : list TxOut) (t : NetMessageTransaction) : NetMessageTransaction :=
  mk_tx (tx_hash t) (tx_witnessHash t) (tx_vin t) vout (tx_nVersion t) (tx_nLockTime t).

Definition SetUTXOSpentStatus (d : db) (pt : OutPoint) (spent : bool) : res (bool * db) :=
  if blob_IsNull (op_hashTransaction pt) then Ok (false, d)
  else
    let? e := tim_Get d (op_hashTransaction pt) in
    match e with
    | None => Ok (false, d)
    | Some entity =>
        let vout := tx_vout (ti_tx entity) in
        if (op_outPutIdx pt <? 0) || (op_outPutIdx pt >=? Z.of_nat (length vout)) then Ok (false, d)
        else
          let vout := alter (set_isSpent spent) (Z.to_nat (op_outPutIdx pt)) vout in
          Ok (tim_Put d (mk_TxIdx (ti_hashBlock entity) (ti_height entity) (set_vout vout (ti_tx entity))))
    end.

Definition IsSpentUTXO (d : db) (pt : OutPoint) : res bool :=
  if blob_IsNull (op_hashTransaction pt) then Ok false
  else
    let? e := tim_Get d (op_hashTransaction pt) in
    match e with
    | None => Ok false
    | Some entity =>
        let vout := tx_vout (ti_tx entity) in
        if (op_outPutIdx pt <? 0) || (op_outPutIdx pt >=? Z.of_nat (length vout)) then Ok false
        else Ok (match vout !! Z.to_nat (op_outPutIdx pt) with Some o => out_isSpent o | None => false end)
    end.

Definition UseUTXO (d : db) (pt : OutPoint) : res (bool * db) := SetUTXOSpentStatus d pt true.
Definition RecoveryUTXO (d : db) (pt : OutPoint) : res (bool * db) := SetUTXOSpentStatus d pt false.

(** ** [UTXOManager] *)

Definition utxo_Put (d : db) (pt : OutPoint) : bool * db :=
  if OutPoint_IsNull pt then (false, d)
  else PutData d (ser_OutPoint 0 pt) (ser_OutPoint SERIALIZE_BLOCK_HASH pt).

Definition utxo_Get (d : db) (pt : OutPoint) : res (option OutPoint) :=
  GetObject (unser_OutPoint OutPoint_null) SERIALIZE_BLOCK_HASH d (ser_OutPoint 0 pt).

Definition IsUnspent (d : db) (pt : OutPoint) : res bool :=
  let? v := utxo_Get d pt in
  Ok (match v with None => false | Some v => negb (op_isUsed v) end).

(** The flag and what is written through [out]. *)
Definition CanUse (d : db) (pt : OutPoint) : res (bool * option OutPoint) :=
  let? v := utxo_Get d pt in
  Ok (match v with None => (false, None) | Some v => (negb (op_isUsed v), Some v) end).

Definition set_isUsed (used : bool) (o : OutPoint) : OutPoint :=
  mk_OutPoint used (op_hashBlock o) (op_height o) (op_hashTransaction o) (op_outPutIdx o).

Definition Use (d : db) (pt : OutPoint) : res (bool * db) :=
  let? v := utxo_Get d pt in
  Ok (match v with None => (false, d) | Some v => utxo_Put d (set_isUsed true v) end).
Definition UnUsed (d : db) (pt : OutPoint) : res (bool * db) :=
  let? v := utxo_Get d pt in
  Ok (match v with None => (false, d) | Some v => utxo_Put d (set_isUsed false v) end).
Definition utxo_Remove (d : db) (pt : OutPoint) : bool * db := DeleteData d (ser_OutPoint 0 pt).

(** A loop over the inputs that ignores the returned statuses. *)
Fixpoint each_input (f : db → OutPoint → res (bool * db)) (d : db) (vin : list TxIn) : res db :=
  match vin with
  | [] => Ok d
  | i :: vin' => let? r := f d (in_previousOutput i) in each_input f r.2 vin'
  end.

Definition CacheUTXO (d : db) (tx : NetMessageTransaction) (hashBlock : blob) (height : Z) : res db :=
  let hash := (tx_GetHash tx).1 in
  let? d := (if negb (IsCoinBase tx) then each_input Use d (tx_vin tx) else Ok d) in
  Ok (for_range 0 (length (tx_vout tx))
        (λ i d, (utxo_Put d (mk_OutPoint false hashBlock height hash (Z.of_nat i))).2) d).

Definition UnCacheUTXO (d : db) (tx : NetMessageTransaction) : res db :=
  let hash := (tx_GetHash tx).1 in
  let? d := (if negb (IsCoinBase tx) then each_input UnUsed d (tx_vin tx) else Ok d) in
  Ok (for_range 0 (length (tx_vout tx))
        (λ i d, (utxo_Remove d (mk_OutPoint false (blob_null 32) (-1) hash (Z.of_nat i))).2) d).

(** ** [NetMessageTransaction::GetFees] *)

(** The loop keeps the last index object it read; [read(tx)] overwrites it. *)
Fixpoint GetFees_in (d : db) (idx : TxIdx) (inValue : Z) (vin : list TxIn) : res (option Z) :=
  match vin with
  | [] => Ok (Some inValue)
  | i :: vin' =>
      let? r := txidx_Get d (op_hashTransaction (in_previousOutput i)) idx in
      match r with
      | None => Ok None
      | Some idx =>
          match tx_vout (ti_tx idx) !! Z.to_nat (op_outPutIdx (in_previousOutput i)) with
          | None => Ok None
          | Some o => GetFees_in d idx (swrap64 (inValue + out_nValue o)) vin'
          end
      end
  end.

Definition GetFees (d : db) (t : NetMessageTransaction) : res Z :=
  let? r := GetFees_in d TxIdx_default 0 (tx_vin t) in
  Ok (match r with
      | None => 0
      | Some inValue =>
          let ret := swrap64 (inValue - GetValueOut t) in
          if ret >? 0 then ret else 0
      end).

End wrappers.

(** ** The UTXO set as a map from output to coin *)

Record coin := mk_coin {
  coin_hashBlock : blob;
  coin_height : Z;
  coin_used : bool;
}.
Abbreviation utxo_set := (gmap (blob * Z) coin).

Definition op_key (pt : OutPoint) : blob * Z := (op_hashTransaction pt, op_outPutIdx pt).
Definition op_coin (pt : OutPoint) : coin := mk_coin (op_hashBlock pt) (op_height pt) (op_isUsed pt).
Definition coin_outpoint (k : blob * Z) (c : coin) : OutPoint :=
  mk_OutPoint (coin_used c) (coin_hashBlock c) (coin_height c) k.1 k.2.
Definition set_coin_used (used : bool) (c : coin) : coin := mk_coin (coin_hashBlock c) (coin_height c) used.

Definition key_ok (k : blob * Z) : Prop := blob_wf 32 k.1 ∧ fits 32 k.2.
Definition coin_ok (c : coin) : Prop := blob_wf 32 (coin_hashBlock c) ∧ sfits 64 (coin_height c).
Definition null_key (k : blob * Z) : bool := blob_IsNull k.1 && (k.2 =? NULL_INDEX).

Definition spend_inputs (used : bool) (vin : list TxIn) (m : utxo_set) : utxo_set :=
  foldl (λ m i, alter (set_coin_used used) (op_key (in_previousOutput i)) m) m vin.
Definition add_outputs (hash : blob) (n : nat) (c : coin) (m : utxo_set) : utxo_set :=
  for_range 0 n (λ i m, if null_key (hash, Z.of_nat i) then m else <[(hash, Z.of_nat i) := c]> m) m.
Definition remove_outputs (hash : blob) (n : nat) (m : utxo_set) : utxo_set :=
  for_range 0 n (λ i m, delete (hash, Z.of_nat i) m) m.

(** What a block's transaction does to the set, and what undoing it does. *)
Definition cache_coins (tx : NetMessageTransaction) (hashBlock : blob) (height : Z) (m : utxo_set) : utxo_set :=
  add_outputs (tx_GetHash tx).1 (length (tx_vout tx)) (mk_coin hashBlock height false)
    (if IsCoinBase tx then m else spend_inputs true (tx_vin tx) m).
Definition uncache_coins (tx : NetMessageTransaction) (m : utxo_set) : utxo_set :=
  remove_outputs (tx_GetHash tx).1 (length (tx_vout tx))
    (if IsCoinBase tx then m else spend_inputs false (tx_vin tx) m).

Lemma ser_key pt : ser_OutPoint 0 pt = op_hashTransaction pt ++ ser_int 4 (op_outPutIdx pt).
Proof. done. Qed.

Lemma ser_key_eq pt pt' : op_key pt = op_key pt' → ser_OutPoint 0 pt = ser_OutPoint 0 pt'.
Proof. unfold op_key. intros [= E1 E2]. by rewrite !ser_key, E1, E2. Qed.

Lemma ser_key_inj pt pt' : key_ok (op_key pt) → key_ok (op_key pt') →
  ser_OutPoint 0 pt = ser_OutPoint 0 pt' → op_key pt = op_key pt'.
Proof.
  intros [[Hl _] Hi] [[Hl' _] Hi']. rewrite !ser_key. unfold op_key in *. cbn [fst snd] in *.
  intros [E1 E2]%app_inj_1; [|by rewrite Hl, Hl'].
  apply (f_equal le_value) in E2. unfold ser_int in E2. rewrite !le_value_le_bytes, !wrap_id in E2 by done.
  unfold fits in *. rewrite !Z.mod_small in E2 by (change (256 ^ Z.of_nat 4) with (2 ^ 32); lia). congruence.
Qed.

Section utxo.
Context {db : Type} `{LevelDBLaws db}.

(** The database holds the coins of [m], each under the key of its output. *)
Record utxo_rep (d : db) (m : utxo_set) : Prop := {
  rep_lookup pt : key_ok (op_key pt) →
    contents d !! ser_OutPoint 0 pt = (λ c, ser_OutPoint SERIALIZE_BLOCK_HASH (coin_outpoint (op_key pt) c)) <$> m !! op_key pt;
  rep_coin k c : m !! k = Some c → coin_ok c ∧ null_key k = false;
}.

Lemma utxo_Get_rep d m pt : utxo_rep d m → key_ok (op_key pt) →
  utxo_Get d pt = Ok (coin_outpoint (op_key pt) <$> m !! op_key pt).
Proof.
  intros [Hl Hc] Hk. unfold utxo_Get, GetObject, GetData. rewrite Get_contents, Hl by done.
  destruct (m !! op_key pt) as [c|] eqn:E; [|done]. cbn. destruct (Hc _ _ E) as [[Hcb Hch] _].
  rewrite (decode_reads SERIALIZE_BLOCK_HASH _ _ (coin_outpoint (op_key pt) c)).
  - done.
  - unfold ser_OutPoint, ser_bool, ser_writedata8, ser_int.
    change (has_flag SERIALIZE_BLOCK_HASH SERIALIZE_BLOCK_HASH) with true. cbn iota.
    rewrite !length_app, !length_le_bytes. cbn [op_hashBlock op_hashTransaction coin_outpoint].
    rewrite (proj1 Hcb), (proj1 (proj1 Hk)). done.
  - apply reads_OutPoint. split; [apply Hk|]. split; [apply Hk|]. done.
Qed.

Lemma rep_insert d m pt :
  utxo_rep d m → key_ok (op_key pt) → coin_ok (op_coin pt) → OutPoint_IsNull pt = false →
  utxo_rep (ldb_Put d (ser_OutPoint 0 pt) (ser_OutPoint SERIALIZE_BLOCK_HASH pt)).2 (<[op_key pt := op_coin pt]> m).
Proof.
  intros [Hl Hc] Hk Hcoin Hn. split.
  - intros pt' Hk'. rewrite Put_contents. destruct (decide (op_key pt' = op_key pt)) as [E|E].
    + rewrite (ser_key_eq _ _ E), E, (lookup_insert_eq m), lookup_insert_eq. by destruct pt.
    + rewrite (lookup_insert_ne m) by auto. rewrite lookup_insert_ne; [by apply Hl|].
      intros Heq. by apply E, ser_key_inj.
  - intros k c. destruct (decide (k = op_key pt)) as [->|E].
    + rewrite lookup_insert_eq. intros [= <-]. done.
    + rewrite lookup_insert_ne by done. apply Hc.
Qed.

Lemma utxo_Put_rep d m pt :
  utxo_rep d m → key_ok (op_key pt) → coin_ok (op_coin pt) →
  (utxo_Put d pt).1 = negb (OutPoint_IsNull pt) ∧
  utxo_rep (utxo_Put d pt).2 (if OutPoint_IsNull pt then m else <[op_key pt := op_coin pt]> m).
Proof.
  intros Hr Hk Hc. unfold utxo_Put, PutData. destruct (OutPoint_IsNull pt) eqn:E; [done|].
  split; [apply Put_ok|]. by apply rep_insert.
Qed.

Lemma set_used_rep d m pt used :
  utxo_rep d m → key_ok (op_key pt) →
  match (coin_outpoint (op_key pt) <$> m !! op_key pt) with
  | None => (false, d)
  | Some v => utxo_Put d (set_isUsed used v)
  end.1 = bool_decide (is_Some (m !! op_key pt)) ∧
  utxo_rep (match (coin_outpoint (op_key pt) <$> m !! op_key pt) with
            | None => (false, d)
            | Some v => utxo_Put d (set_isUsed used v)
            end.2) (alter (set_coin_used used) (op_key pt) m).
Proof.
  intros Hr Hk. destruct (m !! op_key pt) as [c|] eqn:E; cbn.
  - destruct (rep_coin _ _ Hr _ _ E) as [Hc Hn].
    destruct (utxo_Put_rep d m (set_isUsed used (coin_outpoint (op_key pt) c)) Hr) as [H1 H2]; [done|done|].
    unfold OutPoint_IsNull in *. cbn in H1, H2. unfold null_key in Hn. cbn in Hn. rewrite Hn in *.
    split; [by rewrite H1|]. replace (alter _ _ _) with (<[op_key pt := set_coin_used used c]> m); [done|].
    apply map_eq. intros k. destruct (decide (k = op_key pt)) as [->|?].
    + by rewrite lookup_insert_eq, lookup_alter_eq, E.
    + by rewrite lookup_insert_ne, lookup_alter_ne.
  - split; [done|]. replace (alter _ _ _) with m; [done|]. apply map_eq. intros k.
    destruct (decide (k = op_key pt)) as [->|?]; [by rewrite lookup_alter_eq, E|by rewrite lookup_alter_ne].
Qed.

Lemma Use_rep d m pt : utxo_rep d m → key_ok (op_key pt) →
  ∃ d', Use d pt = Ok (bool_decide (is_Some (m !! op_key pt)), d') ∧
        utxo_rep d' (alter (set_coin_used true) (op_key pt) m).
Proof.
  intros Hr Hk. unfold Use. rewrite (utxo_Get_rep _ m) by done. cbn [res_bind].
  destruct (set_used_rep d m pt true Hr Hk) as [H1 H2].
  destruct (match _ with None => _ | Some _ => _ end) as [b d'] in *. cbn in H1, H2. exists d'. by rewrite H1.
Qed.

Lemma UnUsed_rep d m pt : utxo_rep d m → key_ok (op_key pt) →
  ∃ d', UnUsed d pt = Ok (bool_decide (is_Some (m !! op_key pt)), d') ∧
        utxo_rep d' (alter (set_coin_used false) (op_key pt) m).
Proof.
  intros Hr Hk. unfold UnUsed. rewrite (utxo_Get_rep _ m) by done. cbn [res_bind].
  destruct (set_used_rep d m pt false Hr Hk) as [H1 H2].
  destruct (match _ with None => _ | Some _ => _ end) as [b d'] in *. cbn in H1, H2. exists d'. by rewrite H1.
Qed.

Lemma Remove_rep d m pt : utxo_rep d m → key_ok (op_key pt) →
  (utxo_Remove d pt).1 = true ∧ utxo_rep (utxo_Remove d pt).2 (delete (op_key pt) m).
Proof.
  intros [Hl Hc] Hk. split; [apply Delete_ok|]. unfold utxo_Remove, DeleteData. split.
  - intros pt' Hk'. rewrite Delete_contents. destruct (decide (op_key pt' = op_key pt)) as [E|E].
    + by rewrite (ser_key_eq _ _ E), E, (lookup_delete_eq m), lookup_delete_eq.
    + rewrite (lookup_delete_ne m) by auto. rewrite lookup_delete_ne; [by apply Hl|].
      intros Heq. by apply E, ser_key_inj.
  - intros k c. rewrite lookup_delete_Some. intros [_ ?]. by apply Hc.
Qed.

Definition inputs_ok (tx : NetMessageTransaction) : Prop :=
  Forall (λ i, key_ok (op_key (in_previousOutput i))) (tx_vin tx).

Lemma each_input_rep f used d m vin :
  (∀ d m pt, utxo_rep d m → key_ok (op_key pt) →
     ∃ b d', f d pt = Ok (b, d') ∧ utxo_rep d' (alter (set_coin_used used) (op_key pt) m)) →
  utxo_rep d m → Forall (λ i, key_ok (op_key (in_previousOutput i))) vin →
  ∃ d', each_input f d vin = Ok d' ∧ utxo_rep d' (spend_inputs used vin m).
Proof.
  intros Hf Hr Hin. revert d m Hr. induction Hin as [|i vin Hi Hin IH]; intros d m Hr; cbn [each_input]; [by exists d|].
  destruct (Hf d m (in_previousOutput i) Hr Hi) as (b & d' & -> & Hr'). cbn [res_bind snd].
  unfold spend_inputs. cbn [foldl]. by apply IH.
Qed.

Definition outputs_ok (tx : NetMessageTransaction) : Prop :=
  blob_wf 32 (tx_GetHash tx).1 ∧ Z.of_nat (length (tx_vout tx)) <= 2 ^ 32.

Lemma for_range_rep {S T} (R : S → T → Prop) n (f : nat → S → S) (g : nat → T → T) s t :
  R s t → (∀ i s t, (i < n)%nat → R s t → R (f i s) (g i t)) → R (for_range 0 n f s) (for_range 0 n g t).
Proof.
  intros Hst Hstep. induction n as [|n IH]; [done|]. unfold for_range in *. rewrite seq_S, !foldl_app. cbn.
  apply Hstep; [lia|]. apply IH. intros. apply Hstep; [lia|done].
Qed.

Lemma CacheUTXO_rep d m tx hashBlock height :
  utxo_rep d m → inputs_ok tx → outputs_ok tx → coin_ok (mk_coin hashBlock height false) →
  ∃ d', CacheUTXO d tx hashBlock height = Ok d' ∧ utxo_rep d' (cache_coins tx hashBlock height m).
Proof.
  intros Hr Hin [Hh Hn] Hc. unfold CacheUTXO, cache_coins.
  assert (∃ d', (if negb (IsCoinBase tx) then each_input Use d (tx_vin tx) else Ok d) = Ok d' ∧
            utxo_rep d' (if IsCoinBase tx then m else spend_inputs true (tx_vin tx) m)) as (d' & -> & Hr').
  { destruct (IsCoinBase tx); cbn [negb]; [by exists d|]. apply each_input_rep; [|done|done].
    intros d0 m0 pt Hr0 Hk0. destruct (Use_rep d0 m0 pt Hr0 Hk0) as (d1 & -> & ?). eauto. }
  cbn [res_bind]. eexists. split; [reflexivity|]. apply for_range_rep; [done|].
  intros i d0 m0 Hi Hr0.
  destruct (utxo_Put_rep d0 m0 (mk_OutPoint false hashBlock height (tx_GetHash tx).1 (Z.of_nat i)) Hr0) as [_ H2];
    [split; [done|split; cbn; lia]|done|]. exact H2.
Qed.

Lemma UnCacheUTXO_rep d m tx :
  utxo_rep d m → inputs_ok tx → outputs_ok tx →
  ∃ d', UnCacheUTXO d tx = Ok d' ∧ utxo_rep d' (uncache_coins tx m).
Proof.
  intros Hr Hin [Hh Hn]. unfold UnCacheUTXO, uncache_coins.
  assert (∃ d', (if negb (IsCoinBase tx) then each_input UnUsed d (tx_vin tx) else Ok d) = Ok d' ∧
            utxo_rep d' (if IsCoinBase tx then m else spend_inputs false (tx_vin tx) m)) as (d' & -> & Hr').
  { destruct (IsCoinBase tx); cbn [negb]; [by exists d|]. apply each_input_rep; [|done|done].
    intros d0 m0 pt Hr0 Hk0. destruct (UnUsed_rep d0 m0 pt Hr0 Hk0) as (d1 & -> & ?). eauto. }
  cbn [res_bind]. eexists. split; [reflexivity|]. apply for_range_rep; [done|].
  intros i d0 m0 Hi Hr0.
  destruct (Remove_rep d0 m0 (mk_OutPoint false (blob_null 32) (-1) (tx_GetHash tx).1 (Z.of_nat i)) Hr0) as [_ H2];
    [split; [done|split; cbn; lia]|]. exact H2.
Qed.

End utxo.

(** ** Undoing a transaction *)

Lemma lookup_add_outputs hash n c m k :
  (add_outputs hash n c m : utxo_set) !! k =
    if decide (k.1 = hash ∧ 0 <= k.2 < Z.of_nat n ∧ null_key k = false) then Some c else m !! k.
Proof.
  unfold add_outputs, for_range. induction n as [|n IH].
  { cbn. by rewrite decide_False by lia. }
  rewrite seq_S, foldl_app. cbn [foldl]. rewrite Nat.add_0_l. destruct k as [h i]. cbn [fst snd] in *.
  destruct (decide ((h, i) = (hash, Z.of_nat n))) as [E|E].
  - simplify_eq. destruct (null_key (hash, Z.of_nat n)) eqn:En.
    + rewrite IH, !decide_False by (intros (? & ? & ?); (congruence || lia)). done.
    + rewrite lookup_insert_eq, decide_True; [done|]. split_and!; (done || lia).
  - assert (foldl (λ m i, if null_key (hash, Z.of_nat i) then m else <[(hash, Z.of_nat i):=c]> m) m (seq 0 n) !! (h, i)
            = if decide (h = hash ∧ 0 <= i < Z.of_nat (S n) ∧ null_key (h, i) = false) then Some c else m !! (h, i)) as IH'.
    { rewrite IH. apply decide_ext. split; intros (-> & ? & ?); split_and!; try done; try lia.
      assert (i ≠ Z.of_nat n) by congruence. lia. }
    destruct (null_key (hash, Z.of_nat n)); [done|]. by rewrite lookup_insert_ne.
Qed.

Lemma lookup_remove_outputs hash n m k :
  (remove_outputs hash n m : utxo_set) !! k =
    if decide (k.1 = hash ∧ 0 <= k.2 < Z.of_nat n) then None else m !! k.
Proof.
  unfold remove_outputs, for_range. induction n as [|n IH].
  { cbn. by rewrite decide_False by lia. }
  rewrite seq_S, foldl_app. cbn [foldl]. rewrite Nat.add_0_l. destruct k as [h i]. cbn [fst snd] in *.
  destruct (decide ((h, i) = (hash, Z.of_nat n))) as [E|E].
  - simplify_eq. rewrite lookup_delete_eq, decide_True; [done|]. split; (done || lia).
  - rewrite lookup_delete_ne by done. rewrite IH. apply decide_ext. split; intros (-> & ?); split; try done; try lia.
    assert (i ≠ Z.of_nat n) by congruence. lia.
Qed.

Definition input_keys (tx : NetMessageTransaction) : list (blob * Z) := (λ i, op_key (in_previousOutput i)) <$> tx_vin tx.

Lemma lookup_spend_inputs used vin m k :
  (spend_inputs used vin m : utxo_set) !! k =
    if decide (k ∈ (λ i, op_key (in_previousOutput i)) <$> vin) then set_coin_used used <$> m !! k else m !! k.
Proof.
  unfold spend_inputs. revert m. induction vin as [|i vin IH]; intros m; cbn [foldl fmap list_fmap].
  { by rewrite decide_False by apply not_elem_of_nil. }
  rewrite IH. destruct (decide (k = op_key (in_previousOutput i))) as [->|Hne].
  - rewrite lookup_alter_eq, (decide_True (P := _ ∈ _ :: _)) by left.
    destruct (decide _); [|done]. rewrite <- option_fmap_compose. by destruct (m !! _).
  - rewrite lookup_alter_ne by done. apply decide_ext. rewrite elem_of_cons. tauto.
Qed.

(** What [CheckTransaction] and the order of the chain give for a new transaction. *)
Definition spendable (m : utxo_set) (tx : NetMessageTransaction) : Prop :=
  IsCoinBase tx = true ∨ ∀ k, k ∈ input_keys tx → coin_used <$> m !! k = Some false.
Definition fresh (m : utxo_set) (tx : NetMessageTransaction) : Prop :=
  ∀ i, 0 <= i < Z.of_nat (length (tx_vout tx)) → m !! ((tx_GetHash tx).1, i) = None.

Lemma uncache_cache tx hashBlock height m :
  spendable m tx → fresh m tx → uncache_coins tx (cache_coins tx hashBlock height m) = m.
Proof.
  intros Hs Hf. apply map_eq. intros k. unfold uncache_coins. rewrite lookup_remove_outputs.
  destruct (decide _) as [[Ek Hk]|Hk].
  { rewrite <- Hf with (i := k.2) by done. by destruct k; cbn in *; subst. }
  assert (∀ m' : utxo_set, add_outputs (tx_GetHash tx).1 (length (tx_vout tx)) (mk_coin hashBlock height false) m' !! k = m' !! k)
    as Hadd by (intros m'; rewrite lookup_add_outputs, decide_False; tauto).
  unfold cache_coins. destruct (IsCoinBase tx) eqn:Ecb.
  - apply Hadd.
  - rewrite lookup_spend_inputs, Hadd, lookup_spend_inputs.
    destruct (decide _) as [Hin|]; [|done]. destruct Hs as [?|Hs]; [congruence|]. specialize (Hs k Hin).
    destruct (m !! k) as [c|]; [|done]. cbn in *. simplify_eq. destruct c. cbn in *. by subst.
Qed.

(** ** Round trips of the stores *)

Lemma reads_TxIdx v t :
  blob_wf 32 (ti_hashBlock t) → sfits 64 (ti_height t) → tx_ok v (ti_tx t) →
  reads v (unser_TxIdx TxIdx_default) (ser_TxIdx v t) (mk_TxIdx (ti_hashBlock t) (ti_height t) (tx_view v (ti_tx t))).
Proof.
  intros Hh Hi Ht. unfold unser_TxIdx, ser_TxIdx. read_field reads_blob. read_field reads_int.
  eapply reads_eq; [eapply reads_bind_ret; by apply reads_tx|reflexivity|]. done.
Qed.

Section roundtrips.
Context {db : Type} `{LevelDBLaws db}.

Lemma GetObject_Put {A} (r : rd A) version d key bs a :
  Z.of_nat (length bs) < 2 ^ 32 → reads version r bs a →
  GetObject r version (PutData d key bs).2 key = Ok (Some a).
Proof.
  intros Hl Hr. unfold GetObject, GetData, PutData. rewrite Get_contents, Put_contents, lookup_insert_eq.
  by rewrite (decode_reads _ _ _ a).
Qed.

Lemma GetObject_Put_other {A} (r : rd A) version d key key' bs :
  key ≠ key' → GetObject r version (PutData d key bs).2 key' = GetObject r version d key'.
Proof.
  intros Hne. unfold GetObject, GetData, PutData. by rewrite !Get_contents, Put_contents, lookup_insert_ne.
Qed.

End roundtrips.

(** ** Properties *)

Lemma blob_null_wf : blob_wf 32 (blob_null 32).
Proof. by apply (bool_decide_unpack _); vm_compute. Qed.

(** A coinbase transaction and one that spends its output, for the witnesses. *)
Definition sample_coinbase : NetMessageTransaction :=
  mk_tx (blob_null 32) (blob_null 32) [mk_TxIn OutPoint_null [81; 0] SEQUENCE_FINAL []]
    [mk_TxOut (50 * COIN) [81] false] 2 0.
Definition sample_txid : blob := Eval vm_compute in (tx_GetHash sample_coinbase).1.
Definition sample_spend : NetMessageTransaction :=
  mk_tx (blob_null 32) (blob_null 32)
    [mk_TxIn (mk_OutPoint false (blob_null 32) (-1) sample_txid 0) [] SEQUENCE_FINAL []]
    [mk_TxOut (20 * COIN) [82] false; mk_TxOut (29 * COIN) [83] false] 2 0.
Definition sample_coins : utxo_set := cache_coins sample_coinbase (blob_null 32) 7 ∅.
Definition sample_db : gmap_db :=
  match CacheUTXO (∅ : gmap_db) sample_coinbase (blob_null 32) 7 with Ok d => d | Fault _ => ∅ end.

Lemma empty_rep : utxo_rep (∅ : gmap_db) ∅.
Proof. split; [intros pt _|intros k c Hk]; [done|by rewrite lookup_empty in Hk]. Qed.

Lemma sample_coinbase_ok : inputs_ok sample_coinbase ∧ outputs_ok sample_coinbase.
Proof.
  split.
  - repeat constructor; vm_compute; done.
  - split; [by apply (bool_decide_unpack _); vm_compute|done].
Qed.

Lemma sample_rep : utxo_rep sample_db sample_coins.
Proof.
  destruct (CacheUTXO_rep (∅ : gmap_db) ∅ sample_coinbase (blob_null 32) 7) as (d' & E & Hr).
  - apply empty_rep.
  - apply sample_coinbase_ok.
  - apply sample_coinbase_ok.
  - split; [by apply (bool_decide_unpack _); vm_compute|done].
  - unfold sample_db. by rewrite E.
Qed.

Lemma sample_spend_ok : inputs_ok sample_spend ∧ outputs_ok sample_spend.
Proof.
  split.
  - constructor; [|constructor]. split; [|done]. by apply (bool_decide_unpack _); vm_compute.
  - split; [by apply (bool_decide_unpack _); vm_compute|done].
Qed.

(** C11 The UTXO manager over any database refines a map from outputs to coins:
    looking up, putting, using, un-using and removing an output, and caching
    and uncaching a whole transaction, do to the database what the map
    operations do to the map, with the matching results. *)
Theorem UTXOManager_refines {db : Type} `{LevelDBLaws db} (d : db) (m : utxo_set) (pt : OutPoint)
    (tx : NetMessageTransaction) (hashBlock : blob) (height : Z) :
  utxo_rep d m → key_ok (op_key pt) → coin_ok (op_coin pt) → inputs_ok tx → outputs_ok tx →
  coin_ok (mk_coin hashBlock height false) →
  CanUse d pt = Ok (bool_decide (coin_used <$> m !! op_key pt = Some false),
                    coin_outpoint (op_key pt) <$> m !! op_key pt) ∧
  ((utxo_Put d pt).1 = negb (OutPoint_IsNull pt) ∧
   utxo_rep (utxo_Put d pt).2 (if OutPoint_IsNull pt then m else <[op_key pt := op_coin pt]> m)) ∧
  (∃ d', Use d pt = Ok (bool_decide (is_Some (m !! op_key pt)), d') ∧
         utxo_rep d' (alter (set_coin_used true) (op_key pt) m)) ∧
  (∃ d', UnUsed d pt = Ok (bool_decide (is_Some (m !! op_key pt)), d') ∧
         utxo_rep d' (alter (set_coin_used false) (op_key pt) m)) ∧
  utxo_rep (utxo_Remove d pt).2 (delete (op_key pt) m) ∧
  (∃ d', CacheUTXO d tx hashBlock height = Ok d' ∧ utxo_rep d' (cache_coins tx hashBlock height m)) ∧
  (∃ d', UnCacheUTXO d tx = Ok d' ∧ utxo_rep d' (uncache_coins tx m)).
Proof.
  intros Hr Hk Hc Hin Hout Hcoin. split_and!.
  - unfold CanUse. rewrite (utxo_Get_rep _ m) by done. cbn [res_bind]. do 2 f_equal.
    destruct (m !! op_key pt) as [c|]; [|done]. cbn. f_equal. destruct c as [? ? []]; by vm_compute.
  - exact (proj1 (utxo_Put_rep d m pt Hr Hk Hc)).
  - exact (proj2 (utxo_Put_rep d m pt Hr Hk Hc)).
  - by apply Use_rep.
  - by apply UnUsed_rep.
  - by apply Remove_rep.
  - by apply CacheUTXO_rep.
  - by apply UnCacheUTXO_rep.
Qed.

Lemma UTXOManager_refines_witness :
  ∃ d', Use sample_db (in_previousOutput (default TxIn_default (head (tx_vin sample_spend)))) = Ok (true, d').
Proof.
  destruct (UTXOManager_refines sample_db sample_coins
    (in_previousOutput (default TxIn_default (head (tx_vin sample_spend)))) sample_spend (blob_null 32) 8)
    as (_ & _ & (d' & E & _) & _).
  - apply sample_rep.
  - exact (Forall_inv (proj1 sample_spend_ok)).
  - split; [by apply (bool_decide_unpack _); vm_compute|done].
  - apply sample_spend_ok.
  - apply sample_spend_ok.
  - split; [by apply (bool_decide_unpack _); vm_compute|done].
  - exists d'. rewrite E.
    match goal with |- Ok (?b, _) = _ => assert (b = true) as -> by (vm_compute; reflexivity) end. reflexivity.
Defined.

(** Disconnecting a transaction undoes connecting it: after [CacheUTXO] the
    inputs can no longer be used and the outputs can, and after [UnCacheUTXO]
    every lookup answers as before. *)
Theorem UnCacheUTXO_undoes_CacheUTXO {db : Type} `{LevelDBLaws db} (d : db) (m : utxo_set)
    (tx : NetMessageTransaction) (hashBlock : blob) (height : Z) :
  utxo_rep d m → inputs_ok tx → outputs_ok tx → coin_ok (mk_coin hashBlock height false) →
  spendable m tx → fresh m tx → Z.of_nat (length (tx_vout tx)) < 2 ^ 32 →
  ∃ d1 d2, CacheUTXO d tx hashBlock height = Ok d1 ∧ UnCacheUTXO d1 tx = Ok d2 ∧
    (IsCoinBase tx = false → ∀ i, i ∈ tx_vin tx → IsUnspent d1 (in_previousOutput i) = Ok false) ∧
    (∀ i, (i < length (tx_vout tx))%nat →
       IsUnspent d1 (mk_OutPoint false (blob_null 32) (-1) (tx_GetHash tx).1 (Z.of_nat i)) = Ok true) ∧
    (∀ pt, key_ok (op_key pt) → utxo_Get d2 pt = utxo_Get d pt).
Proof.
  intros Hr Hin Hout Hcoin Hs Hf Hn.
  destruct (CacheUTXO_rep d m tx hashBlock height Hr Hin Hout Hcoin) as (d1 & E1 & Hr1).
  destruct (UnCacheUTXO_rep d1 _ tx Hr1 Hin Hout) as (d2 & E2 & Hr2). rewrite uncache_cache in Hr2 by done.
  exists d1, d2. split; [done|]. split; [done|]. split_and!.
  - intros Hcb i Hi. unfold IsUnspent. rewrite (utxo_Get_rep _ _ _ Hr1).
    2: { unfold inputs_ok in Hin. rewrite list.Forall_forall in Hin. by apply Hin. }
    cbn [res_bind]. f_equal. unfold cache_coins. rewrite Hcb, lookup_add_outputs.
    assert (op_key (in_previousOutput i) ∈ input_keys tx) as Hik by by apply (list_elem_of_fmap_2 (λ i, op_key (in_previousOutput i))).
    destruct Hs as [?|Hs]; [congruence|]. specialize (Hs _ Hik).
    rewrite decide_False.
    2: { intros (Eh & Hi2 & _). pose proof (Hf _ Hi2) as Hnone. rewrite <- Eh, <- surjective_pairing in Hnone.
         by rewrite Hnone in Hs. }
    rewrite lookup_spend_inputs, decide_True by done. destruct (m !! _); [done|done].
  - intros i Hi. unfold IsUnspent. rewrite (utxo_Get_rep _ _ _ Hr1).
    2: { split; [apply Hout|]. split; cbn; lia. }
    cbn [res_bind]. f_equal. unfold cache_coins. rewrite lookup_add_outputs, decide_True; [done|].
    cbn. split_and!; [done|lia|lia|]. unfold null_key. cbn. apply andb_false_intro2.
    apply Z.eqb_neq. unfold NULL_INDEX. lia.
  - intros pt Hk. by rewrite (utxo_Get_rep _ _ _ Hr2), (utxo_Get_rep _ _ _ Hr).
Qed.

Lemma UnCacheUTXO_undoes_CacheUTXO_witness :
  ∃ d1 d2, CacheUTXO sample_db sample_spend (blob_null 32) 8 = Ok d1 ∧ UnCacheUTXO d1 sample_spend = Ok d2 ∧
    IsUnspent d1 (mk_OutPoint false (blob_null 32) (-1) (tx_GetHash sample_spend).1 1) = Ok true.
Proof.
  destruct (UnCacheUTXO_undoes_CacheUTXO sample_db sample_coins sample_spend (blob_null 32) 8)
    as (d1 & d2 & E1 & E2 & _ & Hu & _).
  - apply sample_rep.
  - apply sample_spend_ok.
  - apply sample_spend_ok.
  - split; [by apply (bool_decide_unpack _); vm_compute|done].
  - right. intros k Hk. assert (k = (sample_txid, 0)) as ->.
    { apply elem_of_cons in Hk as [Hk|Hk]; [exact Hk|]. exfalso. exact (not_elem_of_nil _ Hk). }
    vm_compute. reflexivity.
  - intros i Hi. unfold sample_coins, cache_coins. rewrite lookup_add_outputs.
    assert ((tx_GetHash sample_spend).1 ≠ (tx_GetHash sample_coinbase).1) as Hne
      by (apply (bool_decide_unpack _); vm_compute; exact I).
    cbn [fst snd]. rewrite decide_False; [done|]. intros [? _]. by apply Hne.
  - done.
  - exists d1, d2. split; [exact E1|]. split; [exact E2|]. apply (Hu 1%nat). repeat constructor.
Defined.

(** What is stored is read back: a block under its hash, an index without
    its cached block, a transaction with its place in the chain; and no other
    key is touched. *)
Theorem stores_read_back {db : Type} `{LevelDBLaws db} (d : db) (hash other : blob) (b : Block)
    (i : BlockIndex) (t : TxIdx) :
  block_ok 0 b → Z.of_nat (length (ser_block 0 b)) < 2 ^ 32 → BlockIndex_ok i →
  blob_wf 32 (ti_hashBlock t) → sfits 64 (ti_height t) → tx_ok 0 (ti_tx t) →
  Z.of_nat (length (ser_TxIdx 0 t)) < 2 ^ 32 → hash ≠ other →
  db_GetBlock (db_PutBlock d hash b).2 hash Block_null = Ok (Some b) ∧
  db_GetBlock (db_PutBlock d hash b).2 other Block_null = db_GetBlock d other Block_null ∧
  index_Get (index_Put d i).2 (bi_hash i) = Ok (Some (index_stored i)) ∧
  txidx_Get (txidx_Put d t).2 (tx_GetHash (ti_tx t)).1 TxIdx_default =
    Ok (Some (mk_TxIdx (ti_hashBlock t) (ti_height t) (tx_view 0 (ti_tx t)))).
Proof.
  intros Hb Hbl Hi Hh Hg Ht Htl Hne. split_and!.
  - apply GetObject_Put; [done|]. by apply reads_block.
  - by apply GetObject_Put_other.
  - apply GetObject_Put; [|by apply reads_BlockIndex]. unfold ser_BlockIndex.
    destruct Hi as (_ & [H1 _] & [H2 _] & [H3 _]). rewrite !length_app, length_ser_int, H1, H2, H3. done.
  - apply GetObject_Put; [done|]. by apply reads_TxIdx.
Qed.

Lemma stores_read_back_witness :
  db_GetBlock (db_PutBlock (∅ : gmap_db) (blob_null 32) Block_null).2 (blob_null 32) Block_null = Ok (Some Block_null).
Proof.
  destruct (stores_read_back (∅ : gmap_db) (blob_null 32) [1] Block_null BlockIndex_null
    (mk_TxIdx (blob_null 32) 7 sample_coinbase)) as [E _].
  - split; [|split; [done|constructor]]. split_and!; (done || apply blob_null_wf).
  - vm_compute. reflexivity.
  - split_and!; (done || apply blob_null_wf).
  - apply blob_null_wf.
  - done.
  - split_and!; try done.
    + split; [done|]. constructor; [|constructor]. split_and!; try done. split_and!; (done || apply blob_null_wf).
    + split; [done|]. constructor; [|constructor]. split_and!; done.
    + constructor; [|constructor]. split; [done|constructor].
  - vm_compute. reflexivity.
  - discriminate.
  - exact E.
Defined.
