(* ===== verification/Validate.v ===== *)
(** * Transaction validation: [ScriptValidation], [BlockChain::CheckTransaction], [CheckTransactions]

    The checks read the UTXO database and the transaction index and change
    neither.  The call of the script interpreter is the argument [VerifyScript], a
    decision for each script, flag set and input, which [Spend] instantiates with
    the interpreter and the transaction signature checker.  In the mode used while a fork is examined the caller passes what the fork has
    validated so far, [memValidTxs] and [memValidUTXO]. *)

From stdpp Require Import base gmap list numbers decidable strings.
From S2P Require Import Prelude ArithUint256 Uint256 Serialize Sha256 Script Tx Interpreter Block Pow Store.

Open Scope Z_scope.
Open Scope res_scope.

(** ** The flags of a block *)

Definition IsScriptWitnessEnabled (p : ParamsBase) : bool := negb (p_SegwitHeight p =? 2 ^ 31 - 1).
Definition IsWitnessEnabled_height (p : ParamsBase) (height : Z) : bool := height >=? p_SegwitHeight p.
(** [int height] takes the 64-bit height. *)
Definition IsWitnessEnabled (p : ParamsBase) (index : BlockIndex) : bool :=
  let height := if blob_IsNull (bi_hashPrevBlock index) then 0 else swrap32 (bi_height index) in
  height >=? p_SegwitHeight p.

Definition GetBlockScriptFlags (p : ParamsBase) (index : BlockIndex) : Z :=
  let flags := SCRIPT_VERIFY_NONE in
  let flags :=
    if blob_IsNull (p_BIP16Exception p) || blob_IsNull (bi_hash index) ||
       negb (blob_eqb (bi_hash index) (p_BIP16Exception p))
    then Z.lor flags SCRIPT_VERIFY_P2SH else flags in
  let flags :=
    if has_flag flags SCRIPT_VERIFY_P2SH && IsScriptWitnessEnabled p
    then Z.lor flags SCRIPT_VERIFY_WITNESS else flags in
  let flags := if bi_height index >=? p_BIP66Height p then Z.lor flags SCRIPT_VERIFY_DERSIG else flags in
  let flags := if bi_height index >=? p_BIP65Height p then Z.lor flags SCRIPT_VERIFY_CHECKLOCKTIMEVERIFY else flags in
  let flags := if bi_height index >=? p_CSVHeight p then Z.lor flags SCRIPT_VERIFY_CHECKSEQUENCEVERIFY else flags in
  if IsWitnessEnabled p index then Z.lor flags SCRIPT_VERIFY_NULLDUMMY else flags.

(** ** [std::set<OutPoint>] *)

(** Neither is less than the other. *)
Definition OutPoint_equiv (a b : OutPoint) : bool := negb (OutPoint_ltb a b) && negb (OutPoint_ltb b a).
Definition op_find (pt : OutPoint) (s : list OutPoint) : option OutPoint := List.find (OutPoint_equiv pt) s.
Definition op_insert (pt : OutPoint) (s : list OutPoint) : bool * list OutPoint :=
  match op_find pt s with
  | Some _ => (false, s)
  | None => (true, pt :: s)
  end.
Definition op_erase (pt : OutPoint) (s : list OutPoint) : list OutPoint :=
  List.filter (λ o, negb (OutPoint_equiv pt o)) s.

(** ** [CheckTransaction] *)

Definition MAX_BLOCK_WEIGHT : Z := 4000000.
Definition MAX_BLOCK_SIGOPS_COST : Z := 80000.
Definition COINBASE_MATURITY : Z := 100.

Record CheckTransactionResult := mk_ctr {
  r_nFees : Z;
  r_nInputs : Z;
  r_nSigOpsCost : Z;
}.
Definition ctr_default : CheckTransactionResult := mk_ctr 0 0 0.

(** Scripts, witness, flags, the transaction, the input's number, the amount. *)
Abbreviation script_verifier := (CScript → CScript → list (list Z) → Z → NetMessageTransaction → nat → Z → bool).

Section check.
Context {db : Type} `{LevelDB db} (VerifyScript : script_verifier).
Context (utxo txIndex : db).

(** What the fork's blocks have added, and the height of the fork. *)
Record fork_view := mk_fork_view {
  f_memValidTxs : bmap TxIdx;
  f_memValidUTXO : list OutPoint;
  f_forkHeight : Z;
}.

(** The output values; [None] is the early return of [false]. *)
Fixpoint check_outputs (valueOut : Z) (vout : list TxOut) : option Z :=
  match vout with
  | [] => Some valueOut
  | o :: vout' =>
      if out_nValue o <? 0 then None
      else if out_nValue o >? MAX_MONEY then None
      else
        let valueOut := swrap64 (valueOut + out_nValue o) in
        if negb (MoneyRange valueOut) then None else check_outputs valueOut vout'
  end.

(** Is the referenced output there and unspent ([pOut != nullptr])? *)
Definition find_utxo (fork : option fork_view) (pt : OutPoint) : res bool :=
  match fork with
  | Some f =>
      if f_forkHeight f >? 0 then
        match op_find pt (f_memValidUTXO f) with
        | Some _ => Ok true
        | None =>
            let? r := CanUse utxo pt in
            Ok (match r with
                | (true, Some out) => negb (op_height out >? f_forkHeight f)
                | _ => false
                end)
        end
      else let? r := CanUse utxo pt in Ok r.1
  | None => let? r := CanUse utxo pt in Ok r.1
  end.

(** The referenced transaction.  The test of its height reads through
    [pPrevOutputTxIdx] before the pointer is set. *)
Definition find_prev_tx (fork : option fork_view) (hash : blob) : res (option TxIdx) :=
  match fork with
  | Some f =>
      if f_forkHeight f >? 0 then
        match bm_find hash (f_memValidTxs f) with
        | Some idx => Ok (Some idx)
        | None =>
            let? r := txidx_Get txIndex hash TxIdx_default in
            match r with
            | Some _ => Fault NullDeref
            | None => Ok None
            end
        end
      else txidx_Get txIndex hash TxIdx_default
  | None => txidx_Get txIndex hash TxIdx_default
  end.

(** The body of the loop over the inputs, for input [n]: the new total, or
    [None] for a return of [false]. *)
Definition check_input (tx : NetMessageTransaction) (scriptFlags height : Z) (fork : option fork_view)
    (n : nat) (seen : list OutPoint) (valueIn : Z) (txIn : TxIn) : res (option Z) :=
  let pt := in_previousOutput txIn in
  if OutPoint_IsNull pt then Ok None
  else if negb (op_insert pt seen).1 then Ok None
  else
    let? ok := find_utxo fork pt in
    if negb ok then Ok None
    else
      let? r := find_prev_tx fork (op_hashTransaction pt) in
      match r with
      | None => Ok None
      | Some idx =>
          match tx_vout (ti_tx idx) !! Z.to_nat (op_outPutIdx pt) with
          | None => Ok None
          | Some utxo =>
              if IsCoinBase (ti_tx idx) && (swrap64 (height - ti_height idx) <? COINBASE_MATURITY) then Ok None
              else
                let valueIn := swrap64 (valueIn + out_nValue utxo) in
                if negb (MoneyRange (out_nValue utxo)) || negb (MoneyRange valueIn) then Ok None
                else if negb (VerifyScript (in_scriptSig txIn) (out_scriptPubKey utxo) (in_scriptWitness txIn)
                                scriptFlags tx n (out_nValue utxo)) then Ok None
                else Ok (Some valueIn)
          end
      end.

(** The loop, from input [n] on. *)
Fixpoint check_inputs (tx : NetMessageTransaction) (scriptFlags height : Z) (fork : option fork_view)
    (n : nat) (seen : list OutPoint) (valueIn : Z) (vin : list TxIn) : res (option Z) :=
  match vin with
  | [] => Ok (Some valueIn)
  | txIn :: vin' =>
      let? r := check_input tx scriptFlags height fork n seen valueIn txIn in
      match r with
      | None => Ok None
      | Some valueIn =>
          check_inputs tx scriptFlags height fork (S n) (op_insert (in_previousOutput txIn) seen).2 valueIn vin'
      end
  end.

Definition CheckTransaction (tx : NetMessageTransaction) (scriptFlags height : Z) (r : CheckTransactionResult)
    (fork : option fork_view) : res (bool * CheckTransactionResult) :=
  let r := mk_ctr (r_nFees r) (swrap32 (r_nInputs r + Z.of_nat (length (tx_vin tx)))) (r_nSigOpsCost r) in
  if bool_decide (tx_vin tx = []) then Ok (false, r)
  else if bool_decide (tx_vout tx = []) then Ok (false, r)
  else if tx_GetSerializeSize tx (Z.lor PROTOCOL_VERSION SERIALIZE_TRANSACTION_NO_WITNESS) * WITNESS_SCALE_FACTOR
          >? MAX_BLOCK_WEIGHT then Ok (false, r)
  else
    match check_outputs 0 (tx_vout tx) with
    | None => Ok (false, r)
    | Some valueOut =>
        if IsCoinBase tx then
          let scriptSig := default [] (in_scriptSig <$> head (tx_vin tx)) in
          if (length scriptSig <? 2)%nat || (100 <? length scriptSig)%nat then Ok (false, r) else Ok (true, r)
        else
          let? v := check_inputs tx scriptFlags height fork 0 [] 0 (tx_vin tx) in
          match v with
          | None => Ok (false, r)
          | Some valueIn =>
              if valueIn <? valueOut then Ok (false, r)
              else
                let fees := swrap64 (valueIn - valueOut) in
                let r := mk_ctr fees (r_nInputs r) (r_nSigOpsCost r) in
                if negb (MoneyRange fees) then Ok (false, r) else Ok (true, r)
          end
    end.

Fixpoint CheckTransactions_loop (vtx : list NetMessageTransaction) (scriptFlags height : Z)
    (r : CheckTransactionResult) (fork : option fork_view) : res bool :=
  match vtx with
  | [] => Ok true
  | tx :: vtx' =>
      let? c := CheckTransaction tx scriptFlags height r fork in
      if c.1 then CheckTransactions_loop vtx' scriptFlags height c.2 fork else Ok false
  end.
Definition CheckTransactions (vtx : list NetMessageTransaction) (scriptFlags height : Z)
    (fork : option fork_view) : res bool :=
  CheckTransactions_loop vtx scriptFlags height ctr_default fork.

End check.

(** ** What is accepted *)

Lemma OutPoint_equiv_spec a b : key_ok (op_key a) → key_ok (op_key b) →
  OutPoint_equiv a b = true ↔ op_key a = op_key b.
Proof.
  intros [[Ha _] _] [[Hb _] _]. cbn in Ha, Hb. unfold OutPoint_equiv, OutPoint_ltb, op_key, blob_Compare.
  assert (length (op_hashTransaction a) = length (op_hashTransaction b)) as Hl by congruence.
  rewrite (memcmp_antisym _ _ Hl). pose proof (memcmp_eq _ _ Hl) as Heq.
  destruct (Z.ltb_spec (memcmp (op_hashTransaction a) (op_hashTransaction b)) 0),
    (Z.ltb_spec (- memcmp (op_hashTransaction a) (op_hashTransaction b)) 0); try lia; cbn.
  - split; [done|]. intros [= E _]. apply Heq in E. lia.
  - rewrite andb_false_r. split; [done|]. intros [= E _]. apply Heq in E. lia.
  - assert (memcmp (op_hashTransaction a) (op_hashTransaction b) = 0) as E0 by lia. rewrite E0. cbn.
    apply Heq in E0. rewrite E0. destruct (Z.ltb_spec (op_outPutIdx a) (op_outPutIdx b)),
      (Z.ltb_spec (op_outPutIdx b) (op_outPutIdx a)); cbn; split; intros; simplify_eq; try done; try lia.
    f_equal. lia.
Qed.

Lemma op_find_None pt seen : key_ok (op_key pt) → Forall (λ o, key_ok (op_key o)) seen →
  op_find pt seen = None ↔ op_key pt ∉ op_key <$> seen.
Proof.
  intros Hk Hs. induction Hs as [|o seen Ho Hs IH]; cbn; [split; [intros _; apply not_elem_of_nil|done]|].
  rewrite not_elem_of_cons. pose proof (OutPoint_equiv_spec pt o Hk Ho) as He.
  destruct (OutPoint_equiv pt o); [|rewrite IH; intuition congruence].
  split; [done|]. intros [Hne _]. by destruct Hne; apply He.
Qed.

Lemma op_insert_new pt seen : key_ok (op_key pt) → Forall (λ o, key_ok (op_key o)) seen →
  (op_insert pt seen).1 = true ↔ op_key pt ∉ op_key <$> seen.
Proof.
  intros Hk Hs. rewrite <- op_find_None by done. unfold op_insert. by destruct (op_find pt seen).
Qed.

Lemma swrap64_money x y : MoneyRange x = true → MoneyRange y = true → swrap64 (x + y) = x + y.
Proof.
  rewrite !MoneyRange_spec. unfold MAX_MONEY, COIN. intros. apply swrap_id; [lia|]. split; lia.
Qed.

Definition MoneyRange_out (o : TxOut) : Prop := MoneyRange (out_nValue o) = true.

Lemma check_outputs_iff v vout w : MoneyRange v = true →
  check_outputs v vout = Some w ↔ Forall MoneyRange_out vout ∧ w = v + total_out vout ∧ MoneyRange w = true.
Proof.
  revert v. induction vout as [|o vout IH]; intros v Hv; cbn [check_outputs].
  { cbn. rewrite Z.add_0_r. split; [intros [= <-]; auto|]. by intros (_ & -> & _). }
  change (total_out (o :: vout)) with (out_nValue o + total_out vout).
  assert (MoneyRange_out o ↔ (out_nValue o <? 0) = false ∧ (out_nValue o >? MAX_MONEY) = false) as Ho.
  { unfold MoneyRange_out. rewrite MoneyRange_spec, Z.ltb_ge. rewrite Z.gtb_ltb, Z.ltb_ge. done. }
  destruct (out_nValue o <? 0); [split; [done|]; intros (Hf & _); apply Forall_inv, Ho in Hf; naive_solver|].
  destruct (out_nValue o >? MAX_MONEY); [split; [done|]; intros (Hf & _); apply Forall_inv, Ho in Hf; naive_solver|].
  assert (MoneyRange_out o) as Hmo by by apply Ho. rewrite swrap64_money by done.
  destruct (MoneyRange (v + out_nValue o)) eqn:E; cbn [negb].
  - rewrite IH by done. rewrite Forall_cons. split.
    + intros (? & -> & ?). split_and!; [done|done|lia|done].
    + intros ([_ ?] & -> & ?). split_and!; [done|lia|done].
  - split; [done|]. intros (Hf & -> & Hw). apply Forall_inv_tail, total_out_nonneg in Hf.
    apply MoneyRange_spec in Hw. apply not_true_iff_false in E. rewrite MoneyRange_spec in E.
    apply MoneyRange_spec in Hv, Hmo. lia.
Qed.

Section accepted.
Context {db : Type} `{LevelDBLaws db} (VerifyScript : script_verifier).
Context (utxo txIndex : db) (m : utxo_set).

(** Input [n] of [tx] spends the output [o] of an indexed transaction. *)
Definition input_accepted (tx : NetMessageTransaction) (flags height : Z) (n : nat) (i : TxIn) (o : TxOut) : Prop :=
  let pt := in_previousOutput i in
  OutPoint_IsNull pt = false ∧ coin_used <$> m !! op_key pt = Some false ∧
  (∃ idx, txidx_Get txIndex (op_hashTransaction pt) TxIdx_default = Ok (Some idx) ∧
          tx_vout (ti_tx idx) !! Z.to_nat (op_outPutIdx pt) = Some o ∧
          (IsCoinBase (ti_tx idx) = true → COINBASE_MATURITY <= swrap64 (height - ti_height idx))) ∧
  MoneyRange_out o ∧
  VerifyScript (in_scriptSig i) (out_scriptPubKey o) (in_scriptWitness i) flags tx n (out_nValue o) = true.

Fixpoint inputs_accepted (tx : NetMessageTransaction) (flags height : Z) (n : nat) (vin : list TxIn)
    (spent : list TxOut) : Prop :=
  match vin, spent with
  | [], [] => True
  | i :: vin', o :: spent' => input_accepted tx flags height n i o ∧ inputs_accepted tx flags height (S n) vin' spent'
  | _, _ => False
  end.

Lemma inputs_accepted_money tx flags height n vin spent :
  inputs_accepted tx flags height n vin spent → Forall MoneyRange_out spent.
Proof.
  revert n spent. induction vin as [|i vin IH]; intros n [|o spent]; cbn; try done.
  intros [(_ & _ & _ & Ho & _) Hr]. constructor; [done|by eapply IH].
Qed.

Definition vin_keys (vin : list TxIn) : list (blob * Z) := (λ i, op_key (in_previousOutput i)) <$> vin.

Lemma find_utxo_None pt : utxo_rep utxo m → key_ok (op_key pt) →
  find_utxo utxo None pt = Ok (bool_decide (coin_used <$> m !! op_key pt = Some false)).
Proof.
  intros Hr Hk. unfold find_utxo, CanUse. rewrite (utxo_Get_rep _ m) by done. cbn [res_bind].
  destruct (m !! op_key pt) as [[? ? []]|]; done.
Qed.

(** A test that rejects excludes acceptance. *)
Ltac rejected := split; [done|]; intros (o' & Hacc & Hnew' & Hv' & Hmv');
  destruct Hacc as (Hnull' & Hcoin' & (idx' & Hidx' & Ho' & Hmat') & Hmoney' & Hscript').

Lemma check_input_iff tx flags height n seen v i v' :
  utxo_rep utxo m → key_ok (op_key (in_previousOutput i)) → Forall (λ o, key_ok (op_key o)) seen → MoneyRange v = true →
  check_input VerifyScript utxo txIndex tx flags height None n seen v i = Ok (Some v') ↔
  ∃ o, input_accepted tx flags height n i o ∧ op_key (in_previousOutput i) ∉ op_key <$> seen ∧
       v' = v + out_nValue o ∧ MoneyRange v' = true.
Proof.
  intros Hr Hi Hseen Hv. unfold check_input, input_accepted. set (pt := in_previousOutput i) in *.
  pose proof (op_insert_new pt seen Hi Hseen) as Hnew. rewrite (find_utxo_None pt Hr Hi). cbn [res_bind find_prev_tx].
  destruct (OutPoint_IsNull pt) eqn:Enull; [rejected; congruence|].
  destruct (op_insert pt seen).1 eqn:Eins; cbn [negb]; [|rejected; apply Hnew in Hnew'; congruence].
  case_bool_decide as Ecoin; cbn [negb]; [|rejected; congruence].
  destruct (txidx_Get txIndex (op_hashTransaction pt) TxIdx_default) as [[idx|]|] eqn:Eidx; cbn [res_bind];
    [|rejected; congruence..].
  destruct (tx_vout (ti_tx idx) !! Z.to_nat (op_outPutIdx pt)) as [o|] eqn:Eo; [|rejected; congruence].
  destruct (IsCoinBase (ti_tx idx) && (swrap64 (height - ti_height idx) <? COINBASE_MATURITY)) eqn:Emat.
  { rejected. apply andb_prop in Emat as [? ?%Z.ltb_lt]. simplify_eq. specialize (Hmat' ltac:(done)). lia. }
  destruct (MoneyRange (out_nValue o)) eqn:Emo; cbn [negb orb]; [|rejected; simplify_eq; congruence].
  rewrite (swrap64_money v _ Hv Emo).
  destruct (MoneyRange (v + out_nValue o)) eqn:Emv; cbn [negb]; [|rejected; simplify_eq; congruence].
  destruct (VerifyScript _ _ _ _ _ _ _) eqn:Escript; cbn [negb]; [|rejected; simplify_eq; congruence].
  split.
  - intros [= <-]. exists o. split; [|by split_and!; [apply Hnew|..]]. split; [done|]. split; [done|]. split; [|done].
    exists idx. split; [done|]. split; [done|]. intros Hcb. rewrite Hcb in Emat. by apply Z.ltb_ge in Emat.
  - intros (o' & (_ & _ & (idx' & ? & ? & _) & _) & _ & -> & _). by simplify_eq.
Qed.

Lemma op_insert_seen pt seen : key_ok (op_key pt) → Forall (λ o, key_ok (op_key o)) seen →
  op_key pt ∉ op_key <$> seen → (op_insert pt seen).2 = pt :: seen.
Proof. intros Hk Hs Hn. apply (op_find_None pt seen Hk Hs) in Hn. unfold op_insert. by rewrite Hn. Qed.

Lemma check_inputs_iff tx flags height n seen v vin w :
  utxo_rep utxo m → Forall (λ i, key_ok (op_key (in_previousOutput i))) vin →
  Forall (λ o, key_ok (op_key o)) seen → MoneyRange v = true →
  check_inputs VerifyScript utxo txIndex tx flags height None n seen v vin = Ok (Some w) ↔
  ∃ spent, inputs_accepted tx flags height n vin spent ∧ NoDup (vin_keys vin) ∧
           (∀ k, k ∈ vin_keys vin → k ∉ op_key <$> seen) ∧ w = v + total_out spent ∧ MoneyRange w = true.
Proof.
  intros Hr Hvin. revert n seen v. induction Hvin as [|i vin Hi Hvin IH]; intros n seen v Hseen Hv.
  { cbn. split.
    - intros [= <-]. exists []. cbn. rewrite Z.add_0_r. split_and!; try done; [constructor|by intros k ?%not_elem_of_nil].
    - intros ([|] & Hs & _ & _ & -> & _); [|done]. cbn. by rewrite Z.add_0_r. }
  cbn [check_inputs vin_keys fmap list_fmap]. fold (vin_keys vin).
  pose proof (check_input_iff tx flags height n seen v i) as Hone.
  split.
  - destruct (check_input _ _ _ _ _ _ _ _ _ _ _) as [[v'|]|]; cbn [res_bind]; [|done..].
    destruct (proj1 (Hone v' Hr Hi Hseen Hv) eq_refl) as (o & Hacc & Hnew & -> & Hmv).
    rewrite op_insert_seen by done. rewrite IH by (done || by constructor).
    intros (spent & Haccs & Hnd & Hdis & -> & Hmw). exists (o :: spent). split; [done|]. split_and!.
    + constructor; [|done]. intros Hin. eapply (Hdis _ Hin). left.
    + intros k [->|Hk]%elem_of_cons; [done|]. specialize (Hdis k Hk). rewrite fmap_cons, not_elem_of_cons in Hdis. tauto.
    + change (total_out (o :: spent)) with (out_nValue o + total_out spent). lia.
    + done.
  - intros ([|o spent] & Hacc & Hnd & Hdis & -> & Hmw); [done|]. destruct Hacc as [Hacc Haccs].
    change (total_out (o :: spent)) with (out_nValue o + total_out spent) in *.
    pose proof (total_out_nonneg _ (inputs_accepted_money _ _ _ _ _ _ Haccs)) as Hge.
    assert (MoneyRange_out o) as Hmo by by apply Hacc. apply NoDup_cons in Hnd as [Hni Hnd].
    assert (op_key (in_previousOutput i) ∉ op_key <$> seen) as Hnew by (apply Hdis; left).
    assert (MoneyRange (v + out_nValue o) = true) as Hmv.
    { unfold MoneyRange_out in Hmo. rewrite MoneyRange_spec in *. lia. }
    rewrite (proj2 (Hone (v + out_nValue o) Hr Hi Hseen Hv)) by (exists o; done). cbn [res_bind].
    rewrite op_insert_seen by done. apply IH; [by constructor|done|]. exists spent. split_and!; try done; [|lia].
    intros k Hk. rewrite fmap_cons, not_elem_of_cons. split; [intros ->; done|]. apply Hdis. by right.
Qed.

Lemma CheckTransaction_inputs tx flags height r r' :
  utxo_rep utxo m → inputs_ok tx → IsCoinBase tx = false →
  CheckTransaction VerifyScript utxo txIndex tx flags height r None = Ok (true, r') →
  ∃ spent, inputs_accepted tx flags height 0 (tx_vin tx) spent.
Proof.
  intros Hr Hin Hcb. unfold CheckTransaction. rewrite Hcb.
  case_bool_decide; [done|]. case_bool_decide; [done|]. destruct (_ >? _); [done|].
  destruct (check_outputs _ _); [|done].
  destruct (check_inputs _ _ _ _ _ _ _ _ _ _ _) as [[vi|]|] eqn:E; cbn [res_bind]; [|done..]. intros _.
  apply check_inputs_iff in E as (spent & Hacc & _); [by exists spent|done|done|constructor|done].
Qed.

End accepted.

(** ** Properties *)

(** C4 Checked against the stored chain (with the default arguments, not those for a
    fork), with a coin database that holds the coins [m] and inputs with well-formed
    keys, a transaction is accepted exactly when it has inputs and outputs, is small
    enough, its witness counted, and creates amounts within the money range, and
    - for a coinbase, has a script of 2 to 100 bytes;
    - otherwise spends, with no input twice, unspent outputs of indexed and mature
      transactions whose scripts verify and whose sum is in the money range and covers
      the outputs; the fee reported is the difference. *)
Theorem CheckTransaction_correct {db : Type} `{LevelDBLaws db} (VerifyScript : script_verifier) (utxo txIndex : db)
    (m : utxo_set) (tx : NetMessageTransaction) (flags height : Z) (r r' : CheckTransactionResult) :
  utxo_rep utxo m → inputs_ok tx →
  CheckTransaction VerifyScript utxo txIndex tx flags height r None = Ok (true, r') ↔
    (tx_vin tx ≠ [] ∧ tx_vout tx ≠ [] ∧ Z.of_nat (length (ser_tx 0 tx)) * WITNESS_SCALE_FACTOR <= MAX_BLOCK_WEIGHT ∧
     Forall MoneyRange_out (tx_vout tx) ∧ MoneyRange (total_out (tx_vout tx)) = true) ∧
    let nInputs := swrap32 (r_nInputs r + Z.of_nat (length (tx_vin tx))) in
    if IsCoinBase tx
    then (2 <= length (default [] (in_scriptSig <$> head (tx_vin tx))) <= 100)%nat ∧
         r' = mk_ctr (r_nFees r) nInputs (r_nSigOpsCost r)
    else NoDup (input_keys tx) ∧
         ∃ spent, inputs_accepted VerifyScript txIndex m tx flags height 0 (tx_vin tx) spent ∧
                  MoneyRange (total_out spent) = true ∧ total_out (tx_vout tx) <= total_out spent ∧
                  r' = mk_ctr (total_out spent - total_out (tx_vout tx)) nInputs (r_nSigOpsCost r).
Proof.
  intros Hr Hin. unfold CheckTransaction, tx_GetSerializeSize. cbn [r_nFees r_nInputs r_nSigOpsCost]. cbn zeta.
  case_bool_decide as Evin; [by split; [|naive_solver]|]. case_bool_decide as Evout; [by split; [|naive_solver]|].
  destruct (Z.gtb_spec (Z.of_nat (length (ser_tx 0 tx)) * WITNESS_SCALE_FACTOR) MAX_BLOCK_WEIGHT) as [Hs|Hs].
  { split; [done|]. intros [(_ & _ & ? & _) _]. lia. }
  pose proof (check_outputs_iff 0 (tx_vout tx)) as Hout.
  destruct (check_outputs 0 (tx_vout tx)) as [vo|] eqn:Eout.
  2: { split; [done|]. intros [(_ & _ & _ & Hf & Hm) _]. discriminate (proj2 (Hout (total_out (tx_vout tx)) eq_refl) (conj Hf (conj (eq_sym (Z.add_0_l _)) Hm))). }
  destruct (proj1 (Hout vo eq_refl) eq_refl) as (Hf & -> & Hm). rewrite Z.add_0_l in *.
  match goal with |- ?Q ↔ ?B ∧ ?P => assert B as Hbasic by done; enough (Q ↔ P) by tauto end.
  clear Hbasic. destruct (IsCoinBase tx).
  { set (sig := default [] _). destruct (Nat.ltb_spec (length sig) 2), (Nat.ltb_spec 100 (length sig)); cbn [orb];
      (split; [intros [= <-]; split; [lia|done]|intros [? ->]; done || lia]) || (split; [done|lia]). }
  pose proof (check_inputs_iff VerifyScript utxo txIndex m tx flags height 0 [] 0 (tx_vin tx)) as Hci.
  split.
  - destruct (check_inputs _ _ _ _ _ _ _ _ _ _ _) as [[vi|]|]; cbn [res_bind]; [|done..].
    destruct (proj1 (Hci vi Hr Hin (Forall_nil_2 _) eq_refl) eq_refl) as (spent & Hacc & Hnd & _ & -> & Hmi).
    rewrite Z.add_0_l in *. destruct (Z.ltb_spec (total_out spent) (total_out (tx_vout tx))); [done|].
    rewrite swrap_id; [|lia|rewrite MoneyRange_spec in *; unfold MAX_MONEY, COIN in *; split; lia].
    destruct (MoneyRange (total_out spent - _)); cbn [negb]; [|done]. intros [= <-].
    split; [done|]. by exists spent.
  - intros (Hnd & spent & Hacc & Hmi & Hle & ->).
    rewrite (proj2 (Hci (total_out spent) Hr Hin (Forall_nil_2 _) eq_refl)).
    2: { exists spent. rewrite Z.add_0_l. split_and!; try done. intros k _. apply not_elem_of_nil. }
    cbn [res_bind]. destruct (Z.ltb_spec (total_out spent) (total_out (tx_vout tx))); [lia|].
    rewrite swrap_id; [|lia|rewrite MoneyRange_spec in *; unfold MAX_MONEY, COIN in *; split; lia].
    replace (MoneyRange _) with true; [done|]. symmetry. rewrite MoneyRange_spec in *. lia.
Qed.

Definition sample_index : gmap_db := (txidx_Put (∅ : gmap_db) (mk_TxIdx (blob_null 32) 7 sample_coinbase)).2.

Lemma CheckTransaction_correct_witness :
  CheckTransaction (λ _ _ _ _ _ _ _, true) sample_db sample_index sample_spend 0 200 ctr_default None =
    Ok (true, mk_ctr COIN 1 0).
Proof.
  apply (CheckTransaction_correct (λ _ _ _ _ _ _ _, true) sample_db sample_index sample_coins sample_spend 0 200
    ctr_default (mk_ctr COIN 1 0)).
  - apply sample_rep.
  - apply sample_spend_ok.
  - split; [split_and!; [done|done|vm_compute; discriminate|repeat constructor|reflexivity]|].
    assert (IsCoinBase sample_spend = false) as -> by (vm_compute; reflexivity). split.
    + apply NoDup_singleton.
    + exists [mk_TxOut (50 * COIN) [81] false]. split_and!; [|reflexivity|vm_compute; discriminate|reflexivity].
      split; [|exact I]. split_and!; [vm_compute; reflexivity..| |reflexivity|reflexivity].
      exists (mk_TxIdx (blob_null 32) 7 sample_coinbase). split_and!; [vm_compute; reflexivity|reflexivity|].
      intros _. vm_compute. discriminate.
Defined.

Definition coinbase_paying (amount : Z) : NetMessageTransaction :=
  mk_tx (blob_null 32) (blob_null 32) [mk_TxIn OutPoint_null [81; 0] SEQUENCE_FINAL []]
    [mk_TxOut amount [81] false] 2 0.

(** Nothing bounds what a coinbase pays but the money range: at any height,
    whatever the subsidy and the fees, a block whose only transaction is a
    coinbase of any amount passes [CheckTransactions]. *)
Theorem coinbase_amount_unchecked {db : Type} `{LevelDB db} (VerifyScript : script_verifier) (utxo txIndex : db)
    (flags height amount : Z) :
  0 <= amount <= MAX_MONEY →
  CheckTransactions VerifyScript utxo txIndex [coinbase_paying amount] flags height None = Ok true.
Proof.
  intros Ha. unfold CheckTransactions. cbn [CheckTransactions_loop]. unfold CheckTransaction.
  assert (tx_GetSerializeSize (coinbase_paying amount) (Z.lor PROTOCOL_VERSION SERIALIZE_TRANSACTION_NO_WITNESS)
          * WITNESS_SCALE_FACTOR >? MAX_BLOCK_WEIGHT = false) as ->.
  { unfold tx_GetSerializeSize, ser_tx. reflexivity. }
  cbn [tx_vin tx_vout coinbase_paying bool_decide]. rewrite !bool_decide_false by done.
  cbn [check_outputs out_nValue]. destruct (Z.ltb_spec amount 0); [lia|].
  destruct (Z.gtb_spec amount MAX_MONEY); [lia|]. rewrite Z.add_0_l, swrap_id.
  2: lia. 2: unfold MAX_MONEY, COIN in *; split; lia.
  assert (MoneyRange amount = true) as -> by by apply MoneyRange_spec. reflexivity.
Qed.

Lemma coinbase_amount_unchecked_witness :
  GetBlockSubsidy RegTestParams 9600 = 0 ∧
  CheckTransactions (λ _ _ _ _ _ _ _, true) (∅ : gmap_db) (∅ : gmap_db) [coinbase_paying MAX_MONEY] 0 9600 None = Ok true.
Proof.
  split; [vm_compute; reflexivity|].
  apply (coinbase_amount_unchecked (λ _ _ _ _ _ _ _, true) (∅ : gmap_db) (∅ : gmap_db) 0 9600 MAX_MONEY).
  split; vm_compute; discriminate.
Defined.
