(* ===== verification/Spend.v ===== *)
(** * Spending: the interpreter and the signature checker inside transaction validation

    [CheckTransaction] calls [VerifyScript] with the flags of the block and a
    [CachingTransactionSignatureChecker] for the input: [verify_input].  Here the
    components meet: the validation of [Validate], the interpreter, the signature
    hashes and the key hash scripts of [ScriptSpecs]. *)

From stdpp Require Import base gmap list numbers decidable strings.
From S2P Require Import Prelude ArithUint256 Uint256 Serialize Sha256 Hash160 Script PubKey Tx Interpreter SigHash SoftFork ScriptSpecs Block Pow Store Validate.

Open Scope Z_scope.

(** ** The flags of a block *)

Lemma has_flag_lor a b f : has_flag (Z.lor a b) f = has_flag a f || has_flag b f.
Proof.
  unfold has_flag. rewrite Z.land_lor_distr_l. destruct (Z.eqb_spec (Z.land a f) 0) as [->|Ha].
  - by rewrite Z.lor_0_l.
  - cbn [negb orb]. rewrite (proj2 (Z.eqb_neq _ _)); [done|]. by intros [? _]%Z.lor_eq_0_iff.
Qed.

(** The flags that [GetBlockScriptFlags] never sets, and the ones that go together. *)
Lemma GetBlockScriptFlags_policy p index :
  let flags := GetBlockScriptFlags p index in
  has_flag flags SCRIPT_VERIFY_MINIMALDATA = false ∧ has_flag flags SCRIPT_VERIFY_CONST_SCRIPTCODE = false ∧
  flags_consistent flags.
Proof.
  cbn zeta. unfold flags_consistent, GetBlockScriptFlags. generalize (IsWitnessEnabled p index) as w.
  generalize (bi_height index >=? p_CSVHeight p) as csv. generalize (bi_height index >=? p_BIP65Height p) as b65.
  generalize (bi_height index >=? p_BIP66Height p) as b66. generalize (IsScriptWitnessEnabled p) as sw.
  generalize (blob_IsNull (p_BIP16Exception p) || blob_IsNull (bi_hash index) ||
              negb (blob_eqb (bi_hash index) (p_BIP16Exception p))) as b16.
  intros [] [] [] [] [] []; vm_compute; split_and!; done.
Qed.

(** ** Any spend of a witness key hash *)

Section p2wpkh.
Context `{Secp256k1} (flags : Z).
Context (Hmin : has_flag flags SCRIPT_VERIFY_MINIMALDATA = false)
        (Hconst : has_flag flags SCRIPT_VERIFY_CONST_SCRIPTCODE = false) (Hcons : flags_consistent flags)
        (Hwit : has_flag flags SCRIPT_VERIFY_WITNESS = true).

(** Whatever the scriptSig and the witness are. *)
Lemma p2wpkh_spend_shape ck scriptSig h witness :
  length h = 20%nat → VerifyScript scriptSig (p2wpkh_script h) witness flags ck = Ret tt →
  scriptSig = [] ∧
  ∃ sig key, witness = [sig; key] ∧ key_spends (mk_ctx flags ck WITNESS_V0) sig key h.
Proof.
  intros Hh Hv. unfold VerifyScript in Hv. apply ev_bind_Ret in Hv as ([] & _ & Hv).
  apply ev_bind_Ret in Hv as (stk & _ & Hv). cbn zeta in Hv. apply ev_bind_Ret in Hv as (stk' & _ & Hv).
  apply ev_bind_Ret in Hv as ([] & _ & Hv). apply ev_bind_Ret in Hv as ([b s] & Hv & _).
  unfold verify_witness in Hv. rewrite Hwit, (proj1 (p2wpkh_kind h Hh)) in Hv.
  apply ev_bind_Ret in Hv as ([] & Hsig & Hv). split; [by case_bool_decide|].
  apply ev_bind_Ret in Hv as ([] & Hv & _). pose proof Hv as Hprog. unfold VerifyWitnessProgram, witness_v0_setup in Hv.
  assert (size h = 20) as E by (unfold size; by rewrite Hh). rewrite E in Hv. cbn [Z.eqb] in Hv.
  change (20 =? WITNESS_V0_SCRIPTHASH_SIZE) with false in Hv. change (20 =? WITNESS_V0_KEYHASH_SIZE) with true in Hv.
  apply ev_bind_Ret in Hv as ([spk st] & Hset & Hv). apply ev_bind_Ret in Hset as ([] & Hsz & [= <- <-]).
  apply ev_bind_Ret in Hv as ([] & Hall & _).
  destruct (Z.eqb_spec (size witness) 2) as [H2|]; [|discriminate Hsz].
  destruct witness as [|sig [|key [|? ?]]]; unfold size in H2; cbn [length] in H2; [lia|lia| |lia].
  exists sig, key. split; [done|]. apply VerifyWitnessProgram_p2wpkh; try done.
  all: change (reverse [sig; key]) with [key; sig] in Hall; destruct (forallb _ _) eqn:Ef; [|discriminate Hall];
    cbn [forallb] in Ef; rewrite !andb_true_iff, !negb_true_iff, !Z.gtb_ltb, !Z.ltb_ge in Ef;
    unfold size, MAX_SCRIPT_ELEMENT_SIZE in Ef; lia.
Qed.
End p2wpkh.

(** ** What the checker of a transaction input accepts *)

Lemma sighash_cache_correct code tx n ht amount :
  sighash_witness_v0 code tx n ht amount (Some (precompute tx)) = sighash_witness_v0 code tx n ht amount None.
Proof. unfold sighash_witness_v0, precompute. by destruct (HasWitness tx). Qed.

(** The digest that a signature of witness version 0 commits to. *)
Definition witness_digest (code : CScript) (tx : NetMessageTransaction) (n : nat) (ht amount : Z) : blob :=
  Hash256 (sighash_witness_v0 code tx n ht amount None).

Lemma last_cons_split {A} (l : list A) x : list.last l = Some x → l = take (length l - 1) l ++ [x].
Proof.
  intros Hl. apply last_Some in Hl as [l' ->]. f_equal. rewrite length_app. cbn [length].
  replace (length l' + 1 - 1)%nat with (length l') by lia. by rewrite take_app_length.
Qed.

Lemma tx_CheckSig_true `{Secp256k1} tx n amount sig key code :
  tx_CheckSig tx n amount (Some (precompute tx)) sig key code WITNESS_V0 = Ret true →
  ∃ rs ht, sig = rs ++ [ht] ∧ CPubKey_IsValid (CPubKey_new key) = true ∧
           CPubKey_Verify (CPubKey_new key) (witness_digest code tx n ht amount) rs = true.
Proof.
  unfold tx_CheckSig. destruct (CPubKey_IsValid (CPubKey_new key)) eqn:Ev; cbn [negb]; [|intros [=]].
  destruct (list.last sig) as [ht|] eqn:El; [|intros [=]]. intros (d & Hd & [= Hs])%ev_bind_Ret.
  exists (take (length sig - 1) sig), ht. split; [by apply last_cons_split|]. split; [done|].
  unfold SignatureHash in Hd. apply ev_bind_Ret in Hd as ([] & _ & Hd). rewrite sighash_cache_correct in Hd.
  unfold witness_digest. injection Hd as ->. exact Hs.
Qed.

Lemma inputs_accepted_lookup {db : Type} `{LevelDB db} (V : script_verifier) txIndex m tx flags height k vin spent n i :
  inputs_accepted V txIndex m tx flags height k vin spent → vin !! n = Some i →
  ∃ o, input_accepted V txIndex m tx flags height (k + n) i o.
Proof.
  revert k spent n. induction vin as [|j vin IH]; intros k [|q spent] n; cbn; try done.
  intros [Hj Hr]. destruct n as [|n]; cbn; intros Hi; [simplify_eq; exists q; by rewrite Nat.add_0_r|].
  replace (k + S n)%nat with (S k + n)%nat by lia. by apply (IH _ spent).
Qed.

(** ** Properties *)

(** C8 A coin that pays to a witness key hash moves only with a signature.  When [CheckTransaction] accepts a transaction
    under the flags of a block that enforces witnesses, every input that spends such a coin has an empty scriptSig and the
    witness [signature, key]: the key has the hash, and the library verifies the signature under it for the digest of this
    transaction, this input, the hash type and the amount of the coin. *)
Theorem witness_coins_need_a_signature {db : Type} `{LevelDBLaws db} `{Secp256k1} (p : ParamsBase) (index : BlockIndex)
    (utxo txIndex : db) (m : utxo_set) (tx : NetMessageTransaction) (height : Z) (r r' : CheckTransactionResult) :
  let flags := GetBlockScriptFlags p index in
  utxo_rep utxo m → inputs_ok tx → IsCoinBase tx = false → has_flag flags SCRIPT_VERIFY_WITNESS = true →
  CheckTransaction verify_input utxo txIndex tx flags height r None = Ok (true, r') →
  ∀ n i idx o h, tx_vin tx !! n = Some i →
    txidx_Get txIndex (op_hashTransaction (in_previousOutput i)) TxIdx_default = Ok (Some idx) →
    tx_vout (ti_tx idx) !! Z.to_nat (op_outPutIdx (in_previousOutput i)) = Some o →
    out_scriptPubKey o = p2wpkh_script h → length h = 20%nat →
    in_scriptSig i = [] ∧
    ∃ rs ht key, in_scriptWitness i = [rs ++ [ht]; key] ∧ Hash160 key = h ∧ CPubKey_IsValid (CPubKey_new key) = true ∧
      CPubKey_Verify (CPubKey_new key) (witness_digest (p2pkh_script h) tx n ht (out_nValue o)) rs = true.
Proof.
  intros flags Hr Hin Hcb Hwit Hct n i idx o h Hi Hidx Ho Hspk Hh.
  apply (CheckTransaction_inputs verify_input _ _ m) in Hct as (spent & Hacc); [|done..].
  destruct (inputs_accepted_lookup _ _ _ _ _ _ _ _ _ _ _ Hacc Hi) as (o' & Ho').
  destruct Ho' as (_ & _ & (idx' & Hidx' & Hout' & _) & _ & Hv).
  rewrite Hidx in Hidx'. injection Hidx' as <-. rewrite Ho in Hout'. injection Hout' as <-.
  destruct (GetBlockScriptFlags_policy p index) as (Hmin & Hconst & Hcons). rewrite Hspk in Hv.
  unfold verify_input in Hv. destruct (VerifyScript _ _ _ _ _) as [[]| | |] eqn:E; [|done..].
  apply p2wpkh_spend_shape in E as (-> & sig & key & Hw & Hk & _ & _ & Hs); [|done..]. split; [done|].
  apply tx_CheckSig_true in Hs as (rs & ht & -> & Hvalid & Hverify). by exists rs, ht, key.
Qed.

(** A key, a coin that pays to it, and a transaction whose signature has the digest as its [r]. *)
Definition wpkh_coinbase : NetMessageTransaction :=
  mk_tx (blob_null 32) (blob_null 32) [mk_TxIn OutPoint_null [81; 0] SEQUENCE_FINAL []]
    [mk_TxOut (50 * COIN) (p2wpkh_script sample_keyhash) false] 2 0.
Definition wpkh_txid : blob := Eval vm_compute in (tx_GetHash wpkh_coinbase).1.
Definition wpkh_spend_with (witness : list (list Z)) : NetMessageTransaction :=
  mk_tx (blob_null 32) (blob_null 32)
    [mk_TxIn (mk_OutPoint false (blob_null 32) (-1) wpkh_txid 0) [] SEQUENCE_FINAL witness] [mk_TxOut (20 * COIN) [82] false] 2 0.
Definition wpkh_digest : blob :=
  Eval vm_compute in witness_digest (p2pkh_script sample_keyhash) (wpkh_spend_with []) 0 SIGHASH_ALL (50 * COIN).
Definition wpkh_spend : NetMessageTransaction :=
  wpkh_spend_with [der_encode (0 :: wpkh_digest) [1] ++ [SIGHASH_ALL]; sample_key].
Definition wpkh_db : gmap_db :=
  match CacheUTXO (∅ : gmap_db) wpkh_coinbase (blob_null 32) 7 with Ok d => d | Fault _ => ∅ end.
Definition wpkh_index : gmap_db := (txidx_Put (∅ : gmap_db) (mk_TxIdx (blob_null 32) 7 wpkh_coinbase)).2.

Lemma wpkh_rep : utxo_rep wpkh_db (cache_coins wpkh_coinbase (blob_null 32) 7 ∅).
Proof.
  destruct (CacheUTXO_rep (∅ : gmap_db) ∅ wpkh_coinbase (blob_null 32) 7) as (d' & E & Hr).
  - apply empty_rep.
  - repeat constructor; vm_compute; done.
  - split; [by apply (bool_decide_unpack _); vm_compute|done].
  - split; [by apply (bool_decide_unpack _); vm_compute|done].
  - unfold wpkh_db. by rewrite E.
Qed.

Lemma witness_coins_need_a_signature_witness :
  ∃ rs ht key, in_scriptWitness (default TxIn_default (tx_vin wpkh_spend !! 0%nat)) = [rs ++ [ht]; key] ∧
    Hash160 key = sample_keyhash ∧ CPubKey_IsValid (CPubKey_new key) = true ∧
    @CPubKey_Verify sample_secp (CPubKey_new key) (witness_digest (p2pkh_script sample_keyhash) wpkh_spend 0 ht (50 * COIN)) rs = true.
Proof.
  refine (proj2 (@witness_coins_need_a_signature gmap_db _ _ sample_secp RegTestParams BlockIndex_null wpkh_db wpkh_index
    (cache_coins wpkh_coinbase (blob_null 32) 7 ∅) wpkh_spend 200 ctr_default (mk_ctr (30 * COIN) 1 0) wpkh_rep _ eq_refl eq_refl _
    0%nat _ (mk_TxIdx (blob_null 32) 7 wpkh_coinbase) (mk_TxOut (50 * COIN) (p2wpkh_script sample_keyhash) false)
    sample_keyhash eq_refl _ eq_refl eq_refl eq_refl)).
  - constructor; [|constructor]. split; [|done]. by apply (bool_decide_unpack _); vm_compute.
  - vm_compute. reflexivity.
  - vm_compute. reflexivity.
Defined.
