(* ===== verification/Chain.v ===== *)
(** * The block chain: [BlockTipManager], [TXMemPool], [BlockChain] of [blockchain.h]
      and [blockchain.cpp], [BlockIndex::GetBlock] and [Block::CreateNewBlock] of [block.cpp]

    The state is what the singletons hold: four databases, the map of tips, the
    three transaction pools, the orphan blocks and the two members of the miner
    the chain touches.  An operation is a function from the state to a result
    and a new state.  Index objects are shared by pointer only between the tip
    map and its readers, so the block a reader caches in a tip is written back
    to the map, and two pointers to tips are equal exactly when the tips are
    the same entry.  Taking the lock of [AcceptBlock] again in its own recursive
    call is the fault [Hang], as is a loop that can no longer change its state.
    [fuel] bounds the walks along the stored chain. *)

From stdpp Require Import base gmap list numbers decidable strings.
From S2P Require Import Prelude ArithUint256 Uint256 Serialize Sha256 Script Tx Block Pow Store Validate.

Open Scope Z_scope.
Open Scope res_scope.

(** ** State *)

Record chain (db : Type) := mk_chain {
  c_blocks : db;                             (* DBBlockWrapper *)
  c_index : db;                              (* DBBlockIndexWrapper *)
  c_txIndex : db;                            (* DBTransactionIndexWrapper *)
  c_utxo : db;                               (* UTXOManager::_dbWrapper *)
  c_tipMap : bmap BlockIndex;                (* BlockTipManager::_tipMap *)
  c_pool : bmap NetMessageTransaction;       (* TXMemPool::_pool *)
  c_orphanPool : bmap NetMessageTransaction; (* TXMemPool::_orphanPool *)
  c_miningPool : bmap NetMessageTransaction; (* TXMemPool::_miningPool *)
  c_orphanBlocks : list (blob * Block);      (* BlockChain::_orphanBlocks *)
  c_miningPrevHash : blob;                   (* Miner::_miningPrevHash *)
  c_resetMining : bool;                      (* Miner::ResetMining was called *)
}.
Arguments mk_chain {db}.
Arguments c_blocks {db}. Arguments c_index {db}. Arguments c_txIndex {db}. Arguments c_utxo {db}.
Arguments c_tipMap {db}. Arguments c_pool {db}. Arguments c_orphanPool {db}. Arguments c_miningPool {db}.
Arguments c_orphanBlocks {db}. Arguments c_miningPrevHash {db}. Arguments c_resetMining {db}.

Section updates.
Context {db : Type}.
Implicit Type c : chain db.

Definition with_dbs (blocks index txIndex utxo : db) c : chain db :=
  mk_chain blocks index txIndex utxo (c_tipMap c) (c_pool c) (c_orphanPool c) (c_miningPool c)
    (c_orphanBlocks c) (c_miningPrevHash c) (c_resetMining c).
Definition with_blocks (d : db) c : chain db := with_dbs d (c_index c) (c_txIndex c) (c_utxo c) c.
Definition with_index (d : db) c : chain db := with_dbs (c_blocks c) d (c_txIndex c) (c_utxo c) c.
Definition with_txIndex (d : db) c : chain db := with_dbs (c_blocks c) (c_index c) d (c_utxo c) c.
Definition with_utxo (d : db) c : chain db := with_dbs (c_blocks c) (c_index c) (c_txIndex c) d c.
Definition with_tipMap (m : bmap BlockIndex) c : chain db :=
  mk_chain (c_blocks c) (c_index c) (c_txIndex c) (c_utxo c) m (c_pool c) (c_orphanPool c) (c_miningPool c)
    (c_orphanBlocks c) (c_miningPrevHash c) (c_resetMining c).
Definition with_pools (pool mining : bmap NetMessageTransaction) c : chain db :=
  mk_chain (c_blocks c) (c_index c) (c_txIndex c) (c_utxo c) (c_tipMap c) pool (c_orphanPool c) mining
    (c_orphanBlocks c) (c_miningPrevHash c) (c_resetMining c).
Definition with_orphanBlocks (l : list (blob * Block)) c : chain db :=
  mk_chain (c_blocks c) (c_index c) (c_txIndex c) (c_utxo c) (c_tipMap c) (c_pool c) (c_orphanPool c) (c_miningPool c)
    l (c_miningPrevHash c) (c_resetMining c).
Definition with_reset c : chain db :=
  mk_chain (c_blocks c) (c_index c) (c_txIndex c) (c_utxo c) (c_tipMap c) (c_pool c) (c_orphanPool c) (c_miningPool c)
    (c_orphanBlocks c) (c_miningPrevHash c) true.

End updates.

(** ** The state and fault monad *)

Definition ch (db A : Type) := chain db → res A * chain db.

Section monad.
Context {db : Type}.

Definition ch_ret {A} (a : A) : ch db A := λ c, (Ok a, c).
Definition ch_fault {A} (f : fault) : ch db A := λ c, (Fault f, c).
Definition ch_bind {A B} (x : ch db A) (f : A → ch db B) : ch db B := λ c,
  match x c with
  | (Ok a, c') => f a c'
  | (Fault e, c') => (Fault e, c')
  end.
Definition ch_get : ch db (chain db) := λ c, (Ok c, c).
Definition ch_put (c : chain db) : ch db () := λ _, (Ok (), c).
Definition ch_lift {A} (r : res A) : ch db A := λ c, (r, c).
(** An operation that reports a status and the new database. *)
Definition ch_status (r : bool * chain db) : ch db bool := λ _, (Ok r.1, r.2).
(** [p->x] for a pointer that may be null. *)
Definition deref {A} (o : option A) : ch db A :=
  match o with Some a => ch_ret a | None => ch_fault NullDeref end.

End monad.

Declare Scope ch_scope.
Delimit Scope ch_scope with ch.
Notation "'let*' x ':=' c1 'in' c2" := (ch_bind c1 (λ x, c2))
  (at level 10, x name, c1 at level 100, c2 at level 200) : ch_scope.
Open Scope ch_scope.

(** ** [BlockTipManager] *)

Definition TIP_ALL_KEY_KEY : list Z := chars "TIP_ALL_KEY_KEY".

Section chain.
Context {db : Type} `{LevelDB db}.
Context (p : ParamsBase) (VerifyScript : script_verifier) (fuel : nat).

Definition UpdateBlockTipMap : ch db bool :=
  let* c := ch_get in
  let '(ok, d) := PutData (c_index c) TIP_ALL_KEY_KEY (ser_index_map 0 (c_tipMap c)) in
  ch_status (ok, with_index d c).

Definition GetBlockTipMap : ch db (bmap BlockIndex) :=
  let* c := ch_get in
  if negb (bool_decide (c_tipMap c = [])) then ch_ret (c_tipMap c)
  else
    let* r := ch_lift (GetObject unser_index_map 0 (c_index c) TIP_ALL_KEY_KEY) in
    match r with
    | None => ch_ret (c_tipMap c)
    | Some m => let* _ := ch_put (with_tipMap m c) in ch_ret m
    end.

Definition AddTip (index : BlockIndex) : ch db bool :=
  let* m := GetBlockTipMap in
  let* c := ch_get in
  let* _ := ch_put (with_tipMap (bm_set (bi_hash index) index m) c) in
  UpdateBlockTipMap.

(** [auto map = GetBlockTipMap()] is a copy: the erasure of the parent is lost. *)
Definition UpdateTip (tip : BlockIndex) : ch db bool :=
  let* m := GetBlockTipMap in
  let map := bm_erase (bi_hashPrevBlock tip) m in
  AddTip tip.

Definition GetTip (hash : blob) : ch db (option BlockIndex) :=
  let* m := GetBlockTipMap in ch_ret (bm_find hash m).

Definition highest (active : option BlockIndex) (m : bmap BlockIndex) : option BlockIndex :=
  foldl (λ active e, match active with
                     | None => Some e.2
                     | Some a => if bi_height e.2 >? bi_height a then Some e.2 else Some a
                     end) active m.
Definition GetActiveTip : ch db (option BlockIndex) :=
  let* m := GetBlockTipMap in ch_ret (highest None m).

(** ** [BlockIndex::GetBlock], [GetBlockHeader], [GetMedianTimePast] *)

(** The block and the index with its cache filled. *)
Definition GetBlock_index (i : BlockIndex) : ch db (Block * BlockIndex) :=
  if negb (BlockHeader_IsNull (blk_hd (bi_block i))) then ch_ret (bi_block i, i)
  else
    let* c := ch_get in
    let* r := ch_lift (db_GetBlock (c_blocks c) (bi_hash i) (bi_block i)) in
    let b := default (bi_block i) r in
    ch_ret (b, mk_BlockIndex (bi_height i) (bi_hash i) (bi_hashPrevBlock i) (bi_hashNextBlock i) b (bi_blockHeader i)).

(** On an object of the tip map. *)
Definition GetBlock_tip (i : BlockIndex) : ch db Block :=
  let* r := GetBlock_index i in
  let* c := ch_get in
  let* _ := ch_put (with_tipMap (bm_set (bi_hash i) r.2 (c_tipMap c)) c) in
  ch_ret r.1.

Definition GetBlockHeader_index (i : BlockIndex) : ch db (BlockHeader * BlockIndex) :=
  let* i := (if BlockHeader_IsNull (blk_hd (bi_block i)) then let* r := GetBlock_index i in ch_ret r.2 else ch_ret i) in
  if BlockHeader_IsNull (bi_blockHeader i) then ch_ret (bi_blockHeader i, i)
  else
    let h := GetBlockHeader (bi_block i) in
    ch_ret (h, mk_BlockIndex (bi_height i) (bi_hash i) (bi_hashPrevBlock i) (bi_hashNextBlock i) (bi_block i) h).

(** Only [pmedian[0]] is ever written; [pmedian[5]] after sorting is determined
    by the ten uninitialised entries, an argument here. *)
Fixpoint median_first (n : nat) (blocks : db) (it : Block) (pmedian0 : Z) : res Z :=
  match n with
  | O => Ok pmedian0
  | S n' =>
      let pmedian0 := GetBlockTime (blk_hd it) in
      let? r := db_GetBlock blocks (hd_hashPrevBlock (blk_hd it)) it in
      match r with
      | None => Ok pmedian0
      | Some it => median_first n' blocks it pmedian0
      end
  end.

Fixpoint insert_sorted (x : Z) (l : list Z) : list Z :=
  match l with
  | [] => [x]
  | y :: l' => if x <=? y then x :: l else y :: insert_sorted x l'
  end.
Definition sort_times (l : list Z) : list Z := foldr insert_sorted [] l.

Definition GetMedianTimePast (garbage : list Z) (tip : BlockIndex) : ch db Z :=
  let* it := GetBlock_tip tip in
  let* c := ch_get in
  let* t := ch_lift (median_first 11 (c_blocks c) it 0) in
  ch_ret (default 0 (sort_times (t :: garbage) !! 5%nat)).

(** ** Difficulty *)

(** [while (!prev.IsNull() && nBits == limit) GetBlock(prev, tmpBlock)]; a block
    that is not found leaves [tmpBlock] as it is, for ever. *)
Fixpoint last_not_min (n : nat) (blocks : db) (limit : Z) (tmpBlock : Block) : res Block :=
  if negb (blob_IsNull (hd_hashPrevBlock (blk_hd tmpBlock))) && (hd_nBits (blk_hd tmpBlock) =? limit) then
    match n with
    | O => Fault Hang
    | S n' =>
        let? r := db_GetBlock blocks (hd_hashPrevBlock (blk_hd tmpBlock)) tmpBlock in
        match r with
        | None => Fault Hang
        | Some b => last_not_min n' blocks limit b
        end
    end
  else Ok tmpBlock.

(** Going back [n] blocks, staying in place at a block that is not found. *)
Fixpoint back_blocks (n : nat) (blocks : db) (b : Block) : res Block :=
  match n with
  | O => Ok b
  | S n' =>
      let? r := db_GetBlock blocks (hd_hashPrevBlock (blk_hd b)) b in
      back_blocks n' blocks (default b r)
  end.

Definition GetNextWorkRequired (lastBlock block : Block) : ch db Z :=
  let* nProofOfWorkLimit := ch_lift (match nProofOfWorkLimit p with Some z => Ok z | None => Fault AssertFail end) in
  let* tip := GetActiveTip in
  let* tip := deref tip in
  let* c := ch_get in
  if negb (Z.rem (swrap64 (bi_height tip + 1)) DifficultyAdjustmentInterval =? 0) then
    if s_PowAllowMinDifficultyBlocks then
      if hd_nTime (blk_hd block) >? hd_nTime (blk_hd lastBlock) + s_PowTargetSpacing * 2 then ch_ret nProofOfWorkLimit
      else
        let* b := ch_lift (last_not_min fuel (c_blocks c) nProofOfWorkLimit lastBlock) in
        ch_ret (hd_nBits (blk_hd b))
    else ch_ret (hd_nBits (blk_hd lastBlock))
  else
    let* firstBlock := ch_lift (back_blocks (2016 - 1) (c_blocks c) lastBlock) in
    ch_lift (match CalculateNextWorkRequired p s_PowNoRetargeting (blk_hd lastBlock) (hd_nTime (blk_hd firstBlock)) with
             | Some z => Ok z
             | None => Fault AssertFail
             end).

(** ** [TXMemPool] *)

Definition mempool_Remove (hash : blob) : ch db () :=
  let* c := ch_get in ch_put (with_pools (bm_erase hash (c_pool c)) (bm_erase hash (c_miningPool c)) c).
(** [tx.GetHash()] fills the cache of the object that is then copied. *)
Definition mempool_Push (tx : NetMessageTransaction) : ch db () :=
  let* c := ch_get in
  let '(hash, tx) := tx_GetHash tx in
  ch_put (with_pools (bm_set hash tx (c_pool c)) (c_miningPool c) c).
Definition IsMining (tx : NetMessageTransaction) : ch db bool :=
  let* c := ch_get in ch_ret (bm_mem (tx_GetHash tx).1 (c_miningPool c)).

(** The loop of [GetNewBlockTxs] over what is left of the pool: what stays in the
    pool, what is taken, the fees.  The weight is an [int], compared as unsigned. *)
Fixpoint take_txs (txIndex : db) (nBlockWeight nFees : Z) (pool : bmap NetMessageTransaction) :
    res (bmap NetMessageTransaction * bmap NetMessageTransaction * Z) :=
  match pool with
  | [] => Ok ([], [], nFees)
  | (hash, tx) :: pool' =>
      let? fee := GetFees txIndex tx in
      if fee =? 0 then
        let? r := take_txs txIndex nBlockWeight nFees pool' in
        Ok ((hash, tx) :: r.1.1, r.1.2, r.2)
      else
        let nBlockWeight := swrap32 (nBlockWeight +
          tx_GetSerializeSize tx SERIALIZE_TRANSACTION_NO_WITNESS * WITNESS_SCALE_FACTOR) in
        if wrap32 nBlockWeight >? MAX_BLOCK_WEIGHT - 4000 then Ok (pool, [], nFees)
        else
          let? r := take_txs txIndex nBlockWeight (swrap64 (nFees + fee)) pool' in
          Ok (r.1.1, (hash, tx) :: r.1.2, r.2)
  end.

(** The fees and the transactions appended to the block. *)
Definition GetNewBlockTxs (blockHeight blockTime : Z) : ch db (Z * list NetMessageTransaction) :=
  let* c := ch_get in
  let* r := ch_lift (take_txs (c_txIndex c) 80 0 (c_pool c)) in
  let mining := foldl (λ m e, bm_set e.1 e.2 m) [] r.1.2 in
  let* _ := ch_put (with_pools r.1.1 mining c) in
  ch_ret (r.2, r.1.2.*2).

Definition UndoMiningTxs : ch db () :=
  let* c := ch_get in
  ch_put (with_pools (foldl (λ m e, bm_set e.1 e.2 m) (c_pool c) (c_miningPool c)) [] c).

Definition all_inputs_indexed (txIndex : db) (tx : NetMessageTransaction) : bool :=
  forallb (λ i, txidx_IsExist txIndex (op_hashTransaction (in_previousOutput i))) (tx_vin tx).

Definition AcceptTx (tx : NetMessageTransaction) : ch db bool :=
  let* c := ch_get in
  let '(hash, tx) := tx_GetHash tx in
  if bm_mem hash (c_pool c) || bm_mem hash (c_orphanPool c) || bm_mem hash (c_miningPool c) then ch_ret false
  else if negb (all_inputs_indexed (c_txIndex c) tx) then
    let* _ := ch_put (with_pools (c_pool c) (bm_set hash tx (c_miningPool c)) c) in ch_ret true
  else
    let* tip := GetActiveTip in
    let* tip := deref tip in
    let height := swrap64 (bi_height tip + 1) in
    let flags := GetBlockScriptFlags p (new_BlockIndex height (blob_null 32) (blob_null 32)) in
    let* r := ch_lift (CheckTransaction VerifyScript (c_utxo c) (c_txIndex c) tx flags height ctr_default None) in
    if negb r.1 then ch_ret false
    else
      let* c := ch_get in
      let* _ := ch_put (with_pools (bm_set hash tx (c_pool c)) (c_miningPool c) c) in ch_ret true.

(** One pass over the entries of the mining pool. *)
Fixpoint ProcOrphanTx_loop (entries : bmap NetMessageTransaction) : ch db () :=
  match entries with
  | [] => ch_ret ()
  | (hash, tx) :: entries' =>
      let* c := ch_get in
      let* done :=
        (if txidx_IsExist (c_txIndex c) (tx_GetHash tx).1 then ch_ret true
         else if all_inputs_indexed (c_txIndex c) tx then let* _ := AcceptTx tx in ch_ret true
         else ch_ret false) in
      let* _ := (if done then
                   let* c := ch_get in ch_put (with_pools (c_pool c) (bm_erase hash (c_miningPool c)) c)
                 else ch_ret ()) in
      ProcOrphanTx_loop entries'
  end.
Definition ProcOrphanTx : ch db () := let* c := ch_get in ProcOrphanTx_loop (c_miningPool c).

(** ** [ProcessTransactions], [CheckBlock], [SaveBlock] *)

(** The statuses of the stores are ignored. *)
Fixpoint ProcessTransactions (vtx : list NetMessageTransaction) (hashBlock : blob) (height : Z) : ch db bool :=
  match vtx with
  | [] => ch_ret true
  | tx :: vtx' =>
      let '(hash, tx) := tx_GetHash tx in
      let* _ := mempool_Remove hash in
      let* c := ch_get in
      let* _ := ch_put (with_txIndex (txidx_Put (c_txIndex c) (mk_TxIdx hashBlock height tx)).2 c) in
      let* c := ch_get in
      let* d := ch_lift (CacheUTXO (c_utxo c) tx hashBlock height) in
      let* _ := ch_put (with_utxo d c) in
      ProcessTransactions vtx' hashBlock height
  end.

(** The inputs of one transaction, against the outputs the block spends so far. *)
Fixpoint insert_inputs (vin : list TxIn) (utxos : list OutPoint) : option (list OutPoint) :=
  match vin with
  | [] => Some utxos
  | i :: vin' =>
      let '(ok, utxos) := op_insert (in_previousOutput i) utxos in
      if ok then insert_inputs vin' utxos else None
  end.

(** The loop over the transactions; [first] is [it == block->_vtx.begin()]. *)
Fixpoint check_block_txs (first : bool) (txids : list blob) (utxos : list OutPoint) (nSigOps : Z)
    (vtx : list NetMessageTransaction) : bool :=
  match vtx with
  | [] => true
  | tx :: vtx' =>
      let txHash := (tx_GetHash tx).1 in
      if existsb (blob_eqb txHash) txids then false
      else if first && negb (IsCoinBase tx) then false
      else if negb first && IsCoinBase tx then false
      else
        match insert_inputs (tx_vin tx) utxos with
        | None => false
        | Some utxos =>
            let nSigOps := wrap32 (nSigOps + GetLegacySigOpCount tx) in
            if wrap32 (nSigOps * WITNESS_SCALE_FACTOR) >? MAX_BLOCK_SIGOPS_COST then false
            else check_block_txs false (txHash :: txids) utxos nSigOps vtx'
        end
  end.

(** The checks that look at the block alone. *)
Definition check_block_self (block : Block) : bool :=
  let vtx := blk_vtx block in
  if bool_decide (vtx = []) || (Z.of_nat (length vtx) * WITNESS_SCALE_FACTOR >? MAX_BLOCK_WEIGHT) ||
     (Z.of_nat (length (ser_block 0 block)) * WITNESS_SCALE_FACTOR >? MAX_BLOCK_WEIGHT) then false
  else if negb (check_block_txs true [] [] 0 vtx) then false
  else
    let '(root, mutated) := MakeMerkleRoot block in
    if mutated || negb (blob_eqb (hd_hashMerkleRoot (blk_hd block)) root) then false else true.

Definition CheckBlock (block : Block) : ch db bool :=
  let hash := block_GetHash block in
  if negb (check_block_self block) then ch_ret false
  else
    let* tip := GetActiveTip in
    let* tip := deref tip in
    let* lastBlock := GetBlock_tip tip in
    if BlockHeader_IsNull (blk_hd lastBlock) then ch_ret false
    else
      let* nowBits := GetNextWorkRequired lastBlock block in
      if negb (hd_nBits (blk_hd block) =? nowBits) then ch_ret false
      else if negb (CheckProofOfWork p hash (hd_nBits (blk_hd block))) then ch_ret false
      else ch_ret true.

Definition set_next (hash : blob) (i : BlockIndex) : BlockIndex :=
  mk_BlockIndex (bi_height i) (bi_hash i) (bi_hashPrevBlock i) hash (bi_block i) (bi_blockHeader i).

(** [None] is a null pointer. *)
Definition SaveBlock (block : Block) (prevBlockIndex : BlockIndex) (updateOrCreateTip : bool) :
    ch db (option BlockIndex) :=
  let hash := block_GetHash block in
  if BlockIndex_IsNull prevBlockIndex && negb (blob_eqb hash (p_hashGenesisBlock p)) then ch_ret None
  else
    let height := if BlockIndex_IsNull prevBlockIndex then 0 else swrap64 (bi_height prevBlockIndex + 1) in
    let* c := ch_get in
    let '(ok, d) := db_PutBlock (c_blocks c) hash block in
    let* _ := ch_put (with_blocks d c) in
    if negb ok then ch_ret None
    else
      let prevBlockIndex := set_next hash prevBlockIndex in
      let* c := ch_get in
      let '(ok, d) := (if negb (BlockIndex_IsNull prevBlockIndex) then index_Put (c_index c) prevBlockIndex
                       else (true, c_index c)) in
      let* _ := ch_put (with_index d c) in
      if negb ok then ch_ret None
      else
        let index := new_BlockIndex height hash (hd_hashPrevBlock (blk_hd block)) in
        let* c := ch_get in
        let '(ok, d) := index_Put (c_index c) index in
        let* _ := ch_put (with_index d c) in
        if negb ok then ch_ret None
        else
          let* ok := (if updateOrCreateTip then UpdateTip index else ch_ret true) in
          if negb ok then ch_ret None else ch_ret (Some index).

Definition Initialize : ch db () :=
  let* tip := GetActiveTip in
  match tip with
  | Some _ => ch_ret ()
  | None =>
      let block := GetGenesisBlock in
      let* index := SaveBlock block BlockIndex_null true in
      match index with
      | None => ch_ret ()
      | Some index => let* _ := ProcessTransactions (blk_vtx block) (bi_hash index) (bi_height index) in ch_ret ()
      end
  end.

(** ** [AcceptBlock] *)

(** [_orphanBlocks], a multimap: insertion goes behind equal keys, [find] gives
    the first of them, and the loops run from there to the end of the map. *)
Fixpoint mm_insert (k : blob) (b : Block) (l : list (blob * Block)) : list (blob * Block) :=
  match l with
  | [] => [(k, b)]
  | (k', b') :: l' => if blob_ltb k k' then (k, b) :: (k', b') :: l' else (k', b') :: mm_insert k b l'
  end.
Fixpoint mm_from (k : blob) (l : list (blob * Block)) : list (blob * Block) :=
  match l with
  | [] => []
  | (k', b') :: l' => if bool_decide (k = k') then l else mm_from k l'
  end.

(** Equality of two pointers into the tip map. *)
Definition same_tip (a b : BlockIndex) : bool := bool_decide (bi_hash a = bi_hash b).

(** [FuncAcceptBlockOK]. *)
Definition accept_block_ok (isLocalMining : bool) (prevHash : blob) : ch db () :=
  let* c := ch_get in
  let* _ := (if isLocalMining && blob_eqb prevHash (c_miningPrevHash c)
             then let* _ := UndoMiningTxs in let* c := ch_get in ch_put (with_reset c)
             else ch_ret ()) in
  ProcOrphanTx.

(** [FuncGetCurrentHeight]. *)
Definition current_height (bIsGenesis bPrevBlockFound : bool) (prevBlockIndex : BlockIndex) : Z :=
  if bIsGenesis then 0
  else if negb bPrevBlockFound then INVALID_BLOCK_HEIGHT
  else swrap64 (bi_height prevBlockIndex + 1).

(** The longest chain grows. *)
Definition accept_active (block : Block) (prevBlockIndex : BlockIndex) (height : Z) (isLocalMining : bool) : ch db bool :=
  let hash := block_GetHash block in
  let* ok := CheckBlock block in
  if negb ok then ch_ret false
  else
    let flags := GetBlockScriptFlags p (new_BlockIndex height hash (hd_hashPrevBlock (blk_hd block))) in
    let* c := ch_get in
    let* ok := ch_lift (CheckTransactions VerifyScript (c_utxo c) (c_txIndex c) (blk_vtx block) flags height None) in
    if negb ok then ch_ret false
    else
      let* index := SaveBlock block prevBlockIndex true in
      match index with
      | None => ch_ret false
      | Some index =>
          let* _ := ProcessTransactions (blk_vtx block) hash (bi_height index) in
          let* _ := accept_block_ok isLocalMining (bi_hashPrevBlock prevBlockIndex) in
          ch_ret true
      end.

(** A fork overtakes.  First the blocks above the active chain: *)
Fixpoint fork_above (n : nat) (it : option BlockIndex) (forkChain : list BlockIndex) :
    ch db (option BlockIndex * list BlockIndex) :=
  match n, it with
  | S n', Some i =>
      if blob_IsNull (bi_hashPrevBlock i) then ch_ret (it, forkChain)
      else
        let* c := ch_get in
        let* it := ch_lift (index_Get (c_index c) (bi_hashPrevBlock i)) in
        fork_above n' it (forkChain ++ [i])
  | _, _ => ch_ret (it, forkChain)
  end.

(** then back along both chains.  [activeIt != it] compares pointers to objects
    that were made separately: it always holds. *)
Fixpoint fork_back (n : nat) (it activeIt : option BlockIndex) (activeTip : BlockIndex)
    (forkChain inValidChain : list BlockIndex) (forkBlockHeight : Z) :
    ch db (list BlockIndex * list BlockIndex * Z) :=
  match it with
  | None => ch_ret (forkChain, inValidChain, forkBlockHeight)
  | Some i =>
      let* a := deref activeIt in
      if blob_IsNull (bi_hashPrevBlock a) || blob_IsNull (bi_hashPrevBlock i)
      then ch_ret (forkChain, inValidChain, forkBlockHeight)
      else
        match n with
        | O => ch_fault Hang
        | S n' =>
            let* c := ch_get in
            let* it := ch_lift (index_Get (c_index c) (bi_hashPrevBlock i)) in
            let* activeIt := ch_lift (index_CGet (c_index c) (bi_hashPrevBlock a)) in
            let* i' := deref it in
            fork_back n' it activeIt activeTip (forkChain ++ [i]) (inValidChain ++ [activeTip]) (bi_height i')
        end
  end.

(** A checked block of the fork is added to the view; the transactions are filed
    under the hash of their block. *)
Definition fork_view_add (index : BlockIndex) (f : fork_view) (tx : NetMessageTransaction) : fork_view :=
  let utxos := foldl (λ s i, op_erase (in_previousOutput i) s) (f_memValidUTXO f) (tx_vin tx) in
  let hash := (tx_GetHash tx).1 in
  mk_fork_view (bm_set (bi_hash index) (mk_TxIdx (bi_hash index) (bi_height index) tx) (f_memValidTxs f))
    (for_range 0 (length (tx_vout tx))
       (λ i s, (op_insert (mk_OutPoint false (bi_hash index) (bi_height index) hash (Z.of_nat i)) s).2) utxos)
    (f_forkHeight f).

(** From the deepest block of the fork to the new one; [None] is a return of
    [false], otherwise the pointer [newBlockIndex]. *)
Fixpoint fork_check (block : Block) (prevBlockIndex : BlockIndex) (flags : Z) (newBlockIndex : option BlockIndex)
    (f : fork_view) (indexes : list BlockIndex) : ch db (option (option BlockIndex)) :=
  match indexes with
  | [] => ch_ret (Some newBlockIndex)
  | index :: indexes' =>
      let* ok := CheckBlock block in
      if negb ok then ch_ret None
      else
        let isNew := blob_eqb (bi_hash index) (block_GetHash block) in
        let* newBlockIndex' := (if isNew then SaveBlock block prevBlockIndex false else ch_ret newBlockIndex) in
        if isNew && negb (bool_decide (is_Some newBlockIndex')) then ch_ret None
        else
          let* tmpBlock := (if isNew then ch_ret block else let* r := GetBlock_index index in ch_ret r.1) in
          let* i := deref newBlockIndex' in
          let* c := ch_get in
          let* ok := ch_lift (CheckTransactions VerifyScript (c_utxo c) (c_txIndex c) (blk_vtx tmpBlock) flags
                                (bi_height i) (Some f)) in
          if negb ok then ch_ret None
          else fork_check block prevBlockIndex flags newBlockIndex' (foldl (fork_view_add index) f (blk_vtx tmpBlock)) indexes'
  end.

(** The transactions of one abandoned block. *)
Fixpoint disconnect_txs (vtx : list NetMessageTransaction) : ch db () :=
  match vtx with
  | [] => ch_ret ()
  | tx :: vtx' =>
      let* c := ch_get in
      let* _ := ch_put (with_txIndex (DeleteData (c_txIndex c) (tx_GetHash tx).1).2 c) in
      let* c := ch_get in
      let* d := ch_lift (UnCacheUTXO (c_utxo c) tx) in
      let* _ := ch_put (with_utxo d c) in
      disconnect_txs vtx'
  end.

Fixpoint disconnect_blocks (indexes : list BlockIndex) : ch db () :=
  match indexes with
  | [] => ch_ret ()
  | i :: indexes' =>
      let* b := GetBlock_tip i in
      let* _ := disconnect_txs (blk_vtx b) in
      disconnect_blocks indexes'
  end.

Fixpoint connect_blocks (indexes : list BlockIndex) : ch db () :=
  match indexes with
  | [] => ch_ret ()
  | i :: indexes' =>
      let* r := GetBlock_index i in
      let* _ := ProcessTransactions (blk_vtx r.1) (bi_hash i) (bi_height i) in
      connect_blocks indexes'
  end.

Definition accept_fork (block : Block) (tip activeTip prevBlockIndex : BlockIndex) (height : Z) (isLocalMining : bool) :
    ch db bool :=
  let hash := block_GetHash block in
  let flags := GetBlockScriptFlags p (new_BlockIndex height hash (hd_hashPrevBlock (blk_hd block))) in
  let chainHeightDiff := swrap64 (swrap64 (bi_height tip + 1) - bi_height activeTip) in
  let it := BlockIndex_of_block block (swrap64 (bi_height tip + 1)) in
  let* r := fork_above (Z.to_nat (chainHeightDiff - 1)) (Some it) [] in
  let* r := fork_back fuel r.1 (Some activeTip) activeTip r.2 [] (-1) in
  let '(forkChain, inValidChain, forkBlockHeight) := r in
  let* r := fork_check block prevBlockIndex flags None (mk_fork_view [] [] forkBlockHeight) (reverse forkChain) in
  match r with
  | None => ch_ret false
  | Some newBlockIndex =>
      let* _ := disconnect_blocks (reverse inValidChain) in
      let* _ := connect_blocks (reverse forkChain) in
      let* i := deref newBlockIndex in
      let* ok := UpdateTip i in
      if negb ok then ch_ret false
      else let* _ := accept_block_ok isLocalMining (bi_hashPrevBlock i) in ch_ret true
  end.

(** The blocks of the orphan pool that wait for this one; accepting one of them
    takes the lock that is held. *)
Definition accept_orphans (hash : blob) : ch db bool :=
  let* c := ch_get in
  match mm_from hash (c_orphanBlocks c) with
  | [] => ch_ret true
  | _ :: _ => ch_fault Hang
  end.

Definition AcceptBlock (block : Block) (isLocalMining : bool) : ch db bool :=
  let hash := block_GetHash block in
  let prevHash := hd_hashPrevBlock (blk_hd block) in
  let* tip := GetTip prevHash in
  let* activeTip := GetActiveTip in
  let* c := ch_get in
  let* prev := ch_lift (index_GetInto (c_index c) prevHash BlockIndex_null) in
  let bPrevBlockFound := bool_decide (is_Some prev) in
  let bIsGenesis := blob_eqb hash (p_hashGenesisBlock p) in
  let prevBlockIndex := default BlockIndex_null prev in
  if index_IsExist (c_index c) hash then ch_ret false
  else
    let prevBlockIndex := if bPrevBlockFound then set_next hash prevBlockIndex else prevBlockIndex in
    let height := current_height bIsGenesis bPrevBlockFound prevBlockIndex in
    match tip with
    | Some tip =>
        let* activeTip := deref activeTip in
        if same_tip tip activeTip then
          let* ok := accept_active block prevBlockIndex height isLocalMining in
          if ok then accept_orphans hash else ch_ret false
        else if swrap64 (bi_height tip + 1) >? bi_height activeTip then
          let* ok := accept_fork block tip activeTip prevBlockIndex height isLocalMining in
          if ok then accept_orphans hash else ch_ret false
        else
          let* ok := CheckBlock block in
          if negb ok then ch_ret false
          else let* i := SaveBlock block prevBlockIndex true in ch_ret (bool_decide (is_Some i))
    | None =>
        if bPrevBlockFound then
          let* ok := CheckBlock block in
          if negb ok then ch_ret false
          else let* i := SaveBlock block prevBlockIndex true in ch_ret (bool_decide (is_Some i))
        else if existsb (λ e, blob_eqb (block_GetHash e.2) hash) (mm_from hash (c_orphanBlocks c)) then ch_ret false
        else let* _ := ch_put (with_orphanBlocks (mm_insert prevHash block (c_orphanBlocks c)) c) in ch_ret true
    end.

(** ** [Block::CreateNewBlock] *)

Definition MINIMUM_WITNESS_COMMITMENT : nat := 38.
Definition LOCKTIME_MEDIAN_TIME_PAST : Z := Z.shiftl 1 1.
Definition LOCKTIME_VERIFY_SEQUENCE : Z := Z.shiftl 1 0.
Definition STANDARD_LOCKTIME_VERIFY_FLAGS : Z := Z.lor LOCKTIME_VERIFY_SEQUENCE LOCKTIME_MEDIAN_TIME_PAST.

Definition commitment_script (commitment : blob) : CScript :=
  let s := replicate MINIMUM_WITNESS_COMMITMENT 0 in
  let s := <[0%nat := OP_RETURN]> s in
  let s := <[1%nat := 0x24]> s in
  let s := <[2%nat := 0xaa]> s in
  let s := <[3%nat := 0x21]> s in
  let s := <[4%nat := 0xa9]> s in
  let s := <[5%nat := 0xed]> s in
  splice s 6 commitment.

(** [DoubleHash256().Write(root).Write(reserved).Finalize()]. *)
Definition witness_commitment (root : blob) : blob :=
  let ctx := SHA256_CPU_new (replicate 64 0) in
  let ctx := SHA256_CPU_Write ctx root in
  let ctx := SHA256_CPU_Write ctx (replicate 32 0) in
  (DoubleHash256_Finalize ctx).1.

(** [now] is [GetTime()], [garbage] the uninitialised entries of [pmedian]. *)
Definition CreateNewBlock (now : Z) (garbage : list Z) (scriptPubKeyIn : CScript) : ch db Block :=
  let* tip := GetActiveTip in
  let* tip := deref tip in
  let* lastBlock := GetBlock_tip tip in
  let height := swrap64 (bi_height tip + 1) in
  let* nMedianTimePast := GetMedianTimePast garbage tip in
  let nLockTimeCutoff :=
    if has_flag STANDARD_LOCKTIME_VERIFY_FLAGS LOCKTIME_MEDIAN_TIME_PAST then nMedianTimePast
    else GetBlockTime (blk_hd lastBlock) in
  let* r := GetNewBlockTxs height nLockTimeCutoff in
  let '(totalFees, txs) := r in
  let vin := [mk_TxIn OutPoint_null (push_int64 height [] ++ [OP_0]) SEQUENCE_FINAL
                (if IsWitnessEnabled_height p height then [replicate 32 0] else [])] in
  let payout := mk_TxOut (swrap64 (totalFees + GetBlockSubsidy p (swrap32 height))) scriptPubKeyIn false in
  let coinbase out := mk_tx (blob_null 32) (blob_null 32) vin [payout; out] CURRENT_VERSION 0 in
  let hd root nTime nBits := mk_BlockHeader 0x20000000 (bi_hash tip) root nTime nBits 0 0 in
  let unfinished := mk_Block (hd (blob_null 32) 0 0) (coinbase (mk_TxOut 0 [] false) :: txs) in
  let* root := deref (MakeWitnessMerkleRoot unfinished) in
  let vtx := coinbase (mk_TxOut 0 (commitment_script (witness_commitment root.1)) false) :: txs in
  let nTime := wrap32 now in
  let* nBits := GetNextWorkRequired lastBlock (mk_Block (hd (blob_null 32) nTime 0) vtx) in
  ch_ret (mk_Block (hd (MakeMerkleRoot (mk_Block (hd (blob_null 32) nTime nBits) vtx)).1 nTime nBits) vtx).

End chain.

(** ** What operations leave alone *)

Section frames.
Context {db : Type} `{LevelDB db}.
Context (p : ParamsBase) (VerifyScript : script_verifier) (fuel : nat).

Lemma ch_bind_Ok {A B} (x : ch db A) (f : A → ch db B) c b c' :
  ch_bind x f c = (Ok b, c') ↔ ∃ a c1, x c = (Ok a, c1) ∧ f a c1 = (Ok b, c').
Proof.
  unfold ch_bind. destruct (x c) as [[a|e] c1]; split; try naive_solver.
Qed.

(** [keeps R x]: whatever the outcome, the state [x] leaves is related to the
    one it found. *)
Definition keeps (R : chain db → chain db → Prop) {A} (x : ch db A) : Prop := ∀ c, R c (x c).2.

Lemma keeps_ret R `{!Reflexive R} {A} (a : A) : keeps R (ch_ret a).
Proof. by intros c. Qed.
Lemma keeps_fault R `{!Reflexive R} {A} f : keeps R (ch_fault f : ch db A).
Proof. by intros c. Qed.
Lemma keeps_lift R `{!Reflexive R} {A} (r : res A) : keeps R (ch_lift r).
Proof. by intros c. Qed.
Lemma keeps_deref R `{!Reflexive R} {A} (o : option A) : keeps R (deref o).
Proof. by intros c; destruct o. Qed.
Lemma keeps_bind R `{!Transitive R} {A B} (x : ch db A) (f : A → ch db B) :
  keeps R x → (∀ a, keeps R (f a)) → keeps R (ch_bind x f).
Proof.
  intros Hx Hf c. unfold ch_bind. pose proof (Hx c). destruct (x c) as [[a|e] c1]; [|done].
  etrans; [done|]. apply Hf.
Qed.
(** A read of the state and a use of it on the spot. *)
Lemma keeps_get R {A} (f : chain db → ch db A) : (∀ c, R c (f c c).2) → keeps R (ch_bind ch_get f).
Proof. intros Hf c. apply Hf. Qed.

Lemma keeps_update R {A} (g : chain db → chain db) (a : A) :
  (∀ c, R c (g c)) → keeps R (ch_bind ch_get (λ c, ch_bind (ch_put (g c)) (λ _, ch_ret a))).
Proof. intros Hg c. apply Hg. Qed.

(** All but the tip map is the same, and tips are not forgotten. *)
Definition same_but_tips (c c' : chain db) : Prop :=
  c' = with_tipMap (c_tipMap c') c ∧ (c_tipMap c ≠ [] → c_tipMap c' ≠ []).
(** The databases, the orphan blocks and the loaded tips are the same. *)
Definition same_dbs (c c' : chain db) : Prop :=
  c_blocks c' = c_blocks c ∧ c_index c' = c_index c ∧ c_txIndex c' = c_txIndex c ∧ c_utxo c' = c_utxo c ∧
  c_orphanBlocks c' = c_orphanBlocks c ∧ (c_tipMap c ≠ [] → c_tipMap c' = c_tipMap c).

#[global] Instance same_but_tips_refl : Reflexive same_but_tips.
Proof. by intros []. Qed.
#[global] Instance same_but_tips_trans : Transitive same_but_tips.
Proof. intros c1 c2 c3. unfold same_but_tips. intros [-> H12] [-> H23]. split; [by destruct c1|auto]. Qed.
#[global] Instance same_dbs_refl : Reflexive same_dbs.
Proof. by intros c. Qed.
#[global] Instance same_dbs_trans : Transitive same_dbs.
Proof.
  intros c1 c2 c3 (?&?&?&?&?&H12) (?&?&?&?&?&H23). repeat split; try congruence.
  intros Hne. specialize (H12 Hne). rewrite H23; congruence.
Qed.

Lemma GetBlockTipMap_keeps : keeps same_but_tips GetBlockTipMap.
Proof.
  apply keeps_get. intros c. case_bool_decide as Hm; [|reflexivity]. cbn [negb]. unfold ch_bind, ch_lift.
  by destruct (GetObject _ _ _ _) as [[m|]|].
Qed.
Lemma GetTip_keeps hash : keeps same_but_tips (GetTip hash).
Proof. apply keeps_bind; [apply _|apply GetBlockTipMap_keeps|intros; apply keeps_ret, _]. Qed.
Lemma GetActiveTip_keeps : keeps same_but_tips GetActiveTip.
Proof. apply keeps_bind; [apply _|apply GetBlockTipMap_keeps|intros; apply keeps_ret, _]. Qed.
Lemma GetActiveTip_keeps_dbs : keeps same_dbs GetActiveTip.
Proof.
  apply keeps_bind; [apply _| |intros; apply keeps_ret, _].
  apply keeps_get. intros c. case_bool_decide as Hm; [|reflexivity]. cbn [negb]. unfold ch_bind, ch_lift.
  by destruct (GetObject _ _ _ _) as [[m|]|].
Qed.

Lemma GetBlock_index_keeps i : keeps same_but_tips (GetBlock_index i).
Proof.
  unfold GetBlock_index. destruct (negb _); [apply keeps_ret, _|]. apply keeps_get. intros c.
  unfold ch_bind, ch_lift. by destruct (db_GetBlock _ _ _) as [r|]; [|].
Qed.
Lemma GetBlock_tip_keeps i : keeps same_but_tips (GetBlock_tip i).
Proof.
  apply keeps_bind; [apply _|apply GetBlock_index_keeps|]. intros r. apply keeps_update. intros c.
  split; [done|]. intros _. cbn. destruct (c_tipMap c) as [|[k a] m]; cbn; [done|].
  case_bool_decide; [done|]. by destruct (blob_ltb _ _).
Qed.

Lemma GetNextWorkRequired_keeps lastBlock block : keeps same_but_tips (GetNextWorkRequired p fuel lastBlock block).
Proof.
  apply keeps_bind; [apply _|apply keeps_lift, _|]. intros lim.
  apply keeps_bind; [apply _|apply GetActiveTip_keeps|]. intros tip.
  apply keeps_bind; [apply _|apply keeps_deref, _|]. intros t. apply keeps_get. intros c.
  destruct (negb _).
  - cbn. destruct (_ >? _); [done|]. unfold ch_bind, ch_lift. by destruct (last_not_min _ _ _ _).
  - unfold ch_bind, ch_lift. by destruct (back_blocks _ _ _).
Qed.

Lemma CheckBlock_keeps block : keeps same_but_tips (CheckBlock p fuel block).
Proof.
  unfold CheckBlock. destruct (negb _); [apply keeps_ret, _|].
  apply keeps_bind; [apply _|apply GetActiveTip_keeps|]. intros tip.
  apply keeps_bind; [apply _|apply keeps_deref, _|]. intros t.
  apply keeps_bind; [apply _|apply GetBlock_tip_keeps|]. intros b.
  destruct (BlockHeader_IsNull _); [apply keeps_ret, _|].
  apply keeps_bind; [apply _|apply GetNextWorkRequired_keeps|]. intros z.
  destruct (negb _); [apply keeps_ret, _|]. destruct (negb _); apply keeps_ret, _.
Qed.

Lemma AcceptTx_keeps tx : keeps same_dbs (AcceptTx p VerifyScript tx).
Proof.
  apply keeps_get. intros c. destruct (tx_GetHash tx) as [hash tx']. destruct (_ || _); [done|].
  destruct (negb _); [done|]. revert c.
  assert (∀ c, keeps same_dbs (let* tip := GetActiveTip in let* tip := deref tip in
     let height := swrap64 (bi_height tip + 1) in
     let flags := GetBlockScriptFlags p (new_BlockIndex height (blob_null 32) (blob_null 32)) in
     let* r := ch_lift (CheckTransaction VerifyScript (c_utxo c) (c_txIndex c) tx' flags height ctr_default None) in
     if negb r.1 then ch_ret false
     else let* c := ch_get in let* _ := ch_put (with_pools (bm_set hash tx' (c_pool c)) (c_miningPool c) c) in ch_ret true)) as Hk.
  { intros c. apply keeps_bind; [apply _|apply GetActiveTip_keeps_dbs|].
    intros tip. apply keeps_bind; [apply _|apply keeps_deref, _|]. intros t.
    apply keeps_bind; [apply _|apply keeps_lift, _|]. intros r. destruct (negb _); [apply keeps_ret, _|].
    by apply keeps_update. }
  intros c. apply Hk.
Qed.

Lemma ProcOrphanTx_loop_keeps entries : keeps same_dbs (ProcOrphanTx_loop p VerifyScript entries).
Proof.
  induction entries as [|[hash tx] entries IH]; [apply keeps_ret, _|]. cbn [ProcOrphanTx_loop].
  assert (∀ b : bool, keeps same_dbs (if b then let* c := ch_get in ch_put (with_pools (c_pool c) (bm_erase hash (c_miningPool c)) c)
                               else ch_ret () : ch db ())) as Herase.
  { intros []; [|apply keeps_ret, _]. by intros c. }
  apply keeps_get. intros c. revert c.
  assert (∀ c, keeps same_dbs (let* done :=
        (if txidx_IsExist (c_txIndex c) (tx_GetHash tx).1 then ch_ret true
         else if all_inputs_indexed (c_txIndex c) tx then let* _ := AcceptTx p VerifyScript tx in ch_ret true
         else ch_ret false) in
      let* _ := (if done then
                   let* c := ch_get in ch_put (with_pools (c_pool c) (bm_erase hash (c_miningPool c)) c)
                 else ch_ret ()) in
      ProcOrphanTx_loop p VerifyScript entries)) as Hk; [|intros c; apply Hk].
  intros c. apply keeps_bind; [apply _| |].
  - destruct (txidx_IsExist _ _); [apply keeps_ret, _|]. destruct (all_inputs_indexed _ _); [|apply keeps_ret, _].
    apply keeps_bind; [apply _|apply AcceptTx_keeps|]. intros; apply keeps_ret, _.
  - intros b. apply keeps_bind; [apply _|apply Herase|]. intros _. apply IH.
Qed.

Lemma accept_block_ok_keeps b hash : keeps same_dbs (accept_block_ok p VerifyScript b hash).
Proof.
  apply keeps_get. intros c. revert c.
  assert (∀ c : chain db, keeps same_dbs (let* _ := (if b && blob_eqb hash (c_miningPrevHash c)
             then let* _ := UndoMiningTxs in let* c := ch_get in ch_put (with_reset c)
             else ch_ret ()) in ProcOrphanTx p VerifyScript)) as Hk; [|intros c; apply Hk].
  intros c. apply keeps_bind; [apply _| |].
  - destruct (_ && _); [|apply keeps_ret, _]. apply keeps_bind; [apply _|by intros c'|]. intros _. by intros c'.
  - intros _. apply keeps_get. intros c'. apply ProcOrphanTx_loop_keeps.
Qed.

End frames.
