(* ===== verification/Known.v ===== *)
(** * What the block chain knows, and that it does not forget

    A block is known when its index is stored or when it waits among the orphan
    blocks.  No operation of the chain forgets a block, and a block that
    [AcceptBlock] accepts is known afterwards: what the download of the block
    chain builds on. *)

From stdpp Require Import base gmap list numbers decidable strings.
From S2P Require Import Prelude Uint256 Serialize Tx Block Pow Store Validate Chain.

Open Scope Z_scope.
Open Scope ch_scope.

Create HintDb keeps.

Section known.
Context {db : Type} `{LevelDBLaws db}.
Context (p : ParamsBase) (VerifyScript : script_verifier) (fuel : nat).
Implicit Types c : chain db.

Definition known (c : chain db) (h : blob) : Prop :=
  index_IsExist (c_index c) h = true ∨ ∃ e, e ∈ c_orphanBlocks c ∧ block_GetHash e.2 = h.

Definition grows (c c' : chain db) : Prop :=
  (∀ h, index_IsExist (c_index c) h = true → index_IsExist (c_index c') h = true) ∧ c_orphanBlocks c ⊆ c_orphanBlocks c'.

#[global] Instance grows_refl : Reflexive grows.
Proof. by split. Qed.
#[global] Instance grows_trans : Transitive grows.
Proof. intros c1 c2 c3 [H1 H2] [H3 H4]. split; [auto|by etrans]. Qed.

Lemma grows_known c c' h : grows c c' → known c h → known c' h.
Proof. intros [H1 H2] [?|(e & He & <-)]; [left; auto|right]. exists e. split; [by apply H2|done]. Qed.

Lemma grows_same c c' : c_index c' = c_index c → c_orphanBlocks c' = c_orphanBlocks c → grows c c'.
Proof. intros E1 E2. unfold grows. by rewrite E1, E2. Qed.

Lemma same_but_tips_grows c c' : same_but_tips c c' → grows c c'.
Proof. intros [-> _]. by apply grows_same. Qed.
Lemma same_dbs_grows c c' : same_dbs c c' → grows c c'.
Proof. intros (_ & ? & _ & _ & ? & _). by apply grows_same. Qed.

Lemma keeps_mono (R R' : chain db → chain db → Prop) {A} (x : ch db A) :
  (∀ c c', R c c' → R' c c') → keeps R x → keeps R' x.
Proof. intros HR Hx c. apply HR, Hx. Qed.

(** A stored key stays. *)
Lemma IsExist_Put (d : db) k v h :
  index_IsExist d h = true → index_IsExist (ldb_Put d k v).2 h = true.
Proof.
  unfold index_IsExist, GetData. rewrite !bool_decide_eq_true, !Get_contents, Put_contents. intros Hh.
  destruct (decide (k = h)) as [->|Hne]; [by rewrite lookup_insert_eq|by rewrite lookup_insert_ne].
Qed.
Lemma IsExist_Put_eq (d : db) k v : index_IsExist (ldb_Put d k v).2 k = true.
Proof. unfold index_IsExist, GetData. rewrite bool_decide_eq_true, Get_contents, Put_contents. by rewrite lookup_insert_eq. Qed.

Lemma grows_index_Put c k v : grows c (with_index (ldb_Put (c_index c) k v).2 c).
Proof. split; [intros h Hh; by apply IsExist_Put|done]. Qed.

(** *** Building [keeps grows] *)

Lemma keeps_with {A} (f : chain db → ch db A) : (∀ c, keeps grows (f c)) → keeps grows (ch_bind ch_get f).
Proof. intros Hf c. apply Hf. Qed.
Lemma keeps_modify {A} (g : chain db → chain db) (k : ch db A) :
  (∀ c, grows c (g c)) → keeps grows k → keeps grows (ch_bind ch_get (λ c, ch_bind (ch_put (g c)) (λ _, k))).
Proof. intros Hg Hk c. etrans; [apply Hg|apply Hk]. Qed.
Lemma keeps_modify_pair {A B} (F : chain db → B * db) (g : db → chain db → chain db) (k : B → ch db A) :
  (∀ c, grows c (g (F c).2 c)) → (∀ b, keeps grows (k b)) →
  keeps grows (ch_bind ch_get (λ c, let '(b, d) := F c in ch_bind (ch_put (g d c)) (λ _, k b))).
Proof.
  intros Hg Hk c. specialize (Hg c). unfold ch_bind at 1, ch_get. destruct (F c) as [b d]. cbn [snd] in Hg.
  etrans; [exact Hg|apply Hk].
Qed.
Lemma keeps_modify_lift {A B} (F : chain db → res B) (g : B → chain db → chain db) (k : ch db A) :
  (∀ b c, grows c (g b c)) → keeps grows k →
  keeps grows (ch_bind ch_get (λ c, ch_bind (ch_lift (F c)) (λ b, ch_bind (ch_put (g b c)) (λ _, k)))).
Proof.
  intros Hg Hk c. unfold ch_bind at 1 2, ch_get, ch_lift. destruct (F c) as [b|e]; [|reflexivity].
  etrans; [apply (Hg b)|apply Hk].
Qed.

(** Break a program down to its state changes. *)
Ltac keep := repeat match goal with
  | |- keeps _ (ch_ret _) => apply keeps_ret, _
  | |- keeps _ (ch_fault _) => apply keeps_fault, _
  | |- keeps _ (ch_lift _) => apply keeps_lift, _
  | |- keeps _ (deref _) => apply keeps_deref, _
  | |- keeps _ (ch_bind ch_get (λ c, ch_bind (ch_put _) _)) => fail 1
  | |- keeps _ (ch_bind ch_get _) => apply keeps_with; intros ?
  | |- keeps _ (ch_bind _ _) => apply keeps_bind; [apply _| |intros ?]
  | |- keeps _ (if ?b then _ else _) => destruct b
  | |- keeps grows _ => solve [auto with keeps]
  end.

Lemma GetBlockTipMap_grows : keeps grows (GetBlockTipMap (db := db)).
Proof. eapply keeps_mono; [apply same_but_tips_grows|apply GetBlockTipMap_keeps]. Qed.
Lemma GetActiveTip_grows : keeps grows (GetActiveTip (db := db)).
Proof. eapply keeps_mono; [apply same_but_tips_grows|apply GetActiveTip_keeps]. Qed.
Lemma GetTip_grows h : keeps grows (GetTip (db := db) h).
Proof. eapply keeps_mono; [apply same_but_tips_grows|apply GetTip_keeps]. Qed.
Lemma CheckBlock_grows b : keeps grows (CheckBlock (db := db) p fuel b).
Proof. eapply keeps_mono; [apply same_but_tips_grows|apply CheckBlock_keeps]. Qed.
Lemma GetBlock_index_grows i : keeps grows (GetBlock_index (db := db) i).
Proof. eapply keeps_mono; [apply same_but_tips_grows|apply GetBlock_index_keeps]. Qed.
Lemma GetBlock_tip_grows i : keeps grows (GetBlock_tip (db := db) i).
Proof. eapply keeps_mono; [apply same_but_tips_grows|apply GetBlock_tip_keeps]. Qed.
Lemma accept_block_ok_grows b h : keeps grows (accept_block_ok (db := db) p VerifyScript b h).
Proof. eapply keeps_mono; [apply same_dbs_grows|apply accept_block_ok_keeps]. Qed.
Lemma AcceptTx_grows tx : keeps grows (AcceptTx (db := db) p VerifyScript tx).
Proof. eapply keeps_mono; [apply same_dbs_grows|apply AcceptTx_keeps]. Qed.

#[local] Hint Resolve GetBlockTipMap_grows GetActiveTip_grows GetTip_grows CheckBlock_grows GetBlock_index_grows
  GetBlock_tip_grows accept_block_ok_grows AcceptTx_grows : keeps.

Lemma UpdateTip_grows i : keeps grows (UpdateTip (db := db) i).
Proof.
  unfold UpdateTip, AddTip. keep. apply keeps_modify; [intros c; by apply grows_same|].
  intros c. unfold UpdateBlockTipMap, ch_bind, ch_get, PutData.
  pose proof (grows_index_Put c TIP_ALL_KEY_KEY (ser_index_map 0 (c_tipMap c))) as Hg. by destruct (ldb_Put _ _ _).
Qed.

Lemma ProcessTransactions_grows vtx h height : keeps grows (ProcessTransactions (db := db) vtx h height).
Proof.
  induction vtx as [|tx vtx IH]; cbn [ProcessTransactions]; [keep|]. destruct (tx_GetHash tx) as [hash tx'].
  apply keeps_bind; [apply _| |intros _].
  { intros c. by apply grows_same. }
  apply keeps_modify; [intros c; by apply grows_same|]. apply keeps_modify_lift; [intros; by apply grows_same|done].
Qed.

(** [SaveBlock] stores the index under the hash of the block. *)
Lemma SaveBlock_grows b prev tip : keeps grows (SaveBlock (db := db) p b prev tip).
Proof.
  unfold SaveBlock. destruct (_ && _); [keep|]. cbv zeta. generalize (if BlockIndex_IsNull prev then 0 else swrap64 (bi_height prev + 1)). intros height.
  apply keeps_modify_pair; [intros c; by apply grows_same|]. intros [|]; cbn [negb]; [|keep].
  apply (keeps_modify_pair (λ c, if negb (BlockIndex_IsNull (set_next (block_GetHash b) prev))
    then index_Put (c_index c) (set_next (block_GetHash b) prev) else (true, c_index c))).
  { intros c. destruct (negb _); [apply grows_index_Put|by apply grows_same]. }
  intros [|]; cbn [negb]; [|keep]. apply keeps_modify_pair; [intros c; apply grows_index_Put|].
  intros [|]; cbn [negb]; keep. apply UpdateTip_grows.
Qed.

Lemma SaveBlock_stores b prev tip c i c' :
  SaveBlock p b prev tip c = (Ok (Some i), c') → index_IsExist (c_index c') (block_GetHash b) = true.
Proof.
  unfold SaveBlock. generalize (block_GetHash b). intros hash. destruct (_ && _); [intros [=]|]. cbv zeta. generalize (if BlockIndex_IsNull prev then 0 else swrap64 (bi_height prev + 1)). intros height.
  unfold ch_bind at 1, ch_get at 1. destruct (db_PutBlock _ _ _) as [ok1 d1]. unfold ch_bind at 1, ch_put at 1.
  destruct ok1; cbn [negb]; [|intros [=]]. unfold ch_bind at 1, ch_get at 1.
  match goal with |- context [if negb (BlockIndex_IsNull ?x) then ?t else ?e] =>
    destruct (if negb (BlockIndex_IsNull x) then t else e) as [ok2 d2] end.
  unfold ch_bind at 1, ch_put at 1. destruct ok2; cbn [negb]; [|intros [=]]. unfold ch_bind at 1, ch_get at 1.
  set (i0 := new_BlockIndex _ _ _). unfold index_Put, PutData.
  pose proof (IsExist_Put_eq (c_index (with_index d2 (with_blocks d1 c))) (bi_hash i0) (ser_BlockIndex 0 i0)) as He.
  destruct (ldb_Put _ _ _) as [ok3 d3]. cbn [snd] in He.
  unfold ch_bind at 1, ch_put at 1. destruct ok3; cbn [negb]; [|intros [=]]. intros (ok & c4 & Hu & Hc)%ch_bind_Ok.
  assert (grows (with_index d3 (with_index d2 (with_blocks d1 c))) c4) as [Hg _].
  { destruct tip; [|by injection Hu as _ <-]. pose proof (UpdateTip_grows i0 (with_index d3 (with_index d2 (with_blocks d1 c)))) as Hg.
    by rewrite Hu in Hg. }
  destruct ok; cbn [negb] in Hc; [|discriminate Hc]. injection Hc as _ <-. exact (Hg _ He).
Qed.

#[local] Hint Resolve UpdateTip_grows ProcessTransactions_grows SaveBlock_grows : keeps.

Lemma fork_above_grows n it l : keeps grows (fork_above (db := db) n it l).
Proof. revert it l. induction n as [|n IH]; intros [i|] l; cbn [fork_above]; keep. Qed.

Lemma fork_back_grows n it a t l1 l2 h : keeps grows (fork_back (db := db) n it a t l1 l2 h).
Proof. revert it a l1 l2 h. induction n as [|n IH]; intros [i|] a l1 l2 h; cbn [fork_back]; keep. Qed.

Lemma fork_check_grows b prev flags nw f l : keeps grows (fork_check (db := db) p VerifyScript fuel b prev flags nw f l).
Proof. revert nw f. induction l as [|i l IH]; intros nw f; cbn [fork_check]; keep. Qed.

(** The index that [fork_check] hands on was saved under the hash of the block. *)
Lemma fork_check_stores b prev flags nw f l c r c' :
  (is_Some nw → index_IsExist (c_index c) (block_GetHash b) = true) →
  fork_check p VerifyScript fuel b prev flags nw f l c = (Ok (Some r), c') →
  is_Some r → index_IsExist (c_index c') (block_GetHash b) = true.
Proof.
  revert nw f c. induction l as [|i l IH]; intros nw f c Hnw; cbn [fork_check].
  { intros [= <- <-]. done. }
  intros (ok & c1 & Hcb & Hc)%ch_bind_Ok. destruct ok; cbn [negb] in Hc; [|discriminate Hc].
  apply ch_bind_Ok in Hc as (nw' & c2 & Hs & Hc).
  assert (is_Some nw' → index_IsExist (c_index c2) (block_GetHash b) = true) as Hnw'.
  { pose proof (CheckBlock_grows b c) as Hg. rewrite Hcb in Hg. destruct Hg as [Hg _].
    destruct (blob_eqb (bi_hash i) _).
    - intros [x ->]. by eapply SaveBlock_stores.
    - injection Hs as <- <-. intros Hi. apply Hg, Hnw, Hi. }
  destruct (_ && _); [discriminate Hc|]. apply ch_bind_Ok in Hc as (tb & c3 & Ht & Hc).
  assert (grows c2 c3) as [Hg3 _].
  { match type of Ht with ?x c2 = _ => assert (keeps grows x) as Hk by keep; specialize (Hk c2); by rewrite Ht in Hk end. }
  apply ch_bind_Ok in Hc as (ix & c4 & Hd & Hc). unfold deref in Hd. destruct nw' as [x|]; [|discriminate Hd].
  injection Hd as <- <-. unfold ch_bind at 1, ch_get at 1 in Hc. apply ch_bind_Ok in Hc as (ok & c5 & Hl & Hc).
  injection Hl as _ <-. destruct ok; cbn [negb] in Hc; [|discriminate Hc].
  eapply (IH _ _ c3); [|exact Hc]. intros Hx. apply Hg3, Hnw', Hx.
Qed.

Lemma disconnect_txs_grows vtx : keeps grows (disconnect_txs (db := db) vtx).
Proof.
  induction vtx as [|tx vtx IH]; cbn [disconnect_txs]; [keep|]. apply keeps_modify; [intros c; by apply grows_same|].
  apply keeps_modify_lift; [intros; by apply grows_same|done].
Qed.
#[local] Hint Resolve disconnect_txs_grows fork_above_grows fork_back_grows fork_check_grows : keeps.

Lemma disconnect_blocks_grows l : keeps grows (disconnect_blocks (db := db) l).
Proof. induction l; cbn [disconnect_blocks]; keep. Qed.
Lemma connect_blocks_grows l : keeps grows (connect_blocks (db := db) l).
Proof. induction l; cbn [connect_blocks]; keep. Qed.
#[local] Hint Resolve disconnect_blocks_grows connect_blocks_grows : keeps.

Lemma accept_active_grows b prev h m : keeps grows (accept_active (db := db) p VerifyScript fuel b prev h m).
Proof. unfold accept_active. keep. destruct a1; keep. Qed.

Lemma accept_fork_grows b t a prev h m : keeps grows (accept_fork (db := db) p VerifyScript fuel b t a prev h m).
Proof. unfold accept_fork. keep. destruct a1 as [[? ?] ?]. keep. destruct a1; keep. Qed.

Lemma accept_orphans_grows h : keeps grows (accept_orphans (db := db) h).
Proof. intros c. unfold accept_orphans, ch_bind, ch_get. by destruct (mm_from _ _). Qed.

Lemma mm_insert_elem k b l e : e ∈ mm_insert k b l ↔ e = (k, b) ∨ e ∈ l.
Proof.
  induction l as [|[k' b'] l IH]; cbn [mm_insert].
  - rewrite elem_of_cons. tauto.
  - destruct (blob_ltb k k'); rewrite !elem_of_cons, ?IH; tauto.
Qed.

#[local] Hint Resolve accept_active_grows accept_fork_grows accept_orphans_grows : keeps.

Lemma grows_orphan c prevHash b : grows c (with_orphanBlocks (mm_insert prevHash b (c_orphanBlocks c)) c).
Proof. split; [done|]. intros e He. apply mm_insert_elem. by right. Qed.

Lemma AcceptBlock_grows b m : keeps grows (AcceptBlock (db := db) p VerifyScript fuel b m).
Proof.
  unfold AcceptBlock. apply keeps_bind; [apply _|auto with keeps|]. intros tip.
  apply keeps_bind; [apply _|auto with keeps|]. intros active c. unfold ch_bind at 1 2, ch_get at 1, ch_lift at 1.
  destruct (index_GetInto _ _ _) as [prev|e]; [|done]. destruct (index_IsExist _ _); [done|]. destruct tip as [t|].
  - match goal with |- grows c (?x c).2 => assert (keeps grows x) as Hk by keep; apply Hk end.
  - destruct (bool_decide (is_Some prev)).
    + match goal with |- grows c (?x c).2 => assert (keeps grows x) as Hk by keep; apply Hk end.
    + destruct (existsb _ _); [done|]. apply grows_orphan.
Qed.

Lemma accept_active_stores b prev h m c c' :
  accept_active p VerifyScript fuel b prev h m c = (Ok true, c') → index_IsExist (c_index c') (block_GetHash b) = true.
Proof.
  unfold accept_active. intros (ok & c1 & _ & Hc)%ch_bind_Ok. destruct ok; cbn [negb] in Hc; [|discriminate Hc].
  apply ch_bind_Ok in Hc as (c1' & c2 & _ & Hc). apply ch_bind_Ok in Hc as (ok & c3 & _ & Hc).
  destruct ok; cbn [negb] in Hc; [|discriminate Hc]. apply ch_bind_Ok in Hc as (ix & c4 & Hs & Hc).
  destruct ix as [ix|]; [|discriminate Hc]. apply SaveBlock_stores in Hs.
  apply ch_bind_Ok in Hc as (u & c5 & Hp & Hc). apply ch_bind_Ok in Hc as (u' & c6 & Ha & Hc). injection Hc as <-.
  pose proof (ProcessTransactions_grows (blk_vtx b) (block_GetHash b) (bi_height ix) c4) as [Hg1 _].
  pose proof (accept_block_ok_grows m (bi_hashPrevBlock prev) c5) as [Hg2 _].
  rewrite Hp in Hg1. rewrite Ha in Hg2. apply Hg2, Hg1, Hs.
Qed.

Lemma accept_fork_stores b t a prev h m c c' :
  accept_fork p VerifyScript fuel b t a prev h m c = (Ok true, c') → index_IsExist (c_index c') (block_GetHash b) = true.
Proof.
  unfold accept_fork. intros (r1 & c1 & _ & Hc)%ch_bind_Ok. apply ch_bind_Ok in Hc as ([[fc iv] fh] & c2 & _ & Hc).
  apply ch_bind_Ok in Hc as (r & c3 & Hf & Hc). destruct r as [nw|]; [|discriminate Hc].
  apply ch_bind_Ok in Hc as (u1 & c4 & H4 & Hc). apply ch_bind_Ok in Hc as (u2 & c5 & H5 & Hc).
  apply ch_bind_Ok in Hc as (i & c6 & Hd & Hc). unfold deref in Hd. destruct nw as [x|]; [|discriminate Hd]. injection Hd as <- <-.
  apply ch_bind_Ok in Hc as (ok & c7 & H7 & Hc). destruct ok; cbn [negb] in Hc; [|discriminate Hc].
  apply ch_bind_Ok in Hc as (u3 & c8 & H8 & Hc). injection Hc as <-.
  eapply fork_check_stores in Hf; [|by intros [? [=]]|done].
  pose proof (disconnect_blocks_grows (reverse iv) c3) as [G1 _]. rewrite H4 in G1.
  pose proof (connect_blocks_grows (reverse fc) c4) as [G2 _]. rewrite H5 in G2.
  pose proof (UpdateTip_grows x c5) as [G3 _]. rewrite H7 in G3.
  pose proof (accept_block_ok_grows m (bi_hashPrevBlock x) c7) as [G4 _]. rewrite H8 in G4.
  apply G4, G3, G2, G1, Hf.
Qed.

(** A block that is accepted is known. *)
Lemma AcceptBlock_known b m c c' :
  AcceptBlock p VerifyScript fuel b m c = (Ok true, c') → known c' (block_GetHash b).
Proof.
  unfold AcceptBlock. intros (tip & c1 & _ & Hc)%ch_bind_Ok. apply ch_bind_Ok in Hc as (active & c2 & _ & Hc).
  unfold ch_bind at 1, ch_get at 1 in Hc. apply ch_bind_Ok in Hc as (prev & c3 & Hl & Hc). injection Hl as _ <-.
  destruct (index_IsExist _ _); [discriminate Hc|].
  assert (∀ x : ch db bool, (∀ c0 c0', x c0 = (Ok true, c0') → index_IsExist (c_index c0') (block_GetHash b) = true) →
    (let* ok := x in if ok then accept_orphans (block_GetHash b) else ch_ret false) c2 = (Ok true, c') →
    known c' (block_GetHash b)) as Hpath.
  { intros x Hx (ok & c4 & Hok & Ho)%ch_bind_Ok. destruct ok; [|discriminate Ho]. left.
    pose proof (accept_orphans_grows (block_GetHash b) c4) as [G _]. rewrite Ho in G. apply G. by eapply Hx. }
  assert (∀ prev', (let* ok := CheckBlock p fuel b in if negb ok then ch_ret false
    else let* i := SaveBlock p b prev' true in ch_ret (bool_decide (is_Some i))) c2 = (Ok true, c') → known c' (block_GetHash b)) as Hsave.
  { intros prev' (ok & c4 & _ & Ho)%ch_bind_Ok. destruct ok; [|discriminate Ho]. cbn [negb] in Ho.
    apply ch_bind_Ok in Ho as (i & c5 & Hs & Ho). injection Ho as Hi <-. apply bool_decide_eq_true in Hi as [x ->].
    left. by eapply SaveBlock_stores. }
  destruct tip as [t|].
  - apply ch_bind_Ok in Hc as (at' & c4 & Hd & Hc). unfold deref in Hd. destruct active; [|discriminate Hd]. injection Hd as _ <-.
    destruct (same_tip _ _); [eapply Hpath; [|exact Hc]; intros; by eapply accept_active_stores|].
    destruct (_ >? _); [eapply Hpath; [|exact Hc]; intros; by eapply accept_fork_stores|]. by eapply Hsave.
  - destruct (bool_decide _); [by eapply Hsave|]. destruct (existsb _ _); [discriminate Hc|]. injection Hc as <-.
    right. exists (hd_hashPrevBlock (blk_hd b), b). split; [|done]. cbn. apply mm_insert_elem. by left.
Qed.
End known.
