(* ===== verification/ChainProps.v ===== *)
(** * Properties of the chain

    The pools of transactions around a block template, the difficulty of a
    regression-test chain, what accepting a block on the active chain
    guarantees, and what becomes of a fork that overtakes. *)

From stdpp Require Import base gmap list numbers decidable strings.
From S2P Require Import Prelude ArithUint256 Uint256 Serialize Sha256 Script Tx Block Pow Store Validate Chain.

Open Scope Z_scope.
Open Scope res_scope.
Open Scope ch_scope.

(** ** Maps with distinct keys *)

Section maps.
Context {A : Type}.
Implicit Type m : bmap A.

Lemma bm_find_None k m : bm_find k m = None ↔ k ∉ m.*1.
Proof.
  induction m as [|[k' a] m IH]; cbn; [split; [intros _; apply not_elem_of_nil|done]|].
  rewrite not_elem_of_cons. case_bool_decide; [naive_solver|]. rewrite IH. naive_solver.
Qed.

Lemma bm_find_NoDup k a m : NoDup m.*1 → (k, a) ∈ m → bm_find k m = Some a.
Proof.
  induction m as [|[k' a'] m IH]; [by intros _ ?%not_elem_of_nil|].
  cbn. intros [Hni Hnd]%NoDup_cons [?|Hin]%elem_of_cons; simplify_eq; [by rewrite bool_decide_true|].
  rewrite bool_decide_false; [by apply IH|]. intros ->. apply Hni. by apply (list_elem_of_fmap_2 fst _ (k', a)).
Qed.

Lemma bm_find_foldl k m l : NoDup l.*1 →
  bm_find k (foldl (λ m e, bm_set e.1 e.2 m) m l) = match bm_find k l with Some a => Some a | None => bm_find k m end.
Proof.
  revert m. induction l as [|[k' a'] l IH]; intros m; [done|]. cbn. intros [Hni Hnd]%NoDup_cons.
  rewrite IH, bm_find_set by done. cbn [fst snd].
  case_bool_decide; subst; [|done]. by apply bm_find_None in Hni as ->.
Qed.

Lemma bm_set_NoDup k a m : k ∉ m.*1 → NoDup m.*1 → NoDup (bm_set k a m).*1.
Proof.
  induction m as [|[k' a'] m IH]; cbn.
  { intros _ _. apply NoDup_singleton. }
  intros [Hne Hni]%not_elem_of_cons [Hni' Hnd]%NoDup_cons. rewrite bool_decide_false by done.
  destruct (blob_ltb k k'); cbn.
  - apply NoDup_cons. split; [by apply not_elem_of_cons|]. by apply NoDup_cons.
  - apply NoDup_cons. split; [|by apply IH]. rewrite bm_set_keys. intros [?|?]; congruence.
Qed.

Lemma foldl_set_NoDup m l : NoDup (m.*1 ++ l.*1) → NoDup (foldl (λ m e, bm_set e.1 e.2 m) m l).*1.
Proof.
  revert m. induction l as [|[k a] l IH]; intros m; cbn; [by rewrite app_nil_r|].
  rewrite !list.NoDup_app, NoDup_cons. intros (Hm & Hd & Hni & Hl). apply IH. rewrite list.NoDup_app. split_and!.
  - apply bm_set_NoDup; [|done]. intros Hin. eapply Hd; [done|]. left.
  - intros k' [->|Hk']%bm_set_keys; [done|]. intros Hin. eapply Hd; [done|]. by right.
  - done.
Qed.

Lemma bm_find_perm k m m' : NoDup m.*1 → m ≡ₚ m' → bm_find k m = bm_find k m'.
Proof.
  intros Hnd Hp. destruct (bm_find k m') as [a|] eqn:E.
  - apply bm_find_NoDup; [done|]. rewrite Hp. by apply bm_find_elem.
  - apply bm_find_None. rewrite Hp. by apply bm_find_None.
Qed.

Lemma bm_find_app k m m' : bm_find k (m ++ m') = match bm_find k m with Some a => Some a | None => bm_find k m' end.
Proof. induction m as [|[k' a] m IH]; [done|]. cbn. by case_bool_decide. Qed.

Lemma bm_erase_mid k a m m' : NoDup (m ++ (k, a) :: m').*1 → bm_erase k (m ++ (k, a) :: m') = m ++ m'.
Proof.
  rewrite fmap_app. cbn [fmap list_fmap fst]. rewrite list.NoDup_app, NoDup_cons. intros (_ & Hd & Hni & _).
  unfold bm_erase. rewrite filter_app, filter_cons_False by (cbn; tauto).
  assert (∀ l : bmap A, k ∉ l.*1 → filter (λ e, e.1 ≠ k) l = l) as Hid.
  { induction l as [|[k' a'] l IH]; [done|]. intros [Hne Hl]%not_elem_of_cons.
    rewrite filter_cons_True by (cbn; auto). by rewrite IH. }
  rewrite !Hid; [done|done|]. intros Hin. eapply Hd; [done|]. left.
Qed.

End maps.

(** ** The pools *)

Section pools.
Context {db : Type} `{LevelDB db}.
Context (p : ParamsBase) (VerifyScript : script_verifier).

(** Entries are filed under the hash of their transaction. *)
Definition pool_wf (pool : bmap NetMessageTransaction) : Prop :=
  NoDup pool.*1 ∧ Forall (λ e, e.1 = (tx_GetHash e.2).1) pool.

Definition orphan_done (txIndex : db) (e : blob * NetMessageTransaction) : bool :=
  txidx_IsExist txIndex (tx_GetHash e.2).1 || all_inputs_indexed txIndex e.2.

Lemma AcceptTx_known c tx :
  is_Some (bm_find (tx_GetHash tx).1 (c_miningPool c)) → AcceptTx p VerifyScript tx c = (Ok false, c).
Proof.
  intros Hs. unfold AcceptTx, ch_bind, ch_get. destruct (tx_GetHash tx) as [hash tx']. cbn [fst] in Hs.
  assert (bm_mem hash (c_miningPool c) = true) as -> by by apply bool_decide_true. by rewrite orb_true_r.
Qed.

Lemma with_pools_same (c : chain db) : with_pools (c_pool c) (c_miningPool c) c = c.
Proof. by destruct c. Qed.

Lemma ProcOrphanTx_loop_spec (c : chain db) kept entries :
  c_miningPool c = kept ++ entries → pool_wf (kept ++ entries) →
  ProcOrphanTx_loop p VerifyScript entries c =
    (Ok (), with_pools (c_pool c) (kept ++ List.filter (λ e, negb (orphan_done (c_txIndex c) e)) entries) c).
Proof.
  revert c kept. induction entries as [|[hash tx] entries IH]; intros c kept Hm Hwf.
  { cbn. rewrite <- Hm. by rewrite with_pools_same. }
  assert (hash = (tx_GetHash tx).1) as Eh.
  { destruct Hwf as [_ Hf]. apply Forall_app in Hf as [_ Hf]. by apply Forall_inv in Hf. }
  assert (is_Some (bm_find (tx_GetHash tx).1 (c_miningPool c))) as Hin.
  { rewrite Hm, <- Eh. eapply elem_bm_find. apply elem_of_app. right. left. }
  cbn [ProcOrphanTx_loop List.filter]. unfold ch_bind at 1, ch_get at 1.
  assert (∀ c', c_miningPool c' = kept ++ entries → c_pool c' = c_pool c → c_txIndex c' = c_txIndex c →
    with_pools (c_pool c) [] c' = with_pools (c_pool c) [] c →
    ProcOrphanTx_loop p VerifyScript entries c' =
    (Ok (), with_pools (c_pool c) (kept ++ List.filter (λ e, negb (orphan_done (c_txIndex c) e)) entries) c)) as Hdone.
  { intros c' Hm' Hp' Ht' Hc'. rewrite (IH c' kept Hm').
    - rewrite Hp', Ht'. f_equal. destruct c, c'. unfold with_pools in *. cbn in *. congruence.
    - destruct Hwf as [Hnd Hf]. rewrite Forall_app, Forall_cons in Hf. split; [|apply Forall_app; tauto].
      rewrite fmap_app in *. cbn [fmap list_fmap fst] in Hnd. apply list.NoDup_app in Hnd as (H1 & H2 & [_ H3]%NoDup_cons).
      apply list.NoDup_app. split_and!; [done| |done]. intros x Hx Hx'. eapply H2; [done|]. by right. }
  unfold orphan_done at 1. cbn [snd].
  destruct (txidx_IsExist (c_txIndex c) (tx_GetHash tx).1) eqn:Ei; [|destruct (all_inputs_indexed (c_txIndex c) tx) eqn:Ea].
  - cbn [orb negb]. unfold ch_bind, ch_ret, ch_get, ch_put. rewrite Hm, (bm_erase_mid hash tx) by apply Hwf.
    by apply Hdone.
  - cbn [orb negb]. unfold ch_bind. rewrite AcceptTx_known by done. unfold ch_ret, ch_get, ch_put.
    rewrite Hm, (bm_erase_mid hash tx) by apply Hwf. by apply Hdone.
  - cbn [orb negb]. unfold ch_bind, ch_ret. rewrite (IH c (kept ++ [(hash, tx)])); [|by rewrite <- app_assoc..].
    by rewrite <- app_assoc.
Qed.

End pools.

Section template.
Context {db : Type} `{LevelDB db}.

Definition tx_weight (t : NetMessageTransaction) : Z := tx_GetSerializeSize t 0 * WITNESS_SCALE_FACTOR.
Definition pool_weight (pool : bmap NetMessageTransaction) : Z := foldr (λ e n, tx_weight e.2 + n) 0 pool.

(** Nothing in the pool is larger than [CheckTransaction] lets in. *)
Definition pool_sizes (pool : bmap NetMessageTransaction) : Prop := Forall (λ e, tx_weight e.2 <= MAX_BLOCK_WEIGHT) pool.

Lemma tx_weight_nonneg t : 0 <= tx_weight t.
Proof. unfold tx_weight, tx_GetSerializeSize, WITNESS_SCALE_FACTOR. lia. Qed.

Lemma take_txs_spec (txIndex : db) w f pool kept taken fees :
  0 <= w <= MAX_BLOCK_WEIGHT - 4000 → pool_sizes pool →
  take_txs txIndex w f pool = Ok (kept, taken, fees) →
  kept ++ taken ≡ₚ pool ∧ w + pool_weight taken <= MAX_BLOCK_WEIGHT - 4000 ∧
  Forall (λ e, ∃ fee, GetFees txIndex e.2 = Ok fee ∧ fee ≠ 0) taken.
Proof.
  intros Hw Hs. revert w f kept taken fees Hw. induction Hs as [|[hash tx] pool Ht Hs IH]; intros w f kept taken fees Hw.
  { cbn. intros [= <- <- <-]. split; [done|]. split; [cbn; lia|constructor]. }
  cbn [take_txs]. destruct (GetFees txIndex tx) as [fee|] eqn:Ef; cbn [res_bind]; [|done].
  destruct (Z.eqb_spec fee 0) as [E|E].
  - destruct (take_txs txIndex w f pool) as [[[k t] g]|] eqn:Et; cbn [res_bind]; [|done].
    intros [= <- <- <-]. destruct (IH w f k t g Hw Et) as (Hp & Hle & Hf). cbn [fst snd].
    split; [|done]. cbn [app]. by constructor.
  - cbn [snd] in Ht. pose proof (tx_weight_nonneg tx). unfold MAX_BLOCK_WEIGHT in *.
    change (tx_GetSerializeSize tx SERIALIZE_TRANSACTION_NO_WITNESS * WITNESS_SCALE_FACTOR) with (tx_weight tx).
    assert (swrap32 (w + tx_weight tx) = w + tx_weight tx) as -> by (apply swrap_id; [lia|]; split; cbn; lia).
    rewrite (wrap_id 32) by (split; lia).
    destruct (Z.gtb_spec (w + tx_weight tx) (4000000 - 4000)).
    + intros [= <- <- <-]. rewrite app_nil_r. split; [done|]. split; [cbn; lia|constructor].
    + destruct (take_txs txIndex (w + tx_weight tx) _ pool) as [[[k t] g]|] eqn:Et; cbn [res_bind]; [|done].
      intros [= <- <- <-]. destruct (IH (w + tx_weight tx) _ k t g ltac:(lia) Et) as (Hp & Hle & Hf). cbn [fst snd].
      split_and!.
      * rewrite <- Permutation_middle. by constructor.
      * change (pool_weight ((hash, tx) :: t)) with (tx_weight tx + pool_weight t). lia.
      * constructor; [|done]. by exists fee.
Qed.

End template.

(** ** Properties of the pools *)

(** C38 A block template takes from the memory pool transactions that pay a fee,
    within the block weight, and moves them to the mining pool; undoing it puts
    back what was taken, and the memory pool answers every lookup as before. *)
Theorem template_and_undo {db : Type} `{LevelDB db} (blockHeight blockTime fees : Z)
    (txs : list NetMessageTransaction) (c c1 c2 : chain db) :
  NoDup (c_pool c).*1 → pool_sizes (c_pool c) →
  GetNewBlockTxs blockHeight blockTime c = (Ok (fees, txs), c1) → UndoMiningTxs c1 = (Ok (), c2) →
  (∀ k, bm_find k (c_pool c2) = bm_find k (c_pool c)) ∧ c_miningPool c2 = [] ∧
  (∀ k, bm_find k (c_pool c) = match bm_find k (c_miningPool c1) with Some tx => Some tx | None => bm_find k (c_pool c1) end) ∧
  (∀ k, is_Some (bm_find k (c_miningPool c1)) → bm_find k (c_pool c1) = None) ∧
  Forall (λ tx, ∃ fee, GetFees (c_txIndex c) tx = Ok fee ∧ fee ≠ 0) txs ∧
  80 + foldr (λ tx n, tx_weight tx + n) 0 txs <= MAX_BLOCK_WEIGHT - 4000.
Proof.
  intros Hnd Hs Hg Hu. unfold GetNewBlockTxs, ch_bind, ch_get, ch_lift, ch_put, ch_ret in Hg.
  destruct (take_txs (c_txIndex c) 80 0 (c_pool c)) as [[[kept taken] g]|] eqn:Et; [|done]. cbn [fst snd] in Hg.
  injection Hg as <- <- <-. unfold UndoMiningTxs, ch_bind, ch_get, ch_put in Hu. injection Hu as <-.
  destruct (take_txs_spec (c_txIndex c) 80 0 (c_pool c) kept taken g) as (Hp & Hw & Hf); [done|done|done|].
  assert (NoDup (kept ++ taken).*1) as Hnd' by by rewrite Hp.
  rewrite fmap_app, list.NoDup_app in Hnd'. destruct Hnd' as (Hk & Hd & Ht).
  set (mining := foldl (λ m e, bm_set e.1 e.2 m) [] taken).
  assert (NoDup mining.*1) as Hm by (apply foldl_set_NoDup; done).
  assert (∀ k, bm_find k mining = bm_find k taken) as Hfm.
  { intros k. unfold mining. rewrite bm_find_foldl by done. by destruct (bm_find k taken). }
  assert (∀ k, bm_find k taken ≠ None → bm_find k kept = None) as Hdis.
  { intros k Hne. apply bm_find_None. intros Hin. apply (Hd k Hin). apply dec_stable. intros Hni. by apply Hne, bm_find_None. }
  assert (∀ k, bm_find k (c_pool c) = match bm_find k mining with Some tx => Some tx | None => bm_find k kept end) as Hsplit.
  { intros k. rewrite <- (bm_find_perm k _ _ (eq_ind_r (λ l, NoDup l) (proj2 (list.NoDup_app _ _) (conj Hk (conj Hd Ht))) (fmap_app fst kept taken)) Hp).
    rewrite bm_find_app, Hfm. specialize (Hdis k). destruct (bm_find k taken); [by rewrite Hdis|].
    by destruct (bm_find k kept). }
  cbn [c_pool c_miningPool with_pools]. split_and!.
  - intros k. by rewrite bm_find_foldl, Hsplit.
  - done.
  - done.
  - intros k. rewrite Hfm. intros [tx Htx]. apply Hdis. by rewrite Htx.
  - apply Forall_fmap. exact Hf.
  - replace (foldr _ 0 _) with (pool_weight taken); [done|]. clear. induction taken as [|e l IH]; [done|].
    cbn [fmap list_fmap foldr pool_weight]. by rewrite <- IH.
Qed.

Definition empty_chain : chain gmap_db := mk_chain ∅ ∅ ∅ ∅ [] [] [] [] [] (blob_null 32) false.
Definition sample_pool_chain : chain gmap_db :=
  mk_chain ∅ ∅ sample_index ∅ [] [(blob_null 32, sample_spend)] [] [] [] (blob_null 32) false.

Lemma template_and_undo_witness :
  ∃ c1 c2, GetNewBlockTxs 201 0 sample_pool_chain = (Ok (COIN, [sample_spend]), c1) ∧
           UndoMiningTxs c1 = (Ok (), c2) ∧ bm_find (blob_null 32) (c_pool c2) = Some sample_spend.
Proof.
  destruct (GetNewBlockTxs 201 0 sample_pool_chain) as [r c1] eqn:E1. destruct (UndoMiningTxs c1) as [u c2] eqn:E2.
  assert (r = Ok (COIN, [sample_spend])) as -> by (change r with (r, c1).1; rewrite <- E1; vm_compute; reflexivity).
  assert (u = Ok ()) as -> by (change u with (u, c2).1; rewrite <- E2; reflexivity).
  exists c1, c2. split; [reflexivity|]. split; [exact E2|].
  destruct (template_and_undo 201 0 COIN [sample_spend] sample_pool_chain c1 c2) as [Hf _].
  - apply NoDup_singleton.
  - constructor; [vm_compute; discriminate|constructor].
  - exact E1.
  - exact E2.
  - rewrite Hf. reflexivity.
Defined.

(** Reprocessing the orphans after a block loses transactions: it removes from
    the mining pool, where orphans are kept too, each transaction that is in the
    index or whose inputs all are, and puts none into the memory pool, because
    [AcceptTx] still finds it in the mining pool and refuses it. *)
Theorem ProcOrphanTx_loses_transactions {db : Type} `{LevelDB db} (p : ParamsBase) (VerifyScript : script_verifier)
    (c : chain db) :
  pool_wf (c_miningPool c) →
  ProcOrphanTx p VerifyScript c =
    (Ok (), with_pools (c_pool c) (List.filter (λ e, negb (orphan_done (c_txIndex c) e)) (c_miningPool c)) c).
Proof.
  intros Hwf. unfold ProcOrphanTx, ch_bind, ch_get.
  rewrite (ProcOrphanTx_loop_spec p VerifyScript c [] (c_miningPool c)); done.
Qed.

Definition sample_spend_id : blob := Eval vm_compute in (tx_GetHash sample_spend).1.
Definition sample_mining_chain : chain gmap_db :=
  mk_chain ∅ ∅ sample_index sample_db [] [] [] [(sample_spend_id, sample_spend)] [] (blob_null 32) false.

Lemma ProcOrphanTx_loses_transactions_witness :
  ∃ c', ProcOrphanTx RegTestParams (λ _ _ _ _ _ _ _, true) sample_mining_chain = (Ok (), c') ∧
        c_pool c' = [] ∧ c_miningPool c' = [].
Proof.
  pose proof (ProcOrphanTx_loses_transactions RegTestParams (λ _ _ _ _ _ _ _, true) sample_mining_chain) as E.
  eexists. split; [apply E|split; [reflexivity|vm_compute; reflexivity]].
  split; [apply NoDup_singleton|]. constructor; [vm_compute; reflexivity|constructor].
Defined.

(** ** Difficulty *)

Section difficulty.
Context {db : Type} `{LevelDB db}.

(** A chain of [n] blocks above a first one, all stored under the hash their child
    names and all at the lowest difficulty. *)
Inductive min_chain (blocks : db) (limit : Z) : Block → nat → Prop :=
  | min_first b :
      blob_IsNull (hd_hashPrevBlock (blk_hd b)) = true → hd_nBits (blk_hd b) = limit →
      db_GetBlock blocks (hd_hashPrevBlock (blk_hd b)) b = Ok None → min_chain blocks limit b 0
  | min_next b b' n :
      blob_IsNull (hd_hashPrevBlock (blk_hd b)) = false → hd_nBits (blk_hd b) = limit →
      db_GetBlock blocks (hd_hashPrevBlock (blk_hd b)) b = Ok (Some b') →
      min_chain blocks limit b' n → min_chain blocks limit b (S n).

Lemma last_not_min_chain blocks limit b n fuel :
  min_chain blocks limit b n → (n <= fuel)%nat →
  ∃ b', last_not_min fuel blocks limit b = Ok b' ∧ hd_nBits (blk_hd b') = limit.
Proof.
  intros Hc. revert fuel. induction Hc as [b Hn Hb Hg|b b' n Hn Hb Hg Hc IH]; intros fuel Hf.
  - exists b. split; [|done]. destruct fuel; cbn [last_not_min]; by rewrite Hn.
  - destruct fuel as [|fuel]; [lia|]. cbn [last_not_min]. rewrite Hn, Hb, Z.eqb_refl, <- Hb. cbn [negb andb].
    rewrite Hg. cbn [res_bind]. rewrite Hb. apply IH. lia.
Qed.

Lemma back_blocks_chain blocks limit b n k :
  min_chain blocks limit b n → ∃ b', back_blocks k blocks b = Ok b'.
Proof.
  intros Hc. revert k. induction Hc as [b Hn Hb Hg|b b' n Hn Hb Hg Hc IH]; intros k.
  - exists b. induction k as [|k IHk]; [done|]. cbn [back_blocks]. rewrite Hg. exact IHk.
  - destruct k as [|k]; [by exists b|]. cbn [back_blocks]. rewrite Hg. cbn [res_bind default]. apply IH.
Qed.

Lemma min_chain_bits blocks limit b n : min_chain blocks limit b n → hd_nBits (blk_hd b) = limit.
Proof. by destruct 1. Qed.

Lemma GetBlockTipMap_cached (c : chain db) : c_tipMap c ≠ [] → GetBlockTipMap c = (Ok (c_tipMap c), c).
Proof. intros Hne. unfold GetBlockTipMap, ch_bind, ch_get. by rewrite bool_decide_false. Qed.

Lemma GetActiveTip_cached (c : chain db) : c_tipMap c ≠ [] → GetActiveTip c = (Ok (highest None (c_tipMap c)), c).
Proof. intros Hne. unfold GetActiveTip, ch_bind. by rewrite GetBlockTipMap_cached. Qed.

Lemma GetTip_cached (c : chain db) hash : c_tipMap c ≠ [] → GetTip hash c = (Ok (bm_find hash (c_tipMap c)), c).
Proof. intros Hne. unfold GetTip, ch_bind. by rewrite GetBlockTipMap_cached. Qed.

End difficulty.

(** C39 On a chain of blocks of the lowest difficulty, as on the regression-test
    network, the computation of the next difficulty returns, at heights where
    the difficulty is adjusted and where it is not, and answers the lowest
    difficulty again; the walk back takes at most as many steps as the chain
    has blocks. *)
Theorem min_difficulty_is_kept {db : Type} `{LevelDB db} (p : ParamsBase) (fuel n : nat) (limit : Z)
    (lastBlock block : Block) (tip : BlockIndex) (c : chain db) :
  nProofOfWorkLimit p = Some limit → c_tipMap c ≠ [] → highest None (c_tipMap c) = Some tip →
  min_chain (c_blocks c) limit lastBlock n → (n <= fuel)%nat →
  GetNextWorkRequired p fuel lastBlock block c = (Ok limit, c).
Proof.
  intros Hl Hne Htip Hc Hf. unfold GetNextWorkRequired. rewrite Hl.
  unfold ch_bind, ch_lift, ch_get. rewrite GetActiveTip_cached, Htip by done. cbn [deref ch_ret].
  destruct (negb _).
  - change s_PowAllowMinDifficultyBlocks with true. cbv iota. destruct (_ >? _); [done|].
    destruct (last_not_min_chain _ _ _ _ _ Hc Hf) as (b' & -> & Hb). cbn [ch_ret]. by rewrite Hb.
  - destruct (back_blocks_chain _ _ _ _ (2016 - 1) Hc) as (b' & ->).
    change (CalculateNextWorkRequired p s_PowNoRetargeting (blk_hd lastBlock) (hd_nTime (blk_hd b')))
      with (Some (hd_nBits (blk_hd lastBlock))). by rewrite (min_chain_bits _ _ _ _ Hc).
Qed.

(** The first two blocks of a regression-test chain. *)
Definition genesis_id : blob := Eval vm_compute in block_GetHash GetGenesisBlock.
Definition sample_child : Block :=
  mk_Block (mk_BlockHeader 1 genesis_id (blob_null 32) 1296688700 0x207fffff 0 0) [].
Definition sample_blocks : gmap_db := (db_PutBlock (∅ : gmap_db) genesis_id GetGenesisBlock).2.
Definition sample_chain : chain gmap_db :=
  mk_chain sample_blocks ∅ ∅ ∅ [(genesis_id, new_BlockIndex 0 genesis_id (blob_null 32))] [] [] [] [] (blob_null 32) false.

Lemma min_difficulty_is_kept_witness :
  GetNextWorkRequired RegTestParams 1 sample_child Block_null sample_chain = (Ok 0x207fffff, sample_chain).
Proof.
  apply (min_difficulty_is_kept RegTestParams 1 1 0x207fffff sample_child Block_null
    (new_BlockIndex 0 genesis_id (blob_null 32)) sample_chain).
  - apply regtest_limit_bits.
  - discriminate.
  - reflexivity.
  - apply min_next with GetGenesisBlock; [vm_compute; reflexivity..|].
    apply min_first; vm_compute; reflexivity.
  - done.
Defined.

(** ** Forks *)

Section forks.
Context {db : Type} `{LevelDB db}.
Context (p : ParamsBase) (VerifyScript : script_verifier) (fuel : nat).

(** Indexes are stored under their own hash. *)
Definition index_wf (d : db) : Prop :=
  ∀ k i, index_Get d k = Ok (Some i) → bi_hash i = k ∧ length k = 32%nat.
Definition in_index (d : db) (i : BlockIndex) : Prop := index_Get d (bi_hash i) = Ok (Some i).

Lemma index_Get_in d k i : index_wf d → index_Get d k = Ok (Some i) → in_index d i.
Proof. intros Hwf E. destruct (Hwf k i E) as [Eh _]. unfold in_index. by rewrite Eh. Qed.

Lemma fork_back_in n : ∀ i a act F I h (c : chain db) r c',
  index_wf (c_index c) → in_index (c_index c) i →
  fork_back n (Some i) a act F I h c = (Ok r, c') →
  ∃ rest, r.1.1 = F ++ rest ∧ Forall (in_index (c_index c)) rest.
Proof.
  induction n as [|n IH]; intros i a act F I h c r c' Hwf Hi; cbn [fork_back]; unfold ch_bind at 1;
    (destruct a as [a|]; cbn [deref]; [|done]); cbn [ch_ret]; destruct (_ || _).
  1,3: intros [= <- <-]; exists []; by rewrite app_nil_r.
  - done.
  - unfold ch_bind, ch_get, ch_lift. destruct (index_Get (c_index c) (bi_hashPrevBlock i)) as [it|] eqn:E; [|done].
    destruct (index_CGet (c_index c) (bi_hashPrevBlock a)) as [ai|]; [|done].
    destruct it as [i'|]; cbn [deref]; [|done]. intros Hr.
    destruct (IH i' ai act _ _ _ c r c' Hwf (index_Get_in _ _ _ Hwf E) Hr) as (rest & Er & Hf).
    exists (i :: rest). split; [by rewrite Er, <- app_assoc|]. by constructor.
Qed.

(** The height of the new block is asked of a null pointer unless the new block
    comes first. *)
Lemma fork_check_first block prev flags f i l (c : chain db) r c' :
  blob_eqb (bi_hash i) (block_GetHash block) = false →
  fork_check p VerifyScript fuel block prev flags None f (i :: l) c = (Ok (Some r), c') → False.
Proof.
  intros Hne. cbn [fork_check]. rewrite Hne. cbn [andb]. rewrite ch_bind_Ok. intros (ok & c1 & _ & Hr).
  destruct ok; cbn [negb] in Hr; [|done]. apply ch_bind_Ok in Hr as (n' & c2 & E & Hr). injection E as <- <-.
  apply ch_bind_Ok in Hr as (b & c3 & _ & Hr). by apply ch_bind_Ok in Hr as (x & c4 & ? & _).
Qed.

Lemma fork_of_two block it t rest prev flags f (c : chain db) r c' :
  index_IsExist (c_index c) (block_GetHash block) = false → length (block_GetHash block) = 32%nat →
  index_wf (c_index c) → in_index (c_index c) t → Forall (in_index (c_index c)) rest →
  fork_check p VerifyScript fuel block prev flags None f (reverse ([it; t] ++ rest)) c = (Ok (Some r), c') → False.
Proof.
  intros Hex Hl Hwf Ht Hrest.
  assert (∀ i, in_index (c_index c) i → blob_eqb (bi_hash i) (block_GetHash block) = false) as Hne.
  { intros i Hi. destruct (Hwf _ _ Hi) as [_ Hli]. rewrite blob_eqb_spec by congruence. apply bool_decide_eq_false.
    intros E. unfold in_index in Hi. rewrite E in Hi. unfold index_IsExist in Hex. apply bool_decide_eq_false in Hex.
    unfold index_Get, GetObject in Hi. destruct (GetData _ _); [by destruct Hex|done]. }
  rewrite reverse_app. change (reverse [it; t]) with [t; it].
  destruct (reverse rest) as [|i l] eqn:E.
  - apply fork_check_first, Hne, Ht.
  - apply fork_check_first, Hne. assert (i ∈ rest) as Hin by (apply elem_of_reverse; rewrite E; left).
    rewrite list.Forall_forall in Hrest. by apply Hrest.
Qed.

Lemma fork_back_state n : ∀ it a act F I h (c : chain db) r c',
  fork_back n it a act F I h c = (Ok r, c') → c' = c.
Proof.
  induction n as [|n IH]; intros [i|] a act F I h c r c'; cbn [fork_back].
  2,4: by intros [= _ <-].
  all: unfold ch_bind at 1; destruct a as [a|]; cbn [deref]; [|done]; cbn [ch_ret]; destruct (_ || _).
  1,3: by intros [= _ <-].
  { done. }
  unfold ch_bind, ch_get, ch_lift. destruct (index_Get (c_index c) (bi_hashPrevBlock i)) as [it|]; [|done].
  destruct (index_CGet (c_index c) (bi_hashPrevBlock a)) as [ai|]; [|done].
  destruct it as [i'|]; cbn [deref]; [|done]. apply IH.
Qed.

(** One step back along both chains. *)
Lemma fork_back_step n i a act F I h (c : chain db) r c' :
  blob_IsNull (bi_hashPrevBlock i) = false → blob_IsNull (bi_hashPrevBlock a) = false →
  fork_back n (Some i) (Some a) act F I h c = (Ok r, c') →
  ∃ n' i' a', index_Get (c_index c) (bi_hashPrevBlock i) = Ok (Some i') ∧
    index_Get (c_index c) (bi_hashPrevBlock a) = Ok a' ∧
    fork_back n' (Some i') a' act (F ++ [i]) (I ++ [act]) (bi_height i') c = (Ok r, c').
Proof.
  intros Hi Ha. destruct n as [|n]; cbn [fork_back]; unfold ch_bind, ch_ret; cbn [deref ch_ret]; rewrite Hi, Ha; [done|].
  cbn [orb]. unfold ch_get, ch_lift. destruct (index_Get (c_index c) (bi_hashPrevBlock i)) as [it|]; [|done].
  change (index_CGet (c_index c) (bi_hashPrevBlock a)) with (index_Get (c_index c) (bi_hashPrevBlock a)).
  destruct (index_Get (c_index c) (bi_hashPrevBlock a)) as [a'|]; [|done].
  destruct it as [i'|]; cbn [deref]; [|done]. intros Hr. by exists n, i', a'.
Qed.

Lemma fork_back_two n it t a a1 act h (c : chain db) r c' :
  index_wf (c_index c) → blob_IsNull (bi_hashPrevBlock it) = false → blob_IsNull (bi_hashPrevBlock a) = false →
  index_Get (c_index c) (bi_hashPrevBlock it) = Ok (Some t) → blob_IsNull (bi_hashPrevBlock t) = false →
  index_Get (c_index c) (bi_hashPrevBlock a) = Ok (Some a1) → blob_IsNull (bi_hashPrevBlock a1) = false →
  fork_back n (Some it) (Some a) act [] [] h c = (Ok r, c') →
  ∃ rest, r.1.1 = [it; t] ++ rest ∧ Forall (in_index (c_index c)) rest.
Proof.
  intros Hwf Hi Ha Et Htp Ea Hap Hr.
  destruct (fork_back_step _ _ _ _ _ _ _ _ _ _ Hi Ha Hr) as (n1 & i1 & a1' & Ei1 & Ea1 & Hr1).
  rewrite Et in Ei1. rewrite Ea in Ea1. injection Ei1 as <-. injection Ea1 as <-.
  destruct (fork_back_step _ _ _ _ _ _ _ _ _ _ Htp Hap Hr1) as (n2 & i2 & a2 & Ei2 & _ & Hr2).
  destruct (fork_back_in n2 _ _ _ _ _ _ _ _ _ Hwf (index_Get_in _ _ _ Hwf Ei2) Hr2) as (rest2 & Er2 & Hf2).
  exists rest2. by rewrite Er2.
Qed.

Lemma accept_fork_fails block tip active prev height b t a1 (c c' : chain db) :
  index_wf (c_index c) → index_IsExist (c_index c) (block_GetHash block) = false →
  length (block_GetHash block) = 32%nat → 0 <= bi_height tip < 2 ^ 62 → bi_height active = bi_height tip →
  blob_IsNull (hd_hashPrevBlock (blk_hd block)) = false → blob_IsNull (bi_hashPrevBlock active) = false →
  index_Get (c_index c) (hd_hashPrevBlock (blk_hd block)) = Ok (Some t) → blob_IsNull (bi_hashPrevBlock t) = false →
  index_Get (c_index c) (bi_hashPrevBlock active) = Ok (Some a1) → blob_IsNull (bi_hashPrevBlock a1) = false →
  accept_fork p VerifyScript fuel block tip active prev height b c = (Ok true, c') → False.
Proof.
  intros Hwf Hex Hl Hh Hha Hp Ha Et Htp Ea Hap. unfold accept_fork.
  assert (swrap64 (bi_height tip + 1) = bi_height tip + 1) as -> by (apply swrap_id; [lia|]; split; cbn; lia).
  rewrite Hha. replace (bi_height tip + 1 - bi_height tip) with 1 by lia.
  change (Z.to_nat (swrap64 1 - 1)) with 0%nat. rewrite ch_bind_Ok. intros (r0 & c0 & E & Hr).
  injection E as <- <-. cbn [fst snd] in Hr. apply ch_bind_Ok in Hr as ([[F I] h] & c1 & Eb & Hr).
  apply ch_bind_Ok in Hr as (r & c2 & Ec & Hr).
  pose proof (fork_back_state _ _ _ _ _ _ _ _ _ _ Eb) as ->.
  destruct (fork_back_two _ (BlockIndex_of_block block (bi_height tip + 1)) t active a1 _ _ _ _ _ Hwf Hp Ha Et Htp Ea Hap Eb) as (rest & EF & Hrest). cbn [fst] in EF.
  destruct r as [r|]; [|done]. rewrite EF in Ec.
  eapply fork_of_two; [exact Hex|exact Hl|exact Hwf| |exact Hrest|exact Ec]. by eapply index_Get_in.
Qed.

End forks.

(** C40 A fork never overtakes above the first two blocks: when a block extends a
    tip that is as high as the active one and both are more than one block above
    the first block, [AcceptBlock] does not return [true].  The walk back never
    stops where the chains meet, because it compares pointers, so the list it
    makes starts with a block already stored, and the height of the new index
    is read through a null pointer before that index is made. *)
Theorem overtaking_fork_is_never_accepted {db : Type} `{LevelDB db} (p : ParamsBase) (VerifyScript : script_verifier)
    (fuel : nat) (block : Block) (isLocalMining : bool) (tip active t a1 : BlockIndex) (c c' : chain db) :
  index_wf (c_index c) → header_wf (blk_hd block) →
  bm_find (hd_hashPrevBlock (blk_hd block)) (c_tipMap c) = Some tip → highest None (c_tipMap c) = Some active →
  bi_hash tip ≠ bi_hash active → 0 <= bi_height tip < 2 ^ 62 → bi_height active = bi_height tip →
  blob_IsNull (hd_hashPrevBlock (blk_hd block)) = false → blob_IsNull (bi_hashPrevBlock active) = false →
  index_Get (c_index c) (hd_hashPrevBlock (blk_hd block)) = Ok (Some t) → blob_IsNull (bi_hashPrevBlock t) = false →
  index_Get (c_index c) (bi_hashPrevBlock active) = Ok (Some a1) → blob_IsNull (bi_hashPrevBlock a1) = false →
  AcceptBlock p VerifyScript fuel block isLocalMining c ≠ (Ok true, c').
Proof.
  intros Hwf Hhd Ht Hact Hne Hh Hha Hp Ha Et Htp Ea Hap. unfold AcceptBlock.
  assert (c_tipMap c ≠ []) as Hmap by (intros E; by rewrite E in Ht).
  unfold ch_bind at 1. rewrite GetTip_cached by done. unfold ch_bind at 1. rewrite GetActiveTip_cached by done.
  unfold ch_bind at 1, ch_get. unfold ch_bind at 1, ch_lift.
  change (index_GetInto (c_index c) (hd_hashPrevBlock (blk_hd block)) BlockIndex_null)
    with (index_Get (c_index c) (hd_hashPrevBlock (blk_hd block))). rewrite Et, Ht, Hact.
  rewrite bool_decide_true by done. destruct (index_IsExist (c_index c) (block_GetHash block)) eqn:Hex; [done|].
  unfold ch_bind at 1. cbn [deref ch_ret]. unfold same_tip. rewrite bool_decide_false by done.
  assert (swrap64 (bi_height tip + 1) = bi_height tip + 1) as Hsw by (apply swrap_id; [lia|]; split; cbn; lia).
  rewrite Hsw. destruct (Z.gtb_spec (bi_height tip + 1) (bi_height active)); [|lia].
  intros Hr. apply ch_bind_Ok in Hr as (ok & c1 & Hf & Hr). destruct ok; [|done].
  eapply accept_fork_fails; [exact Hwf|exact Hex| |exact Hh|exact Hha|exact Hp|exact Ha|exact Et|exact Htp|exact Ea|exact Hap|exact Hf].
  apply block_hash_wf, Hhd.
Qed.

Lemma index_wf_Put {db : Type} `{LevelDBLaws db} (d : db) i : index_wf d → BlockIndex_ok i → index_wf (index_Put d i).2.
Proof.
  intros Hwf Hi k i'. unfold index_Put, index_Get. destruct (decide (k = bi_hash i)) as [->|Hne].
  - rewrite (GetObject_Put _ _ _ _ _ (index_stored i)).
    + intros [= <-]. split; [done|]. apply Hi.
    + unfold ser_BlockIndex. destruct Hi as (_ & [H1 _] & [H2 _] & [H3 _]).
      by rewrite !length_app, length_ser_int, H1, H2, H3.
    + by apply reads_BlockIndex.
  - rewrite GetObject_Put_other by done. apply Hwf.
Qed.

Lemma index_wf_empty : index_wf (∅ : gmap_db).
Proof. done. Qed.

(** Two chains of two blocks above a common first one. *)
Definition fork_id (n : Z) : blob := n :: replicate 31 0.
Definition fork_indexes : list BlockIndex :=
  [new_BlockIndex 0 (fork_id 1) (blob_null 32); new_BlockIndex 1 (fork_id 2) (fork_id 1);
   new_BlockIndex 2 (fork_id 3) (fork_id 2); new_BlockIndex 1 (fork_id 4) (fork_id 1);
   new_BlockIndex 2 (fork_id 5) (fork_id 4)].
Definition fork_db : gmap_db := foldl (λ d i, (index_Put d i).2) ∅ fork_indexes.
Definition fork_chain : chain gmap_db :=
  mk_chain ∅ fork_db ∅ ∅
    [(fork_id 3, new_BlockIndex 2 (fork_id 3) (fork_id 2)); (fork_id 5, new_BlockIndex 2 (fork_id 5) (fork_id 4))]
    [] [] [] [] (blob_null 32) false.
Definition fork_block : Block := mk_Block (mk_BlockHeader 1 (fork_id 5) (blob_null 32) 0 0x207fffff 0 0) [].

Lemma fork_db_wf : index_wf fork_db.
Proof.
  unfold fork_db, fork_indexes. cbn [foldl]. repeat apply index_wf_Put; try apply index_wf_empty.
  all: split_and!; [done| | |]; by apply (bool_decide_unpack _); vm_compute.
Qed.

Lemma overtaking_fork_is_never_accepted_witness :
  AcceptBlock RegTestParams (λ _ _ _ _ _ _ _, true) 10 fork_block false fork_chain ≠ (Ok true, fork_chain).
Proof.
  apply (overtaking_fork_is_never_accepted RegTestParams (λ _ _ _ _ _ _ _, true) 10 fork_block false
    (new_BlockIndex 2 (fork_id 5) (fork_id 4)) (new_BlockIndex 2 (fork_id 3) (fork_id 2))
    (new_BlockIndex 2 (fork_id 5) (fork_id 4)) (new_BlockIndex 1 (fork_id 2) (fork_id 1))).
  - exact fork_db_wf.
  - split; by apply (bool_decide_unpack _); vm_compute.
  - reflexivity.
  - reflexivity.
  - discriminate.
  - split; vm_compute; [discriminate|reflexivity].
  - reflexivity.
  - reflexivity.
  - reflexivity.
  - vm_compute. reflexivity.
  - reflexivity.
  - vm_compute. reflexivity.
  - reflexivity.
Defined.

(** ** A block on the active chain *)

Section block_checks.

Definition block_inputs (vtx : list NetMessageTransaction) : list (blob * Z) := vtx ≫= input_keys.

Lemma insert_inputs_spec vin utxos utxos' :
  Forall (λ i, key_ok (op_key (in_previousOutput i))) vin → Forall (λ o, key_ok (op_key o)) utxos →
  insert_inputs vin utxos = Some utxos' →
  NoDup (vin_keys vin) ∧ (∀ k, k ∈ vin_keys vin → k ∉ op_key <$> utxos) ∧
  Forall (λ o, key_ok (op_key o)) utxos' ∧ (∀ k, k ∈ op_key <$> utxos' ↔ k ∈ vin_keys vin ∨ k ∈ op_key <$> utxos).
Proof.
  intros Hv. revert utxos. induction Hv as [|i vin Hi Hv IH]; intros utxos Hu; cbn [insert_inputs].
  { intros [= <-]. split; [constructor|]. split; [by intros k ?%not_elem_of_nil|]. split; [done|].
    intros k. cbn. rewrite elem_of_nil. tauto. }
  pose proof (op_insert_new (in_previousOutput i) utxos Hi Hu) as Hnew.
  pose proof (op_insert_seen (in_previousOutput i) utxos Hi Hu) as Hseen.
  destruct (op_insert (in_previousOutput i) utxos) as [ok u] eqn:E. cbn [fst snd] in *. destruct ok; [|done].
  specialize (Hseen (proj1 Hnew eq_refl)). subst u.
  assert (Forall (λ o, key_ok (op_key o)) (in_previousOutput i :: utxos)) as Hu' by (by constructor).
  intros Hr. destruct (IH _ Hu' Hr) as (Hnd & Hdis & Hok & Hkeys).
  cbn [vin_keys fmap list_fmap] in *. fold (vin_keys vin) in *. split_and!.
  - constructor; [|done]. intros Hin. apply (Hdis _ Hin). left.
  - intros k [->|Hk]%elem_of_cons; [by apply Hnew|]. specialize (Hdis k Hk). rewrite not_elem_of_cons in Hdis. tauto.
  - done.
  - intros k. rewrite Hkeys, !elem_of_cons. tauto.
Qed.

Lemma check_block_txs_inputs vtx : ∀ first txids utxos n,
  Forall inputs_ok vtx → Forall (λ o, key_ok (op_key o)) utxos →
  check_block_txs first txids utxos n vtx = true →
  NoDup (block_inputs vtx) ∧ (∀ k, k ∈ block_inputs vtx → k ∉ op_key <$> utxos).
Proof.
  induction vtx as [|tx vtx IH]; intros first txids utxos n Hin Hu.
  { intros _. split; [constructor|by intros k ?%not_elem_of_nil]. }
  apply Forall_cons_1 in Hin as [Htx Hin]. cbn [check_block_txs]. destruct (existsb _ _); [done|].
  destruct (first && _); [done|]. destruct (_ && IsCoinBase tx); [done|].
  destruct (insert_inputs (tx_vin tx) utxos) as [utxos'|] eqn:E; [|done].
  destruct (insert_inputs_spec _ _ _ Htx Hu E) as (Hnd & Hdis & Hok & Hkeys).
  destruct (_ >? _); [done|]. intros Hr. destruct (IH _ _ _ _ Hin Hok Hr) as [Hnd' Hdis'].
  change (block_inputs (tx :: vtx)) with (vin_keys (tx_vin tx) ++ block_inputs vtx). split.
  - apply list.NoDup_app. split_and!; [done| |done]. intros k Hk Hk'. eapply Hdis'; [done|]. apply Hkeys. by left.
  - intros k [Hk|Hk]%elem_of_app; [by apply Hdis|]. intros Hku. eapply Hdis'; [done|]. apply Hkeys. by right.
Qed.

Lemma check_block_self_inputs block :
  Forall inputs_ok (blk_vtx block) → check_block_self block = true → NoDup (block_inputs (blk_vtx block)).
Proof.
  intros Hin. unfold check_block_self. destruct (_ || _); [done|].
  destruct (check_block_txs true [] [] 0 (blk_vtx block)) eqn:E; [|done]. intros _.
  by eapply check_block_txs_inputs in E as [? _].
Qed.

(** The header commits to the transactions. *)
Lemma check_block_self_merkle block :
  blob_wf 32 (hd_hashMerkleRoot (blk_hd block)) → length (MakeMerkleRoot block).1 = 32%nat →
  check_block_self block = true → hd_hashMerkleRoot (blk_hd block) = (MakeMerkleRoot block).1.
Proof.
  intros [Hl _] Hl'. unfold check_block_self. destruct (_ || _); [done|]. destruct (negb _); [done|].
  destruct (MakeMerkleRoot block) as [root mutated]. cbn [fst] in *. rewrite blob_eqb_spec by congruence.
  case_bool_decide; [done|]. by rewrite orb_true_r.
Qed.

End block_checks.

Section active.
Context {db : Type} `{LevelDBLaws db}.
Context (p : ParamsBase) (VerifyScript : script_verifier) (fuel : nat).

Lemma CheckBlock_true block (c c' : chain db) :
  CheckBlock p fuel block c = (Ok true, c') →
  check_block_self block = true ∧ CheckProofOfWork p (block_GetHash block) (hd_nBits (blk_hd block)) = true.
Proof.
  unfold CheckBlock. destruct (check_block_self block); cbn [negb]; [|done]. intros Hr. split; [done|].
  apply ch_bind_Ok in Hr as (t & c1 & _ & Hr). apply ch_bind_Ok in Hr as (tip & c2 & _ & Hr).
  apply ch_bind_Ok in Hr as (b & c3 & _ & Hr). destruct (BlockHeader_IsNull _); [done|].
  apply ch_bind_Ok in Hr as (z & c4 & _ & Hr). destruct (negb _); [done|].
  by destruct (CheckProofOfWork p _ _).
Qed.

Lemma CheckTransaction_spends (utxo txIndex : db) m tx flags height r r' :
  utxo_rep utxo m → inputs_ok tx → IsCoinBase tx = false →
  CheckTransaction VerifyScript utxo txIndex tx flags height r None = Ok (true, r') →
  ∀ k, k ∈ input_keys tx → coin_used <$> m !! k = Some false.
Proof.
  intros Hr Hin Hcb (spent & Hacc)%(CheckTransaction_inputs VerifyScript _ _ m); [|done..].
  clear -Hacc. unfold input_keys. revert spent Hacc. generalize 0%nat. induction (tx_vin tx) as [|i vin IH]; intros n spent Hacc k.
  - by intros ?%not_elem_of_nil.
  - destruct spent as [|o spent]; [done|]. destruct Hacc as [Hi Hrest]. cbn [fmap list_fmap].
    intros [->|Hk]%elem_of_cons; [apply Hi|by eapply IH].
Qed.

Lemma CheckTransactions_spends (utxo txIndex : db) m flags height : ∀ vtx r,
  utxo_rep utxo m → Forall inputs_ok vtx →
  CheckTransactions_loop VerifyScript utxo txIndex vtx flags height r None = Ok true →
  ∀ tx, tx ∈ vtx → spendable m tx.
Proof.
  induction vtx as [|tx vtx IH]; intros r Hr Hin; [by intros _ tx ?%not_elem_of_nil|].
  apply Forall_cons_1 in Hin as [Htx Hin]. cbn [CheckTransactions_loop].
  destruct (CheckTransaction VerifyScript utxo txIndex tx flags height r None) as [[[] r']|] eqn:E; cbn [res_bind fst snd]; [|done..].
  intros Hrest tx' [->|Ht']%elem_of_cons; [|by eapply IH].
  unfold spendable. destruct (IsCoinBase tx) eqn:Ecb; [by left|right]. by eapply CheckTransaction_spends.
Qed.

Definition connect_coins (hash : blob) (height : Z) (m : utxo_set) (vtx : list NetMessageTransaction) : utxo_set :=
  foldl (λ m tx, cache_coins tx hash height m) m vtx.

Lemma tx_GetHash_again t : (tx_GetHash (tx_GetHash t).2).1 = (tx_GetHash t).1.
Proof.
  unfold tx_GetHash at 2 3. destruct (blob_IsNull (tx_hash t)) eqn:E; cbn [negb fst snd].
  - unfold tx_GetHash. cbn [tx_hash]. set (h := SerializeHash_bytes _).
    destruct (blob_IsNull h) eqn:E'; cbn [negb fst]; done.
  - unfold tx_GetHash. by rewrite E.
Qed.

Lemma tx_GetHash_same t :
  tx_vin (tx_GetHash t).2 = tx_vin t ∧ tx_vout (tx_GetHash t).2 = tx_vout t ∧ IsCoinBase (tx_GetHash t).2 = IsCoinBase t.
Proof. unfold tx_GetHash. by destruct (negb _). Qed.

Lemma ProcessTransactions_rep hash height : ∀ vtx m (c : chain db) b c',
  utxo_rep (c_utxo c) m → Forall inputs_ok vtx → Forall outputs_ok vtx → coin_ok (mk_coin hash height false) →
  ProcessTransactions vtx hash height c = (Ok b, c') →
  utxo_rep (c_utxo c') (connect_coins hash height m vtx) ∧
  c_blocks c' = c_blocks c ∧ c_index c' = c_index c ∧ c_tipMap c' = c_tipMap c ∧ c_orphanBlocks c' = c_orphanBlocks c.
Proof.
  induction vtx as [|tx vtx IH]; intros m c b c' Hr Hin Hout Hc; cbn [ProcessTransactions].
  { by intros [= _ <-]. }
  apply Forall_cons_1 in Hin as [Hi Hin]. apply Forall_cons_1 in Hout as [Ho Hout].
  pose proof (tx_GetHash_again tx) as Hag. destruct (tx_GetHash_same tx) as (Hvin & Hvout & Hcb).
  assert (∀ m, cache_coins (tx_GetHash tx).2 hash height m = cache_coins tx hash height m) as Hcache.
  { intros m'. unfold cache_coins. by rewrite Hag, Hvin, Hvout, Hcb. }
  destruct (tx_GetHash tx) as [h tx'] eqn:Etx. cbn [fst snd] in *.
  unfold ch_bind, mempool_Remove, ch_get, ch_put, ch_lift. cbn [ch_bind ch_get ch_put c_utxo with_txIndex with_pools with_dbs c_txIndex].
  destruct (CacheUTXO_rep (c_utxo c) m tx' hash height) as (d & E & Hr').
  - done.
  - unfold inputs_ok. by rewrite Hvin.
  - destruct Ho as [Ho1 Ho2]. split; [by rewrite Hag; rewrite Etx in Ho1|by rewrite Hvout].
  - done.
  - unfold ch_bind. rewrite E. intros Hp. rewrite Hcache in Hr'. eapply IH in Hp; [|exact Hr'|done..].
    exact Hp.
Qed.

Lemma bm_set_ne {A} k (a : A) m : bm_set k a m ≠ [].
Proof. destruct m as [|[k' a'] m]; cbn; [done|]. case_bool_decide; [done|]. by destruct (blob_ltb _ _). Qed.

Lemma UpdateTip_cached i (c : chain db) : c_tipMap c ≠ [] →
  UpdateTip i c =
    (Ok true, with_index (PutData (c_index c) TIP_ALL_KEY_KEY (ser_index_map 0 (bm_set (bi_hash i) i (c_tipMap c)))).2
                (with_tipMap (bm_set (bi_hash i) i (c_tipMap c)) c)).
Proof.
  intros Hne. unfold UpdateTip, AddTip, ch_bind. rewrite GetBlockTipMap_cached by done.
  rewrite GetBlockTipMap_cached by done. unfold ch_get, ch_put, UpdateBlockTipMap, ch_bind, ch_get, ch_status.
  cbn [c_tipMap with_tipMap c_index]. unfold PutData.
  pose proof (Put_ok (c_index c) TIP_ALL_KEY_KEY (ser_index_map 0 (bm_set (bi_hash i) i (c_tipMap c)))) as Hok.
  destruct (ldb_Put _ _ _) as [ok d]. cbn [fst snd] in *. by subst ok.
Qed.

(** The state after a block is saved above [prev], with its tip. *)
Lemma SaveBlock_Ok block prev (c : chain db) r c' :
  c_tipMap c ≠ [] → BlockIndex_IsNull prev = false → blob_wf 32 (block_GetHash block) →
  SaveBlock p block prev true c = (Ok r, c') →
  let i := new_BlockIndex (swrap64 (bi_height prev + 1)) (block_GetHash block) (hd_hashPrevBlock (blk_hd block)) in
  r = Some i ∧ c_utxo c' = c_utxo c ∧ c_txIndex c' = c_txIndex c ∧ c_orphanBlocks c' = c_orphanBlocks c ∧
  GetData (c_blocks c') (block_GetHash block) = Some (ser_block 0 block) ∧
  GetData (c_index c') (block_GetHash block) = Some (ser_BlockIndex 0 i) ∧
  c_tipMap c' = bm_set (block_GetHash block) i (c_tipMap c).
Proof.
  unfold SaveBlock. generalize (block_GetHash block). intros hash Hne Hnull Hwf. rewrite Hnull. cbn [andb].
  unfold ch_bind at 1, ch_get at 1. unfold db_PutBlock, PutData.
  pose proof (Put_ok (c_blocks c) hash (ser_block 0 block)) as Hok1.
  pose proof (Put_contents (c_blocks c) hash (ser_block 0 block)) as Hc1.
  destruct (ldb_Put (c_blocks c) _ _) as [ok1 d1]. cbn [fst snd] in *. subst ok1.
  unfold ch_bind at 1, ch_put at 1. cbn [negb]. unfold ch_bind at 1, ch_get at 1.
  change (BlockIndex_IsNull (set_next hash prev)) with (BlockIndex_IsNull prev). rewrite Hnull. cbn [negb].
  unfold index_Put at 1, PutData. cbn [c_index with_blocks with_dbs].
  match goal with |- context [ldb_Put (c_index c) ?k ?v] =>
    pose proof (Put_ok (c_index c) k v) as Hok2; destruct (ldb_Put (c_index c) k v) as [ok2 d2] end.
  cbn [fst snd] in *. subst ok2. unfold ch_bind at 1, ch_put at 1. cbn [negb].
  unfold ch_bind at 1, ch_get at 1. unfold index_Put, PutData. cbn [c_index with_index with_dbs].
  match goal with |- context [ldb_Put d2 ?k ?v] =>
    pose proof (Put_ok d2 k v) as Hok3; pose proof (Put_contents d2 k v) as Hc3; destruct (ldb_Put d2 k v) as [ok3 d3] end.
  cbn [fst snd] in *. subst ok3. unfold ch_bind at 1, ch_put at 1. cbn [negb].
  unfold ch_bind at 1. rewrite UpdateTip_cached by done. cbn [negb ch_ret]. intros [= <- <-].
  cbn [c_utxo c_txIndex c_orphanBlocks c_blocks c_index c_tipMap with_index with_blocks with_tipMap with_dbs bi_hash new_BlockIndex].
  split_and!; try done.
  - unfold GetData. rewrite Get_contents, Hc1. apply lookup_insert_eq.
  - unfold GetData, PutData. rewrite Get_contents, Put_contents, lookup_insert_ne.
    + rewrite Hc3. apply lookup_insert_eq.
    + intros E. destruct Hwf as [Hl _]. rewrite <- E in Hl. vm_compute in Hl. done.
Qed.

#[local] Opaque block_GetHash tx_GetHash.

Lemma accept_active_connects block prev flagHeight isLocalMining m (c c' : chain db) :
  let hash := block_GetHash block in
  let height := bi_height prev + 1 in
  let index := new_BlockIndex height hash (hd_hashPrevBlock (blk_hd block)) in
  utxo_rep (c_utxo c) m → header_wf (blk_hd block) →
  Forall inputs_ok (blk_vtx block) → Forall outputs_ok (blk_vtx block) →
  c_tipMap c ≠ [] → BlockIndex_IsNull prev = false → 0 <= bi_height prev < 2 ^ 62 →
  accept_active p VerifyScript fuel block prev flagHeight isLocalMining c = (Ok true, c') →
  CheckProofOfWork p hash (hd_nBits (blk_hd block)) = true ∧ check_block_self block = true ∧
  NoDup (block_inputs (blk_vtx block)) ∧ (∀ tx, tx ∈ blk_vtx block → spendable m tx) ∧
  utxo_rep (c_utxo c') (connect_coins hash height m (blk_vtx block)) ∧
  GetData (c_blocks c') hash = Some (ser_block 0 block) ∧
  GetData (c_index c') hash = Some (ser_BlockIndex 0 index) ∧ bm_find hash (c_tipMap c') = Some index.
Proof.
  intros hash height index Hr Hhd Hin Hout Hmap Hnull Hh Hacc. unfold accept_active in Hacc. fold hash in Hacc.
  apply ch_bind_Ok in Hacc as (ok & c1 & Hcb & Hacc). destruct ok; [|done]. cbn [negb] in Hacc.
  pose proof (CheckBlock_keeps p fuel block c) as [Hk1 Hk1']. rewrite Hcb in Hk1, Hk1'. cbn [snd] in *.
  destruct (CheckBlock_true _ _ _ Hcb) as [Hself Hpow].
  apply ch_bind_Ok in Hacc as (c1' & c1'' & E1 & Hacc). injection E1 as <- <-.
  apply ch_bind_Ok in Hacc as (ok & c2 & Htx & Hacc). injection Htx as Htx <-. destruct ok; [|done]. cbn [negb] in Hacc.
  apply ch_bind_Ok in Hacc as (ix & c3 & Hsave & Hacc).
  assert (c_utxo c1 = c_utxo c) as Hu by by rewrite Hk1.
  assert (c_tipMap c1 ≠ []) as Hmap1 by auto.
  destruct (SaveBlock_Ok block prev c1 ix c3 Hmap1 Hnull (block_hash_wf _ Hhd) Hsave)
    as (-> & Hu3 & _ & _ & Hb3 & Hi3 & Ht3).
  assert (swrap64 (bi_height prev + 1) = height) as Hsw by (apply swrap_id; [lia|]; split; cbn; lia).
  cbv zeta in *. rewrite Hsw in *. fold hash in Hb3, Hi3, Ht3. fold index in Hi3, Ht3.
  apply ch_bind_Ok in Hacc as (b4 & c4 & Hproc & Hacc). apply ch_bind_Ok in Hacc as (u & c6 & Hend & Hacc).
  injection Hacc as <-.
  apply ProcessTransactions_rep with (m := m) in Hproc as (Hr4 & Hb4 & Hi4 & Ht4 & _); [|by rewrite Hu3, Hu|done|done|].
  2: { split; [apply (block_hash_wf _ Hhd)|]. split; cbn; lia. }
  pose proof (accept_block_ok_keeps p VerifyScript isLocalMining (bi_hashPrevBlock prev) c4) as Hk.
  rewrite Hend in Hk. cbn [snd] in Hk. destruct Hk as (Hb5 & Hi5 & _ & Hu5 & _ & Ht5).
  split_and!; [done|done|by apply check_block_self_inputs| |by rewrite Hu5|by rewrite Hb5, Hb4|by rewrite Hi5, Hi4|].
  - rewrite Hu in Htx. by eapply CheckTransactions_spends.
  - rewrite Ht5, Ht4, Ht3; [apply bm_find_set_eq|]. rewrite Ht4, Ht3. apply bm_set_ne.
Qed.

End active.

(** C1 A block accepted on top of the active tip is valid, and the state moves on
    consistently: its header meets the target it names, no output is spent
    twice in it, every output its transactions spend was unspent, the UTXO set
    becomes the one with those outputs spent and the new outputs added, and the
    block, its index one higher than its parent, and the new tip are stored. *)
Theorem accepted_block_is_valid_and_connected {db : Type} `{LevelDBLaws db} (p : ParamsBase)
    (VerifyScript : script_verifier) (fuel : nat) (block : Block) (isLocalMining : bool) (m : utxo_set)
    (tip prev : BlockIndex) (c c' : chain db) :
  let hash := block_GetHash block in
  let prevHash := hd_hashPrevBlock (blk_hd block) in
  let height := bi_height prev + 1 in
  utxo_rep (c_utxo c) m → header_wf (blk_hd block) →
  Forall inputs_ok (blk_vtx block) → Forall outputs_ok (blk_vtx block) →
  bm_find prevHash (c_tipMap c) = Some tip → highest None (c_tipMap c) = Some tip →
  index_Get (c_index c) prevHash = Ok (Some prev) → BlockIndex_IsNull prev = false → 0 <= bi_height prev < 2 ^ 62 →
  AcceptBlock p VerifyScript fuel block isLocalMining c = (Ok true, c') →
  CheckProofOfWork p hash (hd_nBits (blk_hd block)) = true ∧ check_block_self block = true ∧
  NoDup (block_inputs (blk_vtx block)) ∧ (∀ tx, tx ∈ blk_vtx block → spendable m tx) ∧
  utxo_rep (c_utxo c') (connect_coins hash height m (blk_vtx block)) ∧
  GetData (c_blocks c') hash = Some (ser_block 0 block) ∧
  GetData (c_index c') hash = Some (ser_BlockIndex 0 (new_BlockIndex height hash prevHash)) ∧
  bm_find hash (c_tipMap c') = Some (new_BlockIndex height hash prevHash).
Proof.
  intros hash prevHash height Hr Hhd Hin Hout Ht Hact Eprev Hnull Hh. unfold AcceptBlock. fold hash prevHash.
  assert (c_tipMap c ≠ []) as Hmap by (intros E; by rewrite E in Ht).
  unfold ch_bind at 1. rewrite GetTip_cached by done. unfold ch_bind at 1. rewrite GetActiveTip_cached by done.
  unfold ch_bind at 1, ch_get. unfold ch_bind at 1, ch_lift.
  change (index_GetInto (c_index c) prevHash BlockIndex_null) with (index_Get (c_index c) prevHash).
  rewrite Eprev, Ht, Hact. rewrite bool_decide_true by done. destruct (index_IsExist (c_index c) hash) eqn:Hex; [done|].
  unfold ch_bind at 1. cbn [deref ch_ret]. unfold same_tip. rewrite bool_decide_true by done.
  intros (ok & c5 & Hacc & Horph)%ch_bind_Ok. destruct ok; [|done].
  assert (c' = c5) as ->.
  { unfold accept_orphans, ch_bind, ch_get in Horph. destruct (mm_from _ _); [by injection Horph|done]. }
  clear Horph. change (default BlockIndex_null (Some prev)) with prev in Hacc.
  by eapply accept_active_connects in Hacc.
Qed.

(** The chain after [Initialize], and a block mined on it. *)
Definition regtest_start : chain gmap_db := (Initialize RegTestParams empty_chain).2.
Definition regtest_block : Block := Eval vm_compute in
  match (CreateNewBlock RegTestParams 5 1296688800 (replicate 10 0) [81] regtest_start).1 with
  | Ok b => b
  | Fault _ => Block_null
  end.
Definition genesis_tx : NetMessageTransaction := default tx_default (head (blk_vtx GetGenesisBlock)).

Lemma regtest_start_rep : utxo_rep (c_utxo regtest_start) (cache_coins (tx_GetHash genesis_tx).2 genesis_id 0 ∅).
Proof.
  destruct (CacheUTXO_rep (∅ : gmap_db) ∅ (tx_GetHash genesis_tx).2 genesis_id 0) as (d & E & Hr).
  - apply empty_rep.
  - constructor; [|constructor]. split; by apply (bool_decide_unpack _); vm_compute.
  - split; [by apply (bool_decide_unpack _); vm_compute|vm_compute; discriminate].
  - split; [by apply (bool_decide_unpack _); vm_compute|by apply (bool_decide_unpack _); vm_compute].
  - assert (CacheUTXO (∅ : gmap_db) (tx_GetHash genesis_tx).2 genesis_id 0 = Ok (c_utxo regtest_start)) as E'
      by (vm_compute; reflexivity).
    assert (d = c_utxo regtest_start) as <-; [|exact Hr].
    exact (f_equal (λ r, match r with Ok a => a | Fault _ => d end) (eq_trans (eq_sym E) E')).
Qed.

Lemma accepted_block_is_valid_and_connected_witness :
  ∃ c', AcceptBlock RegTestParams (λ _ _ _ _ _ _ _, true) 5 regtest_block false regtest_start = (Ok true, c') ∧
        bm_find (block_GetHash regtest_block) (c_tipMap c') =
          Some (new_BlockIndex 1 (block_GetHash regtest_block) genesis_id).
Proof.
  destruct (AcceptBlock RegTestParams (λ _ _ _ _ _ _ _, true) 5 regtest_block false regtest_start) as [r c'] eqn:E.
  assert (r = Ok true) as -> by (change r with (r, c').1; rewrite <- E; vm_compute; reflexivity).
  exists c'. split; [reflexivity|].
  destruct (accepted_block_is_valid_and_connected RegTestParams (λ _ _ _ _ _ _ _, true) 5 regtest_block false
    (cache_coins (tx_GetHash genesis_tx).2 genesis_id 0 ∅) (new_BlockIndex 0 genesis_id (blob_null 32))
    (new_BlockIndex 0 genesis_id (blob_null 32)) regtest_start c') as (_ & _ & _ & _ & _ & _ & _ & Htip).
  - exact regtest_start_rep.
  - split; by apply (bool_decide_unpack _); vm_compute.
  - constructor; [|constructor]. constructor; [|constructor]. split; by apply (bool_decide_unpack _); vm_compute.
  - constructor; [|constructor]. split; [by apply (bool_decide_unpack _); vm_compute|vm_compute; discriminate].
  - vm_compute. reflexivity.
  - vm_compute. reflexivity.
  - vm_compute. reflexivity.
  - vm_compute. reflexivity.
  - split; vm_compute; [discriminate|reflexivity].
  - exact E.
  - exact Htip.
Defined.
