(* ===== verification/NetMessages.v ===== *)
(** * Messages of the peer protocol: [net.h]

    The message classes with their serialization, the message header, and the
    frame that [Node::PushMessage] puts around a message.  Streams of messages
    have version 0: witnesses are written, headers carry their transaction
    count. *)

From stdpp Require Import base list numbers decidable strings.
From S2P Require Import Prelude Serialize Uint256 Sha256 Tx Block.

Open Scope Z_scope.
Open Scope rd_scope.

(** ** Constants *)

Module NetMsgType.
Definition VERSION : list Z := chars "version".
Definition VERACK : list Z := chars "verack".
Definition ALERT : list Z := chars "alert".
Definition ADDR : list Z := chars "addr".
Definition INV : list Z := chars "inv".
Definition GETDATA : list Z := chars "getdata".
Definition GETBLOCKS : list Z := chars "getblocks".
Definition GETHEADERS : list Z := chars "getheaders".
Definition TX : list Z := chars "tx".
Definition HEADERS : list Z := chars "headers".
Definition BLOCK : list Z := chars "block".
Definition GETADDR : list Z := chars "getaddr".
Definition MEMPOOL : list Z := chars "mempool".
Definition PING : list Z := chars "ping".
Definition PONG : list Z := chars "pong".
Definition REJECT : list Z := chars "reject".
End NetMsgType.

Definition MSG_WITNESS_FLAG : Z := Z.shiftl 1 30.
Definition MSG_TX : Z := 1.
Definition MSG_BLOCK : Z := 2.
Definition MSG_WTX : Z := 5.
Definition MSG_FILTERED_BLOCK : Z := 3.
Definition MSG_CMPCT_BLOCK : Z := 4.
Definition MSG_WITNESS_BLOCK : Z := Z.lor MSG_BLOCK MSG_WITNESS_FLAG.
Definition MSG_WITNESS_TX : Z := Z.lor MSG_TX MSG_WITNESS_FLAG.

Definition MAX_INV_SIZE : Z := 50000.
Definition MAX_PROTOCOL_MESSAGE_LENGTH : Z := 4 * 1000 * 1000.
Definition EMPTY_BODY_HASH : list Z := [0x5d; 0xf6; 0xe0; 0xe2].
Definition REGTEST : list Z := [0xfa; 0xbf; 0xb5; 0xda].
Definition NO_BLOOM_VERSION : Z := 70011.
Definition GetLocalVersion : Z := NO_BLOOM_VERSION.
Definition NODE_WITNESS : Z := Z.shiftl 1 3.
Definition GetLocalServices : Z := NODE_WITNESS.

(** ** [NetAddress] *)

Record NetAddress := mk_NetAddress {
  na_services : Z;
  na_ip : list Z;
  na_port : Z;
}.
Definition NetAddress_new : NetAddress := mk_NetAddress 0 (replicate 16 0) 0.

Definition pchIPv4 : list Z := replicate 10 0 ++ [0xff; 0xff].
(** The remote endpoint: the port and the four bytes of the address; [None]: the
    socket reports an error. *)
Definition SetIPV4 (endpoint : option (Z * list Z)) (a : NetAddress) : NetAddress :=
  match endpoint with
  | None => a
  | Some (port, v4) => mk_NetAddress (na_services a) (pchIPv4 ++ v4) port
  end.
Definition IsIPV4 (a : NetAddress) : bool := bool_decide (take 12 (na_ip a) = pchIPv4).

(** The port goes out in network order. *)
Definition ser_NetAddress (v : Z) (a : NetAddress) : list Z :=
  ser_int 8 (na_services a) ++ na_ip a ++ be_bytes 2 (na_port a).
Definition unser_NetAddress (old : NetAddress) : rd NetAddress :=
  let! services := unser_uint 8 in
  let! ip := rd_into (na_ip old) 16 in
  let! portN := rd_into (be_bytes 2 (na_port old)) 2 in
  rd_ret (mk_NetAddress services ip (be_value portN)).

(** ** [Inv] *)

Record Inv := mk_Inv {
  inv_type : Z;
  inv_hash : blob;
}.
Definition IsGenTxMsg (i : Inv) : bool :=
  (inv_type i =? MSG_TX) || (inv_type i =? MSG_WTX) || (inv_type i =? MSG_WITNESS_TX).
Definition IsGenBlkMsg (i : Inv) : bool :=
  (inv_type i =? MSG_BLOCK) || (inv_type i =? MSG_FILTERED_BLOCK) || (inv_type i =? MSG_CMPCT_BLOCK) ||
  (inv_type i =? MSG_WITNESS_BLOCK).

Definition ser_Inv (v : Z) (i : Inv) : list Z := ser_int 4 (inv_type i) ++ inv_hash i.
Definition unser_Inv (old : Inv) : rd Inv :=
  let! type := unser_uint 4 in
  let! hash := rd_into (inv_hash old) 32 in
  rd_ret (mk_Inv type hash).

(** ** [NetMessageHeader] *)

Record NetMessageHeader := mk_MessageHeader {
  mh_start : list Z;
  mh_command : list Z;
  mh_size : Z;
  mh_checksum : list Z;
}.

Definition ser_MessageHeader (h : NetMessageHeader) : list Z :=
  mh_start h ++ mh_command h ++ ser_int 4 (mh_size h) ++ mh_checksum h.
Definition unser_MessageHeader (old : NetMessageHeader) : rd NetMessageHeader :=
  let! start := rd_into (mh_start old) 4 in
  let! command := rd_into (mh_command old) 12 in
  let! size := unser_uint 4 in
  let! checksum := rd_into (mh_checksum old) 4 in
  rd_ret (mk_MessageHeader start command size checksum).

(** The command is padded with zero bytes; the magic is the one of regtest. *)
Definition SetHeader (command : list Z) (nMessageSize : Z) (checksum : list Z) : NetMessageHeader :=
  let c := until_nul 12 command in
  mk_MessageHeader REGTEST (c ++ replicate (12 - length c) 0) (wrap32 nMessageSize) (take 4 checksum).

(** ** The messages *)

Record NetMessageVersion := mk_Version {
  ver_version : Z;
  ver_services : Z;
  ver_timestamp : Z;
  ver_recvAddr : NetAddress;
  ver_transAddr : NetAddress;
  ver_nonce : Z;
  ver_userAgent : list Z;
  ver_startHeight : Z;
  ver_relay : bool;
}.

(** Writing, [s] holds the bytes written before and nothing was read from it, so
    that the tests [!s.empty()] succeed. *)
Definition ser_Version (m : NetMessageVersion) : list Z :=
  ser_int 4 (ver_version m) ++ ser_int 8 (ver_services m) ++ ser_int 8 (ver_timestamp m) ++
  ser_NetAddress 0 (ver_recvAddr m) ++ ser_NetAddress 0 (ver_transAddr m) ++ ser_int 8 (ver_nonce m) ++
  serialize_bytes (ver_userAgent m) ++ ser_int 4 (ver_startHeight m) ++ ser_bool (ver_relay m).

(** [if (!s.empty()) ...]. *)
Definition rd_more {A} (r : rd A) (old : A) : rd A := λ s, if nd_empty s then Done (old, s) else r s.

Definition unser_Version (old : NetMessageVersion) : rd NetMessageVersion :=
  let! version := unser_int 4 in
  let! services := unser_uint 8 in
  let! timestamp := unser_int 8 in
  let! recvAddr := unser_NetAddress (ver_recvAddr old) in
  let! transAddr := unser_NetAddress (ver_transAddr old) in
  let! nonce := unser_uint 8 in
  let! userAgent := rd_more (unserialize_limited 256) (ver_userAgent old) in
  let! startHeight := rd_more (unser_int 4) (ver_startHeight old) in
  let! relay := rd_more unser_bool (ver_relay old) in
  rd_ret (mk_Version version services timestamp recvAddr transAddr nonce userAgent startHeight relay).

Record NetMessageReject := mk_Reject {
  rej_message : list Z;
  rej_code : Z;
  rej_reason : list Z;
  rej_hash : blob;
}.
Definition rej_has_hash (message : list Z) : bool :=
  bool_decide (message = NetMsgType.BLOCK) || bool_decide (message = NetMsgType.TX).
Definition ser_Reject (m : NetMessageReject) : list Z :=
  serialize_bytes (rej_message m) ++ ser_int 1 (rej_code m) ++ serialize_bytes (rej_reason m) ++
  (if rej_has_hash (rej_message m) then rej_hash m else []).
Definition unser_Reject (old : NetMessageReject) : rd NetMessageReject :=
  let! message := unserialize_limited 12 in
  let! code := unser_int 1 in
  let! reason := unserialize_limited 111 in
  let! hash := (if rej_has_hash message then rd_into (rej_hash old) 32 else rd_ret (rej_hash old)) in
  rd_ret (mk_Reject message code reason hash).

Record NetMessageGetBlocks := mk_GetBlocks {
  gb_command : list Z;
  gb_version : Z;
  gb_blockHeaderHashes : list blob;
  gb_stopHash : blob;
}.
Definition ser_hashes (l : list blob) : list Z := serialize_vector (λ _ h, h) 0 l.
Definition unser_hashes : rd (list blob) := unserialize_vector (blob_null 32) (λ old, rd_into old 32) (chunk_of 32).
Definition ser_GetBlocks (m : NetMessageGetBlocks) : list Z :=
  ser_int 4 (gb_version m) ++ ser_hashes (gb_blockHeaderHashes m) ++ gb_stopHash m.
Definition unser_GetBlocks (old : NetMessageGetBlocks) : rd NetMessageGetBlocks :=
  let! version := unser_uint 4 in
  let! hashes := unser_hashes in
  let! stopHash := rd_into (gb_stopHash old) 32 in
  rd_ret (mk_GetBlocks (gb_command old) version hashes stopHash).

Definition unser_PingPong : rd Z := unser_uint 8.

(** The messages that are sent, with the command their class gives them. *)
Inductive net_message :=
  | MVersion (m : NetMessageVersion)
  | MVerack
  | MGetAddr
  | MMempool
  | MPingPong (isPing : bool) (nonce : Z)
  | MGetBlocks (m : NetMessageGetBlocks)
  | MInvs (command : list Z) (invs : list Inv)
  | MAddrs (addrs : list NetAddress)
  | MReject (m : NetMessageReject)
  | MTx (tx : NetMessageTransaction)
  | MBlock (b : Block).

Definition CommandName (m : net_message) : list Z :=
  match m with
  | MVersion _ => NetMsgType.VERSION
  | MVerack => NetMsgType.VERACK
  | MGetAddr => NetMsgType.GETADDR
  | MMempool => NetMsgType.MEMPOOL
  | MPingPong isPing _ => if isPing then NetMsgType.PING else NetMsgType.PONG
  | MGetBlocks m => gb_command m
  | MInvs command _ => command
  | MAddrs _ => NetMsgType.ADDR
  | MReject _ => NetMsgType.REJECT
  | MTx _ => NetMsgType.TX
  | MBlock _ => NetMsgType.BLOCK
  end.

Definition IsEmptyMessage (m : net_message) : bool :=
  match m with MVerack | MGetAddr | MMempool => true | _ => false end.

Definition SwitchPing (isPing : bool) (m : net_message) : net_message :=
  match m with MPingPong _ nonce => MPingPong isPing nonce | m => m end.

(** ** Reading and writing the bodies *)

Definition NetAddress_ok (v : Z) (a : NetAddress) : Prop :=
  fits 64 (na_services a) ∧ length (na_ip a) = 16%nat ∧ fits 16 (na_port a).
Definition Inv_ok (v : Z) (i : Inv) : Prop := fits 32 (inv_type i) ∧ blob_wf 32 (inv_hash i).

Lemma reads_NetAddress v old a : NetAddress_ok v a → reads v (unser_NetAddress old) (ser_NetAddress v a) a.
Proof.
  intros (Hs & Hi & Hp). unfold unser_NetAddress, ser_NetAddress. read_field reads_uint.
  eapply reads_bind; [by apply (reads_array v 16); [lia|]|cbv beta].
  eapply reads_eq; [eapply reads_bind_ret, (reads_array v 2 _ (be_bytes 2 (na_port a))); [lia|apply length_be_bytes]|reflexivity|].
  rewrite be_value_be_bytes, Z.mod_small by exact Hp. by destruct a.
Qed.

Lemma reads_Inv v old i : Inv_ok v i → reads v (unser_Inv old) (ser_Inv v i) i.
Proof.
  intros [Ht Hh]. unfold unser_Inv, ser_Inv. read_field reads_uint.
  eapply reads_eq; [eapply reads_bind_ret; by apply reads_blob|reflexivity|by destruct i].
Qed.

#[global] Instance NetAddress_Serializable : Serializable NetAddress := {
  ser_def := NetAddress_new; serialize := ser_NetAddress; unserialize := unser_NetAddress;
  ser_ok := NetAddress_ok; ser_law := λ v, reads_NetAddress v NetAddress_new }.
Definition Inv_new : Inv := mk_Inv 0 (blob_null 32).
#[global] Instance Inv_Serializable : Serializable Inv := {
  ser_def := Inv_new; serialize := ser_Inv; unserialize := unser_Inv;
  ser_ok := Inv_ok; ser_law := λ v, reads_Inv v Inv_new }.

Definition sizeof_NetAddress : Z := 32.
Definition sizeof_Inv : Z := 36.

(** [std::vector<std::shared_ptr<const BlockHeader>>]. *)
Definition ser_headers (l : list BlockHeader) : list Z := serialize_vector (ser_header true) 0 l.
Definition unser_headers : rd (list BlockHeader) :=
  unserialize_vector BlockHeader_null (λ _, unser_header true BlockHeader_null) (chunk_of 16).

Definition ser_body (m : net_message) : list Z :=
  match m with
  | MVersion m => ser_Version m
  | MVerack | MGetAddr | MMempool => []
  | MPingPong _ nonce => ser_int 8 nonce
  | MGetBlocks m => ser_GetBlocks m
  | MInvs _ invs => ser_vec 0 invs
  | MAddrs addrs => ser_vec 0 addrs
  | MReject m => ser_Reject m
  | MTx tx => ser_tx 0 tx
  | MBlock b => ser_block 0 b
  end.

(** [s >> msg] for an object of one of the classes. *)
Definition unser_body (msg : net_message) : rd net_message :=
  match msg with
  | MVersion old => let! m := unser_Version old in rd_ret (MVersion m)
  | MVerack | MGetAddr | MMempool => rd_ret msg
  | MPingPong isPing _ => let! nonce := unser_PingPong in rd_ret (MPingPong isPing nonce)
  | MGetBlocks old => let! m := unser_GetBlocks old in rd_ret (MGetBlocks m)
  | MInvs command _ => let! invs := unser_vec sizeof_Inv in rd_ret (MInvs command invs)
  | MAddrs _ => let! addrs := unser_vec sizeof_NetAddress in rd_ret (MAddrs addrs)
  | MReject old => let! m := unser_Reject old in rd_ret (MReject m)
  | MTx old => let! tx := unser_tx old in rd_ret (MTx tx)
  | MBlock _ => let! b := unser_block Block_null in rd_ret (MBlock b)
  end.

(** ** [Node::PushMessage]: header and body in one buffer *)

Definition frame (m : net_message) : list Z :=
  if IsEmptyMessage m then ser_MessageHeader (SetHeader (CommandName m) 0 EMPTY_BODY_HASH)
  else
    let body := ser_body m in
    ser_MessageHeader (SetHeader (CommandName m) (Z.of_nat (length body)) (Hash256 body)) ++ body.

(** ** What the format carries *)

Definition Version_ok (m : NetMessageVersion) : Prop :=
  sfits 32 (ver_version m) ∧ fits 64 (ver_services m) ∧ sfits 64 (ver_timestamp m) ∧
  NetAddress_ok 0 (ver_recvAddr m) ∧ NetAddress_ok 0 (ver_transAddr m) ∧ fits 64 (ver_nonce m) ∧
  Z.of_nat (length (ver_userAgent m)) <= 256 ∧ sfits 32 (ver_startHeight m).
Definition Reject_ok (m : NetMessageReject) : Prop :=
  Z.of_nat (length (rej_message m)) <= 12 ∧ sfits 8 (rej_code m) ∧ Z.of_nat (length (rej_reason m)) <= 111 ∧
  (if rej_has_hash (rej_message m) then blob_wf 32 (rej_hash m) else rej_hash m = blob_null 32).
Definition GetBlocks_ok (m : NetMessageGetBlocks) : Prop :=
  fits 32 (gb_version m) ∧ Forall (blob_wf 32) (gb_blockHeaderHashes m) ∧
  Z.of_nat (length (gb_blockHeaderHashes m)) <= MAX_SIZE ∧ blob_wf 32 (gb_stopHash m).

Definition message_ok (m : net_message) : Prop :=
  match m with
  | MVersion m => Version_ok m
  | MVerack | MGetAddr | MMempool => True
  | MPingPong _ nonce => fits 64 nonce
  | MGetBlocks m => GetBlocks_ok m
  | MInvs _ invs => vec_ok 0 invs
  | MAddrs addrs => vec_ok 0 addrs
  | MReject m => Reject_ok m
  | MTx tx => tx_carried 0 tx
  | MBlock b => block_ok 0 b
  end.

(** A default-constructed object of the same class. *)
Definition Version_new : NetMessageVersion := mk_Version 0 0 0 NetAddress_new NetAddress_new 0 [] 0 false.
Definition message_new (m : net_message) : net_message :=
  match m with
  | MVersion _ => MVersion Version_new
  | MVerack | MGetAddr | MMempool => m
  | MPingPong isPing _ => MPingPong isPing 0
  | MGetBlocks m => MGetBlocks (mk_GetBlocks (gb_command m) 0 [] (blob_null 32))
  | MInvs command _ => MInvs command []
  | MAddrs _ => MAddrs []
  | MReject _ => MReject (mk_Reject [] 0 [] (blob_null 32))
  | MTx _ => MTx tx_default
  | MBlock _ => MBlock Block_null
  end.

(** *** Every body is read back *)

Lemma reads_more {A} v (r : rd A) old bs a : bs ≠ [] → reads v r bs a → reads v (rd_more r old) bs a.
Proof.
  intros Hne Hr s rest Hv Ha. unfold rd_more. rewrite (Hr s rest Hv Ha).
  assert (nd_empty s = false) as ->; [|done]. unfold nd_empty. apply Z.eqb_neq. destruct Ha as (Hp & _ & Hs & _).
  rewrite length_app in Hs. destruct bs; [done|]. cbn [length] in Hs. lia.
Qed.

Lemma serialize_bytes_ne b : serialize_bytes b ≠ [].
Proof. unfold serialize_bytes, WriteCompactSize. repeat case_match; done. Qed.

Lemma reads_Version old m : Version_ok m → reads 0 (unser_Version old) (ser_Version m) m.
Proof.
  intros (H1 & H2 & H3 & H4 & H5 & H6 & H7 & H8). unfold unser_Version, ser_Version.
  read_field reads_int. read_field reads_uint. read_field reads_int.
  eapply reads_bind; [by apply reads_NetAddress|cbv beta]. eapply reads_bind; [by apply reads_NetAddress|cbv beta].
  read_field reads_uint.
  eapply reads_bind; [apply reads_more; [apply serialize_bytes_ne|by apply reads_limited; [unfold MAX_SIZE; lia|]]|cbv beta].
  eapply reads_bind; [apply reads_more; [done|by apply reads_int; [lia|]]|cbv beta].
  eapply reads_eq; [eapply reads_bind_ret, (reads_more _ _ _ (ser_bool (ver_relay m))); [discriminate|apply reads_bool]|reflexivity|by destruct m].
Qed.

Lemma reads_Reject m : Reject_ok m → reads 0 (unser_Reject (mk_Reject [] 0 [] (blob_null 32))) (ser_Reject m) m.
Proof.
  intros (H1 & H2 & H3 & H4). unfold unser_Reject, ser_Reject.
  eapply reads_bind; [by apply reads_limited; [unfold MAX_SIZE; lia|]|cbv beta]. read_field reads_int.
  eapply reads_bind; [by apply reads_limited; [unfold MAX_SIZE; lia|]|cbv beta]. destruct (rej_has_hash (rej_message m)).
  - eapply reads_eq; [eapply reads_bind_ret; by apply reads_blob|reflexivity|by destruct m].
  - eapply reads_eq; [eapply reads_bind_ret, reads_ret|reflexivity|]. destruct m. cbn in *. by subst.
Qed.

Lemma reads_hashes v l :
  Forall (blob_wf 32) l → Z.of_nat (length l) <= MAX_SIZE → reads v unser_hashes (ser_hashes l) l.
Proof.
  intros Hl Hm. apply (reads_vector (blob_null 32) (λ _ h, h) (λ old, rd_into old 32) (λ _, blob_wf 32)); [|done|done|done].
  intros. by apply reads_blob.
Qed.

Lemma reads_GetBlocks m :
  GetBlocks_ok m → reads 0 (unser_GetBlocks (mk_GetBlocks (gb_command m) 0 [] (blob_null 32))) (ser_GetBlocks m) m.
Proof.
  intros (H1 & H2 & H3 & H4). unfold unser_GetBlocks, ser_GetBlocks. read_field reads_uint.
  eapply reads_bind; [by apply reads_hashes|cbv beta].
  eapply reads_eq; [eapply reads_bind_ret; by apply reads_blob|reflexivity|by destruct m].
Qed.

Lemma reads_headers l :
  Forall (header_ok true 0) l → Z.of_nat (length l) <= MAX_SIZE → reads 0 unser_headers (ser_headers l) l.
Proof.
  intros Hl Hm. apply (reads_vector BlockHeader_null (ser_header true) _ (λ v h, header_ok true v h)); [|done|done|done].
  intros. by apply reads_header.
Qed.

Lemma reads_body m : message_ok m → reads 0 (unser_body (message_new m)) (ser_body m) m.
Proof.
  destruct m; cbn [message_ok unser_body message_new ser_body]; intros Hok; try apply reads_ret.
  all: eapply reads_bind_ret.
  - by apply reads_Version.
  - apply reads_uint; [lia|done].
  - by apply reads_GetBlocks.
  - by apply reads_vec.
  - by apply reads_vec.
  - by apply reads_Reject.
  - by apply reads_tx_carried.
  - by apply reads_block.
Qed.

(** *** The frame *)

Definition header_fields_ok (h : NetMessageHeader) : Prop :=
  length (mh_start h) = 4%nat ∧ length (mh_command h) = 12%nat ∧ fits 32 (mh_size h) ∧ length (mh_checksum h) = 4%nat.

Lemma reads_MessageHeader old h : header_fields_ok h → reads 0 (unser_MessageHeader old) (ser_MessageHeader h) h.
Proof.
  intros (H1 & H2 & H3 & H4). unfold unser_MessageHeader, ser_MessageHeader.
  eapply reads_bind; [by apply (reads_array 0 4); [lia|]|cbv beta].
  eapply reads_bind; [by apply (reads_array 0 12); [lia|]|cbv beta]. read_field reads_uint.
  eapply reads_eq; [eapply reads_bind_ret, (reads_array 0 4); [lia|done]|reflexivity|by destruct h].
Qed.

Lemma length_MessageHeader h : header_fields_ok h → length (ser_MessageHeader h) = 24%nat.
Proof.
  intros (H1 & H2 & _ & H4). unfold ser_MessageHeader, ser_int. rewrite !length_app, length_le_bytes. lia.
Qed.

Lemma length_until_nul n l : (length (until_nul n l) <= n)%nat.
Proof.
  revert l. induction n as [|n IH]; intros [|b l]; cbn [until_nul length]; try lia.
  destruct (b =? 0); cbn [length]; [lia|]. specialize (IH l). lia.
Qed.

Lemma until_nul_padded n l k : (length l <= n)%nat → 0 ∉ l → until_nul n (l ++ replicate k 0) = l.
Proof.
  revert l. induction n as [|n IH]; intros [|b l]; cbn [length]; intros Hl Hz; try lia; try done.
  - by destruct k.
  - apply not_elem_of_cons in Hz as [Hb Hz]. cbn [until_nul app]. rewrite (proj2 (Z.eqb_neq b 0)) by done. f_equal.
    apply IH; [lia|done].
Qed.

Lemma until_nul_all n l : (length l <= n)%nat → 0 ∉ l → until_nul n l = l.
Proof. intros. rewrite <- (app_nil_r l) at 1. by apply (until_nul_padded n l 0). Qed.

Lemma SetHeader_ok command size checksum :
  (4 <= length checksum)%nat → header_fields_ok (SetHeader command size checksum).
Proof.
  intros Hc. pose proof (length_until_nul 12 command) as Hl. unfold header_fields_ok, SetHeader. cbn [mh_start mh_command mh_size mh_checksum].
  split_and!; [done| | |].
  - rewrite length_app, length_replicate. lia.
  - apply wrap_fits. lia.
  - rewrite length_take. lia.
Qed.

Definition frame_header (m : net_message) : NetMessageHeader :=
  SetHeader (CommandName m) (Z.of_nat (length (ser_body m))) (take 4 (Hash256 (ser_body m))).

(** The constant checksum of the empty messages is the checksum of an empty body. *)
Lemma EMPTY_BODY_HASH_correct : take 4 (Hash256 []) = EMPTY_BODY_HASH.
Proof. vm_compute. reflexivity. Qed.

Lemma frame_split m : frame m = ser_MessageHeader (frame_header m) ++ ser_body m.
Proof.
  unfold frame, frame_header, SetHeader. destruct (IsEmptyMessage m) eqn:E.
  - assert (ser_body m = []) as -> by (by destruct m). rewrite EMPTY_BODY_HASH_correct. by rewrite app_nil_r.
  - by rewrite take_take.
Qed.

Lemma frame_header_ok m : Z.of_nat (length (ser_body m)) < 2 ^ 32 → header_fields_ok (frame_header m).
Proof. intros Hl. apply SetHeader_ok. rewrite length_take, length_Hash256 by lia. lia. Qed.

Lemma length_frame m : Z.of_nat (length (ser_body m)) < 2 ^ 32 → length (frame m) = (24 + length (ser_body m))%nat.
Proof. intros Hl. by rewrite frame_split, length_app, length_MessageHeader by by apply frame_header_ok. Qed.

(** The fields at their offsets. *)
Lemma header_slices h rest : header_fields_ok h →
  slice (ser_MessageHeader h ++ rest) MESSAGE_SIZE_OFFSET 4 = ser_int 4 (mh_size h) ∧
  take 12 (drop 4 (ser_MessageHeader h ++ rest)) = mh_command h.
Proof.
  intros (H1 & H2 & _ & H4). unfold slice, ser_MessageHeader. change (Z.to_nat MESSAGE_SIZE_OFFSET) with 16%nat.
  change (Z.to_nat 4) with 4%nat. rewrite <- !app_assoc. split.
  - rewrite app_assoc, drop_app_length' by (rewrite length_app; lia). apply take_app_length'. symmetry. apply length_le_bytes.
  - rewrite drop_app_length' by done. by apply take_app_length'.
Qed.

Lemma until_nul_take n l : until_nul n (take n l) = until_nul n l.
Proof. revert l. induction n as [|n IH]; intros [|b l]; cbn [take until_nul]; try done. by rewrite IH. Qed.

Lemma frame_parses m s stale :
  nd_data s = frame m ++ stale → Z.of_nat (length (ser_body m)) < 2 ^ 32 →
  nd_ParseBodySize s = Z.of_nat (length (ser_body m)).
Proof.
  intros Hs Hb. unfold nd_ParseBodySize. rewrite Hs, frame_split, <- app_assoc.
  rewrite (proj1 (header_slices _ _ (frame_header_ok m Hb))). unfold ser_int, frame_header, SetHeader. cbn [mh_size].
  rewrite le_value_le_bytes. change (256 ^ Z.of_nat 4) with (2 ^ 32).
  change (8 * Z.of_nat 4) with 32.
  rewrite !(wrap_id 32 (Z.of_nat (length (ser_body m)))) by (unfold fits; lia). apply Z.mod_small. lia.
Qed.

Lemma avail_buffer bs rest :
  Z.of_nat (length (bs ++ rest)) < 2 ^ 32 → avail (nd_of_buffer (bs ++ rest) 0) (bs ++ rest).
Proof. intros Hl. unfold avail, nd_size. cbn [nd_readPos nd_data nd_of_buffer]. by split_and!. Qed.

(** C36 What one node pushes another reads, whatever lies behind the message in its buffer: the size field, the command and
    the checksum of the header are those of the message, and reading the body into a fresh object of the class gives the
    message back and stops behind it. *)
Theorem frame_roundtrip (m : net_message) (old : NetMessageHeader) (stale : list Z) :
  message_ok m → (length (CommandName m) <= 12)%nat → 0 ∉ CommandName m →
  Z.of_nat (length (frame m ++ stale)) < 2 ^ 32 →
  let s := nd_of_buffer (frame m ++ stale) 0 in
  nd_ParseBodySize s = Z.of_nat (length (ser_body m)) ∧
  (nd_GetMessageCommand s).1 = CommandName m ∧
  unser_MessageHeader old s = Done (frame_header m, nd_ResetBodyPos s) ∧
  until_nul 12 (mh_command (frame_header m)) = CommandName m ∧
  mh_checksum (frame_header m) = take 4 (Hash256 (ser_body m)) ∧
  unser_body (message_new m) (nd_ResetBodyPos s) = Done (m, nd_set_pos (Z.of_nat (length (frame m))) s).
Proof.
  intros Hok Hc Hz Hl s. pose proof Hl as Hl'. rewrite length_app, frame_split, length_app in Hl'.
  assert (Z.of_nat (length (ser_body m)) < 2 ^ 32) as Hb by lia. pose proof (frame_header_ok m Hb) as Hh.
  assert (avail s (ser_MessageHeader (frame_header m) ++ (ser_body m ++ stale))) as Ha.
  { subst s. rewrite frame_split, <- app_assoc in Hl |- *. by apply avail_buffer. }
  assert (until_nul 12 (mh_command (frame_header m)) = CommandName m) as Hcmd.
  { unfold frame_header, SetHeader. cbn [mh_command]. rewrite (until_nul_all 12 (CommandName m)) by done. by apply until_nul_padded. }
  split_and!; [by eapply frame_parses| | |done| |].
  - unfold nd_GetMessageCommand. subst s. cbn [nd_command nd_of_buffer]. unfold nd_size. cbn [nd_data nd_of_buffer].
    destruct (Z.ltb_spec (Z.of_nat (length (frame m ++ stale))) HEADER_SIZE) as [Hlt|_].
    { rewrite length_app, length_frame in Hlt by done. unfold HEADER_SIZE in Hlt. lia. }
    cbn [fst]. change (Z.to_nat COMMAND_SIZE) with 12%nat. change (Z.to_nat MESSAGE_START_SIZE) with 4%nat.
    rewrite <- until_nul_take, frame_split, <- app_assoc. cbn [fst nd_data nd_of_buffer]. rewrite (proj2 (header_slices _ _ Hh)). exact Hcmd.
  - rewrite (reads_MessageHeader old _ Hh s _ eq_refl Ha). by rewrite length_MessageHeader.
  - unfold frame_header, SetHeader. cbn [mh_checksum]. by rewrite take_take.
  - apply avail_advance in Ha. rewrite length_MessageHeader in Ha by done.
    change (nd_ResetBodyPos s) with (nd_advance 24 s). rewrite (reads_body m Hok (nd_advance 24 s) _ eq_refl Ha).
    rewrite nd_advance_add. unfold nd_advance. rewrite length_frame by done. done.
Qed.

Lemma frame_roundtrip_witness :
  let m := MInvs NetMsgType.GETDATA [mk_Inv MSG_WITNESS_BLOCK (replicate 32 7)] in
  let s := nd_of_buffer (frame m ++ [1; 2; 3]) 0 in
  length (frame m) = 61%nat ∧ unser_body (MInvs NetMsgType.GETDATA []) (nd_ResetBodyPos s) = Done (m, nd_set_pos 61 s).
Proof.
  intros m s. split; [vm_compute; reflexivity|].
  refine (proj2 (proj2 (proj2 (proj2 (proj2 (frame_roundtrip m (mk_MessageHeader [] [] 0 []) [1; 2; 3] _ _ _ _)))))).
  - split; [vm_compute; discriminate|]. constructor; [|constructor]. split; [done|by apply (bool_decide_unpack _); vm_compute].
  - vm_compute. lia.
  - by apply (bool_decide_unpack _); vm_compute.
  - vm_compute. reflexivity.
Defined.
