(* ===== verification/Node.v ===== *)
(** * Connections: [Node], [NodeCache], [NetMan] of [net.h] and [net.cpp]

    A node is driven by its event loop: each completion handler and each posted
    function is an event, and [node_step] is what the handler does.  The socket
    is outside: a read completes with the bytes asked for or with an error, a
    write completes or fails.  [n_reading] and [n_writing] are the operations
    that the node has started and that have not completed. *)

From stdpp Require Import base gmap list numbers decidable strings.
From S2P Require Import Prelude Serialize Uint256 Sha256 Tx Block NetMessages SipHash.

Open Scope Z_scope.

(** ** State *)

Inductive pending_read := NoRead | ReadHeader | ReadBody (size : Z).

Record Node := mk_Node {
  n_id : Z;
  n_nonce : Z;
  n_isDisconnect : bool;
  n_isHandshakeOK : bool;
  n_version : NetMessageVersion;
  n_readCache : NetMessageData;     (* _readCacheNetMessage *)
  n_reading : pending_read;
  n_writeQueue : list (list Z);     (* _writeNetMessages *)
  n_writing : list (list Z);
  n_sent : list (list Z);           (* what the socket has taken *)
  n_cached : bool;                  (* the NodeCache holds the node *)
}.

(** [Node(...)] leaves the numbers of [_version] uninitialised; [_vNodes.PushNode(pNode)] comes
    before [Start]. *)
Definition Node_new (id nonce : Z) : Node :=
  mk_Node id nonce false false Version_new (nd_empty_stream 0) NoRead [] [] [] true.

Definition with_read (cache : NetMessageData) (r : pending_read) (n : Node) : Node :=
  mk_Node (n_id n) (n_nonce n) (n_isDisconnect n) (n_isHandshakeOK n) (n_version n) cache r (n_writeQueue n) (n_writing n) (n_sent n) (n_cached n).
Definition with_write (queue writing sent : list (list Z)) (n : Node) : Node :=
  mk_Node (n_id n) (n_nonce n) (n_isDisconnect n) (n_isHandshakeOK n) (n_version n) (n_readCache n) (n_reading n) queue writing sent (n_cached n).
Definition SetHandshakeOK (isOK : bool) (n : Node) : Node :=
  mk_Node (n_id n) (n_nonce n) (n_isDisconnect n) isOK (n_version n) (n_readCache n) (n_reading n) (n_writeQueue n) (n_writing n) (n_sent n) (n_cached n).

Definition set_version (v : NetMessageVersion) (n : Node) : Node :=
  mk_Node (n_id n) (n_nonce n) (n_isDisconnect n) (n_isHandshakeOK n) v (n_readCache n) (n_reading n) (n_writeQueue n) (n_writing n) (n_sent n) (n_cached n).

(** The pending operations complete later, with an error. *)
Definition Disconnect (removeNode : bool) (n : Node) : Node :=
  if n_isDisconnect n then n
  else mk_Node (n_id n) (n_nonce n) true (n_isHandshakeOK n) (n_version n) (n_readCache n) (n_reading n) (n_writeQueue n) (n_writing n)
         (n_sent n) (if removeNode then false else n_cached n).

(** What a handler asks of others: run the message processor on a copy of the
    message, run a function later in the event loop. *)
Inductive effect :=
  | Process (msg : NetMessageData)
  | Post (bytes : list Z).

(** ** Reading *)

(** The socket fills [len] bytes of the buffer at an offset. *)
Definition nd_fill (off : nat) (bytes : list Z) (s : NetMessageData) : NetMessageData :=
  mk_NetMessageData (take off (nd_data s) ++ bytes ++ drop (off + length bytes) (nd_data s))
    (nd_readPos s) (nd_command s) (nd_nVersion s).

Definition DoReadHeader (n : Node) : Node :=
  if n_isDisconnect n then n
  else with_read (nd_Resize HEADER_SIZE (n_readCache n)) ReadHeader n.

Definition DoReadBody (n : Node) : Node :=
  if n_isDisconnect n then n
  else
    let size := nd_ParseBodySize (n_readCache n) in
    if (size <=? 0) || (size >? MAX_PROTOCOL_MESSAGE_LENGTH) then Disconnect true n
    else with_read (nd_Resize (nd_size (n_readCache n) + size) (n_readCache n)) (ReadBody size) n.

(** [PeerLogicMan::ProcessMessages]: the node is looked up and its buffer copied
    into the posted function. *)
Definition ProcessMessages (n : Node) : list effect :=
  if n_cached n then [Process (nd_copy (n_readCache n))] else [].

(** The completion of a read; [None]: an error. *)
Definition read_done (r : option (list Z)) (n : Node) : Node * list effect :=
  match n_reading n, r with
  | NoRead, _ => (n, [])
  | _, None => (Disconnect true (with_read (n_readCache n) NoRead n), [])
  | ReadHeader, Some bytes =>
      let n := with_read (nd_fill 0 bytes (n_readCache n)) NoRead n in
      if n_isDisconnect n then (n, [])
      else if nd_ParseBodySize (n_readCache n) =? 0 then (DoReadHeader n, ProcessMessages n)
      else (DoReadBody n, [])
  | ReadBody size, Some bytes =>
      let n := with_read (nd_fill 24 bytes (n_readCache n)) NoRead n in
      if n_isDisconnect n then (n, [])
      else (DoReadHeader n, ProcessMessages n)
  end.

(** ** Writing *)

(** [async_write] on the front of the queue. *)
Definition DoWrite (n : Node) : Node :=
  if n_isDisconnect n then n
  else with_write (n_writeQueue n) (n_writing n ++ take 1 (n_writeQueue n)) (n_sent n) n.

(** The function that [PushMessage] posts. *)
Definition push_posted (bytes : list Z) (n : Node) : Node :=
  let isWriteIdel := bool_decide (n_writeQueue n = []) in
  let n := with_write (n_writeQueue n ++ [bytes]) (n_writing n) (n_sent n) n in
  if isWriteIdel then DoWrite n else n.

Definition write_done (ok : bool) (n : Node) : Node :=
  match n_writing n with
  | [] => n
  | w :: ws =>
      if ok then
        let n := with_write (tail (n_writeQueue n)) ws (n_sent n ++ [w]) n in
        if bool_decide (n_writeQueue n = []) then n else DoWrite n
      else Disconnect true (with_write (n_writeQueue n) ws (n_sent n) n)
  end.

(** ** The connection *)

(** [Node::Initialize]. *)
Definition initial_version (nonce now : Z) (endpoint : option (Z * list Z)) (tipHeight : option Z) : NetMessageVersion :=
  let recvAddr := SetIPV4 endpoint NetAddress_new in
  mk_Version GetLocalVersion GetLocalServices now
    (mk_NetAddress 0 (na_ip recvAddr) (na_port recvAddr))
    (mk_NetAddress GetLocalServices (na_ip NetAddress_new) (na_port NetAddress_new))
    nonce (chars "/fly:0.0.1/") (match tipHeight with None => 0 | Some h => swrap32 h end) true.

Inductive node_event :=
  | Connected (now : Z) (endpoint : option (Z * list Z)) (tipHeight : option Z)
  | ConnectFailed (canceled : bool)
  | Deadline (expired : bool)
  | ReadDone (r : option (list Z))
  | Posted (bytes : list Z)
  | WriteDone (ok : bool)
  | DisconnectCalled (removeNode : bool).

Definition node_step (n : Node) (e : node_event) : Node * list effect :=
  match e with
  | Connected now endpoint tipHeight =>
      (DoReadHeader n, [Post (frame (MVersion (initial_version (n_nonce n) now endpoint tipHeight)))])
  | ConnectFailed canceled => (if canceled then n else Disconnect true n, [])
  | Deadline expired => (if n_isDisconnect n then n else if expired then Disconnect true n else n, [])
  | ReadDone r => read_done r n
  | Posted bytes => (push_posted bytes n, [])
  | WriteDone ok => (write_done ok n, [])
  | DisconnectCalled removeNode => (Disconnect removeNode n, [])
  end.

Definition node_run (n : Node) (es : list node_event) : Node * list effect :=
  foldl (λ '(n, out) e, let '(n', o) := node_step n e in (n', out ++ o)) (n, []) es.

(** ** [NodeCache] *)

Abbreviation NodeCache := (gmap Z Node).
Definition PushNode (node : Node) (cache : NodeCache) : NodeCache := <[n_id node := node]> cache.
Definition RemoveNode (node : Node) (cache : NodeCache) : NodeCache := delete (n_id node) cache.
Definition GetNode (id : Z) (cache : NodeCache) : option Node := cache !! id.
Definition RemoveAll (cache : NodeCache) : NodeCache := ∅.

(** ** [NetMan] *)

(** [CreateNewNodeId] and [OpenNode]: the next identifier, the nonce drawn from it, the node in
    the cache; [None] is a failed assertion of the hasher. *)
Record NetMan := mk_NetMan {
  nm_nodes : NodeCache;
  nm_nLastNodeId : Z;
}.
Definition CreateNewNodeId (m : NetMan) : Z * NetMan :=
  (nm_nLastNodeId m, mk_NetMan (nm_nodes m) (swrap64 (nm_nLastNodeId m + 1))).
Definition OpenNode (m : NetMan) : option NetMan :=
  let '(id, m) := CreateNewNodeId m in
  nonce ← node_nonce (wrap64 id);
  Some (mk_NetMan (PushNode (Node_new (wrap64 id) nonce) (nm_nodes m)) (nm_nLastNodeId m)).
(** [Stop] disconnects every node and keeps them in the cache. *)
Definition NetMan_Stop (m : NetMan) : NetMan := mk_NetMan (Disconnect false <$> nm_nodes m) (nm_nLastNodeId m).

(** ** The byte stream *)

(** How many bytes the outstanding read waits for. *)
Definition wanted (n : Node) : option nat :=
  match n_reading n with
  | NoRead => None
  | ReadHeader => Some 24%nat
  | ReadBody size => Some (Z.to_nat size)
  end.

(** The reads complete one after the other while the input has the bytes. *)
Fixpoint drain (fuel : nat) (n : Node) (input : list Z) : Node * list effect * list Z :=
  match fuel with
  | O => (n, [], input)
  | S fuel' =>
      match wanted n with
      | None => (n, [], input)
      | Some k =>
          if (k <=? length input)%nat then
            let '(n, out) := node_step n (ReadDone (Some (take k input))) in
            let '(n, out', rest) := drain fuel' n (drop k input) in
            (n, out ++ out', rest)
          else (n, [], input)
      end
  end.

(** Connected, waiting for a header. *)
Definition ready (n : Node) : Prop :=
  n_reading n = ReadHeader ∧ n_isDisconnect n = false ∧ n_cached n = true ∧
  (24 <= length (nd_data (n_readCache n)))%nat ∧ nd_nVersion (n_readCache n) = 0.

Definition buffered (n : Node) : nat := length (nd_data (n_readCache n)).

Lemma nd_Resize_id k s : k <= nd_size s → nd_Resize k s = s.
Proof. intros Hk. unfold nd_Resize. by rewrite (proj2 (Z.ltb_ge _ _)). Qed.

Lemma nd_fill_0 b s : nd_data (nd_fill 0 b s) = b ++ drop (length b) (nd_data s).
Proof. reflexivity. Qed.

Lemma DoReadHeader_ready n :
  n_isDisconnect n = false → n_cached n = true → (24 <= buffered n)%nat → nd_nVersion (n_readCache n) = 0 →
  DoReadHeader n = with_read (n_readCache n) ReadHeader n ∧ ready (DoReadHeader n).
Proof.
  unfold buffered, DoReadHeader, ready. intros Hd Hc Hb Hv. rewrite Hd.
  rewrite nd_Resize_id by (unfold nd_size, HEADER_SIZE; lia). by split_and!.
Qed.

(** The node after a message: its buffer has grown by the body. *)
Record received (n : Node) (m : net_message) (n' : Node) (p : NetMessageData) : Prop := {
  rc_ready : ready n';
  rc_size : buffered n' = (buffered n + length (ser_body m))%nat;
  rc_msg : ∃ stale, nd_data p = frame m ++ stale;
  rc_pos : nd_readPos p = 0;
  rc_version : nd_nVersion p = 0;
  rc_writes : n_writeQueue n' = n_writeQueue n ∧ n_writing n' = n_writing n ∧ n_sent n' = n_sent n;
}.

Lemma frame_head m : Z.of_nat (length (ser_body m)) < 2 ^ 32 →
  take 24 (frame m) = ser_MessageHeader (frame_header m) ∧ drop 24 (frame m) = ser_body m.
Proof.
  intros Hb. pose proof (length_MessageHeader _ (frame_header_ok m Hb)) as Hl. rewrite frame_split.
  split; [by apply take_app_length'|by apply drop_app_length'].
Qed.

Lemma header_parses m s rest :
  nd_data s = ser_MessageHeader (frame_header m) ++ rest → Z.of_nat (length (ser_body m)) < 2 ^ 32 →
  nd_ParseBodySize s = Z.of_nat (length (ser_body m)).
Proof.
  intros Hs Hb. rewrite <- (frame_parses m (nd_of_buffer (frame m ++ []) 0) [] eq_refl Hb).
  unfold nd_ParseBodySize. rewrite Hs. cbn [nd_data nd_of_buffer]. rewrite frame_split, <- app_assoc.
  pose proof (frame_header_ok m Hb) as Hh. by rewrite !(proj1 (header_slices _ _ Hh)).
Qed.

(** A header without a body is a whole message. *)
Lemma receive_empty n m :
  ready n → ser_body m = [] →
  ∃ n' p, node_step n (ReadDone (Some (take 24 (frame m)))) = (n', [Process p]) ∧ received n m n' p.
Proof.
  intros (Hr & Hd & Hc & Hb & Hv) Hm. assert (Z.of_nat (length (ser_body m)) < 2 ^ 32) as Hl by (rewrite Hm; cbn; lia).
  destruct (frame_head m Hl) as [Eh _]. rewrite Eh. pose proof (length_MessageHeader _ (frame_header_ok m Hl)) as Hlen.
  set (n1 := with_read (nd_fill 0 (ser_MessageHeader (frame_header m)) (n_readCache n)) NoRead n).
  assert (nd_data (n_readCache n1) = frame m ++ drop 24 (nd_data (n_readCache n))) as Hdata.
  { change (nd_data (n_readCache n1)) with (nd_data (nd_fill 0 (ser_MessageHeader (frame_header m)) (n_readCache n))).
    by rewrite nd_fill_0, Hlen, frame_split, Hm, app_nil_r. }
  assert (buffered n1 = buffered n) as Hsz.
  { unfold buffered. rewrite Hdata, length_app, length_frame, Hm, length_drop by done. cbn [length]. lia. }
  destruct (DoReadHeader_ready n1) as [E Hready]; [done|done|by unfold buffered in *; lia|done|].
  exists (DoReadHeader n1), (nd_copy (n_readCache n1)). split.
  - cbn [node_step]. unfold read_done. rewrite Hr. fold n1. change (n_isDisconnect n1) with (n_isDisconnect n). rewrite Hd.
    rewrite (frame_parses m _ _ Hdata Hl), Hm. cbn [length Z.of_nat Z.eqb]. unfold ProcessMessages.
    change (n_cached n1) with (n_cached n). by rewrite Hc.
  - split; [done| |by eexists|done|done|by rewrite E].
    rewrite E. change (buffered n1 = (buffered n + length (ser_body m))%nat). rewrite Hm. cbn [length]. lia.
Qed.

(** The header asks for the body. *)
Lemma receive_header n m :
  ready n → ser_body m ≠ [] → Z.of_nat (length (ser_body m)) <= MAX_PROTOCOL_MESSAGE_LENGTH →
  ∃ n1 tail, node_step n (ReadDone (Some (take 24 (frame m)))) = (n1, []) ∧
    n1 = with_read (n_readCache n1) (ReadBody (Z.of_nat (length (ser_body m)))) n ∧
    nd_data (n_readCache n1) = ser_MessageHeader (frame_header m) ++ tail ∧
    (buffered n1 = buffered n + length (ser_body m))%nat ∧ nd_nVersion (n_readCache n1) = 0.
Proof.
  intros (Hr & Hd & Hc & Hb & Hv) Hm Hmax.
  assert (Z.of_nat (length (ser_body m)) < 2 ^ 32) as Hl by (unfold MAX_PROTOCOL_MESSAGE_LENGTH in Hmax; lia).
  destruct (frame_head m Hl) as [Eh _]. rewrite Eh. pose proof (length_MessageHeader _ (frame_header_ok m Hl)) as Hlen.
  set (n0 := with_read (nd_fill 0 (ser_MessageHeader (frame_header m)) (n_readCache n)) NoRead n).
  assert (nd_data (n_readCache n0) = ser_MessageHeader (frame_header m) ++ drop 24 (nd_data (n_readCache n))) as Hdata.
  { change (nd_data (n_readCache n0)) with (nd_data (nd_fill 0 (ser_MessageHeader (frame_header m)) (n_readCache n))).
    by rewrite nd_fill_0, Hlen. }
  assert (buffered n0 = buffered n) as Hsz by (unfold buffered; rewrite Hdata, length_app, Hlen, length_drop; lia).
  assert (0 < Z.of_nat (length (ser_body m))) as Hpos by (destruct (ser_body m); [done|cbn [length]; lia]).
  exists (DoReadBody n0).
  assert (DoReadBody n0 = with_read (nd_Resize (nd_size (n_readCache n0) + Z.of_nat (length (ser_body m))) (n_readCache n0))
            (ReadBody (Z.of_nat (length (ser_body m)))) n0) as E.
  { unfold DoReadBody. change (n_isDisconnect n0) with (n_isDisconnect n). rewrite Hd, (header_parses m _ _ Hdata Hl).
    rewrite (proj2 (Z.leb_gt _ 0)), Z.gtb_ltb, (proj2 (Z.ltb_ge _ _)) by lia. done. }
  exists (drop 24 (nd_data (n_readCache n)) ++ replicate (length (ser_body m)) 0). rewrite E. split_and!.
  - cbn [node_step]. unfold read_done. rewrite Hr. fold n0. change (n_isDisconnect n0) with (n_isDisconnect n). rewrite Hd.
    rewrite (header_parses m _ _ Hdata Hl), (proj2 (Z.eqb_neq _ _)) by lia. by rewrite E.
  - done.
  - unfold nd_Resize. rewrite (proj2 (Z.ltb_lt _ _)) by lia. cbn [n_readCache with_read nd_data].
    rewrite Hdata, <- app_assoc. do 3 f_equal. lia.
  - unfold buffered, nd_Resize. rewrite (proj2 (Z.ltb_lt _ _)) by lia. cbn [n_readCache with_read nd_data].
    rewrite length_app, length_replicate. unfold buffered in Hsz. lia.
  - unfold nd_Resize. rewrite (proj2 (Z.ltb_lt _ _)) by lia. done.
Qed.

Lemma receive_body n n1 m tail :
  ready n → ser_body m ≠ [] → Z.of_nat (length (ser_body m)) < 2 ^ 32 →
  n1 = with_read (n_readCache n1) (ReadBody (Z.of_nat (length (ser_body m)))) n →
  nd_data (n_readCache n1) = ser_MessageHeader (frame_header m) ++ tail →
  (buffered n1 = buffered n + length (ser_body m))%nat → nd_nVersion (n_readCache n1) = 0 →
  ∃ n' p, node_step n1 (ReadDone (Some (ser_body m))) = (n', [Process p]) ∧ received n m n' p.
Proof.
  intros (Hr & Hd & Hc & Hb & Hv) Hm Hl En Hdata Hsz Hv1.
  pose proof (length_MessageHeader _ (frame_header_ok m Hl)) as Hlen.
  set (n2 := with_read (nd_fill 24 (ser_body m) (n_readCache n1)) NoRead n1).
  assert (nd_data (n_readCache n2) = frame m ++ drop (length (ser_body m)) tail) as Hd2.
  { cbn -[take drop]. rewrite Hdata, frame_split, <- app_assoc.
    rewrite take_app_length' by done. do 2 f_equal. rewrite drop_app_ge by lia. f_equal. lia. }
  assert (buffered n2 = buffered n1) as Hsz2.
  { unfold buffered in *. rewrite Hd2, length_app, length_frame, length_drop, Hdata, length_app, Hlen in * by done. lia. }
  assert (n_isDisconnect n1 = false ∧ n_cached n1 = true) as [Hd1 Hc1] by (rewrite En; done).
  destruct (DoReadHeader_ready n2) as [E Hready]; [done|done|unfold buffered in *; lia|done|].
  exists (DoReadHeader n2), (nd_copy (n_readCache n2)). split.
  - cbn [node_step]. unfold read_done. replace (n_reading n1) with (ReadBody (Z.of_nat (length (ser_body m)))) by (by rewrite En).
    fold n2. change (n_isDisconnect n2) with (n_isDisconnect n1). rewrite Hd1. unfold ProcessMessages.
    change (n_cached n2) with (n_cached n1). by rewrite Hc1.
  - split; [done| |by eexists|done|done|].
    + rewrite E. change (buffered n2 = (buffered n + length (ser_body m))%nat). lia.
    + rewrite E. cbn. by rewrite En.
Qed.

(** One message of the stream, in one or two reads. *)
Lemma drain_message n m rest :
  ready n → Z.of_nat (length (ser_body m)) <= MAX_PROTOCOL_MESSAGE_LENGTH →
  ∃ k n' p, (k <= 2)%nat ∧ received n m n' p ∧ ∀ fuel,
    drain (k + fuel) n (frame m ++ rest) =
    let '(n'', out, r) := drain fuel n' rest in (n'', Process p :: out, r).
Proof.
  intros Hn Hmax. assert (Z.of_nat (length (ser_body m)) < 2 ^ 32) as Hl by (unfold MAX_PROTOCOL_MESSAGE_LENGTH in Hmax; lia).
  pose proof (length_frame m Hl) as Hlen.
  assert (∀ fuel, drain (S fuel) n (frame m ++ rest) =
    let '(n', out) := node_step n (ReadDone (Some (take 24 (frame m)))) in
    let '(n'', out', r) := drain fuel n' (ser_body m ++ rest) in (n'', out ++ out', r)) as Hfirst.
  { intros fuel. cbn [drain]. unfold wanted. destruct Hn as (-> & _).
    rewrite (proj2 (Nat.leb_le _ _)) by (rewrite length_app; lia).
    rewrite take_app_le by lia. by rewrite drop_app_le, (proj2 (frame_head m Hl)) by lia. }
  destruct (decide (ser_body m = [])) as [Hm|Hm].
  - destruct (receive_empty n m Hn Hm) as (n' & p & E & Hr). exists 1%nat, n', p. split_and!; [lia|done|].
    intros fuel. cbn [Nat.add]. rewrite Hfirst, E, Hm. done.
  - destruct (receive_header n m Hn Hm Hmax) as (n1 & tail & E1 & En & Hdata & Hsz & Hv).
    destruct (receive_body n n1 m tail Hn Hm Hl En Hdata Hsz Hv) as (n' & p & E2 & Hr).
    exists 2%nat, n', p. split_and!; [lia|done|]. intros fuel. cbn [Nat.add]. rewrite Hfirst, E1. cbn [drain].
    assert (wanted n1 = Some (length (ser_body m))) as -> by (rewrite En; unfold wanted; cbn; by rewrite Nat2Z.id).
    rewrite (proj2 (Nat.leb_le _ _)) by (rewrite length_app; lia). rewrite take_app_length, drop_app_length, E2.
    by destruct (drain fuel n' rest) as [[? ?] ?].
Qed.

(** ** Writing: what the queue and the socket hold *)

Definition pushed (es : list node_event) : list (list Z) :=
  omap (λ e, match e with Posted b => Some b | _ => None end) es.

Record write_inv (n : Node) (ps : list (list Z)) : Prop := {
  wi_fifo : n_sent n ++ n_writeQueue n = ps;
  wi_one : n_writing n = [] ∨ (n_writeQueue n ≠ [] ∧ n_writing n = take 1 (n_writeQueue n));
  wi_busy : n_isDisconnect n = false → n_writing n = take 1 (n_writeQueue n);
}.

Lemma write_inv_Disconnect n ps b : write_inv n ps → write_inv (Disconnect b n) ps.
Proof. intros [H1 H2 H3]. unfold Disconnect. destruct (n_isDisconnect n) eqn:E; [by split; rewrite ?E|]. by split; cbn.
Qed.

Lemma write_inv_read n ps c r : write_inv n ps → write_inv (with_read c r n) ps.
Proof. intros [H1 H2 H3]. by split. Qed.

Lemma write_inv_DoReadHeader n ps : write_inv n ps → write_inv (DoReadHeader n) ps.
Proof. intros H. unfold DoReadHeader. case_match; [done|by apply write_inv_read]. Qed.

Lemma write_inv_DoReadBody n ps : write_inv n ps → write_inv (DoReadBody n) ps.
Proof.
  intros H. unfold DoReadBody. case_match; [done|]. case_match; [by apply write_inv_Disconnect|by apply write_inv_read].
Qed.

Lemma write_inv_read_done n ps r : write_inv n ps → write_inv (read_done r n).1 ps.
Proof.
  intros H. unfold read_done. destruct (n_reading n), r; cbn [fst]; try done.
  all: try (apply write_inv_Disconnect; by apply write_inv_read).
  all: repeat case_match; cbn [fst]; try apply write_inv_DoReadHeader; try apply write_inv_DoReadBody; by apply write_inv_read.
Qed.

Lemma write_inv_push n ps b : write_inv n ps → write_inv (push_posted b n) (ps ++ [b]).
Proof.
  intros [H1 H2 H3]. unfold push_posted, DoWrite. case_bool_decide as Eq; cbn [n_isDisconnect with_write].
  - rewrite Eq in *. destruct H2 as [Hw|[? _]]; [|done].
    rewrite app_nil_r in H1. destruct (n_isDisconnect n) eqn:Ed.
    + split; cbn; [by rewrite H1|by left|by rewrite Ed].
    + split; cbn; rewrite ?Hw; [by rewrite H1|by right|done].
  - assert (take 1 (n_writeQueue n ++ [b]) = take 1 (n_writeQueue n)) as Ht by (by destruct (n_writeQueue n)).
    split; cbn.
    + by rewrite <- H1, app_assoc.
    + destruct H2 as [->|[_ ->]]; [by left|right]. split; [by destruct (n_writeQueue n)|by rewrite Ht].
    + intros Hd. by rewrite Ht, H3.
Qed.

Lemma write_inv_done n ps ok : write_inv n ps → write_inv (write_done ok n) ps.
Proof.
  intros [H1 H2 H3]. unfold write_done. destruct (n_writing n) as [|w ws] eqn:Ew; [by split; rewrite ?Ew|].
  destruct H2 as [?|[Hne Hw]]; [done|]. destruct (n_writeQueue n) as [|q qs] eqn:Eq; [done|]. cbn [take] in Hw.
  rewrite take_0 in Hw. injection Hw as -> ->. destruct ok.
  - cbn [with_write n_writeQueue tail]. case_bool_decide as Eqs.
    + rewrite Eqs in *. split; cbn; [by rewrite app_nil_r|by left|done].
    + unfold DoWrite. cbn [n_isDisconnect with_write]. destruct (n_isDisconnect n) eqn:Ed; split; cbn.
      * by rewrite <- app_assoc.
      * by left.
      * by rewrite Ed.
      * by rewrite <- app_assoc.
      * by right.
      * done.
  - unfold Disconnect. cbn [with_write n_isDisconnect]. destruct (n_isDisconnect n) eqn:Ed; split; cbn; try done; try (by left).
    by rewrite Ed.
Qed.

Lemma write_inv_step n ps e :
  write_inv n ps → write_inv (node_step n e).1 (ps ++ pushed [e]).
Proof.
  intros H. destruct e; unfold pushed; cbn [omap list_omap node_step fst]; rewrite ?app_nil_r.
  - by apply write_inv_DoReadHeader.
  - destruct canceled; [done|by apply write_inv_Disconnect].
  - repeat case_match; [done|by apply write_inv_Disconnect|done].
  - by apply write_inv_read_done.
  - by apply write_inv_push.
  - by apply write_inv_done.
  - by apply write_inv_Disconnect.
Qed.

(** ** Properties *)

(** C13 Messages are written in the order in which they were pushed, one at a time.  After any sequence of events what the
    socket has taken followed by the queue is what was pushed; at most one write is outstanding, so that no two buffers
    interleave on the socket; and while the node is connected and something is queued, the front of the queue is being
    written, so that the queue never waits without a write that will resume it. *)
Theorem writes_are_fifo (id nonce : Z) (es : list node_event) :
  let n := (node_run (Node_new id nonce) es).1 in
  n_sent n ++ n_writeQueue n = pushed es ∧ (length (n_writing n) <= 1)%nat ∧
  (n_isDisconnect n = false → n_writing n = take 1 (n_writeQueue n)).
Proof.
  assert (∀ n ps out, write_inv n ps → write_inv (foldl (λ '(n, out) e, let '(n', o) := node_step n e in (n', out ++ o)) (n, out) es).1
            (ps ++ pushed es)) as Hgen.
  { induction es as [|e es IH]; intros n ps out Hn; cbn [foldl]; [by rewrite app_nil_r|].
    pose proof (write_inv_step n ps e Hn) as Hs. destruct (node_step n e) as [n' o]. apply (IH _ _ (out ++ o)) in Hs.
    unfold pushed in *. rewrite <- app_assoc, <- omap_app in Hs. done. }
  intros n. assert (write_inv n (pushed es)) as [H1 H2 H3] by (apply (Hgen _ []); by split; [|left|]). split; [done|]. split; [|done].
  destruct H2 as [->|[_ ->]]; [cbn; lia|]. rewrite length_take. lia.
Qed.

(** C14 The reader hands over every message of the stream, in order, and nothing else: fed the frames of any messages of
    acceptable size, a connected node posts one copy of its buffer per message, which starts with that message and is
    read from the beginning, and waits for the next header.  The buffer is never cut back: each message leaves it longer
    by the size of its body. *)
Theorem messages_arrive_in_order (n : Node) (ms : list net_message) :
  ready n → Forall (λ m, Z.of_nat (length (ser_body m)) <= MAX_PROTOCOL_MESSAGE_LENGTH) ms →
  ∃ n' ps, (∀ fuel, (2 * length ms < fuel)%nat → drain fuel n (ms ≫= frame) = (n', Process <$> ps, [])) ∧ ready n' ∧
    Forall2 (λ m p, (∃ stale, nd_data p = frame m ++ stale) ∧ nd_readPos p = 0 ∧ nd_nVersion p = 0) ms ps ∧
    buffered n' = (buffered n + sum_list ((λ m, length (ser_body m)) <$> ms))%nat.
Proof.
  intros Hn Hms. revert n Hn. induction Hms as [|m ms Hm Hms IH]; intros n Hn.
  - exists n, []. split_and!; [|done|constructor|cbn; lia]. intros [|fuel] Hf; [cbn in Hf; lia|].
    cbn. unfold wanted. by destruct Hn as (-> & _).
  - destruct (drain_message n m (ms ≫= frame) Hn Hm) as (k & n1 & p & Hk & Hr & Hd).
    destruct (IH n1 (rc_ready _ _ _ _ Hr)) as (n' & ps & Hps & Hready & Hall & Hsz). exists n', (p :: ps). split_and!; [|done| |].
    + intros fuel Hf. cbn [length] in Hf. replace fuel with (k + (fuel - k))%nat by lia.
      change ((m :: ms) ≫= frame) with (frame m ++ ms ≫= frame). rewrite Hd, Hps by lia. done.
    + constructor; [|done]. destruct Hr. done.
    + rewrite Hsz, (rc_size _ _ _ _ Hr). cbn [fmap list_fmap sum_list]. unfold sum_list. cbn. lia.
Qed.

Definition sample_node : Node := (node_step (Node_new 1 2) (Connected 0 None None)).1.

Lemma messages_arrive_in_order_witness :
  ∃ n' ps, drain 100 sample_node (frame MVerack ++ frame (MPingPong true 7) ++ []) = (n', Process <$> ps, []) ∧
    buffered n' = 32%nat ∧ length ps = 2%nat.
Proof.
  destruct (messages_arrive_in_order sample_node [MVerack; MPingPong true 7]) as (n' & ps & Hd & _ & Hps & Hb).
  - split_and!; done || (vm_compute; lia).
  - repeat constructor; vm_compute; discriminate.
  - exists n', ps. split_and!; [apply Hd; cbn; lia|rewrite Hb; reflexivity|].
    apply Forall2_length in Hps. by rewrite <- Hps.
Defined.
