(* ===== verification/PeerLogic.v ===== *)
(** * The peer logic: [peer_logic_man.h], [peer_logic_man.cpp]

    [InitialBlockDownloadManager] fetches the block chain of one peer headers
    first, [Miner] starts and feeds the GPU, and [PeerLogicMan] handles the
    messages that the nodes deliver.  The handlers run one after the other on the
    thread of the message worker; [peer] is all they share.  An exception that
    leaves a handler ends that thread's [io_context::run] and with it the
    process: a fault here. *)

From stdpp Require Import base gmap list numbers decidable strings.
From S2P Require Import Prelude Uint256 Serialize Script Tx Block Pow Store Validate Chain NetMessages Node.

Open Scope Z_scope.

(** ** State *)

Record InitialBlockDownloadManager := mk_IBD {
  hashIBDBlocks : gset blob;
  hashSendingGetData : list blob;      (* a deque *)
  hashDownloadingBlock : gset blob;
  isFinish : bool;
  isGetHeaders : bool;
  isFirstHeaders : bool;
}.
Definition IBD_new : InitialBlockDownloadManager := mk_IBD ∅ [] ∅ false false true.

Record peer (db : Type) := mk_peer {
  pl_ibd : InitialBlockDownloadManager;
  pl_chain : chain db;
  pl_nodes : NodeCache;
  pl_out : list (Z * net_message);     (* what was pushed, and to which node *)
  pl_isStarted : bool;                 (* Miner::_isStarted *)
  pl_jobs : nat;                       (* calls of SyncStart posted to the miner's thread *)
}.
Arguments mk_peer {db}. Arguments pl_ibd {db}. Arguments pl_chain {db}. Arguments pl_nodes {db}.
Arguments pl_out {db}. Arguments pl_isStarted {db}. Arguments pl_jobs {db}.

(** ** The monad of the handlers *)

Definition pm (db A : Type) := peer db → res A * peer db.

Section monad.
Context {db : Type}.
Implicit Type w : peer db.

Definition pm_ret {A} (a : A) : pm db A := λ w, (Ok a, w).
Definition pm_fault {A} (f : fault) : pm db A := λ w, (Fault f, w).
Definition pm_bind {A B} (x : pm db A) (f : A → pm db B) : pm db B := λ w,
  match x w with
  | (Ok a, w') => f a w'
  | (Fault e, w') => (Fault e, w')
  end.
Definition pm_gets {A} (f : peer db → A) : pm db A := λ w, (Ok (f w), w).
Definition pm_modify (f : peer db → peer db) : pm db () := λ w, (Ok (), f w).

Definition set_ibd (i : InitialBlockDownloadManager) w : peer db :=
  mk_peer i (pl_chain w) (pl_nodes w) (pl_out w) (pl_isStarted w) (pl_jobs w).
Definition set_nodes (n : NodeCache) w : peer db :=
  mk_peer (pl_ibd w) (pl_chain w) n (pl_out w) (pl_isStarted w) (pl_jobs w).

(** An operation of the block chain, the tips or the pool. *)
Definition pm_chain {A} (x : ch db A) : pm db A := λ w,
  let '(r, c) := x (pl_chain w) in
  (r, mk_peer (pl_ibd w) c (pl_nodes w) (pl_out w) (pl_isStarted w) (pl_jobs w)).
(** [s >> object]. *)
Definition pm_read {A} (r : rd A) (s : NetMessageData) : pm db (A * NetMessageData) := λ w,
  match r s with
  | Done x => (Ok x, w)
  | Thrown e => (Fault (Exn e), w)
  | Indeterminate => (Fault Uninit, w)
  end.
(** [node->PushMessage(msg)] posts [frame msg] to the node. *)
Definition PushMessage (node : Z) (m : net_message) : pm db () :=
  pm_modify (λ w, mk_peer (pl_ibd w) (pl_chain w) (pl_nodes w) (pl_out w ++ [(node, m)]) (pl_isStarted w) (pl_jobs w)).
Definition pm_deref {A} (o : option A) : pm db A :=
  match o with Some a => pm_ret a | None => pm_fault NullDeref end.
End monad.

Declare Scope pm_scope.
Delimit Scope pm_scope with pm.
Notation "'let^' x ':=' c1 'in' c2" := (pm_bind c1 (λ x, c2))
  (at level 10, x name, c1 at level 100, c2 at level 200) : pm_scope.
Open Scope pm_scope.

Section peer.
Context {db : Type} `{LevelDB db}.
Context (p : ParamsBase) (VerifyScript : script_verifier) (fuel : nat).

(** ** [Miner] *)

(** The body of the posted function runs on the miner's own thread. *)
Definition StartGPU : pm db () :=
  let^ started := pm_gets pl_isStarted in
  if (started : bool) then pm_ret ()
  else pm_modify (λ w, mk_peer (pl_ibd w) (pl_chain w) (pl_nodes w) (pl_out w) true (S (pl_jobs w))).

(** ** [InitialBlockDownloadManager] *)

Definition PushGetHeadersMessage (node : Z) : pm db () :=
  let^ tip := pm_chain GetActiveTip in
  let^ tipBlock := pm_deref tip in
  PushMessage node (MGetBlocks (mk_GetBlocks NetMsgType.GETHEADERS GetLocalVersion [bi_hash tipBlock] (blob_null 32))).

(** [for (int i=0; !_hashSendingGetData.empty() && i < 16; ++i)]. *)
Fixpoint getdata_loop (n : nat) (sending : list blob) (downloading : gset blob) (invs : list Inv) :
    list blob * gset blob * list Inv :=
  match n, sending with
  | S n', hash :: sending' => getdata_loop n' sending' ({[hash]} ∪ downloading) (invs ++ [mk_Inv MSG_WITNESS_BLOCK hash])
  | _, _ => (sending, downloading, invs)
  end.

Definition PushGetDataMessage (node : Z) : pm db () :=
  let^ i := pm_gets pl_ibd in
  let '(sending, downloading, invs) := getdata_loop 16 (hashSendingGetData i) (hashDownloadingBlock i) [] in
  let^ _ := pm_modify (set_ibd (mk_IBD (hashIBDBlocks i) sending downloading (isFinish i) (isGetHeaders i) (isFirstHeaders i))) in
  if bool_decide (invs = []) then pm_ret () else PushMessage node (MInvs NetMsgType.GETDATA invs).

(** The callback that [PeerLogicMan] installs starts the miner; the message that
    is logged first reads the tip. *)
Definition IBDComplete : pm db () :=
  let^ tip := pm_chain GetActiveTip in
  let^ _ := pm_deref tip in
  StartGPU.

Definition Run (node : Z) : pm db () :=
  let^ tip := pm_chain GetActiveTip in
  let^ _ := pm_deref tip in
  PushGetHeadersMessage node.

Definition modify_ibd (f : InitialBlockDownloadManager → InitialBlockDownloadManager) : pm db () :=
  pm_modify (λ w, set_ibd (f (pl_ibd w)) w).

(** [_hashIBDBlocks.insert(hash); _hashSendingGetData.push_back(hash);] *)
Definition save_header (i : InitialBlockDownloadManager) (header : BlockHeader) : InitialBlockDownloadManager :=
  let hash := header_GetHash true header in
  mk_IBD ({[hash]} ∪ hashIBDBlocks i) (hashSendingGetData i ++ [hash]) (hashDownloadingBlock i)
    (isFinish i) (isGetHeaders i) (isFirstHeaders i).

(** [Headers] after [s >> headers]. *)
Definition Headers_read (node : Z) (headers : list BlockHeader) : pm db bool :=
  if bool_decide (headers = []) then
    let^ _ := modify_ibd (λ i, mk_IBD (hashIBDBlocks i) (hashSendingGetData i) (hashDownloadingBlock i)
                                 (isFinish i) true (isFirstHeaders i)) in
    let^ first := pm_gets (λ w, isFirstHeaders (pl_ibd w)) in
    let^ _ := (if (first : bool) then
                 let^ _ := IBDComplete in
                 modify_ibd (λ i, mk_IBD (hashIBDBlocks i) (hashSendingGetData i) (hashDownloadingBlock i)
                                    true (isGetHeaders i) (isFirstHeaders i))
               else pm_ret ()) in
    pm_ret true
  else
    let^ _ := modify_ibd (λ i, foldl save_header
                (mk_IBD (hashIBDBlocks i) (hashSendingGetData i) (hashDownloadingBlock i)
                   (isFinish i) (isGetHeaders i) false) headers) in
    let^ _ := PushGetDataMessage node in
    let^ _ := (if (length headers <? 2000)%nat
               then modify_ibd (λ i, mk_IBD (hashIBDBlocks i) (hashSendingGetData i) (hashDownloadingBlock i)
                                       (isFinish i) true (isFirstHeaders i))
               else PushGetHeadersMessage node) in
    pm_ret false.

Definition Headers (node : Z) (s : NetMessageData) : pm db bool :=
  let^ fin := pm_gets (λ w, isFinish (pl_ibd w)) in
  if (fin : bool) then pm_ret true
  else
    let^ r := pm_read unser_headers s in
    Headers_read node r.1.

(** [Blocks] after [s >> block]. *)
Definition Blocks_read (node : Z) (block : Block) : pm db bool :=
  let hash := block_GetHash block in
  let^ i := pm_gets pl_ibd in
  if negb (bool_decide (hash ∈ hashIBDBlocks i)) then pm_ret false
  else
    let^ ok := pm_chain (AcceptBlock p VerifyScript fuel block false) in
    if negb ok then pm_ret false
    else
      let^ _ := modify_ibd (λ i, mk_IBD (hashIBDBlocks i ∖ {[hash]}) (hashSendingGetData i) (hashDownloadingBlock i ∖ {[hash]})
                                   (isFinish i) (isGetHeaders i) (isFirstHeaders i)) in
      let^ i := pm_gets pl_ibd in
      let^ _ := (if isGetHeaders i && bool_decide (hashIBDBlocks i = ∅) then
                   let^ _ := modify_ibd (λ i, mk_IBD (hashIBDBlocks i) (hashSendingGetData i) (hashDownloadingBlock i)
                                                true (isGetHeaders i) (isFirstHeaders i)) in
                   IBDComplete
                 else if bool_decide (hashDownloadingBlock i = ∅) then PushGetDataMessage node
                 else pm_ret ()) in
      pm_ret false.

Definition Blocks (node : Z) (s : NetMessageData) : pm db bool :=
  let^ fin := pm_gets (λ w, isFinish (pl_ibd w)) in
  if (fin : bool) then pm_ret true
  else
    let^ r := pm_read (unser_block Block_null) s in
    Blocks_read node r.1.

(** ** [PeerLogicMan::ProcessMessageHandler] *)

(** Announced transactions and blocks are asked for with their witnesses; other
    types are asked for as they are. *)
Definition request_inv (inv : Inv) : Inv :=
  if IsGenTxMsg inv then mk_Inv MSG_WITNESS_TX (inv_hash inv)
  else if IsGenBlkMsg inv then mk_Inv MSG_WITNESS_BLOCK (inv_hash inv)
  else inv.

Definition handle_version (node : Node) (s : NetMessageData) : pm db () :=
  let^ r := pm_read (unser_Version (n_version node)) s in
  let^ _ := pm_modify (λ w, set_nodes (PushNode (set_version r.1 node) (pl_nodes w)) w) in
  let^ _ := PushMessage (n_id node) MVerack in
  pm_modify (λ w, set_nodes (PushNode (SetHandshakeOK true (set_version r.1 node)) (pl_nodes w)) w).

Definition handle_inv (node : Node) (s : NetMessageData) : pm db () :=
  let^ fin := pm_gets (λ w, isFinish (pl_ibd w)) in
  if negb fin then pm_ret ()
  else
    let^ r := pm_read (unser_vec (A := Inv) sizeof_Inv) s in
    if Z.of_nat (length r.1) >? MAX_INV_SIZE
    then pm_modify (λ w, set_nodes (RemoveNode (Disconnect true node) (pl_nodes w)) w)
    else PushMessage (n_id node) (MInvs NetMsgType.GETDATA (request_inv <$> r.1)).

Definition handle_tx (s : NetMessageData) : pm db () :=
  let^ fin := pm_gets (λ w, isFinish (pl_ibd w)) in
  if negb fin then pm_ret ()
  else
    let^ r := pm_read (unser_tx tx_default) s in
    let^ _ := pm_chain (AcceptTx p VerifyScript r.1) in
    pm_ret ().

Definition handle_headers (node : Node) (s : NetMessageData) : pm db () :=
  let^ _ := Headers (n_id node) s in
  pm_ret ().

(** After the download a block is read again from the start of the body. *)
Definition handle_block (node : Node) (s : NetMessageData) : pm db () :=
  let^ done := Blocks (n_id node) s in
  if negb done then pm_ret ()
  else
    let^ r := pm_read (unser_block Block_null) (nd_ResetBodyPos s) in
    let^ _ := pm_chain (AcceptBlock p VerifyScript fuel r.1 false) in
    pm_ret ().

(** The command, up to its first zero byte: no command of the table has twelve
    characters, so that an unterminated one matches none of them. *)
Definition dispatch (node : Node) (command : list Z) (s : NetMessageData) : pm db () :=
  if bool_decide (command = NetMsgType.VERSION) then handle_version node s
  else if bool_decide (command = NetMsgType.VERACK) then Run (n_id node)
  else if bool_decide (command = NetMsgType.ADDR) then
    let^ _ := pm_read (unser_body (MAddrs [])) s in pm_ret ()
  else if bool_decide (command = NetMsgType.REJECT) then
    let^ _ := pm_read (unser_Reject (mk_Reject [] 0 [] (blob_null 32))) s in pm_ret ()
  else if bool_decide (command = NetMsgType.INV) then handle_inv node s
  else if bool_decide (command = NetMsgType.PING) then
    let^ r := pm_read unser_PingPong s in PushMessage (n_id node) (SwitchPing false (MPingPong true r.1))
  else if bool_decide (command = NetMsgType.TX) then handle_tx s
  else if bool_decide (command = NetMsgType.HEADERS) then handle_headers node s
  else if bool_decide (command = NetMsgType.BLOCK) then handle_block node s
  else pm_ret ().

Definition ProcessMessageHandler (id : Z) (s : NetMessageData) : pm db () :=
  let^ nodes := pm_gets pl_nodes in
  match GetNode id nodes with
  | None => pm_ret ()
  | Some pFromNode =>
      let^ r := pm_read (unser_MessageHeader (mk_MessageHeader [] [] 0 [])) s in
      dispatch pFromNode (until_nul 12 (mh_command r.1)) r.2
  end.

(** The messages that the worker thread takes from its queue, one by one. *)
Fixpoint process_all (msgs : list (Z * NetMessageData)) : pm db () :=
  match msgs with
  | [] => pm_ret ()
  | (id, s) :: msgs => let^ _ := ProcessMessageHandler id s in process_all msgs
  end.

(** ** [Miner]: the CPU loop and the callbacks of the GPU *)

Definition broadcast (m : net_message) : pm db () :=
  pm_modify (λ w, mk_peer (pl_ibd w) (pl_chain w) (pl_nodes w)
    (pl_out w ++ ((λ id, (id, m)) <$> (map_to_list (pl_nodes w)).*1)) (pl_isStarted w) (pl_jobs w)).

(** [ResetMining]: the flags of both miners, one flag of the chain state. *)
Definition ResetMining : pm db () := pm_chain (λ c, (Ok (), with_reset c)).

(** The found block is accepted and sent to every node, or dropped. *)
Definition accept_mined (block : Block) : pm db () :=
  let^ ok := pm_chain (AcceptBlock p VerifyScript fuel block false) in
  if (ok : bool) then broadcast (MBlock block) else pm_ret ().

(** The result and the block with its next nonce. *)
Definition DoMiner (block : Block) : pm db (bool * Block) :=
  if hd_nNonce (blk_hd block) =? 2 ^ 32 - 1 then pm_ret (false, block)
  else if CheckProofOfWork p (block_GetHash block) (hd_nBits (blk_hd block)) then
    let^ _ := accept_mined block in
    let^ _ := ResetMining in
    pm_ret (true, block)
  else pm_ret (false, set_block_nonce (hd_nNonce (blk_hd block) + 1) block).

(** [StartCPU] returns before it does anything. *)
Definition StartCPU : pm db () := pm_ret ().

(** The function that fetches a block to mine: a template on the active tip, whose
    previous hash is remembered. *)
Definition fetch_block (now : Z) (garbage : list Z) (minerAddress : CScript) : pm db Block :=
  let^ block := pm_chain (CreateNewBlock p fuel now garbage minerAddress) in
  let^ _ := pm_chain (λ c, (Ok (), mk_chain (c_blocks c) (c_index c) (c_txIndex c) (c_utxo c) (c_tipMap c) (c_pool c)
    (c_orphanPool c) (c_miningPool c) (c_orphanBlocks c) (hd_hashPrevBlock (blk_hd block)) (c_resetMining c))) in
  pm_ret block.
End peer.
