(* ===== verification/PeerProps.v ===== *)
(** * The download of the block chain and the start of mining

    Properties of [PeerLogic]: what every run of the message handler preserves,
    that mining waits for the announced blocks, that the download from a peer
    that answers completes, and where it stalls. *)

From stdpp Require Import base gmap list numbers decidable strings.
From S2P Require Import Prelude Uint256 Serialize Script Tx Block Pow Store Validate Chain Known ChainProps NetMessages Node PeerLogic.

Open Scope Z_scope.
Open Scope pm_scope.

Section generic.
Context {db : Type} `{LevelDBLaws db}.
Context (p : ParamsBase) (VerifyScript : script_verifier) (fuel : nat).
Implicit Types w : peer db.

Lemma pm_bind_Ok {A B} (x : pm db A) (f : A → pm db B) w b w' :
  pm_bind x f w = (Ok b, w') ↔ ∃ a w1, x w = (Ok a, w1) ∧ f a w1 = (Ok b, w').
Proof. unfold pm_bind. destruct (x w) as [[a|e] w1]; split; naive_solver. Qed.

(** ** Predicates that a program preserves *)

Definition pres (I : peer db → Prop) {A} (x : pm db A) : Prop := ∀ w a w', I w → x w = (Ok a, w') → I w'.

(** What changes neither the download nor the miner, and lets the chain grow. *)
Definition neutral w w' : Prop :=
  pl_ibd w' = pl_ibd w ∧ pl_isStarted w' = pl_isStarted w ∧ pl_jobs w' = pl_jobs w ∧ grows (pl_chain w) (pl_chain w').
Definition stable (I : peer db → Prop) : Prop := ∀ w w', I w → neutral w w' → I w'.

#[global] Instance neutral_refl : Reflexive neutral.
Proof. by intros w. Qed.
#[global] Instance neutral_trans : Transitive neutral.
Proof. intros w1 w2 w3 (?&?&?&?) (?&?&?&?). split_and!; [congruence..|by etrans]. Qed.

Definition is_neutral {A} (x : pm db A) : Prop := ∀ w a w', x w = (Ok a, w') → neutral w w'.

Lemma neutral_pres I {A} (x : pm db A) : stable I → is_neutral x → pres I x.
Proof. intros Hs Hx w a w' Hw Hr. eapply Hs, Hx, Hr. done. Qed.

Lemma pres_bind I {A B} (x : pm db A) (f : A → pm db B) : pres I x → (∀ a, pres I (f a)) → pres I (pm_bind x f).
Proof. intros Hx Hf w b w' Hw (a & w1 & H1 & H2)%pm_bind_Ok. eapply Hf, H2. by eapply Hx. Qed.

Lemma neutral_bind {A B} (x : pm db A) (f : A → pm db B) :
  is_neutral x → (∀ a, is_neutral (f a)) → is_neutral (pm_bind x f).
Proof. intros Hx Hf w b w' (a & w1 & H1 & H2)%pm_bind_Ok. etrans; [by eapply Hx|by eapply Hf]. Qed.
Lemma neutral_ret {A} (a : A) : is_neutral (pm_ret a).
Proof. by intros w b w' [= _ <-]. Qed.
Lemma neutral_gets {A} (f : peer db → A) : is_neutral (pm_gets f).
Proof. by intros w b w' [= _ <-]. Qed.
Lemma neutral_deref {A} (o : option A) : is_neutral (pm_deref (db := db) o).
Proof. destruct o; [apply neutral_ret|by intros w a w' [=]]. Qed.
Lemma neutral_read {A} (r : rd A) s : is_neutral (pm_read r s).
Proof. intros w a w'. unfold pm_read. destruct (r s); [by intros [= _ <-]|by intros [=]..]. Qed.
Lemma neutral_push node m : is_neutral (PushMessage node m).
Proof. by intros w a w' [= _ <-]. Qed.
Lemma neutral_nodes f : is_neutral (pm_modify (λ w, set_nodes (f w) w)).
Proof. by intros w a w' [= _ <-]. Qed.
Lemma neutral_chain {A} (x : ch db A) : keeps grows x → is_neutral (pm_chain x).
Proof.
  intros Hx w a w'. unfold pm_chain. specialize (Hx (pl_chain w)). destruct (x (pl_chain w)) as [r c].
  intros [= -> <-]. by split_and!.
Qed.
End generic.

Create HintDb neutral.
#[export] Hint Resolve neutral_bind neutral_ret neutral_gets neutral_deref neutral_read neutral_push neutral_nodes : neutral.

(** The requests for a queue of hashes, sixteen at a time. *)
Fixpoint batches (fuel : nat) (l : list blob) : list (list blob) :=
  match fuel, l with
  | S fuel', _ :: _ => take 16 l :: batches fuel' (drop 16 l)
  | _, _ => []
  end.

Lemma batches_enough n m l : (length l <= n)%nat → (length l <= m)%nat → batches n l = batches m l.
Proof.
  revert m l. induction n as [|n IH]; intros [|m] [|x l] Hn Hm; cbn [length] in *; try done; try lia.
  cbn [batches]. f_equal. apply IH; rewrite length_drop; cbn [length]; lia.
Qed.

Section handler.
Context {db : Type} `{LevelDBLaws db}.
Context (p : ParamsBase) (VerifyScript : script_verifier) (fuel : nat).
Implicit Types w : peer db.

Ltac neutral := repeat match goal with
  | |- is_neutral (pm_bind _ _) => apply neutral_bind; [|intros ?]
  | |- is_neutral (if ?b then _ else _) => destruct b
  | |- is_neutral (pm_chain _) => apply neutral_chain;
      first [apply GetActiveTip_grows | apply AcceptTx_grows | apply AcceptBlock_grows]
  | |- is_neutral _ => solve [auto with neutral]
  end.

Lemma PushGetHeadersMessage_neutral node : is_neutral (PushGetHeadersMessage (db := db) node).
Proof. unfold PushGetHeadersMessage. neutral. Qed.
Lemma Run_neutral node : is_neutral (Run (db := db) node).
Proof. unfold Run. neutral. apply PushGetHeadersMessage_neutral. Qed.

(** A predicate that only [Headers] and [Blocks] could break, and do not, holds
    throughout. *)
Lemma process_all_pres (I : peer db → Prop) msgs :
  stable I →
  (∀ node hs w a w', I w → isFinish (pl_ibd w) = false → Headers_read node hs w = (Ok a, w') → I w') →
  (∀ node b w a w', I w → isFinish (pl_ibd w) = false → Blocks_read p VerifyScript fuel node b w = (Ok a, w') → I w') →
  pres I (process_all p VerifyScript fuel msgs).
Proof.
  intros Hs Hh Hb.
  assert (∀ node s, pres I (Headers (db := db) node s)) as HH.
  { intros node s w a w' Hw. unfold Headers, pm_bind at 1, pm_gets at 1. destruct (isFinish (pl_ibd w)) eqn:E.
    - intros [= _ <-]. done.
    - intros (r & w1 & H1 & H2)%pm_bind_Ok. assert (w1 = w) as ->.
      { unfold pm_read in H1. by destruct (unser_headers s); simplify_eq. }
      by eapply Hh. }
  assert (∀ node s, pres I (Blocks (db := db) p VerifyScript fuel node s)) as HB.
  { intros node s w a w' Hw. unfold Blocks, pm_bind at 1, pm_gets at 1. destruct (isFinish (pl_ibd w)) eqn:E.
    - intros [= _ <-]. done.
    - intros (r & w1 & H1 & H2)%pm_bind_Ok. assert (w1 = w) as ->.
      { unfold pm_read in H1. by destruct (unser_block _ s); simplify_eq. }
      by eapply Hb. }
  assert (∀ A (x : pm db A), is_neutral x → pres I x) as HN by (intros; by apply neutral_pres).
  induction msgs as [|[id s] msgs IH]; cbn [process_all]; [apply HN, neutral_ret|].
  apply pres_bind; [|by intros _]. unfold ProcessMessageHandler. apply pres_bind; [apply HN, neutral_gets|]. intros nodes.
  destruct (GetNode id nodes) as [n|]; [|apply HN, neutral_ret]. apply pres_bind; [apply HN, neutral_read|]. intros [hdr s'].
  unfold dispatch. cbn [fst snd].
  repeat match goal with |- pres _ (if bool_decide ?P then _ else _) => destruct (bool_decide P) end.
  - apply HN. unfold handle_version. neutral.
  - apply HN, Run_neutral.
  - apply HN. neutral.
  - apply HN. neutral.
  - apply HN. unfold handle_inv. neutral.
  - apply HN. neutral.
  - apply HN. unfold handle_tx. neutral.
  - unfold handle_headers. apply pres_bind; [apply HH|]. intros _. apply HN, neutral_ret.
  - unfold handle_block. apply pres_bind; [apply HB|]. intros [|]; cbn [negb]; apply HN; neutral.
  - apply HN, neutral_ret.
Qed.

(** ** The state of the download *)

Record sync_inv w : Prop := {
  si_started : pl_isStarted w = true → isFinish (pl_ibd w) = true;
  si_jobs : pl_jobs w = if pl_isStarted w then 1%nat else 0%nat;
  si_finish : isFinish (pl_ibd w) = true → hashIBDBlocks (pl_ibd w) = ∅;
  si_first : isFirstHeaders (pl_ibd w) = true → hashIBDBlocks (pl_ibd w) = ∅;
  si_asked : ∀ h, h ∈ hashIBDBlocks (pl_ibd w) →
    h ∈ hashSendingGetData (pl_ibd w) ∨ h ∈ hashDownloadingBlock (pl_ibd w);
}.

Lemma sync_inv_stable : stable sync_inv.
Proof. intros w w' [? ? ? ? ?] (E1 & E2 & E3 & _). by split; rewrite ?E1, ?E2, ?E3. Qed.

Lemma getdata_loop_spec n sending dl invs :
  getdata_loop n sending dl invs =
  (drop n sending, list_to_set (take n sending) ∪ dl, invs ++ (mk_Inv MSG_WITNESS_BLOCK <$> take n sending)).
Proof.
  revert sending dl invs. induction n as [|n IH]; intros [|h l] dl invs; cbn [getdata_loop take drop fmap list_fmap list_to_set];
    rewrite ?app_nil_r, ?union_empty_l_L; [done..|].
  rewrite IH, <- app_assoc. f_equal. f_equal. rewrite (union_comm_L {[h]} (list_to_set (take n l))). by rewrite union_assoc_L.
Qed.

(** [PushGetDataMessage]: the next sixteen. *)
Definition asked_next (node : Z) (w : peer db) : peer db :=
  let i := pl_ibd w in let next := take 16 (hashSendingGetData i) in
  mk_peer (mk_IBD (hashIBDBlocks i) (drop 16 (hashSendingGetData i)) (list_to_set next ∪ hashDownloadingBlock i)
             (isFinish i) (isGetHeaders i) (isFirstHeaders i))
    (pl_chain w) (pl_nodes w)
    (pl_out w ++ (if bool_decide (next = []) then [] else [(node, MInvs NetMsgType.GETDATA (mk_Inv MSG_WITNESS_BLOCK <$> next))]))
    (pl_isStarted w) (pl_jobs w).

Lemma PushGetDataMessage_eq node w : PushGetDataMessage node w = (Ok (), asked_next node w).
Proof.
  unfold PushGetDataMessage, pm_bind at 1, pm_gets at 1, asked_next. rewrite getdata_loop_spec. unfold pm_bind, pm_modify. cbn [app].
  destruct (take 16 _) as [|h l]; cbn [fmap list_fmap]; rewrite bool_decide_decide; [|done].
  rewrite app_nil_r. reflexivity.
Qed.

Lemma PushGetDataMessage_Ok node w a w' : PushGetDataMessage node w = (Ok a, w') → w' = asked_next node w.
Proof. rewrite PushGetDataMessage_eq. by intros [= _ <-]. Qed.

Lemma sync_inv_getdata node w a w' : sync_inv w → PushGetDataMessage node w = (Ok a, w') → sync_inv w'.
Proof.
  intros [H1 H2 H3 H4 H5] ->%PushGetDataMessage_Ok. split; cbn; try done.
  intros h Hh. destruct (H5 h Hh) as [Hs|Hd]; [|right; set_solver].
  rewrite <- (take_drop 16 (hashSendingGetData _)), elem_of_app in Hs. destruct Hs; [right|left; done].
  apply elem_of_union_l, elem_of_list_to_set. done.
Qed.

Lemma IBDComplete_Ok w a w' :
  IBDComplete w = (Ok a, w') →
  pl_ibd w' = pl_ibd w ∧ pl_isStarted w' = true ∧ pl_jobs w' = (if pl_isStarted w then pl_jobs w else S (pl_jobs w)) ∧
  grows (pl_chain w) (pl_chain w') ∧ pl_out w' = pl_out w ∧ pl_nodes w' = pl_nodes w.
Proof.
  unfold IBDComplete, pm_bind at 1, pm_chain. pose proof (GetActiveTip_grows (pl_chain w)) as Hg.
  destruct (GetActiveTip (pl_chain w)) as [[tip|e] c]; [|intros [=]]. cbn [snd] in Hg.
  destruct tip as [t|]; [|intros [=]]. cbn [pm_deref]. unfold pm_bind, pm_ret, StartGPU, pm_gets, pm_modify. cbn.
  destruct (pl_isStarted w) eqn:E; intros [= _ <-]; cbn; by rewrite ?E.
Qed.

Abbreviation hashes hs := (header_GetHash true <$> hs).

Lemma save_headers i hs :
  foldl save_header i hs =
  mk_IBD (list_to_set (hashes hs) ∪ hashIBDBlocks i) (hashSendingGetData i ++ hashes hs) (hashDownloadingBlock i)
    (isFinish i) (isGetHeaders i) (isFirstHeaders i).
Proof.
  revert i. induction hs as [|hd hs IH]; intros i; cbn [foldl fmap list_fmap list_to_set].
  - rewrite union_empty_l_L, app_nil_r. by destruct i.
  - rewrite IH. unfold save_header. cbn [hashIBDBlocks hashSendingGetData hashDownloadingBlock isFinish isGetHeaders isFirstHeaders].
    rewrite <- app_assoc. f_equal. rewrite (union_comm_L {[_]} (list_to_set _)), union_assoc_L. done.
Qed.

(** The empty reply. *)
Lemma Headers_read_nil node w a w' :
  Headers_read node [] w = (Ok a, w') →
  let i := pl_ibd w in
  pl_ibd w' = mk_IBD (hashIBDBlocks i) (hashSendingGetData i) (hashDownloadingBlock i)
                (isFinish i || isFirstHeaders i) true (isFirstHeaders i) ∧
  pl_isStarted w' = pl_isStarted w || isFirstHeaders i ∧
  pl_jobs w' = (if isFirstHeaders i && negb (pl_isStarted w) then S (pl_jobs w) else pl_jobs w) ∧
  grows (pl_chain w) (pl_chain w') ∧ pl_out w' = pl_out w.
Proof.
  unfold Headers_read. rewrite bool_decide_eq_true_2 by done. unfold modify_ibd, pm_bind at 1 2, pm_modify at 1, pm_gets at 1.
  cbn [pl_ibd set_ibd isFirstHeaders]. destruct (isFirstHeaders (pl_ibd w)) eqn:Ef.
  - intros (u & w1 & H1 & H2)%pm_bind_Ok. injection H2 as _ <-. apply pm_bind_Ok in H1 as (u' & w2 & H1 & H2).
    apply IBDComplete_Ok in H1 as (E1 & E2 & E3 & Hg & E4 & _). injection H2 as _ <-. cbn in *. rewrite E1, E2, E3, E4. cbn.
    rewrite !orb_true_r. by destruct (pl_isStarted w).
  - intros [= _ <-]. cbn. by rewrite !orb_false_r.
Qed.

(** Headers: they are recorded, and the first of the queue are asked for. *)
Lemma Headers_read_cons node hs w a w' :
  hs ≠ [] → Headers_read node hs w = (Ok a, w') →
  let i := pl_ibd w in let queue := hashSendingGetData i ++ hashes hs in
  pl_ibd w' = mk_IBD (list_to_set (hashes hs) ∪ hashIBDBlocks i) (drop 16 queue)
                (list_to_set (take 16 queue) ∪ hashDownloadingBlock i) (isFinish i)
                (isGetHeaders i || (length hs <? 2000)%nat) false ∧
  pl_isStarted w' = pl_isStarted w ∧ pl_jobs w' = pl_jobs w ∧ grows (pl_chain w) (pl_chain w') ∧
  ((length hs < 2000)%nat → pl_chain w' = pl_chain w ∧
     pl_out w' = pl_out w ++ [(node, MInvs NetMsgType.GETDATA (mk_Inv MSG_WITNESS_BLOCK <$> take 16 queue))]).
Proof.
  intros Hne. unfold Headers_read. rewrite bool_decide_eq_false_2 by done.
  unfold modify_ibd at 1, pm_bind at 1, pm_modify at 1. rewrite save_headers.
  intros (u & w1 & ->%PushGetDataMessage_Ok & H2)%pm_bind_Ok. unfold asked_next in H2. cbn [pl_ibd set_ibd hashIBDBlocks hashSendingGetData
    hashDownloadingBlock isFinish isGetHeaders isFirstHeaders pl_chain pl_nodes pl_out pl_isStarted pl_jobs] in H2.
  set (queue := hashSendingGetData (pl_ibd w) ++ hashes hs) in *.
  assert (take 16 queue ≠ []) as Hq by (subst queue; destruct hs; [done|]; by destruct (hashSendingGetData _)).
  rewrite (bool_decide_eq_false_2 _ Hq) in H2. apply pm_bind_Ok in H2 as (u' & w2 & H2 & H3). injection H3 as _ <-.
  destruct (Nat.ltb_spec (length hs) 2000).
  - injection H2 as _ <-. cbn. by rewrite orb_true_r.
  - destruct (PushGetHeadersMessage_neutral node _ _ _ H2) as (E1 & E2 & E3 & Hg). cbn in *. rewrite E1, E2, E3, orb_false_r.
    split_and!; try done. intros. lia.
Qed.

(** The state in which an accepted block was crossed off. *)
Definition crossed_off (h : blob) (c : chain db) (fin : bool) (w : peer db) : peer db :=
  let i := pl_ibd w in
  mk_peer (mk_IBD (hashIBDBlocks i ∖ {[h]}) (hashSendingGetData i) (hashDownloadingBlock i ∖ {[h]}) (isFinish i || fin)
             (isGetHeaders i) (isFirstHeaders i)) c (pl_nodes w) (pl_out w) (pl_isStarted w) (pl_jobs w).

Lemma Blocks_read_Ok node b w a w' :
  Blocks_read p VerifyScript fuel node b w = (Ok a, w') →
  let h := block_GetHash b in let i := pl_ibd w in
  ((h ∉ hashIBDBlocks i) ∧ w' = w) ∨
  (h ∈ hashIBDBlocks i ∧ ∃ (ok : bool) c, AcceptBlock p VerifyScript fuel b false (pl_chain w) = (Ok ok, c) ∧
    if ok then
      if isGetHeaders i && bool_decide (hashIBDBlocks i ∖ {[h]} = ∅) then IBDComplete (crossed_off h c true w) = (Ok (), w')
      else if bool_decide (hashDownloadingBlock i ∖ {[h]} = ∅) then PushGetDataMessage node (crossed_off h c false w) = (Ok (), w')
      else w' = crossed_off h c false w
    else w' = mk_peer i c (pl_nodes w) (pl_out w) (pl_isStarted w) (pl_jobs w)).
Proof.
  cbn zeta. unfold Blocks_read. generalize (block_GetHash b). intros h. unfold pm_bind at 1, pm_gets at 1.
  case_bool_decide as Hh; cbn [negb]; [|intros [= _ <-]; by left]. intros (ok & w1 & H1 & H2)%pm_bind_Ok. right.
  split; [done|]. unfold pm_chain in H1. destruct (AcceptBlock _ _ _ _ _ _) as [r c]. injection H1 as -> <-.
  exists ok, c. split; [done|]. destruct ok; cbn [negb] in H2; [|by injection H2 as _ <-].
  unfold modify_ibd at 1, pm_bind at 1 2, pm_modify at 1, pm_gets at 1 in H2.
  cbn [pl_ibd set_ibd hashIBDBlocks hashDownloadingBlock isGetHeaders] in H2. apply pm_bind_Ok in H2 as (u & w2 & H2 & H3).
  injection H3 as _ <-. destruct u. unfold crossed_off. rewrite orb_true_r, orb_false_r.
  destruct (isGetHeaders (pl_ibd w) && _); [exact H2|]. destruct (bool_decide _); [exact H2|]. by injection H2 as <-.
Qed.

Lemma sync_inv_crossed_off h c fin w :
  sync_inv w → pl_isStarted w = false → (fin = true → hashIBDBlocks (pl_ibd w) ∖ {[h]} = ∅) → sync_inv (crossed_off h c fin w).
Proof.
  intros [H1 H2 H3 H4 H5] Hst Hfin. split; cbn; rewrite ?Hst; try done.
  - by rewrite H2, Hst.
  - intros [Hf|Hf]%orb_true_iff; [by rewrite (H3 Hf), empty_difference_L|auto].
  - intros Hf. by rewrite (H4 Hf), empty_difference_L.
  - intros x [Hx Hne]%elem_of_difference. destruct (H5 x Hx); [by left|right; set_solver].
Qed.

(** ** What is announced stays outstanding until the chain knows it *)

Section announced.
Context (announced : gset blob).

Definition tracked (w : peer db) : Prop :=
  sync_inv w ∧ ∀ h, h ∈ announced → h ∈ hashIBDBlocks (pl_ibd w) ∨ known (pl_chain w) h.

Lemma tracked_stable : stable tracked.
Proof.
  intros w w' [Hs Ha] Hn. split; [by eapply sync_inv_stable|]. destruct Hn as (E & _ & _ & Hg). intros h Hh.
  rewrite E. destruct (Ha h Hh); [by left|right]. by eapply grows_known.
Qed.

Lemma tracked_Headers node hs w a w' :
  tracked w → isFinish (pl_ibd w) = false → Headers_read node hs w = (Ok a, w') → tracked w'.
Proof.
  intros [[H1 H2 H3 H4 H5] Ha] Hfin Hr. assert (pl_isStarted w = false) as Hst.
  { apply not_true_iff_false. intros ?%H1. congruence. }
  destruct (decide (hs = [])) as [->|Hne].
  - destruct (Headers_read_nil _ _ _ _ Hr) as (E1 & E2 & E3 & Hg & _). rewrite Hst, Hfin in *. cbn [orb negb andb] in *.
    split; [|intros h Hh; rewrite E1; destruct (Ha h Hh); [by left|right; by eapply grows_known]].
    split; rewrite ?E1, ?E2, ?E3, ?H2; cbn; try done. by destruct (isFirstHeaders (pl_ibd w)).
  - destruct (Headers_read_cons _ _ _ _ _ Hne Hr) as (E1 & E2 & E3 & Hg & _). rewrite Hst, Hfin in *.
    split.
    + split; rewrite ?E1, ?E2, ?E3; cbn; try done. intros h [Hh|Hh]%elem_of_union.
      * apply elem_of_list_to_set in Hh. assert (h ∈ hashSendingGetData (pl_ibd w) ++ hashes hs) as Hq by (apply elem_of_app; by right).
        rewrite <- (take_drop 16), elem_of_app in Hq. destruct Hq; [right; apply elem_of_union_l; by apply elem_of_list_to_set|by left].
      * destruct (H5 h Hh) as [Hq|Hq]; [|right; by apply elem_of_union_r].
        assert (h ∈ hashSendingGetData (pl_ibd w) ++ hashes hs) as Hq' by (apply elem_of_app; by left).
        rewrite <- (take_drop 16), elem_of_app in Hq'. destruct Hq'; [right; apply elem_of_union_l; by apply elem_of_list_to_set|by left].
    + intros h Hh. rewrite E1. cbn. destruct (Ha h Hh); [left; by apply elem_of_union_r|right; by eapply grows_known].
Qed.

Lemma tracked_Blocks node b w a w' :
  tracked w → isFinish (pl_ibd w) = false → Blocks_read p VerifyScript fuel node b w = (Ok a, w') → tracked w'.
Proof.
  intros [Hs Ha] Hfin Hr. assert (pl_isStarted w = false) as Hst.
  { apply not_true_iff_false. intros ?%(si_started _ Hs). congruence. }
  destruct (Blocks_read_Ok _ _ _ _ _ Hr) as [[_ ->]|(Hh & ok & c & Hacc & Hok)]; [done|].
  pose proof (AcceptBlock_grows p VerifyScript fuel b false (pl_chain w)) as Hg. rewrite Hacc in Hg. cbn [snd] in Hg.
  destruct ok.
  2: { subst w'. eapply tracked_stable; [by split|]. by split_and!. }
  assert (∀ fin, (fin = true → hashIBDBlocks (pl_ibd w) ∖ {[block_GetHash b]} = ∅) → tracked (crossed_off (block_GetHash b) c fin w)) as Hoff.
  { intros fin Hf. split; [by apply sync_inv_crossed_off|]. apply AcceptBlock_known in Hacc. revert Hacc. clear Hf.
    generalize (block_GetHash b). intros hb Hkn h Hin. cbn [pl_ibd crossed_off hashIBDBlocks pl_chain].
    destruct (decide (h = hb)) as [->|Hne]; [by right|]. destruct (Ha h Hin); [left; set_solver|right; by eapply grows_known]. }
  destruct (isGetHeaders (pl_ibd w) && _) eqn:Ef.
  - apply andb_prop in Ef as [_ Ef%bool_decide_eq_true]. destruct (Hoff true ltac:(done)) as [[S1 S2 S3 S4 S5] Ha'].
    apply IBDComplete_Ok in Hok as (E1 & E2 & E3 & Hg' & _). split.
    + split; rewrite ?E1, ?E2, ?E3; try done; cbn; [by rewrite orb_true_r|]. cbn in S2. by rewrite S2, Hst.
    + intros h Hin. rewrite E1. destruct (Ha' h Hin); [by left|right; by eapply grows_known].
  - destruct (bool_decide (hashDownloadingBlock _ ∖ _ = ∅)); [|subst w'; by apply Hoff].
    destruct (Hoff false ltac:(done)) as [S1 Ha']. split; [by eapply sync_inv_getdata|].
    apply PushGetDataMessage_Ok in Hok as ->. exact Ha'.
Qed.

Lemma process_all_tracked msgs : pres tracked (process_all p VerifyScript fuel msgs).
Proof.
  apply process_all_pres; [apply tracked_stable|intros; by eapply tracked_Headers|intros; by eapply tracked_Blocks].
Qed.
End announced.

(** The process as it starts, on any chain and with any nodes. *)
Definition fresh (w : peer db) : Prop := pl_ibd w = IBD_new ∧ pl_isStarted w = false ∧ pl_jobs w = 0%nat.

Lemma fresh_tracked w : fresh w → tracked ∅ w.
Proof. intros (E1 & E2 & E3). split; [|set_solver]. split; rewrite ?E1, ?E2, ?E3; cbn; set_solver. Qed.

(** ** A peer that answers *)

Definition request (node : Z) (l : list blob) : Z * net_message :=
  (node, MInvs NetMsgType.GETDATA (mk_Inv MSG_WITNESS_BLOCK <$> l)).
Definition requested (node : Z) (w : peer db) (h : blob) : Prop :=
  ∃ l, request node l ∈ pl_out w ∧ h ∈ l.

(** Blocks that were asked for arrive, and their handling returns. *)
Inductive served (node : Z) : peer db → list Block → peer db → Prop :=
  | served_nil w : served node w [] w
  | served_cons w b w1 bs w' :
      requested node w (block_GetHash b) → Blocks_read p VerifyScript fuel node b w = (Ok false, w1) →
      served node w1 bs w' → served node w (b :: bs) w'.

(** The chain accepts the blocks one after the other. *)
Inductive accepts : chain db → list Block → chain db → Prop :=
  | accepts_nil c : accepts c [] c
  | accepts_cons c b c1 bs c' :
      AcceptBlock p VerifyScript fuel b false c = (Ok true, c1) → accepts c1 bs c' → accepts c (b :: bs) c'.

Lemma Blocks_read_eq node b w c :
  block_GetHash b ∈ hashIBDBlocks (pl_ibd w) → AcceptBlock p VerifyScript fuel b false (pl_chain w) = (Ok true, c) →
  let h := block_GetHash b in let i := pl_ibd w in
  Blocks_read p VerifyScript fuel node b w =
  if isGetHeaders i && bool_decide (hashIBDBlocks i ∖ {[h]} = ∅)
  then pm_bind IBDComplete (λ _, pm_ret false) (crossed_off h c true w)
  else if bool_decide (hashDownloadingBlock i ∖ {[h]} = ∅) then (Ok false, asked_next node (crossed_off h c false w))
  else (Ok false, crossed_off h c false w).
Proof.
  cbn zeta. intros Hin Hacc. unfold Blocks_read. revert Hin. generalize (block_GetHash b). intros h Hin.
  unfold pm_bind at 1, pm_gets at 1. rewrite (bool_decide_eq_true_2 _ Hin). cbn [negb].
  unfold pm_bind at 1, pm_chain. rewrite Hacc. cbn [negb].
  unfold modify_ibd at 1, pm_bind at 1 2, pm_modify at 1, pm_gets at 1.
  cbn [pl_ibd set_ibd hashIBDBlocks hashDownloadingBlock isGetHeaders]. unfold crossed_off. rewrite orb_true_r, orb_false_r.
  destruct (isGetHeaders (pl_ibd w) && _); [reflexivity|]. destruct (bool_decide _); [|reflexivity].
  unfold pm_bind. by rewrite PushGetDataMessage_eq.
Qed.

Lemma IBDComplete_eq t c w :
  GetActiveTip (pl_chain w) = (Ok (Some t), c) → pl_isStarted w = false →
  IBDComplete w = (Ok (), mk_peer (pl_ibd w) c (pl_nodes w) (pl_out w) true (S (pl_jobs w))).
Proof.
  intros Ht Hst. unfold IBDComplete, pm_bind at 1, pm_chain. rewrite Ht. cbn [pm_deref].
  unfold pm_bind, pm_ret, StartGPU, pm_gets, pm_modify. cbn. by rewrite Hst.
Qed.

Lemma set_without_head (h : blob) (l : list blob) : h ∉ l → list_to_set (h :: l) ∖ {[h]} = (list_to_set l : gset blob).
Proof.
  intros Hh. cbn [list_to_set]. apply set_eq. intros x. rewrite elem_of_difference, elem_of_union, !elem_of_singleton, elem_of_list_to_set.
  split; [tauto|]. intros Hx. split; [by right|]. by intros ->.
Qed.

Lemma list_to_set_ne (l : list blob) : l ≠ [] → (list_to_set l : gset blob) ≠ ∅.
Proof.
  destruct l as [|h l]; [done|]. intros _ E.
  assert (h ∈ (∅ : gset blob)) as Hh by (rewrite <- E; apply elem_of_list_to_set; left). by apply elem_of_empty in Hh.
Qed.

(** What the process looks like when the download is over. *)
Definition synced (w : peer db) : Prop :=
  isFinish (pl_ibd w) = true ∧ hashIBDBlocks (pl_ibd w) = ∅ ∧ hashSendingGetData (pl_ibd w) = [] ∧
  hashDownloadingBlock (pl_ibd w) = ∅ ∧ pl_isStarted w = true ∧ pl_jobs w = 1%nat.

(** [D] has been asked for, [S] waits. *)
Lemma download_loop node t c'' c' : ∀ bs D S w,
  block_GetHash <$> bs = D ++ S → D ≠ [] → NoDup (D ++ S) →
  pl_ibd w = mk_IBD (list_to_set (D ++ S)) S (list_to_set D) false true false →
  pl_isStarted w = false → pl_jobs w = 0%nat → accepts (pl_chain w) bs c' → GetActiveTip c' = (Ok (Some t), c'') →
  Forall (requested node w) D →
  ∃ w', served node w bs w' ∧ synced w' ∧ pl_out w' = pl_out w ++ (request node <$> batches (length S) S).
Proof.
  induction bs as [|b bs IH]; intros D S w Hbs HD Hnd Hi Hst Hj Hacc Htip Hreq; [by destruct D|].
  inversion Hacc as [|? ? c1 ? ? Hb Hacc']; subst. destruct D as [|h D]; [done|]. cbn [app fmap list_fmap] in Hbs.
  injection Hbs as Hh Hbs. cbn [app] in Hnd. apply NoDup_cons in Hnd as [Hni Hnd].
  assert (h ∉ D) as HniD by (intros ?; apply Hni, elem_of_app; by left).
  apply Forall_cons_1 in Hreq as [Hr Hreq].
  assert (pl_ibd (crossed_off h c1 false w) = mk_IBD (list_to_set (D ++ S)) S (list_to_set D) false true false) as Hoff.
  { unfold crossed_off. rewrite Hi. cbn [pl_ibd hashIBDBlocks hashSendingGetData hashDownloadingBlock isFinish isGetHeaders
      isFirstHeaders orb app]. by rewrite (set_without_head h _ Hni), (set_without_head h D HniD). }
  pose proof (Blocks_read_eq node b w c1) as Hstep. cbn zeta in Hstep. rewrite Hh, Hi in Hstep. specialize (Hstep
    ltac:(cbn [hashIBDBlocks app]; apply elem_of_list_to_set; left) Hb).
  cbn [isGetHeaders hashIBDBlocks hashDownloadingBlock app andb] in Hstep.
  rewrite (set_without_head h _ Hni), (set_without_head h D HniD) in Hstep. rewrite <- Hh in Hr.
  destruct (decide (D ++ S = [])) as [E|E].
  { apply app_eq_nil in E as [-> ->]. destruct bs; [|done]. inversion Hacc'; subst.
    rewrite (bool_decide_eq_true_2 (list_to_set ([] ++ []) = ∅)) in Hstep by done. unfold pm_bind in Hstep.
    rewrite (IBDComplete_eq t c'' (crossed_off _ _ true w) Htip Hst) in Hstep. eexists. split; [|split].
    - eapply served_cons; [done|exact Hstep|constructor].
    - unfold synced, crossed_off. rewrite Hi. cbn [pl_ibd pl_isStarted pl_jobs hashIBDBlocks hashSendingGetData hashDownloadingBlock
        isFinish app orb]. rewrite !(set_without_head _ []) by apply not_elem_of_nil. by rewrite Hj.
    - cbn. by rewrite app_nil_r. }
  rewrite (bool_decide_eq_false_2 (list_to_set (D ++ S) = ∅)) in Hstep by (by apply list_to_set_ne).
  destruct (decide (D = [])) as [->|HD'].
  - rewrite bool_decide_eq_true_2 in Hstep by done. cbn [app] in *.
    assert (take 16 S ≠ []) as Hne by (by destruct S).
    destruct (IH (take 16 S) (drop 16 S) (asked_next node (crossed_off h c1 false w)))
      as (w' & Hs & Hsync & Ho); rewrite ?take_drop; try done.
    + unfold asked_next. rewrite Hoff. cbn [pl_ibd hashIBDBlocks hashSendingGetData hashDownloadingBlock isFinish isGetHeaders
        isFirstHeaders list_to_set]. by rewrite union_empty_r_L.
    + apply list.Forall_forall. intros x Hx. exists (take 16 S). split; [|done]. unfold asked_next. rewrite Hoff.
      cbn [hashSendingGetData pl_out]. rewrite bool_decide_eq_false_2 by done. apply elem_of_app. right. by left.
    + exists w'. split; [by eapply served_cons|]. split; [done|]. rewrite Ho.
      unfold asked_next. rewrite Hoff. cbn [hashSendingGetData pl_out]. rewrite bool_decide_eq_false_2 by done.
      rewrite <- app_assoc. f_equal. destruct S as [|s0 S0]; [done|]. cbn [length batches fmap list_fmap app]. f_equal.
      f_equal. apply batches_enough; rewrite length_drop; cbn [length]; lia.
  - rewrite (bool_decide_eq_false_2 (list_to_set D = ∅)) in Hstep by (by apply list_to_set_ne).
    destruct (IH D S (crossed_off h c1 false w)) as (w' & Hs & Hsync & Ho); try done.
    exists w'. split; [eapply served_cons; done|]. done.
Qed.

Lemma Headers_read_returns node hs w :
  hs ≠ [] → (length hs < 2000)%nat → (Headers_read node hs w).1 = Ok false.
Proof.
  intros Hne Hl. unfold Headers_read. rewrite bool_decide_eq_false_2 by done.
  unfold modify_ibd at 1, pm_bind at 1 2, pm_modify at 1. rewrite PushGetDataMessage_eq.
  by rewrite (proj2 (Nat.ltb_lt _ _) Hl).
Qed.

(** ** A block that is announced again *)

Section again.
Context (h : blob).

Definition stuck (w : peer db) : Prop :=
  sync_inv w ∧ h ∈ hashIBDBlocks (pl_ibd w) ∧ index_IsExist (c_index (pl_chain w)) h = true ∧ isFinish (pl_ibd w) = false.

Lemma stuck_stable : stable stuck.
Proof.
  intros w w' (Hs & Hh & He & Hf) Hn. split; [by eapply sync_inv_stable|]. destruct Hn as (-> & _ & _ & Hg & _).
  split_and!; [done|by apply Hg|done].
Qed.

Lemma AcceptBlock_exists b m (c c' : chain db) ok :
  index_IsExist (c_index c) (block_GetHash b) = true → AcceptBlock p VerifyScript fuel b m c = (Ok ok, c') → ok = false.
Proof.
  intros He. unfold AcceptBlock. intros (tip & c1 & H1 & Hc)%ch_bind_Ok. apply ch_bind_Ok in Hc as (act & c2 & H2 & Hc).
  pose proof (GetTip_grows (hd_hashPrevBlock (blk_hd b)) c) as [G1 _]. rewrite H1 in G1. apply G1 in He.
  pose proof (GetActiveTip_grows c1) as [G2 _]. rewrite H2 in G2. apply G2 in He. cbn [snd] in He.
  unfold ch_bind at 1, ch_get at 1 in Hc. apply ch_bind_Ok in Hc as (prev & c3 & Hl & Hc). rewrite He in Hc. by injection Hc as <- _.
Qed.

Lemma stuck_Headers node hs w a w' :
  stuck w → isFinish (pl_ibd w) = false → Headers_read node hs w = (Ok a, w') → stuck w'.
Proof.
  intros (Hs & Hh & He & Hf) _ Hr. destruct (tracked_Headers ∅ node hs w a w') as [Hs' _]; [by split; [|set_solver]|done|done|].
  split; [done|]. assert (isFirstHeaders (pl_ibd w) = false) as Hfirst.
  { apply not_true_iff_false. intros E%(si_first _ Hs). rewrite E in Hh. by apply elem_of_empty in Hh. }
  destruct (decide (hs = [])) as [->|Hne].
  - destruct (Headers_read_nil _ _ _ _ Hr) as (E1 & _ & _ & [Hg _] & _). rewrite E1, Hfirst, Hf. auto.
  - destruct (Headers_read_cons _ _ _ _ _ Hne Hr) as (E1 & _ & _ & [Hg _] & _). rewrite E1, Hf. cbn.
    split_and!; [by apply elem_of_union_r|auto|done].
Qed.

Lemma stuck_Blocks node b w a w' :
  stuck w → isFinish (pl_ibd w) = false → Blocks_read p VerifyScript fuel node b w = (Ok a, w') → stuck w'.
Proof.
  intros (Hs & Hh & He & Hf) _ Hr. destruct (tracked_Blocks ∅ node b w a w') as [Hs' _]; [by split; [|set_solver]|done|done|].
  split; [done|]. destruct (Blocks_read_Ok _ _ _ _ _ Hr) as [[_ ->]|(Hb & ok & c & Hacc & Hok)]; [done|].
  pose proof (AcceptBlock_grows p VerifyScript fuel b false (pl_chain w)) as [Hg _]. rewrite Hacc in Hg. cbn [snd] in Hg.
  destruct ok; [|subst w'; cbn; auto].
  assert (h ≠ block_GetHash b) as Hne.
  { intros ->. by apply (AcceptBlock_exists _ _ _ _ _ He) in Hacc. }
  revert Hok Hne. clear Hb Hacc Hr. generalize (block_GetHash b). intros hb Hok Hne.
  assert (h ∈ hashIBDBlocks (pl_ibd w) ∖ {[hb]}) as Hin
    by (apply elem_of_difference; split; [done|by apply not_elem_of_singleton]).
  rewrite (bool_decide_eq_false_2 (hashIBDBlocks (pl_ibd w) ∖ _ = ∅)), andb_false_r in Hok.
  2: { intros E. rewrite E in Hin. by apply elem_of_empty in Hin. }
  destruct (bool_decide (_ = ∅)); [apply PushGetDataMessage_Ok in Hok|]; subst w'; cbn; rewrite Hf; auto.
Qed.

Lemma process_all_stuck msgs : pres stuck (process_all p VerifyScript fuel msgs).
Proof. apply process_all_pres; [apply stuck_stable|intros; by eapply stuck_Headers|intros; by eapply stuck_Blocks]. Qed.
End again.
End handler.

(** ** Properties *)

(** C5 Mining starts only when the chain knows every block that was announced.  From the start of the process, whatever
    messages the peers send: once a headers message was handled during the download, each block it announced is, whenever
    the miner has been started, stored or waiting among the orphans; the miner's thread is given at most one job; and
    every block still outstanding is queued or has been asked for. *)
Theorem mining_waits_for_announced_blocks {db : Type} `{LevelDBLaws db} (p : ParamsBase) (VerifyScript : script_verifier)
    (fuel : nat) (w0 w1 w2 w3 : peer db) (msgs1 msgs2 : list (Z * NetMessageData)) (node : Z) (hs : list BlockHeader) (a : bool) :
  fresh w0 → process_all p VerifyScript fuel msgs1 w0 = (Ok (), w1) → isFinish (pl_ibd w1) = false →
  Headers_read node hs w1 = (Ok a, w2) → process_all p VerifyScript fuel msgs2 w2 = (Ok (), w3) →
  (pl_isStarted w3 = true → Forall (known (pl_chain w3)) (header_GetHash true <$> hs)) ∧ (pl_jobs w3 <= 1)%nat ∧
  (∀ h, h ∈ hashIBDBlocks (pl_ibd w3) → h ∈ hashSendingGetData (pl_ibd w3) ∨ h ∈ hashDownloadingBlock (pl_ibd w3)).
Proof.
  intros Hw0 H1 Hfin H2 H3. pose proof (process_all_tracked p VerifyScript fuel ∅ msgs1 _ _ _ (fresh_tracked _ Hw0) H1) as Ht1.
  destruct (tracked_Headers ∅ node hs w1 a w2 Ht1 Hfin H2) as [Hs2 _].
  assert (tracked (hashIBDBlocks (pl_ibd w2)) w2) as Ht2 by (split; [done|by left]).
  destruct (process_all_tracked p VerifyScript fuel _ msgs2 _ _ _ Ht2 H3) as [Hs3 Ha]. split_and!.
  - intros Hst. pose proof (si_finish _ Hs3 (si_started _ Hs3 Hst)) as Hemp. apply list.Forall_forall. intros h Hh.
    destruct (decide (hs = [])) as [->|Hne]; [by apply elem_of_nil in Hh|].
    destruct (Headers_read_cons _ _ _ _ _ Hne H2) as (E & _). destruct (Ha h) as [Hin|]; [|rewrite Hemp in Hin; set_solver|done].
    rewrite E. cbn [hashIBDBlocks]. apply elem_of_union_l. by apply elem_of_list_to_set.
  - rewrite (si_jobs _ Hs3). destruct (pl_isStarted w3); lia.
  - apply (si_asked _ Hs3).
Qed.

(** The peer of the witnesses: a regtest node with the genesis block and one connection. *)
Definition sample_peer : peer gmap_db := mk_peer IBD_new regtest_start {[1 := Node_new 1 0]} [] false 0.
Definition block_message (b : Block) : NetMessageData := nd_of_buffer (frame (MBlock b)) 0.
Abbreviation any_script := (λ _ _ _ _ _ _ _, true : bool).
Abbreviation run_sample msgs := (process_all RegTestParams any_script 5 msgs).

Lemma mining_waits_for_announced_blocks_witness :
  ∃ w2 w3, Headers_read 1 [GetBlockHeader regtest_block] sample_peer = (Ok false, w2) ∧
    run_sample [(1, block_message regtest_block)] w2 = (Ok (), w3) ∧ pl_isStarted w3 = true ∧
    known (pl_chain w3) (header_GetHash true (GetBlockHeader regtest_block)).
Proof.
  destruct (Headers_read 1 [GetBlockHeader regtest_block] sample_peer) as [r2 w2] eqn:E2.
  assert (r2 = Ok false) as -> by (change r2 with (r2, w2).1; rewrite <- E2; vm_compute; reflexivity).
  destruct (run_sample [(1, block_message regtest_block)] w2) as [r3 w3] eqn:E3.
  assert (r3 = Ok () ∧ pl_isStarted w3 = true) as [-> Hst].
  { change r3 with (r3, w3).1. change (pl_isStarted w3) with (pl_isStarted (r3, w3).2).
    change w2 with (Ok false, w2).2 in E3. rewrite <- E2 in E3. rewrite <- E3. split; vm_compute; reflexivity. }
  exists w2, w3. split_and!; [done|done|done|].
  destruct (mining_waits_for_announced_blocks RegTestParams any_script 5 sample_peer sample_peer w2 w3 []
    [(1, block_message regtest_block)] 1 [GetBlockHeader regtest_block] false) as (Hk & _ & _).
  - split_and!; reflexivity.
  - reflexivity.
  - reflexivity.
  - exact E2.
  - exact E3.
  - exact (Forall_inv (Hk Hst)).
Defined.

(** C12 The download from a peer that answers completes.  From the start of the process, when a peer announces fewer than
    2000 new blocks, sends each block after it was asked for it, in the order of the announcement, and the chain accepts
    them in that order, every handler returns, the blocks are asked for sixteen at a time and each once, and at the end
    nothing is outstanding, the download is finished and the miner has been started. *)
Theorem download_completes {db : Type} `{LevelDBLaws db} (p : ParamsBase) (VerifyScript : script_verifier) (fuel : nat)
    (w : peer db) (c' c'' : chain db) (tip : BlockIndex) (node : Z) (hs : list BlockHeader) (bs : list Block) :
  fresh w → hs ≠ [] → (length hs < 2000)%nat → NoDup (header_GetHash true <$> hs) →
  block_GetHash <$> bs = header_GetHash true <$> hs →
  accepts p VerifyScript fuel (pl_chain w) bs c' → GetActiveTip c' = (Ok (Some tip), c'') →
  ∃ w1 w', Headers_read node hs w = (Ok false, w1) ∧ served p VerifyScript fuel node w1 bs w' ∧ synced w' ∧
    pl_out w' = pl_out w ++ (request node <$> batches (length hs) (header_GetHash true <$> hs)).
Proof.
  intros (Ei & Est & Ej) Hne Hl Hnd Hbs Hacc Htip. pose proof (Headers_read_returns node hs w Hne Hl) as Hr.
  destruct (Headers_read node hs w) as [r w1] eqn:E. cbn [fst] in Hr. subst r. exists w1.
  destruct (Headers_read_cons _ _ _ _ _ Hne E) as (E1 & E2 & E3 & _ & Hchain). destruct (Hchain Hl) as [E4 E5].
  rewrite Ei in E1, E5. cbn [hashSendingGetData hashIBDBlocks hashDownloadingBlock isFinish isGetHeaders IBD_new app orb] in E1, E5.
  rewrite !union_empty_r_L, (proj2 (Nat.ltb_lt _ _) Hl) in E1. set (l := header_GetHash true <$> hs) in *.
  assert (l ≠ []) as Hl' by (subst l; by destruct hs).
  destruct (download_loop p VerifyScript fuel node tip c'' c' bs (take 16 l) (drop 16 l) w1) as (w' & Hs & Hsync & Ho).
  - by rewrite take_drop.
  - by destruct l.
  - by rewrite take_drop.
  - by rewrite take_drop.
  - congruence.
  - congruence.
  - by rewrite E4.
  - done.
  - apply list.Forall_forall. intros h Hh. exists (take 16 l). split; [|done]. rewrite E5. apply elem_of_app. right. by left.
  - exists w'. split_and!; [done|done|done|]. rewrite Ho, E5, <- app_assoc. f_equal.
    assert (length hs = length l) as -> by (subst l; by rewrite length_fmap). destruct l as [|x l]; [done|].
    cbn [length batches fmap list_fmap app]. f_equal.
    rewrite (batches_enough (length (drop 16 (x :: l))) (length l)); [done|lia|rewrite length_drop; cbn [length]; lia].
Qed.

Lemma download_completes_witness :
  ∃ w1 w', Headers_read 1 [GetBlockHeader regtest_block] sample_peer = (Ok false, w1) ∧
    served RegTestParams any_script 5 1 w1 [regtest_block] w' ∧ synced w' ∧
    pl_out w' = [request 1 [header_GetHash true (GetBlockHeader regtest_block)]].
Proof.
  destruct (AcceptBlock RegTestParams any_script 5 regtest_block false regtest_start) as [r c'] eqn:E.
  assert (r = Ok true) as -> by (change r with (r, c').1; rewrite <- E; vm_compute; reflexivity).
  destruct (GetActiveTip c') as [r t] eqn:Et.
  assert (∃ tip, r = Ok (Some tip)) as [tip ->].
  { eexists. change r with (r, t).1. rewrite <- Et. change c' with (Ok true, c').2. rewrite <- E. vm_compute. reflexivity. }
  apply (download_completes RegTestParams any_script 5 sample_peer c' t tip 1 [GetBlockHeader regtest_block] [regtest_block]).
  - split; [|split]; reflexivity.
  - discriminate.
  - cbn. lia.
  - apply NoDup_singleton.
  - vm_compute. reflexivity.
  - eapply accepts_cons; [exact E|apply accepts_nil].
  - exact Et.
Defined.

(** The download never finishes after a block was announced that is already stored: if a headers message names, during
    the download, a block whose index exists (as the repeated requests after a full message of 2000 headers make a
    correct peer do), then whatever the peers send afterwards that block stays outstanding, the download stays unfinished
    and mining does not start, because [AcceptBlock] rejects the block each time it arrives. *)
Theorem announced_again_stalls_forever {db : Type} `{LevelDBLaws db} (p : ParamsBase) (VerifyScript : script_verifier)
    (fuel : nat) (w0 w1 w2 w3 : peer db) (msgs1 msgs2 : list (Z * NetMessageData)) (node : Z) (hs : list BlockHeader) (a : bool)
    (h : blob) :
  fresh w0 → process_all p VerifyScript fuel msgs1 w0 = (Ok (), w1) → isFinish (pl_ibd w1) = false →
  h ∈ header_GetHash true <$> hs → index_IsExist (c_index (pl_chain w1)) h = true →
  Headers_read node hs w1 = (Ok a, w2) → process_all p VerifyScript fuel msgs2 w2 = (Ok (), w3) →
  h ∈ hashIBDBlocks (pl_ibd w3) ∧ isFinish (pl_ibd w3) = false ∧ pl_isStarted w3 = false.
Proof.
  intros Hw0 H1 Hfin Hh He H2 H3. pose proof (process_all_tracked p VerifyScript fuel ∅ msgs1 _ _ _ (fresh_tracked _ Hw0) H1) as Ht1.
  destruct (tracked_Headers ∅ node hs w1 a w2 Ht1 Hfin H2) as [Hs2 _].
  assert (hs ≠ []) as Hne by (intros ->; by apply elem_of_nil in Hh).
  destruct (Headers_read_cons _ _ _ _ _ Hne H2) as (E & _ & _ & [Hg _] & _).
  assert (stuck h w2) as Hst.
  { split; [done|]. rewrite E. cbn. split_and!; [apply elem_of_union_l; by apply elem_of_list_to_set|auto|done]. }
  destruct (process_all_stuck p VerifyScript fuel h msgs2 _ _ _ Hst H3) as (Hs3 & Hin & _ & Hf). split_and!; [done|done|].
  apply not_true_iff_false. intros ?%(si_started _ Hs3). congruence.
Qed.

Lemma announced_again_stalls_forever_witness :
  ∃ w2 w3, Headers_read 1 [GetBlockHeader GetGenesisBlock] sample_peer = (Ok false, w2) ∧
    run_sample [(1, block_message GetGenesisBlock)] w2 = (Ok (), w3) ∧
    header_GetHash true (GetBlockHeader GetGenesisBlock) ∈ hashIBDBlocks (pl_ibd w3) ∧ pl_isStarted w3 = false.
Proof.
  destruct (Headers_read 1 [GetBlockHeader GetGenesisBlock] sample_peer) as [r2 w2] eqn:E2.
  assert (r2 = Ok false) as -> by (change r2 with (r2, w2).1; rewrite <- E2; vm_compute; reflexivity).
  destruct (run_sample [(1, block_message GetGenesisBlock)] w2) as [r3 w3] eqn:E3.
  assert (r3 = Ok ()) as ->.
  { change r3 with (r3, w3).1. change w2 with (Ok false, w2).2 in E3. rewrite <- E2 in E3. rewrite <- E3. vm_compute. reflexivity. }
  destruct (announced_again_stalls_forever RegTestParams any_script 5 sample_peer sample_peer w2 w3 []
    [(1, block_message GetGenesisBlock)] 1 [GetBlockHeader GetGenesisBlock] false
    (header_GetHash true (GetBlockHeader GetGenesisBlock))) as (Hin & _ & Hst).
  - split; [|split]; reflexivity.
  - reflexivity.
  - reflexivity.
  - apply list_elem_of_here.
  - vm_compute. reflexivity.
  - exact E2.
  - exact E3.
  - exists w2, w3. split; [exact eq_refl|]. split; [exact E3|]. split; [exact Hin|exact Hst].
Defined.
